(* ===== verification/_CoqProject ===== *)
-Q . S2P
Prelude.v
F64.v
RustPath.v
RustStr.v
IpAddr.v
Common.v
Kernel.v
Response.v
ProcMon.v
Isolation.v
Semantic.v
Coverage.v
Entropy.v
Scorer.v
MultiWindow.v
Engine.v
PolicyTrust.v
Receipts.v
Bundle.v
VaultQuota.v
BundleServer.v
VaultQueue.v
BundleJobs.v
VaultClient.v
BundleClient.v
Archive.v
Backup.v
Retention.v
Outbox.v
Agent.v
Simulation.v
ExceptionAudit.v
Evidence.v
Brain.v
Central.v
Reporter.v
RetentionWorker.v
