(* ===== verification/Prelude.v ===== *)
(** * Argos AI Security: a verification development

    Argos watches files and processes, scores behaviour that looks like
    ransomware, blocks processes under a signed policy, and keeps evidence and
    backups in a vault. This library models the core of the Rust workspace
    under src/crates/ and proves what makes it correct.

    ** Files

    - [Prelude]: machine integers at their width, results, total orders, sums
      over finite maps, the tactics and hint databases the other files share.
    - [F64]: IEEE binary64 as [spec_float], with the order laws scores need,
      and the class [RustStd] of library functions (log2, Display).
    - [RustPath], [RustStr]: the parts of std::path and str the source uses;
      [IpAddr]: the parser and printer of IP addresses.
    - [Common]: events and configuration (argos-common).
    - [Kernel]: what the agent asks of Linux about processes, as a class with the
      documented laws, and a small kernel that satisfies them.
    - [Response]: the guarded kill and stop of a process over that interface
      (argos-response/src/lib.rs).
    - [ProcMon]: reading processes from /proc, the context of a file event and the
      polling monitor (argos-sensor/src/procmon.rs, health.rs).
    - [Isolation]: network isolation and release over any firewall runner
      (argos-response/src/isolate.rs).
    - [Semantic]: the monitor of configuration files (argos-agent/src/semantic.rs).
    - [Coverage]: the inspection of what the file sensors still cover, with the
      mount list (argos-sensor/src/coverage.rs).
    - [Entropy]: content sampling and the encryption signal (argos-detect/src/entropy.rs).
    - [Scorer]: the short-window behaviour score per PID (scorer.rs).
    - [MultiWindow]: the bounded long-window log and its groups (multi_window.rs).
    - [Engine]: one event through approvals, exclusions, both scorers and the
      canary files, and the validation of a configuration (argos-detect/src/lib.rs).
    - [PolicyTrust]: signed policies and their activation (argos-policy/src/lib.rs, trust.rs).
    - [Receipts]: identifiers, signed receipts and signed JSON values of the
      vault (argos-vault/src/lib.rs).
    - [Bundle]: recovery bundles: manifests, completions, the chain of reviews
      and their verification (argos-vault/src/bundle.rs).
    - [VaultQuota]: the vault server's accounts, startup scan and publication
      (argos-vault/src/quota.rs, Storage of server.rs).
    - [BundleServer]: the bundle catalog over that store: registration,
      completion and review with durable intents (argos-vault/src/bundle/server.rs).
    - [VaultQueue]: the agent's upload queue with leases (argos-vault/src/queue.rs).
    - [BundleJobs]: bundles registered in that queue and the jobs that complete
      them at the server (argos-vault/src/queue/jobs.rs).
    - [VaultClient]: the HTTP client of the vault as conversations with an
      arbitrary server, with a small program logic (argos-vault/src/client.rs).
    - [BundleClient]: preparing, uploading, listing, reviewing and restoring
      bundles (argos-vault/src/bundle/client.rs); its Module [EndToEnd] runs the
      client against [BundleServer].
    - [Archive]: the export of the queue's receipts and its verification
      (argos-vault/src/queue/archive.rs).
    - [Backup]: the backup store, trust, restore, pruning (argos-recovery/src/lib.rs).
    - [Retention]: incident pins, release approvals and their audit
      (argos-recovery/src/retention.rs), and all operations of the store together.
    - [Outbox]: the agent's event database: detections, reports to send,
      retention jobs (argos-storage/src/outbox.rs).
    - [Agent]: the agent itself: one event through sampling, [Engine], [Semantic],
      [Response] and [Outbox], the guard of the policy time and the steps of its
      main loop from the start on (argos-agent/src/main.rs).
    - [Simulation]: the replay of recorded events under a policy and the comparison
      of two policies (argos-policy/src/simulation.rs, file_events_in_range of
      argos-storage/src/lib.rs); its last part runs it on what [Agent] stored.
    - [ExceptionAudit]: the use of each approved change in that replay
      (argos-policy/src/exception_audit.rs).
    - [Evidence]: the queries of investigations over the event database, and what its
      tables tell about the run that filled them (argos-storage/src/evidence.rs,
      response_audit.rs and the queries of lib.rs).
    - [Brain]: the explanation of that evidence by a language model that may answer
      anything (argos-brain/src/lib.rs, validation.rs).
    - [Central]: the central server (argos-central/src/main.rs).
    - [Reporter]: the reporter between them, and the whole system as a sequence
      of steps (argos-agent/src/reporter.rs).
    - [RetentionWorker]: the worker that pins the evidence of detections, between
      [Outbox] and [Retention] (run_retention of argos-agent/src/backup_worker.rs).

    ** How the model follows the code

    State is explicit: a method of [&mut self] takes the state record and
    returns the new one with its result ([BundleServer.M] where a request threads
    it through many calls); [Result] is [result], early returns
    are [guard] and [let?]. A function with several phases is one definition
    per phase, composed by the definition that carries its name. Loops whose
    bound is not structural take fuel: [Entropy.read_loop] needs one turn per
    byte of the buffer and one more, which [file_entropy_prefix] proves enough;
    [MultiWindow.expire_old], [MultiWindow.shed_log] and [Scorer.shed_events]
    take one turn per stored event, and the memory bounds prove that enough.
    What lies outside the source is a class or an argument: hashes, signatures
    and parsers ([PolicyCrypto], [VaultCrypto]), the file system at one moment
    ([PolicyFiles], [PutEnv], [QueueEnv]) with every outcome a call can have,
    clocks and random numbers. Theorems name the laws of these they need.

    ** What the theorems show

    - Detection: scores are numbers between 0 and 100; memory stays bounded
      under any stream of events; a process is blocked only on its own
      evidence, which the bounded logs do not distort; canaries always count;
      approvals and exclusions act only within their scope.
    - The agent: every signal of any run kills the very process whose identity was
      read for an event worth blocking, under a policy in its time; an expired
      policy silences the response for good; what the agent does to the system is
      independent of its databases, and every attempt is recorded. It starts on the
      event database it finds, with the rows of earlier runs.
    - Response: one signal to one process, never to a group or to the agent, however
      numbers are reused; isolation denies by default, changes nothing before both
      address families passed their test and reports success only after both were
      applied and, after that, read back and confirmed.
    - Observation: a context identifies one process instance although its files are
      read one by one; a receiver that starts with nothing knows the last scan but for
      the unchanged baseline, which is never sent; every difference between two
      successful looks at a configuration file is reported, without its content.
    - Policy: a version is never replayed, the high-watermark survives any
      history of failures, only trusted and applicable policies are activated,
      rollbacks restore accepted settings, the audit trail is bounded.
    - Vault server: accounts refine the stored objects along any history of
      failures, limits and the separate revocation budget hold, resends are
      idempotent.
    - Bundles: a complete bundle can be rebuilt from what is stored; reviews are
      append-only and none is forgotten once acknowledged or retained: the record
      holds an event for that very request, not one that shares its ID; a catalog
      that was rolled back is noticed; the last review binds the record.
    - Upload queue: nothing enqueued is lost until its receipt is archived,
      leases are exclusive, stale workers change nothing, due items are claimed.
    - Bundle jobs: a registered bundle keeps its job and all its chunks until
      they are uploaded, a job completes only with proof, ready jobs are claimed,
      and the tables always pass their own check.
    - Receipt archives: an export under concurrent additions is complete and verifies;
      what verifies is exactly the text of distinct, signed receipts.
    - Policy tools: a replay counts what the engine judges, row by row; it names every
      instance the agent really signalled, also when the database holds older rows; the audit credits each approval with exactly
      the recorded events it hits.
    - Investigations: a query returns exactly the first rows it selects and announces
      the rest; an explanation shows nothing but the answer its provider gave to the
      one request, each claim in its section on one line without control characters,
      and cites, for what is unknown too, only rows of the database; for a run of the
      agent these rows are what really happened or were there before.
    - Clients of the vault: tokens go only to the configured endpoint: [VaultClient.transmit] follows
      redirects as the settings of the client say, and [VaultClient.connection] turns
      them off and keeps loopback HTTP away from proxies; an upload
      is registered first and completed last and its receipts satisfy the queue;
      the pages of the server are accepted and complete; what is restored was
      approved and, from preparation to restoration, is the same file.
    - Recovery: what backup records reads back; pinned and known-good versions
      survive every operation, failing commits included, and stay restorable;
      pruning removes exactly the rest; a restore that fails leaves every existing
      entry alone and at most new directories or its temporary file behind; pins end only by a fresh approval of
      someone else, and the audit is the history of the pins.
    - Reports: exactly-once delivery over a network that loses requests and
      answers for every detection in the store, delivery oldest first when it works,
      isolation of agents at the server.
    - Retention jobs: all accounted for; a completed job has pinned the evidence.
    - Sensor coverage: a report without a gap is one whose roots, mounts and
      whole trees were seen unchanged; its work is bounded; mount points are
      decoded without loss.

    ** Not modelled

    Kernel interfaces other than those of [Kernel], HTTP and TLS themselves, command
    lines, external tools and the formats of TOML, JSON and SQLite. Service
    recovery, the file sensors and the agent's capture thread are listed in the manifest with their reasons. A SQL read
    that fails ends a request like any other error and is not a separate outcome.
    Migration of older queue formats is left out. *)
From Stdlib Require Import ZArith Lia.
From stdpp Require Import base gmap strings list numbers pretty option sorting.
#[local] Open Scope Z_scope.

(** * Machine integers

    A Rust [u64], [u32] or [usize] (64-bit target) is a [Z]; every operation of
    the source that can leave the range is written with the behaviour the
    source asks for: saturating, checked or wrapping. *)

Definition u64_max : Z := 18446744073709551615.
Definition u32_max : Z := 4294967295.
Definition i64_max : Z := 9223372036854775807.

Definition in_u64 (x : Z) : Prop := 0 <= x <= u64_max.

Definition sat_add (a b : Z) : Z := Z.min (a + b) u64_max.
Definition sat_sub (a b : Z) : Z := Z.max (a - b) 0.
Definition sat_mul (a b : Z) : Z := Z.min (a * b) u64_max.
Definition sat_add32 (a b : Z) : Z := Z.min (a + b) u32_max.
Definition sat_sub32 (a b : Z) : Z := Z.max (a - b) 0.
Definition checked_add (a b : Z) : option Z :=
  if a + b <=? u64_max then Some (a + b) else None.
Definition checked_mul (a b : Z) : option Z :=
  if a * b <=? u64_max then Some (a * b) else None.
Definition wrap_add (a b : Z) : Z := (a + b) mod 18446744073709551616.
Definition clamp (x lo hi : Z) : Z := if x <? lo then lo else if hi <? x then hi else x.

(** [Option::is_some_and] and [Option::is_none_or]. *)
Definition is_some_and {A} (o : option A) (p : A -> bool) : bool :=
  match o with Some a => p a | None => false end.
Definition is_none_or {A} (o : option A) (p : A -> bool) : bool :=
  match o with Some a => p a | None => true end.
Definition is_some {A} (o : option A) : bool :=
  match o with Some _ => true | None => false end.
(** [Option::filter], [Option::zip] and [Option::unwrap_or]. *)
Definition opt_filter {A} (p : A -> bool) (o : option A) : option A :=
  match o with Some a => if p a then Some a else None | None => None end.
Definition opt_zip {A B} (a : option A) (b : option B) : option (A * B) :=
  match a, b with Some x, Some y => Some (x, y) | _, _ => None end.

Definition zlen {A} (l : list A) : Z := Z.of_nat (length l).
Definition slen (s : string) : Z := Z.of_nat (String.length s).
Definition sumZ (l : list Z) : Z := foldr Z.add 0 l.

(** * Results: a Rust [Result<A, E>]. *)

Inductive result (A E : Type) : Type :=
| Ok (a : A)
| Err (e : E).
Arguments Ok {A E} a.
Arguments Err {A E} e.

Definition res_bind {A B E} (r : result A E) (k : A -> result B E) : result B E :=
  match r with Ok a => k a | Err e => Err e end.
Definition ok_or {A E} (o : option A) (e : E) : result A E :=
  match o with Some a => Ok a | None => Err e end.
Definition guard {E} (bad : bool) (e : E) : result unit E :=
  if bad then Err e else Ok tt.
Definition res_ok {A E} (r : result A E) : option A :=
  match r with Ok a => Some a | Err _ => None end.
Definition is_ok {A E} (r : result A E) : bool :=
  match r with Ok _ => true | Err _ => false end.

(** A SQLite transaction: a statement that fails rolls it back; a COMMIT that
    fails may have taken effect or not. *)
Inductive commit_outcome : Set := Committed | CommitFailed (applied : bool).
Definition commit_with {S A E} (failed : E) (c : commit_outcome) (before after : S) (a : A)
    : S * result A E :=
  match c with
  | Committed => (after, Ok a)
  | CommitFailed applied => (if applied then after else before, Err failed)
  end.

(** [u64 as i64] in the parameters of a statement. *)
Definition as_i64 (x : Z) : Z := if x <=? i64_max then x else x - 18446744073709551616.

Declare Scope argos_scope.
Delimit Scope argos_scope with argos.
Notation "'let?' x ':=' r 'in' k" := (res_bind r (fun x => k))
  (at level 10, x pattern, r at level 100, k at level 200) : argos_scope.
#[global] Open Scope argos_scope.

(** A loop whose body may end it with an error. *)
Fixpoint try_fold {S A E} (f : S -> A -> result S E) (l : list A) (s : S) : result S E :=
  match l with
  | [] => Ok s
  | a :: l => let? s := f s a in try_fold f l s
  end.
Definition try_each {A E} (f : A -> result unit E) (l : list A) : result unit E := try_fold (fun _ a => f a) l tt.

(** ** Calls that read or change a world [W] and may fail with an [E] *)

Definition Stateful (W E A : Type) : Type := W -> W * result A E.
Definition st_bind {W E A B} (m : Stateful W E A) (k : A -> Stateful W E B) : Stateful W E B := fun w =>
  let '(w, r) := m w in match r with Ok a => k a w | Err e => (w, Err e) end.
Definition st_result {W E A} (r : result A E) : Stateful W E A := fun w => (w, r).
(** [.ok()]: an error becomes [None]. *)
Definition tolerate {W E A} (m : Stateful W E A) : Stateful W E (option A) := fun w =>
  let '(w, r) := m w in (w, Ok (res_ok r)).
Notation "'sys?' x ':=' m 'in' k" := (st_bind m (fun x => k))
  (at level 10, x pattern, m at level 100, k at level 200) : argos_scope.

(** * Total orders: Rust's [Ord], with the laws proofs need. *)

Class Ord (A : Type) := cmp : A -> A -> comparison.

Class OrdLaws (A : Type) `{Ord A} : Prop := {
  cmp_eq : forall x y : A, cmp x y = Eq <-> x = y;
  cmp_antisym : forall x y : A, cmp y x = CompOpp (cmp x y);
  cmp_trans : forall x y z : A, cmp x y = Lt -> cmp y z = Lt -> cmp x z = Lt;
}.

#[export] Instance ord_Z : Ord Z := Z.compare.
#[export] Instance ord_string : Ord string := String.compare.
#[export] Instance ord_prod {A B} `{Ord A, Ord B} : Ord (A * B) :=
  fun x y => match cmp x.1 y.1 with Eq => cmp x.2 y.2 | c => c end.
#[export] Instance ord_option {A} `{Ord A} : Ord (option A) :=
  fun x y => match x, y with
             | None, None => Eq | None, Some _ => Lt
             | Some _, None => Gt | Some a, Some b => cmp a b end.

#[export] Instance ord_list {A} `{Ord A} : Ord (list A) :=
  fix go (l k : list A) : comparison :=
    match l, k with
    | [], [] => Eq
    | [], _ :: _ => Lt
    | _ :: _, [] => Gt
    | x :: l', y :: k' => match cmp x y with Eq => go l' k' | c => c end
    end.

(** [Iterator::min_by_key]: the first element with the least key. *)
Fixpoint min_by_key {A K} `{Ord K} (f : A -> K) (l : list A) : option A :=
  match l with
  | [] => None
  | a :: l' =>
      match min_by_key f l' with
      | Some b => match cmp (f b) (f a) with Lt => Some b | _ => Some a end
      | None => Some a
      end
  end.

(** [Iterator::max_by_key]: the last element with the greatest key. *)
Fixpoint max_by_key {A K} `{Ord K} (f : A -> K) (l : list A) : option A :=
  match l with
  | [] => None
  | a :: l' =>
      match max_by_key f l' with
      | Some b => match cmp (f a) (f b) with Gt => Some a | _ => Some b end
      | None => Some a
      end
  end.

(** [slice::sort] (stable) followed or not by [Vec::dedup]. *)
Fixpoint insert_sorted {A} `{Ord A} (x : A) (l : list A) : list A :=
  match l with
  | [] => [x]
  | y :: l' => match cmp x y with Gt => y :: insert_sorted x l' | _ => x :: l end
  end.
Definition sort {A} `{Ord A} (l : list A) : list A := foldr insert_sorted [] l.

Fixpoint dedup {A} `{Ord A} (l : list A) : list A :=
  match l with
  | x :: ((y :: _) as l') => match cmp x y with Eq => dedup l' | _ => x :: dedup l' end
  | l => l
  end.

(** The elements of a [BTreeSet] built from [l], in iteration order. *)
Definition btree_set {A} `{Ord A} (l : list A) : list A := dedup (sort l).

(** [slice::sort_by_key] and ORDER BY: stable, by increasing key. *)
Fixpoint insert_by {A K} `{Ord K} (f : A -> K) (x : A) (l : list A) : list A :=
  match l with
  | [] => [x]
  | y :: l' => match cmp (f x) (f y) with Gt => y :: insert_by f x l' | _ => x :: l end
  end.
Definition sort_by {A K} `{Ord K} (f : A -> K) (l : list A) : list A := foldr (insert_by f) [] l.

(** * Lemmas on machine integers *)

Lemma sat_add_spec (a b : Z) : 0 <= a -> 0 <= b -> in_u64 (sat_add a b).
Proof. unfold in_u64, sat_add, u64_max. lia. Qed.

Lemma sat_sub_nonneg (a b : Z) : 0 <= sat_sub a b.
Proof. unfold sat_sub. lia. Qed.

Lemma sat_sub_le (a b : Z) : 0 <= a -> 0 <= b -> sat_sub a b <= a.
Proof. unfold sat_sub. lia. Qed.

Lemma checked_add_Some (a b c : Z) :
  checked_add a b = Some c <-> c = a + b /\ a + b <= u64_max.
Proof. unfold checked_add. destruct (Z.leb_spec (a + b) u64_max); split; intros; naive_solver lia. Qed.

Lemma checked_add_None (a b : Z) : checked_add a b = None <-> u64_max < a + b.
Proof. unfold checked_add. destruct (Z.leb_spec (a + b) u64_max); split; intros; naive_solver lia. Qed.

Lemma checked_mul_Some (a b c : Z) :
  checked_mul a b = Some c <-> c = a * b /\ a * b <= u64_max.
Proof. unfold checked_mul. destruct (Z.leb_spec (a * b) u64_max); split; intros; naive_solver lia. Qed.

Lemma clamp_range (x lo hi : Z) : lo <= hi -> lo <= clamp x lo hi <= hi.
Proof. unfold clamp. destruct (Z.ltb_spec x lo), (Z.ltb_spec hi x); lia. Qed.

Lemma zlen_nonneg {A} (l : list A) : 0 <= zlen l.
Proof. unfold zlen. lia. Qed.

Lemma zlen_nil {A} : zlen (@nil A) = 0.
Proof. done. Qed.

Lemma zlen_app {A} (l k : list A) : zlen (l ++ k) = zlen l + zlen k.
Proof. unfold zlen. rewrite length_app. lia. Qed.

Lemma zlen_cons {A} (x : A) (l : list A) : zlen (x :: l) = 1 + zlen l.
Proof. unfold zlen. simpl. lia. Qed.

Lemma zlen_filter_le {A} (p : A -> bool) (l : list A) : zlen (List.filter p l) <= zlen l.
Proof. induction l as [|x l IH]; simpl; [done|]. destruct (p x); rewrite ?zlen_cons; lia. Qed.

Lemma zlen_map {A B} (f : A -> B) (l : list A) : zlen (map f l) = zlen l.
Proof. unfold zlen. by rewrite length_map. Qed.

Lemma sumZ_app (l k : list Z) : sumZ (l ++ k) = sumZ l + sumZ k.
Proof. induction l; simpl; lia. Qed.

Lemma sumZ_perm (l k : list Z) : l ≡ₚ k -> sumZ l = sumZ k.
Proof. induction 1; simpl in *; lia. Qed.

Lemma sumZ_nonneg (l : list Z) : Forall (fun x => 0 <= x) l -> 0 <= sumZ l.
Proof. induction 1; simpl; lia. Qed.

Lemma existsb_false_Forall {A} (f : A -> bool) (l : list A) :
  existsb f l = false <-> Forall (fun x => f x = false) l.
Proof.
  induction l as [|x l IH]; simpl; [by split|].
  rewrite orb_false_iff, IH, Forall_cons. done.
Qed.

Lemma existsb_ext_Forall {A} (f g : A -> bool) (l : list A) :
  Forall (fun x => f x = g x) l -> existsb f l = existsb g l.
Proof. induction 1 as [|x l Hx Hl IH]; simpl; congruence. Qed.

Lemma elem_of_take {A} (n : nat) (l : list A) (x : A) : x ∈ take n l -> x ∈ l.
Proof. intros Hx. rewrite <- (take_drop n l), elem_of_app. by left. Qed.

Lemma filter_elem {A} (p : A -> bool) (l : list A) (a : A) :
  a ∈ List.filter p l <-> a ∈ l /\ p a = true.
Proof. by rewrite !list_elem_of_In, filter_In. Qed.

Lemma filter_filter {A} (p q : A -> bool) (l : list A) :
  List.filter q (List.filter p l) = List.filter (fun a => p a && q a) l.
Proof.
  induction l as [|a l IH]; [done|]. cbn. destruct (p a); cbn; [destruct (q a); by rewrite IH|done].
Qed.

Lemma filter_agree {A} (p q : A -> bool) (l : list A) : (forall a, a ∈ l -> p a = q a) -> List.filter p l = List.filter q l.
Proof.
  intros Hpq. induction l as [|a l IH]; [done|]. cbn. rewrite Hpq, IH by set_solver. done.
Qed.
Lemma filter_all_true {A} (p : A -> bool) (l : list A) :
  Forall (fun x => p x = true) l -> List.filter p l = l.
Proof. induction 1 as [|x l Hx Hl IH]; simpl; [done|]. by rewrite Hx, IH. Qed.
Lemma filter_none_of {A} (p : A -> bool) (l : list A) : Forall (fun a => p a = false) l -> List.filter p l = [].
Proof. induction 1 as [|a l Ha Hl IH]; [done|]. cbn. by rewrite Ha. Qed.
Lemma filter_none_in {A} (p : A -> bool) (l : list A) : (forall a, a ∈ l -> p a = false) -> List.filter p l = [].
Proof. intros Hp. induction l as [|a l IH]; [done|]. cbn. rewrite Hp by set_solver. apply IH. set_solver. Qed.
Lemma filter_snoc {A} (p : A -> bool) (l : list A) x : List.filter p (l ++ [x]) = List.filter p l ++ (if p x then [x] else []).
Proof. rewrite List.filter_app. cbn. by destruct (p x). Qed.
Lemma filter_perm {A} (p : A -> bool) (l k : list A) : l ≡ₚ k -> List.filter p l ≡ₚ List.filter p k.
Proof.
  induction 1 as [|x l k _ IH|x y l|l k j _ IH1 _ IH2]; cbn; [done|by destruct (p x); rewrite ?IH| |by etrans].
  destruct (p x), (p y); try done. apply Permutation_swap.
Qed.

Create HintDb argos discriminated.
Create Rewrite HintDb argos_rw.
#[export] Hint Resolve sat_sub_nonneg zlen_nonneg : argos.
#[export] Hint Rewrite @zlen_app @zlen_cons @zlen_map : argos_rw.

(** * Lemmas on orders *)

#[export] Instance ord_laws_Z : OrdLaws Z.
Proof.
  split; unfold cmp, ord_Z.
  - apply Z.compare_eq_iff.
  - intros; apply Z.compare_antisym.
  - intros x y z. rewrite !Z.compare_lt_iff. lia.
Qed.

Lemma ascii_compare_trans (a b c : Ascii.ascii) :
  Ascii.compare a b = Lt -> Ascii.compare b c = Lt -> Ascii.compare a c = Lt.
Proof. unfold Ascii.compare. rewrite !N.compare_lt_iff. lia. Qed.

Lemma string_compare_trans (x y z : string) :
  String.compare x y = Lt -> String.compare y z = Lt -> String.compare x z = Lt.
Proof.
  revert y z. induction x as [|a x IH]; intros [|b y] [|c z]; simpl; try done.
  destruct (Ascii.compare a b) eqn:E1; destruct (Ascii.compare b c) eqn:E2; try done;
    repeat match goal with
    | H : Ascii.compare ?u ?v = Eq |- _ => apply Ascii.compare_eq_iff in H; subst
    end.
  - assert (E : Ascii.compare c c = Eq) by (unfold Ascii.compare; apply N.compare_refl).
    rewrite E. apply IH.
  - by rewrite E2.
  - by rewrite E1.
  - by rewrite (ascii_compare_trans _ _ _ E1 E2).
Qed.

Lemma string_compare_refl (s : string) : String.compare s s = Eq.
Proof.
  induction s as [|a s IH]; [done|]. simpl. unfold Ascii.compare.
  by rewrite N.compare_refl.
Qed.

#[export] Instance ord_laws_string : OrdLaws string.
Proof.
  split; unfold cmp, ord_string.
  - intros x y. split; [apply String.compare_eq_iff|intros ->; apply string_compare_refl].
  - intros; apply String.compare_antisym.
  - apply string_compare_trans.
Qed.

Lemma cmp_refl {A} `{OrdLaws A} (x : A) : cmp x x = Eq.
Proof. by apply cmp_eq. Qed.

Lemma cmp_Gt {A} `{OrdLaws A} (x y : A) : cmp x y = Gt <-> cmp y x = Lt.
Proof. rewrite (cmp_antisym x y). destruct (cmp x y); naive_solver. Qed.

#[export] Instance ord_laws_prod {A B} `{OrdLaws A, OrdLaws B} : OrdLaws (A * B).
Proof.
  split.
  - intros [a b] [a' b']. unfold cmp, ord_prod; simpl.
    destruct (cmp a a') eqn:E; [|split; [done|]..].
    + apply cmp_eq in E as ->. rewrite cmp_eq. naive_solver.
    + intros [= -> ->]. by rewrite cmp_refl in E.
    + intros [= -> ->]. by rewrite cmp_refl in E.
  - intros [a b] [a' b']. unfold cmp, ord_prod; simpl.
    rewrite (cmp_antisym a a'). destruct (cmp a a'); simpl; try done. apply cmp_antisym.
  - intros [a b] [a' b'] [a'' b'']. unfold cmp, ord_prod; simpl.
    destruct (cmp a a') eqn:E1, (cmp a' a'') eqn:E2; try done; intros.
    + apply cmp_eq in E1 as ->, E2 as ->. rewrite cmp_refl. by eapply cmp_trans.
    + apply cmp_eq in E1 as ->. by rewrite E2.
    + apply cmp_eq in E2 as ->. by rewrite E1.
    + by rewrite (cmp_trans _ _ _ E1 E2).
Qed.

#[export] Instance ord_laws_option {A} `{OrdLaws A} : OrdLaws (option A).
Proof.
  split.
  - intros [a|] [b|]; unfold cmp, ord_option; simpl; rewrite ?cmp_eq; naive_solver.
  - intros [a|] [b|]; unfold cmp, ord_option; simpl; try done. apply cmp_antisym.
  - intros [a|] [b|] [c|]; unfold cmp, ord_option; simpl; try done. apply cmp_trans.
Qed.

#[export] Instance ord_laws_list {A} `{OrdLaws A} : OrdLaws (list A).
Proof.
  split.
  - induction x as [|a x IH]; intros [|b y]; try (split; done).
    change (cmp (a :: x) (b :: y)) with (match cmp a b with Eq => cmp x y | c => c end).
    destruct (cmp a b) eqn:E.
    + apply cmp_eq in E as ->. rewrite IH. naive_solver.
    + split; [done|]. intros [= -> ->]. by rewrite cmp_refl in E.
    + split; [done|]. intros [= -> ->]. by rewrite cmp_refl in E.
  - induction x as [|a x IH]; intros [|b y]; simpl; try done.
    change (cmp (a :: x) (b :: y)) with (match cmp a b with Eq => cmp x y | c => c end).
    change (cmp (b :: y) (a :: x)) with (match cmp b a with Eq => cmp y x | c => c end).
    rewrite (cmp_antisym a b). destruct (cmp a b); simpl; try done.
  - induction x as [|a x IH]; intros [|b y] [|c z]; try done.
    change (cmp (a :: x) (b :: y)) with (match cmp a b with Eq => cmp x y | c => c end).
    change (cmp (b :: y) (c :: z)) with (match cmp b c with Eq => cmp y z | c => c end).
    change (cmp (a :: x) (c :: z)) with (match cmp a c with Eq => cmp x z | c => c end).
    destruct (cmp a b) eqn:E1, (cmp b c) eqn:E2; try done; intros.
    + apply cmp_eq in E1 as ->, E2 as ->. rewrite cmp_refl. by eapply IH.
    + apply cmp_eq in E1 as ->. by rewrite E2.
    + apply cmp_eq in E2 as ->. by rewrite E1.
    + by rewrite (cmp_trans _ _ _ E1 E2).
Qed.

Lemma min_by_key_None {A K} `{Ord K} (f : A -> K) (l : list A) :
  min_by_key f l = None <-> l = [].
Proof.
  destruct l as [|a l]; simpl; [done|].
  destruct (min_by_key f l); [destruct (cmp _ _)|]; naive_solver.
Qed.

Lemma min_by_key_elem {A K} `{Ord K} (f : A -> K) (l : list A) (a : A) :
  min_by_key f l = Some a -> a ∈ l.
Proof.
  revert a. induction l as [|b l IH]; intros a; simpl; [done|].
  destruct (min_by_key f l) as [c|]; [destruct (cmp _ _)|]; intros [= ->]; set_solver.
Qed.

Lemma min_by_key_least {A K} `{OrdLaws K} (f : A -> K) (l : list A) (a b : A) :
  min_by_key f l = Some a -> b ∈ l -> cmp (f b) (f a) <> Lt.
Proof.
  revert a. induction l as [|x l IH]; intros a; simpl; [done|].
  destruct (min_by_key f l) as [c|] eqn:E.
  - specialize (IH c eq_refl). rewrite elem_of_cons.
    destruct (cmp (f c) (f x)) eqn:Ec; intros [= <-] [->|Hb]; rewrite ?cmp_refl; auto.
    + apply cmp_eq in Ec. rewrite <- Ec. auto.
    + intros Hx. apply cmp_Gt in Hx. congruence.
    + intros Hb'. apply cmp_Gt in Ec. apply (IH Hb). by eapply cmp_trans.
  - apply min_by_key_None in E as ->. intros [= <-] ->%list_elem_of_singleton. by rewrite cmp_refl.
Qed.

Lemma max_by_key_elem {A K} `{Ord K} (f : A -> K) (l : list A) (a : A) :
  max_by_key f l = Some a -> a ∈ l.
Proof.
  revert a. induction l as [|b l IH]; intros a; simpl; [done|].
  destruct (max_by_key f l) as [c|]; [destruct (cmp _ _)|]; intros [= ->]; set_solver.
Qed.

Section Sorting.
Context {A : Type} `{OrdLaws A}.

Definition cmp_le (x y : A) : Prop := cmp x y <> Gt.

Lemma cmp_le_trans (x y z : A) : cmp_le x y -> cmp_le y z -> cmp_le x z.
Proof.
  unfold cmp_le. intros H1 H2.
  destruct (cmp x y) eqn:E1; [apply cmp_eq in E1; by subst| |done].
  destruct (cmp y z) eqn:E2; [apply cmp_eq in E2; subst; by rewrite E1| |done].
  by rewrite (cmp_trans _ _ _ E1 E2).
Qed.

Lemma insert_sorted_perm (x : A) (l : list A) : insert_sorted x l ≡ₚ x :: l.
Proof.
  induction l as [|y l IH]; simpl; [done|].
  destruct (cmp x y); try done. rewrite IH. apply Permutation_swap.
Qed.

Lemma sort_perm (l : list A) : sort l ≡ₚ l.
Proof.
  induction l as [|x l IH]; simpl; [done|].
  change (insert_sorted x (sort l) ≡ₚ x :: l). by rewrite insert_sorted_perm, IH.
Qed.

Lemma insert_sorted_sorted (x : A) (l : list A) :
  Sorted cmp_le l -> Sorted cmp_le (insert_sorted x l).
Proof.
  induction 1 as [|y l Hs IH Hd]; simpl; [by repeat constructor|].
  destruct (cmp x y) eqn:E.
  - constructor; [by constructor|]. constructor. unfold cmp_le. by rewrite E.
  - constructor; [by constructor|]. constructor. unfold cmp_le. by rewrite E.
  - constructor; [done|].
    assert (cmp_le y x) by (unfold cmp_le; apply cmp_Gt in E; by rewrite E).
    destruct Hd as [|z l Hz]; simpl; [by constructor|].
    destruct (cmp x z); by constructor.
Qed.

Lemma sort_sorted (l : list A) : Sorted cmp_le (sort l).
Proof. induction l; simpl; [constructor|]. by apply insert_sorted_sorted. Qed.

Lemma dedup_elem (l : list A) (x : A) : x ∈ dedup l <-> x ∈ l.
Proof.
  induction l as [|y l IH]; [done|].
  destruct l as [|z l]; [done|].
  change (dedup (y :: z :: l)) with
    (match cmp y z with Eq => dedup (z :: l) | _ => y :: dedup (z :: l) end).
  destruct (cmp y z) eqn:E; rewrite ?elem_of_cons, ?IH; [|set_solver..].
  apply cmp_eq in E as ->. set_solver.
Qed.

Lemma sorted_head_le (x : A) (l : list A) :
  Sorted cmp_le (x :: l) -> forall y, y ∈ l -> cmp_le x y.
Proof.
  intros Hs. apply Sorted_StronglySorted in Hs; [|intros ???; apply cmp_le_trans].
  apply StronglySorted_inv in Hs as [_ Hf]. by rewrite Forall_forall in Hf.
Qed.

Lemma dedup_nodup (l : list A) : Sorted cmp_le l -> NoDup (dedup l).
Proof.
  induction l as [|y l IH]; [constructor|]. intros Hs.
  pose proof (sorted_head_le _ _ Hs) as Hle.
  apply Sorted_inv in Hs as [Hs _]. specialize (IH Hs).
  destruct l as [|z l]; [by repeat constructor; set_solver|].
  change (dedup (y :: z :: l)) with
    (match cmp y z with Eq => dedup (z :: l) | _ => y :: dedup (z :: l) end).
  assert (Hnot : cmp y z <> Eq -> y ∉ z :: l).
  { intros Hne Hin. pose proof (sorted_head_le _ _ Hs) as Hz.
    apply elem_of_cons in Hin as [->|Hin]; [by rewrite cmp_refl in Hne|].
    specialize (Hz _ Hin). unfold cmp_le in *.
    destruct (cmp y z) eqn:E; [done| |by apply (Hle z); [set_solver|]].
    apply Hz. by apply cmp_Gt. }
  destruct (cmp y z) eqn:E; [done| |]; (constructor; [|done]); rewrite dedup_elem; by apply Hnot.
Qed.

Lemma dedup_sort_nodup (l : list A) : NoDup (dedup (sort l)).
Proof. apply dedup_nodup, sort_sorted. Qed.

Lemma dedup_sort_elem (l : list A) (x : A) : x ∈ dedup (sort l) <-> x ∈ l.
Proof. rewrite dedup_elem. by rewrite sort_perm. Qed.

End Sorting.

Section SortBy.
Context {A K : Type} `{OrdLaws K} (f : A -> K).

Definition key_le (x y : A) : Prop := cmp_le (f x) (f y).

Lemma insert_by_perm (x : A) (l : list A) : insert_by f x l ≡ₚ x :: l.
Proof.
  induction l as [|y l IH]; simpl; [done|].
  destruct (cmp (f x) (f y)); try done. rewrite IH. apply Permutation_swap.
Qed.

Lemma sort_by_perm (l : list A) : sort_by f l ≡ₚ l.
Proof.
  induction l as [|x l IH]; simpl; [done|].
  change (insert_by f x (sort_by f l) ≡ₚ x :: l). by rewrite insert_by_perm, IH.
Qed.

Lemma insert_by_sorted (x : A) (l : list A) : Sorted key_le l -> Sorted key_le (insert_by f x l).
Proof.
  induction 1 as [|y l Hs IH Hd]; simpl; [by repeat constructor|].
  destruct (cmp (f x) (f y)) eqn:E;
    [constructor; [by constructor|constructor; unfold key_le, cmp_le; by rewrite E]..|].
  constructor; [done|].
  assert (key_le y x) by (unfold key_le, cmp_le; apply cmp_Gt in E; by rewrite E).
  destruct Hd as [|z l Hz]; simpl; [by constructor|].
  destruct (cmp (f x) (f z)); by constructor.
Qed.

Lemma sort_by_sorted (l : list A) : StronglySorted key_le (sort_by f l).
Proof.
  apply Sorted_StronglySorted; [intros x y z; unfold key_le; apply cmp_le_trans|].
  induction l; simpl; [constructor|]. by apply insert_by_sorted.
Qed.

(** The first match of a sorted list has the least key. *)
Lemma find_sorted_least (p : A -> bool) (l : list A) (a b : A) :
  StronglySorted key_le l -> List.find p l = Some a -> b ∈ l -> p b = true -> key_le a b.
Proof.
  induction 1 as [|x l Hs IH Hall]; simpl; [done|].
  destruct (p x) eqn:Hx.
  - intros [= <-] [->|Hb]%elem_of_cons Hp; [unfold key_le, cmp_le; by rewrite cmp_refl|].
    by rewrite Forall_forall in Hall; apply Hall.
  - intros Hf [->|Hb]%elem_of_cons Hp; [congruence|]. by apply IH.
Qed.

(** Lists with the same elements and distinct keys are sorted the same way. *)
Lemma sort_by_unique (l k : list A) : l ≡ₚ k -> NoDup (map f l) -> sort_by f l = sort_by f k.
Proof.
  intros Hp Hn. apply (StronglySorted_unique_strong key_le); [|apply sort_by_sorted..|by rewrite !sort_by_perm].
  intros x y Hx Hy Hxy Hyx. rewrite sort_by_perm in Hx. rewrite sort_by_perm, <- Hp in Hy.
  assert (f x = f y) as E.
  { unfold key_le, cmp_le in *. apply cmp_eq. rewrite (cmp_antisym (f x) (f y)) in Hyx.
    by destruct (cmp (f x) (f y)). }
  apply list_elem_of_lookup in Hx as [i Hi], Hy as [j Hj].
  assert (i = j) as ->; [|congruence].
  eapply (NoDup_lookup (map f l)); [done|..]; rewrite list_lookup_fmap; [by rewrite Hi|by rewrite Hj, E].
Qed.

End SortBy.

(** ** Ascending lists: sorted, without duplicates *)
Section Ascending.
Context {A : Type} `{OrdLaws A}.

Definition ascending (l : list A) : Prop := StronglySorted (fun x y => cmp x y = Lt) l.

Lemma ascending_nodup (l : list A) : ascending l -> NoDup l.
Proof.
  induction 1 as [|x l Hs IH Hf]; constructor; [|done]. intros Hx. rewrite Forall_forall in Hf.
  specialize (Hf x Hx). by rewrite cmp_refl in Hf.
Qed.
Lemma sorted_ascending (l : list A) : StronglySorted cmp_le l -> NoDup l -> ascending l.
Proof.
  induction 1 as [|x l Hs IH Hf]; intros Hn; constructor; apply NoDup_cons in Hn as [Hx Hn]; [by apply IH|].
  rewrite Forall_forall in Hf |- *. intros y Hy. specialize (Hf y Hy). unfold cmp_le in Hf.
  destruct (cmp x y) eqn:E; [|done|done]. apply cmp_eq in E as ->. done.
Qed.
Lemma dedup_strongly_sorted (l : list A) : StronglySorted cmp_le l -> StronglySorted cmp_le (dedup l).
Proof.
  induction 1 as [|x l Hs IH Hf]; [constructor|]. destruct l as [|y l]; [by repeat constructor|].
  change (dedup (x :: y :: l)) with (match cmp x y with Eq => dedup (y :: l) | _ => x :: dedup (y :: l) end).
  assert (StronglySorted cmp_le (x :: dedup (y :: l))) as Hx.
  { constructor; [done|]. apply Forall_forall. intros z Hz. rewrite dedup_elem in Hz.
    rewrite Forall_forall in Hf. exact (Hf z Hz). }
  by destruct (cmp x y).
Qed.
Lemma btree_set_ascending (l : list A) : ascending (btree_set l).
Proof.
  apply sorted_ascending; [|apply dedup_sort_nodup].
  apply dedup_strongly_sorted, Sorted_StronglySorted; [intros ???; apply cmp_le_trans|apply sort_sorted].
Qed.
Lemma ascending_filter (p : A -> bool) (l : list A) : ascending l -> ascending (List.filter p l).
Proof.
  induction 1 as [|x l Hs IH Hf]; cbn; [constructor|]. destruct (p x); [|done]. constructor; [done|].
  rewrite Forall_forall in Hf |- *. intros y [Hy _]%filter_elem. by apply Hf.
Qed.
Lemma ascending_app (l k : list A) : ascending (l ++ k) -> ascending l /\ (forall x y, x ∈ l -> y ∈ k -> cmp x y = Lt).
Proof.
  induction l as [|x l IH]; cbn; intros Hs; [split; [constructor|set_solver]|].
  apply StronglySorted_inv in Hs as [Hs Hf]. destruct (IH Hs) as [Hl Hlt]. rewrite Forall_forall in Hf. split.
  - constructor; [done|]. apply Forall_forall. intros y Hy. apply Hf, elem_of_app. by left.
  - intros u v [->|Hu]%elem_of_cons Hv; [|by apply Hlt]. apply Hf, elem_of_app. by right.
Qed.
Lemma ascending_last (l : list A) (x c : A) : ascending l -> list.last l = Some c -> x ∈ l -> cmp x c <> Gt.
Proof.
  intros Hl Hc Hx. apply list.last_Some in Hc as [pre ->]. apply ascending_app in Hl as [_ Hlt].
  apply elem_of_app in Hx as [Hx| ->%list_elem_of_singleton]; [|by rewrite cmp_refl].
  by rewrite (Hlt x c Hx) by by apply list_elem_of_singleton.
Qed.
(** Sorting a permutation of an ascending list gives it back. *)
Lemma sort_ascending (l k : list A) : ascending l -> k ≡ₚ l -> sort k = l.
Proof.
  intros Hl Hp.
  assert (ascending (sort k)) as Hk.
  { apply sorted_ascending; [|rewrite sort_perm, Hp; by apply ascending_nodup].
    apply Sorted_StronglySorted; [intros ???; apply cmp_le_trans|apply sort_sorted]. }
  assert (sort k ≡ₚ l) as Hperm by by rewrite sort_perm. clear Hp. revert Hl Hperm.
  induction Hk as [|x s Hs IH Hf] in l |- *; intros Hl Hperm.
  { by apply Permutation_nil_l in Hperm. }
  destruct Hl as [|y l Hl Hfl]; [by apply Permutation_nil_r in Hperm|].
  assert (x = y) as ->.
  { assert (x ∈ y :: l) as Hx by (rewrite <- Hperm; by apply elem_of_cons; left).
    assert (y ∈ x :: s) as Hy by (rewrite Hperm; by apply elem_of_cons; left).
    apply elem_of_cons in Hx as [|Hx]; [done|]. apply elem_of_cons in Hy as [|Hy]; [done|].
    rewrite Forall_forall in Hf, Hfl. specialize (Hf _ Hy). specialize (Hfl _ Hx).
    apply cmp_Gt in Hf. congruence. }
  f_equal. apply IH; [done|]. by apply Permutation_cons_inv in Hperm.
Qed.

(** A set has one ascending listing. *)
Lemma ascending_ext (l k : list A) : ascending l -> ascending k -> (forall x, x ∈ l <-> x ∈ k) -> l = k.
Proof.
  intros Hl Hk Hx.
  assert (k ≡ₚ l) as Hp by (apply NoDup_Permutation; [by apply ascending_nodup|by apply ascending_nodup|by intros x; rewrite Hx]).
  rewrite <- (sort_ascending l k Hl Hp). by apply sort_ascending.
Qed.
Lemma btree_set_elem (l : list A) (x : A) : x ∈ btree_set l <-> x ∈ l.
Proof. apply dedup_sort_elem. Qed.
Lemma btree_set_ext (l k : list A) : (forall x, x ∈ l <-> x ∈ k) -> btree_set l = btree_set k.
Proof. intros Hx. apply ascending_ext; [apply btree_set_ascending..|]. intros x. by rewrite !btree_set_elem. Qed.

End Ascending.

(** * Lemmas on results and options *)

Lemma res_bind_Ok {A B E} (r : result A E) (k : A -> result B E) (b : B) :
  res_bind r k = Ok b <-> exists a, r = Ok a /\ k a = Ok b.
Proof. destruct r; simpl; naive_solver. Qed.

Lemma guard_Ok {E} (bad : bool) (e : E) : guard bad e = Ok tt <-> bad = false.
Proof. destruct bad; simpl; naive_solver. Qed.

Lemma ok_or_Ok {A E} (o : option A) (e : E) (a : A) : ok_or o e = Ok a <-> o = Some a.
Proof. destruct o; simpl; naive_solver. Qed.

Lemma guard_bind_Ok {B E} (bad : bool) (e : E) (k : unit -> result B E) (b : B) :
  res_bind (guard bad e) k = Ok b <-> bad = false /\ k tt = Ok b.
Proof. destruct bad; simpl; naive_solver. Qed.

Lemma ok_or_bind_Ok {A B E} (o : option A) (e : E) (k : A -> result B E) (b : B) :
  res_bind (ok_or o e) k = Ok b <-> exists a, o = Some a /\ k a = Ok b.
Proof. destruct o; simpl; naive_solver. Qed.

#[export] Hint Rewrite @res_bind_Ok @ok_or_Ok : argos_rw.

Lemma try_each_Ok {A E} (f : A -> result unit E) (l : list A) : try_each f l = Ok tt <-> Forall (fun a => f a = Ok tt) l.
Proof.
  unfold try_each. induction l as [|a l IH]; [done|]. cbn [try_fold]. rewrite Forall_cons, <- IH, res_bind_Ok.
  split; [by intros ([] & ? & ?)|]. intros [? ?]. by exists tt.
Qed.


Lemma st_bind_Ok {W E A B} (m : Stateful W E A) (k : A -> Stateful W E B) w w' b :
  st_bind m k w = (w', Ok b) -> exists a w1, m w = (w1, Ok a) /\ k a w1 = (w', Ok b).
Proof. unfold st_bind. destruct (m w) as [w1 [a|e]]; [|by intros]. intros Hk. by exists a, w1. Qed.

Lemma st_result_Ok {W E A} (r : result A E) (w w' : W) a :
  st_result r w = (w', Ok a) -> w' = w /\ r = Ok a.
Proof. unfold st_result. by intros [= -> ->]. Qed.

Lemma tolerate_Ok {W E A} (m : Stateful W E A) w w' o :
  tolerate m w = (w', Ok o) -> exists r, m w = (w', r) /\ o = res_ok r.
Proof. unfold tolerate. destruct (m w) as [w1 r]. intros; simplify_eq. by exists r. Qed.

(** What holds before and after a transaction holds whatever becomes of it. *)
Lemma commit_with_cases {S A E} (P : S -> Prop) (e : E) (c : commit_outcome) (before after : S) (a : A) :
  P before -> P after -> P (commit_with e c before after a).1.
Proof. by destruct c as [|[]]. Qed.

(** Split every boolean conjunction, disjunction and comparison in sight. *)
Ltac split_bools :=
  repeat match goal with
  | H : _ && _ = true |- _ => apply andb_prop in H; destruct H
  | H : _ || _ = false |- _ => apply orb_false_elim in H; destruct H
  | H : negb _ = true |- _ => apply negb_true_iff in H
  | H : negb _ = false |- _ => apply negb_false_iff in H
  | H : (_ <? _) = true |- _ => apply Z.ltb_lt in H
  | H : (_ <? _) = false |- _ => apply Z.ltb_ge in H
  | H : (_ <=? _) = true |- _ => apply Z.leb_le in H
  | H : (_ <=? _) = false |- _ => apply Z.leb_gt in H
  | H : (_ =? _) = true |- _ => apply Z.eqb_eq in H
  | H : (_ =? _) = false |- _ => apply Z.eqb_neq in H
  | H : bool_decide _ = true |- _ => apply bool_decide_eq_true_1 in H
  | H : bool_decide _ = false |- _ => apply bool_decide_eq_false_1 in H
  end.

(** Case on the innermost [match] or [if] of a hypothesis or of the goal. *)
Ltac case_match_in H :=
  match type of H with
  | context [match ?x with _ => _ end] =>
      lazymatch x with
      | context [match _ with _ => _ end] => fail
      | _ => destruct x eqn:?
      end
  end.
Ltac cases_in H := repeat (case_match_in H; try done; simplify_eq/=).

(** * Lemmas on strings *)

Lemma string_length_app (s t : string) :
  String.length (String.append s t) = (String.length s + String.length t)%nat.
Proof.
  induction s as [|c s IH]; [done|].
  change (S (String.length (String.append s t)) = S (String.length s + String.length t)). by rewrite IH.
Qed.

Lemma substring_whole (s : string) : String.substring 0 (String.length s) s = s.
Proof. induction s as [|c s IH]; [done|]. cbn. by rewrite IH. Qed.

Lemma substring_length (n : nat) (s : string) :
  (n <= String.length s)%nat -> String.length (String.substring 0 n s) = n.
Proof.
  revert n. induction s as [|c s IH]; intros [|n]; cbn; try lia. intros. rewrite IH; lia.
Qed.

Lemma substring_app_l (s t : string) :
  String.substring 0 (String.length s) (String.append s t) = s.
Proof. induction s as [|c s IH]; [by destruct t|]. exact (f_equal (String.String c) IH). Qed.

Lemma substring_app_r (s t : string) :
  String.substring (String.length s) (String.length t) (String.append s t) = t.
Proof. induction s as [|c s IH]; [apply substring_whole|]. exact IH. Qed.

(** * Sums over the values of a finite map *)

Section MapSum.
Context {K V : Type} `{Countable K}.

Definition map_sum (f : V -> Z) (m : gmap K V) : Z :=
  sumZ (map (fun kv => f kv.2) (map_to_list m)).

Lemma map_sum_empty (f : V -> Z) : map_sum f ∅ = 0.
Proof. unfold map_sum. by rewrite map_to_list_empty. Qed.

Lemma map_sum_insert_None (f : V -> Z) (m : gmap K V) (k : K) (v : V) :
  m !! k = None -> map_sum f (<[k:=v]> m) = f v + map_sum f m.
Proof.
  intros Hk. unfold map_sum.
  by rewrite (sumZ_perm _ _ (Permutation_map _ (map_to_list_insert m k v Hk))).
Qed.

Lemma map_sum_delete (f : V -> Z) (m : gmap K V) (k : K) (v : V) :
  m !! k = Some v -> map_sum f (delete k m) = map_sum f m - f v.
Proof.
  intros Hk. rewrite <- (insert_id m k v) at 2 by done.
  rewrite <- (insert_delete_eq m k v).
  rewrite (map_sum_insert_None f (delete k m) k v) by apply lookup_delete_eq. lia.
Qed.

Lemma map_sum_insert_Some (f : V -> Z) (m : gmap K V) (k : K) (v old : V) :
  m !! k = Some old -> map_sum f (<[k:=v]> m) = map_sum f m - f old + f v.
Proof.
  intros Hk. rewrite <- (insert_delete_eq m k v).
  rewrite (map_sum_insert_None f (delete k m) k v) by apply lookup_delete_eq.
  rewrite (map_sum_delete f m k old Hk). lia.
Qed.

Lemma map_sum_nonneg (f : V -> Z) (m : gmap K V) :
  (forall v, 0 <= f v) -> 0 <= map_sum f m.
Proof.
  intros Hf. unfold map_sum. apply sumZ_nonneg. rewrite Forall_map.
  apply Forall_forall. intros. apply Hf.
Qed.

Lemma map_sum_lookup_le (f : V -> Z) (m : gmap K V) (k : K) (v : V) :
  (forall v, 0 <= f v) -> m !! k = Some v -> f v <= map_sum f m.
Proof.
  intros Hf Hk. pose proof (map_sum_delete f m k v Hk).
  pose proof (map_sum_nonneg f (delete k m) Hf). lia.
Qed.

(** The same, when only the values of the map are known to be non-negative. *)
Lemma map_sum_nonneg_in (f : V -> Z) (m : gmap K V) :
  (forall k v, m !! k = Some v -> 0 <= f v) -> 0 <= map_sum f m.
Proof.
  intros Hf. unfold map_sum. apply sumZ_nonneg. rewrite Forall_map. apply Forall_forall.
  intros [k v] Hin. apply elem_of_map_to_list in Hin. by eapply Hf.
Qed.

Lemma map_sum_lookup_le_in (f : V -> Z) (m : gmap K V) (k : K) (v : V) :
  (forall k v, m !! k = Some v -> 0 <= f v) -> m !! k = Some v -> f v <= map_sum f m.
Proof.
  intros Hf Hk. pose proof (map_sum_delete f m k v Hk).
  assert (0 <= map_sum f (delete k m)); [|lia].
  apply map_sum_nonneg_in. intros k' v' [_ Hv]%lookup_delete_Some. by eapply Hf.
Qed.

Lemma map_sum_within (f : V -> Z) (r m : gmap K V) :
  (forall k v, m !! k = Some v -> 0 <= f v) ->
  (forall k v, r !! k = Some v -> f v <= match m !! k with Some w => f w | None => 0 end) ->
  map_sum f r <= map_sum f m.
Proof.
  revert m. induction r as [|k v r Hk IH] using map_ind; intros m Hm Hr.
  { rewrite map_sum_empty. by apply map_sum_nonneg_in. }
  rewrite map_sum_insert_None by done.
  assert (Hv := Hr k v). rewrite lookup_insert_eq in Hv. specialize (Hv eq_refl).
  assert (Hr' : forall k' v', r !! k' = Some v' -> k' <> k /\
      f v' <= match m !! k' with Some w => f w | None => 0 end).
  { intros k' v' Hk'. assert (k' <> k) as Hne by congruence. split; [done|].
    apply Hr. by rewrite lookup_insert_ne. }
  destruct (m !! k) as [w|] eqn:Hmk.
  - pose proof (map_sum_delete f m k w Hmk). specialize (IH (delete k m)).
    cut (map_sum f r <= map_sum f (delete k m)); [lia|]. apply IH.
    + intros k' v' [_ ?]%lookup_delete_Some. by eapply Hm.
    + intros k' v' [Hne Hle]%Hr'. by rewrite lookup_delete_ne.
  - cut (map_sum f r <= map_sum f m); [lia|]. apply IH; [done|]. by intros k' v' [_ ?]%Hr'.
Qed.

Lemma map_sum_le (f g : V -> Z) (m : gmap K V) :
  (forall k v, m !! k = Some v -> f v <= g v) -> map_sum f m <= map_sum g m.
Proof.
  unfold map_sum. intros Hfg.
  assert (Hl : Forall (fun kv => f kv.2 <= g kv.2) (map_to_list m)).
  { apply Forall_forall. intros [k v] Hin. apply elem_of_map_to_list in Hin. by eapply Hfg. }
  induction Hl; simpl; lia.
Qed.

(** A partial map of values that never grow does not increase the sum. *)
Lemma map_sum_omap_le (f : V -> Z) (g : V -> option V) (m : gmap K V) :
  (forall v, 0 <= f v) -> (forall v v', g v = Some v' -> f v' <= f v) ->
  map_sum f (omap g m) <= map_sum f m.
Proof.
  intros Hf Hg. induction m as [|k v m Hk IH] using map_ind.
  - rewrite omap_empty. lia.
  - rewrite omap_insert. destruct (g v) as [v'|] eqn:E.
    + rewrite !map_sum_insert_None by (rewrite ?lookup_omap, ?Hk; done).
      apply Hg in E. lia.
    + rewrite delete_id by (rewrite lookup_omap, Hk; done).
      rewrite map_sum_insert_None by done. specialize (Hf v). lia.
Qed.

Lemma map_size_omap_le (g : V -> option V) (m : gmap K V) :
  (size (omap g m) <= size m)%nat.
Proof.
  induction m as [|k v m Hk IH] using map_ind.
  - by rewrite omap_empty.
  - rewrite omap_insert. rewrite (map_size_insert_None _ _ _ Hk).
    destruct (g v).
    + rewrite map_size_insert_None by (rewrite lookup_omap, Hk; done). lia.
    + rewrite delete_id by (rewrite lookup_omap, Hk; done). lia.
Qed.

Lemma map_size_delete_le (m : gmap K V) (k : K) : (size (delete k m) <= size m)%nat.
Proof.
  destruct (m !! k) eqn:Hk.
  - rewrite map_size_delete_Some by eauto. lia.
  - by rewrite delete_id.
Qed.

Lemma map_size_insert_le (m : gmap K V) (k : K) (v : V) : (size (<[k:=v]> m) <= S (size m))%nat.
Proof.
  destruct (m !! k) eqn:Hk.
  - rewrite map_size_insert_Some by eauto. lia.
  - by rewrite map_size_insert_None.
Qed.

End MapSum.
