(* ===== verification/F64.v ===== *)
(** IEEE-754 binary64 arithmetic, the Rust [f64] of the scores and entropies.

    A float is a [spec_float] of the Standard Library's executable
    specification with 53 bits of precision; every operation rounds to nearest,
    ties to even, as the hardware does. Comparisons with a NaN are false. *)
From Stdlib Require Import ZArith SpecFloat Lia.
From stdpp Require Import base strings pretty.
From S2P Require Import Prelude.
#[local] Open Scope Z_scope.

Definition f64 : Set := spec_float.

#[export] Instance f64_eq_dec : EqDecision f64.
Proof. unfold f64. solve_decision. Defined.

Definition f_add : f64 -> f64 -> f64 := SFadd 53 1024.
Definition f_sub : f64 -> f64 -> f64 := SFsub 53 1024.
Definition f_mul : f64 -> f64 -> f64 := SFmul 53 1024.
Definition f_div : f64 -> f64 -> f64 := SFdiv 53 1024.
Definition f_neg : f64 -> f64 := SFopp.
(** [n as f64]: rounded to nearest. *)
Definition f_of_Z (n : Z) : f64 := binary_normalize 53 1024 n 0 false.
(** The literal [a / b], with [a] and [b] exact: the correctly rounded quotient. *)
Definition f_lit (a b : Z) : f64 := f_div (f_of_Z a) (f_of_Z b).

Definition f_lt (x y : f64) : bool := SFltb x y.
Definition f_le (x y : f64) : bool := SFleb x y.
Definition f_ge (x y : f64) : bool := SFleb y x.
Definition f_gt (x y : f64) : bool := SFltb y x.

Definition f_is_nan (x : f64) : bool := match x with S754_nan => true | _ => false end.
Definition f_is_finite (x : f64) : bool :=
  match x with S754_zero _ | S754_finite _ _ _ => true | _ => false end.

(** [f64::min] and [f64::max] ignore a NaN operand. *)
Definition f_min (x y : f64) : f64 :=
  if f_is_nan x then y else if f_is_nan y then x else if f_lt y x then y else x.
Definition f_max (x y : f64) : f64 :=
  if f_is_nan x then y else if f_is_nan y then x else if f_lt x y then y else x.

(** [(lo..=hi).contains(&x)]. *)
Definition f_in_range (lo hi x : f64) : bool := f_le lo x && f_le x hi.

(** [{:.0}]: the exact value rounded to an integer, ties to even. *)
Definition f_round_int (x : f64) : Z :=
  match x with
  | S754_finite s m e =>
      let a :=
        if 0 <=? e then Z.pos m * 2 ^ e
        else
          let d := 2 ^ (- e) in
          let q := Z.pos m / d in
          let r := Z.pos m mod d in
          if 2 * r <? d then q
          else if d <? 2 * r then q + 1
          else if Z.even q then q else q + 1 in
      if s then - a else a
  | _ => 0
  end.
Definition f_display0 (x : f64) : string :=
  match x with
  | S754_nan => "NaN"
  | S754_infinity s => if s then "-inf" else "inf"
  | S754_zero s => if s then "-0" else "0"
  | S754_finite s _ _ => (if s then "-" else "") +:+ pretty (Z.abs (f_round_int x))
  end.

(** Parts of the standard library whose exact result the Rust documentation
    leaves to the platform (the precision of [f64::log2]) or which are long
    tables (shortest round-trip digits, Unicode escapes): arguments of the
    definitions that use them. *)
Class RustStd := {
  f_log2 : f64 -> f64;
  f_display : f64 -> string;
  str_debug : string -> string;
}.

(** A concrete platform for evaluating examples: [log2] rounded down to an
    integer (exact on powers of two), integers for digits, no escapes. *)
Definition sample_std : RustStd := {|
  f_log2 := fun x =>
    match x with
    | S754_finite false m e => f_of_Z (Z.pos (digits2_pos m) - 1 + e)
    | S754_zero _ => S754_infinity true
    | S754_infinity false => x
    | _ => S754_nan
    end;
  f_display := f_display0;
  str_debug := fun s => s;
|}.

(** * Non-negative values: zero, positive finite numbers and plus infinity. *)

Definition f_nonneg (x : f64) : bool :=
  match x with
  | S754_zero _ => true
  | S754_infinity s => negb s
  | S754_nan => false
  | S754_finite s _ _ => negb s
  end.

Definition f_pos_finite (x : f64) : bool :=
  match x with S754_finite false _ _ => true | _ => false end.

(** The sign bit is clear, or the value is a NaN. *)
Definition f_unsigned (x : f64) : bool :=
  match x with S754_zero s | S754_infinity s | S754_finite s _ _ => negb s | S754_nan => true end.

Lemma shr_1_nonneg (r : shr_record) : 0 <= shr_m r -> 0 <= shr_m (shr_1 r).
Proof. destruct r as [[|[]|[]] ? ?]; simpl; lia. Qed.

Lemma iter_shr_nonneg (p : positive) (r : shr_record) :
  0 <= shr_m r -> 0 <= shr_m (SpecFloat.iter_pos shr_1 p r).
Proof. revert r. induction p; simpl; intros; auto using shr_1_nonneg. Qed.

Lemma shr_fexp_nonneg (m e : Z) (l : location) :
  0 <= m -> 0 <= shr_m (fst (shr_fexp 53 1024 m e l)).
Proof.
  intros Hm. unfold shr_fexp, shr.
  assert (0 <= shr_m (shr_record_of_loc m l)) by (destruct l as [|[]]; done).
  destruct (_ - e); simpl; auto using iter_shr_nonneg.
Qed.

Lemma round_nearest_even_nonneg (m : Z) (l : location) :
  0 <= m -> 0 <= round_nearest_even m l.
Proof. intros. unfold round_nearest_even. destruct l as [|[]]; try destruct (Z.even m); lia. Qed.

Lemma binary_round_aux_plus (m e : Z) (l : location) :
  0 <= m -> f_nonneg (binary_round_aux 53 1024 false m e l) && f_unsigned (binary_round_aux 53 1024 false m e l) = true.
Proof.
  intros Hm. unfold binary_round_aux.
  pose proof (shr_fexp_nonneg m e l Hm) as H1.
  destruct (shr_fexp 53 1024 m e l) as [r1 e1]; simpl in H1.
  set (m2 := round_nearest_even _ _).
  assert (H2 : 0 <= m2) by by apply round_nearest_even_nonneg.
  pose proof (shr_fexp_nonneg m2 e1 loc_Exact H2) as H3.
  destruct (shr_fexp 53 1024 m2 e1 loc_Exact) as [r2 e2]; simpl in H3.
  destruct (shr_m r2); [done| |lia]. by destruct (_ <=? _).
Qed.

Lemma binary_round_aux_nonneg (m e : Z) (l : location) :
  0 <= m -> f_nonneg (binary_round_aux 53 1024 false m e l) = true.
Proof. intros Hm. by apply (binary_round_aux_plus m e l), andb_true_iff in Hm as [? _]. Qed.

Lemma binary_normalize_plus (m e : Z) :
  0 <= m -> f_nonneg (binary_normalize 53 1024 m e false) && f_unsigned (binary_normalize 53 1024 m e false) = true.
Proof.
  destruct m as [|p|p]; simpl; [done| |lia]. intros _.
  unfold binary_round. destruct (shl_align _ _ _) as [mz ez].
  by apply binary_round_aux_plus.
Qed.

Lemma binary_normalize_nonneg (m e : Z) :
  0 <= m -> f_nonneg (binary_normalize 53 1024 m e false) = true.
Proof. intros Hm. by apply (binary_normalize_plus m e), andb_true_iff in Hm as [? _]. Qed.

Lemma f_of_Z_nonneg (n : Z) : 0 <= n -> f_nonneg (f_of_Z n) = true.
Proof. apply binary_normalize_nonneg. Qed.

Lemma f_add_nonneg (x y : f64) :
  f_nonneg x = true -> f_nonneg y = true -> f_nonneg (f_add x y) = true.
Proof.
  intros Hx Hy. unfold f_add.
  destruct x as [[]|[]| |[] mx ex], y as [[]|[]| |[] my ey]; try done.
  cbv beta iota delta [SFadd cond_Zopp]. by apply binary_normalize_nonneg.
Qed.

Lemma f_mul_nonneg (x y : f64) :
  f_nonneg x = true -> f_pos_finite y = true -> f_nonneg (f_mul x y) = true.
Proof.
  intros Hx Hy. unfold f_mul.
  destruct x as [[]|[]| |[] mx ex], y as [[]|[]| |[] my ey]; try done.
  simpl. by apply binary_round_aux_nonneg.
Qed.

Lemma f_div_nonneg (x y : f64) :
  f_nonneg x = true -> f_pos_finite y = true -> f_nonneg (f_div x y) = true.
Proof.
  intros Hx Hy. unfold f_div.
  destruct x as [[]|[]| |[] mx ex], y as [[]|[]| |[] my ey]; try done.
  simpl SFdiv. cbv [SFdiv xorb].
  destruct (SFdiv_core_binary 53 1024 (Z.pos mx) ex (Z.pos my) ey) as [[q e] l] eqn:E.
  apply binary_round_aux_nonneg. revert E. unfold SFdiv_core_binary.
  set (m' := match _ with Z0 => _ | Zpos _ => _ | Zneg _ => _ end).
  assert (Hm' : 0 <= m').
  { unfold m'. destruct (_ - _ - _); try lia. apply Z.shiftl_nonneg. lia. }
  pose proof (Z.div_pos m' (Z.pos my) Hm' ltac:(lia)) as Hq. unfold Z.div in Hq.
  destruct (Z.div_eucl m' (Z.pos my)) as [q' r'] eqn:E'.
  intros [= <- _ _]. done.
Qed.

(** Arithmetic on values whose sign bit is clear keeps it clear; only a NaN may appear. *)
Lemma round_unsigned (m e : Z) (l : location) : 0 <= m -> f_unsigned (binary_round_aux 53 1024 false m e l) = true.
Proof. intros Hm. by apply (binary_round_aux_plus m e l), andb_true_iff in Hm as [_ ?]. Qed.

Lemma normalize_unsigned (m e : Z) : 0 <= m -> f_unsigned (binary_normalize 53 1024 m e false) = true.
Proof. intros Hm. by apply (binary_normalize_plus m e), andb_true_iff in Hm as [_ ?]. Qed.

Lemma f_of_Z_unsigned (n : Z) : 0 <= n -> f_unsigned (f_of_Z n) = true.
Proof. apply normalize_unsigned. Qed.

Lemma f_add_unsigned (x y : f64) : f_unsigned x = true -> f_unsigned y = true -> f_unsigned (f_add x y) = true.
Proof.
  intros Hx Hy. unfold f_add. destruct x as [[]|[]| |[] mx ex], y as [[]|[]| |[] my ey]; try done.
  cbv beta iota delta [SFadd cond_Zopp].
  by apply normalize_unsigned.
Qed.

Lemma f_mul_unsigned (x y : f64) : f_unsigned x = true -> f_unsigned y = true -> f_unsigned (f_mul x y) = true.
Proof.
  intros Hx Hy. unfold f_mul. destruct x as [[]|[]| |[] mx ex], y as [[]|[]| |[] my ey]; try done.
  simpl. by apply round_unsigned.
Qed.

Lemma f_div_unsigned (x y : f64) : f_unsigned x = true -> f_unsigned y = true -> f_unsigned (f_div x y) = true.
Proof.
  intros Hx Hy. destruct x as [[]|[]| |[] mx ex], y as [[]|[]| |[] my ey]; try done.
  pose proof (f_div_nonneg (S754_finite false mx ex) (S754_finite false my ey) eq_refl eq_refl) as Hd.
  revert Hd. unfold f_div, SFdiv. destruct (SFdiv_core_binary _ _ _ _ _ _) as [[q e] l]. unfold xorb, binary_round_aux.
  destruct (shr_fexp 53 1024 q e l) as [r1 e1]. destruct (shr_fexp _ _ _ _ _) as [r2 e2].
  destruct (shr_m r2); [done| |done]. by destruct (_ <=? _).
Qed.

Lemma f_min_unsigned (x y : f64) : f_unsigned x = true -> f_unsigned y = true -> f_unsigned (f_min x y) = true.
Proof. intros. unfold f_min. destruct (f_is_nan x), (f_is_nan y), (f_lt y x); done. Qed.

(** Positive integers below 2^64 convert to positive finite floats. *)
Lemma digits2_pos_bounds (p : positive) :
  2 ^ (Z.pos (digits2_pos p) - 1) <= Z.pos p < 2 ^ Z.pos (digits2_pos p).
Proof.
  induction p as [p IH|p IH|]; simpl digits2_pos; [..|done];
    rewrite Pos2Z.inj_succ, Z.pow_succ_r by lia;
    replace (Z.succ (Z.pos (digits2_pos p)) - 1) with (Z.succ (Z.pos (digits2_pos p) - 1)) by lia;
    rewrite Z.pow_succ_r by lia; lia.
Qed.

Lemma shr_1_div (r : shr_record) : 0 <= shr_m r -> shr_m (shr_1 r) = shr_m r / 2.
Proof.
  destruct r as [m ? ?]; simpl; intros Hm.
  destruct m as [|[p|p|]|]; simpl; Z.to_euclidean_division_equations; lia.
Qed.

Lemma iter_shr_div (p : positive) (r : shr_record) :
  0 <= shr_m r -> shr_m (SpecFloat.iter_pos shr_1 p r) = shr_m r / 2 ^ Z.pos p.
Proof.
  assert (Hdd : forall q r', 0 <= r' -> r' / 2 ^ Z.pos q / 2 ^ Z.pos q = r' / 2 ^ Z.pos q~0).
  { intros. rewrite Z.div_div by lia. f_equal. rewrite <- Z.pow_add_r by lia. f_equal. lia. }
  revert r. induction p as [p IH|p IH|]; intros r Hr; simpl.
  - pose proof (shr_1_nonneg r Hr). pose proof (iter_shr_nonneg p (shr_1 r)).
    rewrite IH, IH, shr_1_div by auto. rewrite Hdd by (apply Z.div_pos; lia).
    rewrite Z.div_div by lia.
    replace (2 ^ Z.pos p~1) with (2 * 2 ^ Z.pos p~0); [done|].
    by rewrite <- Z.pow_succ_r by lia.
  - pose proof (iter_shr_nonneg p r). rewrite IH, IH by auto. by apply Hdd.
  - by rewrite shr_1_div.
Qed.

Lemma shr_fexp_positive (m e : Z) (l : location) :
  0 < m < 2 ^ 66 -> -1074 <= e ->
  let r := shr_fexp 53 1024 m e l in
  0 < shr_m r.1 <= m /\ e <= r.2 <= e + 66.
Proof.
  intros Hm He. destruct m as [|p|p]; [lia| |lia].
  unfold shr_fexp, shr. cbn [Zdigits2]. pose proof (digits2_pos_bounds p) as Hd.
  set (d := Z.pos (digits2_pos p)) in *.
  assert (Hd66 : d <= 66).
  { destruct (Z_le_gt_dec d 66); [done|].
    assert (2 ^ 66 <= 2 ^ (d - 1)) by (apply Z.pow_le_mono_r; lia). lia. }
  assert (Hn : fexp 53 1024 (d + e) - e <= Z.max (d - 53) 0)
    by (unfold fexp, emin; lia).
  assert (Hr : shr_m (shr_record_of_loc (Z.pos p) l) = Z.pos p) by by destruct l as [|[]].
  destruct (fexp 53 1024 (d + e) - e) as [|n|n]; simpl; rewrite ?Hr; [lia| |lia].
  rewrite iter_shr_div, Hr by (rewrite Hr; lia). split; [|lia].
  assert (2 ^ Z.pos n <= Z.pos p).
  { etrans; [|apply Hd]. apply Z.pow_le_mono_r; lia. }
  assert (0 < 2 ^ Z.pos n) by (apply Z.pow_pos_nonneg; lia).
  split; [apply Z.div_str_pos; lia|]. apply Z.div_le_upper_bound; nia.
Qed.

Lemma binary_round_aux_finite (m e : Z) (l : location) :
  0 < m < 2 ^ 65 -> -1074 <= e <= 800 ->
  f_pos_finite (binary_round_aux 53 1024 false m e l) = true.
Proof.
  intros Hm He. unfold binary_round_aux.
  pose proof (shr_fexp_positive m e l ltac:(lia) ltac:(lia)) as H1. simpl in H1.
  destruct (shr_fexp 53 1024 m e l) as [r1 e1]; simpl in H1.
  set (m2 := round_nearest_even _ _).
  assert (H2 : 0 < m2 <= m + 1).
  { unfold m2, round_nearest_even.
    destruct (loc_of_shr_record r1) as [|[]]; try destruct (Z.even _); lia. }
  pose proof (shr_fexp_positive m2 e1 loc_Exact ltac:(lia) ltac:(lia)) as H3. simpl in H3.
  destruct (shr_fexp 53 1024 m2 e1 loc_Exact) as [r2 e2]; simpl in H3.
  destruct (shr_m r2); [lia| |lia]. by rewrite (proj2 (Z.leb_le e2 (1024 - 53))) by lia.
Qed.

Lemma f_of_Z_pos_finite (n : Z) : 0 < n <= u64_max -> f_pos_finite (f_of_Z n) = true.
Proof.
  unfold u64_max. intros Hn. destruct n as [|p|p]; [lia| |lia].
  unfold f_of_Z, binary_normalize, binary_round.
  pose proof (digits2_pos_bounds p) as Hd.
  set (d := Z.pos (digits2_pos p)) in *.
  assert (Hf : fexp 53 1024 (d + 0) = d - 53) by (unfold fexp, emin; lia). rewrite Hf.
  unfold shl_align. rewrite Z.sub_0_r.
  destruct (d - 53) as [|k|k] eqn:Ek; [by apply binary_round_aux_finite; lia..|].
  apply binary_round_aux_finite; [|lia].
  change (Pos.iter xO p k) with (shift_pos k p). rewrite shift_pos_correct, Z.pow_pos_fold. split; [apply Z.mul_pos_pos; lia|].
  apply Z.le_lt_trans with (2 ^ Z.pos k * 2 ^ d).
  { apply Z.mul_le_mono_nonneg_l; lia. }
  rewrite <- Z.pow_add_r by lia. apply Z.pow_lt_mono_r; lia.
Qed.

Lemma f_compare_swap (x y : f64) :
  SFcompare y x = option_map CompOpp (SFcompare x y).
Proof.
  destruct x as [?|[]| |[] mx ex], y as [?|[]| |[] my ey]; try done; simpl; f_equal;
    rewrite (Z.compare_antisym ex ey);
    destruct (ex ?= ey); simpl; try done;
    fold (Pos.compare my mx); fold (Pos.compare mx my);
    rewrite (Pos.compare_antisym mx my); by destruct (mx ?= my)%positive.
Qed.

Lemma f_compare_None (x y : f64) :
  SFcompare x y = None <-> f_is_nan x = true \/ f_is_nan y = true.
Proof. destruct x as [?|[]| |[] ? ?], y as [?|[]| |[] ? ?]; simpl; naive_solver. Qed.

Lemma f_compare_refl (x : f64) : f_is_nan x = false -> SFcompare x x = Some Eq.
Proof.
  destruct x as [?|[]| |[] m e]; try done; simpl; intros _;
    rewrite Z.compare_refl; fold (Pos.compare m m); by rewrite Pos.compare_refl.
Qed.

Lemma f_le_refl (x : f64) : f_is_nan x = false -> f_le x x = true.
Proof. intros. unfold f_le, SFleb. by rewrite f_compare_refl. Qed.

(** Without NaN, the comparisons are each other's negation. *)
Lemma f_lt_ge (x y : f64) :
  f_is_nan x = false -> f_is_nan y = false -> f_lt x y = negb (f_ge x y).
Proof.
  intros Hx Hy. unfold f_lt, f_ge, SFltb, SFleb. rewrite (f_compare_swap x y).
  destruct (SFcompare x y) as [[]|] eqn:E; try done.
  apply f_compare_None in E. destruct E; congruence.
Qed.

Lemma f_lt_false_nan (x y : f64) : f_lt x y = true -> f_is_nan x = false /\ f_is_nan y = false.
Proof.
  unfold f_lt, SFltb. destruct (SFcompare x y) eqn:E; [|done]. intros _.
  destruct (f_is_nan x) eqn:E1, (f_is_nan y) eqn:E2; try done; exfalso;
    assert (SFcompare x y = None) by (apply f_compare_None; auto); congruence.
Qed.

Lemma f_nonneg_not_nan (x : f64) : f_nonneg x = true -> f_is_nan x = false.
Proof. by destruct x. Qed.

Lemma f_nonneg_le (x : f64) : f_nonneg x = true <-> f_le (f_of_Z 0) x = true.
Proof. destruct x as [[]|[]| |[] ? ?]; done. Qed.

Lemma f_min_le_r (x y : f64) : f_is_nan y = false -> f_le (f_min x y) y = true.
Proof.
  intros Hy. unfold f_min. destruct (f_is_nan x) eqn:Hx; [by apply f_le_refl|].
  rewrite Hy. destruct (f_lt y x) eqn:E; [by apply f_le_refl|].
  rewrite f_lt_ge in E by done. by apply negb_false_iff in E.
Qed.

Lemma f_min_nonneg (x y : f64) :
  f_nonneg x = true -> f_nonneg y = true -> f_nonneg (f_min x y) = true.
Proof. intros. unfold f_min. destruct (f_is_nan x), (f_is_nan y), (f_lt y x); done. Qed.

Lemma f_max_ge_l (x y : f64) : f_is_nan x = false -> f_le x (f_max x y) = true.
Proof.
  intros Hx. unfold f_max. rewrite Hx. destruct (f_is_nan y) eqn:Hy; [by apply f_le_refl|].
  destruct (f_lt x y) eqn:E; [|by apply f_le_refl].
  unfold f_lt, SFltb in E. unfold f_le, SFleb. by destruct (SFcompare x y) as [[]|].
Qed.

Lemma f_max_ge_r (x y : f64) : f_is_nan y = false -> f_le y (f_max x y) = true.
Proof.
  intros Hy. unfold f_max. rewrite Hy. destruct (f_is_nan x) eqn:Hx; [by apply f_le_refl|].
  destruct (f_lt x y) eqn:E; [by apply f_le_refl|].
  rewrite f_lt_ge in E by done. by apply negb_false_iff in E.
Qed.

(** A score built as [(x + ...).min(100.0)] from non-negative parts. *)
Lemma f_capped_range (x c : f64) :
  f_nonneg x = true -> f_nonneg c = true ->
  f_le (f_of_Z 0) (f_min x c) = true /\ f_le (f_min x c) c = true.
Proof.
  intros Hx Hc. split.
  - apply f_nonneg_le. by apply f_min_nonneg.
  - apply f_min_le_r. by apply f_nonneg_not_nan.
Qed.

(** The same with parts that may be a NaN: [min] discards it. *)
Lemma f_min_100 (x : f64) : f_unsigned x = true ->
  f_in_range (f_of_Z 0) (f_of_Z 100) (f_min x (f_of_Z 100)) = true.
Proof.
  intros Hx. unfold f_in_range. destruct (f_is_nan x) eqn:Hn; [by destruct x|].
  assert (f_nonneg x = true) as Hx' by (by destruct x as [[]|[]| |[] ? ?]).
  destruct (f_capped_range x (f_of_Z 100) Hx' eq_refl) as [-> ->]. done.
Qed.

Lemma f_max_range (lo hi x y : f64) :
  f_in_range lo hi x = true -> f_in_range lo hi y = true -> f_in_range lo hi (f_max x y) = true.
Proof. intros. unfold f_max. destruct (f_is_nan x), (f_is_nan y), (f_lt x y); done. Qed.

Lemma f_percent_finite (x : f64) : f_in_range (f_of_Z 0) (f_of_Z 100) x = true -> f_is_finite x = true.
Proof. by destruct x as [|[]| |]. Qed.

#[export] Hint Resolve f_of_Z_unsigned f_add_unsigned f_mul_unsigned f_div_unsigned f_min_unsigned : argos.
#[export] Hint Resolve f_add_nonneg f_mul_nonneg f_div_nonneg f_min_nonneg
  f_of_Z_nonneg f_of_Z_pos_finite f_nonneg_not_nan f_le_refl : argos.

#[global] Arguments f_of_Z : simpl never.
#[global] Arguments f_lit : simpl never.
#[global] Arguments f_add : simpl never.
#[global] Arguments f_sub : simpl never.
#[global] Arguments f_mul : simpl never.
#[global] Arguments f_div : simpl never.
#[global] Arguments f_min : simpl never.
#[global] Arguments f_max : simpl never.
#[global] Arguments f_lt : simpl never.
#[global] Arguments f_le : simpl never.
#[global] Arguments f_ge : simpl never.
#[global] Arguments f_gt : simpl never.
