(* ===== verification/RustPath.v ===== *)
(** The parts of [std::path] and [str] the source uses, on Unix.

    A path is the string of its bytes. [Path::components] drops repeated
    slashes and inner [.] components; equality and [starts_with] compare
    components, so [/a//b/] and [/a/b] are the same path. *)
From Stdlib Require Import ZArith Ascii.
From stdpp Require Import base strings countable list.
From S2P Require Import Prelude.
#[local] Open Scope Z_scope.

Inductive component : Type :=
| RootDir
| CurDir
| ParentDir
| Normal (name : string).

#[export] Instance component_eq_dec : EqDecision component.
Proof. solve_decision. Defined.

#[export] Instance component_countable : Countable component :=
  inj_countable'
    (fun c => match c with
              | RootDir => inl (inl true) | CurDir => inl (inl false)
              | ParentDir => inl (inr tt) | Normal s => inr s end)
    (fun x => match x with
              | inl (inl true) => RootDir | inl (inl false) => CurDir
              | inl (inr _) => ParentDir | inr s => Normal s end)
    ltac:(by intros []).

(** The order of [Path]: componentwise, in the order of [std::path::Component]. *)
#[export] Instance component_ord : Ord component := fun a b =>
  match a, b with
  | RootDir, RootDir => Eq | RootDir, _ => Lt | _, RootDir => Gt
  | CurDir, CurDir => Eq | CurDir, _ => Lt | _, CurDir => Gt
  | ParentDir, ParentDir => Eq | ParentDir, _ => Lt | _, ParentDir => Gt
  | Normal s, Normal t => cmp s t
  end.

#[export] Instance component_ord_laws : OrdLaws component.
Proof.
  split.
  - intros [| | |s] [| | |t]; cbn; try done. rewrite cmp_eq. naive_solver.
  - intros [| | |s] [| | |t]; cbn; try done. apply cmp_antisym.
  - intros [| | |s] [| | |t] [| | |u]; cbn; try done. apply cmp_trans.
Qed.

(** Segments between slashes. *)
Fixpoint split_slash (s : string) : list string :=
  match s with
  | EmptyString => [""]
  | String c s' =>
      if Ascii.eqb c "/" then "" :: split_slash s'
      else match split_slash s' with
           | seg :: segs => String c seg :: segs
           | [] => [String c ""]
           end
  end.

Definition segment_component (seg : string) : option component :=
  if String.eqb seg "" then None
  else if String.eqb seg "." then None
  else if String.eqb seg ".." then Some ParentDir
  else Some (Normal seg).

Definition is_absolute (p : string) : bool :=
  match p with String c _ => Ascii.eqb c "/" | EmptyString => false end.

(** [Path::components]. *)
Definition components (p : string) : list component :=
  let segs := split_slash p in
  let body := omap segment_component segs in
  if is_absolute p then RootDir :: body
  else match segs with
       | seg :: _ => if String.eqb seg "." then CurDir :: body else body
       | [] => body
       end.

Fixpoint is_prefix {A} `{EqDecision A} (l k : list A) : bool :=
  match l, k with
  | [], _ => true
  | _, [] => false
  | x :: l', y :: k' => bool_decide (x = y) && is_prefix l' k'
  end.

(** [Path::starts_with], [Path == Path], [Path::file_name]. *)
Definition path_starts_with (p root : string) : bool :=
  is_prefix (components root) (components p).
Definition path_eq (p q : string) : bool := bool_decide (components p = components q).
Definition file_name (p : string) : option string :=
  match list.last (components p) with Some (Normal s) => Some s | _ => None end.
Definition has_file_name (p : string) : bool :=
  match list.last (components p) with Some (Normal _) => true | _ => false end.

(** Components collected into a path, and [Path::parent]. *)
Definition path_of (cs : list component) : string :=
  let name c := match c with Normal s => s | ParentDir => ".." | CurDir => "." | RootDir => "" end in
  match cs with
  | RootDir :: names => "/" +:+ String.concat "/" (map name names)
  | names => String.concat "/" (map name names)
  end.
Definition path_parent (p : string) : option string :=
  match rev (components p) with
  | [] | RootDir :: _ => None
  | _ :: rest => Some (path_of (rev rest))
  end.

Fixpoint ends_with_slash (s : string) : bool :=
  match s with
  | EmptyString => false
  | String c EmptyString => Ascii.eqb c "/"
  | String _ s' => ends_with_slash s'
  end.

(** [Path::join] with a relative path. *)
Definition path_join (path name : string) : string :=
  if ends_with_slash path then String.append path name
  else String.append path (String.append "/" name).

(** [s.trim().is_empty()] on the UTF-8 bytes of [s]: only characters with
    the Unicode property White_Space. *)
Definition is_space1 (a : ascii) : bool :=
  let n := nat_of_ascii a in Nat.eqb n 32 || (Nat.leb 9 n && Nat.leb n 13).
Definition is_space2 (a b : ascii) : bool :=
  let m := nat_of_ascii b in
  Nat.eqb (nat_of_ascii a) 194 && (Nat.eqb m 133 || Nat.eqb m 160).
Definition is_space3 (a b c : ascii) : bool :=
  let '(x, y, z) := (nat_of_ascii a, nat_of_ascii b, nat_of_ascii c) in
  (Nat.eqb x 225 && Nat.eqb y 154 && Nat.eqb z 128)
  || (Nat.eqb x 226 && Nat.eqb y 128
      && (Nat.leb 128 z && Nat.leb z 138 || Nat.eqb z 168 || Nat.eqb z 169 || Nat.eqb z 175))
  || (Nat.eqb x 226 && Nat.eqb y 129 && Nat.eqb z 159)
  || (Nat.eqb x 227 && Nat.eqb y 128 && Nat.eqb z 128).

Fixpoint trim_is_empty (s : string) : bool :=
  match s with
  | EmptyString => true
  | String a s1 =>
      if is_space1 a then trim_is_empty s1
      else match s1 with
           | String b s2 =>
               if is_space2 a b then trim_is_empty s2
               else match s2 with
                    | String c s3 => is_space3 a b c && trim_is_empty s3
                    | EmptyString => false
                    end
           | EmptyString => false
           end
  end.

(** [str::trim] on UTF-8 bytes. *)
Fixpoint trim_start (s : string) : string :=
  match s with
  | EmptyString => s
  | String a s1 =>
      if is_space1 a then trim_start s1
      else match s1 with
           | String b s2 =>
               if is_space2 a b then trim_start s2
               else match s2 with
                    | String c s3 => if is_space3 a b c then trim_start s3 else s
                    | EmptyString => s
                    end
           | EmptyString => s
           end
  end.
Fixpoint trim_end (s : string) : string :=
  match s with
  | EmptyString => EmptyString
  | String a s' => if trim_is_empty s then EmptyString else String a (trim_end s')
  end.
Definition str_trim (s : string) : string := trim_end (trim_start s).

(** Every byte satisfies [p]. *)
Fixpoint str_all (p : ascii -> bool) (s : string) : bool :=
  match s with EmptyString => true | String c s' => p c && str_all p s' end.

(** [s.chars().any(char::is_control)] on UTF-8 bytes: U+0000-001F, U+007F-009F. *)
Fixpoint has_control (s : string) : bool :=
  match s with
  | EmptyString => false
  | String a s' =>
      let n := nat_of_ascii a in
      Nat.ltb n 32 || Nat.eqb n 127
      || match s' with
         | String b _ => Nat.eqb n 194 && Nat.leb 128 (nat_of_ascii b) && Nat.leb (nat_of_ascii b) 159
         | EmptyString => false
         end
      || has_control s'
  end.

Definition is_continuation (a : ascii) : bool :=
  let n := nat_of_ascii a in Nat.leb 128 n && Nat.leb n 191.

(** [str::from_utf8(..).is_ok()]: the well-formed byte sequences of Unicode. *)
Fixpoint utf8_valid (s : string) : bool :=
  match s with
  | EmptyString => true
  | String a s1 =>
      let n := nat_of_ascii a in
      if Nat.ltb n 128 then utf8_valid s1
      else match s1 with
      | EmptyString => false
      | String b s2 =>
          let m := nat_of_ascii b in
          if Nat.leb 194 n && Nat.leb n 223 then is_continuation b && utf8_valid s2
          else match s2 with
          | EmptyString => false
          | String c s3 =>
              if Nat.leb 224 n && Nat.leb n 239 then
                is_continuation b && is_continuation c
                && implb (Nat.eqb n 224) (Nat.leb 160 m) && implb (Nat.eqb n 237) (Nat.leb m 159)
                && utf8_valid s3
              else match s3 with
              | EmptyString => false
              | String d s4 =>
                  Nat.leb 240 n && Nat.leb n 244
                  && is_continuation b && is_continuation c && is_continuation d
                  && implb (Nat.eqb n 240) (Nat.leb 144 m) && implb (Nat.eqb n 244) (Nat.leb m 143)
                  && utf8_valid s4
              end
          end
      end
  end.

Fixpoint str_starts_with (prefix s : string) : bool :=
  match prefix, s with
  | EmptyString, _ => true
  | String _ _, EmptyString => false
  | String a p', String b s' => Ascii.eqb a b && str_starts_with p' s'
  end.

Lemma str_starts_with_app (p s : string) : str_starts_with p (String.append p s) = true.
Proof. 
  induction p as [|c p IH]; [done|].
  change (Ascii.eqb c c && str_starts_with p (String.append p s) = true). by rewrite Ascii.eqb_refl.
Qed.

(** [Read::take(n)] and [read_to_end]: at most the first [n] bytes. *)
Definition str_take (n : Z) (s : string) : string :=
  if slen s <=? n then s else String.substring 0 (Z.to_nat n) s.

(** [s.chars().take(n).collect()] on UTF-8 bytes. *)
Fixpoint chars_take (n : nat) (s : string) : string :=
  match s with
  | EmptyString => EmptyString
  | String a s' =>
      if is_continuation a then String a (chars_take n s')
      else match n with O => EmptyString | S n' => String a (chars_take n' s') end
  end.

(** Membership in a list of strings ([Vec<String>::contains]). *)
Definition str_mem (s : string) (l : list string) : bool := existsb (String.eqb s) l.

Lemma str_mem_spec (s : string) (l : list string) : str_mem s l = true <-> s ∈ l.
Proof.
  unfold str_mem. rewrite existsb_exists. split.
  - intros (x & Hin & ->%String.eqb_eq). by apply list_elem_of_In.
  - intros Hin. exists s. split; [by apply list_elem_of_In|apply String.eqb_refl].
Qed.

Lemma is_prefix_spec {A} `{EqDecision A} (l k : list A) :
  is_prefix l k = true <-> l `prefix_of` k.
Proof.
  revert k. induction l as [|x l IH]; intros [|y k]; simpl.
  - split; [intros; apply prefix_nil|done].
  - split; [intros; apply prefix_nil|done].
  - split; [done|]. by intros ?%prefix_nil_inv.
  - rewrite andb_true_iff, bool_decide_eq_true, IH. split.
    + intros [-> Hp]. by apply prefix_cons.
    + intros Hp. split; [by eapply prefix_cons_inv_1|by eapply prefix_cons_inv_2].
Qed.

(** ** Segments *)

Lemma split_slash_cons s : exists seg segs, split_slash s = seg :: segs.
Proof. destruct s as [|c s]; simpl; [by eauto|]. case_match; [by eauto|]. case_match; eauto. Qed.

Lemma split_slash_spec s :
  String.concat "/" (split_slash s) = s
  /\ Forall (fun seg => str_all (fun c => negb (Ascii.eqb c "/")) seg = true) (split_slash s).
Proof.
  induction s as [|c s [IH Hs]]; [by repeat constructor|]. cbn [split_slash].
  destruct (split_slash_cons s) as (seg & segs & E). rewrite E in IH, Hs |- *.
  destruct (Ascii.eqb_spec c "/") as [->|Hc].
  - split; [|by constructor]. change (String "/" (String.concat "/" (seg :: segs)) = String "/" s). by rewrite IH.
  - apply Forall_cons in Hs as [Hseg Hs]. split.
    + rewrite <- IH. by destruct segs.
    + constructor; [|done]. cbn [str_all]. by rewrite (proj2 (Ascii.eqb_neq _ _) Hc).
Qed.

Lemma split_slash_segment seg s :
  str_all (fun c => negb (Ascii.eqb c "/")) seg = true ->
  split_slash (String.append seg (String "/" s)) = seg :: split_slash s.
Proof.
  induction seg as [|c seg IH]; [done|]. cbn [str_all]. intros [Hc Hs]%andb_true_iff.
  change (String.append (String c seg) (String "/" s)) with (String c (String.append seg (String "/" s))).
  cbn [split_slash]. rewrite IH by done. apply negb_true_iff in Hc. by rewrite Hc.
Qed.
Lemma split_slash_last seg :
  str_all (fun c => negb (Ascii.eqb c "/")) seg = true -> split_slash seg = [seg].
Proof.
  induction seg as [|c seg IH]; [done|]. cbn [str_all]. intros [Hc Hs]%andb_true_iff.
  cbn [split_slash]. rewrite IH by done. apply negb_true_iff in Hc. by rewrite Hc.
Qed.
Lemma split_concat segs :
  segs <> [] -> Forall (fun seg => str_all (fun c => negb (Ascii.eqb c "/")) seg = true) segs ->
  split_slash (String.concat "/" segs) = segs.
Proof.
  intros Hne Hs. induction Hs as [|seg segs Hseg Hs IH]; [done|]. destruct segs as [|seg' segs].
  - by apply split_slash_last.
  - change (String.concat "/" (seg :: seg' :: segs))
      with (String.append seg (String "/" (String.concat "/" (seg' :: segs)))).
    by rewrite split_slash_segment, IH by done.
Qed.

Lemma path_eq_refl (p : string) : path_eq p p = true.
Proof. unfold path_eq. by apply bool_decide_eq_true. Qed.

Lemma path_starts_with_refl (p : string) : path_starts_with p p = true.
Proof. unfold path_starts_with. by apply is_prefix_spec. Qed.

Lemma path_starts_with_trans (p q r : string) :
  path_starts_with p q = true -> path_starts_with q r = true -> path_starts_with p r = true.
Proof. unfold path_starts_with. rewrite !is_prefix_spec. intros. by etrans. Qed.

Example components_ex : components "/a//b/./../c/" =
  [RootDir; Normal "a"; Normal "b"; ParentDir; Normal "c"].
Proof. reflexivity. Qed.
Example components_rel_ex : components "./a/." = [CurDir; Normal "a"].
Proof. reflexivity. Qed.
Example starts_with_ex :
  (path_starts_with "/data/deploy-secret/1" "/data/deploy",
   path_starts_with "/data/deploy/1" "/data/deploy/") = (false, true).
Proof. reflexivity. Qed.

Example trim_ex : str_trim "  a b
 " = "a b".
Proof. reflexivity. Qed.
Example utf8_ex : (utf8_valid "정책", utf8_valid (String (ascii_of_nat 255) "")) = (true, false).
Proof. reflexivity. Qed.
