(* ===== verification/RustStr.v ===== *)
(** Text functions of the Rust standard library on UTF-8 bytes, shared by the
    components that read the files of /proc, configuration files and the output
    of tools: lines, words, splits at a separator and the parsing of numbers. *)
From Stdlib Require Import ZArith Lia Ascii.
From stdpp Require Import base strings list pretty.
From S2P Require Import Prelude RustPath.
#[local] Open Scope Z_scope.

Definition newline : ascii := ascii_of_nat 10.
Definition carriage : ascii := ascii_of_nat 13.
Definition tab : ascii := ascii_of_nat 9.
Definition backslash : ascii := ascii_of_nat 92.

(** * Lines *)

Fixpoint split_at (c : ascii) (s : string) : list string :=
  match s with
  | EmptyString => [""]
  | String a s' =>
      if Ascii.eqb a c then "" :: split_at c s'
      else match split_at c s' with
           | seg :: segs => String a seg :: segs
           | [] => [String a ""]
           end
  end.

Fixpoint strip_carriage (s : string) : string :=
  match s with
  | EmptyString => ""
  | String c EmptyString => if Ascii.eqb c carriage then "" else s
  | String c s' => String c (strip_carriage s')
  end.

(** [str::lines]: the text after the last newline only when there is some. *)
Definition lines (s : string) : list string :=
  let segs := split_at newline s in
  map strip_carriage
    (match list.last segs with Some "" => removelast segs | _ => segs end).

(** * Words *)

Definition is_ascii_space (c : ascii) : bool :=
  let n := nat_of_ascii c in Nat.eqb n 32 || Nat.eqb n 9 || Nat.eqb n 10 || Nat.eqb n 12 || Nat.eqb n 13.
Definition flush (current : string) : list string := if String.eqb current "" then [] else [current].
Fixpoint words_from (current : string) (s : string) : list string :=
  match s with
  | EmptyString => flush current
  | String c s' =>
      if is_ascii_space c then flush current ++ words_from "" s'
      else words_from (String.append current (String c "")) s'
  end.
Definition split_ascii_whitespace (s : string) : list string := words_from "" s.

(** [str::split_whitespace]: at every character of the Unicode property White_Space. *)
Fixpoint fields_from (current : string) (s : string) : list string :=
  match s with
  | EmptyString => flush current
  | String a s1 =>
      if is_space1 a then flush current ++ fields_from "" s1
      else match s1 with
           | String b s2 =>
               if is_space2 a b then flush current ++ fields_from "" s2
               else match s2 with
                    | String c s3 =>
                        if is_space3 a b c then flush current ++ fields_from "" s3
                        else fields_from (String.append current (String a "")) s1
                    | EmptyString => fields_from (String.append current (String a "")) s1
                    end
           | EmptyString => fields_from (String.append current (String a "")) s1
           end
  end.
Definition split_whitespace (s : string) : list string := fields_from "" s.

(** * Separators *)

(** [split_once(c)] and [rsplit_once(c)]: at the first and at the last [c]. *)
Fixpoint split_once (c : ascii) (s : string) : option (string * string) :=
  match s with
  | EmptyString => None
  | String a s' =>
      if Ascii.eqb a c then Some ("", s') else (fun p => (String a p.1, p.2)) <$> split_once c s'
  end.
Fixpoint rsplit_once (c : ascii) (s : string) : option (string * string) :=
  match s with
  | EmptyString => None
  | String a s' =>
      match rsplit_once c s' with
      | Some p => Some (String a p.1, p.2)
      | None => if Ascii.eqb a c then Some ("", s') else None
      end
  end.
Fixpoint str_contains (c : ascii) (s : string) : bool :=
  match s with EmptyString => false | String a s' => Ascii.eqb a c || str_contains c s' end.

Fixpoint strip_prefix (prefix s : string) : option string :=
  match prefix, s with
  | EmptyString, _ => Some s
  | String a p', String b s' => if Ascii.eqb a b then strip_prefix p' s' else None
  | String _ _, EmptyString => None
  end.

(** * Numbers *)

Definition digit_value (c : ascii) : option Z :=
  let n := nat_of_ascii c in
  if Nat.leb 48 n && Nat.leb n 57 then Some (Z.of_nat n - 48) else None.
Fixpoint parse_digits (acc : Z) (s : string) : option Z :=
  match s with
  | EmptyString => Some acc
  | String c s' =>
      d ← digit_value c; acc ← checked_mul acc 10; acc ← checked_add acc d; parse_digits acc s'
  end.
(** A leading plus sign is accepted. *)
Definition parse_u64 (s : string) : option Z :=
  match s with
  | EmptyString => None
  | String c s' =>
      if Ascii.eqb c "+" then (if String.eqb s' "" then None else parse_digits 0 s')
      else parse_digits 0 s
  end.
(** Narrower unsigned integers: a value that does not fit is an error. *)
Definition parse_below (bound : Z) (s : string) : option Z := opt_filter (fun n => n <? bound) (parse_u64 s).
Definition parse_u8 : string -> option Z := parse_below 256.
Definition parse_u16 : string -> option Z := parse_below 65536.
Definition parse_u32 : string -> option Z := parse_below 4294967296.

(** [u64::from_str_radix(s, 16)]. *)
Definition hex_digit_value (c : ascii) : option Z :=
  let n := nat_of_ascii c in
  if Nat.leb 48 n && Nat.leb n 57 then Some (Z.of_nat n - 48)
  else if Nat.leb 97 n && Nat.leb n 102 then Some (Z.of_nat n - 87)
  else if Nat.leb 65 n && Nat.leb n 70 then Some (Z.of_nat n - 55)
  else None.
Fixpoint parse_hex_digits (acc : Z) (s : string) : option Z :=
  match s with
  | EmptyString => Some acc
  | String c s' =>
      d ← hex_digit_value c; acc ← checked_mul acc 16; acc ← checked_add acc d; parse_hex_digits acc s'
  end.
Definition parse_hex (s : string) : option Z :=
  match s with
  | EmptyString => None
  | String c s' =>
      if Ascii.eqb c "+" then (if String.eqb s' "" then None else parse_hex_digits 0 s')
      else parse_hex_digits 0 s
  end.

(** * [String::from_utf8_lossy]: U+FFFD for every maximal invalid piece *)

Definition replacement (rest : string) : string := String "239" (String "191" (String "189" rest)).
(** The second byte of a sequence of three or four bytes. *)
Definition second_byte_ok (a b : ascii) : bool :=
  let n := nat_of_ascii a in let m := nat_of_ascii b in
  Nat.leb 224 n && Nat.leb n 244 && is_continuation b
  && implb (Nat.eqb n 224) (Nat.leb 160 m) && implb (Nat.eqb n 237) (Nat.leb m 159)
  && implb (Nat.eqb n 240) (Nat.leb 144 m) && implb (Nat.eqb n 244) (Nat.leb m 143).
Fixpoint utf8_lossy (s : string) : string :=
  match s with
  | EmptyString => ""
  | String a s1 =>
      let n := nat_of_ascii a in
      if Nat.ltb n 128 then String a (utf8_lossy s1)
      else match s1 with
      | EmptyString => replacement ""
      | String b s2 =>
          if Nat.leb 194 n && Nat.leb n 223 then
            if is_continuation b then String a (String b (utf8_lossy s2)) else replacement (utf8_lossy s1)
          else if second_byte_ok a b then
            match s2 with
            | EmptyString => replacement ""
            | String c s3 =>
                if negb (is_continuation c) then replacement (utf8_lossy s2)
                else if Nat.leb n 239 then String a (String b (String c (utf8_lossy s3)))
                else match s3 with
                | EmptyString => replacement ""
                | String d s4 =>
                    if is_continuation d then String a (String b (String c (String d (utf8_lossy s4))))
                    else replacement (utf8_lossy s3)
                end
            end
          else replacement (utf8_lossy s1)
      end
  end.

#[global] Arguments split_whitespace : simpl never.
#[global] Arguments parse_u64 : simpl never.
#[global] Arguments parse_below : simpl never.

(** * Lemmas *)

(** A printable ASCII character that is not a blank. *)
Definition graphic (c : ascii) : bool := Nat.ltb 32 (nat_of_ascii c) && Nat.ltb (nat_of_ascii c) 127.
Definition is_word (s : string) : bool := negb (String.eqb s "") && str_all graphic s.

Lemma append_nil_r (s : string) : String.append s "" = s.
Proof. induction s as [|c s IH]; [done|]. change (String c (String.append s "") = String c s). by rewrite IH. Qed.

Lemma append_assoc (a b c : string) :
  String.append (String.append a b) c = String.append a (String.append b c).
Proof. induction a as [|x a IH]; [done|]. exact (f_equal (String x) IH). Qed.

Lemma append_nil_l (s : string) : String.append "" s = s.
Proof. done. Qed.

Lemma append_cons (x : ascii) (a b : string) : String.append (String x a) b = String x (String.append a b).
Proof. done. Qed.

Lemma graphic_not_space (c : ascii) :
  graphic c = true ->
  is_space1 c = false /\ (forall b, is_space2 c b = false) /\ (forall b d, is_space3 c b d = false).
Proof.
  unfold graphic, is_space1, is_space2, is_space3.
  rewrite andb_true_iff, !Nat.ltb_lt. intros [Hl Hu].
  assert (forall k, (127 <= k)%nat -> Nat.eqb (nat_of_ascii c) k = false) as Hk
    by (intros k Hk; apply Nat.eqb_neq; lia).
  split_and!; [|intros|intros].
  - apply orb_false_iff. split; [apply Nat.eqb_neq; lia|]. apply andb_false_iff. right. apply Nat.leb_gt. lia.
  - by rewrite Hk by lia.
  - by rewrite !Hk by lia.
Qed.

Lemma fields_from_graphic (current rest : string) (c : ascii) :
  graphic c = true -> fields_from current (String c rest) = fields_from (String.append current (String c "")) rest.
Proof.
  intros (H1 & H2 & H3)%graphic_not_space. cbn [fields_from]. rewrite H1.
  destruct rest as [|b rest]; [done|]. rewrite H2. destruct rest as [|d rest]; [done|]. by rewrite H3.
Qed.

Lemma fields_from_word (current word rest : string) :
  str_all graphic word = true -> fields_from current (String.append word rest) = fields_from (String.append current word) rest.
Proof.
  revert current. induction word as [|c word IH]; intros current Hw; [by rewrite append_nil_r|].
  cbn [str_all] in Hw. apply andb_true_iff in Hw as [Hc Hw].
  rewrite append_cons, fields_from_graphic by done. rewrite IH by done. by rewrite append_assoc.
Qed.

Lemma flush_word (w : string) : is_word w = true -> flush w = [w].
Proof. unfold is_word, flush. by destruct (String.eqb w ""). Qed.

(** Words joined by blanks are read back, whatever ends the text. *)
Lemma split_whitespace_words (ws : list string) (last : string) :
  Forall (fun w => is_word w = true) ws -> str_all is_space1 last = true ->
  split_whitespace (String.append (String.concat " " ws) last) = ws.
Proof.
  assert (forall l current, str_all is_space1 l = true -> fields_from current l = flush current) as Htail.
  { intros l. induction l as [|c l IH]; intros current Hl; [done|].
    cbn [str_all] in Hl. apply andb_true_iff in Hl as [Hc Hl]. cbn [fields_from]. rewrite Hc, IH by done.
    by rewrite app_nil_r. }
  intros Hws Hlast. unfold split_whitespace.
  induction Hws as [|w ws Hw Hws IH]; [by rewrite Htail|].
  assert (str_all graphic w = true) as Hg by (unfold is_word in Hw; by apply andb_true_iff in Hw as [_ ?]).
  destruct ws as [|w' ws].
  - cbn [String.concat]. rewrite fields_from_word by done. rewrite Htail by done. by apply flush_word.
  - change (String.concat " " (w :: w' :: ws))
      with (String.append w (String.append " " (String.concat " " (w' :: ws)))).
    rewrite append_assoc, fields_from_word by done.
    change (flush w ++ fields_from "" (String.append (String.concat " " (w' :: ws)) last) = w :: w' :: ws).
    rewrite flush_word by done.
    cbn [app]. f_equal. exact IH.
Qed.

Lemma split_whitespace_lead (s : string) : split_whitespace (String " " s) = split_whitespace s.
Proof. done. Qed.

(** [rsplit_once] finds the separator behind which no other one follows. *)
Lemma rsplit_once_none (c : ascii) (s : string) : str_contains c s = false -> rsplit_once c s = None.
Proof.
  induction s as [|a s IH]; [done|]. cbn [str_contains rsplit_once].
  intros [Ha Hs]%orb_false_iff. by rewrite IH, Ha.
Qed.

Lemma rsplit_once_app (c : ascii) (a b : string) :
  str_contains c b = false -> rsplit_once c (String.append a (String c b)) = Some (a, b).
Proof.
  intros Hb. induction a as [|x a IH].
  - rewrite append_nil_l. cbn [rsplit_once]. by rewrite rsplit_once_none, Ascii.eqb_refl.
  - rewrite append_cons. cbn [rsplit_once]. by rewrite IH.
Qed.

Lemma split_once_app (c : ascii) (a b : string) :
  str_contains c a = false -> split_once c (String.append a (String c b)) = Some (a, b).
Proof.
  induction a as [|x a IH]; [rewrite append_nil_l; cbn [split_once]; by rewrite Ascii.eqb_refl|].
  rewrite append_cons. cbn [str_contains split_once]. intros [Hx Ha]%orb_false_iff. by rewrite Hx, IH.
Qed.

Lemma strip_prefix_app (p s : string) : strip_prefix p (String.append p s) = Some s.
Proof. induction p as [|c p IH]; [done|]. rewrite append_cons. cbn [strip_prefix]. by rewrite Ascii.eqb_refl. Qed.

Lemma strip_prefix_Some (p s t : string) : strip_prefix p s = Some t -> s = String.append p t.
Proof.
  revert s. induction p as [|c p IH]; intros [|a s]; cbn [strip_prefix]; intros H; simplify_eq; try done.
  destruct (Ascii.eqb_spec c a) as [->|]; [|done]. rewrite append_cons. f_equal. by apply IH.
Qed.

Lemma str_contains_app (c : ascii) (a b : string) :
  str_contains c (String.append a b) = str_contains c a || str_contains c b.
Proof. induction a as [|x a IH]; [done|]. rewrite append_cons. cbn [str_contains]. by rewrite IH, orb_assoc. Qed.

Lemma str_all_app (p : ascii -> bool) (a b : string) :
  str_all p (String.append a b) = str_all p a && str_all p b.
Proof. induction a as [|x a IH]; [done|]. rewrite append_cons. cbn [str_all]. by rewrite IH, andb_assoc. Qed.

(** ** Decimal numbers are read back *)

Lemma parse_digits_app (a b : string) (acc : Z) :
  parse_digits acc (String.append a b) = n ← parse_digits acc a; parse_digits n b.
Proof.
  revert acc. induction a as [|c a IH]; intros acc; [done|].
  rewrite append_cons. cbn [parse_digits]. destruct (digit_value c) as [d|]; cbn; [|done].
  destruct (checked_mul acc 10) as [x|]; cbn; [|done].
  destruct (checked_add x d) as [y|]; cbn; [|done]. apply IH.
Qed.

Lemma digit_value_pretty (d : N) : (d < 10)%N -> digit_value (pretty_N_char d) = Some (Z.of_N d).
Proof.
  intros Hd. assert (d = 0 \/ d = 1 \/ d = 2 \/ d = 3 \/ d = 4 \/ d = 5 \/ d = 6 \/ d = 7 \/ d = 8 \/ d = 9)%N
    as Hc by lia.
  by destruct_or! Hc; subst.
Qed.

Lemma parse_digits_pretty_go (x : N) (s : string) :
  Z.of_N x <= u64_max -> parse_digits 0 (pretty_N_go x s) = parse_digits (Z.of_N x) s.
Proof.
  revert s. induction (N.lt_wf_0 x) as [x _ IH]; intros s Hx.
  destruct (decide (x = 0)%N) as [->|Hne]; [by rewrite pretty_N_go_0|].
  assert (x `div` 10 < x)%N as Hlt by (apply N.div_lt; lia).
  rewrite pretty_N_go_step by lia. rewrite IH by lia.
  cbn [parse_digits]. rewrite digit_value_pretty by (apply N.mod_lt; lia). cbn.
  pose proof (N.div_mod x 10 ltac:(lia)) as Hdm.
  assert (Z.of_N x = 10 * Z.of_N (x `div` 10) + Z.of_N (x `mod` 10)) as Hz by lia.
  pose proof (N2Z.is_nonneg (x `mod` 10)) as Hm. pose proof (N2Z.is_nonneg (x `div` 10)) as Hq.
  revert Hz Hm Hq. generalize (Z.of_N (x `div` 10)), (Z.of_N (x `mod` 10)). clear IH Hdm Hlt. intros q m Hz Hm Hq.
  unfold checked_mul, checked_add.
  rewrite (proj2 (Z.leb_le (q * 10) u64_max)) by lia. cbn.
  rewrite (proj2 (Z.leb_le (q * 10 + m) u64_max)) by lia. cbn. f_equal. lia.
Qed.

Definition decimal_digit (c : ascii) : bool := Nat.leb 48 (nat_of_ascii c) && Nat.leb (nat_of_ascii c) 57.

Lemma pretty_go_digits (x : N) (s : string) : str_all decimal_digit s = true -> str_all decimal_digit (pretty_N_go x s) = true.
Proof.
  revert s. induction (N.lt_wf_0 x) as [x _ IH]; intros s Hs.
  destruct (decide (x = 0)%N) as [->|Hne]; [by rewrite pretty_N_go_0|].
  rewrite pretty_N_go_step by lia. apply IH; [apply N.div_lt; lia|].
  cbn [str_all]. rewrite Hs, andb_true_r.
  assert (x `mod` 10 < 10)%N as Hm by (apply N.mod_lt; lia). revert Hm. generalize (x `mod` 10)%N. intros d Hd.
  assert (d = 0 \/ d = 1 \/ d = 2 \/ d = 3 \/ d = 4 \/ d = 5 \/ d = 6 \/ d = 7 \/ d = 8 \/ d = 9)%N
    as Hc by lia.
  by destruct_or! Hc; subst.
Qed.

Lemma pretty_digits (n : Z) : 0 <= n -> str_all decimal_digit (pretty n) = true /\ pretty n <> "".
Proof.
  intros Hn. destruct n as [|p|p]; [done| |lia].
  change (pretty (Z.pos p)) with (pretty_N_go (N.pos p) ""). split; [by apply pretty_go_digits|].
  rewrite pretty_N_go_step by lia. intros He.
  assert (forall x s, s <> "" -> pretty_N_go x s <> "") as Hne.
  { intros x. induction (N.lt_wf_0 x) as [x _ IH]; intros s Hs.
    destruct (decide (x = 0)%N) as [->|Hx]; [by rewrite pretty_N_go_0|].
    rewrite pretty_N_go_step by lia. by apply IH; [apply N.div_lt; lia|]. }
  by eapply Hne in He.
Qed.

Lemma parse_u64_digits (s : string) : str_all decimal_digit s = true -> s <> "" -> parse_u64 s = parse_digits 0 s.
Proof.
  destruct s as [|c s]; [done|]. unfold parse_u64. cbn [str_all]. intros [Hc _]%andb_true_iff _.
  destruct (Ascii.eqb_spec c "+") as [->|]; done.
Qed.

Lemma parse_u64_pretty (n : Z) : 0 <= n <= u64_max -> parse_u64 (pretty n) = Some n.
Proof.
  intros Hn. destruct (pretty_digits n ltac:(lia)) as [Hd Hne]. rewrite parse_u64_digits by done.
  destruct n as [|p|p]; [done| |lia].
  change (pretty (Z.pos p)) with (pretty_N_go (N.pos p) ""). by rewrite parse_digits_pretty_go by lia.
Qed.

Lemma digit_graphic (c : ascii) : decimal_digit c = true -> graphic c = true.
Proof. unfold decimal_digit, graphic. rewrite !andb_true_iff, !Nat.leb_le, !Nat.ltb_lt. lia. Qed.

Lemma str_all_impl (p q : ascii -> bool) (s : string) :
  (forall c, p c = true -> q c = true) -> str_all p s = true -> str_all q s = true.
Proof.
  intros Hpq. induction s as [|c s IH]; [done|]. cbn [str_all].
  rewrite !andb_true_iff. intros [? ?]. auto.
Qed.

Lemma pretty_word (n : Z) : 0 <= n -> is_word (pretty n) = true.
Proof.
  intros [Hd Hne]%pretty_digits. unfold is_word. apply andb_true_iff. split.
  - apply negb_true_iff. by apply String.eqb_neq.
  - eapply str_all_impl; [|exact Hd]. apply digit_graphic.
Qed.

Lemma parse_below_pretty (b n : Z) : 0 <= n < b -> n <= u64_max -> parse_below b (pretty n) = Some n.
Proof.
  intros Hb Hn. unfold parse_below. rewrite parse_u64_pretty by lia. cbn.
  by rewrite (proj2 (Z.ltb_lt n b)) by lia.
Qed.

(** A parsed number is within its range. *)
Lemma parse_digits_range (s : string) (acc n : Z) :
  0 <= acc <= u64_max -> parse_digits acc s = Some n -> 0 <= n <= u64_max.
Proof.
  revert acc. induction s as [|c s IH]; intros acc Ha; cbn [parse_digits]; [by intros [= <-]|].
  destruct (digit_value c) as [d|] eqn:Hd; cbn; [|done].
  unfold checked_mul, checked_add. destruct (Z.leb_spec (acc * 10) u64_max); cbn; [|done].
  destruct (Z.leb_spec (acc * 10 + d) u64_max); cbn; [|done].
  apply IH. unfold digit_value in Hd. destruct (_ && _) eqn:Hc; simplify_eq.
  apply andb_true_iff in Hc as [Hc _]. apply Nat.leb_le in Hc. lia.
Qed.

Lemma parse_u64_range (s : string) (n : Z) : parse_u64 s = Some n -> 0 <= n <= u64_max.
Proof.
  unfold parse_u64. destruct s as [|c s]; [done|].
  destruct (Ascii.eqb c "+"); [destruct (String.eqb s ""); [done|]|]; apply parse_digits_range; unfold u64_max; lia.
Qed.

Lemma parse_below_range (b : Z) (s : string) (n : Z) : parse_below b s = Some n -> 0 <= n < b.
Proof.
  unfold parse_below. destruct (parse_u64 s) as [m|] eqn:Hm; cbn; [|done].
  apply parse_u64_range in Hm. destruct (Z.ltb_spec m b); intros H'; simplify_eq. lia.
Qed.

Example words_ex : split_whitespace " S 1  -2
" = ["S"; "1"; "-2"].
Proof. reflexivity. Qed.
Example rsplit_ex : rsplit_once ")" "7 (a) b) S 1" = Some ("7 (a) b", " S 1").
Proof. reflexivity. Qed.
Example parse_u16_ex : (parse_u16 "65535", parse_u16 "65536", parse_u16 "+1", parse_u16 "+") = (Some 65535, None, Some 1, None).
Proof. reflexivity. Qed.
Example lossy_ex : utf8_lossy (String.append "정" (String "255" "책")) = String.append "정" (replacement "책").
Proof. reflexivity. Qed.
Example hex_ex : (parse_hex "00000000a80425fb", parse_hex "g") = (Some 2818844155, None).
Proof. reflexivity. Qed.

(** Trimming a word and the blank behind it. *)
Lemma trim_start_word (w rest : string) : is_word w = true -> trim_start (String.append w rest) = String.append w rest.
Proof.
  unfold is_word. destruct w as [|c w]; [done|]. cbn [str_all]. rewrite !andb_true_iff.
  intros (_ & Hc & _). apply graphic_not_space in Hc as (S1 & S2 & S3). rewrite append_cons. cbn [trim_start].
  rewrite S1. destruct (String.append w rest) as [|b s]; [done|]. rewrite S2. destruct s as [|d s]; [done|]. by rewrite S3.
Qed.

Lemma trim_empty_graphic (c : ascii) (s : string) : graphic c = true -> trim_is_empty (String c s) = false.
Proof.
  intros (S1 & S2 & S3)%graphic_not_space. cbn [trim_is_empty]. rewrite S1.
  destruct s as [|b s]; [done|]. rewrite S2. destruct s as [|d s]; [done|]. by rewrite S3.
Qed.

Lemma trim_end_word (w : string) : str_all graphic w = true -> trim_end (String.append w " ") = w.
Proof.
  induction w as [|c w IH]; [done|]. cbn [str_all]. intros [Hc Hw]%andb_true_iff.
  rewrite append_cons. cbn [trim_end]. rewrite trim_empty_graphic by done. by rewrite IH.
Qed.

Lemma trim_word (w : string) : is_word w = true -> str_trim (String.append w " ") = w.
Proof.
  intros Hw. unfold str_trim. rewrite trim_start_word by done. apply trim_end_word.
  unfold is_word in Hw. by apply andb_true_iff in Hw as [_ ?].
Qed.

(** Characters that do not occur. *)
Lemma contains_concat (c : ascii) (sep : string) (l : list string) :
  str_contains c sep = false -> Forall (fun s => str_contains c s = false) l -> str_contains c (String.concat sep l) = false.
Proof.
  intros Hs Hl. induction Hl as [|x l Hx Hl IH]; [done|].
  destruct l as [|y l]; [done|].
  change (String.concat sep (x :: y :: l)) with (String.append x (String.append sep (String.concat sep (y :: l)))).
  rewrite !str_contains_app, Hx, Hs. exact IH.
Qed.

Lemma contains_all (c : ascii) (p : ascii -> bool) (s : string) :
  p c = false -> str_all p s = true -> str_contains c s = false.
Proof.
  intros Hc. induction s as [|a s IH]; [done|]. cbn [str_all str_contains].
  intros [Ha Hs]%andb_true_iff. destruct (Ascii.eqb_spec a c) as [->|]; [congruence|]. by apply IH.
Qed.

Lemma pretty_no_slash (n : Z) : str_contains "/" (pretty n) = false.
Proof.
  destruct (Z.le_gt_cases 0 n) as [Hn|Hn].
  - by apply (contains_all _ decimal_digit), pretty_digits.
  - destruct n as [|q|q]; [lia|lia|]. change (pretty (Z.neg q)) with (String "-" (pretty (Z.pos q))).
    cbn [str_contains]. by apply (contains_all _ decimal_digit), pretty_digits.
Qed.

(** Lines, each ended by a newline. *)
Definition unlines (ls : list string) : string :=
  foldr (fun l rest => String.append l (String newline rest)) "" ls.

Lemma split_at_line (c : ascii) (a b : string) :
  str_contains c a = false -> split_at c (String.append a (String c b)) = a :: split_at c b.
Proof.
  induction a as [|x a IH].
  - intros _. rewrite append_nil_l. cbn [split_at]. by rewrite Ascii.eqb_refl.
  - cbn [str_contains]. intros [Hx Ha]%orb_false_iff. rewrite append_cons. cbn [split_at]. by rewrite Hx, IH.
Qed.

Definition no_newline (l : string) : Prop := str_contains newline l = false.

Lemma split_at_unlines (ls : list string) : Forall no_newline ls -> split_at newline (unlines ls) = ls ++ [""].
Proof.
  intros Hls. induction Hls as [|l ls Hl Hls IH]; [done|].
  change (unlines (l :: ls)) with (String.append l (String newline (unlines ls))).
  rewrite split_at_line by done. by rewrite IH.
Qed.

Lemma concat_cons (s : string) (l : list string) : String.concat "" (s :: l) = String.append s (String.concat "" l).
Proof. destruct l as [|t l]; [symmetry; apply append_nil_r|done]. Qed.

Lemma unlines_app (a b : list string) : unlines (a ++ b) = String.append (unlines a) (unlines b).
Proof.
  induction a as [|l a IH]; [done|]. cbn [app]. change (unlines (l :: ?k)) with (String.append l (String newline (unlines k))).
  rewrite IH, append_assoc. by rewrite append_cons.
Qed.

(** ** Bytes of paths *)

Lemma utf8_valid_sep (c : ascii) (b : string) : Nat.ltb (nat_of_ascii c) 128 = true ->
  forall a, utf8_valid (a +:+ String c b) = utf8_valid a && utf8_valid b.
Proof.
  intros Hc a.
  assert (is_continuation c = false) as Hk.
  { unfold is_continuation. apply Nat.ltb_lt in Hc. apply andb_false_iff. left. apply Nat.leb_gt. lia. }
  remember (String.length a) as n eqn:Hn.
  revert a Hn. induction n as [n IH] using lt_wf_ind. intros a Hn.
  destruct a as [|a1 a].
  { rewrite append_nil_l. cbn [utf8_valid]. cbn zeta. by rewrite Hc. }
  rewrite append_cons. cbn [utf8_valid]. cbn zeta. destruct (Nat.ltb (nat_of_ascii a1) 128) eqn:H1.
  { eapply IH; [|done]. rewrite Hn. cbn. lia. }
  destruct a as [|a2 a].
  { rewrite append_nil_l. destruct (Nat.leb 194 _ && _); [by rewrite Hk|].
    destruct b as [|b1 b]; [done|]. destruct (Nat.leb 224 _ && _); [by rewrite Hk|].
    destruct b as [|b2 b]; [done|]. rewrite Hk, !andb_false_r. done. }
  rewrite append_cons. destruct (Nat.leb 194 _ && _).
  { rewrite <- andb_assoc. f_equal. eapply IH; [|done]. rewrite Hn. cbn. lia. }
  destruct a as [|a3 a].
  { rewrite append_nil_l. destruct (Nat.leb 224 _ && _); [by rewrite Hk, andb_false_r|].
    destruct b as [|b1 b]; [done|]. rewrite Hk, !andb_false_r. done. }
  rewrite append_cons. destruct (Nat.leb 224 _ && _).
  { rewrite <- !andb_assoc. do 4 f_equal. eapply IH; [|done]. rewrite Hn. cbn. lia. }
  destruct a as [|a4 a]; [rewrite append_nil_l; by rewrite Hk, !andb_false_r|].
  rewrite append_cons, <- !andb_assoc. do 7 f_equal. eapply IH; [|done]. rewrite Hn. cbn. lia.
Qed.

Lemma utf8_valid_slash (a b : string) : utf8_valid (a +:+ String "/" b) = utf8_valid a && utf8_valid b.
Proof. by apply utf8_valid_sep. Qed.

Lemma utf8_concat (segs : list string) : segs <> [] ->
  utf8_valid (String.concat "/" segs) = forallb utf8_valid segs.
Proof.
  induction segs as [|s segs IH]; [done|]. intros _. destruct segs as [|s' segs]; [cbn; by rewrite andb_true_r|].
  change (String.concat "/" (s :: s' :: segs)) with (s +:+ String "/" (String.concat "/" (s' :: segs))).
  rewrite utf8_valid_slash, IH by done. done.
Qed.

(** ** Components *)

Definition component_name (c : component) : string :=
  match c with Normal s => s | ParentDir => ".." | CurDir => "." | RootDir => "" end.

Lemma segment_name (seg : string) (c : component) :
  segment_component seg = Some c -> component_name c = seg /\ segment_component (component_name c) = Some c.
Proof.
  unfold segment_component. destruct (String.eqb seg "") eqn:H0; [done|].
  destruct (String.eqb seg ".") eqn:H1; [done|].
  destruct (String.eqb_spec seg "..") as [->|H2]; intros [= <-]; [done|]. cbn [component_name].
  rewrite H0, H1. by rewrite (proj2 (String.eqb_neq _ _) H2).
Qed.

Lemma omap_segment (seg : string) (segs : list string) :
  omap segment_component (seg :: segs) =
  match segment_component seg with
  | Some c => c :: omap segment_component segs
  | None => omap segment_component segs
  end.
Proof. reflexivity. Qed.

Lemma component_names (segs : list string) :
  map component_name (omap segment_component segs)
    = List.filter (fun seg => is_some (segment_component seg)) segs
  /\ omap segment_component (map component_name (omap segment_component segs)) = omap segment_component segs.
Proof.
  induction segs as [|seg segs [IH1 IH2]]; [done|]. rewrite omap_segment. cbn [List.filter].
  destruct (segment_component seg) as [c|] eqn:E; [|done]. destruct (segment_name _ _ E) as [E1 E2].
  cbn [map is_some]. rewrite omap_segment, E2, IH2, IH1, E1. done.
Qed.

Lemma path_of_root (body : list component) :
  path_of (RootDir :: body) = String "/" (String.concat "/" (map component_name body)).
Proof. reflexivity. Qed.

(** Collecting the components of an absolute path gives the same path. *)
Lemma components_path_of (p : string) : is_absolute p = true -> components (path_of (components p)) = components p.
Proof.
  intros Ha. unfold components at 2 3. rewrite Ha, path_of_root. cbn zeta.
  set (segs := split_slash p). destruct (component_names segs) as [E1 E2].
  unfold components. cbn [is_absolute]. replace (Ascii.eqb "/" "/") with true by done.
  replace (split_slash (String "/" (String.concat "/" (map component_name (omap segment_component segs)))))
    with ("" :: split_slash (String.concat "/" (map component_name (omap segment_component segs)))) by done.
  cbn zeta. f_equal. rewrite omap_segment. cbn [segment_component String.eqb].
  destruct (omap segment_component segs) as [|c cs] eqn:E; [done|]. rewrite <- E in *.
  rewrite split_concat; [done|by rewrite E|]. rewrite E1.
  destruct (split_slash_spec p) as [_ Hs]. apply Forall_forall. intros seg [Hseg _]%filter_elem.
  rewrite Forall_forall in Hs. by apply Hs.
Qed.

Lemma utf8_path_of (p : string) : is_absolute p = true -> utf8_valid p = true -> utf8_valid (path_of (components p)) = true.
Proof.
  intros Ha Hp. unfold components. rewrite Ha, path_of_root. cbn zeta. destruct (component_names (split_slash p)) as [-> _].
  change (utf8_valid (String "/" ?s)) with (utf8_valid s).
  destruct (split_slash_spec p) as [E _].
  assert (forallb utf8_valid (split_slash p) = true) as Hs.
  { rewrite <- utf8_concat; [by rewrite E|]. by destruct (split_slash_cons p) as (? & ? & ->). }
  destruct (List.filter _ (split_slash p)) as [|x l] eqn:El; [done|]. rewrite <- El.
  rewrite utf8_concat by by rewrite El. apply forallb_forall. intros seg [Hin _]%filter_In.
  rewrite forallb_forall in Hs. by apply Hs.
Qed.

(** The root directory is only written with slashes and dots. *)
Lemma root_path (p : string) : path_eq p "/" = true -> is_absolute p = true /\ utf8_valid p = true.
Proof.
  unfold path_eq. intros E%bool_decide_eq_true. change (components "/") with [RootDir] in E.
  assert (is_absolute p = true) as Ha.
  { destruct (is_absolute p) eqn:Ha; [done|]. unfold components in E. rewrite Ha in E. exfalso.
    assert (RootDir ∈ omap segment_component (split_slash p)) as Hin.
    { destruct (split_slash p) as [|seg segs]; [done|]. destruct (String.eqb seg "."); [done|]. rewrite E. by left. }
    apply list_elem_of_omap in Hin as (seg & _ & Hseg). by apply segment_name in Hseg as [_ Hseg]. }
  split; [done|]. destruct (split_slash_spec p) as [Ep _]. rewrite <- Ep, utf8_concat;
    [|by destruct (split_slash_cons p) as (? & ? & ->)].
  unfold components in E. rewrite Ha in E. injection E as E. apply forallb_forall. intros seg Hseg%list_elem_of_In.
  destruct (segment_component seg) as [c|] eqn:Ec.
  { exfalso. assert (c ∈ omap segment_component (split_slash p)) as Hc by (apply list_elem_of_omap; eauto).
    rewrite E in Hc. by apply elem_of_nil in Hc. }
  unfold segment_component in Ec. destruct (String.eqb_spec seg "") as [->|]; [done|].
  destruct (String.eqb_spec seg ".") as [->|]; [done|]. by destruct (String.eqb seg "..").
Qed.
