(* ===== verification/IpAddr.v ===== *)
(** IP addresses of the Rust standard library ([std::net::IpAddr]): parsing,
    printing and the classes the vault client and the network isolation ask for. *)
From Stdlib Require Import ZArith Lia Ascii.
From stdpp Require Import base strings list pretty.
From S2P Require Import Prelude RustPath RustStr.
#[local] Open Scope Z_scope.

(** * Parsing and classes *)

Inductive IpAddr :=
| V4 (octets : list Z)
| V6 (groups : list Z).

(** [char::to_digit]. *)
Definition to_digit (radix : Z) (c : ascii) : option Z :=
  let n := Z.of_nat (nat_of_ascii c) in
  let d := if (48 <=? n) && (n <=? 57) then n - 48
           else if (97 <=? n) && (n <=? 122) then n - 87
           else if (65 <=? n) && (n <=? 90) then n - 55 else radix in
  if d <? radix then Some d else None.

(** [Parser::read_number]: at most [max_digits] digits, a value within [limit]. *)
Fixpoint read_digits (radix : Z) (max_digits count : nat) (acc : Z) (s : string)
    : option (nat * Z * string) :=
  match s with
  | EmptyString => Some (count, acc, s)
  | String c rest =>
      match to_digit radix c with
      | None => Some (count, acc, s)
      | Some d => if Nat.ltb max_digits (S count) then None
                  else read_digits radix max_digits (S count) (acc * radix + d) rest
      end
  end.
Definition read_number (radix : Z) (max_digits : nat) (allow_zero_prefix : bool) (limit : Z) (s : string)
    : option (Z * string) :=
  let zero := str_starts_with "0" s in
  match read_digits radix max_digits 0 0 s with
  | None => None
  | Some (count, value, rest) =>
      if Nat.eqb count 0 || (negb allow_zero_prefix && zero && Nat.ltb 1 count) || (limit <? value)
      then None else Some (value, rest)
  end.
Definition read_given_char (c : ascii) (s : string) : option string :=
  match s with
  | String d rest => if Ascii.eqb c d then Some rest else None
  | EmptyString => None
  end.
Definition read_separator {A} (sep : ascii) (index : nat) (inner : string -> option (A * string)) (s : string)
    : option (A * string) :=
  match index with O => inner s | S _ => read_given_char sep s ≫= inner end.

Fixpoint read_octets (count index : nat) (s : string) : option (list Z * string) :=
  match count with
  | O => Some ([], s)
  | S count =>
      '(octet, s) ← read_separator "." index (read_number 10 3 false 255) s;
      '(octets, s) ← read_octets count (S index) s;
      Some (octet :: octets, s)
  end.
Definition read_ipv4_addr (s : string) : option (list Z * string) := read_octets 4 0 s.

(** The groups of an IPv6 address from [index] on, and whether they end in an IPv4 address. *)
Fixpoint read_groups (count index limit : nat) (s : string) : list Z * bool * string :=
  match count with
  | O => ([], false, s)
  | S count =>
      match (if Nat.ltb index (limit - 1) then read_separator ":" index read_ipv4_addr s else None) with
      | Some ([a; b; c; d], rest) => ([a * 256 + b; c * 256 + d], true, rest)
      | _ =>
          match read_separator ":" index (read_number 16 4 true 65535) s with
          | Some (group, rest) =>
              let '(groups, ipv4, rest) := read_groups count (S index) limit rest in
              (group :: groups, ipv4, rest)
          | None => ([], false, s)
          end
      end
  end.
Definition read_ipv6_addr (s : string) : option (list Z * string) :=
  let '(head, ipv4, s) := read_groups 8 0 8 s in
  if Nat.eqb (length head) 8 then Some (head, s)
  else if ipv4 then None
  else
    s ← read_given_char ":" s;
    s ← read_given_char ":" s;
    let limit := (8 - (length head + 1))%nat in
    let '(tail, _, s) := read_groups limit 0 limit s in
    Some (head ++ replicate (8 - length head - length tail) 0 ++ tail, s).

Definition parse_ip (s : string) : option IpAddr :=
  match read_ipv4_addr s with
  | Some (octets, rest) => if String.eqb rest "" then Some (V4 octets) else None
  | None =>
      match read_ipv6_addr s with
      | Some (groups, rest) => if String.eqb rest "" then Some (V6 groups) else None
      | None => None
      end
  end.
Definition is_loopback (ip : IpAddr) : bool :=
  match ip with
  | V4 octets => bool_decide (head octets = Some 127)
  | V6 groups => bool_decide (groups = [0; 0; 0; 0; 0; 0; 0; 1])
  end.

Example parse_ip_ex :
  (parse_ip "127.0.0.1", parse_ip "::1", parse_ip "1::ffff:10.0.0.1", parse_ip "127.0.0.01", parse_ip "localhost")
  = (Some (V4 [127; 0; 0; 1]), Some (V6 [0; 0; 0; 0; 0; 0; 0; 1]), Some (V6 [1; 0; 0; 0; 0; 65535; 2560; 1]), None, None).
Proof. reflexivity. Qed.


Definition is_ipv4 (ip : IpAddr) : bool := match ip with V4 _ => true | V6 _ => false end.
Definition is_unspecified (ip : IpAddr) : bool :=
  match ip with V4 octets => forallb (Z.eqb 0) octets | V6 groups => forallb (Z.eqb 0) groups end.
Definition is_multicast (ip : IpAddr) : bool :=
  match ip with
  | V4 octets => is_some_and (head octets) (fun a => (224 <=? a) && (a <=? 239))
  | V6 groups => is_some_and (head groups) (fun a => 65280 <=? a)
  end.

(** * Printing *)

(** [{:x}]. *)
Definition hex_char (d : Z) : ascii := ascii_of_nat (Z.to_nat (if d <? 10 then 48 + d else 87 + d)).
Fixpoint hex_from (fuel : nat) (n : Z) (s : string) : string :=
  match fuel with
  | O => s
  | S fuel => let s := String (hex_char (n mod 16)) s in if n / 16 =? 0 then s else hex_from fuel (n / 16) s
  end.
(** A group has 16 bits: at most four digits. *)
Definition hex_group (n : Z) : string := hex_from 4 n "".

Definition dotted (octets : list Z) : string := String.concat "." (map pretty octets).
Definition colons (groups : list Z) : string := String.concat ":" (map hex_group groups).

(** The first longest run of zero groups: its start and its length. *)
Fixpoint zero_run (i : nat) (groups : list Z) (current longest : nat * nat) : nat * nat :=
  match groups with
  | [] => longest
  | g :: groups =>
      if g =? 0 then
        let current := (if Nat.eqb current.2 0 then i else current.1, S current.2) in
        zero_run (S i) groups current (if Nat.ltb longest.2 current.2 then current else longest)
      else zero_run (S i) groups (0%nat, 0%nat) longest
  end.
Definition ip_to_string (ip : IpAddr) : string :=
  match ip with
  | V4 octets => dotted octets
  | V6 groups =>
      match groups with
      | [0; 0; 0; 0; 0; 65535; ab; cd] =>
          String.append "::ffff:" (dotted [ab / 256; ab mod 256; cd / 256; cd mod 256])
      | _ =>
          let '(start, len) := zero_run 0 groups (0%nat, 0%nat) (0%nat, 0%nat) in
          if Nat.ltb 1 len then
            String.append (colons (take start groups)) (String.append "::" (colons (drop (start + len) groups)))
          else colons groups
      end
  end.

Example ip_to_string_ex :
  map (fun s => ip_to_string <$> parse_ip s) ["192.0.2.20"; "2001:DB8:0:0:1:0:0:1"; "::FFFF:10.0.0.1"; "0:0:1::"; "1:2:3:4:5:6:0:8"]
  = [Some "192.0.2.20"; Some "2001:db8::1:0:0:1"; Some "::ffff:10.0.0.1"; Some "0:0:1::"; Some "1:2:3:4:5:6:0:8"].
Proof. reflexivity. Qed.

(** * Ranges, and the characters of a printed address *)

Lemma to_digit_nonneg radix c d : to_digit radix c = Some d -> 0 <= d.
Proof.
  unfold to_digit. repeat case_match; intros; simplify_eq; rewrite ?andb_true_iff, ?Z.leb_le, ?Z.ltb_lt in *; lia.
Qed.

Lemma read_digits_nonneg radix max count acc s n v rest :
  0 <= radix -> 0 <= acc -> read_digits radix max count acc s = Some (n, v, rest) -> 0 <= v.
Proof.
  intros Hr. revert count acc. induction s as [|c s IH]; intros count acc Ha; cbn [read_digits]; [intros; by simplify_eq|].
  destruct (to_digit radix c) as [d|] eqn:Hd; [|intros; by simplify_eq].
  destruct (Nat.ltb max (S count)); [done|]. apply to_digit_nonneg in Hd. apply IH. nia.
Qed.

Lemma read_number_range radix max zero limit s v rest :
  0 <= radix -> read_number radix max zero limit s = Some (v, rest) -> 0 <= v <= limit.
Proof.
  intros Hr. unfold read_number. destruct (read_digits radix max 0 0 s) as [[[n x] r]|] eqn:Hd; [|done].
  apply read_digits_nonneg in Hd; [|done|lia]. destruct (_ || _) eqn:Hbad; [done|]. intros; simplify_eq.
  apply orb_false_iff in Hbad as [_ Hl%Z.ltb_ge]. lia.
Qed.

Lemma read_separator_range {A} sep index (inner : string -> option (A * string)) s x (P : A -> Prop) :
  (forall s y, inner s = Some y -> P y.1) -> read_separator sep index inner s = Some x -> P x.1.
Proof.
  intros Hi. unfold read_separator. destruct index; [apply Hi|].
  destruct (read_given_char sep s) as [s'|]; cbn; [apply Hi|done].
Qed.

Definition octet (n : Z) : Prop := 0 <= n <= 255.
Definition group16 (n : Z) : Prop := 0 <= n <= 65535.

Lemma read_octets_range count index s l rest :
  read_octets count index s = Some (l, rest) -> Forall octet l /\ length l = count.
Proof.
  revert index s l. induction count as [|count IH]; intros index s l; cbn [read_octets]; [by intros [= <- _]|].
  destruct (read_separator "." index (read_number 10 3 false 255) s) as [[o s1]|] eqn:Ho; cbn; [|done].
  destruct (read_octets count (S index) s1) as [[os s2]|] eqn:Hos; cbn; [|done]. intros [= <- <-].
  apply IH in Hos as [Hos Hlen]. split; [|cbn; by rewrite Hlen]. constructor; [|done].
  apply (read_separator_range _ _ _ _ _ octet) in Ho; [done|]. intros t [v r] Hv. cbn. by apply read_number_range in Hv.
Qed.

Lemma read_groups_nonneg count index limit s : Forall (Z.le 0) (read_groups count index limit s).1.1.
Proof.
  revert index s. induction count as [|count IH]; intros index s; cbn [read_groups]; [constructor|].
  destruct (if Nat.ltb index (limit - 1) then _ else None) as [[[|a [|b [|c [|d [|]]]]] rest]|] eqn:H4;
    try (destruct (read_separator ":" index (read_number 16 4 true 65535) s) as [[g rest']|] eqn:Hg; [|constructor];
         specialize (IH (S index) rest'); destruct (read_groups count (S index) limit rest') as [[gs ip] r];
         constructor; [|exact IH];
         apply (read_separator_range _ _ _ _ _ (Z.le 0)) in Hg; [done|]; intros t [v q] Hv%read_number_range; cbn; lia).
  destruct (Nat.ltb index (limit - 1)); [|done].
  apply (read_separator_range _ _ _ _ _ (Forall octet)) in H4; [|intros t [l q] Hl%read_octets_range; tauto].
  cbn in H4. unfold octet in H4. rewrite !Forall_cons in H4. destruct H4 as (? & ? & ? & ? & _).
  cbn. repeat constructor; lia.
Qed.

Definition ip_ok (ip : IpAddr) : Prop :=
  match ip with V4 octets => Forall octet octets /\ length octets = 4%nat | V6 groups => Forall (Z.le 0) groups /\ (8 <= length groups)%nat end.

Lemma parse_ip_ok s ip : parse_ip s = Some ip -> ip_ok ip.
Proof.
  unfold parse_ip. destruct (read_ipv4_addr s) as [[l rest]|] eqn:H4.
  - destruct (String.eqb rest ""); intros; simplify_eq. by eapply read_octets_range.
  - destruct (read_ipv6_addr s) as [[l rest]|] eqn:H6; [|done].
    destruct (String.eqb rest ""); intros; simplify_eq. cbn. revert H6. unfold read_ipv6_addr.
    pose proof (read_groups_nonneg 8 0 8 s) as Hh. destruct (read_groups 8 0 8 s) as [[head ipv4] s1]. cbn in Hh.
    destruct (Nat.eqb_spec (length head) 8) as [H8|H8]; [by intros [= <- _]; split; [done|rewrite H8]|]. destruct ipv4; [done|].
    destruct (read_given_char ":" s1) as [s2|]; cbn [mbind option_bind]; [|done].
    destruct (read_given_char ":" s2) as [s3|]; cbn [mbind option_bind]; [|done].
    pose proof (read_groups_nonneg (8 - (length head + 1)) 0 (8 - (length head + 1)) s3) as Ht.
    destruct (read_groups _ _ _ s3) as [[tail b] s4]. cbn in Ht. intros [= <- _].
    rewrite !Forall_app, !length_app, length_replicate. split_and!; [done|by apply Forall_replicate|done|lia].
Qed.

(** Digits, small hexadecimal letters, dots and colons. *)
Definition ip_char (c : ascii) : bool :=
  decimal_digit c || (Nat.leb 97 (nat_of_ascii c) && Nat.leb (nat_of_ascii c) 102) || Ascii.eqb c "." || Ascii.eqb c ":".

Lemma concat_all (p : ascii -> bool) (sep : string) (l : list string) :
  str_all p sep = true -> Forall (fun s => str_all p s = true) l -> str_all p (String.concat sep l) = true.
Proof.
  intros Hs Hl. induction Hl as [|x l Hx Hl IH]; [done|]. destruct l as [|y l]; [done|].
  change (String.concat sep (x :: y :: l)) with (String.append x (String.append sep (String.concat sep (y :: l)))).
  rewrite !str_all_app, Hx, Hs. exact IH.
Qed.

Lemma hex_char_ok d : 0 <= d < 16 -> ip_char (hex_char d) = true.
Proof.
  intros Hd. assert (d = 0 \/ d = 1 \/ d = 2 \/ d = 3 \/ d = 4 \/ d = 5 \/ d = 6 \/ d = 7 \/ d = 8 \/ d = 9
    \/ d = 10 \/ d = 11 \/ d = 12 \/ d = 13 \/ d = 14 \/ d = 15) as Hc by lia.
  by destruct_or! Hc; subst.
Qed.

Lemma hex_from_ok fuel n s : str_all ip_char s = true -> str_all ip_char (hex_from fuel n s) = true.
Proof.
  revert n s. induction fuel as [|fuel IH]; intros n s Hs; [done|]. cbn [hex_from].
  assert (str_all ip_char (String (hex_char (n mod 16)) s) = true) as Hs'.
  { cbn [str_all]. rewrite Hs, andb_true_r. apply hex_char_ok, Z.mod_pos_bound. lia. }
  destruct (n / 16 =? 0); [done|]. by apply IH.
Qed.

Lemma dotted_ok l : Forall (Z.le 0) l -> str_all ip_char (dotted l) = true.
Proof.
  intros Hl. apply concat_all; [done|]. apply Forall_map. eapply Forall_impl; [exact Hl|]. intros n Hn.
  eapply str_all_impl; [|by apply pretty_digits]. intros c Hc. unfold ip_char. by rewrite Hc.
Qed.

Lemma colons_ok l : str_all ip_char (colons l) = true.
Proof.
  apply concat_all; [done|]. apply Forall_map, Forall_forall. intros n _. by apply hex_from_ok.
Qed.

(** A printed address holds nothing but these characters. *)
Lemma ip_to_string_chars ip : ip_ok ip -> str_all ip_char (ip_to_string ip) = true.
Proof.
  destruct ip as [octets|groups]; cbn [ip_ok ip_to_string].
  - intros [Ho _]. apply dotted_ok. eapply Forall_impl; [exact Ho|]. unfold octet. lia.
  - intros [Hg _].
    assert (str_all ip_char (let '(start, len) := zero_run 0 groups (0%nat, 0%nat) (0%nat, 0%nat) in
      if Nat.ltb 1 len then String.append (colons (take start groups)) (String.append "::" (colons (drop (start + len) groups)))
      else colons groups) = true) as Hrest.
    { destruct (zero_run _ _ _ _) as [start len]. destruct (Nat.ltb 1 len); [|apply colons_ok].
      rewrite !str_all_app, !colons_ok. done. }
    repeat first [exact Hrest | case_match; subst].
    all: rewrite str_all_app; apply andb_true_iff; split; [done|]; apply dotted_ok.
    all: rewrite !Forall_cons in Hg; destruct_and! Hg; rewrite !Forall_cons.
    all: split_and!; try apply Forall_nil_2; try (apply Z.div_pos; lia); apply Z.mod_pos_bound; lia.
Qed.

Lemma append_not_nil (a b : string) : a <> "" -> String.append a b <> "".
Proof. by destruct a. Qed.

Lemma append_not_nil_r (a b : string) : b <> "" -> String.append a b <> "".
Proof. by destruct a. Qed.

Lemma ip_to_string_not_nil ip : ip_ok ip -> ip_to_string ip <> "".
Proof.
  assert (forall sep x y l, sep <> "" -> String.concat sep (x :: y :: l) <> "") as Hcat.
  { intros sep x y l Hs. change (String.concat sep (x :: y :: l)) with (String.append x (String.append sep (String.concat sep (y :: l)))).
    destruct x; [rewrite append_nil_l; by apply append_not_nil|done]. }
  destruct ip as [octets|groups]; cbn [ip_ok ip_to_string].
  - intros [_ Hl]. destruct octets as [|a [|b l]]; [done|done|]. by apply Hcat.
  - intros [_ Hl].
    assert (colons groups <> "") as Hc by (destruct groups as [|a [|b l]]; cbn in Hl; [lia|lia|by apply Hcat]).
    repeat case_match; first [exact Hc | done | by apply append_not_nil_r].
Qed.
