(* ===== verification/Common.v ===== *)
(** [argos-common]: the event model and the configuration structures
    (crates/argos-common/src/event.rs and config.rs), with their defaults. *)
From Stdlib Require Import ZArith.
From stdpp Require Import base strings list.
From S2P Require Import Prelude F64.
#[local] Open Scope Z_scope.

(** * Events *)

Inductive FileAction : Set := Create | Modify | Delete | Rename | Chmod | Chown.

#[export] Instance FileAction_eq_dec : EqDecision FileAction.
Proof. solve_decision. Defined.

Inductive Severity : Set := Low | Medium | High | Critical.

#[export] Instance Severity_eq_dec : EqDecision Severity.
Proof. solve_decision. Defined.

Definition severity_as_str (s : Severity) : string :=
  match s with
  | Low => "low" | Medium => "medium" | High => "high" | Critical => "critical"
  end.

Record ProcessIdentity := mkProcessIdentity {
  pi_pid : Z;
  pi_start_time_ticks : Z;
  pi_boot_id : string;
}.

Record FileProcessContext := mkFileProcessContext {
  fp_uid : Z;
  fp_exe : string;
  fp_start_time_ticks : Z;
  fp_boot_id : string;
  fp_ancestors : list ProcessIdentity;
}.

Record ContentSample := mkContentSample {
  cs_offset : Z;
  cs_length : Z;
  cs_entropy : f64;
}.

Record ContentEvidence := mkContentEvidence {
  ce_observed_at_ms : Z;
  ce_file_size : Z;
  ce_sampled_bytes : Z;
  ce_budget_bytes : Z;
  ce_file_type : string;
  ce_samples : list ContentSample;
  ce_complete : bool;
  ce_previous_observed_at_ms : option Z;
  ce_max_entropy_increase : option f64;
}.

Record FileEvent := mkFileEvent {
  fe_timestamp_ms : Z;
  fe_pid : Z;
  fe_path : string;
  fe_action : FileAction;
  fe_size : option Z;
  fe_entropy : option f64;
  fe_process : option FileProcessContext;
  fe_content : option ContentEvidence;
}.

Record Detection := mkDetection {
  d_timestamp_ms : Z;
  d_rule : string;
  d_score : f64;
  d_severity : Severity;
  d_summary : string;
  d_pid : Z;
  d_paths : list string;
}.

#[export] Instance Detection_eq_dec : EqDecision Detection.
Proof. solve_decision. Defined.

(** * Configuration *)

Inductive SensorKind : Set := Notify | Fanotify.

#[export] Instance SensorKind_eq_dec : EqDecision SensorKind.
Proof. solve_decision. Defined.

Record DetectionWindow := mkDetectionWindow {
  dw_window_secs : Z;
  dw_min_changed_files : Z;
  dw_mass_change_threshold : Z;
  dw_detect_score : f64;
}.

Record MultiWindowConfig := mkMultiWindowConfig {
  mw_enabled : bool;
  mw_windows : list DetectionWindow;
  mw_protected_paths : list string;
  mw_aggregate_by_user : bool;
  mw_aggregate_by_ancestry : bool;
  mw_max_events : Z;
  mw_max_groups : Z;
  mw_max_path_bytes : Z;
}.

Record ContentSamplingConfig := mkContentSamplingConfig {
  sm_enabled : bool;
  sm_total_bytes : Z;
  sm_max_files : Z;
  sm_history_secs : Z;
  sm_min_entropy_increase : f64;
}.

Record ApprovedChange := mkApprovedChange {
  ac_id : string;
  ac_valid_from_ms : Z;
  ac_valid_until_ms : Z;
  ac_paths : list string;
  ac_exe : string;
  ac_uid : Z;
  ac_adjusted_rules : list string;
}.

Record DetectionConfig := mkDetectionConfig {
  dc_window_secs : Z;
  dc_mass_change_threshold : Z;
  dc_min_changed_files : Z;
  dc_entropy_threshold : f64;
  dc_detect_score : f64;
  dc_entropy_sample_bytes : Z;
  dc_exclude_paths : list string;
  dc_approved_changes : list ApprovedChange;
  dc_canary_paths : list string;
  dc_multi_window : MultiWindowConfig;
  dc_content_sampling : ContentSamplingConfig;
}.

Record ResponseConfig := mkResponseConfig {
  rc_auto_block : bool;
  rc_block_score : f64;
}.

Record PolicyFileConfig := mkPolicyFileConfig {
  pf_path : string;
  pf_pubkey : string;
  pf_policy_id : string;
  pf_host_id : string;
  pf_groups : list string;
  (** A [BTreeMap]: the pairs in increasing key order. *)
  pf_trusted_keys : list (string * string);
  pf_state_path : string;
}.

Definition policy_is_enabled (c : PolicyFileConfig) : bool :=
  negb (String.eqb (pf_path c) "").

(** * Defaults *)

Definition DetectionWindow_default : DetectionWindow :=
  mkDetectionWindow 10 5 30 (f_of_Z 65).

Definition MultiWindowConfig_default : MultiWindowConfig :=
  {| mw_enabled := false;
     mw_windows :=
       [ DetectionWindow_default;
         mkDetectionWindow 60 8 40 (f_of_Z 65);
         mkDetectionWindow 600 12 60 (f_of_Z 65) ];
     mw_protected_paths := [];
     mw_aggregate_by_user := true;
     mw_aggregate_by_ancestry := true;
     mw_max_events := 10000;
     mw_max_groups := 2048;
     mw_max_path_bytes := 4096 |}.

Definition ContentSamplingConfig_default : ContentSamplingConfig :=
  mkContentSamplingConfig false (64 * 1024) 2048 600 (f_of_Z 1).

Definition DetectionConfig_default : DetectionConfig :=
  {| dc_window_secs := 10;
     dc_mass_change_threshold := 30;
     dc_min_changed_files := 5;
     dc_entropy_threshold := f_lit 72 10;
     dc_detect_score := f_of_Z 40;
     dc_entropy_sample_bytes := 64 * 1024;
     dc_exclude_paths := [];
     dc_approved_changes := [];
     dc_canary_paths := [];
     dc_multi_window := MultiWindowConfig_default;
     dc_content_sampling := ContentSamplingConfig_default |}.

Definition ResponseConfig_default : ResponseConfig := mkResponseConfig false (f_of_Z 80).

(** [serde(default)] on [PolicyFileConfig] derives the empty values. *)
Definition PolicyFileConfig_default : PolicyFileConfig :=
  mkPolicyFileConfig "" "" "" "" [] [] "".
