(* ===== verification/Kernel.v ===== *)
(** What the agent asks of the Linux kernel about processes: pidfds, signals and
    the files of /proc. The kernel is a parameter (class [Kernel]); class
    [ProcessLaws] states the documented behaviour the response and the process
    monitor rely on. Between and during the calls other processes may start, end
    and reuse a number: every law speaks of some moment of the call. Module
    [Simulated] is a small kernel that satisfies the laws. *)
From Stdlib Require Import ZArith Lia Ascii.
From stdpp Require Import base gmap strings list pretty.
From S2P Require Import Prelude RustPath RustStr.
#[local] Open Scope Z_scope.

Definition SIGKILL : Z := 9.
Definition SIGSTOP : Z := 19.

(** The kinds of I/O errors the code distinguishes. *)
Inductive IoErrorKind := NotFound | WouldBlock | InvalidData | OtherKind.
#[export] Instance IoErrorKind_eq_dec : EqDecision IoErrorKind.
Proof. solve_decision. Defined.

(** [errno] values are integers; the descriptors are the numbers of open files. *)
Class Kernel (W : Type) := {
  process_id : W -> Z;
  pidfd_open : W -> Z -> W * result Z Z;
  pidfd_send_signal : W -> Z -> Z -> W * result unit Z;
  (** The return value of poll(2) for one second and whether POLLIN is set. *)
  poll_pidfd : W -> Z -> W * (Z * bool);
  kill : W -> Z -> Z -> W * result unit Z;
  read_file : W -> string -> W * result string IoErrorKind;
  read_link : W -> string -> W * result string IoErrorKind;
  read_dir : W -> string -> W * result (list (result string unit)) IoErrorKind;
  os_error_string : Z -> string;
}.

(** [std::fs::read_to_string]: the bytes must be UTF-8. *)
Definition read_to_string `{Kernel W} (w : W) (path : string) : W * result string IoErrorKind :=
  let '(w, r) := read_file w path in
  (w, let? text := r in if utf8_valid text then Ok text else Err InvalidData).

Definition boot_id_path : string := "/proc/sys/kernel/random/boot_id".
Definition proc_file (pid : Z) (name : string) : string :=
  String.append "/proc/" (String.append (pretty pid) (String.append "/" name)).

(** * The documented behaviour *)

(** A line of /proc/[pid]/stat (proc_pid_stat(5)): the name is arbitrary bytes in
    parentheses, field 4 is the parent, field 22 the start in clock ticks. *)
Definition stat_field (s : string) : bool := is_word s && negb (str_contains ")" s).
Definition stat_line (pid ppid started : Z) (comm text : string) : Prop :=
  exists fields last,
    text = String.append (String.append (pretty pid) (String.append " (" comm))
             (String ")" (String " " (String.append (String.concat " " fields) last)))
    /\ Forall (fun s => stat_field s = true) fields
    /\ str_all is_space1 last = true
    /\ fields !! 1%nat = Some (pretty ppid)
    /\ fields !! 19%nat = Some (pretty started)
    /\ 0 <= ppid <= u32_max.

Class ProcessView (W : Type) := {
  (** A process from its creation until its parent has collected it. *)
  process : Type;
  pid_of : process -> Z;
  started : process -> Z;
  (** The process that owns a number now. *)
  holder : W -> Z -> option process;
  ended : W -> process -> Prop;
  boot : W -> string;
  (** The process an open descriptor refers to. *)
  target : W -> Z -> option process;
  (** The signals this program has sent, the last one first. *)
  signals : W -> list (process * Z);
  (** What the files of a process show. *)
  comm_of : W -> process -> string;
  parent_of : W -> process -> Z;
  shows_status : W -> process -> string -> Prop;
  shows_exe : W -> process -> string -> Prop;
  later : W -> W -> Prop;
}.

Definition meanwhile {W} `{ProcessView W} (w w' : W) (P : W -> Prop) : Prop :=
  exists m, later w m /\ later m w' /\ P m.
(** The call [w -> w'] sent no signal. *)
Definition silent {W} `{ProcessView W} (w w' : W) : Prop := later w w' /\ signals w' = signals w.

Class ProcessLaws (W : Type) `{Kernel W, ProcessView W} : Prop := {
  later_preorder :: PreOrder later;
  holder_pid w pid p : holder w pid = Some p -> pid_of p = pid;
  started_range w pid p : holder w pid = Some p -> 0 <= started p <= u64_max;
  (** A number is given to one process at a time, in the order of their starts. *)
  holder_order w w' pid p q :
    later w w' -> holder w pid = Some p -> holder w' pid = Some q -> started p <= started q;
  ended_kept w w' p : later w w' -> ended w p -> ended w' p;
  boot_kept w w' : later w w' -> boot w' = boot w;
  self_kept w w' : later w w' -> process_id w' = process_id w;
  target_kept w w' fd p : later w w' -> target w fd = Some p -> target w' fd = Some p;
  open_law w pid w' r : pidfd_open w pid = (w', r) ->
    silent w w' /\ forall fd, r = Ok fd -> exists p, target w' fd = Some p /\ meanwhile w w' (fun m => holder m pid = Some p);
  send_law w fd p signal w' r : target w fd = Some p -> pidfd_send_signal w fd signal = (w', r) ->
    later w w' /\ signals w' = if is_ok r then (p, signal) :: signals w else signals w;
  poll_law w fd p w' n b : target w fd = Some p -> poll_pidfd w fd = (w', (n, b)) ->
    silent w w' /\ (0 < n -> b = true -> ended w' p);
  (** kill(2) of a positive number; zero and negative ones reach whole groups. *)
  kill_law w pid signal w' r : 0 < pid -> kill w pid signal = (w', r) ->
    later w w' /\ match r with
                  | Ok _ => exists p, meanwhile w w' (fun m => holder m pid = Some p) /\ signals w' = (p, signal) :: signals w
                  | Err _ => signals w' = signals w
                  end;
  read_law w path w' r : read_file w path = (w', r) -> silent w w';
  link_law w path w' r : read_link w path = (w', r) -> silent w w';
  dir_law w path w' r : read_dir w path = (w', r) -> silent w w';
  boot_law w w' text : read_file w boot_id_path = (w', Ok text) -> str_trim text = boot w;
  stat_law w pid w' text : read_file w (proc_file pid "stat") = (w', Ok text) ->
    meanwhile w w' (fun m => exists p, holder m pid = Some p /\ stat_line pid (parent_of m p) (started p) (comm_of m p) text);
  status_law w pid w' text : read_file w (proc_file pid "status") = (w', Ok text) ->
    meanwhile w w' (fun m => exists p, holder m pid = Some p /\ shows_status m p text);
  exe_law w pid w' text : read_link w (proc_file pid "exe") = (w', Ok text) ->
    meanwhile w w' (fun m => exists p, holder m pid = Some p /\ shows_exe m p text);
}.

Section Laws.
Context {W : Type} `{ProcessLaws W}.
Implicit Types w m : W.

#[export] Instance silent_preorder : PreOrder (A := W) silent.
Proof.
  split; [by intros w|]. intros w1 w2 w3 [L1 E1] [L2 E2]. split; [by etrans|congruence].
Qed.

Lemma read_to_string_silent w path w' r : read_to_string w path = (w', r) -> silent w w'.
Proof.
  unfold read_to_string. destruct (read_file w path) as [w1 r1] eqn:Hr. intros; simplify_eq. by eapply read_law.
Qed.

Lemma read_to_string_Ok w path w' text : read_to_string w path = (w', Ok text) -> read_file w path = (w', Ok text).
Proof.
  unfold read_to_string. destruct (read_file w path) as [w1 [t|e]] eqn:Hr; cbn; [|by intros].
  destruct (utf8_valid t); intros; by simplify_eq.
Qed.

Lemma meanwhile_mono w0 w w' w1 (P : W -> Prop) :
  later w0 w -> later w' w1 -> meanwhile w w' P -> meanwhile w0 w1 P.
Proof. intros L L' (m & Hm & Hm' & HP). exists m. split_and!; [by etrans|by etrans|done]. Qed.

Lemma meanwhile_impl w w' (P Q : W -> Prop) : (forall m, P m -> Q m) -> meanwhile w w' P -> meanwhile w w' Q.
Proof. intros HPQ (m & ? & ? & ?). exists m. auto. Qed.

(** The holders of a number seen between two holders started between them. *)
Lemma started_between w1 w2 w3 pid p1 p2 p3 :
  later w1 w2 -> later w2 w3 -> holder w1 pid = Some p1 -> holder w2 pid = Some p2 -> holder w3 pid = Some p3 ->
  started p1 = started p3 -> started p2 = started p1.
Proof.
  intros L12 L23 P1 P2 P3 He. pose proof (holder_order _ _ _ _ _ L12 P1 P2).
  pose proof (holder_order _ _ _ _ _ L23 P2 P3). lia.
Qed.

End Laws.

Create HintDb kernel.
#[export] Hint Resolve read_to_string_silent read_law link_law dir_law : kernel.

(** * The fields of a line behind the last parenthesis *)

Definition stat_tail (fields : list string) (last : string) : string :=
  String " " (String.append (String.concat " " fields) last).

Lemma stat_tail_fields (fields : list string) (last : string) :
  Forall (fun s => stat_field s = true) fields -> str_all is_space1 last = true ->
  str_contains ")" (stat_tail fields last) = false /\ split_whitespace (stat_tail fields last) = fields.
Proof.
  intros Hf Hlast. unfold stat_tail.
  assert (Forall (fun s => is_word s = true) fields /\ Forall (fun s => str_contains ")" s = false) fields) as [Hw Hc].
  { rewrite <- Forall_and. eapply Forall_impl; [exact Hf|]. intros s. unfold stat_field.
    rewrite andb_true_iff, negb_true_iff. done. }
  split.
  - cbn [str_contains]. rewrite str_contains_app, contains_concat by done. cbn.
    by apply (contains_all _ is_space1).
  - rewrite split_whitespace_lead. by apply split_whitespace_words.
Qed.

(** Whatever the name holds, the last parenthesis ends it. *)
Lemma stat_line_split (pid ppid t : Z) (comm text : string) :
  stat_line pid ppid t comm text ->
  exists rest fields, rsplit_once ")" text = Some (String.append (pretty pid) (String.append " (" comm), rest)
    /\ split_whitespace rest = fields
    /\ fields !! 1%nat = Some (pretty ppid) /\ fields !! 19%nat = Some (pretty t) /\ 0 <= ppid <= u32_max.
Proof.
  intros (fields & last & -> & Hf & Hlast & Hp & Ht & Hr).
  destruct (stat_tail_fields fields last Hf Hlast) as [Hc Hw].
  exists (stat_tail fields last), fields. split; [by apply rsplit_once_app|done].
Qed.

(** * A small kernel that satisfies the laws *)

Module Simulated.

Record Proc := mkProc { sp_pid : Z; sp_serial : Z; sp_start : Z; sp_parent : Z; sp_comm : string; sp_status : string }.
#[export] Instance Proc_eq_dec : EqDecision Proc.
Proof. solve_decision. Defined.

(** What the rest of the system does between two calls. *)
Inductive Env :=
  | Tick (n : Z)
  | Exit (pid : Z)
  | Reap (pid : Z)
  | Spawn (pid parent : Z) (comm status : string).

(** [world_table]: the holder of each number and whether it still runs. *)
Record SimWorld := mkWorld {
  world_table : gmap Z (Proc * bool);
  world_clock : Z;
  world_serial : Z;
  world_fds : list Proc;
  world_signals : list (Proc * Z);
  world_script : list (list Env);
}.

Definition with_table (w : SimWorld) (t : gmap Z (Proc * bool)) : SimWorld :=
  mkWorld t (world_clock w) (world_serial w) (world_fds w) (world_signals w) (world_script w).
Definition end_process (w : SimWorld) (pid : Z) : SimWorld :=
  match world_table w !! pid with
  | Some (p, _) => with_table w (<[pid := (p, false)]> (world_table w))
  | None => w
  end.
Definition env_step (w : SimWorld) (e : Env) : SimWorld :=
  match e with
  | Tick n => mkWorld (world_table w) (world_clock w + Z.max 0 n) (world_serial w) (world_fds w) (world_signals w) (world_script w)
  | Exit pid => end_process w pid
  | Reap pid =>
      match world_table w !! pid with
      | Some (_, false) => with_table w (delete pid (world_table w))
      | _ => w
      end
  | Spawn pid parent comm status =>
      match world_table w !! pid with
      | Some _ => w
      | None =>
          mkWorld (<[pid := (mkProc pid (world_serial w) (world_clock w) parent comm status, true)]> (world_table w))
            (world_clock w) (world_serial w + 1) (world_fds w) (world_signals w) (world_script w)
      end
  end.
Definition settle (w : SimWorld) : SimWorld :=
  match world_script w with
  | [] => w
  | es :: script =>
      fold_left env_step es (mkWorld (world_table w) (world_clock w) (world_serial w) (world_fds w) (world_signals w) script)
  end.

Definition deliver_signal (w : SimWorld) (p : Proc) (signal : Z) : SimWorld :=
  let w := mkWorld (world_table w) (world_clock w) (world_serial w) (world_fds w) ((p, signal) :: world_signals w) (world_script w) in
  if signal =? SIGKILL then end_process w (sp_pid p) else w.

(** The owner of a number; entries from before the start of the clock are ignored. *)
Definition proc_ok (w : SimWorld) (pid : Z) (p : Proc) : bool :=
  (sp_pid p =? pid) && (0 <=? sp_start p) && (sp_start p <=? world_clock w) && (sp_start p <=? u64_max).
Definition owner (w : SimWorld) (pid : Z) : option Proc :=
  p ← world_table w !! pid; opt_filter (proc_ok w pid) (Some p.1).

Definition stat_text (p : Proc) : string :=
  String.append (String.append (pretty (sp_pid p)) (String.append " (" (sp_comm p)))
    (String ")" (String " " (String.append
      (String.concat " " (["S"; pretty (sp_parent p)] ++ replicate 17 "0" ++ [pretty (sp_start p)]))
      (String newline "")))).

Definition the_boot : string := "fixture-boot".
(** The files of a process; [exe] is a link. *)
Definition sim_file (p : Proc) (name : string) : option string :=
  if String.eqb name "stat" then
    if (0 <=? sp_parent p) && (sp_parent p <=? u32_max) then Some (stat_text p) else None
  else if String.eqb name "status" then Some (sp_status p)
  else if String.eqb name "cmdline" then Some (String.append (sp_comm p) (String "000" "--run"))
  else if String.eqb name "exe" then Some (String.append "/usr/bin/" (sp_comm p))
  else None.
(** The text of the file with this path among those with one of the names. *)
Definition sim_lookup (w : SimWorld) (names : list string) (path : string) : result string IoErrorKind :=
  let text (kv : Z * (Proc * bool)) : option string :=
    p ← owner w kv.1;
    match filter (fun name => path = proc_file kv.1 name) names with
    | name :: _ => sim_file p name
    | [] => None
    end in
  match omap text (map_to_list (world_table w)) with
  | t :: _ => Ok t
  | [] => Err NotFound
  end.
Definition sim_read (w : SimWorld) (path : string) : result string IoErrorKind :=
  if String.eqb path boot_id_path then Ok (String.append the_boot (String newline ""))
  else sim_lookup w ["stat"; "status"; "cmdline"] path.

#[export] Instance sim_kernel : Kernel SimWorld := {|
  process_id := fun _ => 77;
  pidfd_open := fun w pid =>
    let w := settle w in
    match owner w pid with
    | Some p => (mkWorld (world_table w) (world_clock w) (world_serial w) (world_fds w ++ [p]) (world_signals w) (world_script w),
                 Ok (Z.of_nat (length (world_fds w))))
    | None => (w, Err 3)
    end;
  pidfd_send_signal := fun w fd signal =>
    let w := settle w in
    match world_fds w !! Z.to_nat fd with
    | Some p => if bool_decide ((fst <$> (world_table w !! sp_pid p)) = Some p) then (deliver_signal w p signal, Ok tt) else (w, Err 3)
    | None => (w, Err 9)
    end;
  poll_pidfd := fun w fd =>
    let w := settle w in
    match world_fds w !! Z.to_nat fd with
    | Some p =>
        let gone := (sp_serial p <? world_serial w) && negb (bool_decide (world_table w !! sp_pid p = Some (p, true))) in
        (w, (if gone then 1 else 0, gone))
    | None => (w, (-1, false))
    end;
  kill := fun w pid signal =>
    let w := settle w in
    if 0 <? pid then
      match owner w pid with Some p => (deliver_signal w p signal, Ok tt) | None => (w, Err 3) end
    else (fold_left (fun w p => deliver_signal w p signal) (map (fun kv => kv.2.1) (map_to_list (world_table w))) w, Ok tt);
  read_file := fun w path => let w := settle w in (w, sim_read w path);
  read_link := fun w path => let w := settle w in (w, sim_lookup w ["exe"] path);
  read_dir := fun w path => (settle w, Ok (map (fun kv => Ok (pretty kv.1)) (map_to_list (world_table w))));
  os_error_string := fun errno => if errno =? 3 then "No such process (os error 3)" else "os error";
|}.

(** Only later processes enter the table, and none comes back to life. *)
Record sim_later (w w' : SimWorld) : Prop := {
  sm_clock : world_clock w <= world_clock w';
  sm_serial : world_serial w <= world_serial w';
  sm_fds : world_fds w `prefix_of` world_fds w';
  sm_table : forall pid q alive, world_table w' !! pid = Some (q, alive) ->
    (exists before, world_table w !! pid = Some (q, before) /\ (alive = true -> before = true))
    \/ (world_serial w <= sp_serial q /\ world_clock w <= sp_start q);
}.

#[export] Instance sim_view : ProcessView SimWorld := {|
  process := Proc;
  pid_of := sp_pid;
  started := sp_start;
  holder := owner;
  ended := fun w p => sp_serial p < world_serial w /\ world_table w !! sp_pid p <> Some (p, true);
  boot := fun _ => the_boot;
  target := fun w fd => world_fds w !! Z.to_nat fd;
  signals := world_signals;
  comm_of := fun _ => sp_comm;
  parent_of := fun _ => sp_parent;
  shows_status := fun _ p text => text = sp_status p;
  shows_exe := fun _ p text => text = String.append "/usr/bin/" (sp_comm p);
  later := sim_later;
|}.

Lemma sim_later_refl w : sim_later w w.
Proof. split; [lia|lia|done|]. intros pid q alive Hq. left. by exists alive. Qed.

Lemma sim_later_trans w1 w2 w3 : sim_later w1 w2 -> sim_later w2 w3 -> sim_later w1 w3.
Proof.
  intros [C1 S1 F1 T1] [C2 S2 F2 T2]. split; [lia|lia|by etrans|]. intros pid q alive Hq.
  destruct (T2 _ _ _ Hq) as [(b & Hb & Hab)|[Hs Hc]]; [|right; lia].
  destruct (T1 _ _ _ Hb) as [(b' & Hb' & Hbb)|[Hs Hc]]; [|right; lia]. left. exists b'. auto.
Qed.

Lemma end_process_later w pid : sim_later w (end_process w pid).
Proof.
  unfold end_process. destruct (world_table w !! pid) as [[p a]|] eqn:Hp; [|apply sim_later_refl].
  split; [done..|]. intros pid' q alive. cbn. destruct (decide (pid' = pid)) as [->|Hne].
  - rewrite lookup_insert_eq. intros [= <- <-]. left. by exists a.
  - rewrite lookup_insert_ne by done. intros Hq. left. by exists alive.
Qed.

Lemma env_step_later w e : sim_later w (env_step w e).
Proof.
  destruct e as [n|pid|pid|pid parent comm status]; cbn.
  - split; cbn; [lia|lia|done|]. intros pid q alive Hq. left. by exists alive.
  - apply end_process_later.
  - destruct (world_table w !! pid) as [[p [|]]|] eqn:Hp; try apply sim_later_refl.
    split; cbn; [lia|lia|done|]. intros pid' q alive Hq%lookup_delete_Some. left. exists alive. naive_solver.
  - destruct (world_table w !! pid) as [[p a]|] eqn:Hp; [apply sim_later_refl|].
    split; cbn; [lia|lia|done|]. intros pid' q alive. destruct (decide (pid' = pid)) as [->|Hne].
    + rewrite lookup_insert_eq. intros [= <- <-]. right. cbn. lia.
    + rewrite lookup_insert_ne by done. intros Hq. left. by exists alive.
Qed.

Lemma env_step_quiet w e :
  world_signals (env_step w e) = world_signals w /\ world_fds (env_step w e) = world_fds w.
Proof. destruct e; cbn; unfold end_process; repeat case_match; done. Qed.

Lemma env_steps_later es w :
  sim_later w (fold_left env_step es w) /\ world_signals (fold_left env_step es w) = world_signals w
  /\ world_fds (fold_left env_step es w) = world_fds w.
Proof.
  revert w. induction es as [|e es IH]; intros w; cbn; [split; [apply sim_later_refl|done]|].
  destruct (IH (env_step w e)) as (L & -> & ->). destruct (env_step_quiet w e) as [-> ->].
  split; [|done]. eapply sim_later_trans; [apply env_step_later|done].
Qed.

Lemma settle_later w :
  sim_later w (settle w) /\ world_signals (settle w) = world_signals w /\ world_fds (settle w) = world_fds w.
Proof.
  unfold settle. destruct (world_script w) as [|es script]; [split; [apply sim_later_refl|done]|].
  match goal with |- context [fold_left _ _ ?v] => destruct (env_steps_later es v) as (L & -> & ->) end.
  split; [|done]. destruct L as [C S F T]. by split.
Qed.

Lemma deliver_later w p signal : sim_later w (deliver_signal w p signal) /\ world_signals (deliver_signal w p signal) = (p, signal) :: world_signals w.
Proof.
  assert (forall pid v, world_signals (end_process v pid) = world_signals v) as Hs
    by (intros; unfold end_process; by repeat case_match).
  unfold deliver_signal. destruct (signal =? SIGKILL); [|split; [|done]].
  - rewrite Hs. split; [|done]. match goal with |- sim_later _ (end_process ?v _) => pose proof (end_process_later v (sp_pid p)) as [C S F T] end.
    by split.
  - destruct (sim_later_refl w) as [C S F T]. by split.
Qed.

(** ** The laws *)

Lemma file_of_pid (a b : Z) (f g : string) : proc_file a f = proc_file b g -> a = b /\ f = g.
Proof.
  intros He%(f_equal (strip_prefix "/proc/")). unfold proc_file in He. rewrite !strip_prefix_app in He.
  injection He as He%(f_equal (split_once "/")).
  change (String.append "/" ?x) with (String "/" x) in He.
  rewrite !split_once_app in He by apply pretty_no_slash. injection He as Hp ->. split; [by apply (inj pretty)|done].
Qed.

Lemma boot_not_proc (a : Z) (f : string) : f <> "kernel/random/boot_id" -> proc_file a f <> boot_id_path.
Proof.
  intros Hf He%(f_equal (strip_prefix "/proc/")). unfold proc_file, boot_id_path in He. rewrite strip_prefix_app in He.
  change (strip_prefix "/proc/" "/proc/sys/kernel/random/boot_id") with (Some "sys/kernel/random/boot_id") in He.
  injection He as He%(f_equal (split_once "/")). change (String.append "/" f) with (String "/" f) in He.
  rewrite split_once_app in He by apply pretty_no_slash. by injection He.
Qed.

Lemma owner_spec w pid p :
  owner w pid = Some p ->
  (exists a, world_table w !! pid = Some (p, a)) /\ sp_pid p = pid /\ 0 <= sp_start p <= u64_max /\ sp_start p <= world_clock w.
Proof.
  unfold owner. destruct (world_table w !! pid) as [[q a]|] eqn:Hq; cbn; [|done].
  destruct (proc_ok w pid q) eqn:Hok; cbn; intros; simplify_eq.
  unfold proc_ok in Hok. rewrite !andb_true_iff, Z.eqb_eq, !Z.leb_le in Hok.
  split; [by exists a|]. lia.
Qed.

Lemma sim_lookup_file w names pid name text :
  sim_lookup w names (proc_file pid name) = Ok text -> exists p, owner w pid = Some p /\ sim_file p name = Some text.
Proof.
  unfold sim_lookup. destruct (omap _ _) as [|t l] eqn:Hl; [done|]. intros [= <-].
  pose proof (list_elem_of_here t l) as Hin. rewrite <- Hl in Hin.
  apply list_elem_of_omap in Hin as ([k [q a]] & _ & Ht). cbn [fst] in Ht.
  destruct (owner w k) as [p|] eqn:Ho; [|done]. cbn [mbind option_bind] in Ht.
  destruct (filter _ names) as [|n ns] eqn:Hf; [done|].
  assert (n ∈ filter (fun name' => proc_file pid name = proc_file k name') names) as Hn by (rewrite Hf; left).
  apply list_elem_of_filter in Hn as [[-> ->]%file_of_pid _]. by exists p.
Qed.

Lemma sim_read_file w pid name text :
  name <> "kernel/random/boot_id" -> sim_read w (proc_file pid name) = Ok text ->
  exists p, owner w pid = Some p /\ sim_file p name = Some text.
Proof.
  intros Hname. unfold sim_read. destruct (String.eqb_spec (proc_file pid name) boot_id_path) as [He|_];
    [by apply boot_not_proc in He|]. apply sim_lookup_file.
Qed.

Lemma stat_text_line p :
  0 <= sp_parent p <= u32_max -> 0 <= sp_start p ->
  stat_line (sp_pid p) (sp_parent p) (sp_start p) (sp_comm p) (stat_text p).
Proof.
  intros Hp Hs. exists (["S"; pretty (sp_parent p)] ++ replicate 17 "0" ++ [pretty (sp_start p)]), (String newline "").
  assert (forall n, 0 <= n -> stat_field (pretty n) = true) as Hn.
  { intros n Hn. unfold stat_field. rewrite pretty_word by done. apply negb_true_iff.
    by apply (contains_all _ decimal_digit), pretty_digits. }
  split_and!; try done; [|lia|lia].
  rewrite !Forall_app, !Forall_cons. split_and!; try apply Forall_nil; try (apply Hn; lia); try done.
  by apply Forall_replicate.
Qed.

#[export] Instance laws : ProcessLaws SimWorld.
Proof.
  assert (forall w, sim_later w (settle w) /\ world_signals (settle w) = world_signals w) as Hset
    by (intros w; destruct (settle_later w) as (? & ? & _); done).
  split.
  - split; [exact sim_later_refl|exact sim_later_trans].
  - intros w pid p Hp%owner_spec. tauto.
  - intros w pid p Hp%owner_spec. tauto.
  - intros w w' pid p q [C S F T] [[a Ha] Hp]%owner_spec [[b Hb] Hq]%owner_spec.
    destruct (T _ _ _ Hb) as [(b' & Hb' & _)|[_ Hc]]; [simplify_eq; cbn; lia|cbn; lia].
  - intros w w' p [C S F T] [Hs Ht]. cbn. split; [lia|]. intros Hp.
    destruct (T _ _ _ Hp) as [(b & Hb & Htrue)|[Hc _]]; [|lia]. rewrite Htrue in Hb by done. done.
  - done.
  - done.
  - intros w w' fd p [C S F T] Ht. cbn in *. by eapply prefix_lookup_Some.
  - intros w pid w' r. cbn. destruct (settle_later w) as (L & Hs & Hf).
    destruct (owner (settle w) pid) as [p|] eqn:Ho; intros; simplify_eq.
    + assert (sim_later (settle w) (mkWorld (world_table (settle w)) (world_clock (settle w)) (world_serial (settle w))
        (world_fds (settle w) ++ [p]) (world_signals (settle w)) (world_script (settle w)))) as L'.
      { destruct (sim_later_refl (settle w)) as [C S F T]. split; [done..| |done]. by apply prefix_app_r. }
      split; [split; [by eapply sim_later_trans|done]|]. intros fd [= <-]. exists p. cbn.
      rewrite Nat2Z.id. split; [by apply list_lookup_middle|]. by exists (settle w).
    + split; [done|]. by intros fd [=].
  - intros w fd p signal w' r Ht. cbn in *. destruct (settle_later w) as (L & Hs & Hf). rewrite Hf, Ht.
    destruct (bool_decide _); intros; simplify_eq; cbn; [|done].
    destruct (deliver_later (settle w) p signal) as [L' ->]. rewrite Hs. split; [by eapply sim_later_trans|done].
  - intros w fd p w' n b Ht. cbn in *. destruct (settle_later w) as (L & Hs & Hf). rewrite Hf, Ht.
    intros; simplify_eq. split; [done|]. intros _ [Hser%Z.ltb_lt Hnot%negb_true_iff%bool_decide_eq_false]%andb_true_iff. done.
  - intros w pid signal w' r Hpos. cbn. destruct (settle_later w) as (L & Hs & Hf).
    rewrite (proj2 (Z.ltb_lt 0 pid)) by done.
    destruct (owner (settle w) pid) as [p|] eqn:Ho; intros; simplify_eq; [|done].
    destruct (deliver_later (settle w) p signal) as [L' E]. split; [by eapply sim_later_trans|].
    exists p. rewrite E, Hs. split; [|done]. by exists (settle w).
  - intros w path w' r. cbn. intros; simplify_eq. apply Hset.
  - intros w path w' r. cbn. intros; simplify_eq. apply Hset.
  - intros w path w' r. cbn. intros; simplify_eq. apply Hset.
  - intros w w' text. cbn. intros; simplify_eq. reflexivity.
  - intros w pid w' text. cbn. intros [= <- Hr]. exists (settle w). split; [apply Hset|]. split; [apply sim_later_refl|].
    apply sim_read_file in Hr as (p & Ho & Ht); [|done]. exists p. split; [done|].
    unfold sim_file in Ht. cbn in Ht. destruct (_ && _) eqn:Hr in Ht; simplify_eq. rewrite andb_true_iff, !Z.leb_le in Hr.
    apply owner_spec in Ho as (_ & <- & Hst & _). by apply stat_text_line; [|lia].
  - intros w pid w' text. cbn. intros [= <- Hr]. exists (settle w). split; [apply Hset|]. split; [apply sim_later_refl|].
    apply sim_read_file in Hr as (p & Ho & Ht); [|done]. exists p. cbn in Ht. by simplify_eq.
  - intros w pid w' text. cbn. intros [= <- Hr]. exists (settle w). split; [apply Hset|]. split; [apply sim_later_refl|].
    apply sim_lookup_file in Hr as (p & Ho & Ht). exists p. cbn in Ht. by simplify_eq.
Qed.

End Simulated.
