(* ===== verification/Response.v ===== *)
(** Response (crates/argos-response/src/lib.rs): the actions, their guards and
    their execution over the kernel interface of Kernel.v. *)
From Stdlib Require Import ZArith Lia Ascii.
From stdpp Require Import base gmap strings list pretty.
From S2P Require Import Prelude RustPath RustStr Kernel.
#[local] Open Scope Z_scope.
#[local] Arguments str_trim : simpl never.

Inductive ResponseAction :=
  | KillProcess (pid : Z)
  | KillProcessInstance (pid start_time_ticks : Z) (boot_id : string)
  | SuspendProcess (pid : Z).

Inductive ResponseError :=
  | Signal (pid errno : Z)
  | Unsupported (what : string)
  | UnknownPid
  | ProtectedPid (pid : Z)
  | IdentityChanged (pid : Z)
  | Unconfirmed (pid : Z).

Definition action_pid (a : ResponseAction) : Z :=
  match a with KillProcess pid | KillProcessInstance pid _ _ | SuspendProcess pid => pid end.
Definition action_signal (a : ResponseAction) : Z :=
  match a with SuspendProcess _ => SIGSTOP | _ => SIGKILL end.

Definition i32_max : Z := 2147483647.
(** [pid as libc::pid_t]. *)
Definition as_i32 (x : Z) : Z := if x <=? i32_max then x else x - 4294967296.

(** Field 22 of /proc/[pid]/stat, counted behind the name of the process. *)
Definition stat_start_ticks (stat : string) : option Z :=
  p ← rsplit_once ")" stat; field ← split_whitespace p.2 !! 19%nat; parse_u64 field.

Section Execute.
Context {W : Type} `{Kernel W}.

Definition response_error_fmt (e : ResponseError) : string :=
  match e with
  | Signal pid errno => "대응 실행 실패 (pid " +:+ pretty pid +:+ "): " +:+ os_error_string errno
  | Unsupported what => "이 플랫폼에서는 지원하지 않는 대응입니다: " +:+ what
  | UnknownPid => "pid 0은 차단 대상이 될 수 없습니다 (센서가 pid를 제공하지 않음)"
  | ProtectedPid pid => "보호되거나 유효하지 않은 pid는 차단할 수 없습니다: " +:+ pretty pid
  | IdentityChanged pid => "수집한 프로세스 신원과 현재 신원이 다릅니다: pid " +:+ pretty pid
  | Unconfirmed pid => "종료 신호는 전달했으나 프로세스 종료를 1초 안에 확인하지 못했습니다: pid " +:+ pretty pid
  end.

Definition dry_run_execute (w : W) (_ : ResponseAction) : W * result unit ResponseError := (w, Ok tt).

Definition process_identity_matches (w : W) (pid start_time_ticks : Z) (boot_id : string) : W * bool :=
  if String.eqb boot_id "" || (start_time_ticks =? 0) then (w, false)
  else
    let '(w, current_boot) := read_to_string w boot_id_path in
    let '(w, stat) := read_to_string w (proc_file pid "stat") in
    (w, String.eqb (str_trim (default "" (res_ok current_boot))) boot_id
        && bool_decide (stat_start_ticks (default "" (res_ok stat)) = Some start_time_ticks)).

(** The inner result is the return value of the last system call. *)
Definition kill_instance (w : W) (pid signal start_time_ticks : Z) (boot_id : string)
    : W * result (result unit Z) ResponseError :=
  let '(w, opened) := pidfd_open w pid in
  match opened with
  | Err errno => (w, Err (Signal pid errno))
  | Ok fd =>
      let '(w, same) := process_identity_matches w pid start_time_ticks boot_id in
      if negb same then (w, Err (IdentityChanged pid))
      else
        let '(w, sent) := pidfd_send_signal w fd signal in
        match sent with
        | Err _ => (w, Ok sent)
        | Ok _ =>
            let '(w, (ready, pollin)) := poll_pidfd w fd in
            if (ready <=? 0) || negb pollin then (w, Err (Unconfirmed pid)) else (w, Ok sent)
        end
  end.

Definition linux_execute (w : W) (action : ResponseAction) : W * result unit ResponseError :=
  let pid := action_pid action in
  let signal := action_signal action in
  if pid =? 0 then (w, Err UnknownPid)
  else if (pid =? 1) || (i32_max <? pid) || (pid =? process_id w) then (w, Err (ProtectedPid pid))
  else
    let '(w, ret) :=
      match action with
      | KillProcessInstance _ start_time_ticks boot_id => kill_instance w pid signal start_time_ticks boot_id
      | _ => let '(w, ret) := kill w (as_i32 pid) signal in (w, Ok ret)
      end in
    (w, let? ret := ret in match ret with Ok _ => Ok tt | Err errno => Err (Signal pid errno) end).

Definition make_responder (auto_block : bool) : W -> ResponseAction -> W * result unit ResponseError :=
  if auto_block then linux_execute else dry_run_execute.

End Execute.

(** * Lemmas *)

Lemma stat_start_ticks_line (pid ppid t : Z) (comm text : string) :
  0 <= t <= u64_max -> stat_line pid ppid t comm text -> stat_start_ticks text = Some t.
Proof.
  intros Ht (rest & fields & Hs & Hf & _ & Hl & _)%stat_line_split. unfold stat_start_ticks.
  rewrite Hs. cbn. rewrite Hf, Hl. cbn. by apply parse_u64_pretty.
Qed.

Section Safety.
Context {W : Type} `{ProcessLaws W}.
Implicit Types w m : W.

(** What a confirmed identity says: the boot is the one named, and some holder of
    the number had this start during the check. *)
Lemma identity_confirmed w pid ticks id w' b :
  process_identity_matches w pid ticks id = (w', b) ->
  silent w w' /\ (b = true -> boot w = id /\ ticks <> 0 /\
    meanwhile w w' (fun m => exists p, holder m pid = Some p /\ started p = ticks)).
Proof.
  unfold process_identity_matches. destruct (_ || _) eqn:Hempty; [intros; simplify_eq; done|].
  apply orb_false_iff in Hempty as [Hid%String.eqb_neq Hticks%Z.eqb_neq].
  destruct (read_to_string w boot_id_path) as [w1 r1] eqn:H1r.
  destruct (read_to_string w1 _) as [w2 r2] eqn:H2r. intros; simplify_eq.
  pose proof (read_to_string_silent _ _ _ _ H1r) as S1. pose proof (read_to_string_silent _ _ _ _ H2r) as S2.
  split; [by etrans|]. intros [Hb%String.eqb_eq Hs%bool_decide_eq_true]%andb_true_iff.
  destruct r1 as [text1|]; cbn in Hb; [|by subst]. destruct r2 as [text2|]; [change (stat_start_ticks text2 = Some ticks) in Hs|done].
  apply read_to_string_Ok in H1r as Hb1. apply boot_law in Hb1. split_and!; [congruence|done|].
  apply read_to_string_Ok, stat_law in H2r.
  eapply meanwhile_mono; [apply S1|done|]. eapply meanwhile_impl; [|exact H2r].
  intros m (p & Hp & Hl). exists p. split; [done|].
  rewrite (stat_start_ticks_line _ _ _ _ _ (started_range _ _ _ Hp) Hl) in Hs. by simplify_eq.
Qed.

Definition refused (pid : Z) (r : result unit ResponseError) : Prop :=
  r = Err UnknownPid \/ r = Err (ProtectedPid pid) \/ r = Err (IdentityChanged pid).

(** The descriptor is opened before the check, so it refers to an older process
    than the one that was checked, if not to the same. *)
Lemma kill_instance_sound w pid signal ticks id w' r :
  kill_instance w pid signal ticks id = (w', r) ->
  later w w' /\
  (signals w' = signals w \/
   exists p, signals w' = (p, signal) :: signals w /\ pid_of p = pid /\ started p <= ticks /\ boot w = id /\ ticks <> 0
             /\ meanwhile w w' (fun m => holder m pid = Some p)
             /\ (r = Ok (Ok tt) -> ended w' p))
  /\ (r = Ok (Ok tt) -> signals w' <> signals w)
  /\ (forall e, r = Err e -> refused pid (Err e) -> signals w' = signals w).
Proof.
  unfold kill_instance. destruct (pidfd_open w pid) as [w1 o] eqn:Ho.
  apply open_law in Ho as [So Hfd].
  destruct o as [fd|e]; [|intros; simplify_eq; destruct So; split_and!; [done|by left|done|done]].
  destruct (Hfd fd eq_refl) as (p & Ht & Hmw). clear Hfd.
  destruct (process_identity_matches w1 pid ticks id) as [w2 same] eqn:Hm.
  apply identity_confirmed in Hm as [Sm Hm].
  assert (silent w w2) as S2 by (by etrans). destruct S2 as [L2 E2].
  destruct same; cbn [negb]; [|intros; simplify_eq; split_and!; [done|by left|done|done]].
  destruct (Hm eq_refl) as (Hboot & Hne & Hcheck). clear Hm.
  destruct Hmw as (m1 & L1 & L1' & Hh). destruct Hcheck as (m2 & L3 & L3' & q & Hq & Hticks).
  assert (pid_of p = pid /\ started p <= ticks /\ boot w = id) as (Hpid & Hle & Hb).
  { split_and!; [by eapply holder_pid| |].
    - rewrite <- Hticks. eapply (holder_order m1 m2); [by etrans|done|done].
    - rewrite <- Hboot. symmetry. apply boot_kept. apply So. }
  assert (meanwhile w w2 (fun m => holder m pid = Some p)) as Hseen
    by (exists m1; split_and!; [done|etrans; [exact L1'|apply Sm]|done]).
  assert (target w2 fd = Some p) as Ht2 by (eapply target_kept; [apply Sm|done]).
  destruct (pidfd_send_signal w2 fd signal) as [w3 sent] eqn:Hs.
  destruct (send_law _ _ _ _ _ _ Ht2 Hs) as [L4 E4].
  destruct sent as [[]|errno]; cbn in E4; [|intros; simplify_eq; split_and!; [by etrans|left; congruence|done|done]].
  destruct (poll_pidfd w3 fd) as [w4 [ready pollin]] eqn:Hp.
  assert (target w3 fd = Some p) as Ht3 by (by eapply target_kept).
  destruct (poll_law _ _ _ _ _ _ Ht3 Hp) as [[L5 E5] Hended].
  assert (later w w4) as L by (by do 2 (etrans; [|eassumption])).
  assert (signals w4 = (p, signal) :: signals w) as E by congruence.
  assert (meanwhile w w4 (fun m => holder m pid = Some p)) as Hseen'
    by (eapply meanwhile_mono; [| |exact Hseen]; [done|by etrans]).
  assert (signals w4 <> signals w) as Hne'
    by (rewrite E; intros Heq; apply (f_equal length) in Heq; cbn in Heq; lia).
  destruct ((ready <=? 0) || negb pollin) eqn:Hready; intros; simplify_eq.
  - split_and!; [done|right; exists p; by split_and!|done|]. intros e [= <-] Hrf. unfold refused in Hrf. by destruct_or! Hrf.
  - apply orb_false_iff in Hready as [Hr%Z.leb_gt Hp'%negb_false_iff].
    split_and!; [done| |done|done]. right. exists p. split_and!; try done. intros _. apply Hended; [lia|done].
Qed.

(** The call sent one signal, to a process that held the number during the call. *)
Definition struck w w' (pid signal : Z) (p : process) : Prop :=
  signals w' = (p, signal) :: signals w /\ pid_of p = pid
  /\ 1 < pid <= i32_max /\ pid <> process_id w /\ meanwhile w w' (fun m => holder m pid = Some p).

(** The guards of [linux_execute], as one case analysis. *)
Lemma execute_guards w a w' r :
  0 <= action_pid a -> linux_execute w a = (w', r) ->
  let pid := action_pid a in
  (w' = w /\ refused pid r) \/
  (1 < pid <= i32_max /\ pid <> process_id w /\
   exists ret, match a with
               | KillProcessInstance _ ticks id => kill_instance w pid (action_signal a) ticks id = (w', ret)
               | _ => exists sent, kill w pid (action_signal a) = (w', sent) /\ ret = Ok sent
               end /\ r = let? ret := ret in match ret with Ok _ => Ok tt | Err errno => Err (Signal pid errno) end).
Proof.
  unfold linux_execute, refused. intros Hpid. cbn.
  destruct (Z.eqb_spec (action_pid a) 0) as [He|He]; [intros; simplify_eq; auto|].
  destruct (_ || _) eqn:Hg; [intros; simplify_eq; auto|].
  rewrite !orb_false_iff, Z.ltb_ge, !Z.eqb_neq in Hg. intros Hx. right. split_and!; [lia|lia|tauto|].
  assert (as_i32 (action_pid a) = action_pid a) as Hc
    by (unfold as_i32; by rewrite (proj2 (Z.leb_le _ _)) by lia).
  destruct a as [pid|pid ticks id|pid]; cbn [action_pid action_signal] in *; rewrite ?Hc in Hx.
  - destruct (kill w pid SIGKILL) as [w1 sent]. simplify_eq. exists (Ok sent). split; [by exists sent|done].
  - destruct (kill_instance w pid SIGKILL ticks id) as [w1 ret]. simplify_eq. by exists ret.
  - destruct (kill w pid SIGSTOP) as [w1 sent]. simplify_eq. exists (Ok sent). split; [by exists sent|done].
Qed.

(** Whatever starts, ends or reuses the number meanwhile, an automatic kill
    reaches at most one process: one with the number, the start and the boot of the
    identity that was collected earlier, never the number 0, 1 or the agent's own.
    Success means that such a process received SIGKILL and has ended; a failed check
    of the identity means that nothing was sent. *)
Theorem kill_reaches_collected_instance w0 w pid ticks id p0 w' r :
  later w0 w -> holder w0 pid = Some p0 -> started p0 = ticks -> 0 <= pid ->
  linux_execute w (KillProcessInstance pid ticks id) = (w', r) ->
  later w w'
  /\ (signals w' = signals w
      \/ exists p, struck w w' pid SIGKILL p /\ started p = ticks /\ boot w = id /\ 0 < ticks /\ (r = Ok tt -> ended w' p))
  /\ (r = Ok tt -> signals w' <> signals w)
  /\ (refused pid r -> signals w' = signals w).
Proof.
  intros L0 Hp0 Ht0 Hpid Hx. destruct (execute_guards _ (KillProcessInstance pid ticks id) _ _ Hpid Hx) as [[-> Hr]|(Hrange & Hself & ret & Hk & Hr)];
    cbn [action_pid action_signal] in *.
  - split_and!; [done|by left| |done]. intros ->. by destruct Hr as [|[]].
  - apply kill_instance_sound in Hk as (L & Hs & Hok & Hid).
    assert (r = Ok tt -> ret = Ok (Ok tt)) as Hret by (destruct ret as [[[]|]|]; cbn in Hr; by intros ->).
    assert (refused pid r -> exists e, ret = Err e /\ refused pid (Err e)) as Href.
    { destruct ret as [[[]|]|e]; cbn in Hr; subst; intros Hrf; [by destruct_or! Hrf..|by exists e]. }
    split_and!; [done| |auto|intros (e & ? & ?)%Href; by eapply Hid].
    destruct Hs as [Hs|(p & Hs & Hpp & Hle & Hb & Hn0 & Hm & He)]; [by left|]. right. exists p.
    pose proof (started_range _ _ _ Hp0). split_and!; try done; [|lia|auto]. destruct Hm as (m & L1 & L2 & Hm).
    pose proof (holder_order w0 m pid p0 p ltac:(by etrans) Hp0 Hm). lia.
Qed.

(** C23: Every action sends at most one signal, the one it names, to one process that
    holds the number during the call; a number from 2 to [i32::MAX] that is not the
    agent's. So neither a process group nor every process is ever addressed. Success
    means that the signal was sent. *)
Theorem response_confined w a w' r :
  0 <= action_pid a -> linux_execute w a = (w', r) ->
  later w w'
  /\ (signals w' = signals w \/ exists p, struck w w' (action_pid a) (action_signal a) p)
  /\ (r = Ok tt -> signals w' <> signals w).
Proof.
  intros Hpid Hx. destruct (execute_guards _ _ _ _ Hpid Hx) as [[-> Hr]|(Hrange & Hself & ret & Hk & Hr)].
  { split_and!; [done|by left|]. intros ->. by destruct_or! Hr. }
  assert (forall sent, kill w (action_pid a) (action_signal a) = (w', sent) -> ret = Ok sent ->
    later w w' /\ (signals w' = signals w \/ exists p, struck w w' (action_pid a) (action_signal a) p)
    /\ (r = Ok tt -> signals w' <> signals w)) as Hkill.
  { intros sent Hs ->. apply kill_law in Hs as [L Hs]; [|lia]. split; [done|].
    destruct sent as [u|]; [|split; [by left|cbn in Hr; by subst]]. destruct Hs as (p & Hm & E).
    split; [right; exists p; split_and!; try done|].
    - destruct Hm as (m & _ & _ & Hm). by eapply holder_pid.
    - lia.
    - lia.
    - intros _. rewrite E. intros Heq. apply (f_equal length) in Heq. cbn in Heq. lia. }
  destruct a as [pid|pid ticks id|pid]; cbn [action_pid action_signal] in *;
    [destruct Hk as (sent & Hs & He); eauto| |destruct Hk as (sent & Hs & He); eauto].
  apply kill_instance_sound in Hk as (L & Hs & Hok & _). split_and!; [done| |].
  - destruct Hs as [Hs|(p & Hs & Hpp & _ & _ & _ & Hm & _)]; [by left|]. right. exists p. split_and!; try done; lia.
  - intros ->. apply Hok. by destruct ret as [[[]|]|].
Qed.

(** The text of a process whose name is not UTF-8 cannot be read as a string, so
    its identity is never confirmed. *)
Lemma non_utf8_name_never_killed w pid ticks id w' r :
  (forall v v' text, read_file v (proc_file pid "stat") = (v', Ok text) -> utf8_valid text = false) ->
  linux_execute w (KillProcessInstance pid ticks id) = (w', r) ->
  0 <= pid -> signals w' = signals w /\ r <> Ok tt.
Proof.
  intros Hbad Hx Hpid. destruct (execute_guards _ (KillProcessInstance pid ticks id) _ _ Hpid Hx) as [[-> Hr]|(_ & _ & ret & Hk & Hr)];
    cbn [action_pid action_signal] in *.
  { split; [done|]. intros ->. by destruct_or! Hr. }
  unfold kill_instance in Hk. destruct (pidfd_open w pid) as [w1 [fd|e]] eqn:Ho; apply open_law in Ho as [[_ So] _];
    [|simplify_eq; by cbn].
  destruct (process_identity_matches w1 pid ticks id) as [w2 same] eqn:Hm.
  pose proof (identity_confirmed _ _ _ _ _ _ Hm) as [[_ Sm] _].
  assert (same = false) as ->; [|cbn in Hk; simplify_eq; split; [congruence|done]].
  unfold process_identity_matches in Hm. destruct (_ || _); [by simplify_eq|].
  destruct (read_to_string w1 boot_id_path) as [w3 r3]. unfold read_to_string in Hm at 1.
  destruct (read_file w3 _) as [w4 [text|]] eqn:Hf; cbn [res_bind] in Hm;
    [rewrite (Hbad _ _ _ Hf) in Hm|]; simplify_eq; by apply andb_false_r.
Qed.

End Safety.

(** * Runs on the simulated kernel *)

Module Fixture.
Import Simulated.

Definition victim : Proc := mkProc 42 5 100 17 "job ) (name)" "Uid:	1000	0	0	0".
(** Process 42 runs; [script] is what happens before each call. *)
Definition world (script : list (list Env)) : SimWorld := mkWorld {[42 := (victim, true)]} 1000 10 [] [] script.
Definition kill_victim : ResponseAction := KillProcessInstance 42 100 the_boot.
Definition outcome_of (out : SimWorld * result unit ResponseError) : list (Z * Z) * option ResponseError :=
  (map (fun s => (sp_serial s.1, s.2)) (world_signals out.1), match out.2 with Ok _ => None | Err e => Some e end).

Example killed_ex : outcome_of (linux_execute (world []) kill_victim) = ([(5, SIGKILL)], None).
Proof. vm_compute. reflexivity. Qed.
(** The number is reused before the check. *)
Example reused_before_check_ex :
  outcome_of (linux_execute (world [[]; [Exit 42; Reap 42; Tick 5; Spawn 42 1 "other" ""]]) kill_victim)
  = ([], Some (IdentityChanged 42)).
Proof. vm_compute. reflexivity. Qed.
(** The number is reused between the check and the signal: the descriptor still
    refers to the old process, and the new one lives. *)
Example reused_after_check_ex :
  outcome_of (linux_execute (world [[]; []; []; [Exit 42; Reap 42; Tick 5; Spawn 42 1 "other" ""]]) kill_victim)
  = ([], Some (Signal 42 3)).
Proof. vm_compute. reflexivity. Qed.
(** A name that is not UTF-8 protects a process from the automatic kill. *)
Example non_utf8_name_ex :
  outcome_of (linux_execute (mkWorld {[42 := (mkProc 42 5 100 17 (String "255" "") "", true)]} 1000 10 [] [] []) kill_victim)
  = ([], Some (IdentityChanged 42)).
Proof. vm_compute. reflexivity. Qed.

Lemma kill_reaches_collected_instance_witness :
  later (world []) (world []) /\ owner (world []) 42 = Some victim /\
  snd (linux_execute (world []) kill_victim) = Ok tt /\
  (exists p, struck (world []) (fst (linux_execute (world []) kill_victim)) 42 SIGKILL p /\ started p = 100).
Proof.
  split_and!; [apply sim_later_refl|vm_compute; reflexivity|vm_compute; reflexivity|].
  destruct (@kill_reaches_collected_instance SimWorld sim_kernel sim_view laws (world []) (world []) 42 100 the_boot victim
              (fst (linux_execute (world []) kill_victim)) (snd (linux_execute (world []) kill_victim)))
    as (_ & Hs & Hok & _); [apply sim_later_refl|vm_compute; reflexivity|reflexivity|lia|vm_compute; reflexivity|].
  destruct Hs as [Hs|(p & Hp & Ht & _)]; [|by exists p].
  exfalso. revert Hs. apply Hok. vm_compute. reflexivity.
Defined.

Lemma response_confined_witness :
  0 <= action_pid (SuspendProcess 42) /\
  exists p, struck (world []) (fst (linux_execute (world []) (SuspendProcess 42))) 42 SIGSTOP p.
Proof.
  split; [cbn; lia|].
  destruct (response_confined (world []) (SuspendProcess 42) (fst (linux_execute (world []) (SuspendProcess 42)))
              (snd (linux_execute (world []) (SuspendProcess 42))))
    as (_ & Hs & Hok); [cbn; lia|vm_compute; reflexivity|].
  destruct Hs as [Hs|Hp]; [|exact Hp]. exfalso. revert Hs. apply Hok. vm_compute. reflexivity.
Defined.

End Fixture.
