(* ===== verification/ProcMon.v ===== *)
(** Process monitor (crates/argos-sensor/src/procmon.rs and health.rs): reading a
    process from /proc with its identity checked twice, the context attached to
    file events with its ancestors, the scan of all processes, the changes between
    two scans and their delivery. *)
From Stdlib Require Import ZArith Lia Ascii.
From stdpp Require Import base gmap strings list pretty.
From S2P Require Import Prelude RustPath RustStr Common Kernel.
#[local] Open Scope Z_scope.
#[local] Arguments str_trim : simpl never.

(** * Data *)

Record ProcessCredentials := mkProcessCredentials {
  cr_uids : list Z;
  cr_gids : list Z;
  cr_cap_inheritable : Z;
  cr_cap_permitted : Z;
  cr_cap_effective : Z;
  cr_cap_bounding : Z;
  cr_cap_ambient : Z;
}.
#[export] Instance ProcessCredentials_eq_dec : EqDecision ProcessCredentials.
Proof. solve_decision. Defined.

Record ProcessEvent := mkProcessEvent {
  pe_timestamp_ms : Z;
  pe_pid : Z;
  pe_ppid : Z;
  pe_uid : Z;
  pe_credentials : option ProcessCredentials;
  pe_start_time_ticks : option Z;
  pe_boot_id : option string;
  pe_exe : option string;
  pe_comm : string;
  pe_cmdline : string;
}.
#[export] Instance ProcessEvent_eq_dec : EqDecision ProcessEvent.
Proof. solve_decision. Defined.

Record ProcessStat := mkProcessStat {
  ps_ppid : Z;
  ps_comm : string;
  ps_start_time_ticks : Z;
}.

(** * Parsers *)

(** The name lies between the first opening and the last closing parenthesis. *)
Definition parse_stat (stat : string) (expected_pid : Z) : option ProcessStat :=
  head ← split_once "(" stat;
  tail ← rsplit_once ")" head.2;
  pid ← parse_u32 (str_trim head.1);
  if pid =? expected_pid then
    let fields := split_whitespace tail.2 in
    ppid ← fields !! 1%nat; ppid ← parse_u32 ppid;
    start ← fields !! 19%nat; start ← parse_u64 start;
    Some (mkProcessStat ppid tail.1 start)
  else None.

(** The first line with the prefix, without it. *)
Fixpoint find_field (name : string) (ls : list string) : option string :=
  match ls with
  | [] => None
  | l :: ls => match strip_prefix name l with Some v => Some v | None => find_field name ls end
  end.
Definition status_field (status name : string) : option string := find_field name (lines status).

Definition parse_uid (status : string) : option Z :=
  value ← status_field status "Uid:"; value ← split_whitespace value !! 1%nat; parse_u32 value.

Definition parse_ids (status name : string) : option (list Z) :=
  value ← status_field status name; ids ← mapM parse_u32 (split_whitespace value);
  if Nat.eqb (length ids) 4 then Some ids else None.
Definition parse_cap (status name : string) : option Z := value ← status_field status name; parse_hex (str_trim value).
Definition parse_credentials (status : string) : option ProcessCredentials :=
  uids ← parse_ids status "Uid:";
  gids ← parse_ids status "Gid:";
  inheritable ← parse_cap status "CapInh:";
  permitted ← parse_cap status "CapPrm:";
  effective ← parse_cap status "CapEff:";
  bounding ← parse_cap status "CapBnd:";
  ambient ← parse_cap status "CapAmb:";
  Some (mkProcessCredentials uids gids inheritable permitted effective bounding ambient).

(** [split] at NUL, without the empty parts, decoded and joined by blanks. *)
Definition command_line (command : string) : string :=
  String.concat " " (map utf8_lossy (filter (fun part => part <> "") (split_at "000" command))).

(** * Reading /proc: a monad of the kernel state and I/O errors *)

Abbreviation Sys W A := (Stateful W IoErrorKind A).

Section Read.
Context {W : Type} `{Kernel W}.

Definition read_boot_id : Sys W string :=
  sys? value := fun w => read_to_string w boot_id_path in
  let value := str_trim value in
  st_result (if String.eqb value "" then Err InvalidData else Ok value).

Definition read_stat (pid : Z) : Sys W ProcessStat :=
  sys? text := fun w => read_to_string w (proc_file pid "stat") in
  st_result (ok_or (parse_stat text pid) InvalidData).
Definition read_exe (pid : Z) : Sys W (option string) :=
  sys? exe := tolerate (fun w => read_link w (proc_file pid "exe")) in st_result (Ok (utf8_lossy <$> exe)).

Definition read_process_at (pid : Z) (boot_id : option string) (now : Z) : Sys W ProcessEvent :=
  sys? before := read_stat pid in
  sys? status := fun w => read_to_string w (proc_file pid "status") in
  sys? uid := st_result (ok_or (parse_uid status) InvalidData) in
  let credentials := parse_credentials status in
  sys? command := fun w => read_file w (proc_file pid "cmdline") in
  let cmdline := command_line command in
  sys? exe := read_exe pid in
  sys? after := read_stat pid in
  sys? confirmed_exe := read_exe pid in
  sys? confirmed_status := fun w => read_to_string w (proc_file pid "status") in
  sys? confirmed_uid := st_result (ok_or (parse_uid confirmed_status) InvalidData) in
  if negb (ps_start_time_ticks before =? ps_start_time_ticks after)
     || negb (String.eqb (ps_comm before) (ps_comm after))
     || negb (bool_decide (exe = confirmed_exe))
     || negb (uid =? confirmed_uid)
     || negb (bool_decide (credentials = parse_credentials confirmed_status))
  then st_result (Err WouldBlock)
  else st_result (Ok (mkProcessEvent now pid (ps_ppid after) uid credentials
         (Some (ps_start_time_ticks after)) boot_id exe (ps_comm after) cmdline)).

(** [now] is the clock at this read. *)
Definition read_process (pid now : Z) : Sys W ProcessEvent :=
  if pid =? 0 then st_result (Err OtherKind)
  else
    sys? boot_id := tolerate read_boot_id in
    read_process_at pid boot_id now.

(** ** The context of a file event *)

Definition known_ancestor (ancestors : list ProcessIdentity) (pid : Z) : bool :=
  existsb (fun p => pi_pid p =? pid) ancestors.

(** The loop of at most [n] rounds; every break returns what was collected. *)
Fixpoint collect_ancestors (n : nat) (pid now : Z) (process child : ProcessEvent)
    (ancestors : list ProcessIdentity) : Sys W (list ProcessIdentity) :=
  match n with
  | O => st_result (Ok ancestors)
  | S n =>
      if (pe_ppid child =? 0) || (pe_ppid child =? pid) || known_ancestor ancestors (pe_ppid child)
      then st_result (Ok ancestors)
      else
        sys? found := tolerate (read_process (pe_ppid child) now) in
        match found with
        | None => st_result (Ok ancestors)
        | Some parent =>
            match pe_start_time_ticks parent, pe_boot_id parent with
            | Some start, Some boot =>
                if (start =? 0) || negb (bool_decide (Some boot = pe_boot_id process))
                   || is_some_and (pe_start_time_ticks child) (fun v => v <? start)
                then st_result (Ok ancestors)
                else
                  sys? confirmed := tolerate (read_process (pe_pid child) now) in
                  match confirmed with
                  | None => st_result (Ok ancestors)
                  | Some confirmed_child =>
                      if negb (bool_decide (pe_start_time_ticks confirmed_child = pe_start_time_ticks child))
                         || negb (pe_ppid confirmed_child =? pe_pid parent)
                      then st_result (Ok ancestors)
                      else collect_ancestors n pid now process parent
                             (ancestors ++ [mkProcessIdentity (pe_pid parent) start boot])
                  end
            | _, _ => st_result (Ok ancestors)
            end
        end
  end.

Definition read_file_process_context (pid now : Z) : Sys W FileProcessContext :=
  sys? process := read_process pid now in
  sys? ancestors := collect_ancestors 4 pid now process process [] in
  sys? confirmed := read_process pid now in
  if negb (bool_decide (pe_start_time_ticks confirmed = pe_start_time_ticks process))
     || negb (bool_decide (pe_exe confirmed = pe_exe process))
     || negb (pe_uid confirmed =? pe_uid process)
     || negb (pe_ppid confirmed =? pe_ppid process)
     || negb (bool_decide (pe_boot_id confirmed = pe_boot_id process))
  then st_result (Err OtherKind)
  else st_result (ok_or (exe ← pe_exe process; start ← pe_start_time_ticks process; boot ← pe_boot_id process;
                          Some (mkFileProcessContext (pe_uid process) exe start boot ancestors)) OtherKind).

End Read.

(** * Health counters (health.rs) *)

Record SensorHealth := mkSensorHealth {
  h_alive : bool;
  h_delivered : Z;
  h_dropped : Z;
  h_errors : Z;
  h_overflows : Z;
  h_last_event : Z;
}.
Definition SensorHealth_default : SensorHealth := mkSensorHealth false 0 0 0 0 0.
(** [fetch_add] of an [AtomicU64] wraps around. *)
Definition health_start (h : SensorHealth) : SensorHealth :=
  mkSensorHealth true (h_delivered h) (h_dropped h) (h_errors h) (h_overflows h) (h_last_event h).
Definition health_stop (h : SensorHealth) : SensorHealth :=
  mkSensorHealth false (h_delivered h) (h_dropped h) (h_errors h) (h_overflows h) (h_last_event h).
Definition health_error (h : SensorHealth) : SensorHealth :=
  mkSensorHealth (h_alive h) (h_delivered h) (h_dropped h) (wrap_add (h_errors h) 1) (h_overflows h) (h_last_event h).
Definition health_overflow (h : SensorHealth) : SensorHealth :=
  mkSensorHealth (h_alive h) (h_delivered h) (h_dropped h) (h_errors h) (wrap_add (h_overflows h) 1) (h_last_event h).

Record SensorHealthSnapshot := mkSensorHealthSnapshot {
  sh_alive : bool;
  sh_delivered_events : Z;
  sh_dropped_events : Z;
  sh_errors : Z;
  sh_kernel_overflows : Z;
  sh_last_event_ms : option Z;
}.
Definition health_snapshot (h : SensorHealth) : SensorHealthSnapshot :=
  mkSensorHealthSnapshot (h_alive h) (h_delivered h) (h_dropped h) (h_errors h) (h_overflows h)
    (if h_last_event h =? 0 then None else Some (h_last_event h)).

(** The bounded channel to the agent: what it holds, its capacity, and whether the
    receiver still exists. *)
Record Channel (A : Type) := mkChannel {
  ch_items : list A;
  ch_capacity : Z;
  ch_closed : bool;
}.
Arguments mkChannel {A}.
Arguments ch_items {A}.
Arguments ch_capacity {A}.
Arguments ch_closed {A}.
Definition deliver {A} (now : Z) (h : SensorHealth) (tx : Channel A) (event : A)
    : SensorHealth * Channel A * bool :=
  let h := mkSensorHealth (h_alive h) (h_delivered h) (h_dropped h) (h_errors h) (h_overflows h) now in
  if ch_closed tx then (health_stop h, tx, false)
  else if ch_capacity tx <=? zlen (ch_items tx) then
    (mkSensorHealth (h_alive h) (h_delivered h) (wrap_add (h_dropped h) 1) (h_errors h) (h_overflows h) (h_last_event h), tx, true)
  else
    (mkSensorHealth (h_alive h) (wrap_add (h_delivered h) 1) (h_dropped h) (h_errors h) (h_overflows h) (h_last_event h),
     mkChannel (ch_items tx ++ [event]) (ch_capacity tx) false, true).

(** * Scans and their changes *)

Abbreviation Processes := (gmap Z ProcessEvent).

Section Scan.
Context {W : Type} `{Kernel W}.

(** The entries of /proc; [boot] was read when the monitor started. *)
Fixpoint scan_entries (boot : option string) (now : Z) (entries : list (result string unit))
    (w : W) (h : SensorHealth) (found : Processes) : W * SensorHealth * Processes :=
  match entries with
  | [] => (w, h, found)
  | Err _ :: entries => scan_entries boot now entries w (health_error h) found
  | Ok name :: entries =>
      match parse_u32 name with
      | None => scan_entries boot now entries w h found
      | Some pid =>
          let '(w, r) := read_process_at pid boot now w in
          match r with
          | Ok event => scan_entries boot now entries w h (<[pid := event]> found)
          | Err NotFound | Err WouldBlock => scan_entries boot now entries w h found
          | Err _ => scan_entries boot now entries w (health_error h) found
          end
      end
  end.
Definition scan_processes (boot : option string) (now : Z) (w : W) (h : SensorHealth)
    : W * SensorHealth * result Processes IoErrorKind :=
  let '(w, entries) := read_dir w "/proc" in
  match entries with
  | Err e => (w, h, Err e)
  | Ok entries => let '(w, h, found) := scan_entries boot now entries w h ∅ in (w, h, Ok found)
  end.

Definition event_changed (old event : ProcessEvent) : bool :=
  negb (bool_decide (pe_start_time_ticks old = pe_start_time_ticks event))
  || negb (bool_decide (pe_boot_id old = pe_boot_id event))
  || negb (bool_decide (pe_exe old = pe_exe event))
  || negb (String.eqb (pe_comm old) (pe_comm event))
  || negb (String.eqb (pe_cmdline old) (pe_cmdline event))
  || negb (pe_uid old =? pe_uid event)
  || negb (bool_decide (pe_credentials old = pe_credentials event)).
Definition is_new (previous : Processes) (event : ProcessEvent) : bool :=
  match previous !! pe_pid event with None => true | Some old => event_changed old event end.
Definition changed_processes (previous current : Processes) : list ProcessEvent :=
  sort_by pe_pid (filter (fun event => is_new previous event = true) (map snd (map_to_list current))).

Fixpoint deliver_all (now : Z) (h : SensorHealth) (tx : Channel ProcessEvent) (events : list ProcessEvent)
    : SensorHealth * Channel ProcessEvent * bool :=
  match events with
  | [] => (h, tx, true)
  | e :: events =>
      let '(h, tx, more) := deliver now h tx e in
      if more then deliver_all now h tx events else (h, tx, false)
  end.

(** The state of the thread between two scans. *)
Record Monitor := mkMonitor {
  mon_boot : option string;
  mon_known : Processes;
  mon_health : SensorHealth;
  mon_tx : Channel ProcessEvent;
}.

(** The start of the thread; [None] when it ends at once. *)
Definition monitor_start (now : Z) (w : W) (tx : Channel ProcessEvent) : W * SensorHealth * option Monitor :=
  let h := health_start SensorHealth_default in
  let '(w, boot) := read_boot_id w in
  let h := if is_ok boot then h else health_error h in
  let '(w, h, scanned) := scan_processes (res_ok boot) now w h in
  match scanned with
  | Err _ => (w, health_stop (health_error h), None)
  | Ok known => (w, h, Some (mkMonitor (res_ok boot) known h tx))
  end.

(** One round after the interval. When the thread returns, [LivenessGuard] clears [alive]. *)
Definition monitor_round (now : Z) (stop : bool) (w : W) (m : Monitor) : W * Monitor * bool :=
  let ended h tx := mkMonitor (mon_boot m) (mon_known m) (health_stop h) tx in
  if stop || ch_closed (mon_tx m) then (w, ended (mon_health m) (mon_tx m), false)
  else
    let '(w, h, scanned) := scan_processes (mon_boot m) now w (mon_health m) in
    match scanned with
    | Err _ => (w, ended (health_error h) (mon_tx m), false)
    | Ok current =>
        let '(h, tx, more) := deliver_all now h (mon_tx m) (changed_processes (mon_known m) current) in
        if more then (w, mkMonitor (mon_boot m) current h tx, true) else (w, ended h tx, false)
    end.

End Scan.

(** * Lemmas *)

(** Every line of the documented form is read back exactly: the parser returns the
    parent, the name and the start of the process, even when the name holds blanks,
    parentheses or digits that imitate the fields behind it. *)
Theorem parse_stat_line (pid ppid t : Z) (comm text : string) :
  0 <= pid <= u32_max -> 0 <= t <= u64_max -> stat_line pid ppid t comm text ->
  parse_stat text pid = Some (mkProcessStat ppid comm t).
Proof.
  intros Hpid Ht (fields & last & -> & Hf & Hlast & Hp & Hs & Hr).
  destruct (stat_tail_fields fields last Hf Hlast) as [Hc Hw].
  unfold parse_stat.
  replace (String.append (String.append (pretty pid) (String.append " (" comm)) (String ")" (String " " (String.append (String.concat " " fields) last))))
    with (String.append (String.append (pretty pid) " ") (String "(" (String.append comm (String ")" (stat_tail fields last)))))
    by (rewrite !append_assoc; done).
  rewrite split_once_app by (rewrite str_contains_app; apply orb_false_iff; split; [|done];
    apply (contains_all _ decimal_digit); [done|apply pretty_digits; lia]).
  cbn [mbind option_bind fst snd]. rewrite rsplit_once_app by done. cbn [mbind option_bind fst snd].
  rewrite trim_word by (apply pretty_word; lia). unfold parse_u32.
  rewrite parse_below_pretty by (unfold u32_max, u64_max in *; lia). cbn [mbind option_bind fst snd]. rewrite Z.eqb_refl. rewrite Hw, Hp. cbn [mbind option_bind].
  rewrite parse_below_pretty by (unfold u32_max, u64_max in *; lia). cbn [mbind option_bind]. rewrite Hs. cbn [mbind option_bind].
  by rewrite parse_u64_pretty by lia.
Qed.

(** * Reading sends nothing *)

Definition quietly {W A} `{ProcessView W} (m : Sys W A) : Prop := forall w w' r, m w = (w', r) -> silent w w'.

Section Quiet.
Context {W : Type} `{ProcessLaws W}.

Lemma quietly_bind {A B} (m : Sys W A) (k : A -> Sys W B) :
  quietly m -> (forall a, quietly (k a)) -> quietly (st_bind m k).
Proof.
  intros Hm Hk w w' r. unfold st_bind. destruct (m w) as [w1 [a|e]] eqn:E; intros; simplify_eq.
  - etrans; [by eapply Hm|by eapply Hk].
  - by eapply Hm.
Qed.

Lemma quietly_result {A} (r : result A IoErrorKind) : quietly (st_result (W := W) r).
Proof. intros w w' r' [= -> ->]. done. Qed.

Lemma quietly_tolerate {A} (m : Sys W A) : quietly m -> quietly (tolerate m).
Proof. intros Hm w w' r. unfold tolerate. destruct (m w) as [w1 r1] eqn:E. intros; simplify_eq. by eapply Hm. Qed.

Lemma quietly_read_to_string path : quietly (fun w : W => read_to_string w path).
Proof. intros w w' r. apply read_to_string_silent. Qed.
Lemma quietly_read_file path : quietly (fun w : W => read_file w path).
Proof. intros w w' r. apply read_law. Qed.
Lemma quietly_read_link path : quietly (fun w : W => read_link w path).
Proof. intros w w' r. apply link_law. Qed.

End Quiet.

Create HintDb quiet.
#[export] Hint Resolve quietly_bind quietly_result quietly_tolerate quietly_read_to_string quietly_read_file quietly_read_link : quiet.
Ltac solve_quiet := repeat first [progress intros | case_match | by eauto with quiet | apply quietly_bind].

(** Along a chain of calls. *)
Ltac later_chain := repeat first [assumption | reflexivity | etrans; [eassumption|]].

Section Observe.
Context {W : Type} `{ProcessLaws W}.
Implicit Types w m : W.

Lemma read_boot_id_quiet : quietly (W := W) read_boot_id.
Proof. unfold read_boot_id. solve_quiet. Qed.
Lemma read_stat_quiet pid : quietly (W := W) (read_stat pid).
Proof. unfold read_stat. solve_quiet. Qed.
Lemma read_exe_quiet pid : quietly (W := W) (read_exe pid).
Proof. unfold read_exe. solve_quiet. Qed.
#[local] Hint Resolve read_boot_id_quiet read_stat_quiet read_exe_quiet : quiet.
Lemma read_process_at_quiet pid boot now : quietly (W := W) (read_process_at pid boot now).
Proof. unfold read_process_at. solve_quiet. Qed.
#[local] Hint Resolve read_process_at_quiet : quiet.
Lemma read_process_quiet pid now : quietly (W := W) (read_process pid now).
Proof. unfold read_process. solve_quiet. Qed.
#[local] Hint Resolve read_process_quiet : quiet.
Lemma collect_ancestors_quiet n pid now process child ancestors :
  quietly (W := W) (collect_ancestors n pid now process child ancestors).
Proof. revert child ancestors. induction n; intros; cbn [collect_ancestors]; solve_quiet. Qed.
#[local] Hint Resolve collect_ancestors_quiet : quiet.
Lemma context_quiet pid now : quietly (W := W) (read_file_process_context pid now).
Proof. unfold read_file_process_context. solve_quiet. Qed.

(** At some moment of the call the number belonged to such a process. *)
Definition seen w w' (pid : Z) (P : W -> process -> Prop) : Prop :=
  meanwhile w w' (fun m => exists p, holder m pid = Some p /\ P m p).

Lemma seen_impl w w' pid (P Q : W -> process -> Prop) : (forall m p, P m p -> Q m p) -> seen w w' pid P -> seen w w' pid Q.
Proof. intros HPQ. apply meanwhile_impl. intros m (p & Hp & HP). exists p. auto. Qed.

Lemma seen_mono w0 w w' w1 pid (P : W -> process -> Prop) :
  later w0 w -> later w' w1 -> seen w w' pid P -> seen w0 w1 pid P.
Proof. apply meanwhile_mono. Qed.

(** A process seen between two that started at the same tick started then, too. *)
Lemma seen_between w1 w2 w3 w4 pid t (P : W -> process -> Prop) :
  seen w1 w2 pid (fun _ p => started p = t) -> seen w3 w4 pid (fun _ p => started p = t) ->
  forall v v', later w2 v -> later v' w3 -> seen v v' pid P -> seen v v' pid (fun m p => started p = t /\ P m p).
Proof.
  intros (m1 & _ & L1 & p1 & H1p & Ht1) (m3 & L3 & _ & p3 & H3p & Ht3) v v' Lv Lv' (m2 & L2 & L2' & p2 & H2p & HP).
  exists m2. split_and!; [done|done|]. exists p2. split; [done|]. split; [|done].
  rewrite <- Ht1. eapply (started_between m1 m2 m3); try done; [later_chain..|congruence].
Qed.

Lemma read_stat_seen pid w w' st :
  0 <= pid <= u32_max -> read_stat pid w = (w', Ok st) ->
  seen w w' pid (fun m p => started p = ps_start_time_ticks st /\ comm_of m p = ps_comm st /\ parent_of m p = ps_ppid st).
Proof.
  unfold read_stat. intros Hpid (text & w1 & Hr & Hp)%st_bind_Ok. apply st_result_Ok in Hp as [-> Hp].
  apply read_to_string_Ok, stat_law in Hr. eapply meanwhile_impl; [|exact Hr].
  intros m (p & Hh & Hl). exists p. split; [done|].
  rewrite (parse_stat_line _ _ _ _ _ Hpid (started_range _ _ _ Hh) Hl) in Hp. cbn in Hp. by simplify_eq.
Qed.

Lemma read_stat_ppid pid w w' st : read_stat pid w = (w', Ok st) -> 0 <= ps_ppid st <= u32_max.
Proof.
  unfold read_stat. intros (text & w1 & _ & [_ Hp]%st_result_Ok)%st_bind_Ok. revert Hp. unfold parse_stat.
  destruct (split_once "(" text) as [p|]; [cbn [mbind option_bind]|done].
  destruct (rsplit_once ")" p.2) as [q|]; [cbn [mbind option_bind]|done].
  destruct (parse_u32 _) as [n|]; [cbn [mbind option_bind]|done]. destruct (n =? pid); [|done].
  destruct (split_whitespace q.2 !! 1%nat) as [f|]; [cbn [mbind option_bind]|done].
  destruct (parse_u32 f) as [ppid|] eqn:Hf; [cbn [mbind option_bind]|done].
  destruct (split_whitespace q.2 !! 19%nat) as [g|]; [cbn [mbind option_bind]|done].
  destruct (parse_u64 g) as [t|]; cbn; [|done]. intros [= <-]. cbn. apply parse_below_range in Hf. unfold u32_max. lia.
Qed.

Lemma read_exe_seen pid w w' exe x :
  read_exe pid w = (w', Ok exe) -> exe = Some x ->
  seen w w' pid (fun m p => exists path, shows_exe m p path /\ x = utf8_lossy path).
Proof.
  unfold read_exe. intros (o & w1 & (r & Hr & ->)%tolerate_Ok & [-> He]%st_result_Ok)%st_bind_Ok ->.
  destruct r as [path|]; cbn in He; simplify_eq. eapply meanwhile_impl; [|by eapply exe_law].
  intros m (p & Hh & He). exists p. eauto.
Qed.

(** What the monitor reports of a process is true of one process instance: the
    number had a holder with the reported start when the name and the parent were
    read, and the user, the credentials and the executable were read from a holder
    with the same start, although the number may have been reused meanwhile. *)
Theorem process_observed pid boot now w w' e :
  0 <= pid <= u32_max -> read_process_at pid boot now w = (w', Ok e) ->
  silent w w' /\ pe_pid e = pid /\ pe_boot_id e = boot /\ 0 <= pe_ppid e <= u32_max /\ exists t, pe_start_time_ticks e = Some t
  /\ seen w w' pid (fun m p => started p = t /\ comm_of m p = pe_comm e /\ parent_of m p = pe_ppid e)
  /\ seen w w' pid (fun m p => started p = t /\ exists status, shows_status m p status
       /\ parse_uid status = Some (pe_uid e) /\ parse_credentials status = pe_credentials e)
  /\ forall x, pe_exe e = Some x ->
       seen w w' pid (fun m p => started p = t /\ exists path, shows_exe m p path /\ x = utf8_lossy path).
Proof.
  intros Hpid Hread. pose proof (read_process_at_quiet _ _ _ _ _ _ Hread) as Hq. unfold read_process_at in Hread.
  apply st_bind_Ok in Hread as (before & w1 & R1 & Hread).
  apply st_bind_Ok in Hread as (status & w2 & R2 & Hread).
  apply st_bind_Ok in Hread as (uid & w2' & [-> Huid]%st_result_Ok & Hread).
  apply st_bind_Ok in Hread as (command & w3 & R3 & Hread).
  apply st_bind_Ok in Hread as (exe & w4 & R4 & Hread).
  apply st_bind_Ok in Hread as (after & w5 & R5 & Hread).
  apply st_bind_Ok in Hread as (exe' & w6 & R6 & Hread).
  apply st_bind_Ok in Hread as (status' & w7 & R7 & Hread).
  apply st_bind_Ok in Hread as (uid' & w7' & [-> _]%st_result_Ok & Hread).
  destruct (negb (ps_start_time_ticks before =? ps_start_time_ticks after) || _ || _ || _ || _) eqn:Hsame;
    apply st_result_Ok in Hread as [-> Hread]; simplify_eq. cbn [pe_pid pe_boot_id pe_start_time_ticks pe_comm pe_ppid pe_uid pe_credentials pe_exe].
  rewrite !orb_false_iff, !negb_false_iff in Hsame. destruct Hsame as ((((Ht%Z.eqb_eq & _) & _) & _) & _).
  pose proof (proj1 (read_stat_quiet _ _ _ _ R1)) as L1. pose proof (proj1 (read_to_string_silent _ _ _ _ R2)) as L2.
  pose proof (proj1 (read_law _ _ _ _ R3)) as L3. pose proof (proj1 (read_exe_quiet _ _ _ _ R4)) as L4.
  pose proof (proj1 (read_stat_quiet _ _ _ _ R5)) as L5. pose proof (proj1 (read_exe_quiet _ _ _ _ R6)) as L6.
  pose proof (proj1 (read_to_string_silent _ _ _ _ R7)) as L7.
  pose proof (read_stat_seen _ _ _ _ Hpid R1) as S1. pose proof (read_stat_seen _ _ _ _ Hpid R5) as S5.
  assert (seen w w1 pid (fun _ p => started p = ps_start_time_ticks after)) as T1
    by (eapply seen_impl; [|exact S1]; cbn; rewrite Ht; tauto).
  assert (seen w4 w5 pid (fun _ p => started p = ps_start_time_ticks after)) as T5
    by (eapply seen_impl; [|exact S5]; cbn; tauto).
  pose proof (read_stat_ppid _ _ _ _ R5). split; [done|]. split; [done|]. split; [done|]. split; [done|]. exists (ps_start_time_ticks after). split_and!; [done| | |].
  - eapply seen_mono; [..|exact S5]; later_chain.
  - apply read_to_string_Ok, status_law in R2.
    eapply (seen_mono w w1 w2 w7); [later_chain..|].
    eapply (seen_between _ _ _ _ _ _ _ T1 T5); [later_chain..|].
    eapply meanwhile_impl; [|exact R2]. intros m (p & Hh & Hst). exists p. split; [done|]. exists status.
    split_and!; [done| |done]. destruct (parse_uid status); cbn in Huid; by simplify_eq.
  - intros x Hx. eapply (seen_mono w w3 w4 w7); [later_chain..|].
    eapply (seen_between _ _ _ _ _ _ _ T1 T5); [later_chain..|]. by eapply read_exe_seen.
Qed.

(** ** The context of a file event *)

Lemma read_boot_id_Ok w w' b : read_boot_id w = (w', Ok b) -> b = boot w.
Proof.
  unfold read_boot_id. intros (text & w1 & Hr%read_to_string_Ok & [-> Hb]%st_result_Ok)%st_bind_Ok.
  apply boot_law in Hr. destruct (String.eqb _ _); simplify_eq. done.
Qed.

Lemma read_process_seen pid now w w' e :
  0 <= pid <= u32_max -> read_process pid now w = (w', Ok e) ->
  later w w' /\ pe_pid e = pid /\ pid <> 0 /\ 0 <= pe_ppid e <= u32_max
  /\ (forall b, pe_boot_id e = Some b -> b = boot w)
  /\ forall t, pe_start_time_ticks e = Some t -> seen w w' pid (fun _ p => started p = t).
Proof.
  unfold read_process. intros Hpid. destruct (Z.eqb_spec pid 0) as [->|Hne]; [by intros [_ [=]]%st_result_Ok|].
  intros (o & w1 & (r & Hr & ->)%tolerate_Ok & Hread)%st_bind_Ok.
  pose proof (proj1 (read_boot_id_quiet _ _ _ Hr)) as L1.
  apply process_observed in Hread as ([L2 _] & Hp & Hb & Hpp & t & Ht & Hs & _ & _); [|done].
  split_and!; try done; [by etrans|lia|lia| |].
  - intros b Hb'. rewrite Hb' in Hb. destruct r as [b'|]; simplify_eq/=. by eapply read_boot_id_Ok.
  - intros t' Ht'. rewrite Ht in Ht'. simplify_eq. eapply (seen_mono w w1 w' w'); [done|done|].
    eapply seen_impl; [|exact Hs]. cbn. tauto.
Qed.

(** What is known of the ancestors collected so far, oldest call [w0]. *)
Record ancestors_ok (w0 w : W) (pid : Z) (ancestors : list ProcessIdentity) : Prop := {
  an_seen : Forall (fun a => seen w0 w (pi_pid a) (fun _ p => started p = pi_start_time_ticks a)
                             /\ pi_boot_id a = boot w0 /\ pi_start_time_ticks a <> 0) ancestors;
  an_distinct : NoDup (pid :: map pi_pid ancestors);
}.

Lemma ancestors_later w0 w w' pid ancestors : later w w' -> ancestors_ok w0 w pid ancestors -> ancestors_ok w0 w' pid ancestors.
Proof.
  intros L [Hs Hd]. split; [|done]. eapply Forall_impl; [exact Hs|]. cbn. intros a (Ha & ? & ?).
  split_and!; try done. eapply seen_mono; [..|exact Ha]; done.
Qed.

Lemma known_ancestor_spec ancestors pid : known_ancestor ancestors pid = true <-> pid ∈ map pi_pid ancestors.
Proof.
  unfold known_ancestor. rewrite existsb_exists, list_elem_of_fmap. split.
  - intros (a & Ha & He%Z.eqb_eq). exists a. split; [done|]. by apply list_elem_of_In.
  - intros (a & -> & Ha). exists a. split; [by apply list_elem_of_In|apply Z.eqb_refl].
Qed.

Lemma collect_ancestors_sound n pid now process child ancestors w0 w w' l :
  later w0 w -> 0 <= pe_ppid child <= u32_max -> (forall b, pe_boot_id process = Some b -> b = boot w0) ->
  ancestors_ok w0 w pid ancestors -> collect_ancestors n pid now process child ancestors w = (w', Ok l) ->
  ancestors_ok w0 w' pid l /\ (length l <= length ancestors + n)%nat.
Proof.
  revert child ancestors w. induction n as [|n IH]; intros child ancestors w L0 Hpp Hboot Hok; cbn [collect_ancestors].
  { intros [-> [= <-]]%st_result_Ok. split; [done|lia]. }
  assert (forall v, later w v -> st_result (E := IoErrorKind) (Ok ancestors) v = (w', Ok l) -> ancestors_ok w0 w' pid l /\ (length l <= length ancestors + S n)%nat) as Hstop.
  { intros v Lv [= -> <-]. split; [by eapply ancestors_later|lia]. }
  destruct (_ || _) eqn:Hguard; [by apply Hstop|].
  rewrite !orb_false_iff, !Z.eqb_neq in Hguard. destruct Hguard as [[Hz Hself] Hnew].
  intros (found & w1 & (r1 & R1 & ->)%tolerate_Ok & Hx)%st_bind_Ok.
  pose proof (proj1 (read_process_quiet _ _ _ _ _ R1)) as L1.
  destruct r1 as [parent|]; cbn [res_ok] in Hx; [|by eapply Hstop].
  destruct (read_process_seen _ _ _ _ _ Hpp R1) as (_ & Hpid & _ & Hpp' & _ & Hseen).
  destruct (pe_start_time_ticks parent) as [start|] eqn:Hstart; [|by eapply Hstop].
  destruct (pe_boot_id parent) as [b|] eqn:Hb; [|by eapply Hstop].
  destruct (_ || _) eqn:Hbad in Hx; [by eapply Hstop|].
  rewrite !orb_false_iff, negb_false_iff, bool_decide_eq_true, Z.eqb_neq in Hbad. destruct Hbad as [[Hs0 Hsame] _].
  apply st_bind_Ok in Hx as (conf & w2 & (r2 & R2 & ->)%tolerate_Ok & Hx).
  pose proof (proj1 (read_process_quiet _ _ _ _ _ R2)) as L2.
  assert (later w w2) as L12 by (by etrans).
  destruct r2 as [confirmed|]; cbn [res_ok] in Hx; [|by eapply Hstop].
  destruct (_ || _) in Hx; [by eapply Hstop|].
  apply IH in Hx as [Hl Hlen]; [|by etrans|lia|done|].
  - split; [done|]. rewrite length_app in Hlen. cbn in Hlen. lia.
  - destruct (ancestors_later _ _ _ _ _ L12 Hok) as [Hs Hd]. split.
    + apply Forall_app. split; [done|]. constructor; [|constructor]. cbn. rewrite Hpid. split_and!; [|by apply Hboot|done].
      eapply (seen_mono w0 w w1 w2); [done|done|by apply Hseen].
    + rewrite map_app. cbn [map pi_pid]. rewrite Hpid, app_comm_cons. apply NoDup_app. split_and!; [done| |apply NoDup_singleton].
      intros x Hin ->%list_elem_of_singleton. apply elem_of_cons in Hin as [?|Hin]; [done|].
      apply known_ancestor_spec in Hin. congruence.
Qed.

(** The context attached to a file event identifies a process that held the number
    while it was read, in the boot of the machine; its ancestors, at most four
    and all different, were each seen with the recorded start in the same boot. *)
Theorem context_identifies_process pid now w w' ctx :
  0 <= pid <= u32_max -> read_file_process_context pid now w = (w', Ok ctx) ->
  silent w w' /\ pid <> 0 /\ fp_boot_id ctx = boot w
  /\ seen w w' pid (fun _ p => started p = fp_start_time_ticks ctx)
  /\ ancestors_ok w w' pid (fp_ancestors ctx) /\ (length (fp_ancestors ctx) <= 4)%nat.
Proof.
  intros Hpid Hread. pose proof (context_quiet _ _ _ _ _ Hread) as Hq. unfold read_file_process_context in Hread.
  apply st_bind_Ok in Hread as (process & w1 & R1 & Hread).
  apply st_bind_Ok in Hread as (ancestors & w2 & R2 & Hread).
  apply st_bind_Ok in Hread as (confirmed & w3 & R3 & Hread).
  destruct (_ || _) in Hread; apply st_result_Ok in Hread as [-> Hread]; [done|].
  destruct (read_process_seen _ _ _ _ _ Hpid R1) as (L1 & Hp & Hne & Hpp & Hboot & Hseen).
  pose proof (proj1 (collect_ancestors_quiet _ _ _ _ _ _ _ _ _ R2)) as L2.
  pose proof (proj1 (read_process_quiet _ _ _ _ _ R3)) as L3.
  apply (collect_ancestors_sound _ _ _ _ _ _ w) in R2 as [Han Hlen]; [|done|done|done|by split; [constructor|apply NoDup_singleton]].
  destruct (pe_exe process); cbn in Hread; [|done]. destruct (pe_start_time_ticks process) as [t|] eqn:Ht; cbn in Hread; [|done].
  destruct (pe_boot_id process) as [b|] eqn:Hb; cbn in Hread; simplify_eq. cbn.
  split_and!; [done|lia|by apply Hboot| |by eapply ancestors_later|cbn in Hlen; lia].
  eapply (seen_mono w w w1 w3); [done|later_chain|]. by apply Hseen.
Qed.

End Observe.

(** * What the receiver knows *)

(** Every process is filed under its number. *)
Definition keyed (m : Processes) : Prop := forall pid e, m !! pid = Some e -> pe_pid e = pid.

Lemma event_changed_refl e : event_changed e e = false.
Proof. unfold event_changed. rewrite !bool_decide_eq_true_2 by done. by rewrite !String.eqb_refl, Z.eqb_refl. Qed.

Definition same_process (a b : ProcessEvent) : Prop :=
  pe_start_time_ticks a = pe_start_time_ticks b /\ pe_boot_id a = pe_boot_id b /\ pe_exe a = pe_exe b
  /\ pe_comm a = pe_comm b /\ pe_cmdline a = pe_cmdline b /\ pe_uid a = pe_uid b /\ pe_credentials a = pe_credentials b.

Lemma event_changed_spec a b : event_changed a b = false <-> same_process a b.
Proof.
  unfold event_changed, same_process.
  rewrite !orb_false_iff, !negb_false_iff, !bool_decide_eq_true, !String.eqb_eq, Z.eqb_eq. tauto.
Qed.

#[export] Instance same_process_equivalence : Equivalence same_process.
Proof. unfold same_process. split; [by intros a|intros a b; intuition congruence|intros a b c; intuition congruence]. Qed.

Lemma changed_processes_spec previous current e :
  keyed current -> e ∈ changed_processes previous current <-> current !! pe_pid e = Some e /\ is_new previous e = true.
Proof.
  intros Hk. unfold changed_processes. rewrite sort_by_perm, list_elem_of_filter, list_elem_of_fmap. split.
  - intros (Hn & [pid e'] & -> & Hin%elem_of_map_to_list). cbn in *. split; [|done]. by rewrite (Hk _ _ Hin).
  - intros [Hc Hn]. split; [done|]. exists (pe_pid e, e). split; [done|]. by apply elem_of_map_to_list.
Qed.

Lemma changed_processes_distinct previous current :
  keyed current -> NoDup (map pe_pid (changed_processes previous current)).
Proof.
  intros Hk. unfold changed_processes. rewrite sort_by_perm.
  assert (NoDup (map pe_pid (map snd (map_to_list current)))) as Hall.
  { rewrite map_map. erewrite map_ext_in; [apply NoDup_fst_map_to_list|].
    intros [pid e] Hin%list_elem_of_In%elem_of_map_to_list. cbn. by apply Hk. }
  eapply sublist_NoDup; [exact Hall|]. apply fmap_sublist, sublist_filter.
Qed.

(** A receiver files each event under its number. *)
Definition replay (base : Processes) (events : list ProcessEvent) : Processes :=
  fold_left (fun m e => <[pe_pid e := e]> m) events base.

Lemma replay_app base a b : replay base (a ++ b) = replay (replay base a) b.
Proof. apply fold_left_app. Qed.

Lemma replay_miss base events pid : pid ∉ map pe_pid events -> replay base events !! pid = base !! pid.
Proof.
  revert base. induction events as [|e events IH]; intros base Hp; [done|]. cbn in *.
  apply not_elem_of_cons in Hp as [Hne Hp]. change (replay (<[pe_pid e:=e]> base) events !! pid = base !! pid).
  rewrite IH by done. by apply lookup_insert_ne.
Qed.

Lemma replay_hit base events e : NoDup (map pe_pid events) -> e ∈ events -> replay base events !! pe_pid e = Some e.
Proof.
  revert base. induction events as [|x events IH]; intros base Hd He; [by apply elem_of_nil in He|].
  cbn in Hd. apply NoDup_cons in Hd as [Hx Hd].
  change (replay (<[pe_pid x:=x]> base) events !! pe_pid e = Some e).
  apply elem_of_cons in He as [->|He]; [|by apply IH]. rewrite replay_miss by done. apply lookup_insert_eq.
Qed.

(** [view] tells of every process of [known] what it is now; of a process it has
    nothing of, the first scan [base] knew the same. *)
Definition tells (base view known : Processes) : Prop :=
  forall pid e, known !! pid = Some e ->
  match view !! pid with
  | Some e' => same_process e' e
  | None => exists e0, base !! pid = Some e0 /\ same_process e0 e
  end.

Lemma tells_changes base view known current :
  keyed current -> tells base view known -> tells base (replay view (changed_processes known current)) current.
Proof.
  intros Hk Hc pid e He. pose proof (Hk _ _ He) as Hp. destruct (is_new known e) eqn:Hn.
  - assert (replay view (changed_processes known current) !! pid = Some e) as ->; [|done].
    rewrite <- Hp. apply replay_hit; [by apply changed_processes_distinct|].
    apply changed_processes_spec; [done|]. by rewrite Hp.
  - unfold is_new in Hn. rewrite Hp in Hn. destruct (known !! pid) as [old|] eqn:Hold; [|done].
    apply event_changed_spec in Hn. specialize (Hc _ _ Hold). rewrite replay_miss.
    + destruct (view !! pid) as [e'|]; [by etrans|]. destruct Hc as (e0 & He0 & Hs). exists e0. split; [done|by etrans].
    + rewrite list_elem_of_fmap. intros (x & Hx & Hin).
      apply changed_processes_spec in Hin as [Hin Hnew]; [|done]. rewrite <- Hx in Hin.
      assert (x = e) as -> by congruence. unfold is_new in Hnew. rewrite Hp, Hold in Hnew.
      by rewrite (proj2 (event_changed_spec old e)) in Hnew.
Qed.

(** A channel with room left has taken every event. *)
Lemma deliver_all_room now h tx events h' tx' :
  deliver_all now h tx events = (h', tx', true) -> zlen (ch_items tx') < ch_capacity tx' ->
  ch_items tx' = ch_items tx ++ events /\ ch_capacity tx' = ch_capacity tx.
Proof.
  assert (forall events h tx h' tx', deliver_all now h tx events = (h', tx', true) ->
    ch_capacity tx' = ch_capacity tx /\ zlen (ch_items tx) <= zlen (ch_items tx')) as Hmono.
  { clear. intros events. induction events as [|e events IH]; intros h tx h' tx'; cbn [deliver_all]; [intros; simplify_eq; lia|].
    unfold deliver. destruct (ch_closed tx); [done|].
    destruct (_ <=? _); intros Hd%IH; cbn in Hd; [done|]. rewrite zlen_app in Hd. unfold zlen in *. cbn in Hd. lia. }
  revert h tx. induction events as [|e events IH]; intros h tx; cbn [deliver_all]; [intros; simplify_eq; by rewrite app_nil_r|].
  unfold deliver. destruct (ch_closed tx); [done|].
  destruct (Z.leb_spec (ch_capacity tx) (zlen (ch_items tx))) as [Hfull|Hroom]; intros Hd Hlast.
  - apply Hmono in Hd. lia.
  - apply IH in Hd as [Hi Hc]; [|done]. cbn in *. split; [|done]. by rewrite Hi, <- app_assoc.
Qed.

Section Rounds.
Context {W : Type} `{Kernel W}.

Lemma read_process_at_pid pid boot now (w w' : W) e : read_process_at pid boot now w = (w', Ok e) -> pe_pid e = pid.
Proof.
  unfold read_process_at. intros Hread.
  do 9 (apply st_bind_Ok in Hread as (? & ? & _ & Hread)).
  destruct (_ || _) in Hread; apply st_result_Ok in Hread as [-> Hread]; by simplify_eq.
Qed.

Lemma scan_keyed boot now (w w' : W) h h' found :
  scan_processes boot now w h = (w', h', Ok found) -> keyed found.
Proof.
  unfold scan_processes. destruct (read_dir w "/proc") as [w1 [entries|e]]; [|done].
  destruct (scan_entries boot now entries w1 h ∅) as [[w2 h2] found2] eqn:Hscan. intros [= -> -> ->].
  assert (keyed ∅) as H0 by (intros pid e Hl; by rewrite lookup_empty in Hl).
  revert w1 h Hscan H0. generalize (∅ : Processes). induction entries as [|[name|[]] entries IH]; intros m w1 h; cbn [scan_entries].
  - intros [= -> -> ->]. done.
  - destruct (parse_u32 name) as [pid|]; [|apply IH].
    destruct (read_process_at pid boot now w1) as [w3 [e|[]]] eqn:Hr; try apply IH.
    intros Hs Hm. apply IH in Hs; [done|]. intros pid' e'. destruct (decide (pid' = pid)) as [->|Hne].
    + rewrite lookup_insert_eq. intros [= <-]. by eapply read_process_at_pid.
    + rewrite lookup_insert_ne by done. apply Hm.
  - apply IH.
Qed.

(** The monitor and its receiver: the thread starts with an empty channel, scans
    at any state of the kernel, and in between the receiver, which knows nothing
    at first, takes events and files them. The channel is never filled up. *)
Definition taken (m : Monitor) (rest : list ProcessEvent) : Monitor :=
  mkMonitor (mon_boot m) (mon_known m) (mon_health m)
    (mkChannel rest (ch_capacity (mon_tx m)) (ch_closed (mon_tx m))).
Inductive watched : Processes -> Monitor -> Processes -> Prop :=
| watched_start now (w w' : W) capacity h m :
    monitor_start now w (mkChannel [] capacity false) = (w', h, Some m) -> watched (mon_known m) m ∅
| watched_round base m view now stop (w w' : W) m' :
    watched base m view -> monitor_round now stop w m = (w', m', true) ->
    zlen (ch_items (mon_tx m')) < ch_capacity (mon_tx m') -> watched base m' view
| watched_receive base m view e rest :
    watched base m view -> ch_items (mon_tx m) = e :: rest -> watched base (taken m rest) (<[pe_pid e := e]> view).

Lemma round_tells base view now stop (w w' : W) m m' :
  monitor_round now stop w m = (w', m', true) ->
  zlen (ch_items (mon_tx m')) < ch_capacity (mon_tx m') ->
  tells base (replay view (ch_items (mon_tx m))) (mon_known m) ->
  tells base (replay view (ch_items (mon_tx m'))) (mon_known m').
Proof.
  unfold monitor_round. destruct (stop || _); [by intros [=]|].
  destruct (scan_processes _ _ _ _) as [[w1 h1] [current|e]] eqn:Hs; [|by intros [=]].
  destruct (deliver_all _ _ _ _) as [[h2 tx2] more] eqn:Hd. destruct more; intros; simplify_eq. cbn in *.
  apply deliver_all_room in Hd as [-> _]; [|done]. rewrite replay_app.
  apply tells_changes; [by eapply scan_keyed|done].
Qed.

(** C24: The monitor's receiver is up to date. The processes of the first scan are a
    baseline that is never sent. At any time after it, once a receiver that
    started with nothing has taken what is in the channel, its latest event for a
    process of the last scan has that process's start, boot, program, name,
    command line, user and credentials; a process it got no event for is as it
    was in the baseline. So every process found new or changed has been reported,
    as long as the channel was never full. *)
Theorem receiver_view_current (base view : Processes) (m : Monitor) :
  watched base m view ->
  forall pid e, mon_known m !! pid = Some e ->
  match replay view (ch_items (mon_tx m)) !! pid with
  | Some e' => same_process e' e
  | None => exists e0, base !! pid = Some e0 /\ same_process e0 e
  end.
Proof.
  induction 1 as [now w w' capacity h m Hstart|base m view now stop w w' m' _ IH Hround Hroom|base m view e rest _ IH Hitems].
  - unfold monitor_start in Hstart. destruct (read_boot_id w) as [w1 boot].
    destruct (scan_processes _ _ _ _) as [[w2 h2] [known|]]; [|done]. injection Hstart as _ _ <-. cbn.
    intros pid e He. rewrite lookup_empty. by exists e.
  - by eapply round_tells.
  - rewrite Hitems in IH. exact IH.
Qed.

End Rounds.

(** * Runs on the simulated kernel *)

Module Observed.
Import Simulated.

Definition status_text : string :=
  String.append "Name:	job" (String newline "Uid:	1000	1001	1001	1001").
Definition proc (pid start parent : Z) (name : string) : Z * (Proc * bool) :=
  (pid, (mkProc pid start start parent name status_text, true)).
Definition world (script : list (list Env)) : SimWorld :=
  mkWorld (list_to_map [proc 1 1 0 "init"; proc 17 50 1 "shell"; proc 42 100 17 "job ) 1 2 3 ("]) 1000 200 [] [] script.

Definition the_context : FileProcessContext :=
  mkFileProcessContext 1001 "/usr/bin/job ) 1 2 3 (" 100 the_boot
    [mkProcessIdentity 17 50 the_boot; mkProcessIdentity 1 1 the_boot].
Example context_ex : snd (read_file_process_context 42 7 (world [])) = Ok the_context.
Proof. vm_compute. reflexivity. Qed.
(** The number is reused while the context is read. *)
Example context_reused_ex :
  snd (read_file_process_context 42 7 (world [[]; []; [Exit 42; Reap 42; Tick 9; Spawn 42 17 "job" status_text]]))
  = Err WouldBlock.
Proof. vm_compute. reflexivity. Qed.

Lemma context_identifies_process_witness :
  0 <= 42 <= u32_max /\ snd (read_file_process_context 42 7 (world [])) = Ok the_context /\
  seen (world []) (fst (read_file_process_context 42 7 (world []))) 42 (fun _ p => started p = 100).
Proof.
  split; [unfold u32_max; lia|]. split; [vm_compute; reflexivity|].
  apply (context_identifies_process 42 7 (world []) (fst (read_file_process_context 42 7 (world []))) the_context);
    [unfold u32_max; lia|vm_compute; reflexivity].
Defined.

Lemma parse_stat_line_witness :
  let p := mkProc 42 7 100 17 "a) S 1 (b" "" in
  stat_line 42 17 100 (sp_comm p) (stat_text p) /\ parse_stat (stat_text p) 42 = Some (mkProcessStat 17 "a) S 1 (b" 100).
Proof.
  assert (stat_line 42 17 100 "a) S 1 (b" (stat_text (mkProc 42 7 100 17 "a) S 1 (b" ""))) as Hl
    by (apply (stat_text_line (mkProc 42 7 100 17 "a) S 1 (b" "")); cbn; unfold u32_max; lia).
  split; [exact Hl|]. apply (parse_stat_line 42 17 100 "a) S 1 (b"); [unfold u32_max; lia|unfold u64_max; lia|exact Hl].
Defined.

(** ** A round of the monitor *)

Definition tx0 : Channel ProcessEvent := mkChannel [] 1024 false.
(** Process 42 ends and its number is reused; 50 starts. *)
Definition script : list (list Env) :=
  repeat [] 30 ++ [[Exit 42; Reap 42; Tick 5; Spawn 42 1 "other" status_text; Spawn 50 1 "new" status_text]].
Definition begun : SimWorld * Monitor :=
  match monitor_start 100 (world script) tx0 with
  | (w, h, Some m) => (w, m)
  | (w, h, None) => (w, mkMonitor None ∅ h tx0)
  end.
Definition rounds (n : nat) : SimWorld * Monitor * bool :=
  Nat.iter n (fun s => monitor_round 200 false s.1.1 s.1.2) (begun, true).
Example reported_ex :
  map (fun e => (pe_pid e, pe_start_time_ticks e, pe_comm e)) (ch_items (mon_tx (rounds 2).1.2))
  = [(42, Some 1005, "other"); (50, Some 1005, "new")].
Proof. vm_compute. reflexivity. Qed.

Definition baseline : Processes := mon_known begun.2.
(** The state after two rounds, of which the receiver took the first event. *)
Definition last_round : Monitor := (rounds 2).1.2.
Definition first_event : ProcessEvent := hd (mkProcessEvent 0 0 0 0 None None None None "" "") (ch_items (mon_tx last_round)).
Lemma receiver_view_current_witness :
  let view := <[42 := first_event]> ∅ in
  let m := taken last_round (tail (ch_items (mon_tx last_round))) in
  map fst (map_to_list (mon_known m)) = [17; 42; 50; 1]
  /\ forall pid e, mon_known m !! pid = Some e ->
       match replay view (ch_items (mon_tx m)) !! pid with
       | Some e' => same_process e' e
       | None => exists e0, baseline !! pid = Some e0 /\ same_process e0 e
       end.
Proof.
  intros view m. split; [vm_compute; reflexivity|].
  apply (receiver_view_current (W := SimWorld) baseline view m).
  refine (watched_receive baseline last_round ∅ first_event _ _ _); [|vm_compute; reflexivity].
  refine (watched_round baseline (rounds 1).1.2 ∅ 200 false (rounds 1).1.1 (rounds 2).1.1 last_round _ _ _);
    [|vm_compute; reflexivity|vm_compute; reflexivity].
  refine (watched_round baseline begun.2 ∅ 200 false begun.1 (rounds 1).1.1 (rounds 1).1.2 _ _ _);
    [|vm_compute; reflexivity|vm_compute; reflexivity].
  refine (watched_start 100 (world script) begun.1 1024 (mon_health begun.2) begun.2 _). vm_compute. reflexivity.
Defined.

End Observed.
