(* ===== verification/Isolation.v ===== *)
(** Network isolation (crates/argos-response/src/isolate.rs): management rules, the
    scripts for iptables-restore of both address families, the verification of
    the applied state, and the order of the commands. The firewall tools are a
    parameter (class [FirewallRunner]). *)
From Stdlib Require Import ZArith Lia Ascii.
From stdpp Require Import base sets strings list pretty.
From S2P Require Import Prelude RustPath RustStr F64 IpAddr.
#[local] Open Scope Z_scope.

Definition CHAINS : list (string * string) :=
  [("INPUT", "ARGOS_INPUT"); ("OUTPUT", "ARGOS_OUTPUT"); ("FORWARD", "ARGOS_FORWARD")].
Definition LEGACY_CHAIN : string := "ARGOS_ISOLATE".

Inductive IsolationError :=
  | InvalidRule (text : string)
  | Command (program detail : string)
  | Incomplete (detail : string)
  | IsolationUnsupported.

Record FirewallCommand := mkFirewallCommand {
  fc_program : string;
  fc_args : list string;
  fc_input : string;
}.
#[export] Instance FirewallCommand_eq_dec : EqDecision FirewallCommand.
Proof. solve_decision. Defined.

Record ManagementRule := mkManagementRule {
  mr_inbound : bool;
  mr_network : string;
  mr_port : Z;
  mr_ipv6 : bool;
}.

(** [split_once] and [replacen(.., 1)] with a string as pattern. *)
Fixpoint split_once_str (pattern s : string) : option (string * string) :=
  match strip_prefix pattern s with
  | Some rest => Some ("", rest)
  | None =>
      match s with
      | EmptyString => None
      | String c s' => (fun p => (String c p.1, p.2)) <$> split_once_str pattern s'
      end
  end.
Fixpoint replace_first (from to s : string) : string :=
  match strip_prefix from s with
  | Some rest => String.append to rest
  | None => match s with EmptyString => EmptyString | String c s' => String c (replace_first from to s') end
  end.


Section Isolation.
Context `{RustStd}.

Definition isolation_error_fmt (e : IsolationError) : string :=
  match e with
  | InvalidRule text => "격리 허용 규칙 오류: " +:+ text
  | Command program detail => "방화벽 명령 실패 (" +:+ program +:+ "): " +:+ detail
  | Incomplete detail => "네트워크 격리 작업 실패: " +:+ detail
  | IsolationUnsupported => "네트워크 격리는 Linux에서만 지원됩니다"
  end.

(** * Management rules *)

Definition invalid (text : string) : IsolationError :=
  InvalidRule (str_debug text +:+ ": in:192.0.2.20:22 또는 out:[2001:db8::10]:443 형식의 명시적 IP/CIDR·포트가 필요합니다").

Definition split_endpoint (endpoint : string) : option (string * string) :=
  match endpoint with
  | String "[" rest => split_once_str "]:" rest
  | _ =>
      p ← rsplit_once ":" endpoint;
      if str_contains ":" p.1 then None else Some p
  end.

Definition parse_rule (text : string) : result ManagementRule IsolationError :=
  let? p := ok_or (split_once ":" text) (invalid text) in
  let? inbound :=
    if String.eqb p.1 "in" then Ok true else if String.eqb p.1 "out" then Ok false else Err (invalid text) in
  let? e := ok_or (split_endpoint p.2) (invalid text) in
  let? port := ok_or (parse_u16 e.2) (invalid text) in
  let? _ := guard (port =? 0) (invalid text) in
  let '(ip_text, prefix) := match split_once "/" e.1 with Some q => (q.1, Some q.2) | None => (e.1, None) end in
  let? ip := ok_or (parse_ip ip_text) (invalid text) in
  let? network :=
    match prefix with
    | Some prefix =>
        let? prefix := ok_or (parse_u8 prefix) (invalid text) in
        let? _ := guard ((prefix =? 0) || ((if is_ipv4 ip then 32 else 128) <? prefix)) (invalid text) in
        Ok (ip_to_string ip +:+ "/" +:+ pretty prefix)
    | None => Ok (ip_to_string ip)
    end in
  let? _ := guard (is_unspecified ip || is_multicast ip) (invalid text) in
  Ok (mkManagementRule inbound network port (negb (is_ipv4 ip))).

Fixpoint parse_rules (allow : list string) : result (list ManagementRule) IsolationError :=
  match allow with
  | [] => Ok []
  | text :: allow => let? r := parse_rule text in let? rs := parse_rules allow in Ok (r :: rs)
  end.

(** * Commands and scripts *)

Definition restore_command (ipv6 : bool) (input : string) : FirewallCommand :=
  mkFirewallCommand (if ipv6 then "ip6tables-restore" else "iptables-restore") ["--noflush"; "--wait"; "5"] input.
Definition read_command (ipv6 : bool) : FirewallCommand :=
  mkFirewallCommand (if ipv6 then "ip6tables-save" else "iptables-save") ["-t"; "filter"] "".

Definition own_chain (name : string) : bool :=
  existsb (fun c => String.eqb c.2 name) CHAINS || String.eqb name LEGACY_CHAIN.

Definition existing_chains (snapshot : string) : list string :=
  omap (fun line => rest ← strip_prefix ":" line; name ← head (split_whitespace rest);
                    if own_chain name then Some name else None) (lines snapshot).

Fixpoint jumps_to_own (tokens : list string) : bool :=
  match tokens with
  | a :: (b :: _) as rest => ((String.eqb a "-j" || String.eqb a "-g") && own_chain b) || jumps_to_own rest
  | _ => false
  end.
Definition foreign_jump (line : string) : bool :=
  let tokens := split_whitespace line in
  Nat.leb 4 (length tokens) && bool_decide (tokens !! 0%nat = Some "-A")
  && negb (is_some_and (tokens !! 1%nat) own_chain) && jumps_to_own tokens.
(** The lines [remove_jumps] appends to the script. *)
Definition remove_jumps (snapshot : string) : list string :=
  map (replace_first "-A" "-D") (filter (fun line => foreign_jump line = true) (lines snapshot)).

Definition neighbour_rules : list string :=
  flat_map (fun chain => map (fun kind =>
      "-A " +:+ chain +:+ " -p ipv6-icmp --icmpv6-type " +:+ pretty kind +:+ " -m hl --hl-eq 255 -j ACCEPT") [135; 136])
    ["ARGOS_INPUT"; "ARGOS_OUTPUT"]
  ++ ["-A ARGOS_INPUT -s fe80::/10 -p ipv6-icmp --icmpv6-type 134 -m hl --hl-eq 255 -j ACCEPT";
      "-A ARGOS_OUTPUT -d ff02::2 -p ipv6-icmp --icmpv6-type 133 -m hl --hl-eq 255 -j ACCEPT"].

Definition management_rules (rule : ManagementRule) : list string :=
  let '(original, original_peer, reply, reply_peer) :=
    if mr_inbound rule then ("ARGOS_INPUT", "-s", "ARGOS_OUTPUT", "-d") else ("ARGOS_OUTPUT", "-d", "ARGOS_INPUT", "-s") in
  ["-A " +:+ original +:+ " " +:+ original_peer +:+ " " +:+ mr_network rule +:+ " -p tcp --dport " +:+ pretty (mr_port rule)
     +:+ " -m conntrack --ctstate NEW,ESTABLISHED --ctdir ORIGINAL -j ACCEPT";
   "-A " +:+ reply +:+ " " +:+ reply_peer +:+ " " +:+ mr_network rule +:+ " -p tcp --sport " +:+ pretty (mr_port rule)
     +:+ " -m conntrack --ctstate ESTABLISHED --ctdir REPLY -j ACCEPT"].

Definition isolation_lines (rules : list ManagementRule) (ipv6 : bool) (snapshot : string) : list string :=
  ["*filter"]
  ++ map (fun c => ":" +:+ c.2 +:+ " - [0:0]") CHAINS
  ++ remove_jumps snapshot
  ++ (if str_mem LEGACY_CHAIN (existing_chains snapshot) then ["-F " +:+ LEGACY_CHAIN; "-X " +:+ LEGACY_CHAIN] else [])
  ++ ["-A ARGOS_INPUT -i lo -j ACCEPT"; "-A ARGOS_OUTPUT -o lo -j ACCEPT"]
  ++ (if ipv6 then neighbour_rules else [])
  ++ flat_map management_rules (filter (fun r => Bool.eqb (mr_ipv6 r) ipv6 = true) rules)
  ++ flat_map (fun c => ["-A " +:+ c.2 +:+ " -j DROP"; "-I " +:+ c.1 +:+ " 1 -j " +:+ c.2]) CHAINS
  ++ ["COMMIT"].
Definition isolation_script (rules : list ManagementRule) (ipv6 : bool) (snapshot : string) : string :=
  unlines (isolation_lines rules ipv6 snapshot).

Definition release_script (snapshot : string) : string :=
  unlines (["*filter"] ++ remove_jumps snapshot
           ++ map (fun chain => "-F " +:+ chain) (existing_chains snapshot)
           ++ map (fun chain => "-X " +:+ chain) (existing_chains snapshot) ++ ["COMMIT"]).

(** The plans the command line prints. *)
Definition isolation_commands (allow : list string) : result (list FirewallCommand) IsolationError :=
  let? rules := parse_rules allow in
  Ok (map (fun ipv6 => restore_command ipv6 (isolation_script rules ipv6 "")) [false; true]).
Definition release_commands : list FirewallCommand :=
  let installed := unlines (flat_map (fun c => [":" +:+ c.2 +:+ " - [0:0]"; "-A " +:+ c.1 +:+ " -j " +:+ c.2]) CHAINS) in
  map (fun ipv6 => restore_command ipv6 (release_script installed)) [false; true].

(** * Verification *)

Definition starting_with (prefix text : string) : list string :=
  filter (fun line => str_starts_with prefix line = true) (lines text).

Definition verify_chain (snapshot script : string) (c : string * string) : result unit IsolationError :=
  let '(base, chain) := c in
  let? _ := guard (negb (bool_decide (head (starting_with ("-A " +:+ base +:+ " ") snapshot)
                                      = Some ("-A " +:+ base +:+ " -j " +:+ chain))))
              (Incomplete (base +:+ " 최상단의 " +:+ chain +:+ " 연결을 확인하지 못했습니다")) in
  let prefix := "-A " +:+ chain +:+ " " in
  let actual := starting_with prefix snapshot in
  let expected_count := length (starting_with prefix script) in
  guard (negb (Nat.eqb (length actual) expected_count)
         || negb (bool_decide (list.last actual = Some ("-A " +:+ chain +:+ " -j DROP"))))
    (Incomplete (chain +:+ "의 규칙 수 또는 최종 DROP 검증 실패")).
Fixpoint verify_chains (snapshot script : string) (cs : list (string * string)) : result unit IsolationError :=
  match cs with
  | [] => Ok tt
  | c :: cs => let? _ := verify_chain snapshot script c in verify_chains snapshot script cs
  end.
Definition verify (snapshot script : string) (release : bool) : result unit IsolationError :=
  if release then
    guard (negb (Nat.eqb (length (existing_chains snapshot)) 0)) (Incomplete "해제 후에도 Argos 체인이 남았습니다")
  else verify_chains snapshot script CHAINS.

End Isolation.

(** * Execution *)

Class FirewallRunner (R : Type) := run : FirewallCommand -> Stateful R IsolationError string.

Definition map_err {R E E' A} (f : E -> E') (m : Stateful R E A) : Stateful R E' A := fun w =>
  let '(w, r) := m w in (w, match r with Ok a => Ok a | Err e => Err (f e) end).

Section Execute.
Context `{RustStd} {R : Type} `{FirewallRunner R}.
#[local] Abbreviation Fw A := (Stateful R IsolationError A).

Fixpoint make_plans (rules : list ManagementRule) (release : bool) (families : list bool) : Fw (list FirewallCommand) :=
  match families with
  | [] => st_result (Ok [])
  | ipv6 :: families =>
      sys? snapshot := run (read_command ipv6) in
      let script := if release then release_script snapshot else isolation_script rules ipv6 snapshot in
      sys? plans := make_plans rules release families in
      st_result (Ok (restore_command ipv6 script :: plans))
  end.

Definition test_of (plan : FirewallCommand) : FirewallCommand :=
  mkFirewallCommand (fc_program plan) (fc_args plan ++ ["--test"]) (fc_input plan).
Fixpoint test_plans (plans : list FirewallCommand) : Fw unit :=
  match plans with
  | [] => st_result (Ok tt)
  | plan :: plans => sys? _ := run (test_of plan) in test_plans plans
  end.

Fixpoint apply_plans (index : Z) (plans : list FirewallCommand) : Fw unit :=
  match plans with
  | [] => st_result (Ok tt)
  | plan :: plans =>
      sys? _ := map_err (fun e => Incomplete (fc_program plan +:+ " 적용 실패; " +:+ pretty index
                  +:+ "개 주소 계열은 이미 적용되었을 수 있습니다. 부분 상태를 확인하세요: " +:+ isolation_error_fmt e))
                  (run plan) in
      apply_plans (index + 1) plans
  end.

Definition check_command (ipv6 : bool) (rule : string) : FirewallCommand :=
  mkFirewallCommand (if ipv6 then "ip6tables" else "iptables")
    ((match split_whitespace rule with [] => [] | _ :: args => "-C" :: args end) ++ ["--wait"; "5"]) "".
Fixpoint check_rules (ipv6 : bool) (rules : list string) : Fw unit :=
  match rules with
  | [] => st_result (Ok tt)
  | rule :: rules =>
      sys? _ := map_err (fun e => Incomplete ("적용 후 개별 격리 규칙 검증 실패: " +:+ isolation_error_fmt e))
                  (run (check_command ipv6 rule)) in
      check_rules ipv6 rules
  end.

Fixpoint confirm (release : bool) (families : list (bool * FirewallCommand)) : Fw unit :=
  match families with
  | [] => st_result (Ok tt)
  | (ipv6, plan) :: families =>
      sys? snapshot := map_err (fun e => Incomplete ("규칙 적용 후 상태 조회 실패; 적용된 규칙을 확인하세요: " +:+ isolation_error_fmt e))
                         (run (read_command ipv6)) in
      sys? _ := st_result (verify snapshot (fc_input plan) release) in
      sys? _ := if release then st_result (Ok tt) else check_rules ipv6 (starting_with "-A " (fc_input plan)) in
      confirm release families
  end.

Definition execute (allow : list string) (release : bool) : Fw unit :=
  sys? rules := st_result (parse_rules allow) in
  sys? plans := make_plans rules release [false; true] in
  sys? _ := test_plans plans in
  sys? _ := apply_plans 0 plans in
  confirm release (zip [false; true] plans).

Definition isolate_host (allow : list string) : Fw unit := execute allow false.
Definition release_isolation : Fw unit := execute [] true.

End Execute.

(** * Lines of a script *)

Lemma lines_unlines (ls : list string) : Forall no_newline ls -> lines (unlines ls) = map strip_carriage ls.
Proof.
  intros Hls. unfold lines. rewrite split_at_unlines by done. rewrite last_snoc. by rewrite removelast_last.
Qed.

Lemma strip_carriage_none (s : string) : str_contains carriage s = false -> strip_carriage s = s.
Proof.
  induction s as [|c s IH]; [done|]. cbn [str_contains]. intros [Hc Hs]%orb_false_iff.
  cbn [strip_carriage]. destruct s as [|d s]; [by rewrite Hc|]. by rewrite IH.
Qed.

Lemma strip_carriage_contains (c : ascii) (s : string) : str_contains c s = false -> str_contains c (strip_carriage s) = false.
Proof.
  induction s as [|a s IH]; [done|]. cbn [str_contains]. intros [Ha Hs]%orb_false_iff.
  cbn [strip_carriage]. destruct s as [|d s].
  - destruct (Ascii.eqb a carriage); [done|]. cbn [str_contains]. by rewrite Ha.
  - change (str_contains c (String a (strip_carriage (String d s))) = false). cbn [str_contains]. rewrite Ha. by apply IH.
Qed.

Lemma strip_carriage_prefix (p s : string) :
  str_starts_with p (strip_carriage s) = true -> str_starts_with p s = true.
Proof.
  revert p. induction s as [|a s IH]; intros p; [done|]. cbn [strip_carriage]. destruct s as [|d s].
  - destruct (Ascii.eqb a carriage); [|done]. by destruct p.
  - destruct p as [|b p]; [done|].
    change (Ascii.eqb b a && str_starts_with p (strip_carriage (String d s)) = true ->
            Ascii.eqb b a && str_starts_with p (String d s) = true).
    rewrite !andb_true_iff. intros [Hb Hp]. split; [done|]. by apply IH.
Qed.

Lemma split_at_clean (c : ascii) (s : string) : Forall (fun l => str_contains c l = false) (split_at c s).
Proof.
  induction s as [|a s IH]; [by repeat constructor|]. cbn [split_at].
  destruct (Ascii.eqb a c) eqn:Ha; [by constructor|].
  destruct (split_at c s) as [|seg segs]; inversion IH; subst; constructor; try done; cbn [str_contains]; by rewrite Ha.
Qed.

Lemma lines_clean (s : string) : Forall no_newline (lines s).
Proof.
  unfold lines. apply Forall_map.
  assert (Forall no_newline (match list.last (split_at newline s) with Some "" => removelast (split_at newline s) | _ => split_at newline s end)) as Hl.
  { pose proof (split_at_clean newline s) as Hall. repeat case_match; try done.
    rewrite removelast_firstn_len. by apply Forall_take. }
  eapply Forall_impl; [exact Hl|]. intros l. apply strip_carriage_contains.
Qed.

(** A removed jump no longer appends anything. *)
Lemma replaced_not_append (s : string) : str_starts_with "-A" (replace_first "-A" "-D" s) = false.
Proof.
  assert (forall s, str_starts_with "A" s = false -> str_starts_with "A" (replace_first "-A" "-D" s) = false) as Hnext.
  { intros [|c t]; [done|]. intros Hc. cbn [replace_first]. destruct (strip_prefix "-A" (String c t)) as [rest|]; [done|].
    cbn [str_starts_with] in *. done. }
  destruct s as [|a s]; [done|]. cbn [replace_first].
  destruct (strip_prefix "-A" (String a s)) as [rest|] eqn:Hp; [done|].
  cbn [str_starts_with]. destruct (Ascii.eqb_spec "-" a) as [<-|]; [|done]. cbn [andb].
  apply (Hnext s). cbn [strip_prefix] in Hp. rewrite Ascii.eqb_refl in Hp. destruct s as [|b s]; [done|].
  cbn [strip_prefix str_starts_with] in *. destruct (Ascii.eqb "A" b); [done|done].
Qed.

Lemma replaced_clean (s : string) : no_newline s -> no_newline (replace_first "-A" "-D" s).
Proof.
  unfold no_newline. induction s as [|c s IH]; [done|]. cbn [replace_first].
  destruct (strip_prefix "-A" (String c s)) as [rest|] eqn:Hp.
  - apply strip_prefix_Some in Hp as ->. rewrite !str_contains_app. done.
  - cbn [str_contains]. intros [Hc Hs]%orb_false_iff. rewrite Hc. by apply IH.
Qed.

(** ** Addresses and ports are words *)

Definition plain (c : ascii) : bool := Nat.leb 32 (nat_of_ascii c) && Nat.ltb (nat_of_ascii c) 127.

Lemma plain_line (s : string) : str_all plain s = true -> no_newline s /\ strip_carriage s = s.
Proof.
  intros Hs. split; [by apply (contains_all _ plain)|]. apply strip_carriage_none. by apply (contains_all _ plain).
Qed.

Lemma word_plain (s : string) : is_word s = true -> str_all plain s = true.
Proof.
  unfold is_word. intros [_ Hs]%andb_true_iff. eapply str_all_impl; [|exact Hs].
  intros c. unfold graphic, plain. rewrite !andb_true_iff, !Nat.ltb_lt, Nat.leb_le. lia.
Qed.

Lemma append_word (a b : string) : is_word a = true -> str_all graphic b = true -> is_word (String.append a b) = true.
Proof.
  unfold is_word. rewrite !andb_true_iff, !negb_true_iff, !String.eqb_neq, str_all_app. intros [Hne ->] ->.
  split; [by apply append_not_nil|done].
Qed.

Lemma ip_word (ip : IpAddr) : ip_ok ip -> is_word (ip_to_string ip) = true.
Proof.
  intros Hip. unfold is_word. apply andb_true_iff. split.
  - apply negb_true_iff, String.eqb_neq. by apply ip_to_string_not_nil.
  - eapply str_all_impl; [|by apply ip_to_string_chars]. intros c. unfold ip_char.
    rewrite !orb_true_iff. intros [[[Hd|Hx]|Hx]|Hx].
    + by apply digit_graphic.
    + unfold graphic. rewrite !andb_true_iff, !Nat.leb_le, !Nat.ltb_lt in *. lia.
    + by apply Ascii.eqb_eq in Hx as ->.
    + by apply Ascii.eqb_eq in Hx as ->.
Qed.

(** What an accepted management rule is: one explicit address or a network that is
    not everything, and one port. *)
Record rule_ok (r : ManagementRule) : Prop := {
  ro_network : exists ip suffix, mr_network r = String.append (ip_to_string ip) suffix
    /\ ip_ok ip /\ is_unspecified ip = false /\ is_multicast ip = false /\ mr_ipv6 r = negb (is_ipv4 ip)
    /\ (suffix = "" \/ exists n, suffix = String.append "/" (pretty n) /\ 1 <= n <= (if is_ipv4 ip then 32 else 128));
  ro_port : 1 <= mr_port r <= 65535;
}.

Lemma network_word (r : ManagementRule) : rule_ok r -> is_word (mr_network r) = true.
Proof.
  intros [(ip & suffix & -> & Hip & _ & _ & _ & Hs) _]. apply append_word; [by apply ip_word|].
  destruct Hs as [->|(n & -> & Hn)]; [done|]. rewrite str_all_app. cbn [str_all].
  eapply str_all_impl; [|apply pretty_digits; lia]. apply digit_graphic.
Qed.

Lemma port_word (r : ManagementRule) : rule_ok r -> is_word (pretty (mr_port r)) = true.
Proof. intros [_ Hp]. apply pretty_word. lia. Qed.

Section Rules.
Context `{RustStd}.

(** An accepted management rule names one address, or a network that leaves out
    part of the address space, of one family, and one port from 1 to 65535;
    it is never 0.0.0.0, :: or multicast, and its printed form holds no blank or newline. *)
Theorem parse_rule_explicit text r : parse_rule text = Ok r -> rule_ok r /\ is_word (mr_network r) = true.
Proof.
  intros Hp. assert (rule_ok r) as Hr; [|split; [done|by apply network_word]]. revert Hp. unfold parse_rule.
  destruct (split_once ":" text) as [p|]; [cbn [ok_or res_bind]|done].
  destruct (if String.eqb p.1 "in" then _ else _) as [inbound|]; [cbn [ok_or res_bind]|done].
  destruct (split_endpoint p.2) as [e|]; [cbn [ok_or res_bind]|done].
  destruct (parse_u16 e.2) as [port|] eqn:Hport; [cbn [ok_or res_bind]|done].
  destruct (Z.eqb_spec port 0) as [|Hp0]; [done|cbn [guard res_bind]].
  destruct (match split_once "/" e.1 with Some q => (q.1, Some q.2) | None => (e.1, None) end) as [ip_text prefix].
  destruct (parse_ip ip_text) as [ip|] eqn:Hip; [cbn [ok_or res_bind]|done].
  destruct (match prefix with Some _ => _ | None => _ end) as [network|] eqn:Hn; [cbn [res_bind]|done].
  destruct (is_unspecified ip || is_multicast ip) eqn:Hc; [done|]. intros [= <-].
  apply parse_below_range in Hport. apply parse_ip_ok in Hip. apply orb_false_iff in Hc as [Hu Hm].
  split; cbn; [|lia]. exists ip. destruct prefix as [prefix|].
  - destruct (parse_u8 prefix) as [n|] eqn:Hpre; [cbn [ok_or res_bind] in Hn|done].
    destruct ((n =? 0) || _) eqn:Hb; [done|]. cbn in Hn. injection Hn as <-.
    apply parse_below_range in Hpre. apply orb_false_iff in Hb as [Hn0%Z.eqb_neq Hb%Z.ltb_ge].
    exists (String.append "/" (pretty n)). split_and!; try done. right. exists n. split; [done|lia].
  - injection Hn as <-. exists "". rewrite append_nil_r. split_and!; try done. by left.
Qed.

Lemma parse_rules_ok allow rs : parse_rules allow = Ok rs -> Forall rule_ok rs.
Proof.
  revert rs. induction allow as [|text allow IH]; intros rs; cbn [parse_rules]; [intros [= <-]; constructor|].
  destruct (parse_rule text) as [r|] eqn:Hr; [cbn [res_bind]|done].
  destruct (parse_rules allow) as [rs'|]; [cbn [res_bind]|done]. intros [= <-].
  constructor; [by eapply parse_rule_explicit|by apply IH].
Qed.

End Rules.

(** * What a script admits *)

(** The rules a script appends to a chain, read back from its text: the words of the
    condition and the target. *)
Definition rule_of (line : string) : option (list string * string) :=
  match split_whitespace line with
  | _ :: _ :: rest =>
      match rev rest with
      | target :: jump :: condition => if String.eqb jump "-j" then Some (rev condition, target) else None
      | _ => None
      end
  | _ => None
  end.
Definition chain_rules (chain script : string) : list (list string * string) :=
  omap rule_of (starting_with ("-A " +:+ chain +:+ " ") script).

(** The target of the first rule whose condition holds; iptables(8). *)
Fixpoint verdict {P} (matches : list string -> P -> bool) (rules : list (list string * string)) (p : P) : option string :=
  match rules with
  | [] => None
  | (condition, target) :: rules => if matches condition p then Some target else verdict matches rules p
  end.

(** The conditions that admit a packet of one family on a chain. *)
Definition permitted_by (chain : string) (r : ManagementRule) : list string :=
  let peer := if String.eqb chain "ARGOS_INPUT" then "-s" else "-d" in
  if Bool.eqb (String.eqb chain "ARGOS_INPUT") (mr_inbound r)
  then [peer; mr_network r; "-p"; "tcp"; "--dport"; pretty (mr_port r); "-m"; "conntrack"; "--ctstate"; "NEW,ESTABLISHED"; "--ctdir"; "ORIGINAL"]
  else [peer; mr_network r; "-p"; "tcp"; "--sport"; pretty (mr_port r); "-m"; "conntrack"; "--ctstate"; "ESTABLISHED"; "--ctdir"; "REPLY"].
Definition neighbour_permitted (chain : string) : list (list string) :=
  map (fun kind => ["-p"; "ipv6-icmp"; "--icmpv6-type"; kind; "-m"; "hl"; "--hl-eq"; "255"]) ["135"; "136"]
  ++ (if String.eqb chain "ARGOS_INPUT"
      then [["-s"; "fe80::/10"; "-p"; "ipv6-icmp"; "--icmpv6-type"; "134"; "-m"; "hl"; "--hl-eq"; "255"]]
      else [["-d"; "ff02::2"; "-p"; "ipv6-icmp"; "--icmpv6-type"; "133"; "-m"; "hl"; "--hl-eq"; "255"]]).
Definition permitted (rules : list ManagementRule) (ipv6 : bool) (chain : string) : list (list string) :=
  if String.eqb chain "ARGOS_FORWARD" then []
  else [[if String.eqb chain "ARGOS_INPUT" then "-i" else "-o"; "lo"]]
       ++ (if ipv6 then neighbour_permitted chain else [])
       ++ map (permitted_by chain) (filter (fun r => Bool.eqb (mr_ipv6 r) ipv6 = true) rules).

(** The rules that a list of lines appends to a chain. *)
Definition appended (chain : string) (ls : list string) : list (list string * string) :=
  omap rule_of (filter (fun l => str_starts_with ("-A " +:+ chain +:+ " ") l = true) (map strip_carriage ls)).

Lemma appended_app chain a b : appended chain (a ++ b) = appended chain a ++ appended chain b.
Proof. unfold appended. by rewrite map_app, filter_app, omap_app. Qed.

Lemma appended_nothing chain ls :
  Forall (fun l => str_starts_with "-A" l = false) ls -> appended chain ls = [].
Proof.
  intros Hls. induction Hls as [|l ls Hl Hls IH]; [done|]. change (l :: ls) with ([l] ++ ls).
  rewrite appended_app, IH, app_nil_r. unfold appended. cbn [map].
  rewrite filter_cons_False; [done|]. intros Hp.
  assert (str_starts_with "-A" (strip_carriage l) = true) as Ha%strip_carriage_prefix; [|by rewrite Ha in Hl].
  change ("-A " +:+ chain +:+ " ") with (String.append "-A" (" " +:+ chain +:+ " ")) in Hp.
  revert Hp. generalize (" " +:+ chain +:+ " "). intros suffix. generalize (strip_carriage l).
  change ("-A" +:+ suffix) with (String "-" (String "A" suffix)).
  intros [|a [|b s]]; [done| |]; cbn [str_starts_with]; rewrite !andb_true_iff; [by intros []|tauto].
Qed.

Lemma starting_with_unlines prefix ls :
  Forall no_newline ls -> starting_with prefix (unlines ls) = filter (fun l => str_starts_with prefix l = true) (map strip_carriage ls).
Proof. intros Hls. unfold starting_with. by rewrite lines_unlines. Qed.

Lemma chain_rules_unlines chain ls : Forall no_newline ls -> chain_rules chain (unlines ls) = appended chain ls.
Proof. intros Hls. unfold chain_rules. by rewrite starting_with_unlines. Qed.

(** One rule in words. *)
Definition rule_line (chain : string) (condition : list string) (target : string) : string :=
  String.concat " " ("-A" :: chain :: condition ++ ["-j"; target]).

Lemma rule_of_line chain condition target :
  is_word chain = true -> Forall (fun s => is_word s = true) condition -> is_word target = true ->
  rule_of (rule_line chain condition target) = Some (condition, target).
Proof.
  intros Hc Hcond Ht. unfold rule_of, rule_line.
  rewrite <- (append_nil_r (String.concat _ _)), split_whitespace_words; [|repeat (constructor; [done|]); apply Forall_app; split; [done|by repeat constructor]|done].
  rewrite rev_app_distr. cbn. by rewrite rev_involutive.
Qed.

Lemma concat_plain (l : list string) : Forall (fun s => is_word s = true) l -> str_all plain (String.concat " " l) = true.
Proof. intros Hl. apply concat_all; [done|]. eapply Forall_impl; [exact Hl|]. apply word_plain. Qed.

Definition the_chains : list string := ["ARGOS_INPUT"; "ARGOS_OUTPUT"; "ARGOS_FORWARD"].

Lemma the_chains_cases chain :
  chain ∈ the_chains -> chain = "ARGOS_INPUT" \/ chain = "ARGOS_OUTPUT" \/ chain = "ARGOS_FORWARD".
Proof. unfold the_chains. set_solver. Qed.

(** Which chain a rule with these words belongs to. *)
Lemma appended_line chain chain' condition target :
  chain ∈ the_chains -> chain' ∈ the_chains -> Forall (fun s => is_word s = true) condition -> is_word target = true ->
  appended chain [rule_line chain' condition target] = if String.eqb chain chain' then [(condition, target)] else [].
Proof.
  intros Hin Hin' Hcond Ht.
  apply the_chains_cases in Hin, Hin'.
  assert (is_word chain' = true) as Hw' by (destruct_or! Hin'; subst; done).
  unfold appended. cbn [map].
  destruct (plain_line (rule_line chain' condition target)) as [_ ->].
  { apply concat_plain. repeat (constructor; [done|]). apply Forall_app. split; [done|by repeat constructor]. }
  assert (str_starts_with ("-A " +:+ chain +:+ " ") (rule_line chain' condition target) = String.eqb chain chain') as Hstart.
  { assert (exists rest, rule_line chain' condition target = "-A " +:+ chain' +:+ " " +:+ rest) as [rest ->].
    { unfold rule_line. exists (String.concat " " (condition ++ ["-j"; target])). destruct condition; reflexivity. }
    destruct_or! Hin; destruct_or! Hin'; subst; reflexivity. }
  destruct (String.eqb chain chain').
  - rewrite filter_cons_True by done. cbn [omap list_omap filter list_filter]. by rewrite rule_of_line.
  - by rewrite filter_cons_False by (by rewrite Hstart).
Qed.

Lemma management_lines (r : ManagementRule) :
  management_rules r =
    (if mr_inbound r
     then [rule_line "ARGOS_INPUT" (permitted_by "ARGOS_INPUT" r) "ACCEPT"; rule_line "ARGOS_OUTPUT" (permitted_by "ARGOS_OUTPUT" r) "ACCEPT"]
     else [rule_line "ARGOS_OUTPUT" (permitted_by "ARGOS_OUTPUT" r) "ACCEPT"; rule_line "ARGOS_INPUT" (permitted_by "ARGOS_INPUT" r) "ACCEPT"]).
Proof. unfold management_rules, permitted_by. destruct (mr_inbound r); reflexivity. Qed.

Lemma permitted_words chain r : rule_ok r -> Forall (fun s => is_word s = true) (permitted_by chain r).
Proof.
  intros Hr. pose proof (network_word r Hr). pose proof (port_word r Hr). unfold permitted_by.
  destruct (String.eqb chain "ARGOS_INPUT"), (mr_inbound r); cbn [Bool.eqb]; by repeat constructor.
Qed.

Lemma appended_management chain rs :
  chain ∈ the_chains -> Forall rule_ok rs ->
  appended chain (flat_map management_rules rs)
  = if String.eqb chain "ARGOS_FORWARD" then [] else map (fun r => (permitted_by chain r, "ACCEPT")) rs.
Proof.
  intros Hin Hrs. induction Hrs as [|r rs Hr Hrs IH]; [by destruct (String.eqb chain _)|].
  cbn [flat_map]. rewrite appended_app, IH, management_lines.
  pose proof (permitted_words "ARGOS_INPUT" r Hr). pose proof (permitted_words "ARGOS_OUTPUT" r Hr).
  assert (forall a b, appended chain [a; b] = appended chain [a] ++ appended chain [b]) as Hsplit
    by (intros a b; by rewrite <- appended_app).
  destruct (mr_inbound r); rewrite Hsplit, !appended_line by (done || (unfold the_chains; set_solver));
    apply the_chains_cases in Hin; destruct_or! Hin; subst; reflexivity.
Qed.

Lemma Forall_filter {A} (P Q : A -> Prop) `{forall x, Decision (Q x)} (l : list A) : Forall P l -> Forall P (filter Q l).
Proof. rewrite !Forall_forall. intros Hl x [_ Hx]%list_elem_of_filter. auto. Qed.

Lemma remove_jumps_clean snapshot :
  Forall no_newline (remove_jumps snapshot) /\ Forall (fun l => str_starts_with "-A" l = false) (remove_jumps snapshot).
Proof.
  unfold remove_jumps. rewrite !Forall_map. split.
  - apply Forall_filter. eapply Forall_impl; [apply lines_clean|]. apply replaced_clean.
  - apply Forall_forall. intros l _. apply replaced_not_append.
Qed.

Lemma line_clean chain condition target :
  Forall (fun s => is_word s = true) (chain :: condition ++ ["-j"; target]) -> no_newline (rule_line chain condition target).
Proof. intros Hw. apply plain_line, concat_plain. by constructor. Qed.

Lemma management_clean rs : Forall rule_ok rs -> Forall no_newline (flat_map management_rules rs).
Proof.
  intros Hrs. induction Hrs as [|r rs Hr Hrs IH]; [constructor|]. cbn [flat_map]. apply Forall_app. split; [|done].
  rewrite management_lines. pose proof (permitted_words "ARGOS_INPUT" r Hr). pose proof (permitted_words "ARGOS_OUTPUT" r Hr).
  destruct (mr_inbound r); repeat constructor; apply line_clean; constructor; try done; apply Forall_app; split; try done; by repeat constructor.
Qed.

Lemma isolation_lines_clean rules ipv6 snapshot : Forall rule_ok rules -> Forall no_newline (isolation_lines rules ipv6 snapshot).
Proof.
  intros Hr. unfold isolation_lines. rewrite !Forall_app. split_and!; try (by repeat constructor).
  - apply remove_jumps_clean.
  - destruct (str_mem _ _); by repeat constructor.
  - destruct ipv6; by repeat constructor.
  - apply management_clean. by apply Forall_filter.
Qed.

(** The rules of a chain are the permitted conditions and the final DROP. *)
Lemma isolation_chain_rules rules ipv6 snapshot chain :
  Forall rule_ok rules -> chain ∈ the_chains ->
  chain_rules chain (isolation_script rules ipv6 snapshot)
  = map (fun condition => (condition, "ACCEPT")) (permitted rules ipv6 chain) ++ [([], "DROP")].
Proof.
  intros Hr Hin. unfold isolation_script. rewrite chain_rules_unlines by (by apply isolation_lines_clean).
  unfold isolation_lines. rewrite !appended_app.
  rewrite (appended_nothing chain (remove_jumps snapshot)) by apply remove_jumps_clean.
  rewrite (appended_nothing chain (if str_mem _ _ then _ else _)) by (destruct (str_mem _ _); by repeat constructor).
  rewrite appended_management by (done || by apply Forall_filter).
  unfold permitted. apply the_chains_cases in Hin. destruct_or! Hin; subst; cbn [String.eqb Ascii.eqb Bool.eqb].
  - change (String.eqb "ARGOS_INPUT" "ARGOS_FORWARD") with false. cbv iota. rewrite !map_app, map_map.
    destruct ipv6; rewrite <- !app_assoc; reflexivity.
  - change (String.eqb "ARGOS_OUTPUT" "ARGOS_FORWARD") with false. cbv iota. rewrite !map_app, map_map.
    destruct ipv6; rewrite <- !app_assoc; reflexivity.
  - destruct ipv6; reflexivity.
Qed.

(** C21: Once a script of the isolation is in force, a packet on one of its chains is
    decided there, and it is accepted only by the loopback interface, by the fixed
    neighbour discovery of IPv6 or by a management rule that was given; forwarded
    packets are always dropped. Nothing of the old rules of the host is carried into the
    chains, whatever the snapshot holds. *)
Theorem isolation_denies_by_default `{RustStd} {P} (matches : list string -> P -> bool) allow rules ipv6 snapshot chain p :
  parse_rules allow = Ok rules -> chain ∈ the_chains -> matches [] p = true ->
  exists target, verdict matches (chain_rules chain (isolation_script rules ipv6 snapshot)) p = Some target
  /\ (target = "ACCEPT" \/ target = "DROP")
  /\ (target = "ACCEPT" <-> exists condition, condition ∈ permitted rules ipv6 chain /\ matches condition p = true).
Proof.
  intros Hrules Hin Hm. rewrite isolation_chain_rules by (done || by eapply parse_rules_ok).
  induction (permitted rules ipv6 chain) as [|c cs IH]; cbn [map app verdict].
  - rewrite Hm. exists "DROP". split_and!; [done|by right|]. split; [done|]. by intros (c & Hc%elem_of_nil & _).
  - destruct (matches c p) eqn:Hc.
    + exists "ACCEPT". split_and!; [done|by left|]. split; [|done]. intros _. exists c. split; [apply list_elem_of_here|done].
    + destruct IH as (t & Hv & Ht & Ha). exists t. split_and!; [done|done|]. rewrite Ha. split.
      * intros (x & Hx & Hmx). exists x. split; [by apply list_elem_of_further|done].
      * intros (x & [->|Hx]%elem_of_cons & Hmx); [congruence|by exists x].
Qed.

(** * What the verification reads off a snapshot *)

Lemma verify_isolated `{RustStd} snapshot script base chain :
  verify snapshot script false = Ok tt -> (base, chain) ∈ CHAINS ->
  head (starting_with ("-A " +:+ base +:+ " ") snapshot) = Some ("-A " +:+ base +:+ " -j " +:+ chain)
  /\ length (starting_with ("-A " +:+ chain +:+ " ") snapshot) = length (starting_with ("-A " +:+ chain +:+ " ") script)
  /\ list.last (starting_with ("-A " +:+ chain +:+ " ") snapshot) = Some ("-A " +:+ chain +:+ " -j DROP").
Proof.
  unfold verify. intros Hv Hin. induction CHAINS as [|c cs IH]; [by apply elem_of_nil in Hin|].
  cbn [verify_chains] in Hv. destruct (verify_chain snapshot script c) as [[]|e] eqn:Hc; [|done].
  apply elem_of_cons in Hin as [<-|Hin]; [|by apply IH]. revert Hc. unfold verify_chain.
  destruct (bool_decide (head _ = _)) eqn:Hh; [|done]. cbn [negb guard res_bind].
  destruct (negb _ || _) eqn:Hb; [done|]. intros _.
  apply orb_false_iff in Hb as [Hl%negb_false_iff%Nat.eqb_eq Hd%negb_false_iff%bool_decide_eq_true].
  by apply bool_decide_eq_true in Hh.
Qed.

Lemma verify_released `{RustStd} snapshot script : verify snapshot script true = Ok tt <-> existing_chains snapshot = [].
Proof. unfold verify. by destruct (existing_chains snapshot). Qed.

(** * The order of the commands *)

(** Every command with its answer, in order. *)
Definition CommandLog : Type := list (FirewallCommand * result string IsolationError).
#[export] Instance logged_runner {R} `{FirewallRunner R} : FirewallRunner (R * CommandLog) := fun command w =>
  let '(r, answer) := run command w.1 in ((r, w.2 ++ [(command, answer)]), answer).

(** A restore that is not a test is the only command that changes the firewall. *)
Definition changes (command : FirewallCommand) : bool :=
  str_mem (fc_program command) ["iptables-restore"; "ip6tables-restore"] && negb (str_mem "--test" (fc_args command)).

Section Order.
Context `{RustStd} {R : Type} `{FirewallRunner R}.
Implicit Types w : (R * CommandLog)%type.

Definition extends {A} (m : Stateful (R * CommandLog) IsolationError A) : Prop :=
  forall w w' r, m w = (w', r) -> exists more, w'.2 = w.2 ++ more.

Lemma extends_run command : extends (run (R := R * CommandLog) command).
Proof.
  intros [r0 log] w' r. unfold run, logged_runner. cbn. destruct (run command r0) as [r1 a]. intros; simplify_eq. by eexists.
Qed.
Lemma extends_result {A} (r : result A IsolationError) : extends (st_result r).
Proof. intros w w' r' [= <- <-]. exists []. by rewrite app_nil_r. Qed.
Lemma extends_bind {A B} (m : Stateful (R * CommandLog) IsolationError A) (k : A -> Stateful (R * CommandLog) IsolationError B) :
  extends m -> (forall a, extends (k a)) -> extends (st_bind m k).
Proof.
  intros Hm Hk w w' r. unfold st_bind. destruct (m w) as [w1 [a|e]] eqn:E; intros Hx; simplify_eq.
  - apply Hm in E as [l1 E]. apply Hk in Hx as [l2 Hx]. exists (l1 ++ l2). by rewrite Hx, E, app_assoc.
  - by apply Hm in E.
Qed.
Lemma extends_map_err {A} f (m : Stateful (R * CommandLog) IsolationError A) : extends m -> extends (map_err f m).
Proof. intros Hm w w' r. unfold map_err. destruct (m w) as [w1 r1] eqn:E. intros; simplify_eq. by apply Hm in E. Qed.
#[local] Hint Resolve extends_run extends_result extends_bind extends_map_err : core.

Lemma extends_apply i plans : extends (apply_plans (R := R * CommandLog) i plans).
Proof. revert i. induction plans; intros; cbn [apply_plans]; auto. Qed.
Lemma extends_check ipv6 rules : extends (check_rules (R := R * CommandLog) ipv6 rules).
Proof. induction rules; cbn [check_rules]; auto. Qed.
#[local] Hint Resolve extends_apply extends_check : core.
Lemma extends_confirm release families : extends (confirm (R := R * CommandLog) release families).
Proof.
  induction families as [|[ipv6 plan] families IH]; cbn [confirm]; [auto|].
  apply extends_bind; [auto|]. intros snapshot. apply extends_bind; [auto|]. intros _.
  apply extends_bind; [destruct release; auto|auto].
Qed.
#[local] Hint Resolve extends_confirm : core.

Lemma run_Ok command w w' out : run command w = (w', Ok out) -> w'.2 = w.2 ++ [(command, Ok out)].
Proof. destruct w as [r0 log]. unfold run, logged_runner. cbn. destruct (run command r0) as [r1 a]. intros; by simplify_eq. Qed.

Lemma run_Err command w w' e : run command w = (w', Err e) -> w'.2 = w.2 ++ [(command, Err e)].
Proof. destruct w as [r0 log]. unfold run, logged_runner. cbn. destruct (run command r0) as [r1 a]. intros; by simplify_eq. Qed.

Definition script_for (rules : list ManagementRule) (release ipv6 : bool) (snapshot : string) : string :=
  if release then release_script snapshot else isolation_script rules ipv6 snapshot.
(** Both families were read and their scripts tested, in this order. *)
Definition preflight (rules : list ManagementRule) (release : bool) (s4 s6 : string) (log : CommandLog) : Prop :=
  exists t4 t6,
    log = [(read_command false, Ok s4); (read_command true, Ok s6);
           (test_of (restore_command false (script_for rules release false s4)), Ok t4);
           (test_of (restore_command true (script_for rules release true s6)), Ok t6)].

Definition preparing (entry : FirewallCommand * result string IsolationError) : Prop := changes entry.1 = false.

(** The next command succeeds, or ends the preparation. *)
Ltac next_command w' out L earlier :=
  match goal with
  | |- context [run ?c ?w] =>
      let R := fresh "R" in let e := fresh "e" in
      destruct (run c w) as [w' [out|e]] eqn:R;
      [ apply run_Ok in R as L
      | apply run_Err in R; intros; simplify_eq; right; exists e; rewrite R; earlier; by repeat constructor ]
  end.

(** Reading and testing either ends with the plans and the four answers, or fails
    after commands that changed nothing. *)
Lemma prepare_cases rules release (r : R) w' res :
  (sys? plans := make_plans rules release [false; true] in
   sys? _ := test_plans plans in st_result (Ok plans)) (r, []) = (w', res) ->
  (exists plans s4 s6, res = Ok plans /\ preflight rules release s4 s6 w'.2
     /\ plans = [restore_command false (script_for rules release false s4); restore_command true (script_for rules release true s6)])
  \/ (exists e, res = Err e /\ Forall preparing w'.2).
Proof.
  cbn [make_plans test_plans]. unfold st_bind, st_result.
  next_command w1 s4 L1 ltac:(idtac). next_command w2 s6 L2 ltac:(rewrite L1).
  cbn [test_plans]. unfold st_bind, st_result. next_command w3 t4 L3 ltac:(rewrite L2, L1).
  next_command w4 t6 L4 ltac:(rewrite L3, L2, L1).
  intros; simplify_eq. left. eexists _, s4, s6. split_and!; [done| |done].
  exists t4, t6. rewrite L4, L3, L2, L1. done.
Qed.

Lemma execute_phases allow release w :
  execute allow release w =
    match parse_rules allow with
    | Err e => (w, Err e)
    | Ok rules =>
        match (sys? plans := make_plans rules release [false; true] in
               sys? _ := test_plans plans in st_result (Ok plans)) w with
        | (w1, Ok plans) => (sys? _ := apply_plans 0 plans in confirm release (zip [false; true] plans)) w1
        | (w1, Err e) => (w1, Err e)
        end
    end.
Proof.
  unfold execute, st_bind, st_result. destruct (parse_rules allow) as [rules|]; [|done].
  destruct (make_plans rules release [false; true] w) as [w1 [plans|e]]; [|done].
  by destruct (test_plans plans w1) as [w2 [[]|e]].
Qed.

(** Isolation and release change the firewall of neither family before the rules
    are accepted, both families are read and both scripts, built from what was read,
    have passed the test of the tool; when any of this fails the error is reported
    and nothing was changed. *)
Theorem unchanged_until_preflight allow release (r r' : R) log res :
  execute allow release (r, []) = ((r', log), res) ->
  (exists e, res = Err e /\ Forall preparing log)
  \/ exists rules s4 s6 before after, parse_rules allow = Ok rules /\ preflight rules release s4 s6 before /\ log = before ++ after.
Proof.
  rewrite execute_phases. destruct (parse_rules allow) as [rules|e];
    [|intros; simplify_eq; left; exists e; split; [done|constructor]].
  match goal with |- (match ?prep with _ => _ end = _ -> _) => destruct prep as [w1 res1] eqn:Hprep end.
  destruct (prepare_cases _ _ _ _ _ Hprep) as [(plans & s4 & s6 & -> & Hpre & _)|(e & -> & Hall)].
  - intros Hx. right.
    assert (extends (sys? _ := apply_plans (R := R * CommandLog) 0 plans in confirm release (zip [false; true] plans))) as Hext by auto.
    apply Hext in Hx as [more Hlog]. cbn in Hlog. by exists rules, s4, s6, w1.2, more.
  - intros; simplify_eq. left. by exists e.
Qed.

Lemma map_err_Ok {A} f (m : Stateful (R * CommandLog) IsolationError A) w w' a :
  map_err (E' := IsolationError) f m w = (w', Ok a) -> m w = (w', Ok a).
Proof. unfold map_err. destruct (m w) as [w1 [x|]]; intros; by simplify_eq. Qed.

Lemma extends_kept {A} (m : Stateful (R * CommandLog) IsolationError A) w w' r x :
  extends m -> m w = (w', r) -> x ∈ w.2 -> x ∈ w'.2.
Proof. intros Hm [more ->]%Hm Hx. apply elem_of_app. by left. Qed.

(** These commands ran one after the other, and each succeeded. *)
Definition ran (commands : list FirewallCommand) (entries : CommandLog) : Prop :=
  map fst entries = commands /\ Forall (fun entry => is_ok entry.2 = true) entries.

Lemma ran_one w w' command out : run command w = (w', Ok out) -> ran [command] [(command, Ok out)] /\ w'.2 = w.2 ++ [(command, Ok out)].
Proof. intros Hr%run_Ok. split; [|done]. split; [done|]. by repeat constructor. Qed.
Lemma ran_cons command out commands entries : ran commands entries -> ran (command :: commands) ((command, Ok out) :: entries).
Proof. intros [<- Hall]. split; [done|]. by constructor. Qed.

Lemma apply_ran i plans w w' : apply_plans i plans w = (w', Ok tt) -> exists entries, w'.2 = w.2 ++ entries /\ ran plans entries.
Proof.
  revert i w. induction plans as [|plan plans IH]; intros i w; cbn [apply_plans].
  - intros [-> _]%st_result_Ok. exists []. rewrite app_nil_r. by repeat constructor.
  - intros (out & w1 & Hr%map_err_Ok%run_Ok & (entries & Hl & He)%IH)%st_bind_Ok. exists ((plan, Ok out) :: entries).
    rewrite Hl, Hr, <- app_assoc. split; [done|]. by apply ran_cons.
Qed.

Lemma check_ran ipv6 rules w w' :
  check_rules ipv6 rules w = (w', Ok tt) -> exists entries, w'.2 = w.2 ++ entries /\ ran (map (check_command ipv6) rules) entries.
Proof.
  revert w. induction rules as [|rule rules IH]; intros w; cbn [check_rules map].
  - intros [-> _]%st_result_Ok. exists []. rewrite app_nil_r. by repeat constructor.
  - intros (out & w1 & Hr%map_err_Ok%run_Ok & (entries & Hl & He)%IH)%st_bind_Ok. exists ((check_command ipv6 rule, Ok out) :: entries).
    rewrite Hl, Hr, <- app_assoc. split; [done|]. by apply ran_cons.
Qed.

(** What a snapshot must show: after an isolation, for each base chain, the jump to the
    chain of the agent comes first, and that chain has as many rules as the script and
    ends in DROP; after a release, none of the chains of the agent. *)
Definition shows (release : bool) (script snapshot : string) : Prop :=
  if release then existing_chains snapshot = []
  else forall base chain, (base, chain) ∈ CHAINS ->
    head (starting_with ("-A " +:+ base +:+ " ") snapshot) = Some ("-A " +:+ base +:+ " -j " +:+ chain)
    /\ length (starting_with ("-A " +:+ chain +:+ " ") snapshot) = length (starting_with ("-A " +:+ chain +:+ " ") script)
    /\ list.last (starting_with ("-A " +:+ chain +:+ " ") snapshot) = Some ("-A " +:+ chain +:+ " -j DROP").

(** The confirmation of one family: its state is read again and shows the script, and
    then the tool confirms every single rule of an isolation, in order. *)
Definition confirmation (release ipv6 : bool) (script : string) (entries : CommandLog) : Prop :=
  exists snapshot checks, entries = (read_command ipv6, Ok snapshot) :: checks /\ shows release script snapshot
  /\ ran (if release then [] else map (check_command ipv6) (starting_with "-A " script)) checks.

Lemma confirm_log release ipv6 script families w w' :
  confirm release ((ipv6, restore_command ipv6 script) :: families) w = (w', Ok tt) ->
  exists w1 entries, confirmation release ipv6 script entries /\ w1.2 = w.2 ++ entries /\ confirm release families w1 = (w', Ok tt).
Proof.
  cbn [confirm]. intros (snapshot & w1 & Hr%map_err_Ok%run_Ok & Hx)%st_bind_Ok.
  apply st_bind_Ok in Hx as ([] & w2 & [-> Hv]%st_result_Ok & Hx).
  apply st_bind_Ok in Hx as ([] & w3 & Hc & Hx). exists w3.
  assert (exists checks, w3.2 = w1.2 ++ checks
            /\ ran (if release then [] else map (check_command ipv6) (starting_with "-A " script)) checks) as (checks & Hl & Hck).
  { destruct release; [|by apply check_ran in Hc]. apply st_result_Ok in Hc as [-> _]. exists []. rewrite app_nil_r. by repeat constructor. }
  exists ((read_command ipv6, Ok snapshot) :: checks). split_and!; [|by rewrite Hl, Hr, <- app_assoc|done].
  exists snapshot, checks. split_and!; [done| |done]. unfold shows. cbn in Hv. destruct release; [by apply verify_released in Hv|].
  intros base chain. by apply verify_isolated.
Qed.

(** C9: Success is never reported on trust. The commands of a successful run are, in this
    order: both families are read; the scripts built from what was read are tested; both
    are applied; and after that, family by family, the state is read back and shows the
    script (the jumps, the number of rules and the final DROP; after a release no chain
    of the agent), and the tool confirms every single rule. Each of them succeeded, and
    nothing else was run. *)
Theorem success_is_verified allow release (r r' : R) log :
  execute allow release (r, []) = ((r', log), Ok tt) ->
  exists rules s4 s6 before applied confirm4 confirm6, parse_rules allow = Ok rules /\
    let script4 := script_for rules release false s4 in
    let script6 := script_for rules release true s6 in
    log = before ++ applied ++ confirm4 ++ confirm6
    /\ preflight rules release s4 s6 before
    /\ ran [restore_command false script4; restore_command true script6] applied
    /\ confirmation release false script4 confirm4 /\ confirmation release true script6 confirm6.
Proof.
  rewrite execute_phases. destruct (parse_rules allow) as [rules|e]; [|done].
  match goal with |- (match ?prep with _ => _ end = _ -> _) => destruct prep as [w1 res1] eqn:Hprep end.
  destruct (prepare_cases _ _ _ _ _ Hprep) as [(plans & s4 & s6 & -> & Hpre & ->)|(e & -> & Hall)]; [|done].
  intros ([] & w2 & (applied & Hl2 & Ha)%apply_ran & Hconf)%st_bind_Ok. cbn [zip zip_with] in Hconf.
  apply confirm_log in Hconf as (w3 & confirm4 & H4 & Hl3 & (w4 & confirm6 & H6 & Hl4 & Hend)%confirm_log).
  apply st_result_Ok in Hend as [Hlog _]. apply (f_equal snd) in Hlog. cbn in Hlog.
  exists rules, s4, s6, w1.2, applied, confirm4, confirm6. split_and!; try done.
  by rewrite Hlog, Hl4, Hl3, Hl2, <- !app_assoc.
Qed.

End Order.

(** * Runs with a small firewall *)

Module Firewall.

#[local] Existing Instance sample_std.

(** The filter tables of both families and whether the test of a script fails. *)
Record Tables := mkTables { table4 : string; table6 : string; test_fails : bool }.
Definition restored (input : string) : string :=
  unlines (map (fun l => replace_first " 1 -j" " -j" (replace_first "-I" "-A" l))
    (filter (fun l => str_starts_with ":" l || str_starts_with "-A" l || str_starts_with "-I" l = true) (lines input))).
#[local] Instance fake_runner : FirewallRunner Tables := fun command t =>
  let test := str_mem "--test" (fc_args command) in
  if test && test_fails t then (t, Err (Command (fc_program command) "invalid"))
  else if String.eqb (fc_program command) "iptables-save" then (t, Ok (table4 t))
  else if String.eqb (fc_program command) "ip6tables-save" then (t, Ok (table6 t))
  else if test then (t, Ok "")
  else if String.eqb (fc_program command) "iptables-restore" then (mkTables (restored (fc_input command)) (table6 t) (test_fails t), Ok "")
  else if String.eqb (fc_program command) "ip6tables-restore" then (mkTables (table4 t) (restored (fc_input command)) (test_fails t), Ok "")
  else (t, Ok "").

Definition old_rules : string := unlines [":ARGOS_ISOLATE - [0:0]"; "-A INPUT -j ARGOS_ISOLATE"; "-A INPUT -p tcp --dport 80 -j ACCEPT"].
Definition host (fails : bool) : Tables * CommandLog := (mkTables old_rules "" fails, []).
Definition allow : list string := ["in:192.0.2.20:22"; "out:[2001:db8::10]:443"].

Example rejected_ex :
  map (fun t => is_ok (parse_rule t))
    ["10.0.0.5"; "out:central.example.com:443"; "in:0.0.0.0/0:22"; "out:[::/0]:443"; "in:10.0.0.0/33:22"; "out:10.0.0.5:0";
     "out:10.0.0.5:65536"; "out:2001:db8::10:443"; "in:10.0.0.0/8:22"; "out:[2001:db8::10]:443"]
  = [false; false; false; false; false; false; false; false; true; true].
Proof. vm_compute. reflexivity. Qed.

Lemma parse_rule_explicit_witness :
  let r := mkManagementRule false "2001:db8::10" 443 true in
  parse_rule "out:[2001:DB8:0::0010]:443" = Ok r /\ rule_ok r.
Proof.
  split; [vm_compute; reflexivity|].
  apply (parse_rule_explicit "out:[2001:DB8:0::0010]:443"). vm_compute. reflexivity.
Defined.

Definition parsed : list ManagementRule :=
  [mkManagementRule true "192.0.2.20" 22 false; mkManagementRule false "2001:db8::10" 443 true].
(** A packet is the words of the only condition it meets. *)
Definition meets (condition packet : list string) : bool := bool_decide (condition = [] \/ condition = packet).
Lemma isolation_denies_by_default_witness :
  parse_rules allow = Ok parsed /\
  exists target, verdict meets (chain_rules "ARGOS_INPUT" (isolation_script parsed false old_rules)) ["-i"; "eth0"] = Some target
  /\ (target = "ACCEPT" \/ target = "DROP").
Proof.
  split; [vm_compute; reflexivity|].
  destruct (isolation_denies_by_default meets allow parsed false old_rules "ARGOS_INPUT" ["-i"; "eth0"])
    as (target & Hv & Ht & _); [vm_compute; reflexivity|apply list_elem_of_here|vm_compute; reflexivity|].
  exists target. split; [exact Hv|exact Ht].
Defined.

Lemma unchanged_until_preflight_witness :
  exists out, execute allow false (host true) = out /\ is_ok (snd out) = false /\ Forall preparing (snd (fst out)).
Proof.
  exists (execute allow false (host true)). split_and!; [reflexivity|vm_compute; reflexivity|].
  destruct (unchanged_until_preflight allow false (mkTables old_rules "" true) (fst (fst (execute allow false (host true))))
    (snd (fst (execute allow false (host true)))) (snd (execute allow false (host true)))) as [(e & _ & Hp)|(rules & s4 & s6 & before & after & _ & Hpre & Hlog)];
    [vm_compute; reflexivity|exact Hp|].
  exfalso. assert (length (snd (fst (execute allow false (host true)))) = 3%nat) as Hlen by (vm_compute; reflexivity).
  rewrite Hlog, length_app in Hlen. destruct Hpre as (t4 & t6 & ->). cbn in Hlen. lia.
Defined.

Lemma success_is_verified_witness :
  snd (execute allow false (host false)) = Ok tt /\
  exists rules s4 before applied confirm4 confirm6, parse_rules allow = Ok rules
    /\ snd (fst (execute allow false (host false))) = before ++ applied ++ confirm4 ++ confirm6
    /\ confirmation false false (script_for rules false false s4) confirm4.
Proof.
  split; [vm_compute; reflexivity|].
  destruct (success_is_verified allow false (mkTables old_rules "" false) (fst (fst (execute allow false (host false))))
    (snd (fst (execute allow false (host false))))) as (rules & s4 & s6 & before & applied & confirm4 & confirm6 & Hr & Hlog & _ & _ & H4 & _);
    [vm_compute; reflexivity|].
  exists rules, s4, before, applied, confirm4, confirm6. split; [exact Hr|]. split; [exact Hlog|exact H4].
Defined.

(** A second isolation replaces the first, and a release leaves nothing of it. *)
Definition again : Tables := fst (execute allow false (fst (execute allow false (mkTables old_rules "" false)))).
Example repeated_ex : table4 again = table4 (fst (execute allow false (mkTables old_rules "" false))).
Proof. vm_compute. reflexivity. Qed.
Example released_ex : existing_chains (table4 (fst (release_isolation again))) = [] /\ snd (release_isolation again) = Ok tt.
Proof. vm_compute. split; reflexivity. Qed.

End Firewall.
