(* ===== verification/Semantic.v ===== *)
(** Semantic observation of configuration files
    (crates/argos-agent/src/semantic.rs): the kinds of files, the normal form of
    their lines, bounded reading, and the alerts of the monitor. *)
From Stdlib Require Import ZArith Lia Ascii.
From stdpp Require Import base gmap sets strings list pretty.
From S2P Require Import Prelude RustPath RustStr F64 Common.
#[local] Open Scope Z_scope.
#[local] Arguments str_trim : simpl never.

(** * Kinds of files *)

Inductive Kind := Ssh | Sudo | Cron | Systemd.
#[export] Instance Kind_eq_dec : EqDecision Kind.
Proof. solve_decision. Defined.

Fixpoint str_ends_with (suffix s : string) : bool :=
  String.eqb suffix s || match s with EmptyString => false | String _ s' => str_ends_with suffix s' end.

(** [Path::extension]: behind the last dot, unless the name only starts with it. *)
Definition extension (path : string) : option string :=
  name ← file_name path; p ← rsplit_once "." name;
  if String.eqb p.1 "" then None else Some p.2.

Definition component_named (path : string) (named : string -> bool) : bool :=
  existsb (fun c => match c with Normal s => named s | _ => false end) (components path).

Definition kind_of (path : string) : option Kind :=
  name ← file_name path;
  if str_mem name ["authorized_keys"; "authorized_keys2"] then Some Ssh
  else if String.eqb name "sudoers" || component_named path (String.eqb "sudoers.d") then Some Sudo
  else if String.eqb name "crontab" || component_named path (fun s => str_mem s ["cron.d"; "cron"; "crontabs"]) then Some Cron
  else if is_some_and (extension path) (fun e => str_mem e ["service"; "timer"; "socket"])
          || (str_ends_with ".conf" name
              && component_named path (fun s => str_ends_with ".service.d" s || str_ends_with ".timer.d" s || str_ends_with ".socket.d" s))
       then Some Systemd
  else None.

Definition label (k : Kind) : string :=
  match k with
  | Ssh => "SSH 키/접속 제한" | Sudo => "관리자 권한 규칙"
  | Cron => "cron 자동 실행 등록" | Systemd => "systemd 서비스/자동 실행 설정"
  end.
Definition rule (k : Kind) : string :=
  match k with
  | Ssh => "linux.authorized_keys" | Sudo => "linux.sudoers" | Cron => "linux.cron" | Systemd => "linux.systemd"
  end.

(** * Characters *)

(** [str::chars], each as its bytes. *)
Definition continues (c : string) : bool := match c with String a _ => is_continuation a | EmptyString => false end.
Fixpoint chars (s : string) : list string :=
  match s with
  | EmptyString => []
  | String a s' =>
      match chars s' with
      | c :: cs => if continues c then String a c :: cs else String a "" :: c :: cs
      | [] => [String a ""]
      end
  end.
(** [char::is_whitespace]. *)
Definition blank (ch : string) : bool := trim_is_empty ch.
Definition backslash_char : string := String backslash "".
Definition quote_char : string := String (ascii_of_nat 34) "".
Definition apostrophe : string := "'".

(** * Normal form of a line *)

Record Normalizer := mkNormalizer {
  nz_result : string;
  nz_quote : option string;
  nz_escaped : bool;
  nz_space : bool;
}.
(** A pending blank is kept as one, except at the start. *)
Definition push_spaced (result : string) (space : bool) (ch : string) : string :=
  (if space && negb (String.eqb result "") then result +:+ " " else result) +:+ ch.
Definition normalize_char (n : Normalizer) (ch : string) : Normalizer :=
  if nz_escaped n then mkNormalizer (nz_result n +:+ ch) (nz_quote n) false (nz_space n)
  else if String.eqb ch backslash_char then
    mkNormalizer (push_spaced (nz_result n) (nz_space n) ch) (nz_quote n) true false
  else
    let quote :=
      if bool_decide (Some ch = nz_quote n) then None
      else if negb (is_some (nz_quote n)) && (String.eqb ch apostrophe || String.eqb ch quote_char) then Some ch
      else nz_quote n in
    if blank ch && negb (is_some quote) then mkNormalizer (nz_result n) quote false true
    else mkNormalizer (push_spaced (nz_result n) (nz_space n) ch) quote false false.

(** The errors carry fixed texts. *)
Definition UNCLOSED : string := "닫히지 않은 인용/이스케이프".
Definition KEY_ENCODING : string := "SSH 키 인코딩 형식 오류".
Definition KEY_FORMAT : string := "SSH 키 형식 미지원/불완전".
Definition NO_ASSIGNMENT : string := "systemd 대입 구문 아님".
Definition NO_SECTION : string := "systemd 섹션/키 없음".
Definition TOO_MANY : string := "설정 항목 상한 초과".
Definition UNFINISHED : string := "미완성 연속 행".
Definition NOT_PLAIN : string := "일반 파일/읽기 예산 조건 불충족".
Definition CHANGED : string := "관측 도중 변경/읽기 예산 초과".
Definition NOT_UTF8 : string := "UTF-8 설정 아님".
Definition NOT_SUPPORTED : string := "지원하지 않는 설정".

Definition normalize (line : string) : result string string :=
  let n := fold_left normalize_char (chars line) (mkNormalizer "" None false false) in
  if is_some (nz_quote n) || nz_escaped n then Err UNCLOSED else Ok (nz_result n).

(** ** SSH records: up to the end of the key, without the comment *)

Record KeyScan := mkKeyScan {
  ks_quote : option string;
  ks_escaped : bool;
  ks_token : option string;
  ks_key_seen : bool;
  ks_before : string;
}.
Definition key_char (a : ascii) : bool :=
  let n := nat_of_ascii a in
  Nat.leb 48 n && Nat.leb n 57 || Nat.leb 65 n && Nat.leb n 90 || Nat.leb 97 n && Nat.leb n 122
  || Ascii.eqb a "+" || Ascii.eqb a "/" || Ascii.eqb a "=".
Definition key_type (token : string) : bool :=
  existsb (fun p => str_starts_with p token) ["ssh-"; "ecdsa-sha2-"; "sk-ssh-"; "sk-ecdsa-"].

(** [ks_token]: the text since the start of the token; [ks_before]: all text before the
    character at hand. *)
Fixpoint scan_key (s : KeyScan) (cs : list string) : result string string :=
  match cs with
  | [] => Err KEY_FORMAT
  | ch :: cs =>
      let before := ks_before s +:+ ch in
      if negb (is_some (ks_token s)) && blank ch then
        scan_key (mkKeyScan (ks_quote s) (ks_escaped s) None (ks_key_seen s) before) cs
      else
        let token := default "" (ks_token s) in
        let extended := Some (token +:+ ch) in
        if ks_escaped s then scan_key (mkKeyScan (ks_quote s) false extended (ks_key_seen s) before) cs
        else if String.eqb ch backslash_char then
          scan_key (mkKeyScan (ks_quote s) true extended (ks_key_seen s) before) cs
        else
          let quote :=
            if bool_decide (Some ch = ks_quote s) then None
            else if negb (is_some (ks_quote s)) && String.eqb ch quote_char then Some ch
            else ks_quote s in
          if blank ch && negb (is_some quote) then
            if ks_key_seen s then
              if str_all key_char token then normalize (ks_before s) else Err KEY_ENCODING
            else scan_key (mkKeyScan quote false None (key_type token) before) cs
          else scan_key (mkKeyScan quote false extended (ks_key_seen s) before) cs
  end.
Definition ssh_record (line : string) : result string string :=
  scan_key (mkKeyScan None false None false "") (chars line ++ [" "]).

(** * Entries of a file *)

Record ParseState := mkParseState {
  pa_entries : gset string;
  pa_section : string;
  pa_pending : string;
}.
Definition numbered (entries : gset string) (text : string) : string := pretty (Z.of_nat (size entries)) +:+ ":" +:+ text.

(** The text [parse] files for a line, or the section that it opens. *)
Definition entry_for (kind : Kind) (entries : gset string) (section line : string) : result (string + string) string :=
  match kind with
  | Systemd =>
      if str_starts_with "[" line && str_ends_with "]" line then Ok (inl line)
      else
        let? kv := ok_or (split_once "=" line) NO_ASSIGNMENT in
        let? _ := guard (String.eqb section "" || String.eqb (str_trim kv.1) "") NO_SECTION in
        Ok (inr (numbered entries (section +:+ ":" +:+ str_trim kv.1 +:+ "=" +:+ str_trim kv.2)))
  | _ => Ok (inr (numbered entries line))
  end.

Definition ignored_line (kind : Kind) (raw : string) : bool :=
  let sudo_directive := bool_decide (kind = Sudo)
    && (str_starts_with "#include" raw || match raw with String _ (String d _) => decimal_digit d | _ => false end) in
  String.eqb raw "" || (str_starts_with "#" raw && negb sudo_directive)
  || (bool_decide (kind = Systemd) && str_starts_with ";" raw).

(** [pending.pop()] of a trailing backslash. *)
Fixpoint pop (s : string) : string :=
  match s with EmptyString => "" | String _ EmptyString => "" | String c s' => String c (pop s') end.

Definition parse_line (kind : Kind) (s : ParseState) (raw : string) : result ParseState string :=
  let raw := str_trim raw in
  if ignored_line kind raw then Ok s
  else
    let pending := pa_pending s +:+ raw in
    if (bool_decide (kind = Sudo) || bool_decide (kind = Systemd)) && str_ends_with backslash_char pending
    then Ok (mkParseState (pa_entries s) (pa_section s) (pop pending +:+ " "))
    else
      let? line := if bool_decide (kind = Ssh) then ssh_record pending else normalize pending in
      let? e := entry_for kind (pa_entries s) (pa_section s) line in
      match e with
      | inl section => Ok (mkParseState (pa_entries s) section "")
      | inr entry =>
          let entries := {[entry]} ∪ pa_entries s in
          if 10000 <? Z.of_nat (size entries) then Err TOO_MANY else Ok (mkParseState entries (pa_section s) "")
      end.
Fixpoint parse_all (kind : Kind) (s : ParseState) (ls : list string) : result ParseState string :=
  match ls with
  | [] => Ok s
  | raw :: ls => let? s := parse_line kind s raw in parse_all kind s ls
  end.
Definition parse (kind : Kind) (text : string) : result (gset string) string :=
  let? s := parse_all kind (mkParseState ∅ "" "") (lines text) in
  if String.eqb (pa_pending s) "" then Ok (pa_entries s) else Err UNFINISHED.

(** * One look at a file *)

Record Snapshot := mkSnapshot {
  sn_entries : gset string;
  sn_permissions : option (Z * Z * Z);
}.
#[export] Instance Snapshot_eq_dec : EqDecision Snapshot.
Proof. solve_decision. Defined.

Record LookMeta := mkLookMeta {
  fm_is_file : bool;
  fm_len : Z;
  fm_modified : result Z string;
  fm_uid : Z;
  fm_gid : Z;
  fm_mode : Z;
}.
(** What the system calls of one look return; errors are their texts. *)
Inductive Look :=
  | Missing
  | OpenFailed (error : string)
  | Opened (before : result LookMeta string) (content : result string string) (after : result LookMeta string).

Definition snapshot (path : string) (limit : Z) (look : Look) : result Snapshot string :=
  match look with
  | Missing => Ok (mkSnapshot ∅ None)
  | OpenFailed e => Err e
  | Opened before content after =>
      let? before := before in
      let? _ := guard (negb (fm_is_file before) || (limit <? fm_len before)) NOT_PLAIN in
      let? content := content in
      let bytes := str_take (limit + 1) content in
      let? after := after in
      let? _ := guard ((limit <? slen bytes) || negb (fm_len before =? fm_len after)) CHANGED in
      let? m1 := fm_modified before in
      let? m2 := fm_modified after in
      let? _ := guard (negb (m1 =? m2)) CHANGED in
      let? _ := guard (negb (utf8_valid bytes)) NOT_UTF8 in
      let? kind := ok_or (kind_of path) NOT_SUPPORTED in
      let? entries := parse kind bytes in
      Ok (mkSnapshot entries (Some (fm_uid after, fm_gid after, Z.land (fm_mode after) 4095)))
  end.

(** * The monitor *)

Record SemanticConfig := mkSemanticConfig {
  sc_files : list string;
  sc_max_file_bytes : Z;
}.
Record SemanticMonitor := mkSemanticMonitor {
  sm_config : SemanticConfig;
  sm_previous : gmap string (option Snapshot);
  sm_unavailable : gset string;
}.

Definition has_parent_dir (path : string) : bool :=
  existsb (fun c => match c with ParentDir => true | _ => false end) (components path).
Fixpoint monitor_files (watch_paths : list string) (looks : string -> Look) (m : SemanticMonitor) (files : list string)
    : result SemanticMonitor string :=
  match files with
  | [] => Ok m
  | path :: files =>
      let? _ := guard (negb (is_absolute path) || has_parent_dir path || negb (is_some (kind_of path)))
                  ("semantic: 지원하는 설정 파일의 .. 없는 절대 경로 필요: " +:+ path) in
      let? _ := guard (negb (existsb (path_starts_with path) watch_paths))
                  ("semantic 파일은 watch_paths 안에 있어야 합니다: " +:+ path) in
      let initial := snapshot path (sc_max_file_bytes (sm_config m)) (looks path) in
      monitor_files watch_paths looks
        (mkSemanticMonitor (sm_config m) (<[path := res_ok initial]> (sm_previous m))
           (if is_ok initial then sm_unavailable m else {[path]} ∪ sm_unavailable m)) files
  end.
Definition monitor_new (config : SemanticConfig) (watch_paths : list string) (looks : string -> Look)
    : result SemanticMonitor string :=
  let? _ := guard ((1024 <? zlen (sc_files config)) || (sc_max_file_bytes config =? 0) || (1048576 <? sc_max_file_bytes config))
              "semantic: 최대 1024개 파일, 읽기 예산 1~1048576 바이트" in
  monitor_files watch_paths looks (mkSemanticMonitor config ∅ ∅) (sc_files config).

Definition unavailable_count (m : SemanticMonitor) : Z := Z.of_nat (size (sm_unavailable m)).

Definition semantic_detection (event : FileEvent) (the_rule : string) (score : f64) (severity : Severity) (summary : string) : Detection :=
  {| d_timestamp_ms := fe_timestamp_ms event; d_rule := the_rule; d_score := score; d_severity := severity;
     d_summary := summary; d_pid := fe_pid event; d_paths := [fe_path event] |}.
Definition bool_text (b : bool) : string := if b then "true" else "false".

(** [look]: what this observation finds at the path of the event. *)
Definition semantic_observe (m : SemanticMonitor) (event : FileEvent) (look : Look) : SemanticMonitor * option Detection :=
  let path := fe_path event in
  match sm_previous m !! path, kind_of path with
  | Some old, Some kind =>
      match snapshot path (sc_max_file_bytes (sm_config m)) look with
      | Err error =>
          (mkSemanticMonitor (sm_config m) (sm_previous m) ({[path]} ∪ sm_unavailable m),
           Some (semantic_detection event "health.semantic_unavailable" (f_of_Z 0) Low
                   (label kind +:+ " 분석 불가: " +:+ error +:+ "; 이전 관측 유지, 보호 범위 누락")))
      | Ok current =>
          (mkSemanticMonitor (sm_config m) (<[path := Some current]> (sm_previous m)) (sm_unavailable m ∖ {[path]}),
           match old with
           | None => Some (semantic_detection event "health.semantic_baseline" (f_of_Z 0) Low
                             (label kind +:+ " 최초 관측: 이전 내용 미수집, 정상 판정 아님"))
           | Some previous =>
               if bool_decide (current = previous) then None
               else
                 let added := size (sn_entries current ∖ sn_entries previous) in
                 let removed := size (sn_entries previous ∖ sn_entries current) in
                 Some (semantic_detection event (rule kind) (f_of_Z 70) High
                   (label kind +:+ " 변경: 추가 " +:+ pretty added +:+ ", 제거 " +:+ pretty removed +:+ ", 소유권/권한 변경 "
                    +:+ bool_text (negb (bool_decide (sn_permissions current = sn_permissions previous)))
                    +:+ ". 원문·명령·키 내용은 알림에서 제외"))
           end)
      end
  | _, _ => (m, None)
  end.

(** * Examples *)

Definition lines_of (ls : list string) : string := foldr (fun l rest => l +:+ String newline rest) "" ls.
Definition elements_of (kind : Kind) (ls : list string) : option (list string) :=
  elements <$> res_ok (parse kind (lines_of ls)).
Example sudo_ex : elements_of Sudo ["# note"; "alice   ALL=(root)   /bin/ls"] = Some ["0:alice ALL=(root) /bin/ls"].
Proof. vm_compute. reflexivity. Qed.
Example ssh_ex : elements_of Ssh ["command=" +:+ quote_char +:+ "echo ssh-fake AAAA" +:+ quote_char +:+ " ssh-ed25519 REAL human's comment"]
  = Some ["0:command=" +:+ quote_char +:+ "echo ssh-fake AAAA" +:+ quote_char +:+ " ssh-ed25519 REAL"].
Proof. vm_compute. reflexivity. Qed.
Example systemd_ex : elements_of Systemd ["#note"; "[Service]"; "User = root"; "ExecStart=/bin/a \"; "-b"]
  = Some ["1:[Service]:ExecStart=/bin/a -b"; "0:[Service]:User=root"].
Proof. vm_compute. reflexivity. Qed.
Example broken_ex : (elements_of Ssh ["broken"], elements_of Systemd ["ExecStart=/bin/true"]) = (None, None).
Proof. vm_compute. reflexivity. Qed.

(** * Lines without meaning *)

(** Comments and empty lines do not matter, wherever they stand. *)
Lemma ignored_lines_irrelevant (kind : Kind) (s : ParseState) (ls : list string) :
  parse_all kind s (filter (fun raw => ignored_line kind (str_trim raw) = false) ls) = parse_all kind s ls.
Proof.
  revert s. induction ls as [|raw ls IH]; intros s; [done|].
  destruct (ignored_line kind (str_trim raw)) eqn:Hi.
  - rewrite filter_cons_False by (by rewrite Hi). rewrite IH. cbn [parse_all]. unfold parse_line. by rewrite Hi.
  - rewrite filter_cons_True by done. cbn [parse_all]. destruct (parse_line kind s raw); [|done]. cbn [res_bind]. apply IH.
Qed.

Lemma parse_bounded (kind : Kind) (text : string) (entries : gset string) :
  parse kind text = Ok entries -> Z.of_nat (size entries) <= 10000.
Proof.
  assert (forall ls s s', Z.of_nat (size (pa_entries s)) <= 10000 -> parse_all kind s ls = Ok s' ->
    Z.of_nat (size (pa_entries s')) <= 10000) as Hall.
  { intros ls. induction ls as [|raw ls IH]; intros s s' Hs; cbn [parse_all]; [by intros [= <-]|].
    destruct (parse_line kind s raw) as [s1|] eqn:Hl; [|done]. cbn [res_bind]. apply IH. revert Hl. unfold parse_line.
    destruct (ignored_line _ _); [by intros [= <-]|]. destruct (_ && _); [by intros [= <-]|].
    destruct (if bool_decide (kind = Ssh) then _ else _) as [line|]; [|done]. cbn [res_bind].
    destruct (entry_for _ _ _ _) as [[section|entry]|]; [..|done]; cbn [res_bind]; [by intros [= <-]|].
    destruct (Z.ltb_spec 10000 (Z.of_nat (size ({[entry]} ∪ pa_entries s)))); [done|]. by intros [= <-]. }
  unfold parse. destruct (parse_all _ _ _) as [s|] eqn:Hp; [|done]. cbn [res_bind].
  destruct (String.eqb _ _); [|done]. intros [= <-]. eapply Hall; [|exact Hp]. cbn. by rewrite size_empty.
Qed.

(** * Errors never quote the file *)

Definition fixed_errors : list string :=
  [UNCLOSED; KEY_ENCODING; KEY_FORMAT; NO_ASSIGNMENT; NO_SECTION; TOO_MANY; UNFINISHED; NOT_PLAIN; CHANGED; NOT_UTF8; NOT_SUPPORTED].
Ltac fixed := unfold fixed_errors; set_solver.

Lemma normalize_error line e : normalize line = Err e -> e ∈ fixed_errors.
Proof. unfold normalize. destruct (_ || _); [intros [= <-]; fixed|done]. Qed.

Lemma scan_key_error cs s e : scan_key s cs = Err e -> e ∈ fixed_errors.
Proof.
  revert s. induction cs as [|ch cs IH]; intros s; cbn [scan_key]; [intros [= <-]; fixed|].
  repeat case_match; first [apply IH | apply normalize_error | intros [= <-]; fixed].
Qed.

Lemma parse_line_error kind s raw e : parse_line kind s raw = Err e -> e ∈ fixed_errors.
Proof.
  unfold parse_line. destruct (ignored_line _ _); [done|]. destruct (_ && _); [done|].
  destruct (if bool_decide (kind = Ssh) then _ else _) as [line|] eqn:Hl; cbn [res_bind].
  - destruct (entry_for _ _ _ _) as [[section|entry]|] eqn:He; cbn [res_bind]; [done| |].
    + destruct (_ <? _); [intros [= <-]; fixed|done].
    + intros [= <-]. revert He. unfold entry_for. destruct kind; [done..|].
      destruct (_ && _); [done|]. destruct (split_once _ _); cbn; [|intros [= <-]; fixed].
      unfold guard. destruct (_ || _); cbn; [intros [= <-]; fixed|done].
  - intros [= <-]. revert Hl. destruct (bool_decide _); [apply scan_key_error|apply normalize_error].
Qed.

Lemma parse_error kind text e : parse kind text = Err e -> e ∈ fixed_errors.
Proof.
  assert (forall ls s, parse_all kind s ls = Err e -> e ∈ fixed_errors) as Hall.
  { intros ls. induction ls as [|raw ls IH]; intros s; cbn [parse_all]; [done|].
    destruct (parse_line kind s raw) as [s1|e1] eqn:Hl; cbn [res_bind]; [apply IH|].
    intros [= <-]. by eapply parse_line_error. }
  unfold parse. destruct (parse_all _ _ _) as [s|e1] eqn:Hp; cbn [res_bind].
  - destruct (String.eqb _ _); [done|]. intros [= <-]; fixed.
  - intros [= <-]. by eapply Hall.
Qed.

(** The texts of the failed system calls of a look. *)
Definition system_error (look : Look) (e : string) : Prop :=
  match look with
  | Missing => False
  | OpenFailed e' => e = e'
  | Opened before content after =>
      before = Err e \/ content = Err e \/ after = Err e
      \/ exists m, (before = Ok m \/ after = Ok m) /\ fm_modified m = Err e
  end.

Lemma snapshot_error path limit look e : snapshot path limit look = Err e -> e ∈ fixed_errors \/ system_error look e.
Proof.
  destruct look as [|e'|before content after]; cbn [snapshot]; [done|intros [= <-]; by right|].
  destruct before as [b|]; cbn [res_bind]; [|intros [= <-]; right; by left].
  unfold guard. destruct (_ || _); cbn [res_bind]; [intros [= <-]; left; fixed|].
  destruct content as [c|]; cbn [res_bind]; [|intros [= <-]; right; right; by left].
  destruct after as [a|]; cbn [res_bind]; [|intros [= <-]; right; do 2 right; by left].
  destruct (_ || _); cbn [res_bind]; [intros [= <-]; left; fixed|].
  destruct (fm_modified b) as [m1|] eqn:H1; cbn [res_bind]; [|intros [= <-]; right; do 3 right; exists b; auto].
  destruct (fm_modified a) as [m2|] eqn:H2; cbn [res_bind]; [|intros [= <-]; right; do 3 right; exists a; auto].
  destruct (negb (m1 =? m2)); cbn [res_bind]; [intros [= <-]; left; fixed|].
  destruct (negb (utf8_valid _)); cbn [res_bind]; [intros [= <-]; left; fixed|].
  destruct (kind_of path); cbn [ok_or res_bind]; [|intros [= <-]; left; fixed].
  destruct (parse _ _) as [entries|] eqn:Hp; cbn [res_bind]; [done|]. intros [= <-]. left. by eapply parse_error.
Qed.

(** All that an alert can say. *)
Inductive Disclosure :=
  | Unavailable (error : string)
  | Baseline
  | Difference (added removed : nat) (permissions : bool).
Definition disclosure_text (kind : Kind) (d : Disclosure) : string :=
  match d with
  | Unavailable error => label kind +:+ " 분석 불가: " +:+ error +:+ "; 이전 관측 유지, 보호 범위 누락"
  | Baseline => label kind +:+ " 최초 관측: 이전 내용 미수집, 정상 판정 아님"
  | Difference added removed permissions =>
      label kind +:+ " 변경: 추가 " +:+ pretty added +:+ ", 제거 " +:+ pretty removed +:+ ", 소유권/권한 변경 "
      +:+ bool_text permissions +:+ ". 원문·명령·키 내용은 알림에서 제외"
  end.

(** An alert names the file and nothing of its content: its text is one of three
    fixed forms, filled with two counts and a flag, or with an error that is one
    of the fixed texts of the parser or comes from a failed system call. *)
Theorem alert_reveals_no_content m event look m' d :
  semantic_observe m event look = (m', Some d) ->
  d_paths d = [fe_path event] /\ d_pid d = fe_pid event
  /\ exists kind info, kind_of (fe_path event) = Some kind /\ d_summary d = disclosure_text kind info
     /\ match info with Unavailable e => e ∈ fixed_errors \/ system_error look e | _ => True end.
Proof.
  unfold semantic_observe. destruct (sm_previous m !! fe_path event) as [old|]; [|done].
  destruct (kind_of (fe_path event)) as [kind|] eqn:Hk; [|done].
  destruct (snapshot _ _ look) as [current|e] eqn:Hs.
  - destruct old as [previous|].
    + destruct (bool_decide _); [done|]. intros [= _ <-]. split_and!; [done..|].
      by eexists kind, (Difference _ _ _).
    + intros [= _ <-]. split_and!; [done..|]. by exists kind, Baseline.
  - intros [= _ <-]. split_and!; [done..|]. exists kind, (Unavailable e).
    split_and!; [done..|]. by eapply snapshot_error.
Qed.

(** * The monitor against its specification *)

Definition semantic_run (m : SemanticMonitor) (es : list (FileEvent * Look)) : SemanticMonitor :=
  fold_left (fun m x => fst (semantic_observe m x.1 x.2)) es m.

(** The content of the last look at a file that succeeded. *)
Definition last_seen (path : string) (limit : Z) (init : option Snapshot) (es : list (FileEvent * Look)) : option Snapshot :=
  fold_left (fun prev x =>
    if String.eqb (fe_path x.1) path then match snapshot path limit x.2 with Ok s => Some s | Err _ => prev end else prev) es init.

Lemma observe_config m event look : sm_config (fst (semantic_observe m event look)) = sm_config m.
Proof. unfold semantic_observe. repeat case_match; done. Qed.

Lemma run_tracks m es path init kind :
  sm_previous m !! path = Some init -> kind_of path = Some kind ->
  sm_config (semantic_run m es) = sm_config m
  /\ sm_previous (semantic_run m es) !! path = Some (last_seen path (sc_max_file_bytes (sm_config m)) init es).
Proof.
  revert m init. induction es as [|[event look] es IH]; intros m init Hp Hk; [done|].
  set (m1 := fst (semantic_observe m event look)).
  set (limit := sc_max_file_bytes (sm_config m)).
  set (init1 := if String.eqb (fe_path event) path
                then match snapshot path limit look with Ok s => Some s | Err _ => init end else init).
  change (sm_config (semantic_run m1 es) = sm_config m
          /\ sm_previous (semantic_run m1 es) !! path = Some (last_seen path limit init1 es)).
  assert (sm_config m1 = sm_config m) as Hm1 by apply observe_config.
  destruct (IH m1 init1) as [Hc Hr]; [|done|rewrite Hm1 in Hc, Hr; done].
  unfold m1, init1, semantic_observe. destruct (String.eqb_spec (fe_path event) path) as [He|Hne].
  - rewrite He, Hp, Hk. fold limit. destruct (snapshot path limit look) as [s|e]; cbn [fst sm_previous]; [apply lookup_insert_eq|done].
  - destruct (sm_previous m !! fe_path event) as [old|]; [|done]. destruct (kind_of (fe_path event)); [|done].
    destruct (snapshot _ _ _); cbn [fst sm_previous]; [|done]. by rewrite lookup_insert_ne.
Qed.

Lemma monitor_files_previous watch looks m files m' path :
  monitor_files watch looks m files = Ok m' ->
  sm_config m' = sm_config m /\
  (path ∈ files -> sm_previous m' !! path = Some (res_ok (snapshot path (sc_max_file_bytes (sm_config m)) (looks path)))
                   /\ is_Some (kind_of path)) /\
  (path ∉ files -> sm_previous m' !! path = sm_previous m !! path).
Proof.
  revert m. induction files as [|f files IH]; intros m; cbn [monitor_files].
  - intros [= <-]. split_and!; [done|by intros ?%elem_of_nil|done].
  - unfold guard. destruct (_ || _) eqn:Hg; cbn [res_bind]; [done|].
    destruct (negb (existsb _ _)); cbn [res_bind]; [done|]. intros (Hc & Hin & Hout)%IH. cbn [sm_config sm_previous] in *. split; [done|]. split.
    + destruct (decide (path ∈ files)) as [Hf|Hf]; [by intros _; apply Hin|].
      intros [->|?]%elem_of_cons; [|done]. rewrite Hout by done. rewrite lookup_insert_eq. split; [done|].
      rewrite !orb_false_iff, negb_false_iff in Hg. destruct Hg as [_ Hk]. unfold is_some in Hk. by destruct (kind_of f).
    + intros [Hne Hf]%not_elem_of_cons. rewrite Hout by done. by apply lookup_insert_ne.
Qed.

(** C25: Each successful look at an observed file is judged against the last successful
    one, however many looks failed in between: an alert is raised exactly when the
    normal form of the content or the ownership and permissions differ from it, with
    the counts of added and removed entries; after a start without a look that
    succeeded the first one is reported as a baseline, not as normal. *)
Theorem change_reported config watch looks m0 es event look current :
  monitor_new config watch looks = Ok m0 -> fe_path event ∈ sc_files config ->
  let path := fe_path event in let limit := sc_max_file_bytes config in
  let previous := last_seen path limit (res_ok (snapshot path limit (looks path))) es in
  snapshot path limit look = Ok current ->
  exists kind, kind_of path = Some kind /\
  snd (semantic_observe (semantic_run m0 es) event look) =
    match previous with
    | None => Some (semantic_detection event "health.semantic_baseline" (f_of_Z 0) Low (disclosure_text kind Baseline))
    | Some p =>
        if bool_decide (current = p) then None
        else Some (semantic_detection event (rule kind) (f_of_Z 70) High (disclosure_text kind
               (Difference (size (sn_entries current ∖ sn_entries p)) (size (sn_entries p ∖ sn_entries current))
                  (negb (bool_decide (sn_permissions current = sn_permissions p))))))
    end.
Proof.
  intros Hnew Hin path limit previous Hs. revert Hnew. unfold monitor_new.
  destruct (guard _ _); cbn [res_bind]; [|done].
  intros (Hc & Hprev & _)%(monitor_files_previous _ _ _ _ _ path). cbn [sm_config] in Hc, Hprev.
  destruct (Hprev Hin) as [Hp [kind Hk]]. exists kind. split; [done|].
  destruct (run_tracks _ es _ _ _ Hp Hk) as [Hc' Hlast]. rewrite Hc in Hc', Hlast.
  unfold semantic_observe. fold path. rewrite Hlast, Hk, Hc'. fold limit. rewrite Hs. fold previous.
  by destruct previous.
Qed.

Module SudoersFile.

Definition meta (mode : Z) : result LookMeta string := Ok (mkLookMeta true 24 (Ok 5) 0 0 mode).
Definition look (mode : Z) (text : string) : Look := Opened (meta mode) (Ok text) (meta mode).
Definition config : SemanticConfig := mkSemanticConfig ["/etc/sudoers"] 65536.
Definition event : FileEvent :=
  {| fe_timestamp_ms := 9; fe_pid := 4; fe_path := "/etc/sudoers"; fe_action := Modify; fe_size := None;
     fe_entropy := None; fe_content := None; fe_process := None |}.
Definition before : string -> Look := fun _ => look 33056 "alice ALL=(root) /bin/ls".
Definition after : Look := look 33056 "alice ALL=(ALL)  NOPASSWD: ALL".
Definition monitor : SemanticMonitor :=
  match monitor_new config ["/etc"] before with Ok m => m | Err _ => mkSemanticMonitor config ∅ ∅ end.
(** One look fails in between. *)
Definition es : list (FileEvent * Look) := [(event, OpenFailed "Permission denied (os error 13)")].
Definition changed : Snapshot := mkSnapshot {["0:alice ALL=(ALL) NOPASSWD: ALL"]} (Some (0, 0, 288)).

Lemma change_reported_witness :
  monitor_new config ["/etc"] before = Ok monitor /\ snapshot "/etc/sudoers" 65536 after = Ok changed /\
  d_summary <$> snd (semantic_observe (semantic_run monitor es) event after)
    = Some (disclosure_text Sudo (Difference 1 1 false)).
Proof.
  assert (snapshot "/etc/sudoers" 65536 after = Ok changed) as Hs by (vm_compute; reflexivity).
  split; [vm_compute; reflexivity|]. split; [exact Hs|].
  destruct (change_reported config ["/etc"] before monitor es event after changed) as (kind & Hk & ->);
    [vm_compute; reflexivity|apply list_elem_of_here|exact Hs|].
  revert Hk. vm_compute. intros [= <-]. reflexivity.
Defined.

Lemma alert_reveals_no_content_witness :
  exists d, snd (semantic_observe monitor event after) = Some d /\ d_paths d = ["/etc/sudoers"].
Proof.
  destruct (snd (semantic_observe monitor event after)) as [d|] eqn:Hd; [|vm_compute in Hd; discriminate Hd].
  exists d. split; [reflexivity|].
  apply (alert_reveals_no_content monitor event after (fst (semantic_observe monitor event after)) d).
  rewrite <- Hd. apply surjective_pairing.
Defined.

End SudoersFile.
