(* ===== verification/Coverage.v ===== *)
(** Sensor coverage (crates/argos-sensor/src/coverage.rs): the mount list of
    /proc, the baseline taken after registration and the bounded, read-only
    inspection that compares the present state with it. *)
From Stdlib Require Import ZArith Lia Ascii.
From stdpp Require Import base gmap strings list.
From S2P Require Import Prelude RustPath RustStr Common.
#[local] Open Scope Z_scope.

Definition MAX_DEPTH : Z := 64.

(** * Mount paths *)

Record Mount := mkMount {
  mt_id : Z;
  mt_point : string;
  mt_signature : string;
}.

#[export] Instance Mount_eq_dec : EqDecision Mount.
Proof. solve_decision. Defined.
(** The derived order; mount points compare as paths. The derived equality does
    too, which on accepted mount points is [eq] (lemma [mount_path_eq]). *)
#[export] Instance ord_Mount : Ord Mount := fun a b =>
  cmp (mt_id a, (components (mt_point a), mt_signature a))
      (mt_id b, (components (mt_point b), mt_signature b)).

Definition escaped (a b c : ascii) : option ascii :=
  match String a (String b (String c "")) with
  | "040" => Some " "%char
  | "011" => Some tab
  | "012" => Some newline
  | "134" => Some backslash
  | _ => None
  end.

Fixpoint decode_escapes (s : string) : option string :=
  match s with
  | EmptyString => Some ""
  | String c s' =>
      if Ascii.eqb c backslash then
        match s' with
        | String a (String b (String d rest)) =>
            x ← escaped a b d; String x <$> decode_escapes rest
        | _ => None
        end
      else if Ascii.eqb c "000" then None
      else String c <$> decode_escapes s'
  end.

Fixpoint double_slash (s : string) : bool :=
  match s with
  | String a ((String b _) as s') => (Ascii.eqb a "/" && Ascii.eqb b "/") || double_slash s'
  | _ => false
  end.
Definition not_canonical (path : string) : bool :=
  negb (is_absolute path)
  || existsb (fun c => String.eqb c "." || String.eqb c "..") (split_slash path)
  || (negb (String.eqb path "/") && (double_slash path || ends_with_slash path)).

Definition decode_mount_path (value : string) : result string string :=
  let? path := ok_or (decode_escapes value) "마운트 경로 escape 오류" in
  let? _ := guard (negb (utf8_valid path)) "마운트 경로 UTF-8 오류" in
  let? _ := guard (not_canonical path) "마운트 경로가 정규 절대 경로가 아닙니다" in
  Ok path.

(** * The mount list *)

Fixpoint position (p : string -> bool) (l : list string) : option nat :=
  match l with
  | [] => None
  | x :: l => if p x then Some 0%nat else S <$> position p l
  end.

(** One line; the field numbers are those of proc_pid_mountinfo(5). *)
Definition parse_mount (line : string) : result Mount string :=
  let parts := split_ascii_whitespace line in
  let part i := default "" (parts !! i) in
  let? split := ok_or (position (String.eqb "-") parts) "마운트 목록 형식 오류" in
  let? _ := guard (Nat.ltb split 6 || negb (Nat.eqb (length parts) (split + 4))) "마운트 목록 형식 오류" in
  let? id := ok_or (parse_u64 (part 0%nat)) "마운트 ID 오류" in
  let? _ := ok_or (parse_u64 (part 1%nat)) "마운트 부모 ID 오류" in
  let? mm := ok_or (split_once ":" (part 2%nat)) "마운트 장치 번호 오류" in
  let? _ := ok_or (parse_u64 mm.1) "마운트 장치 번호 오류" in
  let? _ := ok_or (parse_u64 mm.2) "마운트 장치 번호 오류" in
  let? _ := decode_mount_path (part 3%nat) in
  let? point := decode_mount_path (part 4%nat) in
  Ok (mkMount id point (String.concat " " parts)).

(** The loop over the lines; [mounts] and [ids] are what was read so far. *)
Fixpoint parse_lines (mounts : list Mount) (ids : list Z) (ls : list string) : result (list Mount) string :=
  match ls with
  | [] => Ok mounts
  | line :: ls =>
      let? _ := guard (65536 <=? zlen mounts) "마운트 목록 상한" in
      let? m := parse_mount line in
      let? _ := guard ((mt_id m =? 0) || bool_decide (mt_id m ∈ ids))
                  "마운트 ID/경로가 중복되어 범위를 결정할 수 없습니다" in
      parse_lines (mounts ++ [m]) (mt_id m :: ids) ls
  end.

Definition parse_mounts (text : string) : result (list Mount) string :=
  let? mounts := parse_lines [] [] (lines text) in
  let? _ := guard (bool_decide (mounts = [])) "빈 마운트 목록" in
  Ok (sort mounts).

(** [read_mounts]: the file's bytes, when it could be read. *)
Definition read_mounts (file : option string) : option (list Mount) :=
  bytes ← file;
  if 8 * 1024 * 1024 <? slen bytes then None
  else if negb (utf8_valid bytes) then None
  else res_ok (parse_mounts bytes).

Definition depth_of (m : Mount) : Z := zlen (components (mt_point m)).
Definition contains_path (path : string) (m : Mount) : bool := path_starts_with path (mt_point m).

Definition max_depth (path : string) (mounts : list Mount) : option Z :=
  match map depth_of (List.filter (contains_path path) mounts) with
  | [] => None
  | d :: ds => Some (foldr Z.max d ds)
  end.

Definition containing_mount (path : string) (mounts : list Mount) : option Mount :=
  depth ← max_depth path mounts;
  match List.filter (fun m => contains_path path m && (depth_of m =? depth)) mounts with
  | [m] => Some m
  | _ => None
  end.

Definition relevant_mounts (path : string) (mounts : list Mount) : list Mount :=
  let depth := max_depth path mounts in
  List.filter (fun m => (contains_path path m && bool_decide (Some (depth_of m) = depth))
                        || path_starts_with (mt_point m) path) mounts.

Fixpoint repeated_point (points : list string) (mounts : list Mount) : bool :=
  match mounts with
  | [] => false
  | m :: mounts => existsb (path_eq (mt_point m)) points || repeated_point (mt_point m :: points) mounts
  end.
Definition ambiguous_mount_scope (mounts : list Mount) : bool :=
  bool_decide (mounts = []) || repeated_point [] mounts.

(** * Reports *)

Record CoverageIssue := mkCoverageIssue {
  ci_code : string;
  ci_path : string;
}.

Record RootCoverage := mkRootCoverage {
  rc_configured_path : string;
  rc_registered_path : string;
  rc_entries_checked : Z;
  rc_skipped_symlinks : Z;
  rc_issues : list CoverageIssue;
  rc_omitted_issues : Z;
}.

(** [RootCoverage::issue]: at most 32 issues are listed, the others counted. *)
Definition issue (code path : string) (r : RootCoverage) : RootCoverage :=
  if zlen (rc_issues r) <? 32
  then mkRootCoverage (rc_configured_path r) (rc_registered_path r) (rc_entries_checked r)
         (rc_skipped_symlinks r) (rc_issues r ++ [mkCoverageIssue code path]) (rc_omitted_issues r)
  else mkRootCoverage (rc_configured_path r) (rc_registered_path r) (rc_entries_checked r)
         (rc_skipped_symlinks r) (rc_issues r) (sat_add (rc_omitted_issues r) 1).
Definition issue_if (bad : bool) (code path : string) (r : RootCoverage) : RootCoverage :=
  if bad then issue code path r else r.

Record CoverageReport := mkCoverageReport {
  cr_checked_at_ms : Z;
  cr_assessment : string;
  cr_mount_namespace : option string;
  cr_roots : list RootCoverage;
}.
Definition has_gap (r : CoverageReport) : bool := negb (String.eqb (cr_assessment r) "no_observed_gap").

(** * The scan of one root *)

Record Identity := mkIdentity {
  id_device : Z;
  id_inode : Z;
}.
#[export] Instance Identity_eq_dec : EqDecision Identity.
Proof. solve_decision. Defined.

Inductive FileKind : Set := Regular | Directory | Symlink | OtherKind.
#[export] Instance FileKind_eq_dec : EqDecision FileKind.
Proof. solve_decision. Defined.

Record Metadata := mkMetadata {
  md_kind : FileKind;
  md_identity : Identity;
}.

(** What the scan finds at an open descriptor: whether the time was up at the
    check of the budget, the metadata, the access check, the entries of a
    directory when they can be listed, and the metadata of the path
    afterwards. An entry comes with whether the time was up before it. *)
Inductive Node : Type :=
| mkNode (late : bool) (meta : option Metadata) (readable : bool)
    (entries : option (list (bool * Entry))) (after : option Metadata)
with Entry : Type :=
| EntryError
| NotUtf8
| Child (name : string) (opened : option Node).

(** The report and what is left of the budget. *)
Record Scan := mkScan {
  sn_report : RootCoverage;
  sn_remaining : Z;
}.
Definition on_report (f : RootCoverage -> RootCoverage) (s : Scan) : Scan :=
  mkScan (f (sn_report s)) (sn_remaining s).
Definition checked (r : RootCoverage) : RootCoverage :=
  mkRootCoverage (rc_configured_path r) (rc_registered_path r) (rc_entries_checked r + 1)
    (rc_skipped_symlinks r) (rc_issues r) (rc_omitted_issues r).
Definition skipped (r : RootCoverage) : RootCoverage :=
  mkRootCoverage (rc_configured_path r) (rc_registered_path r) (rc_entries_checked r)
    (rc_skipped_symlinks r + 1) (rc_issues r) (rc_omitted_issues r).
(** [budget.remaining -= 1] and [entries_checked += 1]. *)
Definition spend (s : Scan) : Scan := mkScan (checked (sn_report s)) (sn_remaining s - 1).

(** [Budget::take]. *)
Definition take_budget (late : bool) (path : string) (s : Scan) : Scan * bool :=
  if late then (on_report (issue "scan_time_limit" path) s, false)
  else if sn_remaining s =? 0 then (on_report (issue "scan_limit" path) s, false)
  else (spend s, true).

Definition path_changed (meta : Metadata) (after : option Metadata) : bool :=
  negb (bool_decide (md_identity <$> after = Some (md_identity meta))).

(** The loop over the entries of a directory; [visit] is the visit of an
    opened entry. *)
Section VisitEntries.
Variable visit : Node -> string -> Z -> Scan -> Scan.
Variables (path : string) (depth : Z).

Fixpoint visit_entries (entries : list (bool * Entry)) (s : Scan) : Scan :=
  match entries with
  | [] => s
  | (late, entry) :: entries =>
      if sn_remaining s =? 0 then on_report (issue "scan_limit" path) s
      else if late then on_report (issue "scan_time_limit" path) s
      else match entry with
      | EntryError =>
          visit_entries entries (on_report (issue "directory_entry_unreadable" path) (spend s))
      | NotUtf8 =>
          visit_entries entries (on_report (issue "non_utf8_path_not_inspected" path) (spend s))
      | Child name (Some child) =>
          visit_entries entries (visit child (path_join path name) (depth + 1) s)
      | Child name None =>
          visit_entries entries (on_report (issue "metadata_unavailable" (path_join path name)) (spend s))
      end
  end.
End VisitEntries.

Fixpoint visit_fd (n : Node) (path : string) (depth : Z) (s : Scan) : Scan :=
  let '(mkNode late meta readable entries after) := n in
  let '(s, ok) := take_budget late path s in
  if negb ok then s
  else match meta with
  | None => on_report (issue "metadata_unavailable" path) s
  | Some meta =>
      let finish s := on_report (issue_if (path_changed meta after) "path_changed_during_scan" path) s in
      match md_kind meta with
      | Symlink => on_report (issue "symlink_target_not_inspected" path) (on_report skipped s)
      | OtherKind => on_report (issue "nonregular_path_not_inspected" path) s
      | Regular => if negb readable then on_report (issue "read_access_denied" path) s else finish s
      | Directory =>
          if negb readable then on_report (issue "read_access_denied" path) s
          else if MAX_DEPTH <=? depth then on_report (issue "scan_depth_limit" path) s
          else match entries with
          | None => on_report (issue "directory_unreadable" path) s
          | Some entries => finish (visit_entries visit_fd path depth entries s)
          end
      end
  end.

(** [scan_tree]: [opened] is the descriptor of the root, with its metadata. *)
Definition scan_tree (root : string) (expected : Identity) (opened : option (option Metadata * Node))
    (s : Scan) : Scan :=
  match opened with
  | None => on_report (issue "metadata_unavailable" root) s
  | Some (meta, node) =>
      if is_some_and meta (fun m => negb (bool_decide (md_kind m = Symlink))
                                    && bool_decide (md_identity m = expected))
      then visit_fd node root 0 s
      else on_report (issue "root_changed_during_scan" root) s
  end.

(** * The inspector *)

Record Registration := mkRegistration {
  rg_configured : string;
  rg_canonical : string;
  rg_identity : Identity;
  rg_mounts : option (list Mount);
}.

Record CoverageInspector := mkCoverageInspector {
  in_roots : list Registration;
  in_sensor : SensorKind;
  in_max_entries : Z;
  in_marked_mounts : list Z;
  in_namespace : option string;
}.

(** What the system answers about one path to register: its canonical form,
    twice, and the metadata of that form; [None] where a call fails. *)
Record PathView := mkPathView {
  pv_configured : string;
  pv_canonical : option string;
  pv_meta : option Metadata;
  pv_canonical_again : option string;
}.

Definition register_path (mounts : option (list Mount)) (v : PathView) : result Registration string :=
  let? canonical := ok_or (pv_canonical v) "canonicalize" in
  let? _ := guard (negb (utf8_valid (pv_configured v)) || negb (utf8_valid canonical))
              "coverage 경로는 UTF-8이어야 합니다" in
  let? meta := ok_or (pv_meta v) "metadata" in
  let? again := if bool_decide (md_kind meta = Symlink) then Ok canonical
                else ok_or (pv_canonical_again v) "canonicalize" in
  let? _ := guard (bool_decide (md_kind meta = Symlink) || negb (path_eq again canonical))
              "coverage 기준 수집 중 경로가 변경되었습니다" in
  Ok (mkRegistration (pv_configured v) canonical (md_identity meta) (relevant_mounts canonical <$> mounts)).

Fixpoint register_paths (mounts : option (list Mount)) (views : list PathView)
    : result (list Registration) string :=
  match views with
  | [] => Ok []
  | v :: views =>
      let? r := register_path mounts v in
      let? rs := register_paths mounts views in
      Ok (r :: rs)
  end.

(** [CoverageInspector::new]: [before] and [after] are the mount list and the
    namespace read before and after the loop. *)
Definition inspector_new (views : list PathView) (sensor : SensorKind) (max_entries : Z)
    (before after : option (list Mount) * option string) : result CoverageInspector string :=
  let? _ := guard ((zlen views =? 0) || (128 <? zlen views)
                   || negb ((1 <=? max_entries) && (max_entries <=? 50000)))
              "coverage: 경로 1~128개, max_entries 1~50000 필요" in
  let? roots := register_paths before.1 views in
  let marked := omap (fun r => mounts ← before.1; mt_id <$> containing_mount (rg_canonical r) mounts) roots in
  let? _ := guard (negb (bool_decide (before.2 = after.2))
                   || existsb (fun r => negb (bool_decide
                        (rg_mounts r = (relevant_mounts (rg_canonical r) <$> after.1)))) roots)
              "coverage 기준 수집 중 마운트 정보가 변경되었습니다" in
  Ok (mkCoverageInspector roots sensor max_entries marked before.2).

Definition new_registered (views : list PathView) (registered : list string) (sensor : SensorKind)
    (max_entries : Z) (before after : option (list Mount) * option string)
    : result CoverageInspector string :=
  let? inspector := inspector_new views sensor max_entries before after in
  let? _ := guard (negb (zlen registered =? zlen (in_roots inspector))
                   || existsb (fun p => negb (path_eq (rg_canonical p.1) p.2))
                        (zip (in_roots inspector) registered))
              "센서 등록 경로와 coverage 기준 경로가 일치하지 않습니다" in
  Ok inspector.

(** What an inspection finds at one root. *)
Record RootView := mkRootView {
  rv_canonical : option string;
  rv_meta : option Metadata;
  rv_opened : option (option Metadata * Node);
  rv_meta_after : option Metadata;
  rv_canonical_after : option string;
  (** The time is up after the last root. *)
  rv_late : bool;
}.

Definition target_changed (r : Registration) (canonical : option string) : bool :=
  negb (is_some_and canonical (fun c => path_eq c (rg_canonical r))).
Definition root_replaced (r : Registration) (meta : option Metadata) : bool :=
  negb (is_some_and meta (fun m => negb (bool_decide (md_kind m = Symlink))
                                   && bool_decide (md_identity m = rg_identity r))).

(** The comparison of the mounts. *)
Definition check_mounts (i : CoverageInspector) (r : Registration) (mounts : option (list Mount))
    (row : RootCoverage) : RootCoverage :=
  let path := rg_canonical r in
  match rg_mounts r, mounts with
  | Some before, Some current =>
      let current := relevant_mounts path current in
      let row := issue_if (ambiguous_mount_scope current || ambiguous_mount_scope before)
                   "mount_scope_ambiguous" path row in
      let row := issue_if (negb (bool_decide (current = before))) "mount_topology_changed" path row in
      if bool_decide (in_sensor i = Fanotify) then
        foldl (fun row m => issue "fanotify_unmarked_mount" (mt_point m) row) row
          (List.filter (fun m => negb (bool_decide (mt_id m ∈ in_marked_mounts i))) current)
      else row
  | _, _ => issue "mount_topology_unknown" path row
  end.

(** One turn of the loop over the roots. *)
Definition inspect_root (i : CoverageInspector) (mounts : option (list Mount)) (namespace : option string)
    (remaining : Z) (r : Registration) (v : RootView) : Scan :=
  let path := rg_canonical r in
  let row := mkRootCoverage (rg_configured r) path 0 0 [] 0 in
  let row := issue_if (target_changed r (rv_canonical v)) "configured_target_changed_or_missing"
               (rg_configured r) row in
  let row := issue_if (root_replaced r (rv_meta v)) "registered_root_replaced_or_missing" path row in
  let row := issue_if (negb (bool_decide (namespace = in_namespace i)) || negb (is_some namespace))
               "mount_namespace_changed_or_unknown" path row in
  let row := check_mounts i r mounts row in
  let s := scan_tree path (rg_identity r) (rv_opened v) (mkScan row remaining) in
  let s := on_report (issue_if (root_replaced r (rv_meta_after v)) "root_changed_during_scan" path) s in
  on_report (issue_if (target_changed r (rv_canonical_after v)) "configured_target_changed_during_scan"
               (rg_configured r)) s.

Fixpoint inspect_roots (i : CoverageInspector) (mounts : option (list Mount)) (namespace : option string)
    (remaining : Z) (roots : list (Registration * RootView)) : list RootCoverage :=
  match roots with
  | [] => []
  | (r, v) :: roots =>
      let s := inspect_root i mounts namespace remaining r v in
      sn_report s :: inspect_roots i mounts namespace (sn_remaining s) roots
  end.

(** The checks after the loop. *)
Definition finish_root (namespace after_namespace : option string) (mounts after : option (list Mount))
    (row : RootCoverage) (r : Registration) (v : RootView) : RootCoverage :=
  let row := issue_if (rv_late v) "scan_time_limit" (rg_canonical r) row in
  issue_if (negb (bool_decide (namespace = after_namespace))
            || negb (bool_decide ((relevant_mounts (rg_canonical r) <$> mounts)
                                  = (relevant_mounts (rg_canonical r) <$> after))))
    "mounts_changed_during_scan" (rg_canonical r) row.

Definition row_gap (r : RootCoverage) : bool :=
  negb (bool_decide (rc_issues r = [])) || (0 <? rc_omitted_issues r).

(** [CoverageInspector::inspect]; one view per root. *)
Definition inspect (i : CoverageInspector) (now : Z) (before after : option (list Mount) * option string)
    (views : list RootView) : CoverageReport :=
  let roots := zip (in_roots i) views in
  let rows := inspect_roots i before.1 before.2 (in_max_entries i) roots in
  let rows := zip_with (fun row p => finish_root before.2 after.2 before.1 after.1 row p.1 p.2) rows roots in
  mkCoverageReport now (if existsb row_gap rows then "gap_or_incomplete" else "no_observed_gap")
    before.2 rows.

(** * What a scan without an issue has seen *)

(** The tree as the scan wants it: in time, metadata, access and entries read,
    nothing but directories and regular files down to [MAX_DEPTH], and the path
    still naming the same inode afterwards. *)
Section CleanEntries.
Variable clean : Node -> bool.
Definition clean_entry (e : bool * Entry) : bool :=
  negb e.1 && match e.2 with Child _ (Some child) => clean child | _ => false end.
End CleanEntries.
Fixpoint clean (depth : Z) (n : Node) : bool :=
  let '(mkNode late meta readable entries after) := n in
  negb late && is_some_and meta (fun meta =>
    readable && negb (path_changed meta after) &&
    match md_kind meta with
    | Regular => true
    | Directory =>
        (depth <? MAX_DEPTH)
        && is_some_and entries (fun es => forallb (clean_entry (clean (depth + 1))) es)
    | _ => false
    end).

(** The entries the tree has. *)
Section CountEntries.
Variable nodes : Node -> Z.
Definition entry_nodes (e : bool * Entry) : Z :=
  match e.2 with Child _ (Some child) => nodes child | _ => 1 end.
Fixpoint entries_nodes (es : list (bool * Entry)) : Z :=
  match es with [] => 0 | e :: es => entry_nodes e + entries_nodes es end.
End CountEntries.
Fixpoint nodes (n : Node) : Z :=
  let '(mkNode _ meta _ entries _) := n in
  1 + match meta, entries with
      | Some meta, Some es => if bool_decide (md_kind meta = Directory) then entries_nodes nodes es else 0
      | _, _ => 0
      end.

(** Induction over the entries of a directory. *)
Definition on_child (P : Node -> Prop) (e : bool * Entry) : Prop :=
  match e.2 with Child _ (Some child) => P child | _ => True end.
Section NodeInduction.
Variable P : Node -> Prop.
Hypothesis P_node : forall late meta readable entries after,
  match entries with Some es => Forall (on_child P) es | None => True end ->
  P (mkNode late meta readable entries after).
Fixpoint node_ind (n : Node) : P n.
Proof.
  destruct n as [late meta readable entries after]. apply P_node.
  destruct entries as [es|]; [|exact I]. induction es as [|[b e] es IH]; constructor; [|exact IH].
  destruct e as [| |name [child|]]; [exact I|exact I|apply node_ind|exact I].
Defined.
End NodeInduction.

Definition gap (s : Scan) : bool := row_gap (sn_report s).

Lemma issue_gap code path r : row_gap (issue code path r) = true.
Proof.
  unfold row_gap, issue. case_match eqn:E; simpl.
  - by destruct (rc_issues r).
  - destruct (rc_issues r); [done|]. by rewrite bool_decide_eq_false_2.
Qed.
Lemma issue_if_gap bad code path r : row_gap (issue_if bad code path r) = bad || row_gap r.
Proof. destruct bad; [apply issue_gap|done]. Qed.
Lemma on_issue_gap code path s : gap (on_report (issue code path) s) = true.
Proof. apply issue_gap. Qed.
Lemma on_issue_if_gap bad code path s :
  gap (on_report (issue_if bad code path) s) = bad || gap s.
Proof. apply issue_if_gap. Qed.
Lemma spend_gap s : gap (spend s) = gap s.
Proof. done. Qed.

(** The scan after [k] entries without an issue. *)
Definition advance (k : Z) (s : Scan) : Scan :=
  let r := sn_report s in
  mkScan (mkRootCoverage (rc_configured_path r) (rc_registered_path r) (rc_entries_checked r + k)
            (rc_skipped_symlinks r) (rc_issues r) (rc_omitted_issues r)) (sn_remaining s - k).
Lemma spend_advance s : spend s = advance 1 s.
Proof. done. Qed.
Lemma advance_0 s : advance 0 s = s.
Proof. destruct s as [[] ?]. unfold advance; simpl. by rewrite Z.add_0_r, Z.sub_0_r. Qed.
Lemma advance_add a b s : advance a (advance b s) = advance (b + a) s.
Proof. unfold advance; simpl. f_equal; [f_equal|]; lia. Qed.
Lemma advance_gap k s : gap (advance k s) = gap s.
Proof. done. Qed.
Lemma advance_remaining k s : sn_remaining (advance k s) = sn_remaining s - k.
Proof. done. Qed.

Lemma visit_fd_eq late meta readable entries after path depth s :
  visit_fd (mkNode late meta readable entries after) path depth s
  = let '(s, ok) := take_budget late path s in
    if negb ok then s
    else match meta with
    | None => on_report (issue "metadata_unavailable" path) s
    | Some meta =>
        let finish s := on_report (issue_if (path_changed meta after) "path_changed_during_scan" path) s in
        match md_kind meta with
        | Symlink => on_report (issue "symlink_target_not_inspected" path) (on_report skipped s)
        | OtherKind => on_report (issue "nonregular_path_not_inspected" path) s
        | Regular => if negb readable then on_report (issue "read_access_denied" path) s else finish s
        | Directory =>
            if negb readable then on_report (issue "read_access_denied" path) s
            else if MAX_DEPTH <=? depth then on_report (issue "scan_depth_limit" path) s
            else match entries with
            | None => on_report (issue "directory_unreadable" path) s
            | Some entries => finish (visit_entries visit_fd path depth entries s)
            end
        end
    end.
Proof. done. Qed.

(** What every step of the scan keeps: the issues stay, at most 32 are listed,
    and what the budget lost are the entries checked. *)
Definition row_bounded (r : RootCoverage) : Prop := zlen (rc_issues r) <= 32 /\ 0 <= rc_omitted_issues r.
Definition scan_le (s t : Scan) : Prop :=
  (gap s = true -> gap t = true)
  /\ rc_entries_checked (sn_report t) + sn_remaining t = rc_entries_checked (sn_report s) + sn_remaining s
  /\ (0 <= sn_remaining s -> 0 <= sn_remaining t <= sn_remaining s)
  /\ (row_bounded (sn_report s) -> row_bounded (sn_report t)).
#[export] Instance scan_le_preorder : PreOrder scan_le.
Proof.
  split; unfold scan_le.
  - intros s. split_and!; auto; lia.
  - intros s t u (A1 & A2 & A3 & A4) (B1 & B2 & B3 & B4). split_and!; auto; lia.
Qed.

Lemma issue_ok code path r : row_bounded r -> row_bounded (issue code path r).
Proof.
  unfold row_bounded, issue. intros [A B]. case_match eqn:E; simpl.
  - apply Z.ltb_lt in E. rewrite zlen_app, zlen_cons, zlen_nil. lia.
  - split; [done|]. unfold sat_add, u64_max. lia.
Qed.
Lemma issue_checked code path r : rc_entries_checked (issue code path r) = rc_entries_checked r.
Proof. unfold issue. by case_match. Qed.
Lemma on_issue_le code path s : scan_le s (on_report (issue code path) s).
Proof.
  unfold scan_le; simpl. rewrite on_issue_gap, issue_checked. split_and!; auto; [lia|by apply issue_ok].
Qed.
Lemma on_issue_if_le bad code path s : scan_le s (on_report (issue_if bad code path) s).
Proof. destruct bad; [apply on_issue_le|destruct s; reflexivity]. Qed.
Lemma spend_le s : sn_remaining s <> 0 -> scan_le s (spend s).
Proof. intros H. unfold scan_le. rewrite spend_gap. simpl. split_and!; auto; lia. Qed.

#[local] Hint Resolve on_issue_le on_issue_if_le : core.

Lemma take_budget_le late path s : scan_le s (take_budget late path s).1.
Proof.
  unfold take_budget. destruct late; [apply on_issue_le|].
  destruct (Z.eqb_spec (sn_remaining s) 0); [apply on_issue_le|by apply spend_le].
Qed.

Lemma skipped_le s : scan_le s (on_report skipped s).
Proof. unfold scan_le; simpl. split_and!; auto; lia. Qed.

Lemma visit_entries_le visit path depth es s :
  Forall (on_child (fun n => forall path depth s, scan_le s (visit n path depth s))) es ->
  scan_le s (visit_entries visit path depth es s).
Proof.
  intros Hes. revert s. induction Hes as [|[late e] es He Hes IH]; intros s; simpl; [reflexivity|].
  case_match eqn:E; [auto|]. apply Z.eqb_neq in E. case_match; [auto|].
  assert (Hspend : forall code path, scan_le s (on_report (issue code path) (spend s)))
    by (intros; etrans; [apply spend_le; done|auto]).
  destruct e as [| |name [child|]]; (etrans; [|apply IH]); [apply Hspend..|apply He|apply Hspend].
Qed.

Lemma visit_fd_le n path depth s : scan_le s (visit_fd n path depth s).
Proof.
  revert path depth s. induction n as [late meta readable entries after IH] using node_ind.
  intros path depth s. rewrite visit_fd_eq.
  pose proof (take_budget_le late path s) as Ht. destruct (take_budget late path s) as [s1 ok]; simpl in Ht.
  etrans; [exact Ht|]. destruct ok; simpl; [|reflexivity]. destruct meta as [meta|]; [|auto].
  destruct (md_kind meta), readable; simpl; auto; [|etrans; [apply skipped_le|auto]..].
  destruct (MAX_DEPTH <=? depth); [auto|]. destruct entries as [es|]; [|auto].
  etrans; [by apply visit_entries_le|auto].
Qed.

(** A clean tree within the budget is visited without an issue, all of it. *)
Lemma nodes_pos n : 1 <= nodes n.
Proof.
  induction n as [late meta readable entries after IH] using node_ind. simpl.
  destruct meta as [meta|]; [|lia]. destruct entries as [es|]; [|lia]. case_match; [|lia].
  enough (0 <= entries_nodes nodes es) by lia.
  induction IH as [|[b e] es He _ IHes]; simpl; [lia|]. unfold entry_nodes; simpl.
  destruct e as [| |name [child|]]; [lia..|unfold on_child in He; simpl in He; lia|lia].
Qed.
Lemma entry_nodes_pos e : 1 <= entry_nodes nodes e.
Proof. unfold entry_nodes. repeat case_match; try lia. apply nodes_pos. Qed.
Lemma entries_nodes_nonneg es : 0 <= entries_nodes nodes es.
Proof. induction es as [|e es IH]; simpl; [lia|]. pose proof (entry_nodes_pos e). lia. Qed.

Lemma take_budget_ok path s :
  0 < sn_remaining s -> take_budget false path s = (advance 1 s, true).
Proof. intros H. unfold take_budget. rewrite (proj2 (Z.eqb_neq _ _)) by lia. done. Qed.

Lemma visit_entries_clean path depth es s :
  Forall (on_child (fun n => forall path depth s,
    clean depth n = true -> nodes n <= sn_remaining s ->
    visit_fd n path depth s = advance (nodes n) s)) es ->
  forallb (clean_entry (clean (depth + 1))) es = true ->
  entries_nodes nodes es <= sn_remaining s ->
  visit_entries visit_fd path depth es s = advance (entries_nodes nodes es) s.
Proof.
  intros Hes. revert s. induction Hes as [|[late e] es He Hes IH]; intros s; simpl; [by rewrite advance_0|].
  unfold clean_entry at 1; simpl. intros Hc Hn. apply andb_true_iff in Hc as [Hc Hrest].
  apply andb_true_iff in Hc as [Hlate Hc]. destruct late; [done|].
  pose proof (entry_nodes_pos (false, e)) as Hpos. pose proof (entries_nodes_nonneg es) as Hnn.
  rewrite (proj2 (Z.eqb_neq _ _)) by lia.
  destruct e as [| |name [child|]]; try done. unfold entry_nodes in *; simpl in *.
  rewrite (He _ _ s Hc) by lia. rewrite IH, advance_add; [done|done|rewrite advance_remaining; lia].
Qed.

Lemma visit_fd_clean n path depth s :
  clean depth n = true -> nodes n <= sn_remaining s -> visit_fd n path depth s = advance (nodes n) s.
Proof.
  revert path depth s. induction n as [late meta readable entries after IH] using node_ind.
  intros path depth s Hc Hn. pose proof (nodes_pos (mkNode late meta readable entries after)) as Hpos.
  rewrite visit_fd_eq. simpl in Hc, Hn |- *. apply andb_true_iff in Hc as [Hlate Hc].
  destruct late; [done|]. rewrite take_budget_ok by (simpl in Hpos; lia). simpl.
  destruct meta as [meta|]; [|done]. simpl in Hc. apply andb_true_iff in Hc as [Hc Hkind].
  apply andb_true_iff in Hc as [-> Hsame]. apply negb_true_iff in Hsame. rewrite Hsame; simpl.
  destruct (md_kind meta); try done; simpl.
  - destruct entries; simpl in *; by destruct s as [[] ?].
  - apply andb_true_iff in Hkind as [Hd Hes]. apply Z.ltb_lt in Hd. rewrite (proj2 (Z.leb_gt _ _)) by lia.
    destruct entries as [es|]; [|done]. simpl in Hes, Hn.
    rewrite visit_entries_clean; [by rewrite advance_add; destruct s as [[] ?]|done..|].
    rewrite advance_remaining. lia.
Qed.

Lemma visit_dir_le path depth es s : scan_le s (visit_entries visit_fd path depth es s).
Proof.
  apply visit_entries_le, Forall_true. intros [b [| |name [child|]]]; try exact I.
  intros ???; apply visit_fd_le.
Qed.
Lemma scan_le_no_gap s t : scan_le s t -> gap t = false -> gap s = false.
Proof. intros (H & _) Ht. destruct (gap s); [by rewrite H in Ht|done]. Qed.

(** The converse: no issue, so the tree was clean and within the budget. *)
Lemma visit_entries_no_gap path depth es s :
  Forall (on_child (fun n => forall path depth s,
    0 <= sn_remaining s -> gap (visit_fd n path depth s) = false ->
    clean depth n = true /\ nodes n <= sn_remaining s)) es ->
  0 <= sn_remaining s -> gap (visit_entries visit_fd path depth es s) = false ->
  forallb (clean_entry (clean (depth + 1))) es = true /\ entries_nodes nodes es <= sn_remaining s.
Proof.
  intros Hes. revert s. induction Hes as [|[late e] es He Hes IH]; intros s Hs; simpl; [by intros|].
  case_match; [by rewrite on_issue_gap|]. destruct late; [by rewrite on_issue_gap|].
  destruct e as [| |name [child|]]; intros Hg;
    try (by apply (scan_le_no_gap _ _ (visit_dir_le path depth es _)) in Hg; rewrite on_issue_gap in Hg).
  pose proof (visit_fd_le child (path_join path name) (depth + 1) s) as Hle.
  pose proof (scan_le_no_gap _ _ (visit_dir_le path depth es _) Hg) as Hg1.
  destruct (IH _ (proj1 (proj1 (proj2 (proj2 Hle)) Hs)) Hg) as [Hc Hn], (He _ _ _ Hs Hg1) as [Hcc Hcn].
  unfold clean_entry at 1, entry_nodes; simpl. rewrite Hcc, Hc. split; [done|].
  rewrite (visit_fd_clean child), advance_remaining in Hn by done. lia.
Qed.

Lemma visit_fd_no_gap n path depth s :
  0 <= sn_remaining s -> gap (visit_fd n path depth s) = false ->
  clean depth n = true /\ nodes n <= sn_remaining s.
Proof.
  revert path depth s. induction n as [late meta readable entries after IH] using node_ind.
  intros path depth s Hs. rewrite visit_fd_eq. unfold take_budget. simpl clean; simpl nodes.
  destruct late; [cbn; by rewrite on_issue_gap|].
  destruct (Z.eqb_spec (sn_remaining s) 0) as [|Hne]; cbn [negb andb]; [by rewrite on_issue_gap|].
  destruct meta as [meta|]; [|by rewrite on_issue_gap]. cbn [is_some_and andb].
  destruct (md_kind meta), readable; cbn [negb andb]; try (by rewrite on_issue_gap).
  - rewrite on_issue_if_gap. intros [-> Hg]%orb_false_iff. split; [done|]. destruct entries; simpl; lia.
  - destruct (Z.leb_spec MAX_DEPTH depth); [by rewrite on_issue_gap|].
    destruct entries as [es|]; [|by rewrite on_issue_gap]. rewrite on_issue_if_gap.
    intros [-> Hg]%orb_false_iff.
    apply visit_entries_no_gap in Hg as [Hc Hn]; [|done|simpl; lia]. simpl in Hn |- *. rewrite Hc.
    rewrite (proj2 (Z.ltb_lt _ _)) by lia. split; [done|lia].
Qed.

(** * What an inspection without a gap has seen *)

(** The root the scan opens. *)
Definition root_clean (r : Registration) (opened : option (option Metadata * Node)) : bool :=
  is_some_and opened (fun p => negb (root_replaced r p.1) && clean 0 p.2).
Definition root_nodes (v : RootView) : Z :=
  match rv_opened v with Some (_, node) => nodes node | None => 0 end.

Lemma scan_tree_gap r opened s :
  0 <= sn_remaining s ->
  gap (scan_tree (rg_canonical r) (rg_identity r) opened s) = false <->
  gap s = false /\ root_clean r opened = true
  /\ match opened with Some (_, n) => nodes n <= sn_remaining s | None => False end.
Proof.
  intros Hs. unfold scan_tree, root_clean. destruct opened as [[meta n]|]; simpl;
    [|rewrite on_issue_gap; intuition done].
  unfold root_replaced. rewrite negb_involutive. case_match; simpl; [|rewrite on_issue_gap; intuition done].
  split.
  - intros Hg. split; [by apply (scan_le_no_gap _ _ (visit_fd_le n (rg_canonical r) 0 s))|].
    by eapply visit_fd_no_gap.
  - intros (Hg & Hc & Hn). by rewrite visit_fd_clean.
Qed.

Lemma repeated_point_iff points ms :
  repeated_point points ms = false <->
  (forall m p, m ∈ ms -> p ∈ points -> path_eq (mt_point m) p = false)
  /\ NoDup (map (fun m => components (mt_point m)) ms).
Proof.
  revert points. induction ms as [|m ms IH]; intros points; simpl.
  { split; [intros _; split; [intros m p Hm; by apply elem_of_nil in Hm|constructor]|done]. }
  rewrite orb_false_iff, IH, existsb_false_Forall, Forall_forall, NoDup_cons. split.
  - intros (Hh & Hrest & Hnd). split; [|split; [|done]].
    + intros m' p [->|Hm]%elem_of_cons Hp; [by apply Hh|]. apply Hrest; [done|by right].
    + rewrite list_elem_of_fmap. intros (m' & Heq & Hm').
      specialize (Hrest m' (mt_point m) Hm' (list_elem_of_here _ _)).
      unfold path_eq in Hrest. apply bool_decide_eq_false in Hrest. by rewrite Heq in Hrest.
  - intros (Hall & Hnot & Hnd). split_and!; [|..|done].
    + intros p Hp. apply Hall; [by left|done].
    + intros m' p Hm' [->|Hp]%elem_of_cons; [|apply Hall; [by right|done]].
      unfold path_eq. apply bool_decide_eq_false. intros Heq. apply Hnot.
      rewrite list_elem_of_fmap. by exists m'.
Qed.

(** The scope is clear when there is a mount and no two at one point. *)
Lemma ambiguous_iff ms :
  ambiguous_mount_scope ms = false <->
  ms <> [] /\ NoDup (map (fun m => components (mt_point m)) ms).
Proof.
  unfold ambiguous_mount_scope. rewrite orb_false_iff, bool_decide_eq_false, repeated_point_iff.
  split; [intros (? & _ & ?)|intros (? & ?)]; split_and!; try done. intros m p _ Hp. by apply elem_of_nil in Hp.
Qed.

Section Covered.
Variables (i : CoverageInspector) (before after : option (list Mount) * option string).

Definition names_target (r : Registration) (canonical : option string) : Prop :=
  exists p, canonical = Some p /\ components p = components (rg_canonical r).
Definition same_root (r : Registration) (meta : option Metadata) : Prop :=
  exists m, meta = Some m /\ md_kind m <> Symlink /\ md_identity m = rg_identity r.

(** The mounts that touch the root are those of the baseline, before and after
    the scan; each has its own point and, with fanotify, a mark. *)
Definition mounts_hold (r : Registration) : Prop :=
  exists base current later,
    rg_mounts r = Some base /\ before.1 = Some current /\ after.1 = Some later
    /\ relevant_mounts (rg_canonical r) current = base
    /\ relevant_mounts (rg_canonical r) later = base
    /\ base <> [] /\ NoDup (map (fun m => components (mt_point m)) base)
    /\ (in_sensor i = Fanotify -> forall m, m ∈ base -> mt_id m ∈ in_marked_mounts i).

Record Covered (r : Registration) (v : RootView) : Prop := mkCovered {
  cov_target : names_target r (rv_canonical v) /\ names_target r (rv_canonical_after v);
  cov_root : same_root r (rv_meta v) /\ same_root r (rv_meta_after v);
  cov_namespace : in_namespace i <> None /\ before.2 = in_namespace i /\ after.2 = in_namespace i;
  cov_mounts : mounts_hold r;
  cov_tree : exists meta node, rv_opened v = Some (meta, node) /\ same_root r meta /\ clean 0 node = true;
  cov_time : rv_late v = false;
}.
End Covered.

Lemma target_changed_iff r c : target_changed r c = false <-> names_target r c.
Proof.
  unfold target_changed, names_target, path_eq. destruct c as [p|]; simpl.
  - rewrite negb_false_iff, bool_decide_eq_true. split; [by eauto|by intros (? & [= <-] & ?)].
  - split; [done|by intros (? & ? & _)].
Qed.
Lemma root_replaced_iff r meta : root_replaced r meta = false <-> same_root r meta.
Proof.
  unfold root_replaced, same_root. destruct meta as [m|]; simpl.
  - rewrite negb_false_iff, andb_true_iff, negb_true_iff, bool_decide_eq_false, bool_decide_eq_true.
    split; [by eauto|by intros (? & [= <-] & ?)].
  - split; [done|by intros (? & ? & _)].
Qed.
Lemma root_clean_iff r opened :
  root_clean r opened = true <->
  exists meta node, opened = Some (meta, node) /\ same_root r meta /\ clean 0 node = true.
Proof.
  unfold root_clean. destruct opened as [[meta n]|]; simpl.
  - rewrite andb_true_iff, negb_true_iff, root_replaced_iff.
    split; [by intros [? ?]; eauto|by intros (? & ? & [= <- <-] & ?)].
  - split; [done|by intros (? & ? & ? & _)].
Qed.

Lemma unmarked_gap ms row :
  row_gap (foldl (fun row m => issue "fanotify_unmarked_mount" (mt_point m) row) row ms)
  = negb (bool_decide (ms = [])) || row_gap row.
Proof.
  revert row. induction ms as [|m ms IH]; intros row; [done|]. simpl foldl.
  rewrite IH, issue_gap, orb_true_r. by rewrite bool_decide_eq_false_2.
Qed.

(** The comparison of the mounts, and the one after the loop. *)
Definition mounts_known (i : CoverageInspector) (r : Registration) (mounts : option (list Mount)) : Prop :=
  exists base current,
    rg_mounts r = Some base /\ mounts = Some current
    /\ relevant_mounts (rg_canonical r) current = base
    /\ base <> [] /\ NoDup (map (fun m => components (mt_point m)) base)
    /\ (in_sensor i = Fanotify -> forall m, m ∈ base -> mt_id m ∈ in_marked_mounts i).

Lemma check_mounts_iff i r mounts row :
  row_gap (check_mounts i r mounts row) = false <-> row_gap row = false /\ mounts_known i r mounts.
Proof.
  unfold check_mounts, mounts_known.
  destruct (rg_mounts r) as [base|], mounts as [current|];
    try (rewrite issue_gap; split; [done|by intros (_ & ? & ? & ? & ? & _)]).
  set (rel := relevant_mounts (rg_canonical r) current).
  assert (Hmarks : List.filter (fun m => negb (bool_decide (mt_id m ∈ in_marked_mounts i))) rel = [] <->
                   forall m, m ∈ rel -> mt_id m ∈ in_marked_mounts i).
  { clear. induction rel as [|m l IH]; simpl; [split; [intros _ m Hm; by apply elem_of_nil in Hm|done]|].
    case_bool_decide; simpl.
    - rewrite IH. split; [by intros Hl m' [->|?]%elem_of_cons; auto|by intros Hl m' ?; apply Hl; right].
    - split; [done|]. intros Hl. by destruct H; apply Hl; left. }
  transitivity (row_gap row = false /\ rel = base /\ ambiguous_mount_scope rel = false
                /\ ambiguous_mount_scope base = false
                /\ (in_sensor i = Fanotify -> forall m, m ∈ rel -> mt_id m ∈ in_marked_mounts i)).
  - case_bool_decide as Hs; rewrite ?unmarked_gap, !issue_if_gap, !orb_false_iff, !negb_false_iff,
      !bool_decide_eq_true; rewrite ?Hmarks; intuition done.
  - rewrite !ambiguous_iff. split.
    + intros (Hg & <- & _ & [Hne Hnd] & Hm). split; [done|]. by exists rel, current.
    + intros (Hg & base' & current' & [= <-] & [= <-] & Heq & Hne & Hnd & Hm).
      fold rel in Heq. rewrite Heq. intuition done.
Qed.

Section Inspection.
Variables (i : CoverageInspector) (before after : option (list Mount) * option string).

Lemma inspect_root_gap remaining r v :
  0 <= remaining ->
  gap (inspect_root i before.1 before.2 remaining r v) = false <->
  names_target r (rv_canonical v) /\ names_target r (rv_canonical_after v)
  /\ same_root r (rv_meta v) /\ same_root r (rv_meta_after v)
  /\ (before.2 = in_namespace i /\ before.2 <> None) /\ mounts_known i r before.1
  /\ (exists meta node, rv_opened v = Some (meta, node) /\ same_root r meta /\ clean 0 node = true)
  /\ root_nodes v <= remaining.
Proof.
  intros Hr. unfold inspect_root.
  rewrite !on_issue_if_gap, !orb_false_iff, scan_tree_gap by done.
  unfold gap; simpl sn_report. rewrite check_mounts_iff, !issue_if_gap, !orb_false_iff.
  rewrite !target_changed_iff, !root_replaced_iff, root_clean_iff, !negb_false_iff, bool_decide_eq_true.
  unfold root_nodes. simpl sn_remaining.
  assert (Hns : is_some before.2 = true <-> before.2 <> None) by (destruct before.2; simpl; split; done).
  rewrite Hns. unfold row_gap at 1; simpl. split.
  - intros (Hca & Hma & ((Hnsp & Hm & Hc & _) & Hmk) & (meta & n & Ho & Hs & Hcl) & Hn).
    rewrite Ho in Hn |- *. split_and!; try tauto; eauto.
  - intros (Hc & Hca & Hm & Hma & Hns' & Hmk & (meta & n & Ho & Hs & Hcl) & Hn).
    rewrite Ho in Hn |- *. split_and!; try tauto; eauto.
Qed.

(** A row that only got issues. *)
Definition row_le (a b : RootCoverage) : Prop :=
  (row_gap a = true -> row_gap b = true) /\ rc_entries_checked b = rc_entries_checked a
  /\ (row_bounded a -> row_bounded b).
#[local] Instance row_le_preorder : PreOrder row_le.
Proof.
  split; unfold row_le; [intros r; by split_and!|].
  intros a b c (A1 & A2 & A3) (B1 & B2 & B3). split_and!; auto. congruence.
Qed.
Lemma issue_le code path r : row_le r (issue code path r).
Proof. split_and!; [by rewrite issue_gap|apply issue_checked|apply issue_ok]. Qed.
Lemma issue_if_le bad code path r : row_le r (issue_if bad code path r).
Proof. destruct bad; [apply issue_le|done]. Qed.
Lemma check_mounts_le r mounts row : row_le row (check_mounts i r mounts row).
Proof.
  unfold check_mounts. destruct (rg_mounts r), mounts; try apply issue_le.
  assert (Hfold : forall ms row, row_le row (foldl (fun row m => issue "fanotify_unmarked_mount" (mt_point m) row) row ms)).
  { induction ms as [|m ms IH]; intros row'; simpl; [done|]. etrans; [apply issue_le|apply IH]. }
  case_match; [etrans; [|apply Hfold]|]; (etrans; [|apply issue_if_le]); apply issue_if_le.
Qed.
Lemma on_row_le f s : row_le (sn_report s) (f (sn_report s)) -> scan_le s (on_report f s).
Proof. intros (A & B & C). unfold scan_le. simpl. split_and!; auto; lia. Qed.
Lemma scan_tree_le r opened s : scan_le s (scan_tree (rg_canonical r) (rg_identity r) opened s).
Proof.
  unfold scan_tree. destruct opened as [[meta n]|]; [case_match|];
    [apply visit_fd_le|apply on_issue_le..].
Qed.

Lemma inspect_root_le remaining r v :
  scan_le (mkScan (mkRootCoverage (rg_configured r) (rg_canonical r) 0 0 [] 0) remaining)
    (inspect_root i before.1 before.2 remaining r v).
Proof.
  unfold inspect_root. do 2 (etrans; [|apply on_issue_if_le]). etrans; [|apply scan_tree_le].
  set (row := check_mounts _ _ _ _).
  apply (on_row_le (fun _ => row) (mkScan _ remaining)). simpl. subst row.
  etrans; [|apply check_mounts_le]. do 2 (etrans; [|apply issue_if_le]). apply issue_if_le.
Qed.

(** Without an issue the root took its nodes off the budget. *)
Lemma inspect_root_spent remaining r v :
  0 <= remaining -> gap (inspect_root i before.1 before.2 remaining r v) = false ->
  sn_remaining (inspect_root i before.1 before.2 remaining r v) = remaining - root_nodes v.
Proof.
  intros Hr Hg. apply inspect_root_gap in Hg; [|done].
  destruct Hg as (_ & _ & _ & _ & _ & _ & (meta & n & Ho & Hs & Hc) & Hn).
  unfold inspect_root, root_nodes in *. rewrite Ho in Hn |- *. unfold scan_tree. simpl sn_remaining.
  apply root_replaced_iff in Hs. unfold root_replaced in Hs. apply negb_false_iff in Hs. rewrite Hs.
  rewrite visit_fd_clean by done. done.
Qed.

Lemma finish_root_gap row r v :
  row_gap (finish_root before.2 after.2 before.1 after.1 row r v) = false <->
  row_gap row = false /\ rv_late v = false /\ before.2 = after.2
  /\ (relevant_mounts (rg_canonical r) <$> before.1) = (relevant_mounts (rg_canonical r) <$> after.1).
Proof.
  unfold finish_root. rewrite !issue_if_gap, !orb_false_iff, !negb_false_iff, !bool_decide_eq_true. tauto.
Qed.
Lemma finish_root_le row r v : row_le row (finish_root before.2 after.2 before.1 after.1 row r v).
Proof. unfold finish_root. etrans; [apply issue_if_le|apply issue_if_le]. Qed.

Lemma mounts_hold_iff r :
  mounts_hold i before after r <->
  mounts_known i r before.1
  /\ (relevant_mounts (rg_canonical r) <$> before.1) = (relevant_mounts (rg_canonical r) <$> after.1).
Proof.
  split.
  - intros (base & current & later & Hb & Hc & Hl & Heq & Heq' & Hrest). split.
    + by exists base, current.
    + rewrite Hc, Hl. simpl. congruence.
  - intros [(base & current & Hb & Hc & Heq & Hne & Hnd & Hm) Hsame]. rewrite Hc in Hsame.
    destruct after.1 as [later|] eqn:Hl; [|done]. simpl in Hsame. injection Hsame as Hsame.
    exists base, current, later. split_and!; try done. congruence.
Qed.

(** One root: its row has no issue when the root is covered. *)
Lemma root_gap remaining r v :
  0 <= remaining ->
  row_gap (finish_root before.2 after.2 before.1 after.1
             (sn_report (inspect_root i before.1 before.2 remaining r v)) r v) = false <->
  Covered i before after r v /\ root_nodes v <= remaining.
Proof.
  intros Hr. rewrite finish_root_gap. pose proof (inspect_root_gap remaining r v Hr) as Hg.
  unfold gap in Hg. rewrite Hg. split.
  - intros ((Ht & Hta & Hm & Hma & (Hns & Hsome) & Hmk & Htree & Hn) & Hlate & Hns' & Hsame).
    split; [|done]. constructor; try done; [|by apply mounts_hold_iff]. rewrite <- Hns. done.
  - intros ([[Ht Hta] [Hm Hma] (Hs & Hns & Hns') Hmh Htree Hlate] & Hn).
    apply mounts_hold_iff in Hmh as [Hmk Hsame]. rewrite Hns, Hns'. split_and!; done.
Qed.

Definition finished_rows (remaining : Z) (roots : list (Registration * RootView)) : list RootCoverage :=
  zip_with (fun row p => finish_root before.2 after.2 before.1 after.1 row p.1 p.2)
    (inspect_roots i before.1 before.2 remaining roots) roots.

Lemma finished_rows_cons remaining r v roots :
  let s := inspect_root i before.1 before.2 remaining r v in
  finished_rows remaining ((r, v) :: roots)
  = finish_root before.2 after.2 before.1 after.1 (sn_report s) r v :: finished_rows (sn_remaining s) roots.
Proof. done. Qed.

Lemma rows_bounded roots remaining :
  0 <= remaining ->
  0 <= sumZ (map rc_entries_checked (finished_rows remaining roots)) <= remaining
  /\ Forall (fun row => 0 <= rc_entries_checked row /\ zlen (rc_issues row) <= 32) (finished_rows remaining roots).
Proof.
  revert remaining. induction roots as [|[r v] roots IH]; intros remaining Hr; [simpl; split; [lia|done]|].
  rewrite finished_rows_cons.
  destruct (inspect_root_le remaining r v) as (_ & Hsum & Hrem & Hok).
  set (s := inspect_root _ _ _ _ _ _) in *. clearbody s. cbn [sn_report sn_remaining rc_entries_checked] in Hsum, Hrem, Hok.
  destruct (finish_root_le (sn_report s) r v) as (_ & Hsame & Hfin).
  specialize (Hrem Hr). destruct (IH (sn_remaining s)) as [Hrest Hall]; [lia|].
  cbn [map sumZ foldr]. fold (sumZ (map rc_entries_checked (finished_rows (sn_remaining s) roots))).
  rewrite Forall_cons, Hsame. split_and!; try done; try lia.
  apply Hfin, Hok. by split.
Qed.

Lemma rows_gap roots remaining :
  0 <= remaining ->
  existsb row_gap (finished_rows remaining roots) = false <->
  Forall (fun p => Covered i before after p.1 p.2) roots
  /\ sumZ (map (fun p => root_nodes p.2) roots) <= remaining.
Proof.
  revert remaining. induction roots as [|[r v] roots IH]; intros remaining Hr; [simpl; split; [by split|done]|].
  rewrite finished_rows_cons. cbn [existsb map fst snd]. rewrite orb_false_iff, root_gap, Forall_cons by done.
  cbn [sumZ foldr]. fold (sumZ (map (fun p => root_nodes p.2) roots)). cbn [fst snd].
  assert (Hpos : 0 <= sumZ (map (fun p => root_nodes p.2) roots)).
  { apply sumZ_nonneg, Forall_forall. intros z (p & -> & _)%list_elem_of_fmap. unfold root_nodes.
    destruct (rv_opened p.2) as [[? n]|]; [pose proof (nodes_pos n); lia|lia]. }
  assert (Hnext : Covered i before after r v -> root_nodes v <= remaining ->
    sn_remaining (inspect_root i before.1 before.2 remaining r v) = remaining - root_nodes v).
  { intros Hc Hn. apply inspect_root_spent; [done|]. apply inspect_root_gap; [done|].
    destruct Hc as [[? ?] [? ?] (? & ? & ?) Hmh ? ?]. apply mounts_hold_iff in Hmh as [? ?].
    split_and!; try done. congruence. }
  split.
  - intros [[Hc Hn] Hrest]. rewrite Hnext in Hrest by done. apply IH in Hrest as [Hall Hsum]; [|lia].
    split_and!; try done. lia.
  - intros [[Hc Hall] Hsum]. split; [split; [done|lia]|]. rewrite Hnext by (done || lia). apply IH; [lia|].
    split; [done|lia].
Qed.
End Inspection.

Lemma Forall_zip {A B} (P : A -> B -> Prop) (l : list A) (k : list B) :
  length k = length l -> Forall (fun p => P p.1 p.2) (zip l k) <-> Forall2 P l k.
Proof.
  revert k. induction l as [|x l IH]; intros [|y k] Hlen; try done; simpl.
  rewrite Forall_cons, Forall2_cons, IH by (simpl in Hlen; lia). done.
Qed.
Lemma map_snd_zip {A B C} (f : B -> C) (l : list A) (k : list B) :
  length k = length l -> map (fun p => f p.2) (zip l k) = map f k.
Proof. revert k. induction l as [|x l IH]; intros [|y k] Hlen; try done; simpl. by rewrite IH by (simpl in Hlen; lia). Qed.

(** C40: An inspection reports no gap exactly when every registered root is
    covered: the configured path still names the registered inode, before and
    after the scan; the mount namespace is the baseline's; the mounts that touch
    the root are the baseline's before and after, at distinct points and, with
    fanotify, all marked; the whole tree below it was seen in time, down to 64
    levels, all of it readable directories and regular files that did not change
    under the scan; and the entries of all roots fit the budget. *)
Theorem no_gap_iff_covered (i : CoverageInspector) (now : Z)
    (before after : option (list Mount) * option string) (views : list RootView) :
  0 <= in_max_entries i -> length views = length (in_roots i) ->
  has_gap (inspect i now before after views) = false <->
  Forall2 (Covered i before after) (in_roots i) views
  /\ sumZ (map root_nodes views) <= in_max_entries i.
Proof.
  intros Hmax Hlen. unfold inspect, has_gap; simpl.
  fold (finished_rows i before after (in_max_entries i) (zip (in_roots i) views)).
  transitivity (existsb row_gap (finished_rows i before after (in_max_entries i) (zip (in_roots i) views)) = false).
  { by case_match. }
  rewrite rows_gap, Forall_zip by done. by rewrite (map_snd_zip root_nodes).
Qed.

(** An inspection stays within its bounds: over all roots it checks at most
    [max_entries] entries, and each row lists at most 32 issues. *)
Theorem inspect_bounded (i : CoverageInspector) (now : Z)
    (before after : option (list Mount) * option string) (views : list RootView) :
  0 <= in_max_entries i ->
  let rows := cr_roots (inspect i now before after views) in
  0 <= sumZ (map rc_entries_checked rows) <= in_max_entries i
  /\ Forall (fun row => 0 <= rc_entries_checked row /\ zlen (rc_issues row) <= 32) rows.
Proof.
  intros Hmax. cbn zeta. unfold inspect; cbn [cr_roots].
  fold (finished_rows i before after (in_max_entries i) (zip (in_roots i) views)).
by apply rows_bounded.
Qed.

(** * Mount paths: what is accepted, and that nothing is lost *)

Definition no_nul (p : string) : bool := str_all (fun c => negb (Ascii.eqb c "000")) p.
Definition segment_ok (seg : string) : Prop :=
  seg <> "" /\ seg <> "." /\ seg <> ".." /\ str_all (fun c => negb (Ascii.eqb c "/")) seg = true.
Definition render (segs : list string) : string := String "/" (String.concat "/" segs).
(** A canonical absolute path, in UTF-8 and without NUL. *)
Definition mount_path (p : string) : Prop :=
  no_nul p = true /\ utf8_valid p = true /\ exists segs, Forall segment_ok segs /\ p = render segs.

(** The escapes of the four characters that would break the fields of a line. *)
Fixpoint encode_escapes (s : string) : string :=
  match s with
  | EmptyString => ""
  | String c s' =>
      let rest := encode_escapes s' in
      if Ascii.eqb c " " then String.append "\040" rest
      else if Ascii.eqb c tab then String.append "\011" rest
      else if Ascii.eqb c newline then String.append "\012" rest
      else if Ascii.eqb c backslash then String.append "\134" rest
      else String c rest
  end.

Lemma decode_encode s : decode_escapes (encode_escapes s) = if no_nul s then Some s else None.
Proof.
  induction s as [|c s IH]; [done|]. cbn [encode_escapes].
  assert (Hesc : forall d, no_nul (String d "") = true -> String d <$> decode_escapes (encode_escapes s)
    = if no_nul (String d s) then Some (String d s) else None).
  { intros d Hd. rewrite IH. unfold no_nul in *. cbn in Hd |- *. rewrite andb_true_r in Hd. rewrite Hd. by case_match. }
  destruct (Ascii.eqb_spec c " ") as [->|H1]; [by apply Hesc|].
  destruct (Ascii.eqb_spec c tab) as [->|H2]; [by apply Hesc|].
  destruct (Ascii.eqb_spec c newline) as [->|H3]; [by apply Hesc|].
  destruct (Ascii.eqb_spec c backslash) as [->|H4]; [by apply Hesc|].
  cbn [decode_escapes]. rewrite (proj2 (Ascii.eqb_neq _ _) H4). unfold no_nul in *. cbn [str_all].
  destruct (Ascii.eqb_spec c "000") as [->|H5]; [done|]. rewrite IH. by case_match.
Qed.

Lemma escaped_no_nul a b d x : escaped a b d = Some x -> negb (Ascii.eqb x "000") = true.
Proof. unfold escaped. intros H. repeat case_match; by simplify_eq. Qed.

Lemma decode_no_nul s p : decode_escapes s = Some p -> no_nul p = true.
Proof.
  remember (String.length s) as n eqn:Hn. revert s p Hn.
  induction n as [n IH] using lt_wf_ind. intros [|c s] p ->; [by intros [= <-]|]. cbn [decode_escapes].
  case_match.
  - destruct s as [|a [|b [|d rest]]]; try done. intros Hp. apply bind_Some in Hp as (x & Hx & Hp).
    apply fmap_Some in Hp as (q & Hq & ->). unfold no_nul. cbn [str_all].
    rewrite (escaped_no_nul _ _ _ _ Hx). eapply IH; [|done|done]. simpl. lia.
  - destruct (Ascii.eqb c "000") eqn:Hc; [done|]. intros Hp. apply fmap_Some in Hp as (q & Hq & ->).
    unfold no_nul. cbn [str_all]. rewrite Hc. eapply IH; [|done|done]. simpl. lia.
Qed.

(** ** Segments *)

(** A repeated or a final slash is an empty segment after the first. *)
Lemma slashes_segments s :
  double_slash s || ends_with_slash s = existsb (String.eqb "") (tail (split_slash s)).
Proof.
  induction s as [|c s IH]; [done|]. cbn [split_slash].
  destruct (split_slash_cons s) as (seg & segs & E). rewrite E in IH |- *.
  destruct s as [|c' s].
  - cbn in E. injection E as <- <-. cbn. by destruct (Ascii.eqb c "/").
  - change (double_slash (String c (String c' s)))
      with ((Ascii.eqb c "/" && Ascii.eqb c' "/") || double_slash (String c' s)).
    change (ends_with_slash (String c (String c' s))) with (ends_with_slash (String c' s)).
    rewrite <- orb_assoc, IH.
    assert (Hseg : String.eqb "" seg = Ascii.eqb c' "/").
    { cbn in E. destruct (Ascii.eqb c' "/"); [by injection E as <- <-|].
      by destruct (split_slash s); injection E as <- <-. }
    destruct (Ascii.eqb c "/"); cbn [tail existsb andb orb]; [by rewrite Hseg|done].
Qed.

Lemma not_canonical_iff p :
  not_canonical p = false <-> exists segs, Forall segment_ok segs /\ p = render segs.
Proof.
  unfold not_canonical. rewrite !orb_false_iff, negb_false_iff. split.
  - intros [[Habs Hdots] Hsl]. destruct p as [|c p]; [done|]. simpl in Habs. apply Ascii.eqb_eq in Habs as ->.
    destruct (String.eqb_spec (String "/" p) "/") as [Heq|Hne].
    { exists []. split; [done|]. exact Heq. }
    cbn [negb andb] in Hsl. rewrite slashes_segments in Hsl.
    change (split_slash (String "/" p)) with ("" :: split_slash p) in Hsl, Hdots. cbn [tail] in Hsl.
    destruct (split_slash_spec p) as [Hp Hnos]. exists (split_slash p). split; [|unfold render; by rewrite Hp].
    rewrite existsb_false_Forall in Hsl, Hdots. apply Forall_cons in Hdots as [_ Hdots].
    rewrite Forall_forall in *. intros seg Hin.
    specialize (Hsl seg Hin). specialize (Hnos seg Hin). specialize (Hdots seg Hin). simpl in Hdots.
    apply orb_false_iff in Hdots as [Hd1 Hd2]. apply String.eqb_neq in Hsl, Hd1, Hd2. by split_and!.
  - intros (segs & Hs & ->). destruct (decide (segs = [])) as [->|Hne]; [done|]. unfold render.
    assert (Hsplit : split_slash (String "/" (String.concat "/" segs)) = "" :: segs).
    { cbn [split_slash]. change (Ascii.eqb "/" "/") with true. cbn iota. f_equal.
      apply split_concat; [done|]. eapply Forall_impl; [done|]. by intros seg (? & ? & ? & ?). }
    rewrite slashes_segments, Hsplit. cbn [is_absolute existsb tail]. split_and!; [done| |].
    + cbn. apply existsb_false_Forall. eapply Forall_impl; [done|]. intros seg (_ & H1 & H2 & _).
      apply orb_false_iff. by rewrite !String.eqb_neq.
    + apply andb_false_iff. right. apply existsb_false_Forall. eapply Forall_impl; [done|].
      intros seg (H1 & _). by apply String.eqb_neq.
Qed.

(** On accepted mount points equality of paths is equality of strings, so the
    derived equality of [Mount] is [eq]. *)
Lemma mount_path_eq p q : mount_path p -> mount_path q -> path_eq p q = true -> p = q.
Proof.
  assert (Hcomp : forall segs, Forall segment_ok segs -> components (render segs) = RootDir :: map Normal segs).
  { intros segs Hs. unfold components, render. cbn [is_absolute]. change (Ascii.eqb "/" "/") with true. f_equal.
    destruct (decide (segs = [])) as [->|Hne]; [done|]. cbn [split_slash]. change (Ascii.eqb "/" "/") with true.
    cbn iota. cbn [omap list_omap segment_component]. rewrite split_concat; [|done|].
    - cbn. clear Hne. induction Hs as [|seg segs (H1 & H2 & H3 & _) Hs IH]; [done|]. cbn. unfold segment_component at 1.
      apply String.eqb_neq in H1, H2, H3. rewrite H1, H2, H3. by f_equal.
    - eapply Forall_impl; [done|]. by intros seg (? & ? & ? & ?). }
  intros (_ & _ & segs & Hs & ->) (_ & _ & segs' & Hs' & ->). unfold path_eq.
  rewrite bool_decide_eq_true, !Hcomp by done. intros [= Heq].
  f_equal. by apply (list_fmap_eq_inj Normal) in Heq; [|by intros ?? [=]].
Qed.

(** The decoding of a mount path is exact. Every path it accepts is a
    canonical absolute path in UTF-8 without NUL; and each such path is read
    back from its escaped form, so no mount point is confused with another. *)
Theorem mount_path_roundtrip (p : string) :
  (decode_mount_path (encode_escapes p) = Ok p <-> mount_path p)
  /\ (forall value, decode_mount_path value = Ok p -> mount_path p).
Proof.
  assert (Haccept : forall value, decode_mount_path value = Ok p <->
            decode_escapes value = Some p /\ utf8_valid p = true /\ not_canonical p = false).
  { intros value. unfold decode_mount_path. destruct (decode_escapes value) as [q|]; simpl; [|by split; [|intros [? _]]].
    destruct (utf8_valid q) eqn:Hu, (not_canonical q) eqn:Hc; simpl; split; naive_solver congruence. }
  split.
  - rewrite Haccept, decode_encode, not_canonical_iff. unfold mount_path. case_match; split; naive_solver.
  - intros value. rewrite Haccept, not_canonical_iff. intros (Hd & Hu & Hc). split; [|done].
    by eapply decode_no_nul.
Qed.

(** * A sample inspection *)

Module Sample.

Definition mountinfo : string :=
  "36 1 8:1 / /data rw,relatime - ext4 /dev/sda1 rw
24 0 8:2 / / rw,relatime shared:1 - ext4 /dev/sda2 rw
41 36 0:50 / /data/my\040docs rw - tmpfs tmpfs rw
".
Definition mounts : list Mount := default [] (res_ok (parse_mounts mountinfo)).
Definition namespace : option string := Some "mnt:[4026531841]".

Definition meta (kind : FileKind) (inode : Z) : Metadata := mkMetadata kind (mkIdentity 2049 inode).
Definition file (inode : Z) : Node :=
  mkNode false (Some (meta Regular inode)) true None (Some (meta Regular inode)).
Definition tree : Node :=
  mkNode false (Some (meta Directory 2)) true
    (Some [(false, Child "a" (Some (file 12))); (false, Child "b" (Some (file 13)))])
    (Some (meta Directory 2)).
Definition link : Node := mkNode false (Some (meta Symlink 14)) true None (Some (meta Symlink 14)).

Definition view : PathView := mkPathView "/data" (Some "/data") (Some (meta Directory 2)) (Some "/data").
Definition inspector (budget : Z) : CoverageInspector :=
  default (mkCoverageInspector [] Notify 0 [] None)
    (res_ok (inspector_new [view] Notify budget (Some mounts, namespace) (Some mounts, namespace))).
Definition root (node : Node) : RootView :=
  mkRootView (Some "/data") (Some (meta Directory 2)) (Some (Some (meta Directory 2), node))
    (Some (meta Directory 2)) (Some "/data") false.
Definition report (budget : Z) (node : Node) : CoverageReport :=
  inspect (inspector budget) 0 (Some mounts, namespace) (Some mounts, namespace) [root node].

Example mounts_ex : map mt_point mounts = ["/"; "/data"; "/data/my docs"].
Proof. vm_compute. reflexivity. Qed.
Example relevant_ex : map mt_point (relevant_mounts "/data" mounts) = ["/data"; "/data/my docs"].
Proof. vm_compute. reflexivity. Qed.
Example containing_ex : mt_id <$> containing_mount "/data/x" mounts = Some 36.
Proof. vm_compute. reflexivity. Qed.
Example covered_ex : (has_gap (report 3 tree), map rc_entries_checked (cr_roots (report 3 tree))) = (false, [3]).
Proof. vm_compute. reflexivity. Qed.
Example limit_ex : map (fun r => map ci_code (rc_issues r)) (cr_roots (report 2 tree)) = [["scan_limit"]].
Proof. vm_compute. reflexivity. Qed.
Example link_ex : map (fun r => map ci_code (rc_issues r)) (cr_roots (report 2 link))
  = [["symlink_target_not_inspected"]].
Proof. vm_compute. reflexivity. Qed.

Lemma no_gap_iff_covered_witness :
  has_gap (report 3 tree) = false /\
  (has_gap (report 3 tree) = false <->
   Forall2 (Covered (inspector 3) (Some mounts, namespace) (Some mounts, namespace))
     (in_roots (inspector 3)) [root tree]
   /\ sumZ (map root_nodes [root tree]) <= in_max_entries (inspector 3)).
Proof.
  split; [vm_compute; reflexivity|].
  exact (no_gap_iff_covered (inspector 3) 0 (Some mounts, namespace) (Some mounts, namespace) [root tree]
           ltac:(vm_compute; discriminate) ltac:(vm_compute; reflexivity)).
Defined.

Lemma inspect_bounded_witness :
  0 <= sumZ (map rc_entries_checked (cr_roots (report 2 tree))) <= in_max_entries (inspector 2)
  /\ Forall (fun row => 0 <= rc_entries_checked row /\ zlen (rc_issues row) <= 32) (cr_roots (report 2 tree)).
Proof.
  exact (inspect_bounded (inspector 2) 0 (Some mounts, namespace) (Some mounts, namespace) [root tree]
           ltac:(vm_compute; discriminate)).
Defined.

Lemma mount_path_roundtrip_witness :
  decode_mount_path "/mnt/my\040docs" = Ok "/mnt/my docs" /\ mount_path "/mnt/my docs".
Proof.
  split; [vm_compute; reflexivity|].
  exact (proj2 (mount_path_roundtrip "/mnt/my docs") "/mnt/my\040docs" ltac:(vm_compute; reflexivity)).
Defined.

End Sample.
