(* ===== verification/Entropy.v ===== *)
(** Content sampling and the encryption signal (crates/argos-detect/src/entropy.rs).

    Files are their bytes; what one observation sees of a file (open result,
    metadata before and after, bytes read) is a [FileObservation]. *)
From Stdlib Require Import ZArith Lia.
From stdpp Require Import base gmap strings list sorting.
From S2P Require Import Prelude F64 RustPath Common.
#[local] Open Scope Z_scope.

Definition MAX_SAMPLE_BYTES : Z := 1024 * 1024.

Inductive IoError : Set :=
| IoOpen
| IoInvalidInput
| IoUnexpectedEof
| IoWouldBlock.

(** * Classification by magic bytes *)

Fixpoint bytes_start_with (prefix bytes : list Z) : bool :=
  match prefix, bytes with
  | [], _ => true
  | _, [] => false
  | p :: prefix', b :: bytes' => (p =? b) && bytes_start_with prefix' bytes'
  end.
(** [bytes.get(lo..lo + len) == Some(expected)]. *)
Definition bytes_at (bytes : list Z) (lo : nat) (expected : list Z) : bool :=
  bytes_start_with expected (drop lo bytes).

Definition is_ascii_graphic (b : Z) : bool := (33 <=? b) && (b <=? 126).
(** space, tab, line feed, form feed, carriage return *)
Definition is_ascii_whitespace (b : Z) : bool :=
  (b =? 32) || (b =? 9) || (b =? 10) || (b =? 12) || (b =? 13).

Definition classify (bytes : list Z) : string :=
  if bytes_start_with [80; 75; 3; 4] bytes || bytes_start_with [80; 75; 5; 6] bytes then "zip"
  else if bytes_start_with [31; 139] bytes then "gzip"
  else if bytes_start_with [253; 55; 122; 88; 90; 0] bytes then "xz"
  else if bytes_start_with [40; 181; 47; 253] bytes then "zstd"
  else if bytes_start_with [66; 90; 104] bytes then "bzip2"
  else if bytes_start_with [55; 122; 188; 175; 39; 28] bytes then "7z"
  else if bytes_start_with [82; 97; 114; 33; 26; 7] bytes then "rar"
  else if bytes_start_with [137; 80; 78; 71; 13; 10; 26; 10] bytes then "png"
  else if bytes_start_with [255; 216; 255] bytes then "jpeg"
  else if bytes_start_with [82; 73; 70; 70] bytes && bytes_at bytes 8 [87; 69; 66; 80] then "webp"
  else if bytes_at bytes 4 [102; 116; 121; 112] then "mp4"
  else if bytes_start_with [37; 80; 68; 70; 45] bytes then "pdf"
  else if bytes_start_with [127; 69; 76; 70] bytes || bytes_start_with [77; 90] bytes
  then "executable"
  else if negb (zlen bytes =? 0)
          && forallb (fun b => is_ascii_graphic b || is_ascii_whitespace b) bytes then "text"
  else "unknown".

(** * Entropy *)

Section WithStd.
Context `{RustStd}.

Fixpoint count_byte (b : Z) (data : list Z) : Z :=
  match data with [] => 0 | x :: data' => (if x =? b then 1 else 0) + count_byte b data' end.

(** [f64] sums start from [-0.0]. *)
Definition shannon_entropy (data : list Z) : f64 :=
  if zlen data =? 0 then f_of_Z 0
  else
    let len := f_of_Z (zlen data) in
    let counts := map (fun b => count_byte (Z.of_nat b) data) (seq 0 256) in
    let terms :=
      map (fun c => let p := f_div (f_of_Z c) len in f_mul (f_neg p) (f_log2 p))
          (List.filter (fun c => 0 <? c) counts) in
    fold_left f_add terms (f_neg (f_of_Z 0)).

(** One [File::read] into the remaining buffer returns between one byte and
    what fits ([chunk] picks how many), zero at the end of the file or when no
    room is left. *)
Fixpoint read_loop (fuel : nat) (chunk : nat -> nat) (rest : list Z) (room : nat)
    (buf : list Z) : option (list Z) :=
  match fuel with
  | O => None
  | S fuel' =>
      let n := Nat.min (S (chunk (length buf))) (Nat.min room (length rest)) in
      if Nat.eqb n 0 then Some buf
      else
        let buf' := buf ++ take n rest in
        if Nat.eqb (room - n) 0 then Some buf'
        else read_loop fuel' chunk (drop n rest) (room - n) buf'
  end.

Definition file_entropy (fuel : nat) (chunk : nat -> nat) (file : option (list Z))
    (max_bytes : Z) : option (result f64 IoError) :=
  match file with
  | None => Some (Err IoOpen)
  | Some content =>
      match read_loop fuel chunk content (Z.to_nat (Z.min max_bytes MAX_SAMPLE_BYTES)) [] with
      | Some data => Some (Ok (shannon_entropy data))
      | None => None
      end
  end.

(** * Samples of a file *)

Definition div_ceil3 (n : Z) : Z := (n + 2) / 3.

Definition sample_positions (size budget : Z) : list (Z * Z) :=
  let total := Z.min size budget in
  if size <=? budget then [(0, total)]
  else
    let l0 := div_ceil3 total in
    let l1 := (total + 1) / 3 in
    let l2 := total / 3 in
    [(0, l0); ((size - l1) / 2, l1); (size - l2, l2)].

(** [seek] then [read_exact]. *)
Definition read_exact_at (content : list Z) (offset length : Z) : result (list Z) IoError :=
  if offset + length <=? zlen content
  then Ok (take (Z.to_nat length) (drop (Z.to_nat offset) content))
  else Err IoUnexpectedEof.

Fixpoint sample_loop (content : list Z) (positions : list (Z * Z))
    (samples : list ContentSample) (sampled : Z) (file_type : string)
    : result (list ContentSample * Z * string) IoError :=
  match positions with
  | [] => Ok (samples, sampled, file_type)
  | (offset, length) :: positions' =>
      let? bytes := read_exact_at content offset length in
      let file_type' := if offset =? 0 then classify bytes else file_type in
      sample_loop content positions'
        (samples ++ [mkContentSample offset length (shannon_entropy bytes)])
        (sampled + length) file_type'
  end.

Definition sample_reader (content : list Z) (size requested observed_at_ms : Z)
    : result ContentEvidence IoError :=
  let budget := Z.min requested MAX_SAMPLE_BYTES in
  let positions := List.filter (fun p => 0 <? p.2) (sample_positions size budget) in
  let? r := sample_loop content positions [] 0 "unknown" in
  let '(samples, sampled_bytes, file_type) := r in
  Ok {| ce_observed_at_ms := observed_at_ms;
        ce_file_size := size;
        ce_sampled_bytes := sampled_bytes;
        ce_budget_bytes := budget;
        ce_file_type := file_type;
        ce_samples := samples;
        ce_complete := sampled_bytes =? size;
        ce_previous_observed_at_ms := None;
        ce_max_entropy_increase := None |}.

(** * The sampler and its bounded history *)

Record ContentSampler := mkContentSampler {
  sampler_budget : Z;
  sampler_max_files : Z;
  sampler_history_ms : Z;
  sampler_previous : gmap (list component) ContentEvidence;
}.

Definition ContentSampler_new (total_bytes max_files history_secs : Z) : ContentSampler :=
  mkContentSampler (Z.min total_bytes MAX_SAMPLE_BYTES) (Z.min max_files 65536)
    (sat_mul history_secs 1000) ∅.

Record FileObservation := mkFileObservation {
  fo_opened : bool;
  fo_is_file : bool;
  fo_len_before : Z;
  fo_modified_before : option Z;
  fo_bytes : list Z;
  fo_len_after : Z;
  fo_modified_after : option Z;
}.

Definition entropy_increases (samples previous : list ContentSample) : list f64 :=
  omap (fun s =>
    (fun old => f_sub (cs_entropy s) (cs_entropy old)) <$>
      List.find (fun old => (cs_offset old =? cs_offset s) && (cs_length old =? cs_length s))
        previous) samples.

Definition with_increase (ev previous : ContentEvidence) : ContentEvidence :=
  let increases := entropy_increases (ce_samples ev) (ce_samples previous) in
  if (zlen increases =? zlen (ce_samples ev)) && negb (zlen increases =? 0)
  then {| ce_observed_at_ms := ce_observed_at_ms ev;
          ce_file_size := ce_file_size ev;
          ce_sampled_bytes := ce_sampled_bytes ev;
          ce_budget_bytes := ce_budget_bytes ev;
          ce_file_type := ce_file_type ev;
          ce_samples := ce_samples ev;
          ce_complete := ce_complete ev;
          ce_previous_observed_at_ms := Some (ce_observed_at_ms previous);
          ce_max_entropy_increase :=
            match increases with [] => None | x :: l => Some (fold_left f_max l x) end |}
  else ev.

(** Make room for [key]: at the limit, the oldest observation goes. *)
Definition evict_oldest (max_files : Z) (key : list component)
    (previous : gmap (list component) ContentEvidence)
    : gmap (list component) ContentEvidence :=
  if negb (is_some (previous !! key)) && (max_files <=? Z.of_nat (size previous))
  then match min_by_key (fun kv => (ce_observed_at_ms kv.2, kv.1)) (map_to_list previous) with
       | Some (oldest, _) => delete oldest previous
       | None => previous
       end
  else previous.

Definition sampler_observe (s : ContentSampler) (path : string) (fo : FileObservation)
    (observed_at_ms : Z) : ContentSampler * result ContentEvidence IoError :=
  if negb (fo_opened fo) then (s, Err IoOpen)
  else if negb (fo_is_file fo) then (s, Err IoInvalidInput)
  else
    match sample_reader (fo_bytes fo) (fo_len_before fo) (sampler_budget s) observed_at_ms with
    | Err e => (s, Err e)
    | Ok evidence =>
        if negb (fo_len_before fo =? fo_len_after fo)
           || negb (bool_decide (fo_modified_before fo = fo_modified_after fo))
        then (s, Err IoWouldBlock)
        else
          let horizon := sat_sub observed_at_ms (sampler_history_ms s) in
          let previous :=
            filter (fun kv => horizon <= ce_observed_at_ms kv.2 <= observed_at_ms)
              (sampler_previous s) in
          let key := components path in
          let evidence :=
            match opt_filter
                    (fun p => (ce_observed_at_ms p <? observed_at_ms)
                              && (ce_file_size p =? ce_file_size evidence))
                    (previous !! key) with
            | Some p => with_increase evidence p
            | None => evidence
            end in
          let previous :=
            if (0 <? sampler_max_files s) && (slen path <=? 4096)
            then <[key := evidence]> (evict_oldest (sampler_max_files s) key previous)
            else previous in
          (mkContentSampler (sampler_budget s) (sampler_max_files s) (sampler_history_ms s)
             previous, Ok evidence)
    end.

End WithStd.

(** * The encryption signal of an event *)

(** The checks that reject evidence no sampler can have produced. *)
Definition malformed_evidence (c : ContentEvidence) : bool :=
  let samples := ce_samples c in
  (zlen samples =? 0)
  || (3 <? zlen samples)
  || (MAX_SAMPLE_BYTES <? ce_budget_bytes c)
  || (ce_budget_bytes c <? ce_sampled_bytes c)
  || existsb (fun s => ce_budget_bytes c <? cs_length s) samples
  || negb (sumZ (map cs_length samples) =? ce_sampled_bytes c)
  || existsb (fun s =>
       (cs_length s =? 0)
       || is_none_or (checked_add (cs_offset s) (cs_length s)) (fun e => ce_file_size c <? e)
       || negb (f_is_finite (cs_entropy s))
       || negb (f_in_range (f_of_Z 0) (f_of_Z 8) (cs_entropy s))) samples.

Definition naturally_dense (file_type : string) : bool :=
  str_mem file_type ["zip"; "gzip"; "xz"; "zstd"; "bzip2"; "7z"; "rar"; "png"; "jpeg"; "webp";
                     "mp4"; "pdf"; "executable"].

Definition entropy_comparable (c : ContentEvidence) (min_increase : f64) : bool :=
  is_some_and (ce_previous_observed_at_ms c) (fun before => before <? ce_observed_at_ms c)
  && is_some_and (ce_max_entropy_increase c) (fun delta =>
       f_is_finite delta && f_gt delta (f_of_Z 0) && f_le delta (f_of_Z 8)
       && f_ge delta min_increase).

Definition encryption_signal (event : FileEvent) (config : DetectionConfig) : bool :=
  match opt_filter (fun _ => sm_enabled (dc_content_sampling config)) (fe_content event) with
  | Some content =>
      if malformed_evidence content then false
      else
        let high := existsb (fun s => f_ge (cs_entropy s) (dc_entropy_threshold config))
                      (ce_samples content) in
        let comparable :=
          entropy_comparable content (sm_min_entropy_increase (dc_content_sampling config)) in
        high && (comparable
                 || (negb (naturally_dense (ce_file_type content))
                     && negb (is_some (ce_previous_observed_at_ms content))))
  | None =>
      (0 <? dc_entropy_sample_bytes config)
      && is_some_and (fe_entropy event) (fun value =>
           f_is_finite value && f_ge value (dc_entropy_threshold config)
           && f_le value (f_of_Z 8))
  end.

(** * Properties of the sample plan *)

Lemma sample_positions_bounds (size budget : Z) :
  0 <= size -> 0 <= budget ->
  Forall (fun p => 0 <= p.1 /\ 0 <= p.2 /\ p.1 + p.2 <= size /\ p.2 <= budget)
    (sample_positions size budget).
Proof.
  intros Hs Hb. unfold sample_positions, div_ceil3.
  destruct (Z.leb_spec size budget).
  - repeat constructor; simpl; lia.
  - rewrite Z.min_r by lia. repeat constructor; simpl; Z.to_euclidean_division_equations; lia.
Qed.

Lemma sample_positions_total (size budget : Z) :
  0 <= size -> 0 <= budget ->
  sumZ (map snd (sample_positions size budget)) = Z.min size budget.
Proof.
  intros Hs Hb. unfold sample_positions, div_ceil3.
  destruct (Z.leb_spec size budget); simpl; [lia|].
  rewrite Z.min_r by lia. Z.to_euclidean_division_equations; lia.
Qed.

Lemma sample_positions_length (size budget : Z) : zlen (sample_positions size budget) <= 3.
Proof. unfold sample_positions. by destruct (_ <=? _). Qed.

Lemma sumZ_filter_positive (l : list (Z * Z)) :
  Forall (fun p => 0 <= p.2) l ->
  sumZ (map snd (List.filter (fun p => 0 <? p.2) l)) = sumZ (map snd l).
Proof.
  induction 1 as [|p l Hp Hl IH]; simpl; [done|].
  destruct (Z.ltb_spec 0 p.2); simpl; lia.
Qed.

Lemma Forall_filter_b {A} (P : A -> Prop) (f : A -> bool) (l : list A) :
  Forall P l -> Forall (fun x => P x /\ f x = true) (List.filter f l).
Proof. induction 1; simpl; [done|]. destruct (f x) eqn:?; [by constructor|done]. Qed.

(** The windows never overlap and never leave the file. *)
Lemma sample_positions_disjoint (size budget : Z) :
  0 <= size -> 0 <= budget ->
  Sorted (fun p q => p.1 + p.2 <= q.1) (sample_positions size budget).
Proof.
  intros Hs Hb. unfold sample_positions, div_ceil3.
  destruct (Z.leb_spec size budget); [by repeat constructor|].
  rewrite Z.min_r by lia.
  repeat constructor; simpl; Z.to_euclidean_division_equations; lia.
Qed.

Section Theorems.
Context `{RustStd}.

Lemma sample_loop_spec content ps acc n ft ss m ft' :
  sample_loop content ps acc n ft = Ok (ss, m, ft') ->
  map (fun s => (cs_offset s, cs_length s)) ss
    = map (fun s => (cs_offset s, cs_length s)) acc ++ ps
  /\ m = n + sumZ (map snd ps).
Proof.
  revert acc n ft. induction ps as [|[o l] ps IH]; intros acc n ft; simpl.
  - intros [= <- <- <-]. rewrite app_nil_r. split; [done|lia].
  - destruct (read_exact_at content o l) as [bytes|]; simpl; [|done].
    intros [-> ->]%IH. rewrite map_app, <- app_assoc. split; [done|lia].
Qed.

Lemma sample_loop_ok content ps acc n ft :
  Forall (fun p => p.1 + p.2 <= zlen content) ps ->
  is_ok (sample_loop content ps acc n ft) = true.
Proof.
  intros Hps. revert acc n ft. induction Hps as [|[o l] ps Hp Hps IH]; intros; simpl; [done|].
  unfold read_exact_at. simpl in Hp. rewrite (proj2 (Z.leb_le _ _) Hp). simpl. apply IH.
Qed.

(** What a successful reading contains. *)
Lemma sample_reader_inv content size requested t ev :
  0 <= size -> 0 <= requested ->
  sample_reader content size requested t = Ok ev ->
  let budget := Z.min requested MAX_SAMPLE_BYTES in
  let ps := List.filter (fun p => 0 <? p.2) (sample_positions size budget) in
  map (fun s => (cs_offset s, cs_length s)) (ce_samples ev) = ps
  /\ ce_sampled_bytes ev = Z.min size budget
  /\ ce_budget_bytes ev = budget /\ ce_file_size ev = size
  /\ ce_observed_at_ms ev = t /\ ce_previous_observed_at_ms ev = None.
Proof.
  intros Hs Hr. unfold sample_reader.
  destruct (sample_loop _ _ _ _ _) as [[[ss m] ft]|] eqn:E; simpl; [|done].
  intros [= <-]. simpl. apply sample_loop_spec in E as [-> ->]. simpl.
  assert (0 <= Z.min requested MAX_SAMPLE_BYTES) by (unfold MAX_SAMPLE_BYTES; lia).
  rewrite sumZ_filter_positive, sample_positions_total; try done.
  eapply Forall_impl; [by apply sample_positions_bounds|]. simpl. naive_solver.
Qed.

Lemma read_loop_spec fuel chunk rest room buf :
  (room < fuel)%nat ->
  read_loop fuel chunk rest room buf = Some (buf ++ take room rest).
Proof.
  revert rest room buf. induction fuel as [|fuel IH]; intros rest room buf Hf; [lia|].
  cbn [read_loop]. set (n := Nat.min (S (chunk (length buf))) (Nat.min room (length rest))).
  destruct (Nat.eqb_spec n 0) as [Hn|Hn].
  - assert (room = 0 \/ length rest = 0)%nat as [->|Hr] by lia.
    + by rewrite take_0, app_nil_r.
    + apply nil_length_inv in Hr as ->. by rewrite take_nil, app_nil_r.
  - destruct (Nat.eqb_spec (room - n) 0) as [Hz|Hz].
    + do 2 f_equal. f_equal. lia.
    + rewrite IH by lia. rewrite <- app_assoc. do 2 f_equal.
      replace room with (n + (room - n))%nat at 2 by lia.
      by rewrite take_take_drop.
Qed.

Lemma evict_oldest_size max_files key previous :
  0 < max_files -> Z.of_nat (size previous) <= max_files ->
  forall ev, Z.of_nat (size (<[key := ev]> (evict_oldest max_files key previous))) <= max_files.
Proof.
  intros Hm Hs ev. unfold evict_oldest.
  destruct (previous !! key) as [old|] eqn:Hk; simpl.
  - by rewrite map_size_insert_Some.
  - destruct (Z.leb_spec max_files (Z.of_nat (size previous))) as [Hle|Hlt]; simpl.
    + destruct (min_by_key _ _) as [[k v]|] eqn:Hmin.
      * apply min_by_key_elem, elem_of_map_to_list in Hmin.
        assert (key <> k) by (intros ->; congruence).
        rewrite map_size_insert_None by by rewrite lookup_delete_ne.
        rewrite map_size_delete_Some by eauto.
        assert (size previous <> 0%nat) by (apply map_size_ne_0_lookup; eauto). lia.
      * apply min_by_key_None in Hmin. rewrite map_to_list_empty_iff in Hmin. subst.
        rewrite map_size_empty in Hle. lia.
    + rewrite map_size_insert_None by done. lia.
Qed.

End Theorems.

(** * Main results *)

(** The three sample windows of [sample_reader] cover exactly
    [min(size, budget)] bytes, stay inside the file and do not overlap, whatever
    the file size and the budget. *)
Theorem sample_plan_correct (size budget : Z) :
  0 <= size -> 0 <= budget ->
  let ps := sample_positions size budget in
  sumZ (map snd ps) = Z.min size budget
  /\ Forall (fun p => 0 <= p.1 /\ 0 <= p.2 /\ p.1 + p.2 <= size /\ p.2 <= budget) ps
  /\ Sorted (fun p q => p.1 + p.2 <= q.1) ps.
Proof.
  intros Hs Hb. split; [|split].
  - by apply sample_positions_total.
  - by apply sample_positions_bounds.
  - by apply sample_positions_disjoint.
Qed.

Lemma sample_plan_correct_witness :
  let ps := sample_positions 100 11 in
  sumZ (map snd ps) = Z.min 100 11
  /\ Forall (fun p => 0 <= p.1 /\ 0 <= p.2 /\ p.1 + p.2 <= 100 /\ p.2 <= 11) ps
  /\ Sorted (fun p q => p.1 + p.2 <= q.1) ps.
Proof. apply (sample_plan_correct 100 11); lia. Defined.

(** What the sampler records is what [encryption_signal] accepts: reading
    a non-empty regular file whose length did not change succeeds, and the
    evidence is rejected as malformed only if an entropy value is out of range. *)
Theorem sample_reader_accepted `{RustStd} (content : list Z) (requested t : Z) :
  0 < zlen content -> zlen content <= u64_max -> 0 < requested ->
  exists ev,
    sample_reader content (zlen content) requested t = Ok ev
    /\ ce_sampled_bytes ev = Z.min (zlen content) (Z.min requested MAX_SAMPLE_BYTES)
    /\ malformed_evidence ev
       = existsb (fun s => negb (f_is_finite (cs_entropy s))
                           || negb (f_in_range (f_of_Z 0) (f_of_Z 8) (cs_entropy s)))
           (ce_samples ev).
Proof.
  intros Hc Hmax Hr. set (budget := Z.min requested MAX_SAMPLE_BYTES).
  assert (Hb : 0 < budget <= MAX_SAMPLE_BYTES) by (unfold budget, MAX_SAMPLE_BYTES; lia).
  set (size := zlen content) in *.
  pose proof (sample_positions_bounds size budget ltac:(lia) ltac:(lia)) as Hpos.
  apply (Forall_filter_b _ (fun p => 0 <? p.2)) in Hpos.
  destruct (sample_reader content size requested t) as [ev|e] eqn:E; cycle 1.
  { exfalso. unfold sample_reader in E. fold budget in E.
    assert (Hok : is_ok (sample_loop content
      (List.filter (fun p => 0 <? p.2) (sample_positions size budget)) [] 0 "unknown") = true).
    { apply sample_loop_ok. eapply Forall_impl; [exact Hpos|]. simpl. fold size. intros; lia. }
    by destruct (sample_loop _ _ _ _ _) as [[[? ?] ?]|]. }
  exists ev. split; [done|].
  apply sample_reader_inv in E as (Hmap & Hsb & Hbud & Hfs & _ & _); [|lia..]. fold budget in Hmap, Hsb, Hbud.
  split; [done|].
  assert (Hsum : sumZ (map cs_length (ce_samples ev)) = Z.min size budget).
  { replace (map cs_length (ce_samples ev)) with
      (map snd (map (fun s => (cs_offset s, cs_length s)) (ce_samples ev)))
      by by rewrite map_map.
    rewrite Hmap, sumZ_filter_positive, sample_positions_total; [done|lia..|].
    eapply Forall_impl; [by apply sample_positions_bounds; lia|]. simpl. naive_solver. }
  assert (Hlen : 1 <= zlen (ce_samples ev) <= 3).
  { split.
    - destruct (ce_samples ev); [simpl in Hsum; lia|rewrite zlen_cons; pose proof (zlen_nonneg l); lia].
    - rewrite <- (zlen_map (fun s => (cs_offset s, cs_length s))), Hmap.
      etrans; [apply zlen_filter_le|apply sample_positions_length]. }
  rewrite <- Hmap in Hpos. rewrite Forall_map in Hpos.
  unfold malformed_evidence. rewrite Hsb, Hbud, Hfs, Hsum.
  rewrite (proj2 (Z.eqb_neq (zlen _) 0)), (proj2 (Z.ltb_ge 3 (zlen _))),
    (proj2 (Z.ltb_ge MAX_SAMPLE_BYTES _)), (proj2 (Z.ltb_ge budget (Z.min _ _))), Z.eqb_refl by lia.
  rewrite (proj2 (existsb_false_Forall (fun s => budget <? cs_length s) _));
    [simpl; apply existsb_ext_Forall|]; (eapply Forall_impl; [exact Hpos|]);
    intros s [(H1 & H2 & H3 & H4) H5]; simpl in *; [|apply Z.ltb_ge; lia].
  apply Z.ltb_lt in H5. rewrite (proj2 (Z.eqb_neq (cs_length s) 0)) by lia.
  unfold checked_add. rewrite (proj2 (Z.leb_le (cs_offset s + cs_length s) u64_max)) by lia.
  simpl. by rewrite (proj2 (Z.ltb_ge size _)) by lia.
Qed.

Lemma sample_reader_accepted_witness :
  let H := sample_std in
  exists ev,
    sample_reader [1; 2; 3; 4; 5] (zlen [1; 2; 3; 4; 5]) 3 9 = Ok ev
    /\ ce_sampled_bytes ev = Z.min (zlen [1; 2; 3; 4; 5]) (Z.min 3 MAX_SAMPLE_BYTES)
    /\ malformed_evidence ev
       = existsb (fun s => negb (f_is_finite (cs_entropy s))
                           || negb (f_in_range (f_of_Z 0) (f_of_Z 8) (cs_entropy s)))
           (ce_samples ev).
Proof. intros H. apply (sample_reader_accepted [1; 2; 3; 4; 5] 3 9); unfold zlen; simpl; unfold u64_max; lia. Defined.

(** C38: [file_entropy] terminates and its result does not depend on how the
    operating system splits the reads: it is the entropy of the first
    [min(max_bytes, 1 MiB)] bytes. *)
Theorem file_entropy_prefix `{RustStd} (fuel : nat) (chunk : nat -> nat) (content : list Z)
    (max_bytes : Z) :
  (Z.to_nat (Z.min max_bytes MAX_SAMPLE_BYTES) < fuel)%nat ->
  file_entropy fuel chunk (Some content) max_bytes
  = Some (Ok (shannon_entropy (take (Z.to_nat (Z.min max_bytes MAX_SAMPLE_BYTES)) content))).
Proof. intros Hf. unfold file_entropy. by rewrite read_loop_spec. Qed.

Lemma file_entropy_prefix_witness :
  let H := sample_std in
  file_entropy 5 (fun _ => 0%nat) (Some [7; 7; 8; 9; 9; 9]) 4
  = Some (Ok (shannon_entropy [7; 7; 8; 9])).
Proof. intros H. apply (file_entropy_prefix 5 (fun _ => 0%nat) [7; 7; 8; 9; 9; 9] 4). vm_compute. lia. Defined.

(** the sampler's history never exceeds its configured number of files,
    and an observation leaves only entries of the history window, none from
    the future of the observation. *)
Theorem sampler_history_bounded `{RustStd} (s : ContentSampler) (path : string)
    (fo : FileObservation) (t : Z) :
  0 < sampler_max_files s ->
  0 <= sampler_budget s -> 0 <= fo_len_before fo ->
  Z.of_nat (size (sampler_previous s)) <= sampler_max_files s ->
  let '(s', r) := sampler_observe s path fo t in
  Z.of_nat (size (sampler_previous s')) <= sampler_max_files s'
  /\ (is_ok r = true -> 0 <= sampler_history_ms s -> 0 <= t ->
      map_Forall (fun _ ev => sat_sub t (sampler_history_ms s) <= ce_observed_at_ms ev <= t)
        (sampler_previous s')).
Proof.
  intros Hm Hbud Hlen Hs. unfold sampler_observe.
  destruct (fo_opened fo); simpl; [|done]. destruct (fo_is_file fo); simpl; [|done].
  destruct (sample_reader _ _ _ _) as [ev|] eqn:E; simpl; [|done].
  destruct (_ || _); simpl; [done|].
  set (kept := filter _ (sampler_previous s)).
  assert (Hk : Z.of_nat (size kept) <= sampler_max_files s).
  { unfold kept. etrans; [|exact Hs]. apply inj_le. by apply map_size_filter. }
  set (ev' := match opt_filter _ _ with Some _ => _ | None => _ end).
  assert (Hev' : ce_observed_at_ms ev' = t).
  { apply sample_reader_inv in E as (_ & _ & _ & _ & Ht & _); [|done..].
    unfold ev'. destruct (opt_filter _ _) as [p|]; [|done].
    unfold with_increase. by destruct (_ && _). }
  rewrite (proj2 (Z.ltb_lt 0 _) Hm).
  assert (Hin : map_Forall (fun _ ev => sat_sub t (sampler_history_ms s) <= ce_observed_at_ms ev <= t) kept).
  { intros k v Hv. unfold kept in Hv. apply map_lookup_filter_Some in Hv as [_ Hv]. exact Hv. }
  destruct (slen path <=? 4096); simpl; [|by split].
  split.
  - by apply evict_oldest_size.
  - intros _ Hh Ht. apply map_Forall_insert_2; [|].
    + rewrite Hev'. split; [|lia]. unfold sat_sub. lia.
    + unfold evict_oldest. destruct (_ && _); [|done].
      destruct (min_by_key _ _) as [[k v]|]; [by apply map_Forall_delete|done].
Qed.

Definition sample_file (bytes : list Z) : FileObservation :=
  mkFileObservation true true (zlen bytes) (Some 5) bytes (zlen bytes) (Some 5).

Lemma sampler_history_bounded_witness :
  let H := sample_std in
  let s := ContentSampler_new 4 1 60 in
  let s1 := fst (sampler_observe s "/a" (sample_file [1; 2; 3]) 100) in
  let '(s', r) := sampler_observe s1 "/b" (sample_file [4; 5; 6]) 200 in
  Z.of_nat (size (sampler_previous s')) <= sampler_max_files s'
  /\ (is_ok r = true -> 0 <= sampler_history_ms s1 -> 0 <= 200 ->
      map_Forall (fun _ ev => sat_sub 200 (sampler_history_ms s1) <= ce_observed_at_ms ev <= 200)
        (sampler_previous s')).
Proof.
  intros H. apply (sampler_history_bounded
    (fst (sampler_observe (ContentSampler_new 4 1 60) "/a" (sample_file [1; 2; 3]) 100))
    "/b" (sample_file [4; 5; 6]) 200); vm_compute; congruence.
Defined.

(** A positive encryption signal is always backed by evidence: sound
    samples with one at or above the threshold, and either a comparable
    increase over an earlier observation or a first observation of a file
    whose type is not naturally dense (archives, media and executables never
    signal on first sight). *)
Theorem encryption_signal_sound (event : FileEvent) (config : DetectionConfig)
    (c : ContentEvidence) :
  sm_enabled (dc_content_sampling config) = true ->
  fe_content event = Some c ->
  encryption_signal event config = true ->
  malformed_evidence c = false
  /\ (exists s, s ∈ ce_samples c
        /\ f_ge (cs_entropy s) (dc_entropy_threshold config) = true)
  /\ (entropy_comparable c (sm_min_entropy_increase (dc_content_sampling config)) = true
      \/ (naturally_dense (ce_file_type c) = false
          /\ ce_previous_observed_at_ms c = None)).
Proof.
  intros He Hc. unfold encryption_signal, opt_filter. rewrite Hc, He.
  destruct (malformed_evidence c); [done|]. intros Hsig. split_bools. split; [done|]. split.
  - match goal with Hx : existsb _ _ = true |- _ => apply existsb_exists in Hx as (s & Hin & Hs) end.
    exists s. split; [by apply list_elem_of_In|done].
  - match goal with Hx : (_ || _) = true |- _ => apply orb_true_iff in Hx as [Hx|Hx] end; [by left|].
    right. split_bools. split; [done|]. revert H0.
    by destruct (ce_previous_observed_at_ms c).
Qed.

Definition sampled_event (kind : string) : FileEvent :=
  mkFileEvent 10 42 "/data/a" Modify (Some 4) None None
    (Some (mkContentEvidence 10 4 4 8 kind [mkContentSample 0 4 (f_of_Z 8)] true None None)).
Definition sampling_config : DetectionConfig :=
  {| dc_window_secs := 10; dc_mass_change_threshold := 30; dc_min_changed_files := 5;
     dc_entropy_threshold := f_lit 72 10; dc_detect_score := f_of_Z 40;
     dc_entropy_sample_bytes := 0; dc_exclude_paths := []; dc_approved_changes := [];
     dc_canary_paths := []; dc_multi_window := MultiWindowConfig_default;
     dc_content_sampling := mkContentSamplingConfig true 8 10 60 (f_of_Z 1) |}.

Lemma encryption_signal_sound_witness :
  encryption_signal (sampled_event "zip") sampling_config = false
  /\ malformed_evidence
       (mkContentEvidence 10 4 4 8 "unknown" [mkContentSample 0 4 (f_of_Z 8)] true None None) = false.
Proof.
  split; [reflexivity|].
  apply (encryption_signal_sound (sampled_event "unknown") sampling_config); reflexivity.
Defined.
