(* ===== verification/Scorer.v ===== *)
(** The sliding-window behaviour scorer (crates/argos-detect/src/scorer.rs):
    per-PID windows of recent events with bounded memory, a 0-100 risk score,
    eligibility, and alerts with a cooldown. *)
From Stdlib Require Import ZArith Lia.
From stdpp Require Import base gmap strings list pretty.
From S2P Require Import Prelude F64 RustPath Common Entropy.
#[local] Open Scope Z_scope.

Record Evaluation := mkEvaluation {
  ev_score : f64;
  ev_pid : Z;
  ev_eligible : bool;
  ev_alert : option Detection;
  ev_approved_change_id : option string;
  ev_additional_alerts : list Detection;
  ev_evidence_truncated : bool;
}.

Definition block_candidate (e : Evaluation) (response : ResponseConfig) : bool :=
  ev_eligible e && negb (ev_pid e =? 0) && f_ge (ev_score e) (rc_block_score response).

Definition should_block (e : Evaluation) (response : ResponseConfig) : bool :=
  rc_auto_block response && block_candidate e response.

Record WindowEntry := mkWindowEntry {
  we_timestamp_ms : Z;
  we_path : string;
  we_action : FileAction;
  we_encryption_signal : bool;
}.

Record BehaviorScorer := mkBehaviorScorer {
  bs_config : DetectionConfig;
  bs_sensor : SensorKind;
  bs_windows : gmap Z (list WindowEntry);
  bs_last_emit : gmap Z (Z * f64);
  bs_process_identities : gmap Z (option (Z * string));
  bs_incomplete_until : option Z;
}.

Definition ESCALATION_DELTA : f64 := f_of_Z 15.

Definition scorer_with_sensor (config : DetectionConfig) (sensor : SensorKind) : BehaviorScorer :=
  mkBehaviorScorer config sensor ∅ ∅ ∅ None.
Definition scorer_new (config : DetectionConfig) : BehaviorScorer :=
  scorer_with_sensor config Notify.

(** * The score *)

(** A [HashSet] of strings, as the sorted list of its elements. *)
Definition distinct (l : list string) : list string := btree_set l.

Definition score_window (window : list WindowEntry) (config : DetectionConfig)
    (sensor : SensorKind) : f64 :=
  let distinct_paths := zlen (distinct (map we_path window)) in
  let renames := zlen (List.filter (fun e => bool_decide (we_action e = Rename)) window) in
  let deletes := zlen (List.filter (fun e => bool_decide (we_action e = Delete)) window) in
  let high_entropy_paths :=
    zlen (distinct (map we_path
      (List.filter (fun e => bool_decide (we_action e = Modify) && we_encryption_signal e) window))) in
  let mass :=
    f_mul (f_min (f_div (f_of_Z distinct_paths)
                    (f_of_Z (Z.max (dc_mass_change_threshold config) 1))) (f_of_Z 1))
      (f_of_Z 40) in
  let entropy_weight := match sensor with Notify => f_of_Z 35 | Fanotify => f_of_Z 60 end in
  let enc :=
    if distinct_paths =? 0 then f_of_Z 0
    else f_mul (f_div (f_of_Z high_entropy_paths) (f_of_Z distinct_paths)) entropy_weight in
  let churn :=
    if (zlen window =? 0) || bool_decide (sensor = Fanotify) then f_of_Z 0
    else f_mul (f_min (f_div (f_of_Z (renames + deletes)) (f_of_Z (zlen window))) (f_of_Z 1))
           (f_of_Z 25) in
  f_min (f_add (f_add mass enc) churn) (f_of_Z 100).

Definition severity (score : f64) : Severity :=
  if f_ge score (f_of_Z 85) then Critical
  else if f_ge score (f_of_Z 65) then High
  else if f_ge score (f_of_Z 40) then Medium
  else Low.

(** * Memory bounds *)

Definition window_ms (config : DetectionConfig) : Z := sat_mul (dc_window_secs config) 1000.
Definition max_groups (config : DetectionConfig) : Z :=
  clamp (mw_max_groups (dc_multi_window config)) 1 16384.
Definition max_events (config : DetectionConfig) : Z :=
  clamp (mw_max_events (dc_multi_window config)) 1 100000.

(** [windows.retain]: drop the events older than the horizon, then the empty windows. *)
Definition retain_window (horizon : Z) (window : list WindowEntry) : option (list WindowEntry) :=
  match List.filter (fun e => horizon <=? we_timestamp_ms e) window with
  | [] => None
  | kept => Some kept
  end.

Definition retain_recent (s : BehaviorScorer) (horizon : Z) : BehaviorScorer :=
  let windows := omap (retain_window horizon) (bs_windows s) in
  mkBehaviorScorer (bs_config s) (bs_sensor s) windows
    (filter (fun kv => is_Some (windows !! kv.1)) (bs_last_emit s))
    (filter (fun kv => is_Some (windows !! kv.1)) (bs_process_identities s))
    (bs_incomplete_until s).

Definition back_ts (window : list WindowEntry) : Z :=
  match list.last window with Some e => we_timestamp_ms e | None => 0 end.
Definition front_ts (window : list WindowEntry) : Z :=
  match window with e :: _ => we_timestamp_ms e | [] => 0 end.

(** A new PID at the group limit evicts the PID whose last event is oldest. *)
Definition evict_group (s : BehaviorScorer) (pid now : Z) : BehaviorScorer :=
  if negb (is_some (bs_windows s !! pid))
     && (max_groups (bs_config s) <=? Z.of_nat (size (bs_windows s)))
  then
    let incomplete := Some (sat_add now (window_ms (bs_config s))) in
    match min_by_key (fun kv => (back_ts kv.2, kv.1)) (map_to_list (bs_windows s)) with
    | Some (oldest, _) =>
        mkBehaviorScorer (bs_config s) (bs_sensor s) (delete oldest (bs_windows s))
          (delete oldest (bs_last_emit s)) (delete oldest (bs_process_identities s)) incomplete
    | None =>
        mkBehaviorScorer (bs_config s) (bs_sensor s) (bs_windows s) (bs_last_emit s)
          (bs_process_identities s) incomplete
    end
  else s.

Definition count_events (windows : gmap Z (list WindowEntry)) : Z := map_sum zlen windows.

(** One turn of [while count >= max_events]: pop the oldest front event. *)
Definition pop_oldest (windows : gmap Z (list WindowEntry)) : gmap Z (list WindowEntry) :=
  match min_by_key (fun kv => (front_ts kv.2, kv.1))
          (List.filter (fun kv => negb (zlen kv.2 =? 0)) (map_to_list windows)) with
  | Some (oldest, window) => <[oldest := tail window]> windows
  | None => windows
  end.

Fixpoint shed_events (count : nat) (limit until : Z) (windows : gmap Z (list WindowEntry))
    (incomplete : option Z) : gmap Z (list WindowEntry) * option Z :=
  if limit <=? Z.of_nat count then
    match count with
    | S count' => shed_events count' limit until (pop_oldest windows) (Some until)
    | O => (windows, incomplete)
    end
  else (windows, incomplete).

Definition make_room (s : BehaviorScorer) (now : Z) : BehaviorScorer :=
  let '(windows, incomplete) :=
    shed_events (Z.to_nat (count_events (bs_windows s))) (max_events (bs_config s))
      (sat_add now (window_ms (bs_config s))) (bs_windows s) (bs_incomplete_until s) in
  mkBehaviorScorer (bs_config s) (bs_sensor s) windows (bs_last_emit s)
    (bs_process_identities s) incomplete.

(** * Evaluation *)

Definition oversized (event : FileEvent) (config : DetectionConfig) : bool :=
  (mw_max_path_bytes (dc_multi_window config) <? slen (fe_path event))
  || is_some_and (fe_process event) (fun p => 128 <? slen (fp_boot_id p)).

Definition event_identity (event : FileEvent) : option (Z * string) :=
  (fun p => (fp_start_time_ticks p, fp_boot_id p)) <$> fe_process event.

(** Record the process identity; another process with this PID starts afresh. *)
Definition adopt_identity (s : BehaviorScorer) (pid : Z) (identity : option (Z * string))
    : BehaviorScorer :=
  let reused := is_some_and (bs_process_identities s !! pid)
                  (fun old => negb (bool_decide (old = identity))) in
  mkBehaviorScorer (bs_config s) (bs_sensor s)
    (if reused then delete pid (bs_windows s) else bs_windows s)
    (if reused then delete pid (bs_last_emit s) else bs_last_emit s)
    (<[pid := identity]> (bs_process_identities s)) (bs_incomplete_until s).

Fixpoint drop_old (horizon : Z) (window : list WindowEntry) : list WindowEntry :=
  match window with
  | e :: window' => if we_timestamp_ms e <? horizon then drop_old horizon window' else window
  | [] => []
  end.

Definition entry_of (event : FileEvent) (config : DetectionConfig) : WindowEntry :=
  mkWindowEntry (fe_timestamp_ms event) (fe_path event) (fe_action event)
    (encryption_signal event config).

(** The window of the event's PID after the event; an approved event adds nothing. *)
Definition push_event (s : BehaviorScorer) (event : FileEvent) (approved : option string)
    (horizon : Z) : list WindowEntry :=
  let window := default [] (bs_windows s !! fe_pid event) in
  drop_old horizon
    (match approved with None => window ++ [entry_of event (bs_config s)] | Some _ => window end).

Definition incomplete_at (incomplete_until : option Z) (now : Z) : bool :=
  is_some_and incomplete_until (fun until => now <=? until).

Definition in_cooldown (s : BehaviorScorer) (pid now : Z) (score : f64) : bool :=
  is_some_and (bs_last_emit s !! pid) (fun last =>
    (sat_sub now last.1 <? window_ms (bs_config s))
    && f_lt score (f_add last.2 ESCALATION_DELTA)).

Definition alert_summary (window_secs files events : Z) (score : f64) : string :=
  pretty window_secs +:+ "초 내 파일 " +:+ pretty files +:+ "개 변경 (이벤트 "
  +:+ pretty events +:+ "건, 위험 점수 " +:+ f_display0 score +:+ ")".

Definition behavior_alert (s : BehaviorScorer) (event : FileEvent) (window : list WindowEntry)
    (score : f64) : Detection :=
  let paths := distinct (map we_path window) in
  {| d_timestamp_ms := fe_timestamp_ms event;
     d_rule := "behavior.ransomware_pattern";
     d_score := score;
     d_severity := severity score;
     d_summary := alert_summary (dc_window_secs (bs_config s)) (zlen paths) (zlen window) score;
     d_pid := fe_pid event;
     d_paths := take 20 paths |}.

(** State before the event is scored: old events gone, room made. *)
Definition prepare (s : BehaviorScorer) (event : FileEvent) : BehaviorScorer :=
  let now := fe_timestamp_ms event in
  let s := retain_recent s (sat_sub now (window_ms (bs_config s))) in
  make_room (evict_group s (fe_pid event) now) now.

Definition evaluate_with_approval (s : BehaviorScorer) (event : FileEvent)
    (approved : option string) : BehaviorScorer * Evaluation :=
  let now := fe_timestamp_ms event in
  let pid := fe_pid event in
  let s := prepare s event in
  if oversized event (bs_config s) then
    (s, mkEvaluation (f_of_Z 0) pid false None approved [] true)
  else
    let s := adopt_identity s pid (event_identity event) in
    let window := push_event s event approved (sat_sub now (window_ms (bs_config s))) in
    let s := mkBehaviorScorer (bs_config s) (bs_sensor s) (<[pid := window]> (bs_windows s))
               (bs_last_emit s) (bs_process_identities s) (bs_incomplete_until s) in
    let changed_files := zlen (distinct (map we_path window)) in
    let score := score_window window (bs_config s) (bs_sensor s) in
    let truncated := incomplete_at (bs_incomplete_until s) now in
    let eligible := (dc_min_changed_files (bs_config s) <=? changed_files) && negb truncated in
    let evaluation := mkEvaluation score pid eligible None approved [] truncated in
    if negb eligible || f_lt score (dc_detect_score (bs_config s)) then (s, evaluation)
    else if in_cooldown s pid now score then (s, evaluation)
    else
      (mkBehaviorScorer (bs_config s) (bs_sensor s) (bs_windows s)
         (<[pid := (now, score)]> (bs_last_emit s)) (bs_process_identities s)
         (bs_incomplete_until s),
       mkEvaluation score pid eligible (Some (behavior_alert s event window score)) approved []
         truncated).

Definition scorer_evaluate (s : BehaviorScorer) (event : FileEvent)
    : BehaviorScorer * Evaluation := evaluate_with_approval s event None.
Definition scorer_observe (s : BehaviorScorer) (event : FileEvent)
    : BehaviorScorer * option Detection :=
  let '(s', e) := scorer_evaluate s event in (s', ev_alert e).

#[global] Arguments evaluate_with_approval : simpl never.
#[global] Arguments prepare : simpl never.
#[global] Arguments score_window : simpl never.
#[global] Arguments entry_of : simpl never.
#[global] Arguments oversized : simpl never.

(** * Lemmas: the score *)

Lemma distinct_nodup (l : list string) : NoDup (distinct l).
Proof. apply dedup_sort_nodup. Qed.

Lemma distinct_elem (l : list string) (x : string) : x ∈ distinct l <-> x ∈ l.
Proof. apply dedup_sort_elem. Qed.

Lemma distinct_length_le (l : list string) : zlen (distinct l) <= zlen l.
Proof.
  unfold zlen. apply inj_le. apply submseteq_length, NoDup_submseteq; [apply distinct_nodup|].
  intros x. by rewrite distinct_elem.
Qed.

(** Counts and thresholds of the code are [usize] values. *)
Lemma ratio_nonneg (a b : Z) :
  0 <= a -> 0 < b <= u64_max -> f_nonneg (f_div (f_of_Z a) (f_of_Z b)) = true.
Proof. auto with argos. Qed.

Lemma score_window_nonneg (window : list WindowEntry) (config : DetectionConfig)
    (sensor : SensorKind) :
  zlen window <= u64_max -> dc_mass_change_threshold config <= u64_max ->
  f_le (f_of_Z 0) (score_window window config sensor) = true
  /\ f_le (score_window window config sensor) (f_of_Z 100) = true.
Proof.
  intros Hlen Hthr. unfold score_window. apply f_capped_range; [|done].
  pose proof (distinct_length_le (map we_path window)) as Hd. rewrite zlen_map in Hd.
  assert (0 <= zlen (distinct (map we_path window))) by apply zlen_nonneg.
  pose proof (zlen_nonneg window) as Hw.
  apply f_add_nonneg; [apply f_add_nonneg|].
  - apply f_mul_nonneg; [|done]. apply f_min_nonneg; [|done].
    apply ratio_nonneg; [done|]. unfold u64_max in *. lia.
  - destruct (Z.eqb_spec (zlen (distinct (map we_path window))) 0); [done|].
    apply f_mul_nonneg; [|by destruct sensor].
    apply ratio_nonneg; [apply zlen_nonneg|lia].
  - destruct (Z.eqb_spec (zlen window) 0); [done|]. simpl.
    destruct (bool_decide _); [done|].
    apply f_mul_nonneg; [|done]. apply f_min_nonneg; [|done].
    apply ratio_nonneg; [|lia]. apply Z.add_nonneg_nonneg; apply zlen_nonneg.
Qed.

(** The score is a percentage for every window: counts have no sign, and [min]
    replaces a NaN. *)
Lemma score_window_range (window : list WindowEntry) (config : DetectionConfig) (sensor : SensorKind) :
  f_in_range (f_of_Z 0) (f_of_Z 100) (score_window window config sensor) = true.
Proof.
  unfold score_window. apply f_min_100. repeat case_match;
    repeat (apply f_add_unsigned || apply f_mul_unsigned || apply f_div_unsigned || apply f_min_unsigned
            || apply f_of_Z_unsigned || done || lia || apply zlen_nonneg || apply Z.add_nonneg_nonneg).
Qed.

(** * Lemmas: memory *)

Lemma max_groups_range (config : DetectionConfig) : 1 <= max_groups config <= 16384.
Proof. apply clamp_range. lia. Qed.
Lemma max_events_range (config : DetectionConfig) : 1 <= max_events config <= 100000.
Proof. apply clamp_range. lia. Qed.

Lemma retain_window_spec (horizon : Z) (w w' : list WindowEntry) :
  retain_window horizon w = Some w' ->
  w' = List.filter (fun e => horizon <=? we_timestamp_ms e) w /\ w' <> [].
Proof. unfold retain_window. destruct (List.filter _ w); naive_solver. Qed.

Lemma retain_window_length (horizon : Z) (w w' : list WindowEntry) :
  retain_window horizon w = Some w' -> zlen w' <= zlen w.
Proof. intros [-> _]%retain_window_spec. apply zlen_filter_le. Qed.

Lemma drop_old_suffix (horizon : Z) (w : list WindowEntry) :
  exists dropped, w = dropped ++ drop_old horizon w.
Proof.
  induction w as [|e w [d IH]]; simpl; [by exists []|].
  destruct (_ <? _); [exists (e :: d); by rewrite IH at 1|by exists []].
Qed.

Lemma drop_old_id (horizon : Z) (w : list WindowEntry) :
  Forall (fun e => horizon <= we_timestamp_ms e) w -> drop_old horizon w = w.
Proof. destruct 1 as [|e w He]; simpl; [done|]. by rewrite (proj2 (Z.ltb_ge _ _) He). Qed.

Lemma count_events_pop (windows : gmap Z (list WindowEntry)) :
  0 < count_events windows ->
  count_events (pop_oldest windows) = count_events windows - 1
  /\ size (pop_oldest windows) = size windows.
Proof.
  intros Hpos. unfold pop_oldest.
  destruct (min_by_key _ _) as [[pid w]|] eqn:Hmin.
  - apply min_by_key_elem, list_elem_of_In, filter_In in Hmin as [Hin Hne].
    apply list_elem_of_In, elem_of_map_to_list in Hin. simpl in Hne.
    destruct w as [|e w]; [done|]. unfold count_events.
    rewrite (map_sum_insert_Some zlen windows pid _ _ Hin). simpl. rewrite zlen_cons.
    split; [lia|]. by rewrite map_size_insert_Some.
  - exfalso. apply min_by_key_None in Hmin.
    assert (count_events windows <= 0); [|lia].
    unfold count_events, map_sum. induction (map_to_list windows) as [|[k w] l IH]; simpl; [lia|].
    simpl in Hmin. destruct w; simpl in *; [|done].
    apply IH in Hmin. unfold zlen at 1. simpl. lia.
Qed.

Lemma shed_events_spec (count : nat) (limit until : Z) windows incomplete :
  1 <= limit -> count_events windows = Z.of_nat count ->
  let '(windows', incomplete') := shed_events count limit until windows incomplete in
  count_events windows' = Z.min (Z.of_nat count) (limit - 1)
  /\ size windows' = size windows
  /\ incomplete' = if limit <=? Z.of_nat count then Some until else incomplete.
Proof.
  intros Hl. revert windows incomplete. induction count as [|count IH]; intros windows incomplete Hc;
    cbn [shed_events].
  - rewrite (proj2 (Z.leb_gt limit (Z.of_nat 0))) by lia. split; [lia|done].
  - destruct (Z.leb_spec limit (Z.of_nat (S count))) as [Hle|Hlt]; [|split; [lia|done]].
    destruct (count_events_pop windows ltac:(lia)) as [Hp1 Hp2].
    specialize (IH (pop_oldest windows) (Some until) ltac:(lia)).
    destruct (shed_events _ _ _ _ _) as [w' i'].
    destruct IH as (IH1 & IH2 & IH3). split; [lia|]. split; [congruence|].
    rewrite IH3. by destruct (_ <=? _).
Qed.

Lemma count_events_nonneg (windows : gmap Z (list WindowEntry)) : 0 <= count_events windows.
Proof. apply map_sum_nonneg. apply zlen_nonneg. Qed.

(** Memory stays bounded: at most [max_groups] windows, [max_events] events. *)
Definition scorer_bounded (s : BehaviorScorer) : Prop :=
  Z.of_nat (size (bs_windows s)) <= max_groups (bs_config s)
  /\ count_events (bs_windows s) <= max_events (bs_config s).

Lemma evict_group_size (s : BehaviorScorer) (pid now : Z) :
  Z.of_nat (size (bs_windows s)) <= max_groups (bs_config s) ->
  let w := bs_windows (evict_group s pid now) in
  Z.of_nat (size w) <= max_groups (bs_config s)
  /\ (is_Some (w !! pid) \/ Z.of_nat (size w) < max_groups (bs_config s)).
Proof.
  intros Hs. pose proof (max_groups_range (bs_config s)). unfold evict_group.
  destruct (bs_windows s !! pid) as [w|] eqn:Hp; simpl; [split; [done|left; by rewrite Hp]|].
  destruct (Z.leb_spec (max_groups (bs_config s)) (Z.of_nat (size (bs_windows s)))) as [Hle|]; simpl;
    [|split; [done|by right]].
  destruct (min_by_key _ _) as [[old w]|] eqn:Hmin; simpl.
  - apply min_by_key_elem, elem_of_map_to_list in Hmin.
    rewrite map_size_delete_Some by eauto. split; [lia|right].
    assert (size (bs_windows s) <> 0%nat) by (apply map_size_ne_0_lookup; eauto). lia.
  - apply min_by_key_None in Hmin. rewrite map_to_list_empty_iff in Hmin.
    rewrite Hmin, map_size_empty in Hle. lia.
Qed.

Lemma evict_group_config (s : BehaviorScorer) (pid now : Z) :
  bs_config (evict_group s pid now) = bs_config s.
Proof. unfold evict_group. destruct (_ && _); [|done]. by destruct (min_by_key _ _) as [[? ?]|]. Qed.

Lemma make_room_config (s : BehaviorScorer) (now : Z) :
  bs_config (make_room s now) = bs_config s.
Proof. unfold make_room. by destruct (shed_events _ _ _ _ _). Qed.

Lemma prepare_config (s : BehaviorScorer) (event : FileEvent) :
  bs_config (prepare s event) = bs_config s.
Proof. unfold prepare. by rewrite make_room_config, evict_group_config. Qed.

Lemma make_room_spec (s : BehaviorScorer) (now : Z) :
  count_events (bs_windows (make_room s now)) < max_events (bs_config s)
  /\ size (bs_windows (make_room s now)) = size (bs_windows s).
Proof.
  unfold make_room. pose proof (max_events_range (bs_config s)).
  pose proof (count_events_nonneg (bs_windows s)).
  pose proof (shed_events_spec (Z.to_nat (count_events (bs_windows s))) (max_events (bs_config s))
    (sat_add now (window_ms (bs_config s))) (bs_windows s) (bs_incomplete_until s)
    ltac:(lia) ltac:(lia)) as Hsh.
  destruct (shed_events _ _ _ _ _) as [w i]. simpl. destruct Hsh as (H1 & H2 & _). split; [lia|done].
Qed.

(** * Lemmas: where the evidence comes from *)

(** [w'] holds no more windows and no more events than [w]. *)
Definition shrinks (w' w : gmap Z (list WindowEntry)) : Prop :=
  forall pid l', w' !! pid = Some l' -> exists l, w !! pid = Some l /\ forall e, e ∈ l' -> e ∈ l.

#[export] Instance shrinks_refl : Reflexive shrinks.
Proof. intros w pid l Hl. by exists l. Qed.

#[export] Instance shrinks_trans : Transitive shrinks.
Proof.
  intros a b c Hab Hbc pid l Hl. destruct (Hab _ _ Hl) as (m & Hm & Hlm).
  destruct (Hbc _ _ Hm) as (n & Hn & Hmn). exists n. auto.
Qed.

Lemma shrinks_delete (w : gmap Z (list WindowEntry)) (pid : Z) : shrinks (delete pid w) w.
Proof. intros p l Hl. apply lookup_delete_Some in Hl as [_ Hl]. by exists l. Qed.

Lemma shrinks_pop (w : gmap Z (list WindowEntry)) : shrinks (pop_oldest w) w.
Proof.
  unfold pop_oldest. destruct (min_by_key _ _) as [[old l]|] eqn:Hmin; [|done].
  apply min_by_key_elem, list_elem_of_In, filter_In in Hmin as [Hin _].
  apply list_elem_of_In, elem_of_map_to_list in Hin.
  intros pid l' Hl'. destruct (decide (old = pid)) as [->|Hne].
  - rewrite lookup_insert_eq in Hl'. simplify_eq. exists l. split; [done|].
    destruct l; [done|]. set_solver.
  - rewrite lookup_insert_ne in Hl' by done. by exists l'.
Qed.

Lemma shrinks_shed (count : nat) (limit until : Z) w incomplete :
  shrinks (fst (shed_events count limit until w incomplete)) w.
Proof.
  revert w incomplete. induction count as [|count IH]; intros w incomplete; cbn [shed_events];
    destruct (_ <=? _); try done.
  etrans; [apply IH|apply shrinks_pop].
Qed.

Lemma shed_events_dom (count : nat) (limit until : Z) w incomplete (pid : Z) :
  is_Some (fst (shed_events count limit until w incomplete) !! pid) <-> is_Some (w !! pid).
Proof.
  revert w incomplete. induction count as [|count IH]; intros w incomplete; cbn [shed_events];
    destruct (_ <=? _); try done.
  rewrite IH. unfold pop_oldest.
  destruct (min_by_key _ _) as [[old l]|] eqn:Hmin; [|done].
  apply min_by_key_elem, list_elem_of_In, filter_In in Hmin as [Hin _].
  apply list_elem_of_In, elem_of_map_to_list in Hin.
  rewrite lookup_insert. case_decide; [subst|done]. rewrite Hin. by split; eauto.
Qed.

Lemma shrinks_retain (s : BehaviorScorer) (horizon : Z) :
  shrinks (bs_windows (retain_recent s horizon)) (bs_windows s).
Proof.
  intros pid l Hl. simpl in Hl. rewrite lookup_omap in Hl.
  destruct (bs_windows s !! pid) as [w|]; [|done]. simpl in Hl.
  apply retain_window_spec in Hl as [-> _]. exists w. split; [done|].
  intros e He. apply list_elem_of_In, filter_In in He as [He _]. by apply list_elem_of_In.
Qed.

Lemma shrinks_evict (s : BehaviorScorer) (pid now : Z) :
  shrinks (bs_windows (evict_group s pid now)) (bs_windows s).
Proof.
  unfold evict_group. destruct (_ && _); [|done].
  destruct (min_by_key _ _) as [[old w]|]; simpl; [apply shrinks_delete|done].
Qed.

Lemma shrinks_make_room (s : BehaviorScorer) (now : Z) :
  shrinks (bs_windows (make_room s now)) (bs_windows s).
Proof.
  unfold make_room. pose proof (shrinks_shed (Z.to_nat (count_events (bs_windows s)))
    (max_events (bs_config s)) (sat_add now (window_ms (bs_config s))) (bs_windows s)
    (bs_incomplete_until s)) as Hs.
  by destruct (shed_events _ _ _ _ _).
Qed.

Lemma shrinks_prepare (s : BehaviorScorer) (event : FileEvent) :
  shrinks (bs_windows (prepare s event)) (bs_windows s).
Proof.
  unfold prepare. etrans; [apply shrinks_make_room|]. etrans; [apply shrinks_evict|].
  apply shrinks_retain.
Qed.

(** After [prepare] every remaining event is inside the window. *)
Lemma prepare_recent (s : BehaviorScorer) (event : FileEvent) (pid : Z) (l : list WindowEntry) :
  bs_windows (prepare s event) !! pid = Some l ->
  Forall (fun e => sat_sub (fe_timestamp_ms event) (window_ms (bs_config s))
                   <= we_timestamp_ms e) l.
Proof.
  intros Hl. unfold prepare in Hl.
  apply shrinks_make_room in Hl as (l1 & Hl1 & Hsub). apply shrinks_evict in Hl1 as (l2 & Hl2 & Hsub2).
  simpl in Hl2. rewrite lookup_omap in Hl2.
  destruct (bs_windows s !! pid) as [w|]; [|done]. simpl in Hl2.
  apply retain_window_spec in Hl2 as [-> _].
  apply Forall_forall. intros e He. apply Hsub, Hsub2, list_elem_of_In, filter_In in He as [_ He].
  by apply Z.leb_le.
Qed.

(** The identity recorded for a PID survives [prepare] as long as its window does. *)
Lemma prepare_identity (s : BehaviorScorer) (event : FileEvent) (pid : Z) :
  is_Some (bs_windows (prepare s event) !! pid) ->
  bs_process_identities (prepare s event) !! pid = bs_process_identities s !! pid.
Proof.
  unfold prepare. set (s1 := retain_recent s _). set (s2 := evict_group s1 _ _). intros Hp.
  assert (Hp2 : is_Some (bs_windows s2 !! pid)).
  { destruct Hp as [l Hl]. apply shrinks_make_room in Hl as (l' & Hl' & _). eauto. }
  assert (E : bs_process_identities (make_room s2 (fe_timestamp_ms event))
              = bs_process_identities s2)
    by (unfold make_room; by destruct (shed_events _ _ _ _ _)).
  rewrite E. clear E.
  assert (Hp1 : is_Some (bs_windows s1 !! pid)).
  { destruct Hp2 as [l Hl]. apply shrinks_evict in Hl as (l' & Hl' & _). eauto. }
  assert (E : bs_process_identities s2 !! pid = bs_process_identities s1 !! pid).
  { unfold s2, evict_group in *. destruct (_ && _); [|done].
    destruct (min_by_key _ _) as [[old w]|]; [|done]. simpl in *.
    destruct (decide (old = pid)) as [->|]; [|by rewrite lookup_delete_ne].
    rewrite lookup_delete_eq in Hp2. by destruct Hp2. }
  rewrite E. simpl. rewrite map_lookup_filter. simpl in Hp1.
  destruct (bs_process_identities s !! pid); [|done]. simpl. by case_guard.
Qed.

(** [h] is the list of events seen so far, most recent last, each with the
    approved change that excused it, if any. *)
Definition history := list (FileEvent * option string).

Definition run (config : DetectionConfig) (sensor : SensorKind) (h : history) : BehaviorScorer :=
  fold_left (fun s ea => fst (evaluate_with_approval s ea.1 ea.2)) h
    (scorer_with_sensor config sensor).

Definition comes_from (h : history) (config : DetectionConfig) (pid : Z)
    (id : option (Z * string)) (e : WindowEntry) : Prop :=
  exists ev, (ev, None) ∈ h /\ fe_pid ev = pid /\ event_identity ev = id
    /\ entry_of ev config = e.

(** Every stored event was unapproved and came from the process recorded for its PID. *)
Definition tracked (h : history) (s : BehaviorScorer) : Prop :=
  forall pid l, bs_windows s !! pid = Some l ->
    exists id, bs_process_identities s !! pid = Some id
      /\ forall e, e ∈ l -> comes_from h (bs_config s) pid id e.

Lemma tracked_mono (h h' : history) (s : BehaviorScorer) :
  (forall x, x ∈ h -> x ∈ h') -> tracked h s -> tracked h' s.
Proof.
  intros Hsub Ht pid l Hl. destruct (Ht _ _ Hl) as (id & Hid & Hfrom). exists id. split; [done|].
  intros e He. destruct (Hfrom _ He) as (ev & Hev & ?). exists ev. auto.
Qed.

Lemma tracked_prepare (h : history) (s : BehaviorScorer) (event : FileEvent) :
  tracked h s -> tracked h (prepare s event).
Proof.
  intros Ht pid l Hl. destruct (shrinks_prepare _ _ _ _ Hl) as (l0 & Hl0 & Hsub).
  destruct (Ht _ _ Hl0) as (id & Hid & Hfrom). exists id.
  rewrite prepare_identity by eauto. rewrite prepare_config. auto.
Qed.

Lemma tracked_adopt_push (h : history) (s : BehaviorScorer) (event : FileEvent)
    (approved : option string) (horizon : Z) :
  tracked h s ->
  let s1 := adopt_identity s (fe_pid event) (event_identity event) in
  forall e, e ∈ push_event s1 event approved horizon ->
    comes_from (h ++ [(event, approved)]) (bs_config s) (fe_pid event) (event_identity event) e.
Proof.
  intros Ht s1 e He. unfold push_event in He.
  destruct (drop_old_suffix horizon
    (match approved with None => default [] (bs_windows s1 !! fe_pid event)
                                 ++ [entry_of event (bs_config s1)]
     | Some _ => default [] (bs_windows s1 !! fe_pid event) end)) as [d Hd].
  assert (He' : e ∈ match approved with None => default [] (bs_windows s1 !! fe_pid event)
                                 ++ [entry_of event (bs_config s1)]
     | Some _ => default [] (bs_windows s1 !! fe_pid event) end) by (rewrite Hd; set_solver).
  assert (Hold : e ∈ default [] (bs_windows s1 !! fe_pid event) ->
    comes_from (h ++ [(event, approved)]) (bs_config s) (fe_pid event) (event_identity event) e).
  { intros Hin. unfold s1, adopt_identity in Hin. simpl in Hin.
    set (reused := is_some_and _ _) in Hin.
    destruct reused eqn:Hr; [by rewrite lookup_delete_eq in Hin; set_solver|].
    destruct (bs_windows s !! fe_pid event) as [l|] eqn:Hl; [|set_solver]. simpl in Hin.
    destruct (Ht _ _ Hl) as (id & Hid & Hfrom). unfold reused in Hr. rewrite Hid in Hr. simpl in Hr.
    apply negb_false_iff, bool_decide_eq_true in Hr. subst id.
    destruct (Hfrom _ Hin) as (ev & Hev & ?). exists ev. split; [set_solver|done]. }
  destruct approved as [a|]; [by apply Hold|].
  apply elem_of_app in He' as [He'|He']; [by apply Hold|].
  apply list_elem_of_singleton in He' as ->. exists event. split; [set_solver|done].
Qed.

(** * One evaluation, summarised *)

Record scored (s : BehaviorScorer) (event : FileEvent) (approved : option string)
    (s' : BehaviorScorer) (e : Evaluation) (w : list WindowEntry) : Prop := {
  scored_window : w = push_event (adopt_identity (prepare s event) (fe_pid event)
      (event_identity event)) event approved
      (sat_sub (fe_timestamp_ms event) (window_ms (bs_config s)));
  scored_windows : bs_windows s' = <[fe_pid event := w]>
      (bs_windows (adopt_identity (prepare s event) (fe_pid event) (event_identity event)));
  scored_identities : bs_process_identities s' =
      <[fe_pid event := event_identity event]> (bs_process_identities (prepare s event));
  scored_config : bs_config s' = bs_config s;
  scored_incomplete : bs_incomplete_until s' = bs_incomplete_until (prepare s event);
  scored_score : ev_score e = score_window w (bs_config s) (bs_sensor s');
  scored_pid : ev_pid e = fe_pid event;
  scored_eligible : ev_eligible e =
      (dc_min_changed_files (bs_config s) <=? zlen (distinct (map we_path w)))
      && negb (incomplete_at (bs_incomplete_until s') (fe_timestamp_ms event));
}.

Lemma prepare_sensor (s : BehaviorScorer) (event : FileEvent) :
  bs_sensor (prepare s event) = bs_sensor s.
Proof.
  unfold prepare, make_room. cbv zeta. destruct (shed_events _ _ _ _ _). cbn [bs_sensor].
  unfold evict_group. destruct (_ && _); [|done]. by destruct (min_by_key _ _) as [[? ?]|].
Qed.

(** What every branch has in common. *)
Lemma evaluate_frame (s : BehaviorScorer) (event : FileEvent) (approved : option string) :
  let r := evaluate_with_approval s event approved in
  bs_sensor r.1 = bs_sensor s /\ ev_pid r.2 = fe_pid event /\ ev_approved_change_id r.2 = approved.
Proof.
  cbv zeta. rewrite <- (prepare_sensor s event).
  unfold evaluate_with_approval. cbv zeta.
  destruct (oversized _ _); [done|].
  match goal with |- context [if ?b then _ else _] => destruct b end; [done|].
  by match goal with |- context [if ?b then _ else _] => destruct b end.
Qed.

Lemma evaluate_cases (s : BehaviorScorer) (event : FileEvent) (approved : option string) :
  let '(s', e) := evaluate_with_approval s event approved in
  (oversized event (bs_config s) = true /\ s' = prepare s event /\ ev_eligible e = false)
  \/ (oversized event (bs_config s) = false /\ exists w, scored s event approved s' e w).
Proof.
  unfold evaluate_with_approval. cbv zeta. rewrite prepare_config.
  destruct (oversized event (bs_config s)); [by left|].
  assert (Hc : bs_config (adopt_identity (prepare s event) (fe_pid event) (event_identity event))
               = bs_config s) by apply prepare_config.
  cbn [bs_config bs_sensor bs_windows bs_last_emit bs_process_identities bs_incomplete_until].
  rewrite Hc.
  repeat match goal with |- context [if ?b then _ else _] => destruct b end;
    right; (split; [reflexivity|]); eexists; split;
    first [reflexivity | apply prepare_config].
Qed.

Lemma tracked_evaluate (h : history) (s : BehaviorScorer) (event : FileEvent)
    (approved : option string) :
  tracked h s ->
  tracked (h ++ [(event, approved)]) (fst (evaluate_with_approval s event approved)).
Proof.
  intros Ht. pose proof (evaluate_cases s event approved) as Hc.
  destruct (evaluate_with_approval s event approved) as [s' e]; cbn [fst].
  destruct Hc as [(_ & -> & _)|(_ & w & [Hw Hwin Hid Hcfg _ _ _ _])].
  { eapply tracked_mono; [|by apply tracked_prepare]. set_solver. }
  intros pid l Hl. rewrite Hwin in Hl. rewrite Hid, Hcfg.
  destruct (decide (fe_pid event = pid)) as [<-|Hne].
  - rewrite lookup_insert_eq in Hl. simplify_eq. eexists; split; [apply lookup_insert_eq|].
    intros x Hx. rewrite <- (prepare_config s event).
    eapply tracked_adopt_push; [by apply tracked_prepare|exact Hx].
  - rewrite lookup_insert_ne in Hl by done.
    assert (Hl' : bs_windows (prepare s event) !! pid = Some l).
    { unfold adopt_identity in Hl. simpl in Hl. destruct (is_some_and _ _); [|done].
      by rewrite lookup_delete_ne in Hl. }
    destruct (tracked_prepare _ _ event Ht _ _ Hl') as (id & Hid' & Hfrom).
    exists id. rewrite lookup_insert_ne by done. split; [done|]. rewrite prepare_config in Hfrom.
    intros x Hx. destruct (Hfrom _ Hx) as (ev & Hev & ?). exists ev.
    split; [apply elem_of_app; by left|done].
Qed.

Lemma run_snoc (config : DetectionConfig) (sensor : SensorKind) (h : history) x :
  run config sensor (h ++ [x]) = fst (evaluate_with_approval (run config sensor h) x.1 x.2).
Proof. unfold run. by rewrite fold_left_app. Qed.

Lemma run_config (config : DetectionConfig) (sensor : SensorKind) (h : history) :
  bs_config (run config sensor h) = config.
Proof.
  induction h as [|[ev a] h IH] using rev_ind; [done|]. rewrite run_snoc. cbn [fst snd].
  pose proof (evaluate_cases (run config sensor h) ev a) as Hc.
  destruct (evaluate_with_approval _ ev a) as [s' e]; cbn [fst].
  destruct Hc as [(_ & -> & _)|(_ & w & Hs)]; [by rewrite prepare_config|].
  by rewrite (scored_config _ _ _ _ _ _ Hs).
Qed.

Lemma run_tracked (config : DetectionConfig) (sensor : SensorKind) (h : history) :
  tracked h (run config sensor h).
Proof.
  induction h as [|[ev a] h IH] using rev_ind; [intros pid l Hl; exfalso; by apply (lookup_empty_Some pid l)|].
  rewrite run_snoc. by apply tracked_evaluate.
Qed.

Lemma run_sensor (config : DetectionConfig) (sensor : SensorKind) (h : history) :
  bs_sensor (run config sensor h) = sensor.
Proof.
  induction h as [|x h IH] using rev_ind; [done|]. rewrite run_snoc.
  by destruct (evaluate_frame (run config sensor h) x.1 x.2) as (-> & _).
Qed.

Lemma evaluate_percent (s : BehaviorScorer) (event : FileEvent) (approved : option string) :
  f_in_range (f_of_Z 0) (f_of_Z 100) (ev_score (evaluate_with_approval s event approved).2) = true.
Proof.
  unfold evaluate_with_approval. cbv zeta. destruct (oversized _ _); [done|].
  repeat (match goal with |- context [if ?b then _ else _] => destruct b end); apply score_window_range.
Qed.

Lemma collect_sources (h : history) config pid id (w : list WindowEntry) :
  (forall e, e ∈ w -> comes_from h config pid id e) ->
  exists evs, map (fun ev => entry_of ev config) evs = w
    /\ Forall (fun ev => (ev, None) ∈ h /\ fe_pid ev = pid /\ event_identity ev = id) evs.
Proof.
  induction w as [|e w IH]; intros Hw; [by exists []|].
  destruct (Hw e) as (ev & Hh & Hp & Hi & He); [set_solver|].
  destruct IH as (evs & Hmap & Hall); [intros; apply Hw; set_solver|].
  exists (ev :: evs). simpl. split; [congruence|]. by constructor.
Qed.

Lemma push_event_length (s : BehaviorScorer) (event : FileEvent) (approved : option string)
    (horizon : Z) :
  zlen (push_event s event approved horizon)
  <= 1 + zlen (default [] (bs_windows s !! fe_pid event)).
Proof.
  unfold push_event. generalize (default [] (bs_windows s !! fe_pid event)); intros l.
  generalize (entry_of event (bs_config s)); intros x.
  match goal with |- context [drop_old ?h ?k] =>
    destruct (drop_old_suffix h k) as [d Hd]; apply (f_equal zlen) in Hd end.
  rewrite zlen_app in Hd. pose proof (zlen_nonneg d).
  destruct approved; [lia|]. rewrite zlen_app, zlen_cons in Hd.
  change (zlen []) with 0 in Hd. lia.
Qed.

(** Storing the event's window in a map with room keeps both bounds. *)
Lemma insert_window_bounds (windows : gmap Z (list WindowEntry)) (pid groups : Z)
    (reused : bool) (w : list WindowEntry) :
  let base := if reused then delete pid windows else windows in
  is_Some (windows !! pid) \/ Z.of_nat (size windows) < groups ->
  Z.of_nat (size windows) <= groups ->
  zlen w <= 1 + zlen (default [] (base !! pid)) ->
  Z.of_nat (size (<[pid:=w]> base)) <= groups
  /\ count_events (<[pid:=w]> base) <= count_events windows + 1.
Proof.
  intros base Hdom Hsize Hlen. unfold base, count_events in *. clear base.
  destruct (windows !! pid) as [l|] eqn:Hl.
  - pose proof (zlen_nonneg l). destruct reused; cbv iota in *.
    + rewrite lookup_delete_eq in Hlen. change (zlen (default [] None)) with 0 in Hlen.
      rewrite map_sum_insert_None by apply lookup_delete_eq.
      rewrite (map_sum_delete _ _ _ _ Hl), insert_delete_eq, map_size_insert_Some by eauto. lia.
    + rewrite Hl in Hlen. cbn [default] in Hlen.
      rewrite (map_sum_insert_Some _ _ _ _ _ Hl), map_size_insert_Some by eauto.
      unfold id in Hlen. lia.
  - destruct Hdom as [[? ?]|]; [done|].
    assert (Hb : (if reused then delete pid windows else windows) = windows)
      by (destruct reused; [by apply delete_id|done]).
    rewrite Hb in *. rewrite Hl in Hlen. change (zlen (default [] None)) with 0 in Hlen.
    rewrite map_sum_insert_None, map_size_insert_None by done. lia.
Qed.

Lemma bounded_evaluate (s : BehaviorScorer) (event : FileEvent) (approved : option string) :
  scorer_bounded s -> scorer_bounded (fst (evaluate_with_approval s event approved)).
Proof.
  intros [Hsize Hcount]. pose proof (evaluate_cases s event approved) as Hc.
  destruct (evaluate_with_approval s event approved) as [s' e]; cbn [fst].
  set (s1 := retain_recent s (sat_sub (fe_timestamp_ms event) (window_ms (bs_config s)))).
  assert (H1 : Z.of_nat (size (bs_windows s1)) <= max_groups (bs_config s1)).
  { unfold s1. simpl. etrans; [apply inj_le, map_size_omap_le|done]. }
  destruct (evict_group_size s1 (fe_pid event) (fe_timestamp_ms event) H1) as [H2 H3].
  set (s2 := evict_group s1 (fe_pid event) (fe_timestamp_ms event)) in *.
  assert (Hcfg2 : bs_config s2 = bs_config s) by (unfold s2; by rewrite evict_group_config).
  destruct (make_room_spec s2 (fe_timestamp_ms event)) as [H4 H5].
  assert (Hprep : prepare s event = make_room s2 (fe_timestamp_ms event)) by done.
  rewrite <- Hprep in H4, H5. simpl in H1, H2, H3. rewrite Hcfg2 in H4.
  destruct Hc as [(_ & -> & _)|(_ & w & [Hw Hwin _ Hcfg _ _ _ _])].
  { split; rewrite prepare_config; [by rewrite H5|lia]. }
  assert (Hdom : is_Some (bs_windows (prepare s event) !! fe_pid event)
                 \/ Z.of_nat (size (bs_windows (prepare s event))) < max_groups (bs_config s)).
  { rewrite H5. destruct H3 as [H3|H3]; [left|by right]. rewrite Hprep. unfold make_room.
    pose proof (shed_events_dom (Z.to_nat (count_events (bs_windows s2))) (max_events (bs_config s2))
      (sat_add (fe_timestamp_ms event) (window_ms (bs_config s2))) (bs_windows s2)
      (bs_incomplete_until s2) (fe_pid event)) as Hd.
    destruct (shed_events _ _ _ _ _). by apply Hd. }
  pose proof (push_event_length (adopt_identity (prepare s event) (fe_pid event)
    (event_identity event)) event approved
    (sat_sub (fe_timestamp_ms event) (window_ms (bs_config s)))) as Hlen.
  rewrite <- Hw in Hlen.
  assert (Hsz : Z.of_nat (size (bs_windows (prepare s event))) <= max_groups (bs_config s)) by lia.
  destruct (insert_window_bounds _ _ _ _ _ Hdom Hsz Hlen) as [Hb1 Hb2].
  split; rewrite Hcfg, Hwin; [exact Hb1|]. etrans; [exact Hb2|]. lia.
Qed.

Lemma window_ms_nonneg (config : DetectionConfig) :
  0 <= dc_window_secs config -> 0 <= window_ms config.
Proof. unfold window_ms, sat_mul, u64_max. lia. Qed.

Lemma push_event_recent (s : BehaviorScorer) (event : FileEvent) (approved : option string) :
  0 <= fe_timestamp_ms event -> 0 <= dc_window_secs (bs_config s) ->
  let horizon := sat_sub (fe_timestamp_ms event) (window_ms (bs_config s)) in
  Forall (fun e => horizon <= we_timestamp_ms e)
    (push_event (adopt_identity (prepare s event) (fe_pid event) (event_identity event))
       event approved horizon).
Proof.
  intros Ht Hw horizon. unfold push_event.
  match goal with |- context [drop_old ?h ?k] => destruct (drop_old_suffix h k) as [d Hd] end.
  assert (Hold : Forall (fun e => horizon <= we_timestamp_ms e)
    (default [] (bs_windows (adopt_identity (prepare s event) (fe_pid event)
       (event_identity event)) !! fe_pid event))).
  { unfold adopt_identity. cbn [bs_windows]. destruct (is_some_and _ _).
    - rewrite lookup_delete_eq. constructor.
    - destruct (bs_windows (prepare s event) !! fe_pid event) eqn:Hl; [|constructor].
      by apply (prepare_recent _ _ _ _ Hl). }
  cut (Forall (fun e => horizon <= we_timestamp_ms e) (d ++ drop_old horizon
    (match approved with
     | None => default [] (bs_windows (adopt_identity (prepare s event) (fe_pid event)
         (event_identity event)) !! fe_pid event)
         ++ [entry_of event (bs_config (adopt_identity (prepare s event) (fe_pid event)
               (event_identity event)))]
     | Some _ => default [] (bs_windows (adopt_identity (prepare s event) (fe_pid event)
         (event_identity event)) !! fe_pid event)
     end))); [by intros [_ ?]%Forall_app|].
  rewrite <- Hd.
  destruct approved; [done|]. apply Forall_app. split; [done|]. constructor; [|constructor].
  unfold entry_of, horizon. cbn [we_timestamp_ms].
  apply sat_sub_le; [done|by apply window_ms_nonneg].
Qed.

(** Unapproved events of the same process within the time window. *)
Definition own_events (h : history) (config : DetectionConfig) (event : FileEvent) (evs : list FileEvent) : Prop :=
  Forall (fun ev => (ev, None) ∈ h /\ fe_pid ev = fe_pid event
                    /\ event_identity ev = event_identity event
                    /\ sat_sub (fe_timestamp_ms event) (window_ms config) <= fe_timestamp_ms ev) evs.
(** The short-window score of such events; an oversized event has the score 0. *)
Definition own_score (h : history) (config : DetectionConfig) (event : FileEvent)
    (sensor : SensorKind) (score : f64) : Prop :=
  (oversized event config = true /\ score = f_of_Z 0)
  \/ exists evs, own_events h config event evs
       /\ score = score_window (map (fun ev => entry_of ev config) evs) config sensor.
(** The events behind an eligible evaluation. *)
Definition own_evidence (h : history) (config : DetectionConfig) (event : FileEvent)
    (sensor : SensorKind) (score : f64) (evs : list FileEvent) : Prop :=
  own_events h config event evs
  /\ dc_min_changed_files config <= zlen (distinct (map fe_path evs))
  /\ score = score_window (map (fun ev => entry_of ev config) evs) config sensor.

(** Every evaluation, eligible or not, scores events of the process itself. *)
Lemma evaluated_own_events (config : DetectionConfig) (sensor : SensorKind) (h : history)
    (event : FileEvent) (approved : option string) :
  0 <= fe_timestamp_ms event -> 0 <= dc_window_secs config ->
  let e := (evaluate_with_approval (run config sensor h) event approved).2 in
  (oversized event config = true /\ ev_eligible e = false)
  \/ exists evs, own_events (h ++ [(event, approved)]) config event evs
       /\ ev_score e = score_window (map (fun ev => entry_of ev config) evs) config sensor
       /\ (ev_eligible e = true -> dc_min_changed_files config <= zlen (distinct (map fe_path evs))).
Proof.
  intros Ht Hws. set (s := run config sensor h).
  pose proof (evaluate_cases s event approved) as Hc.
  assert (Hcfg : bs_config s = config) by apply run_config.
  pose proof (tracked_adopt_push h (prepare s event) event approved
    (sat_sub (fe_timestamp_ms event) (window_ms (bs_config s)))
    (tracked_prepare _ _ event (run_tracked config sensor h))) as Hfrom. cbv zeta in Hfrom.
  pose proof (push_event_recent s event approved Ht) as Hrec. cbv zeta in Hrec.
  rewrite prepare_config in Hfrom. rewrite Hcfg in Hfrom, Hrec, Hc. specialize (Hrec Hws).
  pose proof (evaluate_frame s event approved) as (Hsen & _).
  destruct (evaluate_with_approval s event approved) as [s' e]. cbn [fst snd] in *.
  destruct Hc as [(Ho & _ & He)|(_ & w & [Hw _ _ _ _ Hscore Hpid Hel])]; [by left|right].
  unfold s in Hsen. rewrite run_sensor in Hsen. rewrite Hsen in Hscore. rewrite Hcfg in *.
  rewrite <- Hw in Hfrom, Hrec. destruct (collect_sources _ _ _ _ _ Hfrom) as (evs & Hmap & Hall).
  assert (Hpaths : map we_path w = map fe_path evs) by (rewrite <- Hmap; by rewrite map_map).
  exists evs. rewrite <- Hpaths, Hmap. split_and!; [|done|rewrite Hel; intros; by split_bools].
  rewrite <- Hmap, Forall_map in Hrec. unfold own_events. rewrite Forall_forall in Hall, Hrec |- *.
  intros ev Hev. destruct (Hall _ Hev) as (? & ? & ?). specialize (Hrec _ Hev). auto.
Qed.

Lemma evaluated_own_score (config : DetectionConfig) (sensor : SensorKind) (h : history)
    (event : FileEvent) (approved : option string) :
  0 <= fe_timestamp_ms event -> 0 <= dc_window_secs config ->
  own_score (h ++ [(event, approved)]) config event sensor
    (ev_score (evaluate_with_approval (run config sensor h) event approved).2).
Proof.
  intros Ht Hws. pose proof (evaluated_own_events config sensor h event approved Ht Hws) as [[Ho _]|(evs & H1 & H2 & _)].
  - left. split; [done|]. unfold evaluate_with_approval. cbv zeta. by rewrite prepare_config, run_config, Ho.
  - right. by exists evs.
Qed.

Lemma eligible_own_evidence (config : DetectionConfig) (sensor : SensorKind) (h : history)
    (event : FileEvent) (approved : option string) :
  0 <= fe_timestamp_ms event -> 0 <= dc_window_secs config ->
  let e := (evaluate_with_approval (run config sensor h) event approved).2 in
  ev_eligible e = true -> exists evs, own_evidence (h ++ [(event, approved)]) config event sensor (ev_score e) evs.
Proof.
  intros Ht Hws e Hel. destruct (evaluated_own_events config sensor h event approved Ht Hws) as [[_ He]|(evs & H1 & H2 & H3)].
  - unfold e in Hel. congruence.
  - exists evs. split_and!; [done|by apply H3|done].
Qed.

(** * Fixtures for the examples *)

Definition demo_process (exe : string) (start : Z) : FileProcessContext :=
  mkFileProcessContext 1000 exe start "boot-a" [].
Definition demo_event (t pid start : Z) (path : string) : FileEvent :=
  mkFileEvent t pid path Modify (Some 100) (Some (f_lit 79 10))
    (Some (demo_process "/usr/bin/task" start)) None.
Definition demo_config : DetectionConfig :=
  {| dc_window_secs := 10; dc_mass_change_threshold := 4; dc_min_changed_files := 2;
     dc_entropy_threshold := f_lit 72 10; dc_detect_score := f_of_Z 40;
     dc_entropy_sample_bytes := 4096; dc_exclude_paths := ["/var/log"]; dc_approved_changes := [];
     dc_canary_paths := ["/data/.canary"]; dc_multi_window := MultiWindowConfig_default;
     dc_content_sampling := ContentSamplingConfig_default |}.
Definition demo_history : history :=
  [ (demo_event 1000 42 7 "/data/a", None); (demo_event 1001 42 7 "/data/b", None);
    (demo_event 1002 43 9 "/data/c", None) ].

(** * Main results *)

(** the behaviour score is a number between 0 and 100, never a NaN, for
    every window of at most 2^64 - 1 events, configuration and sensor. *)
Theorem score_in_range (window : list WindowEntry) (config : DetectionConfig)
    (sensor : SensorKind) :
  zlen window <= u64_max -> dc_mass_change_threshold config <= u64_max ->
  f_le (f_of_Z 0) (score_window window config sensor) = true
  /\ f_le (score_window window config sensor) (f_of_Z 100) = true
  /\ f_is_nan (score_window window config sensor) = false.
Proof.
  intros H1 H2. destruct (score_window_nonneg window config sensor H1 H2) as [H3 H4].
  split; [done|]. split; [done|]. apply f_nonneg_le in H3. by apply f_nonneg_not_nan.
Qed.

Lemma score_in_range_witness :
  let w := [entry_of (demo_event 1000 42 7 "/data/a") demo_config] in
  f_le (f_of_Z 0) (score_window w demo_config Fanotify) = true
  /\ f_le (score_window w demo_config Fanotify) (f_of_Z 100) = true
  /\ f_is_nan (score_window w demo_config Fanotify) = false.
Proof. intros w. apply (score_in_range w demo_config Fanotify); vm_compute; congruence. Defined.

(** whatever events arrive, the scorer keeps at most [max_groups] PID
    windows and [max_events] events in total. *)
Theorem scorer_memory_bounded (config : DetectionConfig) (sensor : SensorKind) (h : history) :
  scorer_bounded (run config sensor h).
Proof.
  induction h as [|[ev a] h IH] using rev_ind.
  - unfold scorer_bounded. cbn -[max_groups max_events].
    pose proof (max_groups_range config). pose proof (max_events_range config).
    unfold count_events. rewrite map_sum_empty, map_size_empty. lia.
  - rewrite run_snoc. by apply bounded_evaluate.
Qed.

(** A process is a blocking candidate only on its own evidence. If, after
    any history, an event makes its PID a candidate, then the PID is known and
    there are unapproved events of that same process (same PID, start time and
    boot), all inside the time window, that changed at least
    [min_changed_files] distinct files and whose score reaches the threshold.
    Evidence of an earlier process with a reused PID never counts. *)
Theorem block_needs_own_evidence (config : DetectionConfig) (sensor : SensorKind) (h : history)
    (event : FileEvent) (approved : option string) (response : ResponseConfig) :
  0 <= fe_timestamp_ms event -> 0 <= dc_window_secs config ->
  let e := (evaluate_with_approval (run config sensor h) event approved).2 in
  block_candidate e response = true ->
  fe_pid event <> 0
  /\ exists evs : list FileEvent,
      own_evidence (h ++ [(event, approved)]) config event sensor (ev_score e) evs
      /\ f_ge (ev_score e) (rc_block_score response) = true.
Proof.
  intros Ht Hws. pose proof (eligible_own_evidence config sensor h event approved Ht Hws) as He.
  destruct (evaluate_frame (run config sensor h) event approved) as (_ & Hpid & _).
  destruct (evaluate_with_approval _ event approved) as [s' e]. cbn [snd] in *.
  unfold block_candidate. intros Hb. split_bools. rewrite Hpid in *. split; [done|].
  destruct He as [evs He]; [done|]. by exists evs.
Qed.

Lemma block_needs_own_evidence_witness :
  let event := demo_event 1003 42 7 "/data/d" in
  let response := mkResponseConfig true (f_of_Z 60) in
  block_candidate (snd (evaluate_with_approval (run demo_config Fanotify demo_history) event None))
    response = true
  /\ fe_pid event <> 0.
Proof.
  intros event response. split; [vm_compute; reflexivity|].
  apply (block_needs_own_evidence demo_config Fanotify demo_history event None response);
    vm_compute; congruence.
Defined.

(** An approved change is never evidence. Evaluating an event under an
    approval stores no new event: every event kept afterwards was already
    there for the same PID. *)
Theorem approved_event_adds_nothing (s : BehaviorScorer) (event : FileEvent) (id : string) :
  let s' := fst (evaluate_with_approval s event (Some id)) in
  forall pid l e, bs_windows s' !! pid = Some l -> e ∈ l ->
    exists l0, bs_windows s !! pid = Some l0 /\ e ∈ l0.
Proof.
  intros s' pid l x Hl Hx. unfold s' in Hl. clear s'.
  pose proof (evaluate_cases s event (Some id)) as Hc.
  destruct (evaluate_with_approval s event (Some id)) as [s' e]. cbn [fst] in Hl.
  assert (Hp : forall k, bs_windows (prepare s event) !! pid = Some k -> x ∈ k ->
    exists l0, bs_windows s !! pid = Some l0 /\ x ∈ l0).
  { intros k Hk Hxk. destruct (shrinks_prepare _ _ _ _ Hk) as (l0 & ? & ?). eauto. }
  destruct Hc as [(_ & -> & _)|(_ & w & [Hw Hwin _ _ _ _ _ _])]; [by eapply Hp|].
  rewrite Hwin in Hl.
  set (base := bs_windows (adopt_identity _ _ _)) in *.
  assert (Hb : forall k, base !! pid = Some k -> bs_windows (prepare s event) !! pid = Some k).
  { intros k. unfold base, adopt_identity. cbn [bs_windows].
    destruct (is_some_and _ _); [|done]. by intros [_ ?]%lookup_delete_Some. }
  destruct (decide (fe_pid event = pid)) as [<-|Hne].
  - rewrite lookup_insert_eq in Hl. injection Hl as <-. rewrite Hw in Hx.
    unfold push_event in Hx. fold base in Hx.
    match type of Hx with context [drop_old ?h ?k] => destruct (drop_old_suffix h k) as [d Hd] end.
    destruct (base !! fe_pid event) as [k|] eqn:Hk.
    + apply (Hp k); [by apply Hb|]. change (default [] (Some k)) with k in Hd, Hx.
      rewrite Hd. apply elem_of_app. by right.
    + simpl in Hx. by apply not_elem_of_nil in Hx.
  - rewrite lookup_insert_ne in Hl by done. eapply Hp; eauto.
Qed.

Lemma approved_event_adds_nothing_witness :
  let s := run demo_config Fanotify demo_history in
  let s' := fst (evaluate_with_approval s (demo_event 1003 42 7 "/data/d") (Some "CHG-1")) in
  let x := entry_of (demo_event 1000 42 7 "/data/a") demo_config in
  exists l0, bs_windows s !! 42 = Some l0 /\ x ∈ l0.
Proof.
  intros s s' x.
  apply (approved_event_adds_nothing s (demo_event 1003 42 7 "/data/d") "CHG-1" 42
    [x; entry_of (demo_event 1001 42 7 "/data/b") demo_config]).
  - vm_compute. reflexivity.
  - apply list_elem_of_here.
Defined.

(** The alert of an evaluation, on every branch. An alert is raised exactly
    when the event is eligible, scores at least [detect_score] and is not in
    the PID's cooldown; it reports that score and at most 20 distinct paths
    and starts a new cooldown. Otherwise the cooldown state is untouched. *)
Theorem alert_throttled (s : BehaviorScorer) (event : FileEvent) (approved : option string) :
  oversized event (bs_config s) = false ->
  let '(s', e) := evaluate_with_approval s event approved in
  let s0 := adopt_identity (prepare s event) (fe_pid event) (event_identity event) in
  let fires := ev_eligible e && negb (f_lt (ev_score e) (dc_detect_score (bs_config s)))
               && negb (in_cooldown s0 (fe_pid event) (fe_timestamp_ms event) (ev_score e)) in
  is_some (ev_alert e) = fires
  /\ bs_last_emit s' = (if fires
                        then <[fe_pid event := (fe_timestamp_ms event, ev_score e)]> (bs_last_emit s0)
                        else bs_last_emit s0)
  /\ forall d, ev_alert e = Some d ->
      d_score d = ev_score e /\ d_pid d = fe_pid event /\ zlen (d_paths d) <= 20
      /\ NoDup (d_paths d).
Proof.
  intros Ho. unfold evaluate_with_approval. cbv zeta. rewrite prepare_config, Ho.
  set (s0 := adopt_identity (prepare s event) (fe_pid event) (event_identity event)).
  assert (Hc : bs_config s0 = bs_config s) by apply prepare_config.
  cbn [bs_config bs_sensor bs_windows bs_last_emit bs_process_identities bs_incomplete_until].
  rewrite Hc. set (el := (_ <=? _) && _). destruct el eqn:Hel; cbn [negb orb].
  - destruct (f_lt _ _) eqn:Hlt; cbn [ev_eligible ev_score ev_alert bs_last_emit].
    { rewrite Hlt. done. }
    match goal with |- context [in_cooldown ?a ?b ?c ?d] =>
      replace (in_cooldown a b c d) with (in_cooldown s0 b c d)
        by (unfold in_cooldown; cbn [bs_config bs_last_emit]; by rewrite Hc);
      destruct (in_cooldown s0 b c d) eqn:Hcd end;
      cbn [ev_eligible ev_score ev_alert bs_last_emit]; rewrite Hlt, Hcd; [done|].
    split; [done|]. split; [done|]. intros d [= <-]. unfold behavior_alert. cbn [d_score d_pid d_paths].
    split; [done|]. split; [done|]. split.
    + unfold zlen. rewrite length_take. lia.
    + eapply sublist_NoDup; [apply distinct_nodup|]. apply sublist_take.
  - cbn [ev_eligible ev_score ev_alert bs_last_emit andb]. done.
Qed.

Lemma alert_throttled_witness :
  let s := run demo_config Fanotify demo_history in
  let event := demo_event 1003 42 7 "/data/d" in
  let '(s', e) := evaluate_with_approval s event None in
  let s0 := adopt_identity (prepare s event) (fe_pid event) (event_identity event) in
  let fires := ev_eligible e && negb (f_lt (ev_score e) (dc_detect_score (bs_config s)))
               && negb (in_cooldown s0 (fe_pid event) (fe_timestamp_ms event) (ev_score e)) in
  is_some (ev_alert e) = fires
  /\ bs_last_emit s' = (if fires
                        then <[fe_pid event := (fe_timestamp_ms event, ev_score e)]> (bs_last_emit s0)
                        else bs_last_emit s0)
  /\ forall d, ev_alert e = Some d ->
      d_score d = ev_score e /\ d_pid d = fe_pid event /\ zlen (d_paths d) <= 20
      /\ NoDup (d_paths d).
Proof.
  intros s event. apply (alert_throttled s event None). vm_compute. reflexivity.
Defined.
