(* ===== verification/MultiWindow.v ===== *)
(** Long-window and cross-process aggregation (crates/argos-detect/src/multi_window.rs):
    a bounded log of observations, indexed by groups (process instance, user,
    protected path, ancestor), scored over up to eight windows. *)
From Stdlib Require Import ZArith Lia.
From stdpp Require Import base gmap strings list pretty sorting.
From S2P Require Import Prelude F64 RustPath Common Entropy Scorer.
#[local] Open Scope Z_scope.

Definition INSTANCE_RULE : string := "behavior.multi_window.instance".
Definition USER_RULE : string := "behavior.multi_window.user_path".
Definition PATH_RULE : string := "behavior.multi_window.protected_path".
Definition ANCESTOR_RULE : string := "behavior.multi_window.ancestor".
Definition RULES : list string := [INSTANCE_RULE; USER_RULE; PATH_RULE; ANCESTOR_RULE].

(** (pid, start time, boot id) *)
Definition Instance_ : Type := Z * Z * string.

Inductive Group : Type :=
| GInstance (i : Instance_)
| GUser (uid : Z) (boot path : string)
| GProtectedPath (boot path : string)
| GAncestor (i : Instance_) (path : string).

#[export] Instance Group_eq_dec : EqDecision Group.
Proof. unfold Instance_. solve_decision. Defined.

#[export] Instance Group_countable : Countable Group :=
  inj_countable'
    (fun g => match g with
              | GInstance i => inl (inl (i : Z * Z * string))
              | GUser u b p => inl (inr (u, b, p))
              | GProtectedPath b p => inr (inl (b, p))
              | GAncestor i p => inr (inr ((i : Z * Z * string), p))
              end)
    (fun x => match x with
              | inl (inl i) => GInstance i
              | inl (inr (u, b, p)) => GUser u b p
              | inr (inl (b, p)) => GProtectedPath b p
              | inr (inr (i, p)) => GAncestor i p
              end)
    ltac:(by intros []).

(** The derived [Ord]: variants in declaration order, then the fields. *)
#[export] Instance Group_ord : Ord Group := fun a b =>
  match a, b with
  | GInstance i, GInstance j => cmp (i : Z * Z * string) j
  | GInstance _, _ => Lt | _, GInstance _ => Gt
  | GUser u b p, GUser v c q => cmp (u, b, p) (v, c, q)
  | GUser _ _ _, _ => Lt | _, GUser _ _ _ => Gt
  | GProtectedPath b p, GProtectedPath c q => cmp (b, p) (c, q)
  | GProtectedPath _ _, _ => Lt | _, GProtectedPath _ _ => Gt
  | GAncestor i p, GAncestor j q => cmp ((i : Z * Z * string), p) (j, q)
  end.

#[export] Instance Group_ord_laws : OrdLaws Group.
Proof.
  split.
  - intros [] []; unfold cmp at 1, Group_ord; rewrite ?cmp_eq; naive_solver.
  - intros [] []; unfold cmp at 1 2, Group_ord; try done; apply cmp_antisym.
  - intros [] [] []; unfold cmp at 1 2 3, Group_ord; try done; apply cmp_trans.
Qed.

Definition group_rule (g : Group) : string :=
  match g with
  | GInstance _ => INSTANCE_RULE
  | GUser _ _ _ => USER_RULE
  | GProtectedPath _ _ => PATH_RULE
  | GAncestor _ _ => ANCESTOR_RULE
  end.

Definition instance_label (i : Instance_) : string :=
  let '(pid, start, boot) := i in pretty pid +:+ "/" +:+ pretty start +:+ "/" +:+ boot.

Definition group_label (g : Group) : string :=
  match g with
  | GInstance i => "process=" +:+ instance_label i
  | GUser uid boot path =>
      "effective_uid=" +:+ pretty uid +:+ ", boot=" +:+ boot +:+ ", path=" +:+ path
  | GProtectedPath boot path => "boot=" +:+ boot +:+ ", protected_path=" +:+ path
  | GAncestor i path => "ancestor=" +:+ instance_label i +:+ ", path=" +:+ path
  end.

Record Observation := mkObservation {
  o_sequence : Z;
  o_timestamp_ms : Z;
  o_path : string;
  o_pid : Z;
  o_instance : option Instance_;
  o_action : FileAction;
  o_encrypted : bool;
  o_groups : list Group;
}.

Record GroupState := mkGroupState {
  gs_events : list Observation;
  gs_last_emit : gmap Z (Z * f64);
}.
Definition GroupState_default : GroupState := mkGroupState [] ∅.

Record MultiOutcome := mkMultiOutcome {
  mo_alerts : list Detection;
  mo_instance_score : option f64;
  mo_truncated : bool;
  mo_approval_applied : bool;
}.
Definition MultiOutcome_default : MultiOutcome := mkMultiOutcome [] None false false.

Record MultiWindowScorer := mkMultiWindowScorer {
  ms_config : DetectionConfig;
  ms_sensor : SensorKind;
  ms_events : list Observation;
  ms_groups : gmap Group GroupState;
  ms_sequence : Z;
  ms_watermark : Z;
  ms_incomplete_until : option Z;
}.

Definition MultiWindowScorer_new (config : DetectionConfig) (sensor : SensorKind)
    : MultiWindowScorer := mkMultiWindowScorer config sensor [] ∅ 0 0 None.

Definition with_log (s : MultiWindowScorer) events groups incomplete : MultiWindowScorer :=
  mkMultiWindowScorer (ms_config s) (ms_sensor s) events groups (ms_sequence s)
    (ms_watermark s) incomplete.

(** * Bounded memory *)

Definition horizon_ms (config : DetectionConfig) : Z :=
  fold_right Z.max 0
    (map (fun w => sat_mul (dw_window_secs w) 1000) (mw_windows (dc_multi_window config))).

Definition truncate (s : MultiWindowScorer) (now : Z) : MultiWindowScorer :=
  with_log s (ms_events s) (ms_groups s) (Some (sat_add now (horizon_ms (ms_config s)))).

Definition expire_group (old : Observation) (groups : gmap Group GroupState) (g : Group)
    : gmap Group GroupState :=
  match groups !! g with
  | None => groups
  | Some state =>
      let events := match gs_events state with
                    | e :: rest => if o_sequence e =? o_sequence old then rest else e :: rest
                    | [] => []
                    end in
      match events with
      | [] => delete g groups
      | _ => <[g := mkGroupState events (gs_last_emit state)]> groups
      end
  end.

Definition expire_front (s : MultiWindowScorer) : MultiWindowScorer :=
  match ms_events s with
  | [] => s
  | old :: events =>
      with_log s events (fold_left (expire_group old) (o_groups old) (ms_groups s))
        (ms_incomplete_until s)
  end.

(** [while front.timestamp_ms < horizon { expire_front }]: one turn per event at most. *)
Fixpoint expire_old (turns : nat) (horizon : Z) (s : MultiWindowScorer) : MultiWindowScorer :=
  match turns, ms_events s with
  | S turns', e :: _ =>
      if o_timestamp_ms e <? horizon then expire_old turns' horizon (expire_front s) else s
  | _, _ => s
  end.

(** [while events.len() >= max_events { truncate; expire_front }]. *)
Fixpoint shed_log (turns : nat) (limit now : Z) (s : MultiWindowScorer) : MultiWindowScorer :=
  match turns with
  | S turns' =>
      if limit <=? zlen (ms_events s)
      then shed_log turns' limit now (expire_front (truncate s now))
      else s
  | O => s
  end.

(** * The groups of an event *)

(** A process context precise enough to name an instance. *)
Definition usable_process (event : FileEvent) : option FileProcessContext :=
  opt_filter (fun p => negb (fe_pid event =? 0) && (0 <? fp_start_time_ticks p)
                       && negb (String.eqb (fp_boot_id p) "") && (slen (fp_boot_id p) <=? 128))
    (fe_process event).

Definition event_instance (event : FileEvent) : option Instance_ :=
  (fun p => (fe_pid event, fp_start_time_ticks p, fp_boot_id p)) <$> usable_process event.

Definition protected_root (config : DetectionConfig) (path : string) : option string :=
  max_by_key (fun root => zlen (components root))
    (List.filter (fun root => path_starts_with path root)
       (mw_protected_paths (dc_multi_window config))).

Definition ancestor_groups (p : FileProcessContext) (boot root : string) : list Group :=
  map (fun a => GAncestor (pi_pid a, pi_start_time_ticks a, pi_boot_id a) root)
    (List.filter (fun a => negb (pi_pid a =? 1))
       (List.filter (fun a => negb (pi_pid a =? 0) && negb (pi_start_time_ticks a =? 0)
                              && String.eqb (pi_boot_id a) boot)
          (take 4 (fp_ancestors p)))).

Definition group_keys (config : DetectionConfig) (event : FileEvent) : list Group :=
  let context := usable_process event in
  let instance := match event_instance event with Some i => [GInstance i] | None => [] end in
  let rooted :=
    match protected_root config (fe_path event) with
    | None => []
    | Some root =>
        let boot := match context with Some p => fp_boot_id p | None => "unidentified" end in
        GProtectedPath boot root ::
        match context with
        | None => []
        | Some p =>
            (if mw_aggregate_by_user (dc_multi_window config)
             then [GUser (fp_uid p) boot root] else [])
            ++ (if mw_aggregate_by_ancestry (dc_multi_window config)
                then ancestor_groups p boot root else [])
        end
    end in
  btree_set (instance ++ rooted).

(** * Recording an observation *)

Definition gs_back_ts (state : GroupState) : Z :=
  match list.last (gs_events state) with Some e => o_timestamp_ms e | None => 0 end.

Definition evict_oldest_group (s : MultiWindowScorer) (key : Group) (now : Z)
    : MultiWindowScorer :=
  if negb (is_some (ms_groups s !! key))
     && (max_groups (ms_config s) <=? Z.of_nat (size (ms_groups s)))
  then match min_by_key (fun kv => (gs_back_ts kv.2, kv.1)) (map_to_list (ms_groups s)) with
       | Some (oldest, _) =>
           truncate (with_log s (ms_events s) (delete oldest (ms_groups s))
                       (ms_incomplete_until s)) now
       | None => s
       end
  else s.

Definition push_group (entry : Observation) (now : Z) (s : MultiWindowScorer) (key : Group)
    : MultiWindowScorer :=
  let s := evict_oldest_group s key now in
  let state := default GroupState_default (ms_groups s !! key) in
  with_log s (ms_events s)
    (<[key := mkGroupState (gs_events state ++ [entry]) (gs_last_emit state)]> (ms_groups s))
    (ms_incomplete_until s).

Definition new_observation (s : MultiWindowScorer) (event : FileEvent) (included : list Group)
    (now : Z) : Observation :=
  mkObservation (sat_add (ms_sequence s) 1) now (fe_path event) (fe_pid event)
    (event_instance event) (fe_action event) (encryption_signal event (ms_config s)) included.

Definition record_observation (s : MultiWindowScorer) (event : FileEvent) (included : list Group)
    (now : Z) : MultiWindowScorer :=
  let s := shed_log (length (ms_events s)) (max_events (ms_config s)) now s in
  let entry := new_observation s event included now in
  let s := mkMultiWindowScorer (ms_config s) (ms_sensor s) (ms_events s) (ms_groups s)
             (o_sequence entry) (ms_watermark s) (ms_incomplete_until s) in
  let s := fold_left (push_group entry now) included s in
  with_log s (ms_events s ++ [entry]) (ms_groups s) (ms_incomplete_until s).

(** * Scoring the windows *)

Definition selected_events (state : GroupState) (now window_ms : Z) : list Observation :=
  List.filter (fun e => sat_sub now window_ms <=? o_timestamp_ms e) (gs_events state).

Definition window_score (sensor : SensorKind) (window : DetectionWindow)
    (selected : list Observation) : f64 :=
  let paths := zlen (distinct (map o_path selected)) in
  let high := zlen (distinct (map o_path
    (List.filter (fun e => bool_decide (o_action e = Modify) && o_encrypted e) selected))) in
  let mass :=
    f_mul (f_min (f_div (f_of_Z paths) (f_of_Z (Z.max (dw_mass_change_threshold window) 1)))
             (f_of_Z 1)) (f_of_Z 40) in
  let entropy :=
    f_mul (f_div (f_of_Z high) (f_of_Z paths))
      (if bool_decide (sensor = Fanotify) then f_of_Z 60 else f_of_Z 35) in
  let churn :=
    if bool_decide (sensor = Notify) then
      f_mul (f_div (f_of_Z (zlen (List.filter
               (fun e => bool_decide (o_action e = Delete) || bool_decide (o_action e = Rename))
               selected)))
               (f_of_Z (zlen selected))) (f_of_Z 25)
    else f_of_Z 0 in
  f_min (f_add (f_add mass entropy) churn) (f_of_Z 100).

Definition is_instance (g : Group) : bool := match g with GInstance _ => true | _ => false end.
Definition group_pid (g : Group) : Z := match g with GInstance (pid, _, _) => pid | _ => 0 end.

Definition join (sep : string) (l : list string) : string :=
  match l with [] => "" | x :: l' => fold_left (fun acc y => acc +:+ sep +:+ y) l' x end.
Definition bool_display (b : bool) : string := if b then "true" else "false".

Section WithStd.
Context `{RustStd}.

Definition multi_summary (window : DetectionWindow) (key : Group) (selected : list Observation)
    (truncated : bool) : string :=
  let paths := distinct (map o_path selected) in
  let pids := btree_set (map o_pid selected) in
  let instances := btree_set (omap o_instance selected : list (Z * Z * string)) in
  let identities := map instance_label (take 20 instances) in
  pretty (dw_window_secs window) +:+ "초 집계 [" +:+ group_label key +:+ "]: 파일 "
  +:+ pretty (zlen paths) +:+ "개, PID [" +:+ join ", " (map pretty (take 20 pids))
  +:+ "], 신원 [" +:+ join ", " (map str_debug identities) +:+ "], 증거 제한="
  +:+ bool_display (truncated || (20 <? zlen pids) || (20 <? zlen instances))
  +:+ ", 집계 자동 차단="
  +:+ (if group_pid key =? 0 then "금지" else "개별 정책 평가").

Definition multi_alert (window : DetectionWindow) (key : Group) (selected : list Observation)
    (now : Z) (score : f64) (truncated : bool) : Detection :=
  {| d_timestamp_ms := now;
     d_rule := group_rule key;
     d_score := score;
     d_severity := severity score;
     d_summary := multi_summary window key selected truncated;
     d_pid := group_pid key;
     d_paths := take 20 (distinct (map o_path selected)) |}.

(** The body of the inner loop, for one group and one window. *)
Definition score_group_window (sensor : SensorKind) (key : Group) (now : Z) (truncated : bool)
    (acc : GroupState * MultiOutcome) (window : DetectionWindow) : GroupState * MultiOutcome :=
  let '(state, outcome) := acc in
  let window_ms := sat_mul (dw_window_secs window) 1000 in
  let selected := selected_events state now window_ms in
  if zlen (distinct (map o_path selected)) <? dw_min_changed_files window then (state, outcome)
  else
    let score := window_score sensor window selected in
    let outcome :=
      if is_instance key && negb truncated then
        mkMultiOutcome (mo_alerts outcome)
          (Some (match mo_instance_score outcome with
                 | Some old => f_max old score | None => score end))
          (mo_truncated outcome) (mo_approval_applied outcome)
      else outcome in
    if f_lt score (dw_detect_score window) then (state, outcome)
    else if is_some_and (gs_last_emit state !! dw_window_secs window) (fun last =>
              (sat_sub now last.1 <? window_ms) && f_lt score (f_add last.2 (f_of_Z 15)))
    then (state, outcome)
    else
      (mkGroupState (gs_events state)
         (<[dw_window_secs window := (now, score)]> (gs_last_emit state)),
       mkMultiOutcome (mo_alerts outcome ++ [multi_alert window key selected now score truncated])
         (mo_instance_score outcome) (mo_truncated outcome) (mo_approval_applied outcome)).

Definition score_group (config : DetectionConfig) (sensor : SensorKind) (now : Z)
    (truncated : bool) (acc : gmap Group GroupState * MultiOutcome) (key : Group)
    : gmap Group GroupState * MultiOutcome :=
  let '(groups, outcome) := acc in
  match groups !! key with
  | None => (groups, outcome)
  | Some state =>
      let '(state', outcome') :=
        fold_left (score_group_window sensor key now truncated)
          (take 8 (mw_windows (dc_multi_window config))) (state, outcome) in
      (<[key := state']> groups, outcome')
  end.

Definition absolute_clean_path (path : string) : bool :=
  is_absolute path
  && negb (existsb (fun c => bool_decide (c = ParentDir)) (components path)).

Definition recorded_action (a : FileAction) : bool :=
  match a with Modify | Create | Delete | Rename => true | _ => false end.

Definition advance (s : MultiWindowScorer) (now : Z) : MultiWindowScorer :=
  let s := mkMultiWindowScorer (ms_config s) (ms_sensor s) (ms_events s) (ms_groups s)
             (ms_sequence s) now (ms_incomplete_until s) in
  expire_old (length (ms_events s)) (sat_sub now (horizon_ms (ms_config s))) s.

Definition inadmissible (config : DetectionConfig) (event : FileEvent) (now : Z) : bool :=
  (fe_timestamp_ms event <? now)
  || (mw_max_path_bytes (dc_multi_window config) <? slen (fe_path event))
  || negb (absolute_clean_path (fe_path event)).

Definition included_keys (keys : list Group) (adjusted_rules : list string) : list Group :=
  List.filter (fun k => negb (str_mem (group_rule k) adjusted_rules)) keys.

Definition records (event : FileEvent) (included : list Group) : bool :=
  negb (zlen included =? 0) && recorded_action (fe_action event).

Definition multi_evaluate (s : MultiWindowScorer) (event : FileEvent)
    (adjusted_rules : list string) : MultiWindowScorer * MultiOutcome :=
  if negb (mw_enabled (dc_multi_window (ms_config s))) then (s, MultiOutcome_default)
  else
    let now := Z.max (ms_watermark s) (fe_timestamp_ms event) in
    let s := advance s now in
    if inadmissible (ms_config s) event now
    then (truncate s now, mkMultiOutcome [] None true false)
    else
      let keys := group_keys (ms_config s) event in
      let included := included_keys keys adjusted_rules in
      let approval_applied := zlen included <? zlen keys in
      let s := if records event included then record_observation s event included now else s in
      let truncated := incomplete_at (ms_incomplete_until s) now in
      let '(groups, outcome) :=
        fold_left (score_group (ms_config s) (ms_sensor s) now truncated) keys
          (ms_groups s, mkMultiOutcome [] None truncated approval_applied) in
      (with_log s (ms_events s) groups (ms_incomplete_until s), outcome).

End WithStd.

#[global] Arguments window_score : simpl never.
#[global] Arguments encryption_signal : simpl never.

(** * The invariant of the log *)

Definition in_group (g : Group) (o : Observation) : bool := bool_decide (g ∈ o_groups o).
Definition group_log (g : Group) (events : list Observation) : list Observation :=
  List.filter (in_group g) events.

(** Sequence numbers and times grow along the log, an observation lists a
    group once, and only the instance it was made by. *)
Record events_ok (events : list Observation) (sequence watermark : Z) : Prop := {
  eo_sequence : StronglySorted (fun a b => o_sequence a < o_sequence b) events;
  eo_sequence_le : Forall (fun o => o_sequence o <= sequence) events;
  eo_time : StronglySorted (fun a b => o_timestamp_ms a <= o_timestamp_ms b) events;
  eo_time_le : Forall (fun o => o_timestamp_ms o <= watermark) events;
  eo_nodup : Forall (fun o => NoDup (o_groups o)) events;
  eo_instance : Forall (fun o => forall i, GInstance i ∈ o_groups o -> o_instance o = Some i) events;
}.

(** Each group holds the most recent part of the log restricted to it. *)
Definition groups_ok (events : list Observation) (groups : gmap Group GroupState) : Prop :=
  forall g state, groups !! g = Some state ->
    gs_events state <> [] /\ gs_events state `suffix_of` group_log g events.

Record log_ok (s : MultiWindowScorer) : Prop := {
  lo_events : events_ok (ms_events s) (ms_sequence s) (ms_watermark s);
  lo_groups : groups_ok (ms_events s) (ms_groups s);
  lo_events_bound : zlen (ms_events s) <= max_events (ms_config s);
  lo_groups_bound : Z.of_nat (size (ms_groups s)) <= max_groups (ms_config s);
}.

Lemma group_log_cons_in (g : Group) (o : Observation) events :
  g ∈ o_groups o -> group_log g (o :: events) = o :: group_log g events.
Proof. intros. unfold group_log. simpl. unfold in_group at 1. by rewrite bool_decide_eq_true_2. Qed.

Lemma group_log_cons_out (g : Group) (o : Observation) events :
  g ∉ o_groups o -> group_log g (o :: events) = group_log g events.
Proof. intros. unfold group_log. simpl. unfold in_group at 1. by rewrite bool_decide_eq_false_2. Qed.

Lemma group_log_app (g : Group) l k : group_log g (l ++ k) = group_log g l ++ group_log g k.
Proof. apply List.filter_app. Qed.

Lemma group_log_elem (g : Group) o events :
  o ∈ group_log g events <-> o ∈ events /\ g ∈ o_groups o.
Proof.
  unfold group_log. rewrite list_elem_of_In, filter_In, <- list_elem_of_In.
  unfold in_group. by rewrite bool_decide_eq_true.
Qed.

(** ** Expiring the oldest observation *)

Definition expire_state (old : Observation) (state : GroupState) : option GroupState :=
  match gs_events state with
  | [] => None
  | e :: rest =>
      if o_sequence e =? o_sequence old
      then match rest with [] => None | _ => Some (mkGroupState rest (gs_last_emit state)) end
      else Some (mkGroupState (e :: rest) (gs_last_emit state))
  end.

Lemma expire_group_lookup (old : Observation) (m : gmap Group GroupState) (g g' : Group) :
  expire_group old m g !! g' =
    if decide (g = g') then m !! g ≫= expire_state old else m !! g'.
Proof.
  unfold expire_group, expire_state. case_decide as Hd; [subst g'|].
  - destruct (m !! g) as [[[|e rest] em]|] eqn:Hg; simpl; [by rewrite lookup_delete_eq| |done].
    destruct (_ =? _); [|by rewrite lookup_insert_eq].
    destruct rest; [by rewrite lookup_delete_eq|by rewrite lookup_insert_eq].
  - destruct (m !! g) as [[[|e rest] em]|]; simpl; [by rewrite lookup_delete_ne| |done].
    destruct (_ =? _); [|by rewrite lookup_insert_ne].
    destruct rest; [by rewrite lookup_delete_ne|by rewrite lookup_insert_ne].
Qed.

Lemma expire_group_size (old : Observation) (m : gmap Group GroupState) (g : Group) :
  (size (expire_group old m g) <= size m)%nat.
Proof.
  unfold expire_group. destruct (m !! g) as [state|] eqn:Hg; [|done].
  destruct (match gs_events state with [] => _ | _ => _ end); [apply map_size_delete_le|].
  by rewrite map_size_insert_Some.
Qed.

Lemma expire_groups_lookup (old : Observation) (l : list Group) (m : gmap Group GroupState) (g : Group) :
  NoDup l ->
  fold_left (expire_group old) l m !! g =
    if decide (g ∈ l) then m !! g ≫= expire_state old else m !! g.
Proof.
  intros Hnd. revert m. induction Hnd as [|k l Hk Hnd IH]; intros m; simpl.
  { done. }
  rewrite IH, expire_group_lookup.
  repeat case_decide; simplify_eq; set_solver.
Qed.

Lemma expire_groups_size (old : Observation) (l : list Group) (m : gmap Group GroupState) :
  (size (fold_left (expire_group old) l m) <= size m)%nat.
Proof.
  revert m. induction l as [|k l IH]; intros m; simpl; [done|].
  etrans; [apply IH|apply expire_group_size].
Qed.

Lemma suffix_cons_inv' {A} (x : A) (l k : list A) :
  l `suffix_of` x :: k -> l = x :: k \/ l `suffix_of` k.
Proof. intros [[|y d] Hd]; simpl in Hd; [by left|]. injection Hd as <- ->. right. by eexists. Qed.

Lemma events_ok_tail old events seq w :
  events_ok (old :: events) seq w -> events_ok events seq w.
Proof.
  intros [H1 H2 H3 H4 H5 H6].
  split; [by apply StronglySorted_inv in H1 as [? _]|by apply Forall_inv_tail in H2
         |by apply StronglySorted_inv in H3 as [? _]|by apply Forall_inv_tail in H4
         |by apply Forall_inv_tail in H5|by apply Forall_inv_tail in H6].
Qed.

Lemma groups_ok_expire old events groups seq w :
  events_ok (old :: events) seq w -> groups_ok (old :: events) groups ->
  groups_ok events (fold_left (expire_group old) (o_groups old) groups).
Proof.
  intros Heo Hg g state. destruct Heo as [Hseq _ _ _ Hnd _].
  apply Forall_inv in Hnd. rewrite expire_groups_lookup by done.
  destruct (decide (g ∈ o_groups old)) as [Hin|Hin]; intros Hst.
  - destruct (groups !! g) as [st|] eqn:Hst0; [|done]. simpl in Hst.
    destruct (Hg _ _ Hst0) as [Hne Hsuf]. rewrite group_log_cons_in in Hsuf by done.
    unfold expire_state in Hst. apply suffix_cons_inv' in Hsuf as [Hall|Hsuf].
    + rewrite Hall, Z.eqb_refl in Hst.
      destruct (group_log g events) eqn:Hl; [done|]. simplify_eq. simpl. by split.
    + destruct (gs_events st) as [|e rest] eqn:He; [done|].
      assert (He' : e ∈ events).
      { destruct Hsuf as [d Hd]. assert (e ∈ group_log g events) as ?%group_log_elem
          by (rewrite Hd; set_solver). naive_solver. }
      apply StronglySorted_inv in Hseq as [_ Hlt]. rewrite Forall_forall in Hlt.
      specialize (Hlt _ He'). rewrite (proj2 (Z.eqb_neq _ _)) in Hst by lia.
      simplify_eq. simpl. done.
  - destruct (Hg _ _ Hst) as [Hne Hsuf]. by rewrite group_log_cons_out in Hsuf.
Qed.

Lemma log_ok_expire_front (s : MultiWindowScorer) : log_ok s -> log_ok (expire_front s).
Proof.
  intros [H1 H2 H3 H4]. unfold expire_front.
  destruct (ms_events s) as [|old events] eqn:He; [by split; rewrite ?He|].
  split; simpl.
  - by eapply events_ok_tail.
  - by eapply groups_ok_expire.
  - rewrite zlen_cons in H3. lia.
  - pose proof (expire_groups_size old (o_groups old) (ms_groups s)). lia.
Qed.

Lemma log_ok_truncate (s : MultiWindowScorer) (now : Z) : log_ok s -> log_ok (truncate s now).
Proof. intros [H1 H2 H3 H4]. by split. Qed.

Lemma log_ok_expire_old (turns : nat) (horizon : Z) (s : MultiWindowScorer) :
  log_ok s -> log_ok (expire_old turns horizon s).
Proof.
  revert s. induction turns as [|turns IH]; intros s Hs; simpl; [done|].
  destruct (ms_events s) as [|e l]; [done|].
  destruct (_ <? _); [|done]. by apply IH, log_ok_expire_front.
Qed.

Lemma log_ok_shed (turns : nat) (limit now : Z) (s : MultiWindowScorer) :
  log_ok s -> log_ok (shed_log turns limit now s).
Proof.
  revert s. induction turns as [|turns IH]; intros s Hs; simpl; [done|].
  destruct (_ <=? _); [|done]. by apply IH, log_ok_expire_front, log_ok_truncate.
Qed.

(** Both loops run out of events, not out of turns. *)
Lemma expire_front_length (s : MultiWindowScorer) :
  length (ms_events (expire_front s)) = pred (length (ms_events s)).
Proof. unfold expire_front. destruct (ms_events s) eqn:E; simpl; [by rewrite E|done]. Qed.

Lemma expire_old_done (turns : nat) (horizon : Z) (s : MultiWindowScorer) :
  (length (ms_events s) <= turns)%nat ->
  match ms_events (expire_old turns horizon s) with
  | e :: _ => horizon <= o_timestamp_ms e
  | [] => True
  end.
Proof.
  revert s. induction turns as [|turns IH]; intros s Hl; simpl.
  - destruct (ms_events s) eqn:He; [done|]. simpl in Hl. lia.
  - destruct (ms_events s) as [|e l] eqn:He; [by rewrite He|].
    destruct (Z.ltb_spec (o_timestamp_ms e) horizon); [|by rewrite He].
    apply IH. rewrite expire_front_length, He. simpl in *. lia.
Qed.

Lemma shed_log_done (turns : nat) (limit now : Z) (s : MultiWindowScorer) :
  1 <= limit -> (length (ms_events s) <= turns)%nat ->
  zlen (ms_events (shed_log turns limit now s)) < limit.
Proof.
  intros Hl. revert s. induction turns as [|turns IH]; intros s Ht; simpl; [unfold zlen; lia|].
  destruct (Z.leb_spec limit (zlen (ms_events s))); [|done].
  apply IH. rewrite expire_front_length. simpl. lia.
Qed.

(** ** Recording an observation *)

Lemma group_keys_nodup (config : DetectionConfig) (event : FileEvent) :
  NoDup (group_keys config event).
Proof. apply dedup_sort_nodup. Qed.

Lemma group_keys_instance (config : DetectionConfig) (event : FileEvent) (i : Instance_) :
  GInstance i ∈ group_keys config event -> event_instance event = Some i.
Proof.
  unfold group_keys, btree_set. rewrite dedup_sort_elem, elem_of_app. intros [Hi|Hi].
  - destruct (event_instance event) as [j|]; set_solver.
  - exfalso. revert Hi. destruct (protected_root config (fe_path event)) as [root|]; [|set_solver].
    rewrite elem_of_cons. intros [?|Hi]; [done|].
    destruct (usable_process event) as [p|]; [|set_solver].
    apply elem_of_app in Hi as [Hi|Hi].
    + destruct (mw_aggregate_by_user _); set_solver.
    + destruct (mw_aggregate_by_ancestry _); [|set_solver].
      unfold ancestor_groups in Hi. apply list_elem_of_fmap in Hi as (? & ? & _). done.
Qed.

Lemma included_keys_nodup (keys : list Group) rules : NoDup keys -> NoDup (included_keys keys rules).
Proof. intros. by apply NoDup_ListNoDup, List.NoDup_filter, NoDup_ListNoDup. Qed.

Lemma included_keys_elem (keys : list Group) rules g :
  g ∈ included_keys keys rules <-> g ∈ keys /\ ~ group_rule g ∈ rules.
Proof.
  unfold included_keys. rewrite list_elem_of_In, filter_In, <- list_elem_of_In.
  rewrite negb_true_iff. pose proof (str_mem_spec (group_rule g) rules).
  destruct (str_mem _ _); naive_solver.
Qed.

(** While [entry] is being pushed, the groups still in [todo] lack it. *)
Definition pushed (entry : Observation) (todo : list Group) (g : Group) : list Observation :=
  if decide (g ∈ o_groups entry /\ g ∉ todo) then [entry] else [].

Definition mid_ok (entry : Observation) (todo : list Group) (events : list Observation)
    (groups : gmap Group GroupState) : Prop :=
  forall g state, groups !! g = Some state ->
    gs_events state <> [] /\ gs_events state `suffix_of` group_log g events ++ pushed entry todo g.

Lemma pushed_all (entry : Observation) (g : Group) : pushed entry (o_groups entry) g = [].
Proof. unfold pushed. by rewrite decide_False by naive_solver. Qed.

Lemma pushed_none (entry : Observation) (g : Group) (events : list Observation) :
  group_log g events ++ pushed entry [] g = group_log g (events ++ [entry]).
Proof.
  rewrite group_log_app. f_equal. unfold pushed.
  assert (Hnil : g ∉ ([] : list Group)) by apply not_elem_of_nil.
  destruct (decide (g ∈ o_groups entry)).
  - by rewrite decide_True, group_log_cons_in by done.
  - by rewrite decide_False, group_log_cons_out by naive_solver.
Qed.

Lemma pushed_other (entry : Observation) (key g : Group) (todo : list Group) :
  g <> key -> pushed entry (key :: todo) g = pushed entry todo g.
Proof. intros. unfold pushed. apply decide_ext. set_solver. Qed.

Lemma pushed_head (entry : Observation) (key : Group) (todo : list Group) :
  key ∈ o_groups entry -> key ∉ todo ->
  pushed entry (key :: todo) key = [] /\ pushed entry todo key = [entry].
Proof. intros. unfold pushed. rewrite decide_False by set_solver. by rewrite decide_True. Qed.

Definition group_events (groups : gmap Group GroupState) (g : Group) : list Observation :=
  match groups !! g with Some state => gs_events state | None => [] end.

Lemma push_group_events (entry : Observation) (now : Z) (s : MultiWindowScorer) (key : Group) :
  group_events (ms_groups (push_group entry now s key)) key
  = group_events (ms_groups (evict_oldest_group s key now)) key ++ [entry].
Proof.
  unfold push_group, group_events. simpl. rewrite lookup_insert_eq. simpl.
  by destruct (_ !! key).
Qed.

Lemma push_group_events_other (entry : Observation) (now : Z) (s : MultiWindowScorer) (key g : Group) :
  g <> key ->
  group_events (ms_groups (push_group entry now s key)) g
  = group_events (ms_groups (evict_oldest_group s key now)) g.
Proof. intros. unfold push_group, group_events. simpl. by rewrite lookup_insert_ne. Qed.

(** Eviction only removes one other group, and reports it. *)
Lemma evict_oldest_group_cases (s : MultiWindowScorer) (key : Group) (now : Z) :
  (evict_oldest_group s key now = s
   /\ (is_some (ms_groups s !! key) = true \/ Z.of_nat (size (ms_groups s)) < max_groups (ms_config s)))
  \/ (exists oldest, oldest <> key /\ is_Some (ms_groups s !! oldest)
      /\ evict_oldest_group s key now =
         truncate (with_log s (ms_events s) (delete oldest (ms_groups s)) (ms_incomplete_until s)) now).
Proof.
  unfold evict_oldest_group.
  destruct (is_some (ms_groups s !! key)) eqn:Hk; simpl; [by auto|].
  destruct (Z.leb_spec (max_groups (ms_config s)) (Z.of_nat (size (ms_groups s)))) as [Hle|]; [|by auto].
  destruct (min_by_key _ _) as [[oldest st]|] eqn:Hmin.
  - right. apply min_by_key_elem, elem_of_map_to_list in Hmin.
    exists oldest. split_and!; [|by eauto|done]. intros ->. by rewrite Hmin in Hk.
  - apply min_by_key_None, map_to_list_empty_iff in Hmin. rewrite Hmin, map_size_empty in Hle.
    pose proof (max_groups_range (ms_config s)). lia.
Qed.

Lemma evict_oldest_group_frame (s : MultiWindowScorer) (key : Group) (now : Z) :
  ms_config (evict_oldest_group s key now) = ms_config s
  /\ ms_events (evict_oldest_group s key now) = ms_events s
  /\ ms_sequence (evict_oldest_group s key now) = ms_sequence s
  /\ ms_watermark (evict_oldest_group s key now) = ms_watermark s.
Proof. destruct (evict_oldest_group_cases s key now) as [[-> _]|(? & _ & _ & ->)]; done. Qed.

Lemma evict_oldest_group_sub (s : MultiWindowScorer) (key g : Group) (now : Z) state :
  ms_groups (evict_oldest_group s key now) !! g = Some state -> ms_groups s !! g = Some state.
Proof.
  destruct (evict_oldest_group_cases s key now) as [[-> _]|(o & _ & _ & ->)]; [done|]. simpl.
  intros [_ ?]%lookup_delete_Some. done.
Qed.

Lemma push_group_frame (entry : Observation) (now : Z) (s : MultiWindowScorer) (key : Group) :
  ms_config (push_group entry now s key) = ms_config s
  /\ ms_events (push_group entry now s key) = ms_events s
  /\ ms_sequence (push_group entry now s key) = ms_sequence s
  /\ ms_watermark (push_group entry now s key) = ms_watermark s.
Proof. apply evict_oldest_group_frame. Qed.

Lemma push_group_size (entry : Observation) (now : Z) (s : MultiWindowScorer) (key : Group) :
  Z.of_nat (size (ms_groups s)) <= max_groups (ms_config s) ->
  Z.of_nat (size (ms_groups (push_group entry now s key))) <= max_groups (ms_config s).
Proof.
  intros Hs. unfold push_group. simpl.
  destruct (evict_oldest_group_cases s key now) as [[-> Hk]|(o & Hne & [st Ho] & ->)]; simpl.
  - destruct Hk as [Hk|Hk].
    + destruct (ms_groups s !! key) eqn:E; [|done]. by rewrite map_size_insert_Some.
    + pose proof (map_size_insert_le (ms_groups s) key
        (mkGroupState (gs_events (default GroupState_default (ms_groups s !! key)) ++ [entry])
          (gs_last_emit (default GroupState_default (ms_groups s !! key))))). lia.
  - etrans; [apply inj_le, map_size_insert_le|].
    rewrite map_size_delete_Some by eauto.
    assert (size (ms_groups s) <> 0%nat).
    { intros E. apply map_size_empty_inv in E. by rewrite E in Ho. }
    lia.
Qed.

Lemma push_group_mid (entry : Observation) (now : Z) (s : MultiWindowScorer) (key : Group)
    (todo : list Group) :
  key ∈ o_groups entry -> key ∉ todo ->
  mid_ok entry (key :: todo) (ms_events s) (ms_groups s) ->
  mid_ok entry todo (ms_events s) (ms_groups (push_group entry now s key)).
Proof.
  intros Hk Hnt Hmid g state.
  destruct (pushed_head entry key todo Hk Hnt) as [Hp1 Hp2].
  unfold push_group. simpl. destruct (decide (g = key)) as [->|Hne].
  - rewrite lookup_insert_eq. intros [= <-]. simpl. split; [by destruct (gs_events _)|].
    rewrite Hp2. destruct (ms_groups (evict_oldest_group s key now) !! key) as [st|] eqn:Hst; simpl.
    + apply evict_oldest_group_sub in Hst. destruct (Hmid _ _ Hst) as [_ Hsuf].
      rewrite Hp1, app_nil_r in Hsuf. by apply suffix_app.
    + by apply suffix_app_r.
  - rewrite lookup_insert_ne by done. intros Hst%evict_oldest_group_sub.
    destruct (Hmid _ _ Hst) as [? Hsuf]. by rewrite pushed_other in Hsuf.
Qed.

Lemma push_groups_mid (entry : Observation) (now : Z) (todo : list Group) (s : MultiWindowScorer) :
  NoDup todo -> todo ⊆ o_groups entry ->
  mid_ok entry todo (ms_events s) (ms_groups s) ->
  Z.of_nat (size (ms_groups s)) <= max_groups (ms_config s) ->
  let s' := fold_left (push_group entry now) todo s in
  mid_ok entry [] (ms_events s) (ms_groups s')
  /\ Z.of_nat (size (ms_groups s')) <= max_groups (ms_config s)
  /\ ms_config s' = ms_config s /\ ms_events s' = ms_events s
  /\ ms_sequence s' = ms_sequence s /\ ms_watermark s' = ms_watermark s.
Proof.
  intros Hnd. revert s. induction Hnd as [|key todo Hk Hnd IH]; intros s Hsub Hmid Hsize; simpl.
  { by split_and!. }
  destruct (push_group_frame entry now s key) as (E1 & E2 & E3 & E4).
  destruct (IH (push_group entry now s key)) as (H1 & H2 & H3 & H4 & H5 & H6).
  - set_solver.
  - rewrite E2. apply push_group_mid; [set_solver|done..].
  - rewrite E1. by apply push_group_size.
  - rewrite E1, E2, E3, E4 in *. by split_and!.
Qed.

(** ** The unbounded log the bounded one stands for *)

(** What an evaluation records, if anything. *)
Definition recorded (s : MultiWindowScorer) (event : FileEvent) (adjusted_rules : list string)
    : list Observation :=
  let now := Z.max (ms_watermark s) (fe_timestamp_ms event) in
  let included := included_keys (group_keys (ms_config s) event) adjusted_rules in
  if mw_enabled (dc_multi_window (ms_config s)) && negb (inadmissible (ms_config s) event now)
     && records event included
  then [new_observation s event included now] else [].

(** [T] is late enough that nothing observed after it may have been dropped. *)
Definition reliable_after (s : MultiWindowScorer) (T : Z) : Prop :=
  ms_watermark s - horizon_ms (ms_config s) <= T + 1
  /\ forall u, ms_incomplete_until s = Some u ->
       u < u64_max /\ u - horizon_ms (ms_config s) <= T.

Definition after (T : Z) (l : list Observation) : list Observation :=
  List.filter (fun o => T <? o_timestamp_ms o) l.

Definition cover (s : MultiWindowScorer) (full : list Observation) : Prop :=
  forall T, reliable_after s T ->
    forall g, after T (group_events (ms_groups s) g) = after T (group_log g full).

Definition times_ok (s : MultiWindowScorer) (full : list Observation) : Prop :=
  Forall (fun o => 0 <= o_timestamp_ms o <= ms_watermark s) full /\ 0 <= ms_watermark s.

(** The state represents the unbounded log [full]. *)
Record represents (s : MultiWindowScorer) (full : list Observation) : Prop := {
  rp_log : log_ok s;
  rp_times : times_ok s full;
  rp_events : ms_events s `suffix_of` full;
  rp_cover : cover s full;
}.

Lemma after_app (T : Z) (l k : list Observation) : after T (l ++ k) = after T l ++ after T k.
Proof. apply List.filter_app. Qed.

Lemma after_nil (T : Z) (l : list Observation) :
  Forall (fun o => o_timestamp_ms o <= T) l -> after T l = [].
Proof.
  induction 1 as [|o l Ho Hl IH]; [done|]. unfold after in *. simpl.
  by rewrite (proj2 (Z.ltb_ge _ _)).
Qed.

Lemma horizon_nonneg (config : DetectionConfig) : 0 <= horizon_ms config.
Proof. unfold horizon_ms. induction (mw_windows _); simpl; lia. Qed.

Lemma suffix_of_sublist_Forall {A} (P : A -> Prop) (l k : list A) :
  l `suffix_of` k -> Forall P k -> Forall P l.
Proof. intros [d ->] [_ ?]%Forall_app. done. Qed.

Lemma group_log_times (g : Group) (P : Observation -> Prop) l :
  Forall P l -> Forall P (group_log g l).
Proof. rewrite !Forall_forall. intros Hl o [? _]%group_log_elem. auto. Qed.

Lemma group_events_times (s : MultiWindowScorer) (full : list Observation) (g : Group) :
  groups_ok (ms_events s) (ms_groups s) -> ms_events s `suffix_of` full -> times_ok s full ->
  Forall (fun o => 0 <= o_timestamp_ms o <= ms_watermark s) (group_events (ms_groups s) g).
Proof.
  intros Hg Hsuf [Ht _]. unfold group_events.
  destruct (ms_groups s !! g) as [state|] eqn:Hst; [|done].
  destruct (Hg _ _ Hst) as [_ Hs].
  eapply suffix_of_sublist_Forall; [done|]. apply group_log_times.
  by eapply suffix_of_sublist_Forall.
Qed.

(** After a truncation at the current time every reliable window is empty. *)
Lemma truncated_cover (s : MultiWindowScorer) (full : list Observation) (u : Z) :
  ms_incomplete_until s = Some u -> u = sat_add (ms_watermark s) (horizon_ms (ms_config s)) ->
  groups_ok (ms_events s) (ms_groups s) -> ms_events s `suffix_of` full -> times_ok s full ->
  cover s full.
Proof.
  intros Hu -> Hg Hsuf Ht T [_ HT] g. specialize (HT _ Hu). unfold sat_add in HT.
  pose proof (group_events_times s full g Hg Hsuf Ht) as Hge.
  destruct Ht as [Ht _]. rewrite !after_nil; [done| |].
  - apply group_log_times. eapply Forall_impl; [done|]. simpl. lia.
  - eapply Forall_impl; [done|]. simpl. lia.
Qed.

Lemma expire_front_fields (s : MultiWindowScorer) :
  ms_config (expire_front s) = ms_config s /\ ms_sequence (expire_front s) = ms_sequence s
  /\ ms_watermark (expire_front s) = ms_watermark s
  /\ ms_incomplete_until (expire_front s) = ms_incomplete_until s
  /\ ms_events (expire_front s) `suffix_of` ms_events s.
Proof.
  unfold expire_front. destruct (ms_events s) as [|o l] eqn:He; simpl; rewrite ?He.
  - by split_and!.
  - split_and!; try done. by apply suffix_cons_r.
Qed.

(** Expiring an observation older than [T] loses nothing after [T]. *)
Lemma expire_front_after (s : MultiWindowScorer) (T : Z) (g : Group) old rest :
  log_ok s -> ms_events s = old :: rest -> o_timestamp_ms old <= T ->
  after T (group_events (ms_groups (expire_front s)) g) = after T (group_events (ms_groups s) g).
Proof.
  intros [[Hseq _ _ _ Hnd _] Hg _ _] He Hold. unfold expire_front. rewrite He in *. simpl.
  apply Forall_inv in Hnd. unfold group_events. rewrite expire_groups_lookup by done.
  destruct (decide (g ∈ o_groups old)) as [Hin|]; [|done].
  destruct (ms_groups s !! g) as [st|] eqn:Hst; [|done]. simpl.
  destruct (Hg _ _ Hst) as [Hne Hsuf]. rewrite group_log_cons_in in Hsuf by done.
  unfold expire_state. destruct (gs_events st) as [|e l] eqn:Hev; [done|].
  destruct (Z.eqb_spec (o_sequence e) (o_sequence old)) as [Heq|]; [|done].
  assert (e = old) as ->.
  { apply suffix_cons_inv' in Hsuf as [Hall|Hsuf]; [by simplify_eq|].
    assert (e ∈ group_log g rest) as [Hin' _]%group_log_elem.
    { destruct Hsuf as [d Hd]. rewrite Hd. set_solver. }
    apply StronglySorted_inv in Hseq as [_ Hlt]. rewrite Forall_forall in Hlt.
    specialize (Hlt _ Hin'). lia. }
  transitivity (after T l).
  - by destruct l.
  - unfold after. simpl. by rewrite (proj2 (Z.ltb_ge _ _)).
Qed.

Lemma represents_expire_front (s : MultiWindowScorer) full :
  represents s full ->
  match ms_events s with
  | old :: _ => o_timestamp_ms old < ms_watermark s - horizon_ms (ms_config s)
  | [] => True
  end -> represents (expire_front s) full.
Proof.
  intros [Hlog Ht Hsuf Hc] Hold.
  destruct (expire_front_fields s) as (E1 & E2 & E3 & E4 & E5). split.
  - by apply log_ok_expire_front.
  - unfold times_ok. by rewrite E3.
  - by etrans.
  - intros T HT g. assert (HT' : reliable_after s T) by (unfold reliable_after in *; by rewrite E1, E3, E4 in HT).
    rewrite <- (Hc T HT' g). destruct (ms_events s) as [|old rest] eqn:He.
    + unfold expire_front. by rewrite He.
    + eapply expire_front_after; [done..|]. destruct HT' as [HT' _]. lia.
Qed.

Lemma represents_expire_old (turns : nat) (s : MultiWindowScorer) full :
  represents s full ->
  let horizon := sat_sub (ms_watermark s) (horizon_ms (ms_config s)) in
  represents (expire_old turns horizon s) full.
Proof.
  revert s. induction turns as [|turns IH]; intros s Hs; simpl; [done|].
  destruct (ms_events s) as [|o l] eqn:He; [done|].
  destruct (Z.ltb_spec (o_timestamp_ms o) (sat_sub (ms_watermark s) (horizon_ms (ms_config s)))); [|done].
  destruct (expire_front_fields s) as (E1 & E2 & E3 & E4 & E5).
  specialize (IH (expire_front s)). rewrite E1, E3 in IH. apply IH.
  apply represents_expire_front; [done|]. rewrite He.
  destruct Hs as [_ [Ht _] Hsuf _]. rewrite He in Hsuf.
  apply (suffix_of_sublist_Forall _ _ _ Hsuf), Forall_inv in Ht. unfold sat_sub in *. lia.
Qed.

Lemma represents_truncate (s : MultiWindowScorer) full :
  represents s full -> represents (truncate s (ms_watermark s)) full.
Proof.
  intros [Hlog Ht Hsuf Hc]. split; [by apply log_ok_truncate|done..|].
  eapply truncated_cover; [done|done|by destruct Hlog|done..].
Qed.

(** Shedding may lose recent observations, so it truncates first. *)
Lemma represents_shed (turns : nat) (limit : Z) (s : MultiWindowScorer) full :
  represents s full -> represents (shed_log turns limit (ms_watermark s) s) full.
Proof.
  revert s. induction turns as [|turns IH]; intros s Hs; simpl; [done|].
  destruct (limit <=? _); [|done].
  apply represents_truncate in Hs as Hs'. set (s1 := truncate s (ms_watermark s)) in *.
  destruct (expire_front_fields s1) as (E1 & E2 & E3 & E4 & E5).
  assert (Hw : ms_watermark (expire_front s1) = ms_watermark s) by (by rewrite E3).
  rewrite <- Hw. apply IH. destruct Hs' as [Hlog Ht Hsuf _].
  assert (Hlog' : log_ok (expire_front s1)) by by apply log_ok_expire_front.
  assert (Hsuf' : ms_events (expire_front s1) `suffix_of` full) by by etrans.
  assert (Ht' : times_ok (expire_front s1) full) by (unfold times_ok; by rewrite E3).
  split; [done..|]. eapply truncated_cover; [by rewrite E4| |by destruct Hlog'|done..].
  by rewrite E1, E3.
Qed.

Lemma shed_log_fields (turns : nat) (limit now : Z) (s : MultiWindowScorer) :
  ms_config (shed_log turns limit now s) = ms_config s
  /\ ms_sequence (shed_log turns limit now s) = ms_sequence s
  /\ ms_watermark (shed_log turns limit now s) = ms_watermark s.
Proof.
  revert s. induction turns as [|turns IH]; intros s; simpl; [done|].
  destruct (limit <=? _); [|done].
  destruct (IH (expire_front (truncate s now))) as (-> & -> & ->).
  by destruct (expire_front_fields (truncate s now)) as (-> & -> & -> & _).
Qed.

Lemma represents_advance (s : MultiWindowScorer) full now :
  represents s full -> ms_watermark s <= now -> represents (advance s now) full.
Proof.
  intros [[Heo Hg Hb1 Hb2] [Ht Hw] Hsuf Hc] Hnow. unfold advance.
  set (s1 := mkMultiWindowScorer _ _ _ _ _ _ _).
  apply (represents_expire_old (length (ms_events s)) s1). split.
  - destruct Heo as [? ? ? Hle ? ?]. split; try done. split; try done. simpl.
    eapply Forall_impl; [exact Hle|]. simpl. lia.
  - split; simpl; [|lia]. eapply Forall_impl; [done|]. simpl. lia.
  - done.
  - intros T [HT1 HT2] g. apply (Hc T). split; [|done]. simpl in HT1. lia.
Qed.

Lemma expire_old_fields (turns : nat) (horizon : Z) (s : MultiWindowScorer) :
  ms_config (expire_old turns horizon s) = ms_config s
  /\ ms_sequence (expire_old turns horizon s) = ms_sequence s
  /\ ms_watermark (expire_old turns horizon s) = ms_watermark s.
Proof.
  revert s. induction turns as [|turns IH]; intros s; simpl; [done|].
  destruct (ms_events s); [done|]. destruct (_ <? _); [|done].
  destruct (IH (expire_front s)) as (-> & -> & ->).
  by destruct (expire_front_fields s) as (-> & -> & -> & _).
Qed.

Lemma advance_fields (s : MultiWindowScorer) now :
  ms_config (advance s now) = ms_config s
  /\ ms_sequence (advance s now) = ms_sequence s /\ ms_watermark (advance s now) = now.
Proof.
  unfold advance.
  match goal with |- context [expire_old ?a ?b ?c] => exact (expire_old_fields a b c) end.
Qed.

(** Pushing to one group keeps the reliable part of every other. *)
Lemma push_group_cover (entry : Observation) (s : MultiWindowScorer) (full : list Observation)
    (key : Group) (todo : list Group) :
  key ∈ o_groups entry -> key ∉ todo ->
  (forall g, Forall (fun o => o_timestamp_ms o <= ms_watermark s)
               (group_log g full ++ pushed entry todo g)) ->
  (forall g, Forall (fun o => o_timestamp_ms o <= ms_watermark s)
               (group_events (ms_groups (push_group entry (ms_watermark s) s key)) g)) ->
  (forall T, reliable_after s T -> forall g,
     after T (group_events (ms_groups s) g) = after T (group_log g full ++ pushed entry (key :: todo) g)) ->
  forall T, reliable_after (push_group entry (ms_watermark s) s key) T -> forall g,
     after T (group_events (ms_groups (push_group entry (ms_watermark s) s key)) g)
     = after T (group_log g full ++ pushed entry todo g).
Proof.
  intros Hk Hnt Hfull Hge Hc T HT g.
  destruct (evict_oldest_group_cases s key (ms_watermark s)) as [[Ev _]|(o & _ & _ & Ev)].
  - assert (HT' : reliable_after s T).
    { unfold reliable_after, push_group in HT. rewrite Ev in HT. exact HT. }
    destruct (pushed_head entry key todo Hk Hnt) as [Hp1 Hp2].
    destruct (decide (g = key)) as [->|Hne].
    + rewrite push_group_events, Ev, Hp2, !after_app. f_equal.
      by rewrite (Hc T HT' key), Hp1, app_nil_r.
    + rewrite push_group_events_other, Ev by done.
      by rewrite (Hc T HT' g), pushed_other.
  - assert (Hu : ms_watermark s <= T).
    { destruct HT as [_ HT].
      specialize (HT (sat_add (ms_watermark s) (horizon_ms (ms_config s)))).
      unfold push_group in HT. rewrite Ev in HT. specialize (HT eq_refl).
      change (ms_config _) with (ms_config s) in HT. unfold sat_add in HT. lia. }
    rewrite !after_nil; [done| |].
    + eapply Forall_impl; [apply Hfull|]. simpl. lia.
    + eapply Forall_impl; [apply Hge|]. simpl. lia.
Qed.

Lemma mid_ok_times (entry : Observation) todo events groups (w : Z) g :
  mid_ok entry todo events groups -> Forall (fun o => o_timestamp_ms o <= w) events ->
  o_timestamp_ms entry <= w ->
  Forall (fun o => o_timestamp_ms o <= w) (group_events groups g).
Proof.
  intros Hm He Hw. unfold group_events. destruct (groups !! g) as [st|] eqn:Hst; [|done].
  destruct (Hm _ _ Hst) as [_ Hs]. eapply suffix_of_sublist_Forall; [done|].
  apply Forall_app. split; [by apply group_log_times|].
  unfold pushed. case_decide; [by repeat constructor|constructor].
Qed.

Lemma push_groups_cover (entry : Observation) (full : list Observation) (todo : list Group)
    (s : MultiWindowScorer) :
  NoDup todo -> todo ⊆ o_groups entry ->
  Forall (fun o => o_timestamp_ms o <= ms_watermark s) full ->
  Forall (fun o => o_timestamp_ms o <= ms_watermark s) (ms_events s) ->
  o_timestamp_ms entry <= ms_watermark s ->
  mid_ok entry todo (ms_events s) (ms_groups s) ->
  (forall T, reliable_after s T -> forall g,
     after T (group_events (ms_groups s) g) = after T (group_log g full ++ pushed entry todo g)) ->
  let s' := fold_left (push_group entry (ms_watermark s)) todo s in
  forall T, reliable_after s' T -> forall g,
     after T (group_events (ms_groups s') g) = after T (group_log g full ++ pushed entry [] g).
Proof.
  intros Hnd. revert s. induction Hnd as [|key todo Hk Hnd IH]; intros s Hsub Hf He Hw Hmid Hc; simpl.
  { apply Hc. }
  destruct (push_group_frame entry (ms_watermark s) s key) as (E1 & E2 & E3 & E4).
  assert (Hmid' : mid_ok entry todo (ms_events s) (ms_groups (push_group entry (ms_watermark s) s key)))
    by (apply push_group_mid; [set_solver|done..]).
  specialize (IH (push_group entry (ms_watermark s) s key)). rewrite E4, E2 in IH.
  apply IH; [set_solver|done..|].
  apply push_group_cover; [set_solver|done| | |done].
  - intros g. apply Forall_app. split; [by apply group_log_times|].
    unfold pushed. case_decide; [by repeat constructor|constructor].
  - intros g. by eapply mid_ok_times.
Qed.

Lemma suffix_app_l {A} (l k d : list A) : l `suffix_of` k -> l ++ d `suffix_of` k ++ d.
Proof. apply suffix_app. Qed.

Lemma StronglySorted_snoc {A} (R : A -> A -> Prop) (l : list A) (x : A) :
  StronglySorted R l -> Forall (fun a => R a x) l -> StronglySorted R (l ++ [x]).
Proof.
  induction 1 as [|a l Hs IH Ha]; intros Hf; simpl; [repeat constructor|].
  apply Forall_cons in Hf as [Hax Hf]. constructor; [by apply IH|].
  apply Forall_app. by repeat constructor.
Qed.

Lemma represents_record (s : MultiWindowScorer) (full : list Observation) event included :
  let now := ms_watermark s in
  represents s full -> ms_sequence s < u64_max -> NoDup included ->
  (forall i, GInstance i ∈ included -> event_instance event = Some i) ->
  represents (record_observation s event included now)
    (full ++ [new_observation s event included now]).
Proof.
  intros now Hs Hseq Hnd Hinst. unfold record_observation.
  set (s1 := shed_log _ _ _ _).
  assert (Hs1 : represents s1 full) by by apply represents_shed.
  assert (Hlt : zlen (ms_events s1) < max_events (ms_config s)).
  { apply shed_log_done; [apply max_events_range|done]. }
  destruct (shed_log_fields (length (ms_events s)) (max_events (ms_config s)) now s) as (E1 & E2 & E3).
  fold s1 in E1, E2, E3.
  assert (Hent : new_observation s1 event included now = new_observation s event included now).
  { unfold new_observation. by rewrite E1, E2. }
  rewrite Hent. set (entry := new_observation s event included now).
  assert (Heseq : o_sequence entry = ms_sequence s + 1) by (simpl; unfold sat_add; lia).
  assert (Hegr : o_groups entry = included) by done.
  assert (Hets : o_timestamp_ms entry = now) by done.
  assert (Heinst : o_instance entry = event_instance event) by done.
  clearbody entry. clear Hent.
  destruct Hs1 as [[Heo Hg Hb1 Hb2] [Ht Hw] Hsuf Hc].
  set (s2 := mkMultiWindowScorer _ _ _ _ _ _ _).
  assert (Hmid : mid_ok entry included (ms_events s2) (ms_groups s2)).
  { intros g st Hst. rewrite <- Hegr, pushed_all, app_nil_r. by apply Hg. }
  destruct (push_groups_mid entry now included s2) as (H1 & H2 & H3 & H4 & H5 & H6);
    [done|by rewrite Hegr|done|done|].
  assert (Hw2 : ms_watermark s2 = now) by done.
  assert (Hf : Forall (fun o => o_timestamp_ms o <= now) full).
  { eapply Forall_impl; [exact Ht|]. simpl. subst now. lia. }
  assert (Hcov := push_groups_cover entry full included s2). rewrite Hw2 in Hcov.
  set (s3 := fold_left _ _ _) in *.
  assert (Hev : ms_events s3 = ms_events s1) by (by rewrite H4).
  assert (Hcf : ms_config s3 = ms_config s) by (by rewrite H3).
  destruct Heo as [Q1 Q2 Q3 Q4 Q5 Q6]. rewrite E2 in Q2. rewrite E3 in Q4, Ht.
  split.
  - split; simpl.
    + rewrite Hev, H5, H6. cbn [ms_sequence ms_watermark s2]. rewrite E3. split.
      * apply StronglySorted_snoc; [done|]. eapply Forall_impl; [exact Q2|]. simpl. lia.
      * apply Forall_app. split; [|repeat constructor; lia].
        eapply Forall_impl; [exact Q2|]. simpl. lia.
      * apply StronglySorted_snoc; [done|]. by rewrite Hets.
      * apply Forall_app. split; [done|]. repeat constructor. by rewrite Hets.
      * apply Forall_app. split; [done|]. repeat constructor. by rewrite Hegr.
      * apply Forall_app. split; [done|]. repeat constructor. rewrite Hegr.
        intros i Hi. rewrite Heinst. by apply Hinst.
    + rewrite Hev. intros g st Hst. rewrite <- pushed_none. by apply H1.
    + rewrite Hev, Hcf, zlen_app. unfold zlen at 2. simpl. lia.
    + rewrite Hcf. rewrite <- E1. done.
  - assert (Hw' : 0 <= now) by (rewrite E3 in Hw; exact Hw).
    assert (H6' : ms_watermark s3 = now) by (rewrite H6; exact E3).
    split; cbn [ms_watermark with_log]; rewrite H6'; [|done].
    apply Forall_app. split; [done|]. repeat constructor; rewrite Hets; [done|lia].
  - simpl. rewrite Hev. by apply suffix_app.
  - intros T HT g. cbn [ms_groups with_log]. rewrite <- pushed_none.
    apply Hcov; [done|by rewrite Hegr|done|exact Q4|by rewrite Hets|done| |exact HT].
    intros T' HT' g'. rewrite <- Hegr, pushed_all, app_nil_r. apply Hc.
    exact HT'.
Qed.

(** ** Scoring leaves the observations alone *)

Lemma score_window_events `{RustStd} sensor key now truncated windows acc :
  gs_events (fold_left (score_group_window sensor key now truncated) windows acc).1
  = gs_events acc.1.
Proof.
  revert acc. induction windows as [|w ws IH]; intros [state outcome]; simpl; [done|].
  rewrite IH. unfold score_group_window.
  destruct (_ <? _); [done|]. destruct (f_lt _ _); [done|].
  by destruct (is_some_and _ _).
Qed.

Lemma score_group_events `{RustStd} config sensor now truncated acc key g :
  (fun st => gs_events st) <$> (score_group config sensor now truncated acc key).1 !! g
  = (fun st => gs_events st) <$> acc.1 !! g.
Proof.
  destruct acc as [groups outcome]. simpl. destruct (groups !! key) as [st|] eqn:Hk; [|done].
  destruct (fold_left _ _ _) as [st' out'] eqn:Hf. simpl.
  destruct (decide (g = key)) as [->|]; [|by rewrite lookup_insert_ne].
  rewrite lookup_insert_eq, Hk. simpl. f_equal.
  change st' with (st', out').1. rewrite <- Hf. apply score_window_events.
Qed.

Lemma score_group_size `{RustStd} config sensor now truncated acc key :
  size (score_group config sensor now truncated acc key).1 = size acc.1.
Proof.
  destruct acc as [groups outcome]. simpl. destruct (groups !! key) as [st|] eqn:Hk; [|done].
  destruct (fold_left _ _ _). simpl. by rewrite map_size_insert_Some.
Qed.

Lemma score_groups_events `{RustStd} config sensor now truncated keys acc :
  let acc' := fold_left (score_group config sensor now truncated) keys acc in
  (forall g, (fun st => gs_events st) <$> acc'.1 !! g = (fun st => gs_events st) <$> acc.1 !! g)
  /\ size acc'.1 = size acc.1.
Proof.
  simpl. revert acc. induction keys as [|k ks IH]; intros acc; simpl; [done|].
  destruct (IH (score_group config sensor now truncated acc k)) as [H1 H2]. split.
  - intros g. by rewrite H1, score_group_events.
  - by rewrite H2, score_group_size.
Qed.

Lemma represents_scored (s : MultiWindowScorer) full groups :
  represents s full ->
  (forall g, (fun st => gs_events st) <$> groups !! g = (fun st => gs_events st) <$> ms_groups s !! g) ->
  size groups = size (ms_groups s) ->
  represents (with_log s (ms_events s) groups (ms_incomplete_until s)) full.
Proof.
  intros [[Heo Hg Hb1 Hb2] Ht Hsuf Hc] Heq Hsz. split; [split|done..|]; simpl; try done.
  - intros g st Hst. specialize (Heq g). rewrite Hst in Heq. simpl in Heq.
    destruct (ms_groups s !! g) as [st0|] eqn:H0; simplify_eq/=. rewrite Heq. by apply Hg.
  - by rewrite Hsz.
  - intros T HT g. rewrite <- (Hc T HT g). f_equal. unfold group_events. simpl.
    specialize (Heq g). destruct (groups !! g), (ms_groups s !! g); by simplify_eq/=.
Qed.

(** ** One evaluation *)

(** The state whose groups are scored. *)
Definition observed (s : MultiWindowScorer) (event : FileEvent) (adjusted_rules : list string)
    : MultiWindowScorer :=
  let now := Z.max (ms_watermark s) (fe_timestamp_ms event) in
  let included := included_keys (group_keys (ms_config s) event) adjusted_rules in
  if records event included then record_observation (advance s now) event included now
  else advance s now.

Lemma multi_evaluate_eq `{RustStd} (s : MultiWindowScorer) event rules :
  mw_enabled (dc_multi_window (ms_config s)) = true ->
  let now := Z.max (ms_watermark s) (fe_timestamp_ms event) in
  inadmissible (ms_config s) event now = false ->
  let keys := group_keys (ms_config s) event in
  let o := observed s event rules in
  let truncated := incomplete_at (ms_incomplete_until o) now in
  let r := fold_left (score_group (ms_config o) (ms_sensor o) now truncated) keys
             (ms_groups o, mkMultiOutcome [] None truncated
                             (zlen (included_keys keys rules) <? zlen keys)) in
  multi_evaluate s event rules
  = (with_log o (ms_events o) r.1 (ms_incomplete_until o), r.2).
Proof.
  intros Hen now Hin keys o truncated r. unfold multi_evaluate. rewrite Hen. simpl negb.
  cbn [negb]. fold now.
  destruct (advance_fields s now) as (E1 & _ & _). rewrite E1, Hin.
  fold keys. subst r truncated. unfold o, observed. fold now keys.
  by destruct (fold_left _ _ _).
Qed.

Lemma represents_observed (s : MultiWindowScorer) full event rules :
  represents s full -> ms_sequence s < u64_max ->
  mw_enabled (dc_multi_window (ms_config s)) = true ->
  inadmissible (ms_config s) event (Z.max (ms_watermark s) (fe_timestamp_ms event)) = false ->
  represents (observed s event rules) (full ++ recorded s event rules).
Proof.
  intros Hs Hseq Hen Hin. set (now := Z.max (ms_watermark s) (fe_timestamp_ms event)) in *.
  assert (Ha : represents (advance s now) full) by (apply represents_advance; [done|lia]).
  destruct (advance_fields s now) as (E1 & E2 & E3).
  unfold observed, recorded. fold now. rewrite Hen, Hin. cbn [negb andb].
  destruct (records event _); [|by rewrite app_nil_r].
  assert (Hent : forall inc, new_observation (advance s now) event inc now = new_observation s event inc now)
    by (intros; unfold new_observation; by rewrite E1, E2).
  rewrite <- Hent. rewrite <- E3 at 2 4. apply represents_record.
  - done.
  - by rewrite E2.
  - apply included_keys_nodup, group_keys_nodup.
  - intros i [Hi _]%included_keys_elem. by eapply group_keys_instance.
Qed.

Lemma represents_evaluate `{RustStd} (s : MultiWindowScorer) full event rules :
  represents s full -> ms_sequence s < u64_max ->
  represents (multi_evaluate s event rules).1 (full ++ recorded s event rules).
Proof.
  intros Hs Hseq.
  destruct (mw_enabled (dc_multi_window (ms_config s))) eqn:Hen; [|by
    unfold multi_evaluate, recorded; rewrite Hen; simpl; rewrite app_nil_r].
  set (now := Z.max (ms_watermark s) (fe_timestamp_ms event)).
  destruct (inadmissible (ms_config s) event now) eqn:Hin.
  - unfold multi_evaluate, recorded. fold now. rewrite Hen. cbn [negb andb].
    destruct (advance_fields s now) as (E1 & E2 & E3). rewrite E1, Hin. cbn [negb andb fst].
    rewrite app_nil_r. rewrite <- E3 at 2. apply represents_truncate, represents_advance; [done|lia].
  - rewrite (multi_evaluate_eq s event rules Hen Hin). cbn [fst].
    match goal with |- context [fold_left ?f ?k ?a] =>
      destruct (score_groups_events (ms_config (observed s event rules))
        (ms_sensor (observed s event rules)) now
        (incomplete_at (ms_incomplete_until (observed s event rules)) now) k a) as [H1 H2] end.
    apply represents_scored; [by apply represents_observed|exact H1|exact H2].
Qed.

(** ** What an outcome reports *)

Definition multi_history := list (FileEvent * list string).

(** The state after a history, with everything it recorded. *)
Definition multi_step `{RustStd} (st : MultiWindowScorer * list Observation)
    (input : FileEvent * list string) : MultiWindowScorer * list Observation :=
  ((multi_evaluate st.1 input.1 input.2).1, st.2 ++ recorded st.1 input.1 input.2).
Definition multi_run `{RustStd} (config : DetectionConfig) (sensor : SensorKind)
    (h : multi_history) : MultiWindowScorer * list Observation :=
  fold_left multi_step h (MultiWindowScorer_new config sensor, []).

(** The observations of a group in a window, in the unbounded log. *)
Definition window_of (g : Group) (now : Z) (window : DetectionWindow) (full : list Observation)
    : list Observation :=
  List.filter (fun o => sat_sub now (sat_mul (dw_window_secs window) 1000) <=? o_timestamp_ms o)
    (group_log g full).

Section Outcomes.
Context `{RustStd} (config : DetectionConfig) (sensor : SensorKind) (now : Z) (truncated : bool).
Context (keys : list Group) (logs : Group -> list Observation).

Definition selection (g : Group) (w : DetectionWindow) : list Observation :=
  selected_events (mkGroupState (logs g) ∅) now (sat_mul (dw_window_secs w) 1000).

(** A score or alert is that of one listed group over one of the first eight windows. *)
Definition instance_score_ok (score : f64) : Prop :=
  truncated = false /\
  exists g w, g ∈ keys /\ is_instance g = true
    /\ w ∈ take 8 (mw_windows (dc_multi_window config))
    /\ dw_min_changed_files w <= zlen (distinct (map o_path (selection g w)))
    /\ score = window_score sensor w (selection g w).

Definition alert_ok (d : Detection) : Prop :=
  exists g w, g ∈ keys /\ w ∈ take 8 (mw_windows (dc_multi_window config))
    /\ dw_min_changed_files w <= zlen (distinct (map o_path (selection g w)))
    /\ f_lt (d_score d) (dw_detect_score w) = false
    /\ d = multi_alert w g (selection g w) now (window_score sensor w (selection g w)) truncated.

Definition outcome_ok (o : MultiOutcome) : Prop :=
  Forall alert_ok (mo_alerts o)
  /\ (forall score, mo_instance_score o = Some score -> instance_score_ok score).

Lemma f_max_cases (x y : f64) : f_max x y = x \/ f_max x y = y.
Proof. unfold f_max. repeat case_match; auto. Qed.

Lemma score_group_window_ok key w acc :
  key ∈ keys -> w ∈ take 8 (mw_windows (dc_multi_window config)) ->
  gs_events acc.1 = logs key -> outcome_ok acc.2 ->
  outcome_ok (score_group_window sensor key now truncated acc w).2.
Proof.
  destruct acc as [state outcome]. cbn [fst snd]. intros Hk Hw Hev [Ha Hi].
  unfold score_group_window.
  replace (selected_events state now (sat_mul (dw_window_secs w) 1000)) with (selection key w)
    by (unfold selection, selected_events; cbn [gs_events]; by rewrite Hev).
  destruct (Z.ltb_spec (zlen (distinct (map o_path (selection key w)))) (dw_min_changed_files w));
    [by split|].
  set (score := window_score sensor w (selection key w)).
  set (outcome1 := if is_instance key && negb truncated then _ else outcome).
  assert (Ho1 : outcome_ok outcome1).
  { unfold outcome1. destruct (is_instance key) eqn:Hkey; [|by split].
    destruct truncated eqn:Ht; [by split|]. simpl. split; [done|]. simpl. intros sc [= <-].
    assert (Hnew : instance_score_ok score).
    { split; [done|]. exists key, w. by split_and!. }
    destruct (mo_instance_score outcome) as [old|] eqn:Hold; [|done].
    destruct (f_max_cases old score) as [-> | ->]; [by apply Hi|done]. }
  destruct (f_lt score (dw_detect_score w)) eqn:Hlt; [done|].
  destruct (is_some_and _ _); [done|]. destruct Ho1 as [Ha1 Hi1]. split; [|done].
  simpl. apply Forall_app. split; [done|]. repeat constructor.
  exists key, w. by split_and!.
Qed.

Lemma score_windows_ok key ws acc :
  key ∈ keys -> Forall (fun w => w ∈ take 8 (mw_windows (dc_multi_window config))) ws ->
  gs_events acc.1 = logs key -> outcome_ok acc.2 ->
  outcome_ok (fold_left (score_group_window sensor key now truncated) ws acc).2.
Proof.
  intros Hk Hws. revert acc. induction Hws as [|w ws Hw Hws IH]; intros acc Hev Ho; simpl; [done|].
  apply IH; [|by apply score_group_window_ok].
  pose proof (score_window_events sensor key now truncated [w] acc) as He. simpl in He. congruence.
Qed.

Lemma score_groups_ok ks acc :
  ks ⊆ keys -> (forall g st, acc.1 !! g = Some st -> gs_events st = logs g) -> outcome_ok acc.2 ->
  outcome_ok (fold_left (score_group config sensor now truncated) ks acc).2.
Proof.
  revert acc. induction ks as [|k ks IH]; intros acc Hsub Hev Ho; simpl; [done|].
  apply IH; [set_solver| |].
  - intros g st Hst. pose proof (score_group_events config sensor now truncated acc k g) as He.
    rewrite Hst in He. simpl in He. destruct (acc.1 !! g) as [st0|] eqn:H0; simplify_eq/=.
    rewrite He. by apply Hev.
  - destruct acc as [groups outcome]. unfold score_group. cbn [fst snd] in *.
    destruct (groups !! k) as [st|] eqn:Hk; [|done].
    assert (Hx := score_windows_ok k (take 8 (mw_windows (dc_multi_window config))) (st, outcome)).
    destruct (fold_left _ _ _) as [st' out']. cbn [snd] in *. apply Hx; [set_solver| |by eapply Hev|done].
    by apply Forall_forall.
Qed.

End Outcomes.

(** Windows lie within the horizon, so they are reliable when nothing was truncated. *)
Lemma window_horizon (config : DetectionConfig) (w : DetectionWindow) :
  w ∈ mw_windows (dc_multi_window config) ->
  sat_mul (dw_window_secs w) 1000 <= horizon_ms config.
Proof.
  unfold horizon_ms. induction (mw_windows _) as [|v vs IH]; [by intros ?%not_elem_of_nil|].
  rewrite elem_of_cons. cbn [map fold_right]. intros [->|Hw]; [lia|]. specialize (IH Hw). lia.
Qed.

Lemma after_filter (T lo : Z) (l : list Observation) :
  T + 1 <= lo ->
  List.filter (fun o => lo <=? o_timestamp_ms o) (after T l)
  = List.filter (fun o => lo <=? o_timestamp_ms o) l.
Proof.
  intros HT. induction l as [|o l IH]; [done|]. unfold after in *. simpl.
  destruct (Z.ltb_spec T (o_timestamp_ms o)); simpl; [by rewrite IH|].
  by rewrite (proj2 (Z.leb_gt _ _)) by lia.
Qed.

Lemma represents_window (s : MultiWindowScorer) full g w :
  represents s full -> w ∈ mw_windows (dc_multi_window (ms_config s)) ->
  incomplete_at (ms_incomplete_until s) (ms_watermark s) = false ->
  ms_watermark s <= u64_max ->
  selected_events (mkGroupState (group_events (ms_groups s) g) ∅) (ms_watermark s)
    (sat_mul (dw_window_secs w) 1000)
  = window_of g (ms_watermark s) w full.
Proof.
  intros Hs Hw Hinc Hmax. pose proof (window_horizon _ _ Hw) as Hh.
  set (T := ms_watermark s - horizon_ms (ms_config s) - 1).
  assert (HT : reliable_after s T).
  { split; [lia|]. intros u Hu. unfold incomplete_at, is_some_and in Hinc.
    rewrite Hu in Hinc. split_bools. lia. }
  unfold selected_events, window_of. cbn [gs_events].
  assert (Hlo : T + 1 <= sat_sub (ms_watermark s) (sat_mul (dw_window_secs w) 1000))
    by (unfold sat_sub; lia).
  rewrite <- (after_filter T _ (group_events _ _)) by done.
  rewrite <- (after_filter T _ (group_log _ _)) by done.
  by rewrite (rp_cover _ _ Hs T HT g).
Qed.

(** ** Histories *)

Section Histories.
Context `{RustStd}.

Definition in_time (e : FileEvent) : Prop := fe_timestamp_ms e <= u64_max.
Definition timed_history (h : multi_history) : Prop :=
  zlen h <= u64_max /\ Forall (fun x => in_time x.1) h.

Lemma multi_run_snoc config sensor h x :
  multi_run config sensor (h ++ [x]) = multi_step (multi_run config sensor h) x.
Proof. unfold multi_run. by rewrite fold_left_app. Qed.

Lemma push_groups_frame (entry : Observation) (now : Z) (ks : list Group) (s : MultiWindowScorer) :
  let s' := fold_left (push_group entry now) ks s in
  ms_config s' = ms_config s /\ ms_sequence s' = ms_sequence s /\ ms_watermark s' = ms_watermark s.
Proof.
  simpl. revert s. induction ks as [|k ks IH]; intros s; simpl; [done|].
  destruct (IH (push_group entry now s k)) as (-> & -> & ->).
  by destruct (push_group_frame entry now s k) as (-> & _ & -> & ->).
Qed.

Lemma record_observation_fields (s : MultiWindowScorer) event included now :
  let s' := record_observation s event included now in
  ms_config s' = ms_config s /\ ms_sequence s' = sat_add (ms_sequence s) 1
  /\ ms_watermark s' = ms_watermark s.
Proof.
  simpl. unfold record_observation.
  destruct (shed_log_fields (length (ms_events s)) (max_events (ms_config s)) now s) as (E1 & E2 & E3).
  match goal with |- context [fold_left (push_group ?e ?n) ?ks ?x] =>
    destruct (push_groups_frame e n ks x) as (F1 & F2 & F3) end.
  cbn [ms_config ms_sequence ms_watermark with_log] in *. rewrite F1, F2, F3.
  unfold new_observation. cbn [o_sequence]. by rewrite E1, E2, E3.
Qed.

Lemma observed_fields (s : MultiWindowScorer) event rules :
  ms_config (observed s event rules) = ms_config s
  /\ ms_sequence (observed s event rules) <= ms_sequence s + 1
  /\ ms_watermark (observed s event rules) = Z.max (ms_watermark s) (fe_timestamp_ms event).
Proof.
  unfold observed. set (now := Z.max _ _).
  destruct (advance_fields s now) as (E1 & E2 & E3).
  destruct (records _ _); [|rewrite E1, E2, E3; split_and!; [done|lia|done]].
  match goal with |- context [record_observation ?a ?b ?c ?d] =>
    destruct (record_observation_fields a b c d) as (F1 & F2 & F3) end.
  rewrite F1, F2, F3, E1, E2, E3. unfold sat_add. split_and!; [done|lia|done].
Qed.

Lemma multi_evaluate_fields (s : MultiWindowScorer) event rules :
  let s' := (multi_evaluate s event rules).1 in
  ms_config s' = ms_config s /\ ms_sequence s' <= ms_sequence s + 1
  /\ ms_watermark s' <= Z.max (ms_watermark s) (fe_timestamp_ms event).
Proof.
  simpl. destruct (mw_enabled (dc_multi_window (ms_config s))) eqn:Hen.
  2:{ unfold multi_evaluate. rewrite Hen. simpl. split_and!; [done|lia|lia]. }
  set (now := Z.max (ms_watermark s) (fe_timestamp_ms event)).
  destruct (inadmissible (ms_config s) event now) eqn:Hin.
  - unfold multi_evaluate. fold now. rewrite Hen. cbn [negb].
    destruct (advance_fields s now) as (E1 & E2 & E3). rewrite E1, Hin. simpl.
    rewrite E1, E2, E3. split_and!; [done|lia|lia].
  - rewrite (multi_evaluate_eq s event rules Hen Hin). cbn.
    destruct (observed_fields s event rules) as (-> & Hs & ->). split_and!; [done|done|lia].
Qed.

Lemma represents_new config sensor : represents (MultiWindowScorer_new config sensor) [].
Proof.
  split; [split|split|..].
  - split; constructor.
  - intros g st Hst. exfalso. by apply (lookup_empty_Some g st).
  - cbn. pose proof (max_events_range config). unfold zlen. simpl. lia.
  - cbn. pose proof (max_groups_range config). change (Z.of_nat (size (∅ : gmap Group GroupState))) with 0. lia.
  - constructor.
  - done.
  - done.
  - intros T HT g. unfold group_events. cbn [ms_groups MultiWindowScorer_new].
    by rewrite lookup_empty.
Qed.

Lemma multi_run_ok config sensor h :
  timed_history h ->
  let st := multi_run config sensor h in
  represents st.1 st.2 /\ ms_config st.1 = config /\ ms_sequence st.1 <= zlen h
  /\ ms_watermark st.1 <= u64_max.
Proof.
  intros [Hl Ht]. simpl. induction h as [|x h IH] using rev_ind.
  { split_and!; [apply represents_new|done|done|done]. }
  rewrite zlen_app in *. change (zlen [x]) with 1 in *. pose proof (zlen_nonneg h).
  apply Forall_app in Ht as [Ht Hx]. apply Forall_inv in Hx.
  destruct IH as (I1 & I2 & I3 & I4); [lia|done|].
  rewrite multi_run_snoc. unfold multi_step. cbn [fst snd].
  destruct (multi_evaluate_fields (multi_run config sensor h).1 x.1 x.2) as (F1 & F2 & F3).
  split_and!.
  - apply represents_evaluate; [done|lia].
  - congruence.
  - lia.
  - unfold in_time in Hx. lia.
Qed.

Lemma recorded_instance (s : MultiWindowScorer) event rules :
  Forall (fun o => (forall i, GInstance i ∈ o_groups o -> o_instance o = Some i)
                   /\ (forall g, g ∈ o_groups o -> ~ group_rule g ∈ rules)) (recorded s event rules).
Proof.
  unfold recorded. destruct (_ && _ && _); [|constructor]. repeat constructor; cbn.
  - intros i [Hi _]%included_keys_elem. by eapply group_keys_instance.
  - by intros g [_ Hg]%included_keys_elem.
Qed.

Lemma multi_run_instances config sensor h :
  Forall (fun o => forall i, GInstance i ∈ o_groups o -> o_instance o = Some i)
    (multi_run config sensor h).2.
Proof.
  induction h as [|x h IH] using rev_ind; [constructor|]. rewrite multi_run_snoc. cbn.
  apply Forall_app. split; [done|]. eapply Forall_impl; [apply recorded_instance|]. naive_solver.
Qed.

Lemma window_score_range sensor w selected :
  f_in_range (f_of_Z 0) (f_of_Z 100) (window_score sensor w selected) = true.
Proof.
  unfold window_score. apply f_min_100. repeat case_match;
    repeat (apply f_add_unsigned || apply f_mul_unsigned || apply f_div_unsigned || apply f_min_unsigned
            || apply f_of_Z_unsigned || done || lia || apply zlen_nonneg).
Qed.

Definition percent (x : f64) : Prop := f_in_range (f_of_Z 0) (f_of_Z 100) x = true.
Definition instance_percent (o : MultiOutcome) : Prop := forall x, mo_instance_score o = Some x -> percent x.

Lemma score_group_window_percent sensor key now truncated acc w :
  instance_percent acc.2 -> instance_percent (score_group_window sensor key now truncated acc w).2.
Proof.
  destruct acc as [state outcome]. cbn [snd]. intros Ho. unfold score_group_window.
  destruct (_ <? _); [done|]. pose proof (window_score_range sensor w (selected_events state now (sat_mul (dw_window_secs w) 1000))) as Hr.
  set (score := window_score _ _ _) in *. set (outcome1 := if is_instance key && negb truncated then _ else outcome).
  assert (instance_percent outcome1) as H1.
  { unfold outcome1. destruct (_ && _); [|done]. intros x. cbn. intros [= <-].
    destruct (mo_instance_score outcome) as [old|] eqn:E; [|done]. by apply f_max_range; [apply Ho|]. }
  destruct (f_lt _ _); [done|]. by destruct (is_some_and _ _).
Qed.

Lemma score_groups_percent config sensor now truncated ks acc :
  instance_percent acc.2 -> instance_percent (fold_left (score_group config sensor now truncated) ks acc).2.
Proof.
  revert acc. induction ks as [|k ks IH]; intros acc Ho; [done|]. cbn [fold_left]. apply IH.
  destruct acc as [groups outcome]. unfold score_group. destruct (groups !! k) as [st|]; [|done]. cbn [snd] in Ho.
  destruct (fold_left _ _ _) as [st' out'] eqn:Hf. cbn [snd]. change out' with (st', out').2. rewrite <- Hf. clear Hf st' out'.
  generalize (take 8 (mw_windows (dc_multi_window config))) as ws. intros ws.
  change outcome with (st, outcome).2 in Ho. revert Ho. generalize (st, outcome) as acc.
  induction ws as [|w ws IHw]; intros acc Ho; [done|]. cbn [fold_left]. apply IHw. by apply score_group_window_percent.
Qed.

Lemma multi_evaluate_percent s event rules : instance_percent (multi_evaluate s event rules).2.
Proof.
  unfold multi_evaluate. destruct (negb _); [done|]. destruct (inadmissible _ _ _); [done|].
  match goal with |- context [fold_left (score_group ?c ?se ?n ?t) ?ks ?acc] =>
    pose proof (score_groups_percent c se n t ks acc ltac:(done)) as Hp end.
  by destruct (fold_left _ _ _) as [g o].
Qed.

Lemma score_windows_flags sensor key now truncated ws acc :
  let o := (fold_left (score_group_window sensor key now truncated) ws acc).2 in
  mo_truncated o = mo_truncated acc.2 /\ mo_approval_applied o = mo_approval_applied acc.2.
Proof.
  cbv zeta. revert acc. induction ws as [|w ws IH]; intros acc; [done|]. cbn [fold_left].
  destruct (IH (score_group_window sensor key now truncated acc w)) as [-> ->]. clear IH.
  destruct acc as [state outcome].
  unfold score_group_window. destruct (_ <? _); [done|].
  destruct (f_lt _ _); [by destruct (_ && _)|]. by destruct (is_some_and _ _), (_ && _).
Qed.

Lemma score_groups_flags config sensor now truncated ks acc :
  let o := (fold_left (score_group config sensor now truncated) ks acc).2 in
  mo_truncated o = mo_truncated acc.2 /\ mo_approval_applied o = mo_approval_applied acc.2.
Proof.
  cbv zeta. revert acc. induction ks as [|k ks IH]; intros acc; [done|]. cbn [fold_left].
  destruct (IH (score_group config sensor now truncated acc k)) as [-> ->]. clear IH.
  destruct acc as [groups outcome]. simpl. destruct (groups !! k) as [st|]; [|done].
  destruct (fold_left _ _ _) as [st' out'] eqn:Hf. cbn.
  change out' with (st', out').2. rewrite <- Hf. apply score_windows_flags.
Qed.

(** The log an evaluation scores, and what its outcome says about it. *)
Lemma multi_outcome_ok (s : MultiWindowScorer) full event rules :
  let now := Z.max (ms_watermark s) (fe_timestamp_ms event) in
  let o := observed s event rules in
  represents s full -> ms_sequence s < u64_max ->
  outcome_ok (ms_config s) (ms_sensor o) now (mo_truncated (multi_evaluate s event rules).2)
    (group_keys (ms_config s) event) (group_events (ms_groups o)) (multi_evaluate s event rules).2
  /\ ((mo_alerts (multi_evaluate s event rules).2 <> []
       \/ is_Some (mo_instance_score (multi_evaluate s event rules).2)) ->
      mw_enabled (dc_multi_window (ms_config s)) = true
      /\ inadmissible (ms_config s) event now = false).
Proof.
  intros now o Hs Hseq.
  destruct (mw_enabled (dc_multi_window (ms_config s))) eqn:Hen.
  2:{ unfold multi_evaluate. rewrite Hen. simpl. split; [split; [constructor|done]|].
      intros [?|[??]]; done. }
  destruct (inadmissible (ms_config s) event now) eqn:Hin.
  { unfold multi_evaluate. fold now. rewrite Hen. cbn [negb].
    destruct (advance_fields s now) as (E1 & E2 & E3). rewrite E1, Hin. simpl.
    split; [split; [constructor|done]|]. intros [?|[??]]; done. }
  split; [|done].
  rewrite (multi_evaluate_eq s event rules Hen Hin). cbn [snd]. fold now o.
  destruct (observed_fields s event rules) as (E1 & _ & _). fold o in E1. rewrite E1.
  set (tr := incomplete_at _ _). set (acc := (ms_groups o, _)).
  assert (Htr : mo_truncated (fold_left (score_group (ms_config s) (ms_sensor o) now tr)
    (group_keys (ms_config s) event) acc).2 = tr) by apply score_groups_flags.
  rewrite Htr. apply score_groups_ok; [done| |].
  - intros g st Hst. cbn in Hst. unfold group_events. by rewrite Hst.
  - split; [constructor|done].
Qed.

(** The sensor never changes. *)
Lemma push_groups_sensor entry now ks (s : MultiWindowScorer) :
  ms_sensor (fold_left (push_group entry now) ks s) = ms_sensor s.
Proof.
  revert s. induction ks as [|k ks IH]; intros s; simpl; [done|]. rewrite IH.
  unfold push_group. simpl.
  by destruct (evict_oldest_group_cases s k now) as [[-> _]|(? & _ & _ & ->)].
Qed.

Lemma expire_front_sensor (s : MultiWindowScorer) : ms_sensor (expire_front s) = ms_sensor s.
Proof. unfold expire_front. by destruct (ms_events s). Qed.

Lemma expire_old_sensor turns horizon (s : MultiWindowScorer) :
  ms_sensor (expire_old turns horizon s) = ms_sensor s.
Proof.
  revert s. induction turns as [|turns IH]; intros s; simpl; [done|].
  destruct (ms_events s); [done|]. destruct (_ <? _); [|done]. by rewrite IH, expire_front_sensor.
Qed.

Lemma shed_log_sensor turns limit now (s : MultiWindowScorer) :
  ms_sensor (shed_log turns limit now s) = ms_sensor s.
Proof.
  revert s. induction turns as [|turns IH]; intros s; simpl; [done|].
  destruct (_ <=? _); [|done]. by rewrite IH, expire_front_sensor.
Qed.

Lemma observed_sensor (s : MultiWindowScorer) event rules :
  ms_sensor (observed s event rules) = ms_sensor s.
Proof.
  unfold observed. destruct (records _ _); unfold advance.
  - unfold record_observation. cbn [ms_sensor with_log].
    rewrite push_groups_sensor. cbn [ms_sensor]. by rewrite shed_log_sensor, expire_old_sensor.
  - by rewrite expire_old_sensor.
Qed.

Lemma multi_run_sensor config sensor h : ms_sensor (multi_run config sensor h).1 = sensor.
Proof.
  induction h as [|x h IH] using rev_ind; [done|]. rewrite multi_run_snoc. unfold multi_step.
  cbn [fst]. rewrite <- IH at 2. set (s := (multi_run config sensor h).1).
  destruct (mw_enabled (dc_multi_window (ms_config s))) eqn:Hen;
    [|by unfold multi_evaluate; rewrite Hen].
  destruct (inadmissible (ms_config s) x.1 (Z.max (ms_watermark s) (fe_timestamp_ms x.1))) eqn:Hin.
  - unfold multi_evaluate. rewrite Hen. cbn [negb].
    destruct (advance_fields s (Z.max (ms_watermark s) (fe_timestamp_ms x.1))) as (E1 & _).
    rewrite E1, Hin. cbn. unfold advance. by rewrite expire_old_sensor.
  - rewrite (multi_evaluate_eq s x.1 x.2 Hen Hin). cbn. apply observed_sensor.
Qed.

End Histories.

Lemma filter_suffix {A} (p : A -> bool) (l k : list A) :
  l `suffix_of` k -> List.filter p l `suffix_of` List.filter p k.
Proof. intros [d ->]. rewrite List.filter_app. by eexists. Qed.

Lemma event_instance_pid (event : FileEvent) (i : Instance_) :
  event_instance event = Some i -> i.1.1 = fe_pid event.
Proof. unfold event_instance. destruct (usable_process event); simpl; naive_solver. Qed.

Lemma represents_selection (s : MultiWindowScorer) full g w :
  represents s full ->
  selection (ms_watermark s) (group_events (ms_groups s)) g w
    `suffix_of` window_of g (ms_watermark s) w full.
Proof.
  intros [[_ Hg _ _] _ Hsuf _]. unfold selection, selected_events, window_of. cbn [gs_events].
  apply filter_suffix. etrans; [|by apply filter_suffix]. fold (group_log g (ms_events s)).
  unfold group_events. destruct (ms_groups s !! g) as [st|] eqn:Hst; [by apply Hg|].
  apply suffix_nil.
Qed.

(** The state scored after a history, and its relation to the unbounded log. *)
Lemma multi_scored `{RustStd} config sensor h event rules :
  timed_history (h ++ [(event, rules)]) ->
  let st := multi_run config sensor h in
  let now := Z.max (ms_watermark st.1) (fe_timestamp_ms event) in
  let full := (multi_run config sensor (h ++ [(event, rules)])).2 in
  let out := (multi_evaluate st.1 event rules).2 in
  let logs := group_events (ms_groups (observed st.1 event rules)) in
  outcome_ok config sensor now (mo_truncated out) (group_keys config event) logs out
  /\ ((mo_alerts out <> [] \/ is_Some (mo_instance_score out)) ->
      now = fe_timestamp_ms event
      /\ (forall g w, selection now logs g w `suffix_of` window_of g now w full)
      /\ (mo_truncated out = false -> forall g w, w ∈ mw_windows (dc_multi_window config) ->
            selection now logs g w = window_of g now w full)).
Proof.
  intros Ht st now full out logs. assert (Hh : timed_history h).
  { destruct Ht as [Hl Ht]. rewrite zlen_app in Hl. apply Forall_app in Ht as [? _].
    split; [|done]. pose proof (zlen_nonneg [(event, rules)]). lia. }
  destruct (multi_run_ok config sensor h Hh) as (R1 & R2 & R3 & R4). fold st in R1, R2, R3, R4.
  assert (Hseq : ms_sequence st.1 < u64_max).
  { destruct Ht as [Hl _]. rewrite zlen_app in Hl. change (zlen [_]) with 1 in Hl. lia. }
  destruct (multi_outcome_ok st.1 st.2 event rules R1 Hseq) as [O1 O2].
  rewrite R2, observed_sensor in O1. unfold st in O1 at 1. rewrite multi_run_sensor in O1.
  split; [exact O1|]. intros Hsome. destruct (O2 Hsome) as [Hen Hin]. fold now in Hin.
  assert (Hfull : full = st.2 ++ recorded st.1 event rules).
  { unfold full. by rewrite multi_run_snoc. }
  pose proof (represents_observed st.1 st.2 event rules R1 Hseq Hen Hin) as Ho.
  rewrite <- Hfull in Ho.
  destruct (observed_fields st.1 event rules) as (E1 & _ & E3). fold now in E3.
  split_and!.
  - unfold inadmissible in Hin. split_bools. lia.
  - intros g w. rewrite <- E3. by apply represents_selection.
  - intros Htr g w Hw. rewrite <- E3. apply represents_window; [done|by rewrite E1, R2| |].
    + rewrite E3. unfold out in Htr. rewrite (multi_evaluate_eq st.1 event rules Hen Hin) in Htr.
      cbn [snd] in Htr. by rewrite (proj1 (score_groups_flags _ _ _ _ _ _)) in Htr.
    + rewrite E3. destruct Ht as [_ Ht]. apply Forall_app in Ht as [_ Ht].
      apply Forall_inv in Ht. unfold in_time in Ht. cbn in Ht. lia.
Qed.

(** The complete evidence behind an instance score: every observation [full]
    has of that instance in one of the configured windows. *)
Definition instance_evidence (config : DetectionConfig) (sensor : SensorKind) (event : FileEvent)
    (full : list Observation) (score : f64) : Prop :=
  exists i w,
    let selected := window_of (GInstance i) (fe_timestamp_ms event) w full in
    event_instance event = Some i /\ w ∈ take 8 (mw_windows (dc_multi_window config))
    /\ Forall (fun o => o_instance o = Some i) selected
    /\ dw_min_changed_files w <= zlen (distinct (map o_path selected))
    /\ score = window_score sensor w selected.

Lemma instance_score_evidence `{RustStd} (config : DetectionConfig) (sensor : SensorKind)
    (h : multi_history) (event : FileEvent) (rules : list string) (score : f64) :
  timed_history (h ++ [(event, rules)]) ->
  mo_instance_score (multi_evaluate (multi_run config sensor h).1 event rules).2 = Some score ->
  instance_evidence config sensor event (multi_run config sensor (h ++ [(event, rules)])).2 score.
Proof.
  intros Ht Hsc. set (full := (multi_run config sensor (h ++ [(event, rules)])).2). destruct (multi_scored config sensor h event rules Ht) as [[_ Ho] Hx].
  destruct Hx as (Hnow & _ & Hsel); [by right; eexists|]. rewrite Hnow in *.
  destruct (Ho score Hsc) as (Htr & g & w & Hg & Hinst & Hw & Hmin & Heq).
  destruct g as [i| | |]; try done. exists i, w. cbn zeta.
  assert (Hw' : w ∈ mw_windows (dc_multi_window config)).
  { by eapply elem_of_take. }
  fold full in Hsel. rewrite (Hsel Htr _ _ Hw') in Hmin, Heq.
  split_and!; [by eapply group_keys_instance|done| |done..].
  apply Forall_forall. intros o Ho'. unfold window_of in Ho'.
  apply list_elem_of_In, filter_In in Ho' as [Ho' _].
  apply list_elem_of_In, group_log_elem in Ho' as [Hfull Hgr].
  pose proof (multi_run_instances config sensor (h ++ [(event, rules)])) as Hall.
  rewrite Forall_forall in Hall. by apply Hall.
Qed.

(** * Main results *)

Definition demo_multi_config : DetectionConfig :=
  {| dc_window_secs := 10; dc_mass_change_threshold := 4; dc_min_changed_files := 2;
     dc_entropy_threshold := f_lit 72 10; dc_detect_score := f_of_Z 40;
     dc_entropy_sample_bytes := 4096; dc_exclude_paths := ["/var/log"]; dc_approved_changes := [];
     dc_canary_paths := ["/data/.canary"];
     dc_multi_window :=
       {| mw_enabled := true;
          mw_windows := [mkDetectionWindow 10 2 4 (f_of_Z 40); mkDetectionWindow 60 2 8 (f_of_Z 40)];
          mw_protected_paths := ["/data"]; mw_aggregate_by_user := true;
          mw_aggregate_by_ancestry := true; mw_max_events := 3; mw_max_groups := 4;
          mw_max_path_bytes := 64 |};
     dc_content_sampling := ContentSamplingConfig_default |}.
Definition demo_multi_history : multi_history :=
  [ (demo_event 1000 42 7 "/data/a", []); (demo_event 1001 42 7 "/data/b", []);
    (demo_event 1002 43 9 "/data/c", []) ].

(** The long-window log keeps at most [max_events] observations and
    [max_groups] groups whatever the history, and each group holds the most
    recent observations of its own, in order, never an empty queue. *)
Theorem multi_memory_bounded `{RustStd} (config : DetectionConfig) (sensor : SensorKind)
    (h : multi_history) :
  timed_history h ->
  let s := (multi_run config sensor h).1 in
  zlen (ms_events s) <= max_events config
  /\ Z.of_nat (size (ms_groups s)) <= max_groups config
  /\ forall g state, ms_groups s !! g = Some state ->
       gs_events state <> [] /\ gs_events state `suffix_of` group_log g (ms_events s).
Proof.
  intros Ht s. destruct (multi_run_ok config sensor h Ht) as ([[_ Hg Hb1 Hb2] _ _ _] & E & _).
  fold s in Hg, Hb1, Hb2, E. rewrite E in Hb1, Hb2. by split_and!.
Qed.

Lemma multi_memory_bounded_witness :
  let s := (multi_run (H := sample_std) demo_multi_config Fanotify demo_multi_history).1 in
  zlen (ms_events s) = 3 /\ Z.of_nat (size (ms_groups s)) = 4
  /\ zlen (ms_events s) <= max_events demo_multi_config.
Proof.
  split_and!; [by vm_compute..|].
  apply (multi_memory_bounded (H := sample_std) demo_multi_config Fanotify demo_multi_history).
  split; [by vm_compute|]. repeat constructor; vm_compute; congruence.
Defined.

(** C31: the instance score that may support a block is computed from complete
    evidence: it is the score of one of the first eight windows over every
    observation the process instance of this event made in that window, as
    recorded in an unbounded log, and the window holds enough distinct paths.
    The bounded log, its evictions and its expiry never distort it. *)
Theorem instance_score_complete `{RustStd} (config : DetectionConfig) (sensor : SensorKind)
    (h : multi_history) (event : FileEvent) (rules : list string) (score : f64) :
  timed_history (h ++ [(event, rules)]) ->
  mo_instance_score (multi_evaluate (multi_run config sensor h).1 event rules).2 = Some score ->
  instance_evidence config sensor event (multi_run config sensor (h ++ [(event, rules)])).2 score.
Proof. apply instance_score_evidence. Qed.

Lemma instance_score_complete_witness :
  exists score,
    mo_instance_score (multi_evaluate (H := sample_std)
      (multi_run (H := sample_std) demo_multi_config Fanotify [(demo_event 1000 42 7 "/data/a", [])]).1
      (demo_event 1001 42 7 "/data/b") []).2 = Some score
    /\ exists i w, event_instance (demo_event 1001 42 7 "/data/b") = Some i
       /\ w ∈ take 8 (mw_windows (dc_multi_window demo_multi_config)).
Proof.
  eexists. split; [vm_compute; reflexivity|].
  edestruct (instance_score_complete (H := sample_std) demo_multi_config Fanotify
    [(demo_event 1000 42 7 "/data/a", [])] (demo_event 1001 42 7 "/data/b") [])
    as (i & w & Hi & Hw & _).
  - split; [by vm_compute|]. repeat constructor; vm_compute; congruence.
  - vm_compute. reflexivity.
  - by exists i, w.
Defined.

(** Every long-window alert is dated by its event, names a group of that
    event, reports the score of one of the first eight windows over recent
    observations of that group, which reaches the detection threshold; all of
    them when the outcome is not marked truncated. Only an alert about the
    process instance of the event carries a PID, that of the event. *)
Theorem multi_alert_sound `{RustStd} (config : DetectionConfig) (sensor : SensorKind)
    (h : multi_history) (event : FileEvent) (rules : list string) (d : Detection) :
  timed_history (h ++ [(event, rules)]) ->
  let out := (multi_evaluate (multi_run config sensor h).1 event rules).2 in
  d ∈ mo_alerts out ->
  let full := (multi_run config sensor (h ++ [(event, rules)])).2 in
  exists g w selected,
    g ∈ group_keys config event /\ w ∈ take 8 (mw_windows (dc_multi_window config))
    /\ selected `suffix_of` window_of g (fe_timestamp_ms event) w full
    /\ (mo_truncated out = false -> selected = window_of g (fe_timestamp_ms event) w full)
    /\ d = multi_alert w g selected (fe_timestamp_ms event) (window_score sensor w selected)
             (mo_truncated out)
    /\ f_lt (d_score d) (dw_detect_score w) = false
    /\ (d_pid d <> 0 -> d_pid d = fe_pid event /\ d_rule d = INSTANCE_RULE).
Proof.
  intros Ht out Hd full. destruct (multi_scored config sensor h event rules Ht) as [[Ha _] Hx].
  fold out full in Ha, Hx.
  destruct Hx as (Hnow & Hsuf & Hsel); [left; intros E; rewrite E in Hd; set_solver|].
  rewrite Hnow in *. rewrite Forall_forall in Ha.
  destruct (Ha d Hd) as (g & w & Hg & Hw & Hmin & Hlt & Heq).
  exists g, w. eexists. split_and!; [done|done|apply Hsuf| |exact Heq|done|].
  - intros Htr. apply Hsel; [done|].
    by eapply elem_of_take.
  - rewrite Heq. cbn. destruct g as [[[pid start] boot]| | |]; cbn; try done. intros _.
    apply group_keys_instance, event_instance_pid in Hg. done.
Qed.

Lemma multi_alert_sound_witness :
  let s := (multi_run (H := sample_std) demo_multi_config Fanotify [(demo_event 1000 42 7 "/data/a", [])]).1 in
  let out := (multi_evaluate (H := sample_std) s (demo_event 1001 42 7 "/data/b") []).2 in
  exists d, mo_alerts out !! 0%nat = Some d
    /\ exists g w, g ∈ group_keys demo_multi_config (demo_event 1001 42 7 "/data/b")
       /\ f_lt (d_score d) (dw_detect_score w) = false.
Proof.
  cbn zeta. destruct (mo_alerts _ !! 0%nat) as [d|] eqn:Hd; [|by vm_compute in Hd].
  exists d. split; [done|]. apply list_elem_of_lookup_2 in Hd.
  edestruct (multi_alert_sound (H := sample_std) demo_multi_config Fanotify
    [(demo_event 1000 42 7 "/data/a", [])] (demo_event 1001 42 7 "/data/b") [] d)
    as (g & w & sel & Hg & Hw & _ & _ & _ & Hlt & _).
  - split; [by vm_compute|]. repeat constructor; vm_compute; congruence.
  - exact Hd.
  - by exists g, w.
Defined.
