(* ===== verification/Engine.v ===== *)
(** The detection engine (crates/argos-detect/src/lib.rs): approvals,
    exclusions, canary files and the two scorers combined into one evaluation
    per event, and the validation of a configuration. *)
From Stdlib Require Import ZArith Lia.
From stdpp Require Import base gmap strings list pretty.
From S2P Require Import Prelude F64 RustPath Common Entropy Scorer MultiWindow.
#[local] Open Scope Z_scope.

Definition BEHAVIOR_RULE : string := "behavior.ransomware_pattern".
Definition CANARY_RULE : string := "behavior.canary_tamper".

Definition CanaryIdentity : Type := Z * option (Z * string) * string.

Record DetectionEngine := mkDetectionEngine {
  de_scorer : BehaviorScorer;
  de_config : DetectionConfig;
  de_last_canary_emit : gmap CanaryIdentity Z;
  de_multi_window : MultiWindowScorer;
}.

Definition engine_with_sensor (config : DetectionConfig) (sensor : SensorKind) : DetectionEngine :=
  mkDetectionEngine (scorer_with_sensor config sensor) config ∅ (MultiWindowScorer_new config sensor).
Definition engine_new (config : DetectionConfig) : DetectionEngine :=
  engine_with_sensor config Notify.

Definition is_excluded (config : DetectionConfig) (path : string) : bool :=
  existsb (path_starts_with path) (dc_exclude_paths config).

Definition approved_event (change : ApprovedChange) (event : FileEvent) : bool :=
  match fe_process event with
  | None => false
  | Some process =>
      negb (fe_pid event =? 0)
      && negb (fp_start_time_ticks process =? 0)
      && negb (trim_is_empty (fp_boot_id process))
      && (ac_valid_from_ms change <=? fe_timestamp_ms event)
      && (fe_timestamp_ms event <? ac_valid_until_ms change)
      && (fp_uid process =? ac_uid change)
      && path_eq (fp_exe process) (ac_exe change)
      && absolute_clean_path (fe_path event)
      && existsb (path_starts_with (fe_path event)) (ac_paths change)
  end.

Definition find_approval (config : DetectionConfig) (event : FileEvent) : option ApprovedChange :=
  List.find (fun change => approved_event change event) (dc_approved_changes config).

(** The approval, when it covers the behaviour rule of the short window. *)
Definition legacy_approval (approval : option ApprovedChange) : option string :=
  ac_id <$> opt_filter (fun change => str_mem BEHAVIOR_RULE (ac_adjusted_rules change)) approval.
Definition approval_rules (approval : option ApprovedChange) : list string :=
  match approval with Some change => ac_adjusted_rules change | None => [] end.

(** * Canary files *)

Definition canary_tamper (config : DetectionConfig) (event : FileEvent) : bool :=
  match fe_action event with Modify | Delete | Rename => true | _ => false end
  && existsb (fun path => path_eq path (fe_path event)) (dc_canary_paths config).

Definition canary_identity (event : FileEvent) : CanaryIdentity :=
  (fe_pid event,
   (fun p => (fp_start_time_ticks p, fp_boot_id p))
     <$> opt_filter (fun p => slen (fp_boot_id p) <=? 128) (fe_process event),
   fe_path event).

Definition action_debug (a : FileAction) : string :=
  match a with
  | Create => "Create" | Modify => "Modify" | Delete => "Delete"
  | Rename => "Rename" | Chmod => "Chmod" | Chown => "Chown"
  end.

Definition canary_alert (event : FileEvent) (score : f64) : Detection :=
  {| d_timestamp_ms := fe_timestamp_ms event;
     d_rule := CANARY_RULE;
     d_score := score;
     d_severity := Critical;
     d_summary := "미끼 파일 변경 감지: " +:+ fe_path event +:+ " ("
                  +:+ action_debug (fe_action event) +:+ ")";
     d_pid := fe_pid event;
     d_paths := [fe_path event] |}.

Definition canary_cooldown (config : DetectionConfig) (emitted : gmap CanaryIdentity Z)
    (event : FileEvent) : bool :=
  is_some_and (emitted !! canary_identity event) (fun last =>
    sat_sub (fe_timestamp_ms event) last <? sat_mul (dc_window_secs config) 1000).

(** Room for a new identity; [true] when an old one had to go. *)
Definition canary_room (config : DetectionConfig) (emitted : gmap CanaryIdentity Z)
    (event : FileEvent) : gmap CanaryIdentity Z * bool :=
  if negb (is_some (emitted !! canary_identity event))
     && (max_groups config <=? Z.of_nat (size emitted))
  then (match min_by_key (fun kv : CanaryIdentity * Z => (kv.2, kv.1)) (map_to_list emitted) with
        | Some (oldest, _) => delete oldest emitted
        | None => emitted
        end, true)
  else (emitted, false).

Definition canary_step (config : DetectionConfig) (emitted : gmap CanaryIdentity Z)
    (event : FileEvent) (a : Evaluation) : gmap CanaryIdentity Z * Evaluation :=
  if canary_tamper config event then
    let score := f_max (ev_score a) (f_of_Z 95) in
    let a := mkEvaluation score (ev_pid a) true (ev_alert a) (ev_approved_change_id a)
               (ev_additional_alerts a) (ev_evidence_truncated a) in
    if negb (canary_cooldown config emitted event) && f_ge score (dc_detect_score config) then
      let '(emitted, evicted) := canary_room config emitted event in
      (<[canary_identity event := fe_timestamp_ms event]> emitted,
       mkEvaluation score (ev_pid a) true (Some (canary_alert event score))
         (ev_approved_change_id a) (ev_additional_alerts a)
         (ev_evidence_truncated a || evicted))
    else (emitted, a)
  else (emitted, a).

(** * One event *)

Definition excluded_evaluation (event : FileEvent) : Evaluation :=
  mkEvaluation (f_of_Z 0) (fe_pid event) false None None [] false.

Section WithStd.
Context `{RustStd}.

(** What the long-window outcome adds to the short-window assessment. *)
Definition combine (approval : option ApprovedChange) (a : Evaluation) (multi : MultiOutcome)
    : Evaluation :=
  let '(score, eligible) :=
    match mo_instance_score multi with
    | Some score => (f_max (ev_score a) score, true)
    | None => (ev_score a, ev_eligible a)
    end in
  mkEvaluation score (ev_pid a) eligible (ev_alert a)
    (if mo_approval_applied multi then ac_id <$> approval else ev_approved_change_id a)
    (mo_alerts multi) (ev_evidence_truncated a || mo_truncated multi).

Definition engine_evaluate (s : DetectionEngine) (event : FileEvent)
    : DetectionEngine * Evaluation :=
  let config := de_config s in
  let approval := find_approval config event in
  let '(scorer, multi_window, assessment) :=
    if is_excluded config (fe_path event)
    then (de_scorer s, de_multi_window s, excluded_evaluation event)
    else
      let '(scorer, a) := evaluate_with_approval (de_scorer s) event (legacy_approval approval) in
      let '(multi_window, multi) :=
        multi_evaluate (de_multi_window s) event (approval_rules approval) in
      (scorer, multi_window, combine approval a multi) in
  let '(emitted, assessment) := canary_step config (de_last_canary_emit s) event assessment in
  (mkDetectionEngine scorer config emitted multi_window, assessment).

Definition engine_observe (s : DetectionEngine) (event : FileEvent)
    : DetectionEngine * option Detection :=
  let '(s', e) := engine_evaluate s event in (s', ev_alert e).

(** * Validating a configuration *)

(** The loop over approvals, threading the set of IDs already seen. *)
Fixpoint approval_errors (seen : list string) (changes : list ApprovedChange) : list string :=
  match changes with
  | [] => []
  | change :: changes' =>
      let blank := trim_is_empty (ac_id change) in
      let duplicate := str_mem (ac_id change) seen in
      let seen' := if blank then seen else ac_id change :: seen in
      (if blank || duplicate
       then ["승인 작업 ID는 비어 있지 않고 중복되지 않아야 합니다"] else [])
      ++ (if ac_valid_until_ms change <=? ac_valid_from_ms change
          then ["승인 작업의 종료 시각은 시작 시각보다 커야 합니다"] else [])
      ++ (if (zlen (ac_paths change) =? 0)
             || existsb (fun path => negb (absolute_clean_path path)) (ac_paths change)
             || negb (absolute_clean_path (ac_exe change))
             || negb (has_file_name (ac_exe change))
          then ["승인 작업의 경로와 실행 파일은 .. 없는 절대 경로여야 합니다"] else [])
      ++ (if (zlen (ac_adjusted_rules change) =? 0)
             || existsb (fun rule => negb (String.eqb rule BEHAVIOR_RULE)
                                     && negb (str_mem rule RULES)) (ac_adjusted_rules change)
          then ["승인 작업은 지원하는 행위·다중 시간창 룰만 조정할 수 있습니다"] else [])
      ++ approval_errors seen' changes'
  end.

(** [windows.iter().any(..)], whose closure inserts into a set as it goes. *)
Fixpoint bad_window (seen : list Z) (windows : list DetectionWindow) : bool :=
  match windows with
  | [] => false
  | w :: windows' =>
      (dw_window_secs w =? 0) || (86400 <? dw_window_secs w)
      || bool_decide (dw_window_secs w ∈ seen)
      || (dw_min_changed_files w =? 0) || (dw_mass_change_threshold w =? 0)
      || negb (f_is_finite (dw_detect_score w))
      || negb (f_in_range (f_of_Z 0) (f_of_Z 100) (dw_detect_score w))
      || bad_window (dw_window_secs w :: seen) windows'
  end.

Definition error_if (bad : bool) (message : string) : list string :=
  if bad then [message] else [].

Definition configuration_errors (detection : DetectionConfig) (response : ResponseConfig)
    : list string :=
  let multi := dc_multi_window detection in
  let sampling := dc_content_sampling detection in
  approval_errors [] (dc_approved_changes detection)
  ++ error_if ((mw_max_events multi =? 0) || (100000 <? mw_max_events multi)
               || (mw_max_groups multi =? 0) || (16384 <? mw_max_groups multi)
               || negb ((64 <=? mw_max_path_bytes multi) && (mw_max_path_bytes multi <=? 4096)))
       "탐지 메모리 한도는 events 1~100000, groups 1~16384, path bytes 64~4096 범위여야 합니다"
  ++ (if mw_enabled multi then
        error_if ((zlen (mw_windows multi) =? 0) || (8 <? zlen (mw_windows multi))
                  || bad_window [] (mw_windows multi))
          "다중 시간창은 중복 없는 1~86400초의 최대 8개 창과 양의 파일 수·유효 점수가 필요합니다"
        ++ error_if ((128 <? zlen (mw_protected_paths multi))
                     || existsb (fun path => negb (absolute_clean_path path)
                                             || (mw_max_path_bytes multi <? slen path))
                          (mw_protected_paths multi))
             "집계 보호 경로는 최대 128개의 길이 제한 내 절대 경로여야 합니다"
      else [])
  ++ error_if (sm_enabled sampling
               && (negb ((3 <=? sm_total_bytes sampling) && (sm_total_bytes sampling <=? MAX_SAMPLE_BYTES))
                   || (sm_max_files sampling =? 0) || (65536 <? sm_max_files sampling)
                   || (sm_history_secs sampling =? 0) || (86400 <? sm_history_secs sampling)
                   || negb (f_is_finite (sm_min_entropy_increase sampling))
                   || negb (f_in_range (f_of_Z 0) (f_of_Z 8) (sm_min_entropy_increase sampling))))
       "내용 관찰은 총 3바이트~1MiB, 1~65536개 이력, 1~86400초와 0~8의 엔트로피 증가 기준이 필요합니다"
  ++ error_if (existsb (fun path => negb (absolute_clean_path path) || negb (has_file_name path))
                 (dc_canary_paths detection))
       "미끼 파일은 .. 없는 절대 파일 경로로 지정해야 합니다"
  ++ error_if ((dc_window_secs detection =? 0)
               || negb (is_some (checked_mul (dc_window_secs detection) 1000)))
       "detection.window_secs는 밀리초로 변환 가능한 양수여야 합니다"
  ++ error_if ((dc_mass_change_threshold detection =? 0) || (dc_min_changed_files detection =? 0))
       "변경 파일 수 임계치는 1 이상이어야 합니다"
  ++ error_if (negb (f_is_finite (dc_entropy_threshold detection))
               || negb (f_in_range (f_of_Z 0) (f_of_Z 8) (dc_entropy_threshold detection)))
       "detection.entropy_threshold는 0~8의 유한한 값이어야 합니다"
  ++ error_if (negb (f_is_finite (dc_detect_score detection))
               || f_le (dc_detect_score detection) (f_of_Z 0))
       "detection.detect_score는 유한한 양수여야 합니다"
  ++ error_if (negb (f_is_finite (rc_block_score response))
               || f_le (rc_block_score response) (f_of_Z 0))
       "response.block_score는 유한한 양수여야 합니다".

Definition sensor_debug (s : SensorKind) : string :=
  match s with Notify => "Notify" | Fanotify => "Fanotify" end.

Definition base_max_score (detection : DetectionConfig) (sensor : SensorKind) : f64 :=
  let sampling := dc_content_sampling detection in
  let bytes := Z.min (if sm_enabled sampling then sm_total_bytes sampling
                      else dc_entropy_sample_bytes detection) MAX_SAMPLE_BYTES in
  let entropy_possible :=
    (0 <? bytes)
    && f_ge (f_min (f_log2 (f_of_Z bytes)) (f_of_Z 8)) (dc_entropy_threshold detection) in
  match sensor, negb entropy_possible with
  | Fanotify, true => f_of_Z 40
  | Notify, true => f_of_Z 65
  | _, _ => f_of_Z 100
  end.

Definition configuration_warnings (detection : DetectionConfig) (response : ResponseConfig)
    (sensor : SensorKind) : list string :=
  let base := base_max_score detection sensor in
  let max_score :=
    match dc_canary_paths detection with [] => base | _ => f_max base (f_of_Z 95) end in
  (if mw_enabled (dc_multi_window detection) then
     omap (fun w =>
       if f_gt (dw_detect_score w) base
       then Some (pretty (dw_window_secs w) +:+ "초 시간창의 임계치 " +:+ f_display (dw_detect_score w)
                  +:+ "가 센서·표본 예산의 최대 점수 " +:+ f_display base +:+ "보다 높습니다")
       else None) (mw_windows (dc_multi_window detection))
   else [])
  ++ omap (fun nt : string * f64 =>
       if f_gt nt.2 max_score
       then Some (sensor_debug sensor +:+ " 센서의 최대 위험 점수 " +:+ f_display0 max_score +:+ "에서 "
                  +:+ nt.1 +:+ "=" +:+ f_display nt.2 +:+ "에 도달할 수 없습니다")
       else None)
       [("detection.detect_score", dc_detect_score detection);
        ("response.block_score", rc_block_score response)]
  ++ (if rc_auto_block response && bool_decide (sensor = Notify)
      then ["notify 센서는 PID를 제공하지 않아 자동 프로세스 차단을 실행할 수 없습니다"] else []).

Definition validate_configuration (detection : DetectionConfig) (response : ResponseConfig)
    (sensor : SensorKind) : result (list string) string :=
  match configuration_errors detection response with
  | [] => Ok (configuration_warnings detection response sensor)
  | errors => Err (join "; " errors)
  end.

End WithStd.

(** * What a valid configuration guarantees *)

Record change_valid (change : ApprovedChange) : Prop := {
  cv_id : trim_is_empty (ac_id change) = false;
  cv_period : ac_valid_from_ms change < ac_valid_until_ms change;
  cv_paths : ac_paths change <> [];
  cv_paths_clean : Forall (fun p => absolute_clean_path p = true) (ac_paths change);
  cv_exe : absolute_clean_path (ac_exe change) = true /\ has_file_name (ac_exe change) = true;
  cv_rules : ac_adjusted_rules change <> [];
  cv_rules_known : Forall (fun r => r = BEHAVIOR_RULE \/ r ∈ RULES) (ac_adjusted_rules change);
}.

Record window_valid (w : DetectionWindow) : Prop := {
  wv_secs : dw_window_secs w <> 0 /\ dw_window_secs w <= 86400;
  wv_files : dw_min_changed_files w <> 0;
  wv_mass : dw_mass_change_threshold w <> 0;
  wv_finite : f_is_finite (dw_detect_score w) = true;
  wv_score : f_in_range (f_of_Z 0) (f_of_Z 100) (dw_detect_score w) = true;
}.

Record multi_valid (multi : MultiWindowConfig) : Prop := {
  mv_windows : mw_windows multi <> [] /\ zlen (mw_windows multi) <= 8;
  mv_distinct : NoDup (map dw_window_secs (mw_windows multi));
  mv_each : Forall window_valid (mw_windows multi);
  mv_roots : zlen (mw_protected_paths multi) <= 128;
  mv_roots_clean : Forall (fun p => absolute_clean_path p = true /\ slen p <= mw_max_path_bytes multi)
                     (mw_protected_paths multi);
}.

Record sampling_valid (c : ContentSamplingConfig) : Prop := {
  sv_bytes : 3 <= sm_total_bytes c <= MAX_SAMPLE_BYTES;
  sv_files : sm_max_files c <> 0 /\ sm_max_files c <= 65536;
  sv_history : sm_history_secs c <> 0 /\ sm_history_secs c <= 86400;
  sv_increase : f_is_finite (sm_min_entropy_increase c) = true
                /\ f_in_range (f_of_Z 0) (f_of_Z 8) (sm_min_entropy_increase c) = true;
}.

Record config_valid (detection : DetectionConfig) (response : ResponseConfig) : Prop := {
  vc_ids : NoDup (map ac_id (dc_approved_changes detection));
  vc_changes : Forall change_valid (dc_approved_changes detection);
  vc_events : mw_max_events (dc_multi_window detection) <> 0
              /\ mw_max_events (dc_multi_window detection) <= 100000;
  vc_groups : mw_max_groups (dc_multi_window detection) <> 0
              /\ mw_max_groups (dc_multi_window detection) <= 16384;
  vc_path_bytes : 64 <= mw_max_path_bytes (dc_multi_window detection) <= 4096;
  vc_multi : mw_enabled (dc_multi_window detection) = true -> multi_valid (dc_multi_window detection);
  vc_sampling : sm_enabled (dc_content_sampling detection) = true ->
                sampling_valid (dc_content_sampling detection);
  vc_canaries : Forall (fun p => absolute_clean_path p = true /\ has_file_name p = true)
                  (dc_canary_paths detection);
  vc_window : dc_window_secs detection <> 0 /\ dc_window_secs detection * 1000 <= u64_max;
  vc_counts : dc_mass_change_threshold detection <> 0 /\ dc_min_changed_files detection <> 0;
  vc_entropy : f_is_finite (dc_entropy_threshold detection) = true
               /\ f_in_range (f_of_Z 0) (f_of_Z 8) (dc_entropy_threshold detection) = true;
  vc_detect : f_is_finite (dc_detect_score detection) = true
              /\ f_le (dc_detect_score detection) (f_of_Z 0) = false;
  vc_block : f_is_finite (rc_block_score response) = true
             /\ f_le (rc_block_score response) (f_of_Z 0) = false;
}.

Lemma app_nil_iff {A} (l k : list A) : l ++ k = [] <-> l = [] /\ k = [].
Proof. destruct l; naive_solver. Qed.

Lemma error_if_nil (bad : bool) (m : string) : error_if bad m = [] <-> bad = false.
Proof. by destruct bad. Qed.

Lemma if_nil (bad : bool) (m : string) : (if bad then [m] else []) = [] <-> bad = false.
Proof. by destruct bad. Qed.

Lemma zlen_eqb_0 {A} (l : list A) : (zlen l =? 0) = false <-> l <> [].
Proof. rewrite Z.eqb_neq. destruct l; unfold zlen; simpl; split; try done; lia. Qed.

Lemma approval_errors_nil (seen : list string) (changes : list ApprovedChange) :
  approval_errors seen changes = [] <->
  Forall change_valid changes /\ NoDup (map ac_id changes)
  /\ Forall (fun c => ac_id c ∉ seen) changes.
Proof.
  revert seen. induction changes as [|c cs IH]; intros seen; cbn [approval_errors map].
  { split; [|done]. intros _. split_and!; constructor. }
  rewrite !app_nil_iff, !if_nil, IH, !Forall_cons, NoDup_cons, !orb_false_iff.
  rewrite !existsb_false_Forall, !zlen_eqb_0, Z.leb_gt, !negb_false_iff.
  assert (Hmem : str_mem (ac_id c) seen = false <-> ac_id c ∉ seen).
  { rewrite <- str_mem_spec. by destruct (str_mem _ _). }
  rewrite Hmem. split.
  - intros ([Hb Hs] & Hp & [[[Hne Hcl] Hex] Hfn] & [Hr Hrk] & Hcs & Hnd & Hf).
    rewrite Hb in Hf. split_and!; [|done| |done|done|].
    + split; try done.
      * eapply Forall_impl; [exact Hcl|]. simpl. intros p. by rewrite negb_false_iff.
      * eapply Forall_impl; [exact Hrk|]. cbn beta. intros r.
        rewrite andb_false_iff, !negb_false_iff, String.eqb_eq, str_mem_spec. done.
    + intros Hin. apply list_elem_of_fmap in Hin as (c' & Heq & Hc').
      rewrite Forall_forall in Hf. apply (Hf c' Hc'). rewrite <- Heq. set_solver.
    + eapply Forall_impl; [exact Hf|]. simpl. set_solver.
  - intros ([[H1 H2 H3 H4 [H5 H5'] H6 H7] Hcs] & [Hn Hnd] & [Hs Hf]).
    rewrite H1. split_and!; try done.
    + eapply Forall_impl; [exact H4|]. simpl. intros p. by rewrite negb_false_iff.
    + eapply Forall_impl; [exact H7|]. cbn beta. intros r.
      rewrite andb_false_iff, !negb_false_iff, String.eqb_eq, str_mem_spec. done.
    + apply Forall_forall. intros c' Hc' [Heq|?]%elem_of_cons.
      * apply Hn. rewrite <- Heq. by apply list_elem_of_fmap_2.
      * rewrite Forall_forall in Hf. by apply (Hf c').
Qed.

Lemma bad_window_false (seen : list Z) (ws : list DetectionWindow) :
  bad_window seen ws = false <->
  Forall window_valid ws /\ NoDup (map dw_window_secs ws)
  /\ Forall (fun w => dw_window_secs w ∉ seen) ws.
Proof.
  revert seen. induction ws as [|w ws IH]; intros seen; cbn [bad_window map].
  { split; [|done]. intros _. split_and!; constructor. }
  rewrite !orb_false_iff, IH, !Forall_cons, NoDup_cons, !negb_false_iff, !Z.eqb_neq, Z.ltb_ge.
  rewrite bool_decide_eq_false. split.
  - intros (((((((? & ?) & ?) & ?) & ?) & ?) & ?) & ? & ? & Hf).
    split_and!; try done.
    + intros Hin. apply list_elem_of_fmap in Hin as (w' & Heq & Hw').
      rewrite Forall_forall in Hf. apply (Hf w' Hw'). rewrite <- Heq. set_solver.
    + eapply Forall_impl; [exact Hf|]. simpl. set_solver.
  - intros ([[[? ?] ? ? ? ?] ?] & [Hn ?] & [? Hf]). split_and!; try done.
    apply Forall_forall. intros w' Hw' [Heq|?]%elem_of_cons.
    + apply Hn. rewrite <- Heq. by apply list_elem_of_fmap_2.
    + rewrite Forall_forall in Hf. by apply (Hf w').
Qed.

Lemma negb_and_range (lo hi x : Z) :
  negb ((lo <=? x) && (x <=? hi)) = false <-> lo <= x <= hi.
Proof. rewrite negb_false_iff, andb_true_iff, !Z.leb_le. done. Qed.

Lemma guarded_nil (b bad : bool) (m : string) :
  error_if (b && bad) m = [] <-> (b = true -> bad = false).
Proof. destruct b, bad; naive_solver. Qed.

Lemma multi_errors_nil (multi : MultiWindowConfig) (m1 m2 : string) :
  (if mw_enabled multi then
     error_if ((zlen (mw_windows multi) =? 0) || (8 <? zlen (mw_windows multi))
               || bad_window [] (mw_windows multi)) m1
     ++ error_if ((128 <? zlen (mw_protected_paths multi))
                  || existsb (fun path => negb (absolute_clean_path path)
                                          || (mw_max_path_bytes multi <? slen path))
                       (mw_protected_paths multi)) m2
   else []) = [] <-> (mw_enabled multi = true -> multi_valid multi).
Proof.
  destruct (mw_enabled multi); [|done].
  rewrite app_nil_iff, !error_if_nil, !orb_false_iff, zlen_eqb_0, bad_window_false, !Z.ltb_ge,
    existsb_false_Forall.
  assert (Hroots : Forall (fun p => negb (absolute_clean_path p) || (mw_max_path_bytes multi <? slen p) = false)
                     (mw_protected_paths multi) <->
                   Forall (fun p => absolute_clean_path p = true /\ slen p <= mw_max_path_bytes multi)
                     (mw_protected_paths multi)).
  { apply Forall_iff. intros p. by rewrite orb_false_iff, negb_false_iff, Z.ltb_ge. }
  rewrite Hroots. split.
  - intros ([[? ?] (? & ? & ?)] & ? & ?) _. by split.
  - intros Hv. destruct (Hv eq_refl) as [[? ?] ? ? ? ?]. split_and!; try done.
    apply Forall_forall. intros w _. apply not_elem_of_nil.
Qed.

Lemma sampling_errors_nil (c : ContentSamplingConfig) :
  (sm_enabled c = true ->
   negb ((3 <=? sm_total_bytes c) && (sm_total_bytes c <=? MAX_SAMPLE_BYTES))
   || (sm_max_files c =? 0) || (65536 <? sm_max_files c)
   || (sm_history_secs c =? 0) || (86400 <? sm_history_secs c)
   || negb (f_is_finite (sm_min_entropy_increase c))
   || negb (f_in_range (f_of_Z 0) (f_of_Z 8) (sm_min_entropy_increase c)) = false)
  <-> (sm_enabled c = true -> sampling_valid c).
Proof.
  rewrite !orb_false_iff, negb_and_range, !Z.eqb_neq, !Z.ltb_ge, !negb_false_iff.
  split; intros Hc He; specialize (Hc He).
  - destruct Hc as ((((((? & ?) & ?) & ?) & ?) & ?) & ?). by split.
  - by destruct Hc as [? [? ?] [? ?] [? ?]].
Qed.

Lemma configuration_errors_nil (detection : DetectionConfig) (response : ResponseConfig) :
  configuration_errors detection response = [] <-> config_valid detection response.
Proof.
  unfold configuration_errors. cbv zeta.
  rewrite !app_nil_iff, approval_errors_nil, multi_errors_nil, guarded_nil, sampling_errors_nil.
  rewrite !error_if_nil, !orb_false_iff, negb_and_range, !Z.eqb_neq, !Z.ltb_ge, !negb_false_iff.
  assert (Hcan : existsb (fun p => negb (absolute_clean_path p) || negb (has_file_name p))
                   (dc_canary_paths detection) = false <->
                 Forall (fun p => absolute_clean_path p = true /\ has_file_name p = true)
                   (dc_canary_paths detection)).
  { rewrite existsb_false_Forall. apply Forall_iff. intros p.
    by rewrite orb_false_iff, !negb_false_iff. }
  assert (Hmul : is_some (checked_mul (dc_window_secs detection) 1000) = true <->
                 dc_window_secs detection * 1000 <= u64_max).
  { unfold checked_mul. destruct (Z.leb_spec (dc_window_secs detection * 1000) u64_max); simpl;
      split; try done; lia. }
  rewrite Hcan, Hmul. split.
  - intros ((? & ? & _) & ((((? & ?) & ?) & ?) & ?) & ? & ? & ? & [? ?] & [? ?] & [? ?] & [? ?] & [? ?]).
    by split.
  - intros []. destruct_and?. split_and!; try done.
    apply Forall_forall. intros c _. apply not_elem_of_nil.
Qed.

(** * The engine over a history of events *)

Definition engine_run `{RustStd} (config : DetectionConfig) (sensor : SensorKind)
    (h : list FileEvent) : DetectionEngine :=
  fold_left (fun s e => (engine_evaluate s e).1) h (engine_with_sensor config sensor).

(** What reaches the two scorers: the events outside the excluded paths, with
    the approval that covers them. *)
Definition scorer_inputs (config : DetectionConfig) (h : list FileEvent) : history :=
  map (fun e => (e, legacy_approval (find_approval config e)))
    (List.filter (fun e => negb (is_excluded config (fe_path e))) h).
Definition multi_inputs (config : DetectionConfig) (h : list FileEvent) : multi_history :=
  map (fun e => (e, approval_rules (find_approval config e)))
    (List.filter (fun e => negb (is_excluded config (fe_path e))) h).

Lemma scorer_inputs_snoc config h e :
  scorer_inputs config (h ++ [e]) =
  scorer_inputs config h ++
    (if is_excluded config (fe_path e) then [] else [(e, legacy_approval (find_approval config e))]).
Proof. unfold scorer_inputs. rewrite List.filter_app, map_app. simpl. by destruct (is_excluded _ _). Qed.

Lemma multi_inputs_snoc config h e :
  multi_inputs config (h ++ [e]) =
  multi_inputs config h ++
    (if is_excluded config (fe_path e) then [] else [(e, approval_rules (find_approval config e))]).
Proof. unfold multi_inputs. rewrite List.filter_app, map_app. simpl. by destruct (is_excluded _ _). Qed.

Lemma canary_room_size config emitted event :
  Z.of_nat (size emitted) <= max_groups config ->
  Z.of_nat (size (<[canary_identity event := fe_timestamp_ms event]> (canary_room config emitted event).1))
  <= max_groups config.
Proof.
  intros Hs. unfold canary_room.
  destruct (emitted !! canary_identity event) as [v|] eqn:Hk; simpl.
  { by rewrite map_size_insert_Some by eauto. }
  destruct (Z.leb_spec (max_groups config) (Z.of_nat (size emitted))) as [Hle|]; simpl.
  2:{ rewrite map_size_insert_None by done. lia. }
  destruct (min_by_key _ _) as [[oldest t]|] eqn:Hmin.
  - apply min_by_key_elem, elem_of_map_to_list in Hmin.
    etrans; [apply inj_le, map_size_insert_le|]. rewrite map_size_delete_Some by eauto.
    assert (size emitted <> 0%nat).
    { intros E. apply map_size_empty_inv in E. by rewrite E in Hmin. }
    lia.
  - apply min_by_key_None, map_to_list_empty_iff in Hmin. rewrite Hmin, map_size_empty in Hle.
    pose proof (max_groups_range config). lia.
Qed.

Lemma canary_step_size config emitted event a :
  Z.of_nat (size emitted) <= max_groups config ->
  Z.of_nat (size (canary_step config emitted event a).1) <= max_groups config.
Proof.
  intros Hs. unfold canary_step. destruct (canary_tamper config event); [|done].
  destruct (_ && _); [|done]. pose proof (canary_room_size config emitted event Hs) as Hr.
  destruct (canary_room config emitted event). exact Hr.
Qed.

Section EngineRun.
Context `{RustStd} (config : DetectionConfig) (sensor : SensorKind).

(** The assessment before the canary rule. *)
Definition base_assessment (s : DetectionEngine) (event : FileEvent) : Evaluation :=
  let approval := find_approval (de_config s) event in
  if is_excluded (de_config s) (fe_path event) then excluded_evaluation event
  else combine approval
         (evaluate_with_approval (de_scorer s) event (legacy_approval approval)).2
         (multi_evaluate (de_multi_window s) event (approval_rules approval)).2.

Lemma engine_evaluate_split (s : DetectionEngine) (event : FileEvent) :
  let approval := find_approval (de_config s) event in
  let excluded := is_excluded (de_config s) (fe_path event) in
  let c := canary_step (de_config s) (de_last_canary_emit s) event (base_assessment s event) in
  engine_evaluate s event =
  (mkDetectionEngine
     (if excluded then de_scorer s
      else (evaluate_with_approval (de_scorer s) event (legacy_approval approval)).1)
     (de_config s) c.1
     (if excluded then de_multi_window s
      else (multi_evaluate (de_multi_window s) event (approval_rules approval)).1), c.2).
Proof.
  unfold engine_evaluate, base_assessment. cbv zeta.
  destruct (is_excluded _ _).
  - by destruct (canary_step _ _ _ _).
  - destruct (evaluate_with_approval _ _ _), (multi_evaluate _ _ _). cbn [fst snd].
    by destruct (canary_step _ _ _ _).
Qed.

Lemma engine_run_snoc h e :
  engine_run config sensor (h ++ [e]) = (engine_evaluate (engine_run config sensor h) e).1.
Proof. unfold engine_run. by rewrite fold_left_app. Qed.

Lemma engine_run_parts (h : list FileEvent) :
  let s := engine_run config sensor h in
  de_config s = config
  /\ de_scorer s = run config sensor (scorer_inputs config h)
  /\ de_multi_window s = (multi_run config sensor (multi_inputs config h)).1
  /\ Z.of_nat (size (de_last_canary_emit s)) <= max_groups config.
Proof.
  induction h as [|e h IH] using rev_ind; cbv zeta in *.
  { split_and!; try done. pose proof (max_groups_range config). cbn -[max_groups].
    rewrite map_size_empty. lia. }
  rewrite engine_run_snoc, engine_evaluate_split. cbn [fst de_config de_scorer de_multi_window de_last_canary_emit].
  destruct IH as (I1 & I2 & I3 & I4). rewrite I1 in *. rewrite scorer_inputs_snoc, multi_inputs_snoc.
  split_and!; [done| | |by apply canary_step_size].
  - destruct (is_excluded _ _); [by rewrite app_nil_r|]. by rewrite run_snoc, I2.
  - destruct (is_excluded _ _); [by rewrite app_nil_r|]. by rewrite multi_run_snoc, I3.
Qed.

End EngineRun.

Lemma canary_step_tampered config emitted event a :
  canary_tamper config event = true ->
  let score := f_max (ev_score a) (f_of_Z 95) in
  let r := canary_step config emitted event a in
  ev_score r.2 = score /\ ev_pid r.2 = ev_pid a /\ ev_eligible r.2 = true
  /\ ev_approved_change_id r.2 = ev_approved_change_id a
  /\ (if negb (canary_cooldown config emitted event) && f_ge score (dc_detect_score config)
      then ev_alert r.2 = Some (canary_alert event score)
           /\ r.1 !! canary_identity event = Some (fe_timestamp_ms event)
      else ev_alert r.2 = ev_alert a /\ r.1 = emitted).
Proof.
  intros Ht score r. subst r. unfold canary_step. rewrite Ht.
  fold score. destruct (negb _ && _); [|done].
  destruct (canary_room config emitted event) as [m evicted]. cbn. rewrite lookup_insert_eq. done.
Qed.

Lemma canary_step_untampered config emitted event a :
  canary_tamper config event = false -> canary_step config emitted event a = (emitted, a).
Proof. intros Ht. unfold canary_step. by rewrite Ht. Qed.

Lemma combine_pid approval a multi : ev_pid (combine approval a multi) = ev_pid a.
Proof. unfold combine. by destruct (mo_instance_score multi). Qed.

Lemma combine_eligible approval a multi :
  ev_eligible (combine approval a multi) = true ->
  (exists score, mo_instance_score multi = Some score
    /\ ev_score (combine approval a multi) = f_max (ev_score a) score)
  \/ (ev_eligible a = true /\ ev_score (combine approval a multi) = ev_score a).
Proof. unfold combine. destruct (mo_instance_score multi); cbn; eauto. Qed.

Lemma combine_approved approval a multi id :
  ev_approved_change_id (combine approval a multi) = Some id ->
  (mo_approval_applied multi = true /\ ac_id <$> approval = Some id)
  \/ ev_approved_change_id a = Some id.
Proof.
  unfold combine. destruct (mo_instance_score multi), (mo_approval_applied multi); cbn; eauto.
Qed.

Lemma base_pid `{RustStd} (s : DetectionEngine) (event : FileEvent) :
  ev_pid (base_assessment s event) = fe_pid event.
Proof.
  unfold base_assessment. destruct (is_excluded _ _); [done|]. rewrite combine_pid.
  by destruct (evaluate_frame (de_scorer s) event
    (legacy_approval (find_approval (de_config s) event))) as (_ & Hp & _).
Qed.

Lemma find_approval_Some config event change :
  find_approval config event = Some change ->
  change ∈ dc_approved_changes config /\ approved_event change event = true.
Proof.
  unfold find_approval. intros Hf. apply List.find_some in Hf as [? ?].
  by rewrite list_elem_of_In.
Qed.


Lemma multi_approval_applied `{RustStd} (s : MultiWindowScorer) event rules :
  mo_approval_applied (multi_evaluate s event rules).2 = true ->
  exists g, g ∈ group_keys (ms_config s) event /\ group_rule g ∈ rules.
Proof.
  destruct (mw_enabled (dc_multi_window (ms_config s))) eqn:Hen.
  2:{ unfold multi_evaluate. by rewrite Hen. }
  destruct (inadmissible (ms_config s) event (Z.max (ms_watermark s) (fe_timestamp_ms event))) eqn:Hin.
  { unfold multi_evaluate. rewrite Hen. cbn [negb].
    destruct (advance_fields s (Z.max (ms_watermark s) (fe_timestamp_ms event))) as (E & _).
    by rewrite E, Hin. }
  rewrite (multi_evaluate_eq s event rules Hen Hin). cbn [snd].
  rewrite (proj2 (score_groups_flags _ _ _ _ _ _)). cbn [snd mo_approval_applied].
  set (keys := group_keys _ _). intros Hlt. split_bools.
  destruct (existsb (fun k => str_mem (group_rule k) rules) keys) eqn:Hex.
  - apply existsb_exists in Hex as (g & Hg & Hr). exists g.
    by rewrite list_elem_of_In, <- str_mem_spec.
  - rewrite existsb_false_Forall in Hex. unfold included_keys in Hlt.
    rewrite (filter_all_true _ keys) in Hlt; [lia|]. eapply Forall_impl; [exact Hex|].
    cbn beta. by intros g ->.
Qed.

Lemma base_eligible `{RustStd} (s : DetectionEngine) (event : FileEvent) :
  let approval := find_approval (de_config s) event in
  let a := (evaluate_with_approval (de_scorer s) event (legacy_approval approval)).2 in
  let multi := (multi_evaluate (de_multi_window s) event (approval_rules approval)).2 in
  ev_eligible (base_assessment s event) = true ->
  is_excluded (de_config s) (fe_path event) = false
  /\ ((exists score, mo_instance_score multi = Some score
        /\ ev_score (base_assessment s event) = f_max (ev_score a) score)
      \/ (ev_eligible a = true /\ ev_score (base_assessment s event) = ev_score a)).
Proof.
  cbv zeta. unfold base_assessment. destruct (is_excluded _ _); [done|].
  intros Hel. split; [done|]. by apply combine_eligible in Hel.
Qed.

Lemma engine_untampered `{RustStd} (s : DetectionEngine) (event : FileEvent) :
  canary_tamper (de_config s) event = false ->
  (engine_evaluate s event).2 = base_assessment s event.
Proof.
  intros Hc. rewrite engine_evaluate_split. cbn [snd]. by rewrite canary_step_untampered.
Qed.

Lemma engine_pid `{RustStd} (s : DetectionEngine) (event : FileEvent) :
  ev_pid (engine_evaluate s event).2 = fe_pid event.
Proof.
  rewrite <- (base_pid s event). rewrite engine_evaluate_split. cbn [snd].
  destruct (canary_tamper (de_config s) event) eqn:Hc.
  - by destruct (canary_step_tampered (de_config s) (de_last_canary_emit s) event
      (base_assessment s event) Hc) as (_ & Hp & _).
  - by rewrite canary_step_untampered.
Qed.

(** Every score is a percentage, so it is finite and can be recorded. *)
Lemma engine_percent `{RustStd} (s : DetectionEngine) (event : FileEvent) : percent (ev_score (engine_evaluate s event).2).
Proof.
  rewrite engine_evaluate_split. cbn [snd]. assert (percent (ev_score (base_assessment s event))) as Hb.
  { unfold base_assessment. destruct (is_excluded _ _); [done|]. unfold combine.
    pose proof (evaluate_percent (de_scorer s) event (legacy_approval (find_approval (de_config s) event))) as Ha.
    pose proof (multi_evaluate_percent (de_multi_window s) event (approval_rules (find_approval (de_config s) event))) as Hm.
    destruct (mo_instance_score _) as [x|] eqn:E; [|done]. apply f_max_range; [done|by apply Hm]. }
  unfold canary_step. destruct (canary_tamper _ _); [|done].
  assert (percent (f_max (ev_score (base_assessment s event)) (f_of_Z 95))) by by apply f_max_range.
  destruct (_ && _); [|done]. by destruct (canary_room _ _ _).
Qed.

(** * Main results *)

Definition demo_change : ApprovedChange :=
  mkApprovedChange "CHG-1" 900 2000 ["/data/deploy"] "/usr/bin/task" 1000 [BEHAVIOR_RULE].
Definition demo_engine_config : DetectionConfig :=
  {| dc_window_secs := 10; dc_mass_change_threshold := 4; dc_min_changed_files := 2;
     dc_entropy_threshold := f_lit 72 10; dc_detect_score := f_of_Z 40;
     dc_entropy_sample_bytes := 4096; dc_exclude_paths := ["/var/log"];
     dc_approved_changes := [demo_change]; dc_canary_paths := ["/var/log/.canary"];
     dc_multi_window := dc_multi_window demo_multi_config;
     dc_content_sampling := ContentSamplingConfig_default |}.
Definition demo_response : ResponseConfig := mkResponseConfig true (f_of_Z 60).

(** A configuration is accepted exactly when it is valid: unique non-blank
    approval IDs, well-formed approval periods, clean absolute paths, only
    adjustable rules, memory limits and window lists within their ranges,
    finite positive scores and a window that fits in milliseconds. *)
Theorem validate_configuration_correct `{RustStd} (detection : DetectionConfig)
    (response : ResponseConfig) (sensor : SensorKind) :
  is_ok (validate_configuration detection response sensor) = true
  <-> config_valid detection response.
Proof.
  rewrite <- configuration_errors_nil. unfold validate_configuration.
  by destruct (configuration_errors _ _).
Qed.

(** C26: an event makes a process a blocking candidate only on evidence. After
    any history, the PID is known and one of three holds: the event tampers
    with a canary file; the short window holds enough unapproved events of the
    same process whose score is the reported one; or the long-window log holds
    the complete evidence of this process instance for an instance score, and
    the reported score is the larger of that and the score of unapproved events
    of the same process in the short window, which need not be enough files to
    count alone ([short_score_blocks_without_files]). Events under excluded paths
    never count. *)
Theorem engine_block_sound `{RustStd} (config : DetectionConfig) (sensor : SensorKind)
    (h : list FileEvent) (event : FileEvent) (response : ResponseConfig) :
  0 <= fe_timestamp_ms event -> 0 <= dc_window_secs config ->
  timed_history (multi_inputs config (h ++ [event])) ->
  let e := (engine_evaluate (engine_run config sensor h) event).2 in
  block_candidate e response = true ->
  fe_pid event <> 0 /\ f_ge (ev_score e) (rc_block_score response) = true
  /\ (canary_tamper config event = true
      \/ (is_excluded config (fe_path event) = false
          /\ ((exists evs, own_evidence (scorer_inputs config (h ++ [event])) config event sensor
                             (ev_score e) evs)
              \/ (exists short long,
                    own_score (scorer_inputs config (h ++ [event])) config event sensor short
                    /\ instance_evidence config sensor event
                         (multi_run config sensor (multi_inputs config (h ++ [event]))).2 long
                    /\ ev_score e = f_max short long)))).
Proof.
  intros Ht Hw Hth e. unfold block_candidate. rewrite !andb_true_iff, negb_true_iff, Z.eqb_neq.
  intros [[Hel Hpid] Hscore]. revert Hel. unfold e in *. clear e.
  destruct (engine_run_parts config sensor h) as (E1 & E2 & E3 & _).
  rewrite <- (engine_pid (engine_run config sensor h) event). intros Hel. split; [done|]. split; [done|].
  destruct (canary_tamper config event) eqn:Hc; [by left|right].
  rewrite engine_untampered in Hel |- * by by rewrite E1.
  apply base_eligible in Hel as [Hex Hel]. rewrite E1 in Hex. rewrite E1, E2, E3 in Hel.
  split; [done|]. rewrite multi_inputs_snoc, Hex in Hth |- *. rewrite scorer_inputs_snoc, Hex.
  destruct Hel as [(score & Hsc & Heq)|[Hel Heq]]; rewrite Heq.
  - right. eexists _, score. split_and!; [by apply evaluated_own_score| |done]. by apply instance_score_evidence.
  - left. by apply eligible_own_evidence.
Qed.

Lemma engine_block_sound_witness :
  let h := [demo_event 1000 42 7 "/data/a"; demo_event 1001 42 7 "/data/b";
            demo_event 1001 42 7 "/var/log/x"] in
  let event := demo_event 1002 42 7 "/data/c" in
  let e := (engine_evaluate (H := sample_std)
              (engine_run (H := sample_std) demo_engine_config Fanotify h) event).2 in
  block_candidate e demo_response = true /\ fe_pid event <> 0
  /\ f_ge (ev_score e) (rc_block_score demo_response) = true.
Proof.
  intros h event e. split; [vm_compute; reflexivity|].
  destruct (engine_block_sound (H := sample_std) demo_engine_config Fanotify h event demo_response)
    as (Hp & Hs & _); [vm_compute; congruence..| | |by split].
  - split; [vm_compute; congruence|]. repeat constructor; vm_compute; congruence.
  - vm_compute. reflexivity.
Defined.

(** Tampering with a canary file is always a high risk: whatever the
    history, the exclusions and the approvals, the evaluation is eligible with
    a score of at least 95. A critical alert of the canary rule follows unless
    the same process changed the same file within the cooldown or the score
    misses [detect_score], and a known process is blocked when automatic
    blocking is on with a threshold of at most 95. *)
Theorem canary_always_scored `{RustStd} (s : DetectionEngine) (event : FileEvent) :
  canary_tamper (de_config s) event = true ->
  let '(s', e) := engine_evaluate s event in
  ev_eligible e = true /\ f_le (f_of_Z 95) (ev_score e) = true
  /\ (if negb (canary_cooldown (de_config s) (de_last_canary_emit s) event)
         && f_ge (ev_score e) (dc_detect_score (de_config s))
      then ev_alert e = Some (canary_alert event (ev_score e))
           /\ de_last_canary_emit s' !! canary_identity event = Some (fe_timestamp_ms event)
      else de_last_canary_emit s' = de_last_canary_emit s)
  /\ (forall response, fe_pid event <> 0 -> rc_auto_block response = true ->
        f_ge (ev_score e) (rc_block_score response) = true -> should_block e response = true).
Proof.
  intros Hc. pose proof (engine_pid s event) as Hp. rewrite engine_evaluate_split in *.
  cbn [snd fst] in Hp.
  destruct (canary_step_tampered (de_config s) (de_last_canary_emit s) event
    (base_assessment s event) Hc) as (H1 & _ & H2 & _ & H3).
  set (r := canary_step _ _ _ _) in *. clearbody r. cbv zeta in *.
  split; [done|]. split; [|split].
  - rewrite H1. by apply f_max_ge_r.
  - cbn [de_last_canary_emit]. rewrite <- H1 in H3.
    destruct (_ && _); [exact H3|by destruct H3].
  - intros response Hpid Ha Hs. unfold should_block, block_candidate.
    rewrite Ha, H2, Hp, Hs. by rewrite (proj2 (Z.eqb_neq _ _) Hpid).
Qed.

Lemma canary_always_scored_witness :
  let s := engine_run (H := sample_std) demo_engine_config Fanotify [] in
  let event := demo_event 1002 42 7 "/var/log/.canary" in
  let '(s', e) := engine_evaluate (H := sample_std) s event in
  should_block e demo_response = true.
Proof.
  intros s event.
  pose proof (canary_always_scored (H := sample_std) s event ltac:(vm_compute; reflexivity)) as Hc.
  destruct (engine_evaluate s event) as [s' e] eqn:E. destruct Hc as (_ & _ & _ & Hb).
  apply Hb; [vm_compute; congruence|reflexivity|].
  apply (f_equal (fun p => f_ge (ev_score p.2) (rc_block_score demo_response))) in E.
  cbn [snd] in E. rewrite <- E. vm_compute. reflexivity.
Defined.

(** an event below an excluded path that is not a canary leaves the whole
    engine as it was and yields the neutral evaluation. *)
Theorem excluded_event_inert `{RustStd} (config : DetectionConfig) (sensor : SensorKind)
    (h : list FileEvent) (event : FileEvent) (root : string) :
  root ∈ dc_exclude_paths config -> path_starts_with (fe_path event) root = true ->
  canary_tamper config event = false ->
  engine_evaluate (engine_run config sensor h) event
  = (engine_run config sensor h, excluded_evaluation event).
Proof.
  intros Hr Hp Hc. destruct (engine_run_parts config sensor h) as (E1 & _).
  assert (Hex : is_excluded config (fe_path event) = true).
  { unfold is_excluded. apply existsb_exists. exists root. by rewrite <- list_elem_of_In. }
  rewrite engine_evaluate_split. unfold base_assessment. rewrite E1, Hex, canary_step_untampered by done.
  cbn [fst snd]. f_equal. destruct (engine_run config sensor h). cbn in *. by subst.
Qed.

Lemma excluded_event_inert_witness :
  let s := engine_run (H := sample_std) demo_engine_config Fanotify [demo_event 1000 42 7 "/data/a"] in
  let event := demo_event 1001 42 7 "/var/log/syslog" in
  engine_evaluate (H := sample_std) s event = (s, excluded_evaluation event).
Proof.
  intros s event.
  apply (excluded_event_inert (H := sample_std) demo_engine_config Fanotify
    [demo_event 1000 42 7 "/data/a"] event "/var/log");
    [apply list_elem_of_here|vm_compute; reflexivity..].
Defined.

(** An evaluation names an approved change only if the configuration holds
    it and the event is within its scope: a fully identified process running
    the approved program as the approved user, an event time in the approved
    period, and a path without [..] below an approved root. Outside its
    validity period no approval ever applies. *)
Theorem approval_within_scope `{RustStd} (config : DetectionConfig) (sensor : SensorKind)
    (h : list FileEvent) (event : FileEvent) (id : string) :
  ev_approved_change_id (engine_evaluate (engine_run config sensor h) event).2 = Some id ->
  exists change process root,
    change ∈ dc_approved_changes config /\ ac_id change = id
    /\ fe_process event = Some process
    /\ fe_pid event <> 0 /\ fp_start_time_ticks process <> 0
    /\ trim_is_empty (fp_boot_id process) = false
    /\ ac_valid_from_ms change <= fe_timestamp_ms event < ac_valid_until_ms change
    /\ fp_uid process = ac_uid change
    /\ components (fp_exe process) = components (ac_exe change)
    /\ root ∈ ac_paths change /\ components root `prefix_of` components (fe_path event)
    /\ ParentDir ∉ components (fe_path event).
Proof.
  destruct (engine_run_parts config sensor h) as (E1 & _).
  set (s := engine_run config sensor h) in *. intros Hid.
  assert (Hbase : ev_approved_change_id (base_assessment s event) = Some id).
  { destruct (canary_tamper (de_config s) event) eqn:Hc.
    - rewrite engine_evaluate_split in Hid. cbn [snd] in Hid.
      destruct (canary_step_tampered (de_config s) (de_last_canary_emit s) event
        (base_assessment s event) Hc) as (_ & _ & _ & <- & _). done.
    - by rewrite engine_untampered in Hid. }
  assert (Hfind : exists change, find_approval config event = Some change /\ ac_id change = id).
  { clear Hid. unfold base_assessment in Hbase. rewrite E1 in Hbase.
    destruct (is_excluded _ _); [done|].
    apply combine_approved in Hbase as [[_ Ha]|Ha].
    - destruct (find_approval config event) as [c|]; simplify_eq/=. eauto.
    - rewrite (proj2 (proj2 (evaluate_frame _ _ _))) in Ha. unfold legacy_approval in Ha.
      destruct (find_approval config event) as [c|]; [|done]. cbn in Ha.
      destruct (str_mem _ _); simplify_eq/=. eauto. }
  destruct Hfind as (change & Hf & <-). apply find_approval_Some in Hf as [Hin Happ].
  unfold approved_event in Happ. destruct (fe_process event) as [process|]; [|done].
  split_bools.
  match goal with Hx : existsb _ _ = true |- _ => apply existsb_exists in Hx as (root & Hr & Hpre) end.
  unfold path_starts_with in Hpre. apply is_prefix_spec in Hpre.
  exists change, process, root. unfold path_eq, absolute_clean_path in *. split_bools.
  split_and!; try done; [by apply list_elem_of_In|].
  match goal with Hx : existsb _ _ = false |- _ => rename Hx into Hdots end.
  intros Hp. apply existsb_false_Forall in Hdots. rewrite Forall_forall in Hdots.
  specialize (Hdots _ Hp). by rewrite bool_decide_eq_true_2 in Hdots.
Qed.

Lemma approval_within_scope_witness :
  let event := demo_event 1002 42 7 "/data/deploy/x" in
  exists change root, change ∈ dc_approved_changes demo_engine_config /\ ac_id change = "CHG-1"
    /\ root ∈ ac_paths change /\ components root `prefix_of` components (fe_path event).
Proof.
  intros event.
  destruct (approval_within_scope (H := sample_std) demo_engine_config Fanotify [] event "CHG-1")
    as (change & process & root & Hc & Hi & _ & _ & _ & _ & _ & _ & _ & Hr & Hp & _).
  - vm_compute. reflexivity.
  - exists change, root. by split_and!.
Defined.

(** the table of canary alerts never exceeds [max_groups] identities. *)
Theorem canary_table_bounded `{RustStd} (config : DetectionConfig) (sensor : SensorKind)
    (h : list FileEvent) :
  Z.of_nat (size (de_last_canary_emit (engine_run config sensor h))) <= max_groups config.
Proof. apply engine_run_parts. Qed.

(** The score of the short window, which alone lacks the required number of
    changed files, becomes a blocking score once the long window yields any
    instance score, even a lower one than the blocking threshold. *)
Definition mixing_config : DetectionConfig :=
  {| dc_window_secs := 10; dc_mass_change_threshold := 4; dc_min_changed_files := 5;
     dc_entropy_threshold := f_lit 72 10; dc_detect_score := f_of_Z 40;
     dc_entropy_sample_bytes := 4096; dc_exclude_paths := []; dc_approved_changes := [];
     dc_canary_paths := [];
     dc_multi_window :=
       {| mw_enabled := true; mw_windows := [mkDetectionWindow 60 3 8 (f_of_Z 65)];
          mw_protected_paths := []; mw_aggregate_by_user := true; mw_aggregate_by_ancestry := true;
          mw_max_events := 100; mw_max_groups := 100; mw_max_path_bytes := 4096 |};
     dc_content_sampling := ContentSamplingConfig_default |}.
Definition created (t : Z) (path : string) : FileEvent :=
  mkFileEvent t 42 path Create (Some 100) None (Some (demo_process "/usr/bin/task" 7)) None.

Example short_score_blocks_without_files :
  let h := [created 1000 "/data/a"; created 2000 "/data/b"] in
  let event := demo_event 30000 42 7 "/data/c" in
  let s := engine_run (H := sample_std) mixing_config Fanotify h in
  let short := (evaluate_with_approval (de_scorer s) event None).2 in
  let long := (multi_evaluate (H := sample_std) (de_multi_window s) event []).2 in
  (ev_eligible short,
   is_some_and (mo_instance_score long) (fun x => f_lt x (rc_block_score demo_response)),
   should_block (engine_evaluate (H := sample_std) s event).2 demo_response)
  = (false, true, true).
Proof. vm_compute. reflexivity. Qed.
