(* ===== verification/PolicyTrust.v ===== *)
(** Signed policies and their activation (crates/argos-policy/src/lib.rs and
    trust.rs): signature checks, local trust and target checks, and the durable
    state whose version high-watermark prevents replay. *)
From Stdlib Require Import ZArith Lia Ascii.
From stdpp Require Import base gmap strings list sorting.
From S2P Require Import Prelude F64 RustPath Common Entropy Scorer MultiWindow Engine.
#[local] Open Scope Z_scope.

Definition MAX_POLICY_BYTES : Z := 1024 * 1024.
Definition MAX_AUDIT_ROWS : Z := 10000.

(** * Policies *)

Record RollbackApproval := mkRollbackApproval {
  ro_source_version : Z;
  ro_source_sha256 : string;
  ro_approval_id : string;
  ro_reason : string;
}.

Record Policy := mkPolicy {
  po_version : Z;
  po_policy_id : string;
  po_key_id : string;
  po_issued_at_ms : Z;
  po_not_before_ms : Z;
  po_expires_at_ms : Z;
  po_target_hosts : list string;
  po_target_groups : list string;
  po_rollback : option RollbackApproval;
  po_detection : DetectionConfig;
  po_response : ResponseConfig;
}.

Definition Policy_default : Policy :=
  mkPolicy 0 "" "" 0 0 0 [] [] None DetectionConfig_default ResponseConfig_default.

Inductive PolicyError : Type :=
| PolicyIo (path : string)
| KeyFormat (message : string)
| InvalidSignature
| ParseError
| Utf8Error.

(** What the crates [hex], [ed25519-dalek], [sha2], [toml] and [serde_json]
    provide. A key is its 32 bytes, a signature its 64. *)
Class PolicyCrypto := {
  hex_decode : string -> result string string;
  hex_encode : string -> string;
  key_from_bytes : string -> result unit string;
  key_verify : forall (key data signature : string), bool;
  key_sign : forall (secret data : string), string;
  sha256 : string -> string;
  toml_policy : string -> option Policy;
  settings_json : DetectionConfig -> ResponseConfig -> option string;
}.

(** The file system at one moment. *)
Class PolicyFiles := {
  (** [None] when the path cannot be opened without following a symbolic link;
      otherwise whether it is a regular file, and its contents. *)
  open_nofollow : string -> option (bool * string);
  read_file : string -> option string;
}.

Section Signatures.
Context `{Crypto : PolicyCrypto, Files : PolicyFiles}.

Definition parse_bytes (size : Z) (message hex : string) : result string PolicyError :=
  match hex_decode (str_trim hex) with
  | Err e => Err (KeyFormat e)
  | Ok bytes => if slen bytes =? size then Ok bytes else Err (KeyFormat message)
  end.

Definition parse_signing_key (secret_hex : string) : result string PolicyError :=
  parse_bytes 32 "서명키는 32바이트(hex 64자)여야 합니다" secret_hex.

Definition parse_verifying_key (pub_hex : string) : result string PolicyError :=
  let? bytes := parse_bytes 32 "검증키는 32바이트(hex 64자)여야 합니다" pub_hex in
  match key_from_bytes bytes with Ok _ => Ok bytes | Err e => Err (KeyFormat e) end.

Definition sign_bytes (data secret_hex : string) : result string PolicyError :=
  let? key := parse_signing_key secret_hex in
  Ok (hex_encode (key_sign key data)).

Definition verify_bytes (data sig_hex pub_hex : string) : result unit PolicyError :=
  let? key := parse_verifying_key pub_hex in
  let? sig := parse_bytes 64 "서명은 64바이트(hex 128자)여야 합니다" sig_hex in
  guard (negb (key_verify key data sig)) InvalidSignature.

Definition sig_path_for (policy_path : string) : string := policy_path +:+ ".sig".

Definition read_policy (path : string) : result string PolicyError :=
  ok_or (read_file path) (PolicyIo path).
(** [read_to_string]: also an I/O error when the contents are not UTF-8. *)
Definition read_signature (path : string) : result string PolicyError :=
  let? sig := ok_or (read_file path) (PolicyIo path) in
  if utf8_valid sig then Ok sig else Err (PolicyIo path).

Definition verify_file (policy_path pub_hex : string) : result unit PolicyError :=
  let? data := read_policy policy_path in
  let? sig := read_signature (sig_path_for policy_path) in
  verify_bytes data sig pub_hex.

Definition load_verified (policy_path pub_hex : string) : result Policy PolicyError :=
  let? data := read_policy policy_path in
  let? sig := read_signature (sig_path_for policy_path) in
  let? _ := verify_bytes data sig pub_hex in
  if utf8_valid data then ok_or (toml_policy data) ParseError else Err Utf8Error.

End Signatures.

(** * The durable state *)

Record AcceptedRow := mkAcceptedRow {
  ar_policy_id : string;
  ar_sha256 : string;
  ar_key_id : string;
  ar_accepted_at_ms : Z;
  ar_expires_at_ms : Z;
  ar_policy_bytes : string;
  ar_settings_json : string;
  ar_approval_id : option string;
}.

Record AuditRow := mkAuditRow {
  au_id : Z;
  au_timestamp_ms : Z;
  au_outcome : string;
  au_reason : string;
  au_version : option Z;
  au_policy_id : option string;
  au_sha256 : option string;
  au_key_id : option string;
  au_approval_id : option string;
}.

(** The three tables; [ps_sequence] is the counter of AUTOINCREMENT. *)
Record PolicyState := mkPolicyState {
  ps_accepted : gmap Z AcceptedRow;
  ps_active : option Z;
  ps_audit : list AuditRow;
  ps_sequence : Z;
}.
Definition PolicyState_empty : PolicyState := mkPolicyState ∅ None [] 0.

Inductive ActivationError : Type :=
| Rejected (code : string)
| StateError
| IoError
| UnsafeStatePath.

Record ActivatedPolicy := mkActivatedPolicy {
  ap_policy : Policy;
  ap_sha256 : string;
  ap_outcome : string;
  ap_warnings : list string;
}.

(** A [u64] bound to an INTEGER parameter must fit in an [i64]. *)
Definition sql_int (x : Z) : bool := x <=? i64_max.

(** INSERT and DELETE of [audit]; [None] is a database error. *)
Definition audit (st : PolicyState) (now : Z) (outcome reason : string) (policy : option Policy)
    (hash : option string) : option PolicyState :=
  if negb (sql_int now) || negb (default true (sql_int ∘ po_version <$> policy))
     || (i64_max <=? ps_sequence st)
  then None
  else
    let id := ps_sequence st + 1 in
    let row := mkAuditRow id now outcome reason (po_version <$> policy) (po_policy_id <$> policy)
                 hash (po_key_id <$> policy)
                 (policy ≫= fun p => ro_approval_id <$> po_rollback p) in
    Some (mkPolicyState (ps_accepted st) (ps_active st)
            (List.filter (fun r => negb (au_id r <=? id - MAX_AUDIT_ROWS)) (ps_audit st ++ [row]))
            id).

(** INSERT INTO accepted_policies, under the constraints of the schema. *)
Definition approval_used (st : PolicyState) (approval : string) : bool :=
  existsb (fun kv => bool_decide (ar_approval_id kv.2 = Some approval)) (map_to_list (ps_accepted st)).

Definition insert_accepted (st : PolicyState) (version : Z) (row : AcceptedRow) : option PolicyState :=
  if negb (sql_int version) || negb (sql_int (ar_accepted_at_ms row))
     || negb (sql_int (ar_expires_at_ms row))
     || negb (0 <? version) || is_some (ps_accepted st !! version)
     || is_some_and (ar_approval_id row) (approval_used st)
  then None
  else Some (mkPolicyState (<[version := row]> (ps_accepted st)) (ps_active st) (ps_audit st)
               (ps_sequence st)).

(** The upsert of the singleton row, whose foreign key must exist. *)
Definition set_active (st : PolicyState) (version : Z) : option PolicyState :=
  if is_some (ps_accepted st !! version)
  then Some (mkPolicyState (ps_accepted st) (Some version) (ps_audit st) (ps_sequence st))
  else None.

(** SELECT .. FROM active_policy a JOIN accepted_policies p ON p.version = a.version. *)
Definition active_row (st : PolicyState) : option (Z * AcceptedRow) :=
  ps_active st ≫= fun v => (fun row => (v, row)) <$> ps_accepted st !! v.

(** * Verifying a candidate *)

Definition is_alphanumeric (c : ascii) : bool :=
  let n := nat_of_ascii c in
  (Nat.leb 48 n && Nat.leb n 57) || (Nat.leb 65 n && Nat.leb n 90) || (Nat.leb 97 n && Nat.leb n 122).
Definition is_id_punctuation (c : ascii) : bool :=
  Ascii.eqb c "-" || Ascii.eqb c "_" || Ascii.eqb c "." || Ascii.eqb c ":" || Ascii.eqb c "@".
Definition is_lower_hex (c : ascii) : bool :=
  let n := nat_of_ascii c in (Nat.leb 48 n && Nat.leb n 57) || (Nat.leb 97 n && Nat.leb n 102).

Definition valid_id (value : string) : bool :=
  negb (String.eqb value "") && (slen value <=? 128)
  && str_all (fun c => is_alphanumeric c || is_id_punctuation c) value.

Record Verified := mkVerified {
  vf_policy : Policy;
  vf_bytes : string;
  vf_hash : string;
  vf_settings : string;
  vf_warnings : list string;
}.

Section Activation.
Context `{Crypto : PolicyCrypto, Files : PolicyFiles, Std : RustStd}.

Definition read_bounded (path : string) (maximum : Z) : option string :=
  match open_nofollow path with
  | Some (true, contents) => if maximum <? slen contents then None else Some contents
  | _ => None
  end.

(** The loop that parses every trusted key and refuses repeated ones. *)
Fixpoint check_trusted_keys (seen : list string) (keys : list (string * string))
    : result unit string :=
  match keys with
  | [] => Ok tt
  | (_, key) :: keys' =>
      match parse_verifying_key key with
      | Err _ => Err "invalid_local_trusted_keys"
      | Ok parsed =>
          if str_mem parsed seen then Err "duplicate_local_trusted_key"
          else check_trusted_keys (parsed :: seen) keys'
      end
  end.

Definition find_signer (keys : list (string * string)) (bytes signature : string) : option string :=
  fst <$> List.find (fun kv => is_ok (verify_bytes bytes signature kv.2)) keys.

Definition invalid_local_identity (config : PolicyFileConfig) : bool :=
  negb (valid_id (pf_policy_id config)) || negb (valid_id (pf_host_id config))
  || (128 <? zlen (pf_groups config)) || existsb (fun g => negb (valid_id g)) (pf_groups config).

Definition invalid_trusted_keys (config : PolicyFileConfig) : bool :=
  (zlen (pf_trusted_keys config) =? 0) || (64 <? zlen (pf_trusted_keys config))
  || existsb (fun kv => negb (valid_id kv.1)) (pf_trusted_keys config).

Definition invalid_metadata (policy : Policy) : bool :=
  negb (valid_id (po_policy_id policy)) || negb (valid_id (po_key_id policy))
  || (128 <? zlen (po_target_hosts policy)) || (128 <? zlen (po_target_groups policy))
  || existsb (fun id => negb (valid_id id)) (po_target_hosts policy ++ po_target_groups policy).

Definition invalid_rollback (policy : Policy) (r : RollbackApproval) : bool :=
  (ro_source_version r =? 0) || (po_version policy <=? ro_source_version r)
  || negb (slen (ro_source_sha256 r) =? 64) || negb (str_all is_lower_hex (ro_source_sha256 r))
  || negb (valid_id (ro_approval_id r)) || trim_is_empty (ro_reason r)
  || (512 <? slen (ro_reason r)) || has_control (ro_reason r).

Definition read_verify (config : PolicyFileConfig) (sensor : SensorKind) : result Verified string :=
  let? _ := guard (invalid_local_identity config) "invalid_local_identity" in
  let? _ := guard (invalid_trusted_keys config) "invalid_local_trusted_keys" in
  let? _ := check_trusted_keys [] (pf_trusted_keys config) in
  let? bytes := ok_or (read_bounded (pf_path config) MAX_POLICY_BYTES) "policy_read_failed" in
  let? signature := ok_or (read_bounded (sig_path_for (pf_path config)) 256) "signature_read_failed" in
  let? _ := guard (negb (utf8_valid signature)) "invalid_signature" in
  let? signing_id := ok_or (find_signer (pf_trusted_keys config) bytes signature) "invalid_signature" in
  let? _ := guard (negb (utf8_valid bytes)) "invalid_policy_format" in
  let? policy := ok_or (toml_policy bytes) "invalid_policy_format" in
  let? _ := guard (invalid_metadata policy) "invalid_policy_metadata" in
  let? _ := guard (negb (String.eqb (po_key_id policy) signing_id)) "key_id_mismatch" in
  let? _ := guard ((po_version policy =? 0) || (i64_max <? po_version policy)) "invalid_version" in
  let? _ := guard (is_some_and (po_rollback policy) (invalid_rollback policy)) "invalid_rollback_approval" in
  let? warnings :=
    match validate_configuration (po_detection policy) (po_response policy) sensor with
    | Ok warnings => Ok warnings
    | Err _ => Err "invalid_detection_response_configuration"
    end in
  let? settings := ok_or (settings_json (po_detection policy) (po_response policy))
                     "invalid_detection_response_configuration" in
  Ok (mkVerified policy bytes (sha256 bytes) settings warnings).

(** * Accepting it *)

Definition check_metadata (config : PolicyFileConfig) (policy : Policy) (now : Z)
    : result unit string :=
  let? _ := guard (negb (String.eqb (po_policy_id policy) (pf_policy_id config))) "policy_id_mismatch" in
  let? _ := guard ((po_issued_at_ms policy =? 0)
                   || (po_not_before_ms policy <? po_issued_at_ms policy)
                   || (po_expires_at_ms policy <=? po_not_before_ms policy)
                   || (i64_max <? po_expires_at_ms policy)) "invalid_validity_interval" in
  let? _ := guard (now <? po_not_before_ms policy) "not_yet_valid" in
  let? _ := guard (po_expires_at_ms policy <=? now) "expired" in
  let? _ := guard ((zlen (po_target_hosts policy) =? 0) && (zlen (po_target_groups policy) =? 0))
              "missing_target" in
  let? _ := guard (negb (zlen (po_target_hosts policy) =? 0)
                   && negb (str_mem (pf_host_id config) (po_target_hosts policy)))
              "host_target_mismatch" in
  guard (negb (zlen (po_target_groups policy) =? 0)
         && negb (existsb (fun group => str_mem group (pf_groups config)) (po_target_groups policy)))
    "group_target_mismatch".

Definition check_rollback (st : PolicyState) (policy : Policy) (settings : string)
    (active : option (Z * AcceptedRow)) (r : RollbackApproval) : result string string :=
  let? _ := guard (is_none_or active (fun a => a.1 <=? ro_source_version r))
              "rollback_source_not_older" in
  let? source := ok_or (opt_filter (fun row => String.eqb (ar_policy_id row) (po_policy_id policy))
                          (ps_accepted st !! ro_source_version r)) "rollback_source_unknown" in
  let? _ := guard (negb (String.eqb (ar_sha256 source) (ro_source_sha256 r)))
              "rollback_source_hash_mismatch" in
  let? _ := guard (negb (String.eqb (ar_settings_json source) settings)) "rollback_settings_mismatch" in
  let? _ := guard (approval_used st (ro_approval_id r)) "rollback_approval_reused" in
  Ok "rollback_accepted".

Definition check_acceptance (st : PolicyState) (config : PolicyFileConfig) (policy : Policy)
    (hash settings : string) (now : Z) : result string string :=
  let? _ := check_metadata config policy now in
  let active := active_row st in
  let fresh :=
    match po_rollback policy with
    | Some r => check_rollback st policy settings active r
    | None => Ok "accepted"
    end in
  match active with
  | Some (version, row) =>
      if negb (String.eqb (ar_policy_id row) (po_policy_id policy)) then Err "policy_series_change"
      else if po_version policy <? version then Err "version_downgrade"
      else if po_version policy =? version then
        (if String.eqb hash (ar_sha256 row) then Ok "restarted" else Err "version_reuse")
      else fresh
  | None => fresh
  end.

Definition new_row (v : Verified) (now : Z) : AcceptedRow :=
  mkAcceptedRow (po_policy_id (vf_policy v)) (vf_hash v) (po_key_id (vf_policy v)) now
    (po_expires_at_ms (vf_policy v)) (vf_bytes v) (vf_settings v)
    (ro_approval_id <$> po_rollback (vf_policy v)).

(** One transaction: [None] is a database error, which rolls everything back. *)
Definition activation_transaction (st : PolicyState) (config : PolicyFileConfig)
    (verified : result Verified string) (now : Z)
    : option (PolicyState * result ActivatedPolicy string) :=
  match verified with
  | Err code =>
      (fun st' => (st', Err code)) <$> audit st now "rejected" code None None
  | Ok v =>
      match check_acceptance st config (vf_policy v) (vf_hash v) (vf_settings v) now with
      | Err code =>
          (fun st' => (st', Err code))
            <$> audit st now "rejected" code (Some (vf_policy v)) (Some (vf_hash v))
      | Ok outcome =>
          (if String.eqb outcome "restarted" then Some st
           else insert_accepted st (po_version (vf_policy v)) (new_row v now)
                  ≫= fun st => set_active st (po_version (vf_policy v)))
          ≫= fun st => audit st now outcome "validated" (Some (vf_policy v)) (Some (vf_hash v))
          ≫= fun st => Some (st, Ok (mkActivatedPolicy (vf_policy v) (vf_hash v) outcome (vf_warnings v)))
      end
  end.

Definition activate_at (st : PolicyState) (config : PolicyFileConfig) (sensor : SensorKind) (now : Z)
    : PolicyState * result ActivatedPolicy ActivationError :=
  match activation_transaction st config (read_verify config sensor) now with
  | None => (st, Err StateError)
  | Some (st', Ok a) => (st', Ok a)
  | Some (st', Err code) => (st', Err (Rejected code))
  end.

(** * Inspecting it *)

Definition policy_state_path (config : PolicyFileConfig) (event_db_path : string) : string :=
  if negb (String.eqb (pf_state_path config) "") then pf_state_path config
  else event_db_path +:+ ".policy-state" +:+ "/" +:+ "state.sqlite3".

(** The newest rows first, at most 1000 of them. *)
Definition read_state (st : PolicyState) (audit_limit : Z)
    : option (Z * AcceptedRow) * list AuditRow * Z :=
  let limit := Z.min audit_limit 1000 in
  (active_row st, take (Z.to_nat limit) (rev (ps_audit st)), limit).

Definition load_active_policy (st : PolicyState) : result Policy ActivationError :=
  let? row := ok_or (snd <$> active_row st) StateError in
  let? _ := guard (negb (String.eqb (sha256 (ar_policy_bytes row)) (ar_sha256 row)))
              (Rejected "state_hash_mismatch") in
  let? _ := guard (negb (utf8_valid (ar_policy_bytes row))) (Rejected "invalid_saved_policy") in
  let? policy := ok_or (toml_policy (ar_policy_bytes row)) (Rejected "invalid_saved_policy") in
  let? actual := ok_or (settings_json (po_detection policy) (po_response policy))
                   (Rejected "invalid_saved_policy") in
  let? _ := guard (negb (String.eqb actual (ar_settings_json row))) (Rejected "state_settings_mismatch") in
  Ok policy.

Definition load_trusted (config : PolicyFileConfig) (sensor : SensorKind) (now : Z)
    : result Policy ActivationError :=
  match read_verify config sensor with
  | Err code => Err (Rejected code)
  | Ok v => match check_metadata config (vf_policy v) now with
            | Err code => Err (Rejected code)
            | Ok _ => Ok (vf_policy v)
            end
  end.

End Activation.

(** * What a verified candidate guarantees *)

Record trusted `{Crypto : PolicyCrypto, Files : PolicyFiles, Std : RustStd} (config : PolicyFileConfig)
    (sensor : SensorKind) (v : Verified) : Prop := {
  tr_file : exists sig, open_nofollow (pf_path config) = Some (true, vf_bytes v)
            /\ open_nofollow (sig_path_for (pf_path config)) = Some (true, sig)
            /\ exists key, (po_key_id (vf_policy v), key) ∈ pf_trusted_keys config
                 /\ is_ok (verify_bytes (vf_bytes v) sig key) = true;
  tr_size : slen (vf_bytes v) <= MAX_POLICY_BYTES;
  tr_parsed : utf8_valid (vf_bytes v) = true /\ toml_policy (vf_bytes v) = Some (vf_policy v);
  tr_version : po_version (vf_policy v) <> 0 /\ po_version (vf_policy v) <= i64_max;
  tr_rollback : forall r, po_rollback (vf_policy v) = Some r -> invalid_rollback (vf_policy v) r = false;
  tr_valid : config_valid (po_detection (vf_policy v)) (po_response (vf_policy v));
  tr_settings : settings_json (po_detection (vf_policy v)) (po_response (vf_policy v))
                = Some (vf_settings v);
  tr_hash : vf_hash v = sha256 (vf_bytes v);
}.

Lemma read_bounded_Some `{PolicyFiles} path maximum bytes :
  read_bounded path maximum = Some bytes ->
  open_nofollow path = Some (true, bytes) /\ slen bytes <= maximum.
Proof.
  unfold read_bounded. destruct (open_nofollow path) as [[[|] c]|]; try done.
  destruct (Z.ltb_spec maximum (slen c)); [done|]. by intros [= ->].
Qed.

Lemma find_signer_Some `{PolicyCrypto} keys bytes sig id :
  find_signer keys bytes sig = Some id ->
  exists key, (id, key) ∈ keys /\ is_ok (verify_bytes bytes sig key) = true.
Proof.
  unfold find_signer. destruct (List.find _ keys) as [[i key]|] eqn:Hf; [|done].
  intros [= ->]. apply List.find_some in Hf as [? ?]. exists key. by rewrite list_elem_of_In.
Qed.

Section Verified.
Context `{Crypto : PolicyCrypto, Files : PolicyFiles, Std : RustStd}.

Lemma read_verify_trusted config sensor v :
  read_verify config sensor = Ok v -> trusted config sensor v.
Proof.
  unfold read_verify. rewrite !guard_bind_Ok. intros (_ & _ & Hv). revert Hv.
  rewrite res_bind_Ok. intros (_ & _ & Hv). revert Hv.
  rewrite ok_or_bind_Ok. intros (bytes & Hbytes & Hv). revert Hv.
  rewrite ok_or_bind_Ok. intros (sig & Hsig & Hv). revert Hv.
  rewrite guard_bind_Ok, ok_or_bind_Ok. intros (_ & id & Hid & Hv). revert Hv.
  rewrite guard_bind_Ok, ok_or_bind_Ok. intros (Hutf & policy & Hpolicy & Hv). revert Hv.
  rewrite !guard_bind_Ok, res_bind_Ok. intros (_ & Hkey & Hver & Hroll & warnings & Hwarn & Hv). revert Hv.
  rewrite ok_or_bind_Ok. intros (settings & Hset & [= <-]).
  apply read_bounded_Some in Hbytes as [Hbytes Hlen], Hsig as [Hsig _].
  apply find_signer_Some in Hid as (key & Hin & Hok).
  split_bools. apply String.eqb_eq in Hkey as <-.
  split; cbn; try done.
  - exists sig. split_and!; [done|done|]. by exists key.
  - intros r Hr. by rewrite Hr in Hroll.
  - apply configuration_errors_nil. unfold validate_configuration in Hwarn.
    by destruct (configuration_errors _ _).
Qed.

Lemma read_verify_version config sensor v :
  read_verify config sensor = Ok v -> po_version (vf_policy v) <= i64_max.
Proof. intros Hv. by destruct (read_verify_trusted _ _ _ Hv) as [_ _ _ [_ ?] _ _ _ _]. Qed.

End Verified.

(** * The invariant of the state *)

(** A row records exactly what its bytes parse to. *)
Definition row_ok `{PolicyCrypto} (version : Z) (row : AcceptedRow) : Prop :=
  exists policy,
    utf8_valid (ar_policy_bytes row) = true /\ toml_policy (ar_policy_bytes row) = Some policy
    /\ sha256 (ar_policy_bytes row) = ar_sha256 row
    /\ settings_json (po_detection policy) (po_response policy) = Some (ar_settings_json row)
    /\ po_version policy = version /\ po_policy_id policy = ar_policy_id row
    /\ po_expires_at_ms policy = ar_expires_at_ms row
    /\ ar_approval_id row = ro_approval_id <$> po_rollback policy.

Definition accepted_version (st : PolicyState) (v : Z) : Prop := is_Some (ps_accepted st !! v).

Record tables_ok `{PolicyCrypto} (st : PolicyState) : Prop := {
  to_rows : forall v row, ps_accepted st !! v = Some row -> row_ok v row;
  to_range : forall v, accepted_version st v -> 0 < v <= i64_max;
  to_active : match ps_active st with
              | None => ps_accepted st = ∅
              | Some v => accepted_version st v /\ forall v', accepted_version st v' -> v' <= v
              end;
  to_series : forall v1 v2 r1 r2, ps_accepted st !! v1 = Some r1 -> ps_accepted st !! v2 = Some r2 ->
              ar_policy_id r1 = ar_policy_id r2;
  to_approvals : forall v1 v2 r1 r2 a, ps_accepted st !! v1 = Some r1 -> ps_accepted st !! v2 = Some r2 ->
                 ar_approval_id r1 = Some a -> ar_approval_id r2 = Some a -> v1 = v2;
  to_rollbacks : forall v row policy r, ps_accepted st !! v = Some row ->
                 toml_policy (ar_policy_bytes row) = Some policy -> po_rollback policy = Some r ->
                 exists source, ps_accepted st !! ro_source_version r = Some source
                   /\ ro_source_version r < v /\ ar_sha256 source = ro_source_sha256 r
                   /\ ar_settings_json source = ar_settings_json row;
}.

Record audit_ok (st : PolicyState) : Prop := {
  ao_sorted : StronglySorted (fun a b => au_id a < au_id b) (ps_audit st);
  ao_recent : Forall (fun r => ps_sequence st - MAX_AUDIT_ROWS < au_id r <= ps_sequence st) (ps_audit st);
  ao_sequence : 0 <= ps_sequence st;
}.

Lemma active_row_Some (st : PolicyState) v row :
  active_row st = Some (v, row) <-> ps_active st = Some v /\ ps_accepted st !! v = Some row.
Proof.
  unfold active_row. destruct (ps_active st) as [w|]; cbn; [|naive_solver].
  destruct (ps_accepted st !! w) eqn:E; cbn; naive_solver.
Qed.

Lemma active_row_None `{PolicyCrypto} (st : PolicyState) :
  tables_ok st -> active_row st = None -> ps_accepted st = ∅ /\ ps_active st = None.
Proof.
  intros Hst. pose proof (to_active _ Hst) as Ht. unfold active_row.
  destruct (ps_active st) as [v|]; cbn; [|done]. by destruct Ht as [[row ->] _].
Qed.

Lemma approval_used_spec (st : PolicyState) (a : string) :
  approval_used st a = true <-> exists v row, ps_accepted st !! v = Some row /\ ar_approval_id row = Some a.
Proof.
  unfold approval_used. rewrite existsb_exists. split.
  - intros ([v row] & Hin & Heq). apply list_elem_of_In, elem_of_map_to_list in Hin.
    split_bools. eauto.
  - intros (v & row & Hv & Ha). exists (v, row). rewrite <- list_elem_of_In, elem_of_map_to_list.
    split; [done|]. by apply bool_decide_eq_true.
Qed.

Lemma sublist_sorted_filter {A} (R : A -> A -> Prop) (p : A -> bool) (l : list A) :
  StronglySorted R l -> StronglySorted R (List.filter p l).
Proof.
  induction 1 as [|x l Hs IH Hx]; simpl; [constructor|].
  destruct (p x); [|done]. constructor; [done|].
  rewrite Forall_forall in Hx |- *. intros y Hy. apply Hx.
  apply list_elem_of_In, filter_In in Hy as [? _]. by apply list_elem_of_In.
Qed.

Lemma audit_Some (st st' : PolicyState) now outcome reason policy hash :
  audit st now outcome reason policy hash = Some st' ->
  ps_accepted st' = ps_accepted st /\ ps_active st' = ps_active st
  /\ ps_sequence st' = ps_sequence st + 1
  /\ (audit_ok st -> audit_ok st' /\ exists row, list.last (ps_audit st') = Some row
        /\ au_id row = ps_sequence st' /\ au_outcome row = outcome /\ au_reason row = reason
        /\ au_timestamp_ms row = now /\ au_version row = po_version <$> policy).
Proof.
  unfold audit. destruct (_ || _); [done|]. intros [= <-]. cbn -[MAX_AUDIT_ROWS].
  split_and!; try done. intros [H1 H2 H3]. split.
  - split; cbn -[MAX_AUDIT_ROWS]; [| |lia].
    + apply sublist_sorted_filter, StronglySorted_snoc; [done|].
      eapply Forall_impl; [exact H2|]. cbn -[MAX_AUDIT_ROWS]. lia.
    + rewrite Forall_forall. intros r Hr. apply list_elem_of_In, filter_In in Hr as [Hr Hn].
      apply list_elem_of_In, elem_of_app in Hr. split_bools. split; [lia|].
      destruct Hr as [Hr|Hr%list_elem_of_singleton]; [|subst r; cbn; lia].
      rewrite Forall_forall in H2. specialize (H2 _ Hr). lia.
  - rewrite List.filter_app. cbn -[MAX_AUDIT_ROWS].
    rewrite (proj2 (Z.leb_gt _ _)) by (unfold MAX_AUDIT_ROWS; lia). cbn.
    rewrite last_snoc. eexists. split_and!; done.
Qed.

Lemma insert_accepted_Some (st st' : PolicyState) version row :
  insert_accepted st version row = Some st' ->
  st' = mkPolicyState (<[version := row]> (ps_accepted st)) (ps_active st) (ps_audit st) (ps_sequence st)
  /\ 0 < version <= i64_max /\ ps_accepted st !! version = None
  /\ forall a, ar_approval_id row = Some a -> approval_used st a = false.
Proof.
  unfold insert_accepted. destruct (_ || _) eqn:Hb; [done|]. intros [= <-].
  split_bools. unfold sql_int in *. split_bools.
  split_and!; [done|lia|lia| |].
  - by destruct (ps_accepted st !! version).
  - intros a Ha. match goal with Hx : is_some_and _ _ = false |- _ => by rewrite Ha in Hx end.
Qed.

(** * Acceptance *)

Section Acceptance.
Context `{Crypto : PolicyCrypto, Files : PolicyFiles, Std : RustStd}.

Lemma check_acceptance_Ok st config policy hash settings now outcome :
  check_acceptance st config policy hash settings now = Ok outcome ->
  check_metadata config policy now = Ok tt
  /\ ((outcome = "restarted" /\ exists row, active_row st = Some (po_version policy, row)
        /\ ar_sha256 row = hash)
      \/ (outcome <> "restarted"
          /\ (forall v row, active_row st = Some (v, row) ->
                ar_policy_id row = po_policy_id policy /\ v < po_version policy)
          /\ match po_rollback policy with
             | Some r => outcome = "rollback_accepted"
                         /\ check_rollback st policy settings (active_row st) r = Ok outcome
             | None => outcome = "accepted"
             end)).
Proof.
  unfold check_acceptance. rewrite res_bind_Ok. intros ([] & Hm & Hc). split; [done|].
  assert (Hfresh : forall o, match po_rollback policy with
    | Some r => check_rollback st policy settings (active_row st) r
    | None => Ok "accepted" end = Ok o ->
    o <> "restarted" /\ match po_rollback policy with
             | Some r => o = "rollback_accepted" /\ check_rollback st policy settings (active_row st) r = Ok o
             | None => o = "accepted"
             end).
  { intros o. destruct (po_rollback policy) as [r|]; [|by intros [= <-]].
    intros Hr. assert (o = "rollback_accepted") as ->; [|done]. revert Hr. unfold check_rollback.
    rewrite guard_bind_Ok, ok_or_bind_Ok. intros (_ & source & _ & Hr). revert Hr.
    rewrite !guard_bind_Ok. by intros (_ & _ & _ & [= <-]). }
  destruct (active_row st) as [[v row]|]; [|right; by destruct (Hfresh _ Hc)].
  destruct (String.eqb_spec (ar_policy_id row) (po_policy_id policy)); cbn in Hc; [|done].
  destruct (Z.ltb_spec (po_version policy) v); [done|].
  destruct (Z.eqb_spec (po_version policy) v) as [<-|].
  - left. destruct (String.eqb_spec hash (ar_sha256 row)) as [->|]; simplify_eq. eauto.
  - right. destruct (Hfresh _ Hc) as [Ho Hr]. split; [done|]. split; [|done].
    intros w r' [= <- <-]. split; [done|]. lia.
Qed.

Lemma check_rollback_Ok st policy settings active r o :
  check_rollback st policy settings active r = Ok o ->
  exists v row source, active = Some (v, row) /\ ro_source_version r < v
    /\ ps_accepted st !! ro_source_version r = Some source
    /\ ar_policy_id source = po_policy_id policy
    /\ ar_sha256 source = ro_source_sha256 r /\ ar_settings_json source = settings
    /\ approval_used st (ro_approval_id r) = false.
Proof.
  unfold check_rollback. rewrite guard_bind_Ok, ok_or_bind_Ok. intros (Ha & source & Hs & Hr).
  revert Hr. rewrite !guard_bind_Ok. intros (H1 & H2 & H3 & _).
  destruct active as [[v row]|]; [|done]. cbn in Ha. split_bools.
  destruct (ps_accepted st !! _) as [src|] eqn:E; [|done]. cbn in Hs.
  destruct (String.eqb_spec (ar_policy_id src) (po_policy_id policy)); simplify_eq.
  apply String.eqb_eq in H1, H2. exists v, row, source. by split_and!.
Qed.

Lemma check_metadata_Ok config policy now :
  check_metadata config policy now = Ok tt ->
  po_policy_id policy = pf_policy_id config
  /\ po_issued_at_ms policy <= po_not_before_ms policy <= now
  /\ now < po_expires_at_ms policy <= i64_max
  /\ (po_target_hosts policy <> [] \/ po_target_groups policy <> [])
  /\ (po_target_hosts policy <> [] -> pf_host_id config ∈ po_target_hosts policy)
  /\ (po_target_groups policy <> [] ->
      exists g, g ∈ po_target_groups policy /\ g ∈ pf_groups config).
Proof.
  unfold check_metadata. rewrite !guard_bind_Ok.
  intros (Hid & Hint & Hnb & Hexp & Hmiss & Hhost & Hgroup). apply guard_Ok in Hgroup.
  split_bools. apply String.eqb_eq in Hid.
  assert (Hz : forall l : list string, (zlen l =? 0) = true -> l = []).
  { intros [|x l]; [done|]. intros Hl. apply Z.eqb_eq in Hl. rewrite zlen_cons in Hl.
    pose proof (zlen_nonneg l). lia. }
  assert (Hn : forall l : list string, l <> [] -> (zlen l =? 0) = false) by (intros; by apply zlen_eqb_0).
  split_and!; try done; try lia.
  - apply andb_false_iff in Hmiss as [Hm|Hm]; apply zlen_eqb_0 in Hm; auto.
  - intros Hh. rewrite (Hn _ Hh) in Hhost. cbn in Hhost. apply negb_false_iff in Hhost.
    by apply str_mem_spec.
  - intros Hh. rewrite (Hn _ Hh) in Hgroup. cbn in Hgroup. apply negb_false_iff in Hgroup.
    apply existsb_exists in Hgroup as (g & Hg & Hm). exists g.
    split; [by apply list_elem_of_In|by apply str_mem_spec].
Qed.

(** Accepting a new version keeps every property of the tables. *)
Lemma tables_ok_insert config sensor (st : PolicyState) (v : Verified) (now : Z) outcome :
  let version := po_version (vf_policy v) in
  let st' := mkPolicyState (<[version := new_row v now]> (ps_accepted st)) (Some version)
               (ps_audit st) (ps_sequence st) in
  tables_ok st -> trusted config sensor v -> 0 < version <= i64_max ->
  outcome <> "restarted" ->
  check_acceptance st config (vf_policy v) (vf_hash v) (vf_settings v) now = Ok outcome ->
  tables_ok st'.
Proof.
  intros version st' Hst Htr Hver Hne Hc.
  pose proof Htr as [_ _ [Hutf Hparse] _ Hroll _ Hset Hhash].
  apply check_acceptance_Ok in Hc as [_ [[-> _]|(_ & Hact & Hrb)]]; [done|].
  assert (Hlt : forall w, accepted_version st w -> w < version /\
    forall r, ps_accepted st !! w = Some r -> ar_policy_id r = po_policy_id (vf_policy v)).
  { intros w Hw. destruct (active_row st) as [[a ra]|] eqn:Ha.
    - destruct (Hact _ _ eq_refl) as [Hid Hav]. apply active_row_Some in Ha as [Ha Hra].
      pose proof (to_active _ Hst) as Hmax. rewrite Ha in Hmax. destruct Hmax as [_ Hmax].
      specialize (Hmax _ Hw). split; [unfold version; lia|]. intros r Hr.
      rewrite <- Hid. by eapply (to_series _ Hst).
    - apply active_row_None in Ha as [Ha _]; [|done]. destruct Hw as [r Hr].
      by rewrite Ha, lookup_empty in Hr. }
  assert (Hfresh : ps_accepted st !! version = None).
  { destruct (ps_accepted st !! version) eqn:E; [|done].
    destruct (Hlt version) as [? _]; [by eexists|]. lia. }
  split; cbn.
  - intros w row. destruct (decide (w = version)) as [->|].
    + rewrite lookup_insert_eq. intros [= <-]. exists (vf_policy v). cbn. by split_and!.
    + rewrite lookup_insert_ne by done. apply (to_rows _ Hst).
  - intros w [row Hw]. cbn in Hw. destruct (decide (w = version)) as [->|]; [done|].
    rewrite lookup_insert_ne in Hw by done. apply (to_range _ Hst). by eexists.
  - split; [by eexists; cbn; rewrite lookup_insert_eq|]. intros w [row Hw]. cbn in Hw.
    destruct (decide (w = version)) as [->|]; [done|]. rewrite lookup_insert_ne in Hw by done.
    destruct (Hlt w) as [? _]; [by eexists|]. lia.
  - intros v1 v2 r1 r2. destruct (decide (v1 = version)) as [->|], (decide (v2 = version)) as [->|];
      rewrite ?lookup_insert_eq, ?lookup_insert_ne by done.
    + by intros [= <-] [= <-].
    + intros [= <-] Hr. symmetry. eapply (Hlt v2); [by eexists|done].
    + intros Hr [= <-]. eapply (Hlt v1); [by eexists|done].
    + apply (to_series _ Hst).
  - assert (Hused : forall a w r, ar_approval_id (new_row v now) = Some a ->
      ps_accepted st !! w = Some r -> ar_approval_id r <> Some a).
    { cbn. intros a w r Ha Hr Hra. destruct (po_rollback (vf_policy v)) as [rb|]; [|done].
      destruct Hrb as [_ Hrb]. apply check_rollback_Ok in Hrb as (?&?&?&_&_&_&_&_&_& Hun).
      injection Ha as <-. assert (approval_used st (ro_approval_id rb) = true); [|congruence].
      apply approval_used_spec. eauto. }
    intros v1 v2 r1 r2 a. destruct (decide (v1 = version)) as [->|], (decide (v2 = version)) as [->|];
      rewrite ?lookup_insert_eq, ?lookup_insert_ne by done; [done| | |apply (to_approvals _ Hst)].
    + intros [= <-] Hr Ha Hb. by destruct (Hused a v2 r2).
    + intros Hr [= <-] Ha Hb. by destruct (Hused a v1 r1).
  - intros w row policy r. destruct (decide (w = version)) as [->|].
    + rewrite lookup_insert_eq. intros [= <-]. cbn. rewrite Hparse. intros [= <-] Hr.
      rewrite Hr in Hrb. destruct Hrb as [_ Hrb].
      apply check_rollback_Ok in Hrb as (a & ra & source & Ha & Hlt' & Hsrc & _ & Hsha & Hs & _).
      destruct (Hact _ _ Ha) as [_ Hav]. exists source.
      rewrite lookup_insert_ne by (unfold version; lia). split_and!; [done|unfold version; lia|done..].
    + rewrite lookup_insert_ne by done. intros Hw Hp Hr.
      destruct (to_rollbacks _ Hst _ _ _ _ Hw Hp Hr) as (source & Hsrc & Hl & ? & ?).
      exists source. rewrite lookup_insert_ne; [by split_and!|]. intros Heq.
      by rewrite <- Heq, Hfresh in Hsrc.
Qed.

End Acceptance.

(** * One activation *)

Inductive activation `{Crypto : PolicyCrypto, Files : PolicyFiles, Std : RustStd} (st : PolicyState) (config : PolicyFileConfig)
    (sensor : SensorKind) (now : Z) : PolicyState -> result ActivatedPolicy ActivationError -> Prop :=
| act_failed : activation st config sensor now st (Err StateError)
| act_rejected (st' : PolicyState) (code : string) policy hash :
    audit st now "rejected" code policy hash = Some st' ->
    activation st config sensor now st' (Err (Rejected code))
| act_restarted (st' : PolicyState) (v : Verified) row :
    read_verify config sensor = Ok v -> trusted config sensor v ->
    check_metadata config (vf_policy v) now = Ok tt ->
    active_row st = Some (po_version (vf_policy v), row) -> ar_sha256 row = vf_hash v ->
    audit st now "restarted" "validated" (Some (vf_policy v)) (Some (vf_hash v)) = Some st' ->
    activation st config sensor now st'
      (Ok (mkActivatedPolicy (vf_policy v) (vf_hash v) "restarted" (vf_warnings v)))
| act_accepted (st' : PolicyState) (v : Verified) (outcome : string) :
    read_verify config sensor = Ok v -> trusted config sensor v ->
    outcome <> "restarted" ->
    check_acceptance st config (vf_policy v) (vf_hash v) (vf_settings v) now = Ok outcome ->
    0 < po_version (vf_policy v) <= i64_max ->
    audit (mkPolicyState (<[po_version (vf_policy v) := new_row v now]> (ps_accepted st))
             (Some (po_version (vf_policy v))) (ps_audit st) (ps_sequence st))
      now outcome "validated" (Some (vf_policy v)) (Some (vf_hash v)) = Some st' ->
    activation st config sensor now st'
      (Ok (mkActivatedPolicy (vf_policy v) (vf_hash v) outcome (vf_warnings v))).

Section Activate.
Context `{Crypto : PolicyCrypto, Files : PolicyFiles, Std : RustStd}.

Lemma set_active_inserted (st : PolicyState) version row :
  set_active (mkPolicyState (<[version := row]> (ps_accepted st)) (ps_active st) (ps_audit st)
                (ps_sequence st)) version
  = Some (mkPolicyState (<[version := row]> (ps_accepted st)) (Some version) (ps_audit st)
            (ps_sequence st)).
Proof. unfold set_active. cbn. by rewrite lookup_insert_eq. Qed.

Lemma activate_at_activation st config sensor now :
  activation st config sensor now (activate_at st config sensor now).1
    (activate_at st config sensor now).2.
Proof.
  unfold activate_at, activation_transaction.
  destruct (read_verify config sensor) as [v|code] eqn:Hv; cbn.
  2:{ destruct (audit _ _ _ _ _ _) as [st'|] eqn:Ha; cbn; [by eapply act_rejected|constructor]. }
  destruct (check_acceptance _ _ _ _ _ _) as [outcome|code] eqn:Hc; cbn.
  2:{ destruct (audit _ _ _ _ _ _) as [st'|] eqn:Ha; cbn; [by eapply act_rejected|constructor]. }
  pose proof (read_verify_trusted _ _ _ Hv) as Htr.
  destruct (String.eqb_spec outcome "restarted") as [->|Hne]; cbn.
  - destruct (audit _ _ _ _ _ _) as [st'|] eqn:Ha; cbn; [|constructor].
    apply check_acceptance_Ok in Hc as [Hm [(_ & row & Hrow & Hsha)|(? & _)]]; [|done].
    by eapply act_restarted.
  - destruct (insert_accepted _ _ _) as [st1|] eqn:Hi; cbn; [|constructor].
    apply insert_accepted_Some in Hi as (-> & Hver & _ & _). rewrite set_active_inserted. cbn.
    destruct (audit _ _ _ _ _ _) as [st'|] eqn:Ha; cbn; [|constructor].
    by apply act_accepted.
Qed.

Definition policy_ok (st : PolicyState) : Prop := tables_ok st /\ audit_ok st.

Lemma tables_ok_ext (st st' : PolicyState) :
  ps_accepted st' = ps_accepted st -> ps_active st' = ps_active st -> tables_ok st -> tables_ok st'.
Proof. intros Ha Hb [H1 H2 H3 H4 H5 H6]. split; unfold accepted_version in *; by rewrite ?Ha, ?Hb. Qed.

Lemma activate_policy_ok st config sensor now :
  policy_ok st ->
  policy_ok (activate_at st config sensor now).1
  /\ ps_sequence (activate_at st config sensor now).1 <= ps_sequence st + 1.
Proof.
  intros [Ht Ha]. pose proof (activate_at_activation st config sensor now) as Hact.
  destruct (activate_at st config sensor now) as [st' r]. cbn in *.
  destruct Hact as [|st' code policy hash Haud|st' v row _ _ _ _ _ Haud|st' v outcome _ Htr Hne Hc Hver Haud].
  - split; [done|lia].
  - apply audit_Some in Haud as (E1 & E2 & E3 & Hok). destruct (Hok Ha) as [? _].
    split; [split; [by eapply tables_ok_ext|done]|lia].
  - apply audit_Some in Haud as (E1 & E2 & E3 & Hok). destruct (Hok Ha) as [? _].
    split; [split; [by eapply tables_ok_ext|done]|lia].
  - apply audit_Some in Haud as (E1 & E2 & E3 & Hok). cbn in E3.
    destruct Hok as [? _]; [by destruct Ha|].
    split; [split; [|done]|lia]. eapply tables_ok_ext; [done..|]. by eapply tables_ok_insert.
Qed.

(** With clocks and counters in range, no constraint of the schema is ever violated. *)
Lemma activate_no_conflict st config sensor now :
  (forall bytes p, toml_policy bytes = Some p -> 0 <= po_version p) ->
  policy_ok st -> now <= i64_max -> ps_sequence st < i64_max ->
  (activate_at st config sensor now).2 <> Err StateError.
Proof.
  intros Hu64 [Ht Ha] Hnow Hseq.
  assert (Haud : forall st0 outcome reason policy hash,
    ps_sequence st0 = ps_sequence st -> (forall p, policy = Some p -> po_version p <= i64_max) ->
    exists st', audit st0 now outcome reason policy hash = Some st').
  { intros st0 outcome reason policy hash Hs Hp. unfold audit, sql_int. rewrite Hs.
    rewrite (proj2 (Z.leb_le _ _)) by done. rewrite (proj2 (Z.leb_gt _ _)) by done.
    destruct policy as [p|]; cbn; [|eauto]. rewrite (proj2 (Z.leb_le _ _)) by auto. cbn. eauto. }
  unfold activate_at, activation_transaction.
  destruct (read_verify config sensor) as [v|code] eqn:Hv; cbn.
  2:{ destruct (Haud st "rejected" code None None) as [st' ->]; [done..|]. done. }
  pose proof (read_verify_version _ _ _ Hv) as Hver.
  assert (Hp : forall p, Some (vf_policy v) = Some p -> po_version p <= i64_max) by (by intros p [= <-]).
  destruct (check_acceptance _ _ _ _ _ _) as [outcome|code] eqn:Hc; cbn.
  2:{ destruct (Haud st "rejected" code (Some (vf_policy v)) (Some (vf_hash v))) as [st' ->]; [done..|]. done. }
  destruct (String.eqb_spec outcome "restarted") as [->|Hne]; cbn.
  { destruct (Haud st "restarted" "validated" (Some (vf_policy v)) (Some (vf_hash v))) as [st' ->]; [done..|]. done. }
  pose proof (read_verify_trusted _ _ _ Hv) as [_ _ [_ Hparse] [Hnz _] _ _ _ _].
  apply Hu64 in Hparse.
  apply check_acceptance_Ok in Hc as [Hm [[-> _]|(_ & Hact & Hrb)]]; [done|].
  apply check_metadata_Ok in Hm as (_ & _ & Hexp & _).
  assert (Hfresh : ps_accepted st !! po_version (vf_policy v) = None).
  { destruct (ps_accepted st !! _) as [row|] eqn:E; [|done].
    pose proof (to_active _ Ht) as Hmax. destruct (active_row st) as [[a ra]|] eqn:Har.
    - destruct (Hact _ _ eq_refl) as [_ Hlt]. apply active_row_Some in Har as [Har _].
      rewrite Har in Hmax. destruct Hmax as [_ Hmax]. specialize (Hmax (po_version (vf_policy v))).
      assert (accepted_version st (po_version (vf_policy v))) as Hacc by by eexists.
      specialize (Hmax Hacc). lia.
    - apply active_row_None in Har as [Har _]; [|done]. by rewrite Har, lookup_empty in E. }
  assert (Hins : exists st1, insert_accepted st (po_version (vf_policy v)) (new_row v now) = Some st1).
  { unfold insert_accepted, sql_int. cbn [ar_accepted_at_ms ar_expires_at_ms ar_approval_id new_row].
    rewrite !(proj2 (Z.leb_le _ _)) by lia. rewrite (proj2 (Z.ltb_lt _ _)) by lia. rewrite Hfresh.
    cbn. destruct (po_rollback (vf_policy v)) as [rb|]; cbn; [|eauto].
    destruct Hrb as [_ Hrb]. apply check_rollback_Ok in Hrb as (?&?&?&_&_&_&_&_&_& ->). eauto. }
  destruct Hins as [st1 Hins]. rewrite Hins. cbn.
  apply insert_accepted_Some in Hins as (-> & _). rewrite set_active_inserted. cbn.
  edestruct Haud as [st' ->]; [..|done]; [done|done].
Qed.

End Activate.

(** * Histories of activation attempts *)

(** One start of the agent: the files, local configuration and clock it saw. *)
Record attempt := mkAttempt {
  at_files : PolicyFiles;
  at_config : PolicyFileConfig;
  at_sensor : SensorKind;
  at_now : Z;
}.

Section Attempts.
Context `{Crypto : PolicyCrypto, Std : RustStd}.

Definition attempt_activation (st : PolicyState) (a : attempt)
    : PolicyState * result ActivatedPolicy ActivationError :=
  activate_at (Files := at_files a) st (at_config a) (at_sensor a) (at_now a).

Definition policy_run (h : list attempt) : PolicyState :=
  fold_left (fun st a => (attempt_activation st a).1) h PolicyState_empty.

Lemma policy_run_snoc h a : policy_run (h ++ [a]) = (attempt_activation (policy_run h) a).1.
Proof. unfold policy_run. by rewrite fold_left_app. Qed.

Lemma policy_run_ok (h : list attempt) :
  policy_ok (policy_run h) /\ ps_sequence (policy_run h) <= zlen h.
Proof.
  induction h as [|a h [IH Hs]] using rev_ind.
  - split; [|done]. split; [|split; cbn; [constructor|constructor|done]].
    split; unfold accepted_version; cbn; try (intros *; rewrite ?lookup_empty; naive_solver).
  - rewrite policy_run_snoc, zlen_app. change (zlen [a]) with 1.
    destruct (activate_policy_ok (Files := at_files a) _ (at_config a) (at_sensor a) (at_now a) IH).
    split; [done|]. unfold attempt_activation. lia.
Qed.

Lemma attempt_cases (st : PolicyState) (a : attempt) :
  activation (Files := at_files a) st (at_config a) (at_sensor a) (at_now a)
    (attempt_activation st a).1 (attempt_activation st a).2.
Proof. apply activate_at_activation. Qed.

(** Accepted rows are never changed or removed and the active version only grows. *)
Definition extends (st st' : PolicyState) : Prop :=
  ps_accepted st ⊆ ps_accepted st'
  /\ forall v, ps_active st = Some v -> exists v', ps_active st' = Some v' /\ v <= v'.

Lemma accepted_newer (st : PolicyState) config (v : Verified) now outcome w :
  tables_ok st -> outcome <> "restarted" ->
  check_acceptance st config (vf_policy v) (vf_hash v) (vf_settings v) now = Ok outcome ->
  accepted_version st w -> w < po_version (vf_policy v).
Proof.
  intros Hst Hne Hc Hw. apply check_acceptance_Ok in Hc as [_ [[-> _]|(_ & Hact & _)]]; [done|].
  destruct (active_row st) as [[x rx]|] eqn:Hx.
  - destruct (Hact _ _ eq_refl) as [_ Hlt]. apply active_row_Some in Hx as [Hx _].
    pose proof (to_active _ Hst) as Hmax. rewrite Hx in Hmax. destruct Hmax as [_ Hmax].
    specialize (Hmax _ Hw). lia.
  - apply active_row_None in Hx as [Hx _]; [|done]. destruct Hw as [r Hr].
    by rewrite Hx, lookup_empty in Hr.
Qed.

Lemma attempt_extends (st : PolicyState) (a : attempt) :
  tables_ok st -> extends st (attempt_activation st a).1.
Proof.
  intros Hst. pose proof (attempt_cases st a) as Hact.
  destruct (attempt_activation st a) as [st' r]. cbn in *.
  destruct Hact as [|st' code policy hash Haud|st' v row _ _ _ _ _ Haud|st' v outcome _ _ Hne Hc _ Haud].
  - split; [done|]. eauto with lia.
  - apply audit_Some in Haud as (E1 & E2 & _). unfold extends. rewrite E1, E2. eauto with lia.
  - apply audit_Some in Haud as (E1 & E2 & _). unfold extends. rewrite E1, E2. eauto with lia.
  - apply audit_Some in Haud as (E1 & E2 & _). cbn in E1, E2. unfold extends. rewrite E1, E2. split.
    + apply insert_subseteq. destruct (ps_accepted st !! _) eqn:E; [|done].
      assert (accepted_version st (po_version (vf_policy v))) as Hacc by by eexists.
      pose proof (accepted_newer _ _ _ _ _ _ Hst Hne Hc Hacc). lia.
    + intros w Hw. eexists. split; [done|].
      pose proof (to_active _ Hst) as Hmax. rewrite Hw in Hmax. destruct Hmax as [Hacc _].
      pose proof (accepted_newer _ _ _ _ _ _ Hst Hne Hc Hacc). lia.
Qed.

Lemma extends_trans (a b c : PolicyState) : extends a b -> extends b c -> extends a c.
Proof.
  intros [H1 H2] [H3 H4]. split; [by etrans|]. intros v Hv.
  destruct (H2 _ Hv) as (v' & Hv' & ?). destruct (H4 _ Hv') as (v'' & ? & ?). eauto with lia.
Qed.

Lemma policy_run_extends (h1 h2 : list attempt) : extends (policy_run h1) (policy_run (h1 ++ h2)).
Proof.
  induction h2 as [|a h2 IH] using rev_ind.
  - rewrite app_nil_r. split; [done|]. eauto with lia.
  - rewrite app_assoc, policy_run_snoc. eapply extends_trans; [done|].
    apply attempt_extends. by destruct (policy_run_ok (h1 ++ h2)) as [[? _] _].
Qed.

(** The active row always reads back. *)
Lemma load_active_ok (st : PolicyState) v row :
  tables_ok st -> ps_active st = Some v -> ps_accepted st !! v = Some row ->
  exists policy, load_active_policy st = Ok policy /\ po_version policy = v
    /\ toml_policy (ar_policy_bytes row) = Some policy.
Proof.
  intros Hst Ha Hrow. destruct (to_rows _ Hst _ _ Hrow) as (policy & H1 & H2 & H3 & H4 & H5 & _).
  exists policy. split; [|done]. unfold load_active_policy, active_row. rewrite Ha. cbn.
  rewrite Hrow. cbn. rewrite H3, String.eqb_refl. cbn. rewrite H1. cbn. rewrite H2. cbn.
  rewrite H4. cbn. by rewrite String.eqb_refl.
Qed.

Lemma sorted_length (l : list AuditRow) (lo hi : Z) :
  StronglySorted (fun a b => au_id a < au_id b) l ->
  Forall (fun r => lo < au_id r <= hi) l -> zlen l <= Z.max (hi - lo) 0.
Proof.
  intros Hs. revert lo. induction Hs as [|r l Hs IH Hr]; intros lo Hf; [unfold zlen; simpl; lia|].
  apply Forall_cons in Hf as [Hr0 Hf]. rewrite zlen_cons.
  specialize (IH (au_id r)). cut (zlen l <= Z.max (hi - au_id r) 0); [lia|]. apply IH.
  rewrite Forall_forall in Hf, Hr |- *. intros x Hx. specialize (Hf _ Hx). specialize (Hr _ Hx). lia.
Qed.

End Attempts.

(** * A concrete environment for the examples *)

Definition hex_digit (n : nat) : ascii := ascii_of_nat (if Nat.ltb n 10 then 48 + n else 87 + n).
Definition hex_value (c : ascii) : nat :=
  let n := nat_of_ascii c in if Nat.ltb n 58 then (n - 48)%nat else (n - 87)%nat.
Fixpoint sample_hex (s : string) : string :=
  match s with
  | EmptyString => EmptyString
  | String a s' =>
      String (hex_digit (nat_of_ascii a / 16)) (String (hex_digit (nat_of_ascii a mod 16)) (sample_hex s'))
  end.
Fixpoint sample_unhex (s : string) : result string string :=
  match s with
  | String a (String b s') =>
      let? r := sample_unhex s' in Ok (String (ascii_of_nat (16 * hex_value a + hex_value b)) r)
  | EmptyString => Ok EmptyString
  | String _ EmptyString => Err "odd length"
  end.

Definition zeros64 : string := "0000000000000000000000000000000000000000000000000000000000000000".
Definition pad (n : nat) (s : string) : string := String.substring 0 n (s +:+ zeros64).
Definition sample_key : string := sample_hex (pad 32 "key-1").

Definition demo_policy (version window : Z) (rollback : option RollbackApproval) : Policy :=
  {| po_version := version; po_policy_id := "fleet"; po_key_id := "k1"; po_issued_at_ms := 10;
     po_not_before_ms := 20; po_expires_at_ms := 5000; po_target_hosts := ["host-1"];
     po_target_groups := []; po_rollback := rollback;
     po_detection := mkDetectionConfig window 30 5 (f_lit 72 10) (f_of_Z 40) 4096 [] [] []
                       MultiWindowConfig_default ContentSamplingConfig_default;
     po_response := ResponseConfig_default |}.

(** Version 3 restores the settings of version 1. *)
Definition sample_crypto : PolicyCrypto := {|
  hex_decode := sample_unhex;
  hex_encode := sample_hex;
  key_from_bytes := fun _ => Ok tt;
  key_sign := fun secret data => pad 64 (secret +:+ data);
  key_verify := fun key data sig => String.eqb sig (pad 64 (key +:+ data));
  sha256 := fun data => pad 64 (if String.eqb data "v1" then "1" else if String.eqb data "v2" then "2" else "3");
  toml_policy := fun data =>
    if String.eqb data "v1" then Some (demo_policy 1 10 None)
    else if String.eqb data "v2" then Some (demo_policy 2 20 None)
    else if String.eqb data "v3" then
      Some (demo_policy 3 10 (Some (mkRollbackApproval 1 (pad 64 "1") "CHG-9" "restore")))
    else None;
  settings_json := fun d _ => Some (if dc_window_secs d =? 10 then "a" else "b");
|}.

Definition sample_files (data : string) : PolicyFiles := {|
  open_nofollow := fun path =>
    if String.eqb path "/p" then Some (true, data)
    else if String.eqb path "/p.sig" then Some (true, sample_hex (pad 64 (pad 32 "key-1" +:+ data))) else None;
  read_file := fun _ => None;
|}.

Definition sample_config : PolicyFileConfig :=
  mkPolicyFileConfig "/p" "" "fleet" "host-1" [] [("k1", sample_key)] "".

Definition sample_attempt (data : string) (now : Z) : attempt :=
  mkAttempt (sample_files data) sample_config Fanotify now.
#[local] Abbreviation sample_run h := (policy_run (Crypto := sample_crypto) (Std := sample_std) h).
#[local] Abbreviation sample_activation h a :=
  (attempt_activation (Crypto := sample_crypto) (Std := sample_std) (sample_run h) a).

Example sample_outcomes :
  let outcome h a := match (sample_activation h a).2 with
                     | Ok r => ap_outcome r | Err (Rejected c) => c | Err _ => "error" end in
  let '(v1, v2, v3) := (sample_attempt "v1" 100, sample_attempt "v2" 200, sample_attempt "v3" 300) in
  (outcome [] v1, outcome [v1] v1, outcome [v1] v2, outcome [v1; v2] v1, outcome [v1; v2] v3,
   outcome [v1; v2; v3] v3, outcome [v1] (sample_attempt "v2" 6000), outcome [v1] v3)
  = ("accepted", "restarted", "accepted", "version_downgrade", "rollback_accepted",
     "restarted", "expired", "rollback_source_not_older").
Proof. vm_compute. reflexivity. Qed.

(** * Main results *)

Section Results.
Context `{Crypto : PolicyCrypto, Std : RustStd}.

(** C2: a policy version is never replayed. After any history of attempts, an
    activation either restarts the active version with the very same bytes
    hash and changes no table, or accepts a version above every version ever
    accepted, which it stores and makes active. *)
Theorem version_never_replayed (h : list attempt) (a : attempt) (p : ActivatedPolicy) :
  (attempt_activation (policy_run h) a).2 = Ok p ->
  let st := policy_run h in
  let st' := policy_run (h ++ [a]) in
  let version := po_version (ap_policy p) in
  (ap_outcome p = "restarted" /\ ps_accepted st' = ps_accepted st /\ ps_active st' = ps_active st
   /\ exists row, active_row st = Some (version, row) /\ ar_sha256 row = ap_sha256 p)
  \/ ((forall v, accepted_version st v -> v < version)
      /\ ps_active st' = Some version
      /\ exists row, ps_accepted st' = <[version := row]> (ps_accepted st)
           /\ ar_sha256 row = ap_sha256 p /\ ar_accepted_at_ms row = at_now a).
Proof.
  intros Hp. cbv zeta. rewrite policy_run_snoc.
  destruct (policy_run_ok h) as [[Hst _] _].
  pose proof (attempt_cases (policy_run h) a) as Hact. rewrite Hp in Hact.
  destruct (attempt_activation (policy_run h) a) as [st' r]. cbn [fst snd] in *.
  inversion Hact as [| |? v row _ _ _ Hrow Hsha Haud|? v outcome _ _ Hne Hc _ Haud]; subst.
  - left. apply audit_Some in Haud as (E1 & E2 & _). split_and!; [done..|]. by exists row.
  - right. apply audit_Some in Haud as (E1 & E2 & _). cbn in *. split_and!; [|done|].
    + intros w Hw. by eapply accepted_newer.
    + by exists (new_row v (at_now a)).
Qed.

(** The high-watermark survives everything. Along any continuation of a
    history, accepted policies are never changed or removed and the active
    version never decreases, whatever files, clocks and errors follow. *)
Theorem high_watermark_monotone (h1 h2 : list attempt) (v : Z) :
  ps_active (policy_run h1) = Some v ->
  ps_accepted (policy_run h1) ⊆ ps_accepted (policy_run (h1 ++ h2))
  /\ exists v', ps_active (policy_run (h1 ++ h2)) = Some v' /\ v <= v'.
Proof. intros Hv. destruct (policy_run_extends h1 h2) as [H1 H2]. split; [done|]. by apply H2. Qed.

(** Only a trusted, applicable policy is activated. The exact bytes of a
    regular file carry a signature by a key of the local trust list, under the
    key ID they name; they are within their validity interval and target this
    host; and their detection settings are valid. *)
Theorem activation_requires_trust (h : list attempt) (a : attempt) (p : ActivatedPolicy) :
  (attempt_activation (policy_run h) a).2 = Ok p ->
  let config := at_config a in
  let policy := ap_policy p in
  exists bytes sig key,
    open_nofollow (PolicyFiles := at_files a) (pf_path config) = Some (true, bytes)
    /\ (po_key_id policy, key) ∈ pf_trusted_keys config
    /\ is_ok (verify_bytes bytes sig key) = true
    /\ toml_policy bytes = Some policy /\ ap_sha256 p = sha256 bytes
    /\ po_policy_id policy = pf_policy_id config
    /\ po_not_before_ms policy <= at_now a < po_expires_at_ms policy
    /\ (po_target_hosts policy <> [] \/ po_target_groups policy <> [])
    /\ (po_target_hosts policy <> [] -> pf_host_id config ∈ po_target_hosts policy)
    /\ (po_target_groups policy <> [] ->
        exists g, g ∈ po_target_groups policy /\ g ∈ pf_groups config)
    /\ config_valid (po_detection policy) (po_response policy).
Proof.
  intros Hp. cbv zeta. pose proof (attempt_cases (policy_run h) a) as Hact. rewrite Hp in Hact.
  assert (Hv : exists v, trusted (Files := at_files a) (at_config a) (at_sensor a) v
    /\ check_metadata (at_config a) (vf_policy v) (at_now a) = Ok tt
    /\ ap_policy p = vf_policy v /\ ap_sha256 p = vf_hash v).
  { inversion Hact as [| |? v row _ Htr Hm _ _ _|? v outcome _ Htr _ Hc _ _]; subst; exists v;
      (split; [exact Htr|]); (split; [|done]); [done|]. by apply check_acceptance_Ok in Hc as [? _]. }
  destruct Hv as (v & [Hfile _ [_ Hparse] _ _ Hval _ Hhash] & Hm & -> & ->).
  destruct Hfile as (sig & Hopen & _ & key & Hkey & Hsig).
  apply check_metadata_Ok in Hm as (Hid & Hnb & Hexp & Ht & Hh & Hg).
  exists (vf_bytes v), sig, key. split_and!; try done; lia.
Qed.

(** Activation fails closed. When it returns an error, no policy is
    accepted and the active one stays; a rejection adds one audit row, the
    newest, with the outcome "rejected" and its code, and any other error
    leaves the state exactly as it was. *)
Theorem activation_fails_closed (h : list attempt) (a : attempt) (e : ActivationError) :
  (attempt_activation (policy_run h) a).2 = Err e ->
  let st := policy_run h in
  let st' := policy_run (h ++ [a]) in
  ps_accepted st' = ps_accepted st /\ ps_active st' = ps_active st
  /\ match e with
     | Rejected code => exists row, list.last (ps_audit st') = Some row
         /\ au_id row = ps_sequence st + 1 /\ au_outcome row = "rejected" /\ au_reason row = code
         /\ au_timestamp_ms row = at_now a
     | _ => st' = st
     end.
Proof.
  intros He. cbv zeta. rewrite policy_run_snoc. destruct (policy_run_ok h) as [[_ Hao] _].
  pose proof (attempt_cases (policy_run h) a) as Hact. rewrite He in Hact.
  destruct (attempt_activation (policy_run h) a) as [st' r]. cbn [fst snd] in *.
  inversion Hact as [|? code policy hash Haud| |]; subst; [by split_and!|].
  apply audit_Some in Haud as (E1 & E2 & E3 & Hrow). split_and!; [done..|].
  destruct (Hrow Hao) as (_ & row & ? & Hid & ? & ? & ? & _). exists row. by rewrite <- E3.
Qed.

(** no attempt ever runs into a constraint of the database: with a clock
    and a number of attempts below 2^63, an attempt is accepted or rejected,
    never a database error. *)
Theorem activation_never_conflicts (h : list attempt) (a : attempt) :
  (forall bytes p, toml_policy bytes = Some p -> 0 <= po_version p) ->
  zlen h < i64_max -> at_now a <= i64_max ->
  (attempt_activation (policy_run h) a).2 <> Err StateError.
Proof.
  intros Hu64 Hh Hnow. destruct (policy_run_ok h) as [Hok Hseq].
  apply activate_no_conflict; [done|done|done|lia].
Qed.

(** The active policy is always recoverable: after any history with an
    active version, reading it back passes the hash and settings checks and
    returns the policy of that version; right after an activation it is the
    activated policy itself. *)
Theorem active_policy_recoverable (h : list attempt) (v : Z) :
  ps_active (policy_run h) = Some v ->
  exists policy, load_active_policy (policy_run h) = Ok policy /\ po_version policy = v
    /\ forall h0 a p, h = h0 ++ [a] ->
         (attempt_activation (policy_run h0) a).2 = Ok p -> ap_outcome p <> "restarted" ->
         policy = ap_policy p.
Proof.
  intros Hv. destruct (policy_run_ok h) as [[Hst _] _].
  pose proof (to_active _ Hst) as Ha. rewrite Hv in Ha. destruct Ha as [[row Hrow] _].
  destruct (load_active_ok _ _ _ Hst Hv Hrow) as (policy & Hl & Hver & Hparse).
  exists policy. split_and!; [done|done|]. intros h0 a p -> Hp Hne.
  rewrite policy_run_snoc in *. pose proof (attempt_cases (policy_run h0) a) as Hact.
  rewrite Hp in Hact. destruct (attempt_activation (policy_run h0) a) as [st' r].
  cbn [fst snd] in *.
  inversion Hact as [| |? w row' _ _ _ _ _ _|? w outcome _ [_ _ [_ Hparse'] _ _ _ _ _] _ _ _ Haud];
    subst; [done|]. cbn.
  apply audit_Some in Haud as (E1 & E2 & _). cbn in E1, E2. rewrite E1 in Hrow. rewrite E2 in Hv.
  injection Hv as Hv. rewrite Hv, lookup_insert_eq in Hrow. injection Hrow as <-.
  cbn in Hparse. congruence.
Qed.

(** A rollback restores exactly what was in force before. An accepted
    rollback names an older accepted version of the same policy by its hash,
    its settings are those stored for that version, and its approval was
    never used by any accepted policy before. *)
Theorem rollback_restores_accepted (h : list attempt) (a : attempt) (p : ActivatedPolicy)
    (r : RollbackApproval) :
  (attempt_activation (policy_run h) a).2 = Ok p ->
  po_rollback (ap_policy p) = Some r -> ap_outcome p <> "restarted" ->
  let st := policy_run h in
  exists v source, ps_active st = Some v /\ ro_source_version r < v < po_version (ap_policy p)
    /\ ps_accepted st !! ro_source_version r = Some source
    /\ ar_sha256 source = ro_source_sha256 r
    /\ Some (ar_settings_json source)
       = settings_json (po_detection (ap_policy p)) (po_response (ap_policy p))
    /\ forall w row, ps_accepted st !! w = Some row -> ar_approval_id row <> Some (ro_approval_id r).
Proof.
  intros Hp Hr Hne. cbv zeta. destruct (policy_run_ok h) as [[Hst _] _].
  pose proof (attempt_cases (policy_run h) a) as Hact. rewrite Hp in Hact.
  inversion Hact as [| |? v row _ _ _ _ _ _|? v outcome _ [_ _ _ _ _ _ Hset _] _ Hc _ _]; subst;
    cbn in *; [done|].
  apply check_acceptance_Ok in Hc as [_ [[-> _]|(_ & Hnew & Hrb)]]; [done|].
  rewrite Hr in Hrb. destruct Hrb as [_ Hrb].
  apply check_rollback_Ok in Hrb as (w & row & source & Hw & Hlt & Hsrc & _ & Hsha & Hs & Hun).
  destruct (Hnew _ _ Hw) as [_ Hwv]. apply active_row_Some in Hw as [Hw _].
  exists w, source. split_and!; try done; [by rewrite Hset, Hs|].
  intros x rx Hx Ha. assert (approval_used (policy_run h) (ro_approval_id r) = true); [|congruence].
  apply approval_used_spec. eauto.
Qed.

(** the audit trail is bounded and never loses the recent past: at most
    10,000 rows, in increasing order of ID, all among the last 10,000 IDs. *)
Theorem audit_trail_bounded (h : list attempt) :
  let st := policy_run h in
  zlen (ps_audit st) <= MAX_AUDIT_ROWS
  /\ StronglySorted (fun a b => au_id a < au_id b) (ps_audit st)
  /\ Forall (fun r => ps_sequence st - MAX_AUDIT_ROWS < au_id r <= ps_sequence st) (ps_audit st).
Proof.
  destruct (policy_run_ok h) as [[_ [H1 H2 H3]] _]. split_and!; [|done|done].
  pose proof (sorted_length _ _ _ H1 H2). unfold MAX_AUDIT_ROWS in *. lia.
Qed.

(** what is signed verifies. With a correct signature scheme and hex
    codec, a signature made with a signing key is accepted by its verifying
    key over the same bytes. *)
Theorem sign_then_verify (data secret_hex sig : string) (public : string -> string) :
  (forall x, str_trim (hex_encode x) = hex_encode x) ->
  (forall x, hex_decode (hex_encode x) = Ok x) ->
  (forall sk, slen sk = 32 -> slen (public sk) = 32 /\ key_from_bytes (public sk) = Ok tt) ->
  (forall sk m, slen (key_sign sk m) = 64 /\ key_verify (public sk) m (key_sign sk m) = true) ->
  sign_bytes data secret_hex = Ok sig ->
  exists sk, parse_signing_key secret_hex = Ok sk
    /\ verify_bytes data sig (hex_encode (public sk)) = Ok tt.
Proof.
  intros Htrim Hhex Hpub Hsig Hs. unfold sign_bytes in Hs. apply res_bind_Ok in Hs as (sk & Hsk & Hs).
  injection Hs as <-. exists sk. split; [done|]. destruct (Hsig sk data) as [Hlen Hver].
  assert (Hsklen : slen sk = 32).
  { revert Hsk. unfold parse_signing_key, parse_bytes. destruct (hex_decode _) as [b|]; [|done].
    destruct (Z.eqb_spec (slen b) 32); [|done]. by intros [= ->]. }
  destruct (Hpub sk Hsklen) as [Hplen Hkey].
  unfold verify_bytes, parse_verifying_key, parse_bytes. rewrite !Htrim, !Hhex.
  rewrite Hplen, Z.eqb_refl. cbn. rewrite Hkey. cbn. rewrite Hlen, Z.eqb_refl. cbn. by rewrite Hver.
Qed.

End Results.

(** * Witnesses *)

Definition ok_activation (r : result ActivatedPolicy ActivationError) : ActivatedPolicy :=
  match r with Ok p => p | Err _ => mkActivatedPolicy Policy_default "" "" [] end.

Lemma version_never_replayed_witness :
  let p := ok_activation (sample_activation [sample_attempt "v1" 100] (sample_attempt "v2" 200)).2 in
  po_version (ap_policy p) = 2
  /\ (ap_outcome p = "restarted"
      \/ (forall v, accepted_version (sample_run [sample_attempt "v1" 100]) v -> v < 2)).
Proof.
  intros p. split; [vm_compute; reflexivity|].
  destruct (version_never_replayed (Crypto := sample_crypto) (Std := sample_std)
    [sample_attempt "v1" 100] (sample_attempt "v2" 200) p) as [[Ho _]|[Hv _]];
    [vm_compute; reflexivity|by left|].
  right. intros v Hacc. specialize (Hv v Hacc).
  replace 2 with (po_version (ap_policy p)); [done|]. vm_compute. reflexivity.
Defined.

Lemma high_watermark_monotone_witness :
  ps_active (sample_run [sample_attempt "v1" 100]) = Some 1
  /\ exists v', ps_active (sample_run ([sample_attempt "v1" 100]
       ++ [sample_attempt "v2" 9000; sample_attempt "v2" 200; sample_attempt "v1" 300])) = Some v'
     /\ 1 <= v'.
Proof.
  assert (H1 : ps_active (sample_run [sample_attempt "v1" 100]) = Some 1) by (vm_compute; reflexivity).
  split; [exact H1|].
  apply (high_watermark_monotone (Crypto := sample_crypto) (Std := sample_std) _ _ 1 H1).
Defined.

Lemma activation_requires_trust_witness :
  let p := ok_activation (sample_activation [] (sample_attempt "v1" 100)).2 in
  po_policy_id (ap_policy p) = "fleet"
  /\ exists key, (po_key_id (ap_policy p), key) ∈ pf_trusted_keys sample_config.
Proof.
  intros p.
  destruct (activation_requires_trust (Crypto := sample_crypto) (Std := sample_std) []
    (sample_attempt "v1" 100) p) as (bytes & sig & key & _ & Hk & _ & _ & _ & Hid & _);
    [vm_compute; reflexivity|].
  split; [exact Hid|]. exists key. exact Hk.
Defined.

Lemma activation_fails_closed_witness :
  let st := sample_run [sample_attempt "v2" 100] in
  let st' := sample_run ([sample_attempt "v2" 100] ++ [sample_attempt "v1" 200]) in
  ps_active st' = ps_active st
  /\ exists row, list.last (ps_audit st') = Some row /\ au_reason row = "version_downgrade".
Proof.
  intros st st'.
  destruct (activation_fails_closed (Crypto := sample_crypto) (Std := sample_std)
    [sample_attempt "v2" 100] (sample_attempt "v1" 200) (Rejected "version_downgrade"))
    as (_ & Ha & row & Hl & _ & _ & Hc & _); [vm_compute; reflexivity|].
  split; [exact Ha|]. exists row. split; [exact Hl|exact Hc].
Defined.

Lemma activation_never_conflicts_witness :
  (sample_activation [sample_attempt "v1" 100] (sample_attempt "v2" 200)).2 <> Err StateError.
Proof.
  apply (activation_never_conflicts (Crypto := sample_crypto) (Std := sample_std)
    [sample_attempt "v1" 100] (sample_attempt "v2" 200)).
  - intros bytes p. cbn. repeat destruct (String.eqb _ _); intros [= <-] || intros; simplify_eq; cbn; lia.
  - vm_compute. reflexivity.
  - vm_compute. congruence.
Defined.

Lemma active_policy_recoverable_witness :
  exists policy, load_active_policy (Crypto := sample_crypto)
    (sample_run [sample_attempt "v1" 100; sample_attempt "v2" 200]) = Ok policy
    /\ po_version policy = 2.
Proof.
  destruct (active_policy_recoverable (Crypto := sample_crypto) (Std := sample_std)
    [sample_attempt "v1" 100; sample_attempt "v2" 200] 2) as (policy & Hl & Hv & _);
    [vm_compute; reflexivity|].
  exists policy. split; [exact Hl|exact Hv].
Defined.

Lemma rollback_restores_accepted_witness :
  let h := [sample_attempt "v1" 100; sample_attempt "v2" 200] in
  let p := ok_activation (sample_activation h (sample_attempt "v3" 300)).2 in
  ap_outcome p = "rollback_accepted"
  /\ exists v source, ps_active (sample_run h) = Some v /\ 1 < v < po_version (ap_policy p)
     /\ ps_accepted (sample_run h) !! 1 = Some source.
Proof.
  intros h p. split; [vm_compute; reflexivity|].
  destruct (rollback_restores_accepted (Crypto := sample_crypto) (Std := sample_std) h
    (sample_attempt "v3" 300) p (mkRollbackApproval 1 (pad 64 "1") "CHG-9" "restore"))
    as (v & source & Hv & Hlt & Hs & _);
    [vm_compute; reflexivity..|vm_compute; congruence|].
  exists v, source. split; [exact Hv|]. split; [exact Hlt|exact Hs].
Defined.

Definition plain (c : ascii) : bool := negb (is_space1 c) && Nat.ltb (nat_of_ascii c) 128.

Lemma hex_digits_plain (a : ascii) :
  plain (hex_digit (nat_of_ascii a / 16)) = true /\ plain (hex_digit (nat_of_ascii a mod 16)) = true.
Proof. destruct a as [[] [] [] [] [] [] [] []]; vm_compute; by split. Qed.

Lemma plain_not_space (c : ascii) :
  plain c = true -> is_space1 c = false /\ (forall b, is_space2 c b = false)
                    /\ forall b d, is_space3 c b d = false.
Proof.
  unfold plain. intros Hc. split_bools. apply Nat.ltb_lt in H0.
  split; [done|]. unfold is_space2, is_space3.
  assert (He : forall k, (128 <= k)%nat -> Nat.eqb (nat_of_ascii c) k = false)
    by (intros k Hk; apply Nat.eqb_neq; lia).
  split; intros; rewrite !He by lia; done.
Qed.

Lemma plain_trim (c : ascii) (s : string) :
  plain c = true -> trim_is_empty (String c s) = false /\ trim_start (String c s) = String c s.
Proof.
  intros Hc. destruct (plain_not_space c Hc) as (H1 & H2 & H3).
  destruct s as [|b [|d s]]; cbn [trim_is_empty trim_start]; by rewrite H1, ?H2, ?H3.
Qed.

Lemma trim_end_plain (c : ascii) (s : string) :
  plain c = true -> trim_end (String c s) = String c (trim_end s).
Proof. intros Hc. destruct (plain_trim c s Hc) as [H1 _]. cbn [trim_end]. by rewrite H1. Qed.

Lemma sample_hex_trim (s : string) : str_trim (sample_hex s) = sample_hex s.
Proof.
  unfold str_trim. assert (Hend : forall s, trim_end (sample_hex s) = sample_hex s).
  { clear. induction s as [|a s IH]; [done|]. cbn [sample_hex].
    destruct (hex_digits_plain a). rewrite !trim_end_plain by done. by rewrite IH. }
  destruct s as [|a s]; [done|]. destruct (hex_digits_plain a) as [Ha _].
  cbn [sample_hex]. rewrite (proj2 (plain_trim _ _ Ha)). apply (Hend (String a s)).
Qed.

Lemma sample_unhex_hex (s : string) : sample_unhex (sample_hex s) = Ok s.
Proof.
  induction s as [|a s IH]; [done|]. cbn [sample_hex sample_unhex]. rewrite IH. cbn [res_bind].
  do 2 f_equal. destruct a as [[] [] [] [] [] [] [] []]; vm_compute; reflexivity.
Qed.

Lemma pad64_length (s : string) : slen (pad 64 s) = 64.
Proof.
  unfold slen, pad. rewrite substring_length; [done|].
  change (s +:+ zeros64) with (String.append s zeros64). rewrite string_length_app. cbn. lia.
Qed.

Lemma sign_then_verify_witness :
  let sig := sample_hex (pad 64 (pad 32 "key-1" +:+ "v1")) in
  exists sk, parse_signing_key (Crypto := sample_crypto) sample_key = Ok sk
    /\ verify_bytes (Crypto := sample_crypto) "v1" sig (sample_hex sk) = Ok tt.
Proof.
  intros sig.
  apply (sign_then_verify (Crypto := sample_crypto) "v1" sample_key sig (fun sk => sk)).
  - apply sample_hex_trim.
  - apply sample_unhex_hex.
  - intros sk Hsk. by split.
  - intros sk m. split; [apply pad64_length|apply String.eqb_refl].
  - vm_compute. reflexivity.
Defined.
