(* ===== verification/Receipts.v ===== *)
(** The receipts of the vault (crates/argos-vault/src/lib.rs): identifiers, hashes
    and kinds, the signed receipt of a stored object and its checks, and
    signed JSON values (sign_value and verify_value of bundle.rs). *)
From Stdlib Require Import ZArith Lia Ascii.
From stdpp Require Import base gmap strings list.
From S2P Require Import Prelude RustPath.
#[local] Open Scope Z_scope.

(** * Receipts *)

Definition MAX_OBJECT_BYTES : Z := 64 * 1024 * 1024.
Definition MAX_RECEIPT_BYTES : Z := 16 * 1024.
Definition FORMAT : string := "argos-vault-receipt-v1".

Record Receipt := mkReceipt {
  re_format : string;
  re_key_id : string;
  re_agent_id : string;
  re_kind : string;
  re_sha256 : string;
  re_size_bytes : Z;
  re_received_at_ms : Z;
  re_retention_until_ms : Z;
}.

Record SignedReceipt := mkSignedReceipt {
  sr_receipt : Receipt;
  sr_signature_hex : string;
}.

Definition is_digit (c : ascii) : bool :=
  let n := nat_of_ascii c in Nat.leb 48 n && Nat.leb n 57.
Definition is_alnum (c : ascii) : bool :=
  let n := nat_of_ascii c in
  is_digit c || (Nat.leb 65 n && Nat.leb n 90) || (Nat.leb 97 n && Nat.leb n 122).

Definition valid_id (value : string) : bool :=
  negb (String.eqb value "") && (slen value <=? 128)
  && str_all (fun c => is_alnum c || Ascii.eqb c "_" || Ascii.eqb c "-") value.
Definition valid_hash (value : string) : bool :=
  (slen value =? 64)
  && str_all (fun c => let n := nat_of_ascii c in is_digit c || (Nat.leb 97 n && Nat.leb n 102)) value.
Definition valid_kind (value : string) : bool :=
  str_mem value ["evidence"; "backup"; "audit"; "bundle-manifest"; "bundle-completion"; "bundle-review"].

Definition ends_with (suffix s : string) : bool :=
  let n := (String.length s - String.length suffix)%nat in
  Nat.leb (String.length suffix) (String.length s)
  && String.eqb (String.substring n (String.length suffix) s) suffix.
Definition strip_suffix (suffix s : string) : option string :=
  if ends_with suffix s
  then Some (String.substring 0 (String.length s - String.length suffix) s) else None.

(** The crates [ed25519-dalek], [hex], [sha2] and [serde_json]: hashing, the
    signature of a receipt and its check under a pinned key; [public_key_ok] is
    whether [public_key] parses a key. [key_sign] is the hex signature of the
    server's key and [key_verifies] decodes a key and a signature and verifies. *)
Class VaultCrypto := {
  body_sha256 : string -> string;
  receipt_signature : Receipt -> string;
  receipt_signed : string -> SignedReceipt -> bool;
  receipt_json_len : SignedReceipt -> Z;
  public_key_ok : string -> bool;
  key_sign : string -> string;
  key_verifies : string -> string -> string -> bool;
}.

Section Receipts.
Context `{VaultCrypto}.

Definition verify_receipt (r : SignedReceipt) (pinned_pubkey : string) : bool :=
  let value := sr_receipt r in
  String.eqb (re_format value) FORMAT
  && valid_id (re_key_id value) && valid_id (re_agent_id value)
  && valid_kind (re_kind value) && valid_hash (re_sha256 value)
  && (re_size_bytes value <=? MAX_OBJECT_BYTES)
  && (re_received_at_ms value <? re_retention_until_ms value)
  && receipt_signed pinned_pubkey r.

Definition verify_body (bytes : string) (r : SignedReceipt) : bool :=
  (re_size_bytes (sr_receipt r) =? slen bytes)
  && String.eqb (re_sha256 (sr_receipt r)) (body_sha256 bytes).

End Receipts.

(** The traits of serde_json the signed values use. *)
Class Serialize (A : Type) := to_json : A -> string.
Class Deserialize (A : Type) := of_json : string -> option A.
Class JsonRoundtrip (A : Type) `{Serialize A, Deserialize A} : Prop :=
  of_to_json : forall x : A, of_json (to_json x) = Some x.

Lemma roundtrip_inj {A} `{JsonRoundtrip A} : Inj (=) (=) (to_json (A := A)).
Proof. intros x y E. pose proof (of_to_json x) as Hx. rewrite E, of_to_json in Hx. by injection Hx. Qed.

Record Signed (A : Type) := mkSigned {
  si_value : A;
  si_signature_hex : string;
}.
Arguments mkSigned {A}.
Arguments si_value {A}.
Arguments si_signature_hex {A}.

#[global] Instance Signed_eq_dec {A} `{EqDecision A} : EqDecision (Signed A).
Proof. solve_decision. Defined.

Definition sign_value `{VaultCrypto} {A} `{Serialize A} (value : A) : Signed A :=
  mkSigned value (key_sign (to_json value)).
Definition verify_value `{VaultCrypto} {A} `{Serialize A} (value : Signed A) (key : string) : bool :=
  key_verifies key (to_json (si_value value)) (si_signature_hex value).

(** A key checks what it signed. *)
Class SignerLaw `{VaultCrypto} (key : string) : Prop :=
  key_verifies_sign : forall b, key_verifies key b (key_sign b) = true.

Lemma verify_sign_value `{VaultCrypto} {A} `{Serialize A} (key : string) `{!SignerLaw key} (value : A) :
  verify_value (sign_value value) key = true.
Proof. apply key_verifies_sign. Qed.
