(* ===== verification/Bundle.v ===== *)
(** Recovery bundles (crates/argos-vault/src/bundle.rs): manifests with their
    chunks, the signed completion and the hash-linked chain of reviews, the
    verification of a record by whoever holds the pinned key, and the identity
    of control objects. *)
From Stdlib Require Import ZArith Lia Ascii.
From stdpp Require Import base gmap strings list.
From S2P Require Import Prelude RustPath Receipts.
#[local] Open Scope Z_scope.

(** * Data *)

Definition CHUNK_BYTES : Z := 16 * 1024 * 1024.
Definition MAX_BUNDLE_BYTES : Z := 1024 * 1024 * 1024.
Definition MAX_MANIFEST_BYTES : Z := 256 * 1024.
Definition MAX_REVIEWS : Z := 100.

(** [review_history] is a [serde_json::Value], kept as its text. *)
Record BundleMetadata := mkBundleMetadata {
  bm_original_path : string;
  bm_version : option Z;
  bm_review_history : string;
  bm_recovery_plan : option string;
}.

Record Chunk := mkChunk {
  ch_sha256 : string;
  ch_size_bytes : Z;
}.

Record BundleManifest := mkBundleManifest {
  mf_format : string;
  mf_bundle_id : string;
  mf_created_at_ms : Z;
  mf_metadata : BundleMetadata;
  mf_sha256 : string;
  mf_size_bytes : Z;
  mf_chunks : list Chunk;
}.

Inductive ReviewDecision : Set := Good | Revoked.

Record ReviewRequest := mkReviewRequest {
  rq_request_id : string;
  rq_decision : ReviewDecision;
  rq_actor : string;
  rq_reason : string;
}.

Record Completion := mkCompletion {
  co_format : string;
  co_key_id : string;
  co_agent_id : string;
  co_bundle_id : string;
  co_manifest_sha256 : string;
  co_sha256 : string;
  co_size_bytes : Z;
  co_completed_at_ms : Z;
}.

Record ReviewEvent := mkReviewEvent {
  ev_format : string;
  ev_key_id : string;
  ev_agent_id : string;
  ev_bundle_id : string;
  ev_manifest_sha256 : string;
  ev_completion_sha256 : string;
  ev_sequence : Z;
  ev_previous_sha256 : option string;
  ev_reviewed_at_ms : Z;
  ev_request : ReviewRequest;
}.

Record BundleRecord := mkBundleRecord {
  bd_agent_id : string;
  bd_manifest : BundleManifest;
  bd_manifest_receipt : SignedReceipt;
  bd_completion : option (Signed Completion);
  bd_reviews : list (Signed ReviewEvent);
  bd_current_review : string;
  bd_recommended : bool;
}.

#[global] Instance ReviewDecision_eq_dec : EqDecision ReviewDecision.
Proof. solve_decision. Defined.
#[global] Instance ReviewRequest_eq_dec : EqDecision ReviewRequest.
Proof. solve_decision. Defined.
#[global] Instance Completion_eq_dec : EqDecision Completion.
Proof. solve_decision. Defined.
#[global] Instance ReviewEvent_eq_dec : EqDecision ReviewEvent.
Proof. solve_decision. Defined.
#[global] Instance BundleMetadata_eq_dec : EqDecision BundleMetadata.
Proof. solve_decision. Defined.
#[global] Instance Chunk_eq_dec : EqDecision Chunk.
Proof. solve_decision. Defined.
#[global] Instance BundleManifest_eq_dec : EqDecision BundleManifest.
Proof. solve_decision. Defined.

(** serde_json on the values of a bundle. *)
Class BundleJson := {
  manifest_ser :: Serialize BundleManifest;
  manifest_de :: Deserialize BundleManifest;
  completion_ser :: Serialize Completion;
  signed_completion_ser :: Serialize (Signed Completion);
  signed_completion_de :: Deserialize (Signed Completion);
  event_ser :: Serialize ReviewEvent;
  signed_event_ser :: Serialize (Signed ReviewEvent);
  signed_event_de :: Deserialize (Signed ReviewEvent);
}.

(** * Checks *)

Definition is_lower_hex (c : ascii) : bool :=
  let n := nat_of_ascii c in is_digit c || (Nat.leb 97 n && Nat.leb n 102).

Definition valid_bundle_id (value : string) : bool :=
  (slen value =? 32) && str_all is_lower_hex value.

Definition validate_review (request : ReviewRequest) : result unit string :=
  guard (negb (valid_id (rq_request_id request))
         || trim_is_empty (rq_actor request) || (256 <? slen (rq_actor request))
         || trim_is_empty (rq_reason request) || (4096 <? slen (rq_reason request)))
    "검토 요청 ID/담당자/근거 오류".

Definition review_state (decision : ReviewDecision) : string :=
  match decision with Good => "good" | Revoked => "revoked" end.

Section Checks.
Context `{Crypto : VaultCrypto} `{Json : BundleJson}.

Definition bad_shape (manifest : BundleManifest) : bool :=
  negb (String.eqb (mf_format manifest) "argos-recovery-bundle-v1")
  || negb (valid_bundle_id (mf_bundle_id manifest))
  || negb (valid_hash (mf_sha256 manifest))
  || (mf_size_bytes manifest =? 0) || (MAX_BUNDLE_BYTES <? mf_size_bytes manifest)
  || String.eqb (bm_original_path (mf_metadata manifest)) ""
  || (4096 <? slen (bm_original_path (mf_metadata manifest)))
  || negb (is_absolute (bm_original_path (mf_metadata manifest)))
  || is_some_and (bm_recovery_plan (mf_metadata manifest)) (fun p => 65536 <? slen p)
  || (zlen (mf_chunks manifest) =? 0) || (64 <? zlen (mf_chunks manifest))
  || (MAX_MANIFEST_BYTES <? slen (to_json manifest)).

(** The loop over the chunks: [i] is the index, [total] the sum so far. *)
Fixpoint sum_chunks (count i total : Z) (chunks : list Chunk) : result Z string :=
  match chunks with
  | [] => Ok total
  | chunk :: rest =>
      let? _ := guard (negb (valid_hash (ch_sha256 chunk)) || (ch_size_bytes chunk =? 0)
                       || (CHUNK_BYTES <? ch_size_bytes chunk)
                       || ((i + 1 <? count) && negb (ch_size_bytes chunk =? CHUNK_BYTES)))
                  "번들 청크 크기/해시 오류" in
      let? total := ok_or (checked_add total (ch_size_bytes chunk)) "번들 크기 초과" in
      sum_chunks count (i + 1) total rest
  end.

Definition validate (manifest : BundleManifest) : result unit string :=
  let? _ := guard (bad_shape manifest) "복구 번들 형식/크기/원본 경로 오류" in
  let? total := sum_chunks (zlen (mf_chunks manifest)) 0 0 (mf_chunks manifest) in
  guard (negb (total =? mf_size_bytes manifest)) "번들 전체 크기 불일치".

(** * Records *)

Definition completion_mismatch (record : BundleRecord) (key_id manifest_hash : string)
    (c : Completion) : bool :=
  negb (String.eqb (co_format c) "argos-bundle-completion-v1")
  || negb (String.eqb (co_key_id c) key_id)
  || negb (String.eqb (co_agent_id c) (bd_agent_id record))
  || negb (String.eqb (co_bundle_id c) (mf_bundle_id (bd_manifest record)))
  || negb (String.eqb (co_manifest_sha256 c) manifest_hash)
  || negb (String.eqb (co_sha256 c) (mf_sha256 (bd_manifest record)))
  || negb (co_size_bytes c =? mf_size_bytes (bd_manifest record)).

Definition event_mismatch (record : BundleRecord) (key_id manifest_hash completion_hash : string)
    (i : Z) (previous : option string) (e : ReviewEvent) : bool :=
  negb (String.eqb (ev_format e) "argos-bundle-review-v1")
  || negb (String.eqb (ev_key_id e) key_id)
  || negb (String.eqb (ev_agent_id e) (bd_agent_id record))
  || negb (String.eqb (ev_bundle_id e) (mf_bundle_id (bd_manifest record)))
  || negb (String.eqb (ev_manifest_sha256 e) manifest_hash)
  || negb (String.eqb (ev_completion_sha256 e) completion_hash)
  || negb (ev_sequence e =? i + 1)
  || negb (bool_decide (ev_previous_sha256 e = previous)).

(** The loop over the reviews: the state after them. *)
Fixpoint verify_reviews (record : BundleRecord) (key key_id manifest_hash completion_hash : string)
    (i : Z) (previous : option string) (state : string) (events : list (Signed ReviewEvent))
    : result string string :=
  match events with
  | [] => Ok state
  | event :: rest =>
      let? _ := guard (negb (verify_value event key)) "signature" in
      let e := si_value event in
      let? _ := validate_review (ev_request e) in
      let? _ := guard (event_mismatch record key_id manifest_hash completion_hash i previous e)
                  "번들 검토 이력 결합/순서 오류" in
      verify_reviews record key key_id manifest_hash completion_hash (i + 1)
        (Some (body_sha256 (to_json event))) (review_state (rq_decision (ev_request e))) rest
  end.

Definition receipt_mismatch (record : BundleRecord) (key_id manifest_bytes : string) : bool :=
  let r := sr_receipt (bd_manifest_receipt record) in
  negb (String.eqb (re_agent_id r) (bd_agent_id record))
  || negb (String.eqb (re_sha256 r) (body_sha256 manifest_bytes))
  || negb (String.eqb (re_key_id r) key_id)
  || negb (String.eqb (re_kind r) "bundle-manifest")
  || negb (re_size_bytes r =? slen manifest_bytes).

Definition verify_record (record : BundleRecord) (key key_id : string) : result unit string :=
  let? _ := validate (bd_manifest record) in
  let? _ := guard (negb (valid_id (bd_agent_id record)) || (MAX_REVIEWS <? zlen (bd_reviews record)))
              "번들 범위/검토 상한 오류" in
  let manifest_bytes := to_json (bd_manifest record) in
  let manifest_hash := body_sha256 manifest_bytes in
  let? _ := guard (negb (verify_receipt (bd_manifest_receipt record) key))
              "수신증명 필드/형식이 유효하지 않습니다" in
  let? _ := guard (receipt_mismatch record key_id manifest_bytes) "번들 manifest 수신증명 불일치" in
  let? state :=
    match bd_completion record with
    | Some completion =>
        let? _ := guard (negb (verify_value completion key)) "signature" in
        let? _ := guard (completion_mismatch record key_id manifest_hash (si_value completion))
                    "번들 완료 증명 불일치" in
        verify_reviews record key key_id manifest_hash (body_sha256 (to_json completion)) 0 None
          "unknown" (bd_reviews record)
    | None =>
        let? _ := guard (negb (zlen (bd_reviews record) =? 0))
                    "미완료 번들의 정상 판정은 허용하지 않습니다" in
        Ok "unknown"
    end in
  guard (negb (String.eqb (bd_current_review record) state)
         || negb (Bool.eqb (bd_recommended record)
                    (String.eqb state "good" && is_some (bd_completion record))))
    "번들 추천/정상 판정 상태 불일치".

(** * Control objects *)

Definition completion_identity_bad (agent key_id : string) (c : Completion) : bool :=
  negb (String.eqb (co_format c) "argos-bundle-completion-v1")
  || negb (String.eqb (co_agent_id c) agent) || negb (String.eqb (co_key_id c) key_id)
  || negb (valid_bundle_id (co_bundle_id c)) || negb (valid_hash (co_manifest_sha256 c))
  || negb (valid_hash (co_sha256 c)) || (co_size_bytes c =? 0)
  || (MAX_BUNDLE_BYTES <? co_size_bytes c).

Definition review_identity_bad (agent key_id : string) (r : ReviewEvent) : bool :=
  negb (String.eqb (ev_format r) "argos-bundle-review-v1")
  || negb (String.eqb (ev_agent_id r) agent) || negb (String.eqb (ev_key_id r) key_id)
  || negb (valid_bundle_id (ev_bundle_id r)) || negb (valid_hash (ev_manifest_sha256 r))
  || negb (valid_hash (ev_completion_sha256 r)) || (ev_sequence r =? 0)
  || (MAX_REVIEWS <? ev_sequence r)
  || is_some_and (ev_previous_sha256 r) (fun h => negb (valid_hash h)).

(** The bundle a control object belongs to, and whether it revokes it. *)
Definition control_identity (kind bytes agent key_id key : string) : result (string * bool) string :=
  if String.eqb kind "bundle-manifest" then
    let? manifest := ok_or (of_json (A := BundleManifest) bytes) "json" in
    let? _ := validate manifest in
    Ok (mf_bundle_id manifest, false)
  else if String.eqb kind "bundle-completion" then
    let? signed := ok_or (of_json (A := Signed Completion) bytes) "json" in
    let? _ := guard (negb (verify_value signed key)) "signature" in
    let c := si_value signed in
    let? _ := guard (completion_identity_bad agent key_id c) "완료 제어 객체 신원 오류" in
    Ok (co_bundle_id c, false)
  else if String.eqb kind "bundle-review" then
    let? signed := ok_or (of_json (A := Signed ReviewEvent) bytes) "json" in
    let? _ := guard (negb (verify_value signed key)) "signature" in
    let r := si_value signed in
    let? _ := validate_review (ev_request r) in
    let? _ := guard (review_identity_bad agent key_id r) "검토 제어 객체 신원 오류" in
    Ok (ev_bundle_id r, bool_decide (rq_decision (ev_request r) = Revoked))
  else Err "알 수 없는 번들 제어 객체".

End Checks.

(** * Manifests *)

(** The widths of the fields. *)
Definition manifest_typed (m : BundleManifest) : Prop :=
  in_u64 (mf_size_bytes m) /\ Forall (fun c => in_u64 (ch_size_bytes c)) (mf_chunks m).

(** The chunks cut a body of [size] bytes every [CHUNK_BYTES] bytes, from chunk [i] on. *)
Definition cuts (i size : Z) (chunks : list Chunk) : Prop :=
  forall k c, chunks !! k = Some c ->
    valid_hash (ch_sha256 c) = true
    /\ ch_size_bytes c = Z.min CHUNK_BYTES (size - (i + Z.of_nat k) * CHUNK_BYTES)
    /\ 0 < ch_size_bytes c.

Lemma cuts_cons (i size : Z) (c : Chunk) (chunks : list Chunk) :
  cuts i size (c :: chunks) <->
  (valid_hash (ch_sha256 c) = true /\ ch_size_bytes c = Z.min CHUNK_BYTES (size - i * CHUNK_BYTES)
   /\ 0 < ch_size_bytes c) /\ cuts (i + 1) size chunks.
Proof.
  split.
  - intros H. split; [by destruct (H 0%nat c eq_refl) as (? & -> & ?); rewrite Z.add_0_r in *|].
    intros k d Hd. destruct (H (S k) d Hd) as (? & -> & ?).
    replace (i + 1 + Z.of_nat k) with (i + Z.of_nat (S k)) in * by lia. done.
  - intros [H0 H] [|k] d Hd.
    + injection Hd as <-. by rewrite Z.add_0_r.
    + destruct (H k d Hd) as (? & -> & ?).
      replace (i + Z.of_nat (S k)) with (i + 1 + Z.of_nat k) in * by lia. done.
Qed.

(** The sum of a nonempty rest of the chunks that stays within a size is that
    size exactly when the chunks cut it. *)
Lemma sum_chunks_cuts (chunks : list Chunk) (size : Z) : forall i,
  0 <= i -> i + zlen chunks <= 64 -> chunks <> [] ->
  Forall (fun c => in_u64 (ch_size_bytes c)) chunks ->
  sum_chunks (i + zlen chunks) i (i * CHUNK_BYTES) chunks = Ok size
  <-> cuts i size chunks /\ (i + zlen chunks - 1) * CHUNK_BYTES < size <= (i + zlen chunks) * CHUNK_BYTES.
Proof.
  induction chunks as [|c chunks IH]; intros i Hi Hlen Hne Htyped; [done|].
  apply Forall_cons in Htyped as [Hc Htyped]. rewrite cuts_cons, zlen_cons in *.
  cbn [sum_chunks]. rewrite guard_bind_Ok, ok_or_bind_Ok.
  rewrite !orb_false_iff, negb_false_iff, Z.eqb_neq, Z.ltb_ge.
  unfold in_u64, u64_max in *. pose proof (zlen_nonneg chunks).
  destruct chunks as [|c' chunks].
  - change (zlen (@nil Chunk)) with 0 in *. cbn [sum_chunks].
    rewrite andb_false_iff, Z.ltb_ge.
    split.
    + intros ((((Hh & H0) & H1) & _) & t & Ht%checked_add_Some & [= <-]).
      unfold CHUNK_BYTES in *. split; [split; [split; [done|]; lia|]|lia].
      intros k d Hd. by rewrite lookup_nil in Hd.
    + intros (((Hh & Hs & Hp) & _) & Hr). split; [split; [|left; lia]; split; [split; [done|lia]|lia]|].
      exists size. split; [apply checked_add_Some|done]. unfold CHUNK_BYTES, u64_max in *. lia.
  - set (n := zlen (c' :: chunks)) in *.
    assert (Hn : 1 <= n) by (unfold n; rewrite zlen_cons; pose proof (zlen_nonneg chunks); lia).
    specialize (IH (i + 1) ltac:(lia) ltac:(lia) ltac:(done) Htyped).
    replace (i + (1 + n)) with (i + 1 + n) in * by lia.
    rewrite andb_false_iff, Z.ltb_ge, negb_false_iff, Z.eqb_eq. split.
    + intros ((((Hh & H0) & H1) & Hfull) & t & Ht%checked_add_Some & Hs).
      destruct Hfull as [|Hfull]; [lia|].
      replace t with ((i + 1) * CHUNK_BYTES) in Hs by (unfold CHUNK_BYTES in *; lia).
      apply IH in Hs as [Hcuts Hr]. split; [split; [|done]|lia].
      split; [done|]. unfold CHUNK_BYTES in *. nia.
    + intros (((Hh & Hs & Hp) & Hcuts) & Hr).
      assert (ch_size_bytes c = CHUNK_BYTES) as Hfull by (unfold CHUNK_BYTES in *; nia).
      split; [split; [split; [split; [done|lia]|lia]|by right]|].
      exists ((i + 1) * CHUNK_BYTES). split; [apply checked_add_Some; unfold CHUNK_BYTES, u64_max in *; lia|].
      apply IH. split; [done|lia].
Qed.

Section ValidateProofs.
Context `{Crypto : VaultCrypto} `{Json : BundleJson}.

(** What a manifest promises. *)
Record manifest_valid (m : BundleManifest) : Prop := {
  mv_format : mf_format m = "argos-recovery-bundle-v1";
  mv_id : valid_bundle_id (mf_bundle_id m) = true;
  mv_hash : valid_hash (mf_sha256 m) = true;
  mv_size : 0 < mf_size_bytes m <= MAX_BUNDLE_BYTES;
  mv_path : bm_original_path (mf_metadata m) <> "" /\ slen (bm_original_path (mf_metadata m)) <= 4096
            /\ is_absolute (bm_original_path (mf_metadata m)) = true;
  mv_plan : forall p, bm_recovery_plan (mf_metadata m) = Some p -> slen p <= 65536;
  mv_json : slen (to_json m) <= MAX_MANIFEST_BYTES;
  mv_count : zlen (mf_chunks m) = (mf_size_bytes m + CHUNK_BYTES - 1) / CHUNK_BYTES;
  mv_cuts : cuts 0 (mf_size_bytes m) (mf_chunks m);
}.

Lemma bad_shape_false (m : BundleManifest) :
  bad_shape m = false <->
  mf_format m = "argos-recovery-bundle-v1" /\ valid_bundle_id (mf_bundle_id m) = true
  /\ valid_hash (mf_sha256 m) = true /\ mf_size_bytes m <> 0 /\ mf_size_bytes m <= MAX_BUNDLE_BYTES
  /\ bm_original_path (mf_metadata m) <> "" /\ slen (bm_original_path (mf_metadata m)) <= 4096
  /\ is_absolute (bm_original_path (mf_metadata m)) = true
  /\ (forall p, bm_recovery_plan (mf_metadata m) = Some p -> slen p <= 65536)
  /\ zlen (mf_chunks m) <> 0 /\ zlen (mf_chunks m) <= 64 /\ slen (to_json m) <= MAX_MANIFEST_BYTES.
Proof.
  unfold bad_shape. rewrite !orb_false_iff, !negb_false_iff, !Z.eqb_neq, !Z.ltb_ge, !String.eqb_eq.
  rewrite (String.eqb_neq _ ""). destruct (bm_recovery_plan _) as [p|]; cbn [is_some_and].
  - rewrite Z.ltb_ge. split; intros; destruct_and!; split_and!; try done.
    + by intros q [= <-].
    + match goal with H : forall q, _ |- _ => by apply H end.
  - split; intros; destruct_and!; by split_and!.
Qed.

Lemma ceil_div (size n : Z) :
  (n - 1) * CHUNK_BYTES < size <= n * CHUNK_BYTES <-> n = (size + CHUNK_BYTES - 1) / CHUNK_BYTES.
Proof.
  unfold CHUNK_BYTES. split.
  - intros H. apply (Z.div_unique_pos _ _ _ (size + 16777216 - 1 - n * 16777216)); lia.
  - intros ->. pose proof (Z.div_mod (size + 16 * 1024 * 1024 - 1) (16 * 1024 * 1024) ltac:(lia)).
    pose proof (Z.mod_pos_bound (size + 16 * 1024 * 1024 - 1) (16 * 1024 * 1024) ltac:(lia)). lia.
Qed.

Lemma validate_iff (m : BundleManifest) : manifest_typed m -> validate m = Ok tt <-> manifest_valid m.
Proof.
  intros [Hsize Htyped]. unfold validate. rewrite guard_bind_Ok, res_bind_Ok, bad_shape_false.
  assert (Hsum : forall t, zlen (mf_chunks m) <> 0 -> zlen (mf_chunks m) <= 64 ->
    sum_chunks (zlen (mf_chunks m)) 0 0 (mf_chunks m) = Ok t
    <-> cuts 0 t (mf_chunks m) /\ zlen (mf_chunks m) = (t + CHUNK_BYTES - 1) / CHUNK_BYTES).
  { intros t H0 H64. rewrite <- ceil_div.
    apply (sum_chunks_cuts (mf_chunks m) t 0); [lia|lia|by intros E; rewrite E in H0|done]. }
  split.
  - intros (Hs & t & Ht & Hg%guard_Ok). destruct_and!. apply negb_false_iff, Z.eqb_eq in Hg as ->.
    apply Hsum in Ht as [Hcuts Hcount]; [|done|done]. unfold in_u64 in *. split; try done; lia.
  - intros [H1 H2 H3 H4 (H5 & H6 & H7) H8 H9 H10 H11].
    assert (1 <= zlen (mf_chunks m) <= 64).
    { apply ceil_div in H10. unfold MAX_BUNDLE_BYTES, CHUNK_BYTES in *. lia. }
    split; [split_and!; try done; lia|]. exists (mf_size_bytes m).
    split; [apply Hsum; [lia|lia|done]|]. apply guard_Ok. by rewrite Z.eqb_refl.
Qed.

(** * Records *)

(** The hash a review has to name as the one before it. *)
Definition previous_hash (reviews : list (Signed ReviewEvent)) (i : nat) : option string :=
  match i with
  | O => None
  | S j => (fun e => body_sha256 (to_json e)) <$> reviews !! j
  end.

(** The state after the reviews. *)
Definition reviewed_state (reviews : list (Signed ReviewEvent)) : string :=
  match list.last reviews with
  | Some e => review_state (rq_decision (ev_request (si_value e)))
  | None => "unknown"
  end.

Record completion_valid (r : BundleRecord) (key key_id : string) (c : Signed Completion) : Prop := {
  cv_signed : verify_value c key = true;
  cv_format : co_format (si_value c) = "argos-bundle-completion-v1";
  cv_key_id : co_key_id (si_value c) = key_id;
  cv_agent : co_agent_id (si_value c) = bd_agent_id r;
  cv_bundle : co_bundle_id (si_value c) = mf_bundle_id (bd_manifest r);
  cv_manifest : co_manifest_sha256 (si_value c) = body_sha256 (to_json (bd_manifest r));
  cv_sha256 : co_sha256 (si_value c) = mf_sha256 (bd_manifest r);
  cv_size : co_size_bytes (si_value c) = mf_size_bytes (bd_manifest r);
}.

Record event_valid (r : BundleRecord) (key key_id completion_hash : string) (i : Z)
    (previous : option string) (e : Signed ReviewEvent) : Prop := {
  vv_signed : verify_value e key = true;
  vv_request : validate_review (ev_request (si_value e)) = Ok tt;
  vv_format : ev_format (si_value e) = "argos-bundle-review-v1";
  vv_key_id : ev_key_id (si_value e) = key_id;
  vv_agent : ev_agent_id (si_value e) = bd_agent_id r;
  vv_bundle : ev_bundle_id (si_value e) = mf_bundle_id (bd_manifest r);
  vv_manifest : ev_manifest_sha256 (si_value e) = body_sha256 (to_json (bd_manifest r));
  vv_completion : ev_completion_sha256 (si_value e) = completion_hash;
  vv_sequence : ev_sequence (si_value e) = i + 1;
  vv_previous : ev_previous_sha256 (si_value e) = previous;
}.

Definition chain_valid (r : BundleRecord) (key key_id completion_hash : string)
    (reviews : list (Signed ReviewEvent)) : Prop :=
  forall i e, reviews !! i = Some e ->
    event_valid r key key_id completion_hash (Z.of_nat i) (previous_hash reviews i) e.

Record record_valid (r : BundleRecord) (key key_id : string) : Prop := {
  rv_manifest : validate (bd_manifest r) = Ok tt;
  rv_agent : valid_id (bd_agent_id r) = true;
  rv_receipt : verify_receipt (bd_manifest_receipt r) key = true;
  rv_receipt_of : receipt_mismatch r key_id (to_json (bd_manifest r)) = false;
  rv_bound : zlen (bd_reviews r) <= MAX_REVIEWS;
  rv_complete : forall c, bd_completion r = Some c -> completion_valid r key key_id c
                  /\ chain_valid r key key_id (body_sha256 (to_json c)) (bd_reviews r);
  rv_incomplete : bd_completion r = None -> bd_reviews r = [];
  rv_state : bd_current_review r = reviewed_state (bd_reviews r);
  rv_recommended : bd_recommended r = true <->
    is_Some (bd_completion r) /\ reviewed_state (bd_reviews r) = "good";
}.

Lemma completion_mismatch_false (r : BundleRecord) (key key_id : string) (c : Signed Completion) :
  verify_value c key = true /\ completion_mismatch r key_id (body_sha256 (to_json (bd_manifest r)))
    (si_value c) = false <-> completion_valid r key key_id c.
Proof.
  unfold completion_mismatch. rewrite !orb_false_iff, !negb_false_iff, !String.eqb_eq, Z.eqb_eq.
  split; [intros; destruct_and!; by split|intros []; by split_and!].
Qed.

Lemma event_mismatch_false (r : BundleRecord) (key key_id ch : string) (i : Z) (p : option string)
    (e : Signed ReviewEvent) :
  verify_value e key = true /\ validate_review (ev_request (si_value e)) = Ok tt
  /\ event_mismatch r key_id (body_sha256 (to_json (bd_manifest r))) ch i p (si_value e) = false
  <-> event_valid r key key_id ch i p e.
Proof.
  unfold event_mismatch.
  rewrite !orb_false_iff, !negb_false_iff, !String.eqb_eq, Z.eqb_eq, bool_decide_eq_true.
  split; [intros; destruct_and!; by split|intros []; by split_and!].
Qed.

Lemma reviewed_state_snoc (pre : list (Signed ReviewEvent)) (e : Signed ReviewEvent) :
  reviewed_state (pre ++ [e]) = review_state (rq_decision (ev_request (si_value e))).
Proof. unfold reviewed_state. by rewrite list.last_snoc. Qed.

Lemma previous_hash_app (pre rest : list (Signed ReviewEvent)) (i : nat) :
  (i <= length pre)%nat -> previous_hash (pre ++ rest) i = previous_hash pre i.
Proof. destruct i as [|i]; [done|]. intros H. cbn. by rewrite lookup_app_l by lia. Qed.

Lemma verify_reviews_iff (r : BundleRecord) (key key_id ch s : string)
    (rest : list (Signed ReviewEvent)) : forall pre,
  verify_reviews r key key_id (body_sha256 (to_json (bd_manifest r))) ch (zlen pre)
    (previous_hash pre (length pre)) (reviewed_state pre) rest = Ok s
  <-> (forall k e, rest !! k = Some e ->
        event_valid r key key_id ch (Z.of_nat (length pre + k))
          (previous_hash (pre ++ rest) (length pre + k)) e)
      /\ s = reviewed_state (pre ++ rest).
Proof.
  induction rest as [|e rest IH]; intros pre; cbn [verify_reviews].
  { rewrite app_nil_r. split.
    - intros [= <-]. split; [|done]. intros k e. by rewrite lookup_nil.
    - intros [_ ->]. done. }
  assert (Hnext : Some (body_sha256 (to_json e)) = previous_hash (pre ++ [e]) (length (pre ++ [e]))).
  { rewrite length_app, Nat.add_comm. cbn. by rewrite lookup_app_r, Nat.sub_diag by lia. }
  rewrite Hnext, <- (reviewed_state_snoc pre).
  replace (zlen pre + 1) with (zlen (pre ++ [e])) by (rewrite zlen_app, zlen_cons, zlen_nil; lia).
  rewrite guard_bind_Ok, res_bind_Ok. setoid_rewrite guard_bind_Ok.
  setoid_rewrite (IH (pre ++ [e])). rewrite <- (app_assoc pre). cbn [app].
  rewrite length_app. cbn [length].
  assert (Hhead : previous_hash (pre ++ e :: rest) (length pre + 0) = previous_hash pre (length pre))
    by (rewrite Nat.add_0_r; apply previous_hash_app; lia).
  split.
  - intros (Hsig%negb_false_iff & [] & Hreq & Hm & Hall & ->). split; [|done].
    intros [|k] x Hx.
    + injection Hx as <-. rewrite Hhead, Nat.add_0_r. apply event_mismatch_false. by split_and!.
    + specialize (Hall k x Hx). by replace (length pre + S k)%nat with (length pre + 1 + k)%nat by lia.
  - intros [Hall ->]. specialize (Hall 0%nat e eq_refl) as H0. rewrite Hhead, Nat.add_0_r in H0.
    apply event_mismatch_false in H0 as (Hsig & Hreq & Hm).
    split; [by rewrite Hsig|]. exists tt. split_and!; try done. intros k x Hx. specialize (Hall (S k) x Hx).
    by replace (length pre + 1 + k)%nat with (length pre + S k)%nat by lia.
Qed.

Lemma verify_record_iff (r : BundleRecord) (key key_id : string) :
  verify_record r key key_id = Ok tt <-> record_valid r key key_id.
Proof.
  unfold verify_record. rewrite res_bind_Ok.
  pose proof (verify_reviews_iff r key key_id) as Hreviews. split.
  - intros ([] & Hv & H). apply guard_bind_Ok in H as (Hb & H). apply guard_bind_Ok in H as (Hrec & H).
    apply guard_bind_Ok in H as (Hrm & H). apply res_bind_Ok in H as (s & Hs & Hg%guard_Ok).
    apply orb_false_iff in Hb as [Hid%negb_false_iff Hmax%Z.ltb_ge].
    apply orb_false_iff in Hg as [Hst%negb_false_iff%String.eqb_eq Hreco%negb_false_iff%Bool.eqb_prop].
    apply negb_false_iff in Hrec. destruct (bd_completion r) as [c|] eqn:Hc.
    + apply guard_bind_Ok in Hs as (Hsig%negb_false_iff & Hs). apply guard_bind_Ok in Hs as (Hcm & Hs).
      apply (Hreviews _ _ (bd_reviews r) []) in Hs as [Hall ->].
      split; try done; rewrite ?Hc; try done.
      * intros c' [= <-]. split; [by apply completion_mismatch_false|exact Hall].
      * rewrite Hreco. cbn [is_some app]. rewrite andb_true_r, String.eqb_eq.
        split; [by split|by intros []].
    + apply guard_bind_Ok in Hs as (Hnil%negb_false_iff & [= <-]).
      assert (bd_reviews r = []) as Hr0
        by (destruct (bd_reviews r); [done|]; rewrite zlen_cons in Hnil; pose proof (zlen_nonneg l); lia).
      split; rewrite ?Hc; try done; [by rewrite Hr0|]. rewrite Hreco. cbn.
      split; [done|intros [[? ?] _]; done].
  - intros [H1 H2 H3 H4 H5 H6 H7 H8 H9]. exists tt. split; [done|].
    apply guard_bind_Ok. rewrite H2. split; [by apply Z.ltb_ge|].
    apply guard_bind_Ok. rewrite H3. split; [done|]. apply guard_bind_Ok. split; [done|].
    apply res_bind_Ok. exists (reviewed_state (bd_reviews r)). destruct (bd_completion r) as [c|].
    + destruct (H6 c eq_refl) as [Hc Hall]. apply completion_mismatch_false in Hc as [Hsig Hcm].
      split.
      * apply guard_bind_Ok. rewrite Hsig. split; [done|]. apply guard_bind_Ok. split; [done|].
        by apply (Hreviews _ _ (bd_reviews r) []).
      * apply guard_Ok. rewrite H8, String.eqb_refl. cbn [negb orb is_some]. rewrite andb_true_r.
        apply negb_false_iff, Bool.eqb_true_iff, eq_true_iff_eq. rewrite H9, String.eqb_eq.
        split; [by intros []|by split].
    + rewrite (H7 eq_refl) in *. split; [done|]. apply guard_Ok. rewrite H8. cbn.
      destruct (bd_recommended r); [|done]. by destruct (proj1 H9 eq_refl) as [[] _].
Qed.

End ValidateProofs.

(** * The last review binds the record *)

Section Binding.
Context `{Crypto : VaultCrypto} `{Json : BundleJson}.
Context `{!Inj (=) (=) (to_json (A := BundleManifest))}
  `{!Inj (=) (=) (to_json (A := Signed Completion))} `{!Inj (=) (=) (to_json (A := Signed ReviewEvent))}.

(** The texts a record hashes. *)
Definition hashed_texts (r : BundleRecord) : list string :=
  to_json (bd_manifest r)
  :: (match bd_completion r with Some c => [to_json c] | None => [] end)
  ++ map (fun e => to_json e) (bd_reviews r).

(** Two different texts of the two records under one hash. *)
Definition collision (l k : list string) : Prop :=
  exists x y, x ∈ l /\ y ∈ k /\ x <> y /\ body_sha256 x = body_sha256 y.

Lemma hash_inj_or {A} `{Serialize A} `{!Inj (=) (=) (to_json (A := A))} (a b : A) l k :
  to_json a ∈ l -> to_json b ∈ k -> body_sha256 (to_json a) = body_sha256 (to_json b) ->
  a = b \/ collision l k.
Proof.
  intros Ha Hb E. destruct (decide (to_json a = to_json b)) as [Heq|Hne].
  - left. by apply (inj to_json).
  - right. exists (to_json a), (to_json b). by split_and!.
Qed.

Definition chained (l : list (Signed ReviewEvent)) : Prop :=
  forall i e, l !! i = Some e -> ev_previous_sha256 (si_value e) = previous_hash l i.

Lemma chained_prefix_eq (l1 l2 : list (Signed ReviewEvent)) (t1 t2 : list string) :
  chained l1 -> chained l2 ->
  (forall e, e ∈ l1 -> to_json e ∈ t1) -> (forall e, e ∈ l2 -> to_json e ∈ t2) ->
  forall i e, l1 !! i = Some e -> l2 !! i = Some e ->
  (forall j, (j <= i)%nat -> l1 !! j = l2 !! j) \/ collision t1 t2.
Proof.
  intros H1 H2 T1 T2. induction i as [|i IH]; intros e E1 E2.
  { left. intros j Hj. by replace j with 0%nat by lia; rewrite E1, E2. }
  pose proof (H1 _ _ E1) as P1. pose proof (H2 _ _ E2) as P2. rewrite P1 in P2. cbn in P2.
  destruct (lookup_lt_is_Some_2 l1 i) as [e1 F1]; [apply lookup_lt_Some in E1; lia|].
  destruct (lookup_lt_is_Some_2 l2 i) as [e2 F2]; [apply lookup_lt_Some in E2; lia|].
  rewrite F1, F2 in P2. cbn in P2. injection P2 as P2.
  apply (hash_inj_or e1 e2 t1 t2) in P2 as [<-|?];
    [|by right|by apply T1, (list_elem_of_lookup_2 _ i)|by apply T2, (list_elem_of_lookup_2 _ i)].
  destruct (IH e1 F1 F2) as [Hle|?]; [left|by right].
  intros j Hj. destruct (decide (j = S i)) as [->|]; [by rewrite E1, E2|apply Hle; lia].
Qed.

Lemma valid_complete_of_reviews (r : BundleRecord) (key key_id : string) (e : Signed ReviewEvent) :
  record_valid r key key_id -> e ∈ bd_reviews r ->
  exists c, bd_completion r = Some c
    /\ chain_valid r key key_id (body_sha256 (to_json c)) (bd_reviews r).
Proof.
  intros Hv He. destruct (bd_completion r) as [c|] eqn:Hc.
  - exists c. split; [done|]. by apply (rv_complete _ _ _ Hv).
  - rewrite (rv_incomplete _ _ _ Hv Hc) in He. by apply elem_of_nil in He.
Qed.

Lemma list_last_lookup {A} (l : list A) (x : A) : list.last l = Some x -> l !! pred (length l) = Some x.
Proof. by rewrite last_lookup. Qed.

(** The last signed review pins the whole record: two records that verify
    under one key and end in the same review have the same agent, manifest,
    completion, review history and recommendation, unless their texts collide
    under SHA-256. *)
Theorem last_review_binds_record (r1 r2 : BundleRecord) (key key_id : string) (e : Signed ReviewEvent) :
  verify_record r1 key key_id = Ok tt -> verify_record r2 key key_id = Ok tt ->
  list.last (bd_reviews r1) = Some e -> list.last (bd_reviews r2) = Some e ->
  (bd_agent_id r1 = bd_agent_id r2 /\ bd_manifest r1 = bd_manifest r2
   /\ bd_completion r1 = bd_completion r2 /\ bd_reviews r1 = bd_reviews r2
   /\ bd_current_review r1 = bd_current_review r2 /\ bd_recommended r1 = bd_recommended r2)
  \/ collision (hashed_texts r1) (hashed_texts r2).
Proof.
  rewrite !verify_record_iff. intros V1 V2 L1 L2.
  apply list_last_lookup in L1 as E1, L2 as E2.
  destruct (valid_complete_of_reviews r1 key key_id e V1) as (c1 & C1 & Ch1);
    [by eapply list_elem_of_lookup_2|].
  destruct (valid_complete_of_reviews r2 key key_id e V2) as (c2 & C2 & Ch2);
    [by eapply list_elem_of_lookup_2|].
  destruct (Ch1 _ _ E1) as [_ _ _ _ A1 _ M1 K1 S1 _], (Ch2 _ _ E2) as [_ _ _ _ A2 _ M2 K2 S2 _].
  assert (T : forall r, to_json (bd_manifest r) ∈ hashed_texts r
      /\ (forall c, bd_completion r = Some c -> to_json c ∈ hashed_texts r)
      /\ forall x, x ∈ bd_reviews r -> to_json x ∈ hashed_texts r).
  { intros r. unfold hashed_texts. split; [set_solver|]. split; [intros c ->; set_solver|].
    intros x Hx. rewrite elem_of_cons, elem_of_app. right. right. apply list_elem_of_fmap. by exists x. }
  destruct (T r1) as (TM1 & TC1 & TR1), (T r2) as (TM2 & TC2 & TR2).
  rewrite M1 in M2. rewrite K1 in K2. rewrite A1 in A2. rewrite S1 in S2.
  apply (hash_inj_or _ _ _ _ TM1 TM2) in M2 as [HM|?]; [|by right].
  apply (hash_inj_or _ _ _ _ (TC1 _ C1) (TC2 _ C2)) in K2 as [<-|?]; [|by right].
  assert (Hlen : pred (length (bd_reviews r1)) = pred (length (bd_reviews r2))) by lia.
  rewrite <- Hlen in E2.
  destruct (chained_prefix_eq (bd_reviews r1) (bd_reviews r2) _ _
    (fun i x Hx => vv_previous _ _ _ _ _ _ _ (Ch1 i x Hx))
    (fun i x Hx => vv_previous _ _ _ _ _ _ _ (Ch2 i x Hx)) TR1 TR2 _ e E1 E2) as [Heq|?]; [|by right].
  assert (HR : bd_reviews r1 = bd_reviews r2).
  { apply list_eq. intros i. destruct (decide (i <= pred (length (bd_reviews r1)))%nat); [by apply Heq|].
    rewrite !lookup_ge_None_2; [done|lia..]. }
  left. split_and!; try congruence.
  - rewrite (rv_state _ _ _ V1), (rv_state _ _ _ V2). by rewrite HR.
  - apply eq_true_iff_eq. rewrite (rv_recommended _ _ _ V1), (rv_recommended _ _ _ V2), HR.
    by rewrite C1, C2.
Qed.

End Binding.

(** * A concrete encoding

    An instance of the parsers and hashes that satisfies their laws, for the
    examples of this file and of its clients. *)

Module Sample.

(** A field: its characters, the two marks escaped, then an end mark. *)
Definition is_mark (c : ascii) : bool := Ascii.eqb c "." || Ascii.eqb c "\".
Fixpoint field (s : string) : string :=
  match s with
  | EmptyString => "."
  | String c s' => if is_mark c then String "\" (String c (field s')) else String c (field s')
  end.
Fixpoint unfield (s : string) : option (string * string) :=
  match s with
  | String "." rest => Some ("", rest)
  | String "\" (String c rest) => (fun p => (String c p.1, p.2)) <$> unfield rest
  | String c rest => (fun p => (String c p.1, p.2)) <$> unfield rest
  | _ => None
  end.
Definition fields (l : list string) : string := foldr (fun s acc => String.append (field s) acc) "" l.
Fixpoint unfields (fuel : nat) (s : string) : option (list string) :=
  match s, fuel with
  | EmptyString, _ => Some []
  | _, O => None
  | _, S fuel => p ← unfield s; (fun l => p.1 :: l) <$> unfields fuel p.2
  end.

Fixpoint pos_str (p : positive) : string :=
  match p with xH => "e" | xO p => String "0" (pos_str p) | xI p => String "1" (pos_str p) end.
Fixpoint str_pos (s : string) : option positive :=
  match s with
  | String "e" EmptyString => Some xH
  | String "0" s => xO <$> str_pos s
  | String "1" s => xI <$> str_pos s
  | _ => None
  end.
Definition z_str (z : Z) : string :=
  match z with Z0 => "0" | Zpos p => String "+" (pos_str p) | Zneg p => String "-" (pos_str p) end.
Definition str_z (s : string) : option Z :=
  match s with
  | String "+" s => Zpos <$> str_pos s
  | String "-" s => Zneg <$> str_pos s
  | _ => Some 0
  end.
Definition opt_str (o : option string) : string :=
  match o with None => "" | Some s => String "s" s end.
Definition str_opt (s : string) : option string :=
  match s with EmptyString => None | String _ s => Some s end.

Lemma unfield_field (s rest : string) : unfield (String.append (field s) rest) = Some (s, rest).
Proof.
  induction s as [|c s IH]; [done|]. cbn [field]. destruct (is_mark c) eqn:Hc.
  - simpl in *. by rewrite IH.
  - destruct c as [[] [] [] [] [] [] [] []]; try done; simpl in *; by rewrite IH.
Qed.
Lemma unfields_S (fuel : nat) (s : string) :
  s <> "" -> unfields (S fuel) s = (p ← unfield s; (fun l => p.1 :: l) <$> unfields fuel p.2).
Proof. by destruct s. Qed.
Lemma unfields_fields (l : list string) : forall fuel, (length l <= fuel)%nat ->
  unfields fuel (fields l) = Some l.
Proof.
  induction l as [|s l IH]; intros [|fuel] Hf; try done; [cbn in Hf; lia|].
  cbn [fields foldr]. fold (fields l). rewrite unfields_S by (destruct s; simpl; by repeat case_match).
  rewrite unfield_field. cbn. rewrite (IH fuel) by (cbn in Hf; lia). done.
Qed.
Lemma str_pos_str (p : positive) : str_pos (pos_str p) = Some p.
Proof. induction p as [p IH|p IH|]; cbn; [by rewrite IH..|done]. Qed.
Lemma str_z_str (z : Z) : str_z (z_str z) = Some z.
Proof. destruct z; cbn; by rewrite ?str_pos_str. Qed.
Lemma str_opt_str (o : option string) : str_opt (opt_str o) = o.
Proof. by destruct o. Qed.

Definition chunk_fields (c : Chunk) : list string := [ch_sha256 c; z_str (ch_size_bytes c)].
Fixpoint chunks_of (l : list string) : option (list Chunk) :=
  match l with
  | [] => Some []
  | h :: n :: l => n ← str_z n; (fun cs => mkChunk h n :: cs) <$> chunks_of l
  | _ => None
  end.
Lemma chunks_of_fields (cs : list Chunk) : chunks_of (cs ≫= chunk_fields) = Some cs.
Proof. induction cs as [|[h n] cs IH]; cbn; [done|]. by rewrite str_z_str, IH. Qed.

Definition manifest_fields (m : BundleManifest) : list string :=
  [mf_format m; mf_bundle_id m; z_str (mf_created_at_ms m); bm_original_path (mf_metadata m);
   opt_str (z_str <$> bm_version (mf_metadata m)); bm_review_history (mf_metadata m);
   opt_str (bm_recovery_plan (mf_metadata m)); mf_sha256 m; z_str (mf_size_bytes m)]
  ++ (mf_chunks m ≫= chunk_fields).
Definition manifest_of (l : list string) : option BundleManifest :=
  match l with
  | f :: i :: t :: p :: v :: h :: r :: s :: n :: cs =>
      t ← str_z t; n ← str_z n; cs ← chunks_of cs;
      Some (mkBundleManifest f i t (mkBundleMetadata p (v ← str_opt v; str_z v) h (str_opt r)) s n cs)
  | _ => None
  end.
Lemma manifest_of_fields (m : BundleManifest) : manifest_of (manifest_fields m) = Some m.
Proof.
  destruct m as [f i t [p v h r] s n cs]. cbn. rewrite !str_z_str, chunks_of_fields, !str_opt_str. cbn.
  do 3 f_equal. destruct v; cbn; by rewrite ?str_z_str.
Qed.

Definition completion_fields (c : Completion) : list string :=
  [co_format c; co_key_id c; co_agent_id c; co_bundle_id c; co_manifest_sha256 c; co_sha256 c;
   z_str (co_size_bytes c); z_str (co_completed_at_ms c)].
Definition completion_of (l : list string) : option Completion :=
  match l with
  | [f; k; a; b; m; s; n; t] => n ← str_z n; t ← str_z t; Some (mkCompletion f k a b m s n t)
  | _ => None
  end.
Lemma completion_of_fields (c : Completion) : completion_of (completion_fields c) = Some c.
Proof. destruct c. cbn. by rewrite !str_z_str. Qed.

Definition decision_str (d : ReviewDecision) : string := match d with Good => "g" | Revoked => "r" end.
Definition event_fields (e : ReviewEvent) : list string :=
  let r := ev_request e in
  [ev_format e; ev_key_id e; ev_agent_id e; ev_bundle_id e; ev_manifest_sha256 e;
   ev_completion_sha256 e; z_str (ev_sequence e); opt_str (ev_previous_sha256 e);
   z_str (ev_reviewed_at_ms e); rq_request_id r; decision_str (rq_decision r); rq_actor r; rq_reason r].
Definition event_of (l : list string) : option ReviewEvent :=
  match l with
  | [f; k; a; b; m; c; n; p; t; i; d; w; y] =>
      n ← str_z n; t ← str_z t;
      Some (mkReviewEvent f k a b m c n (str_opt p) t
              (mkReviewRequest i (if String.eqb d "g" then Good else Revoked) w y))
  | _ => None
  end.
Lemma event_of_fields (e : ReviewEvent) : event_of (event_fields e) = Some e.
Proof. destruct e as [? ? ? ? ? ? ? ? ? [? [] ? ?]]; cbn; by rewrite !str_z_str, str_opt_str. Qed.

Definition untext (s : string) : option (list string) := unfields (String.length s) s.

Lemma fields_length (l : list string) : (length l <= String.length (fields l))%nat.
Proof.
  induction l as [|s l IH]; [done|]. cbn [fields foldr length]. fold (fields l).
  rewrite string_length_app. destruct s; simpl; repeat case_match; simpl; lia.
Qed.
Lemma untext_fields (l : list string) : untext (fields l) = Some l.
Proof. apply unfields_fields, fields_length. Qed.

Definition signed_fields {A} (f : A -> list string) (v : Signed A) : list string :=
  [fields (f (si_value v)); si_signature_hex v].
Definition signed_of {A} (g : list string -> option A) (l : list string) : option (Signed A) :=
  match l with
  | [v; sig] => l ← untext v; v ← g l; Some (mkSigned v sig)
  | _ => None
  end.
Lemma signed_of_fields {A} (f : A -> list string) (g : list string -> option A) :
  (forall v, g (f v) = Some v) -> forall v, signed_of g (signed_fields f v) = Some v.
Proof. intros H [v s]. cbn. rewrite untext_fields. cbn. by rewrite H. Qed.

#[local] Instance json : BundleJson := {|
  manifest_ser := fun m => fields (manifest_fields m);
  manifest_de := fun s => untext s ≫= manifest_of;
  completion_ser := fun c => fields (completion_fields c);
  signed_completion_ser := fun c => fields (signed_fields completion_fields c);
  signed_completion_de := fun s => untext s ≫= signed_of completion_of;
  event_ser := fun e => fields (event_fields e);
  signed_event_ser := fun e => fields (signed_fields event_fields e);
  signed_event_de := fun s => untext s ≫= signed_of event_of;
|}.

#[local] Instance manifest_roundtrip : JsonRoundtrip BundleManifest.
Proof. 
  intros m. change ((untext (fields (manifest_fields m)) ≫= manifest_of) = Some m).
  rewrite untext_fields. apply manifest_of_fields.
 Qed.
#[local] Instance completion_roundtrip : JsonRoundtrip (Signed Completion).
Proof.
  intros c.
  change ((untext (fields (signed_fields completion_fields c)) ≫= signed_of completion_of) = Some c).
  rewrite untext_fields.
  apply signed_of_fields, completion_of_fields.
Qed.
#[local] Instance event_roundtrip : JsonRoundtrip (Signed ReviewEvent).
Proof.
  intros e.
  change ((untext (fields (signed_fields event_fields e)) ≫= signed_of event_of) = Some e).
  rewrite untext_fields.
  apply signed_of_fields, event_of_fields.
Qed.

(** A hash of 64 hexadecimal digits. *)
Definition digest (s : string) : N :=
  foldl (fun acc c => N.land (acc * 31 + N_of_ascii c) 268435455)%N 7%N (String.list_ascii_of_string s).
Definition hex_digit (n : N) : ascii := ascii_of_N (if (n <? 10)%N then (48 + n)%N else (87 + n)%N).
Fixpoint hex_digits (k : nat) (n : N) : string :=
  match k with O => "" | S k => String (hex_digit (N.land n 15)) (hex_digits k (N.shiftr n 4)) end.
Definition sha (s : string) : string := hex_digits 64 (digest s).

Definition receipt_text (r : Receipt) : string :=
  fields [re_format r; re_key_id r; re_agent_id r; re_kind r; re_sha256 r; z_str (re_size_bytes r);
          z_str (re_received_at_ms r); z_str (re_retention_until_ms r)].

#[local] Instance crypto : VaultCrypto := {|
  body_sha256 := sha;
  receipt_signature := fun r => sha (receipt_text r);
  receipt_signed := fun _ r => String.eqb (sr_signature_hex r) (sha (receipt_text (sr_receipt r)));
  receipt_json_len := fun _ => 300;
  public_key_ok := fun _ => true;
  key_sign := sha;
  key_verifies := fun _ b s => String.eqb s (sha b);
|}.
#[local] Instance signer : SignerLaw "pub".
Proof. intros b. apply String.eqb_refl. Qed.

(** A record with two reviews. *)
Definition manifest : BundleManifest :=
  mkBundleManifest "argos-recovery-bundle-v1" (hex_digits 32 5) 1000
    (mkBundleMetadata "/srv/a" (Some 3) "[]" None) (sha "hello") 5 [mkChunk (sha "hello") 5].
Definition manifest_receipt : SignedReceipt :=
  let r := mkReceipt FORMAT "k" "a" "bundle-manifest" (sha (to_json manifest)) (slen (to_json manifest))
             1000 2000 in
  mkSignedReceipt r (receipt_signature r).
Definition completion : Signed Completion :=
  sign_value (mkCompletion "argos-bundle-completion-v1" "k" "a" (mf_bundle_id manifest)
    (sha (to_json manifest)) (sha "hello") 5 1500).
Definition review (n : Z) (previous : option string) (d : ReviewDecision) (id : string) : Signed ReviewEvent :=
  sign_value (mkReviewEvent "argos-bundle-review-v1" "k" "a" (mf_bundle_id manifest)
    (sha (to_json manifest)) (sha (to_json completion)) n previous 1600
    (mkReviewRequest id d "kim" "checked")).
Definition good : Signed ReviewEvent := review 1 None Good "r1".
Definition revoked : Signed ReviewEvent := review 2 (Some (sha (to_json good))) Revoked "r2".
Definition record (reviews : list (Signed ReviewEvent)) : BundleRecord :=
  mkBundleRecord "a" manifest manifest_receipt (Some completion) reviews (reviewed_state reviews)
    (String.eqb (reviewed_state reviews) "good").

Example good_record_accepted : verify_record (record [good]) "pub" "k" = Ok tt.
Proof. vm_compute. reflexivity. Qed.
(** A review left out of the middle of the chain is noticed. *)
Example dropped_review_refused : is_ok (verify_record (record [revoked]) "pub" "k") = false.
Proof. vm_compute. reflexivity. Qed.

End Sample.

Section SampleWitness.
#[local] Existing Instances Sample.json Sample.crypto.
#[local] Existing Instances Sample.manifest_roundtrip Sample.completion_roundtrip Sample.event_roundtrip.

Lemma last_review_binds_record_witness :
  let r := Sample.record [Sample.good; Sample.revoked] in
  verify_record r "pub" "k" = Ok tt
  /\ (bd_reviews r = bd_reviews r \/ collision (hashed_texts r) (hashed_texts r)).
Proof.
  intros r. assert (V : verify_record r "pub" "k" = Ok tt) by (vm_compute; reflexivity).
  split; [exact V|].
  pose proof (roundtrip_inj (A := BundleManifest)).
  pose proof (roundtrip_inj (A := Signed Completion)).
  pose proof (roundtrip_inj (A := Signed ReviewEvent)).
  destruct (last_review_binds_record r r "pub" "k" Sample.revoked V V eq_refl eq_refl)
    as [(_ & _ & _ & E & _)|C]; [left; exact E|right; exact C].
Defined.

End SampleWitness.

(** A valid manifest gives the size of its body chunk by chunk. *)
Lemma sum_chunks_total (chunks : list Chunk) : forall count i total t,
  sum_chunks count i total chunks = Ok t -> t = total + sumZ (map ch_size_bytes chunks).
Proof.
  induction chunks as [|c chunks IH]; intros count i total t; cbn [sum_chunks map].
  { intros [= <-]. cbn. lia. }
  rewrite guard_bind_Ok, ok_or_bind_Ok. intros (_ & n & Hn%checked_add_Some & H%IH).
  destruct Hn as [-> _]. cbn. fold (sumZ (map ch_size_bytes chunks)). lia.
Qed.
Lemma validate_size `{Json : BundleJson} (m : BundleManifest) :
  validate m = Ok tt -> sumZ (map ch_size_bytes (mf_chunks m)) = mf_size_bytes m.
Proof.
  unfold validate. rewrite guard_bind_Ok, res_bind_Ok.
  intros (_ & t & Ht%sum_chunks_total & Hg%guard_Ok%negb_false_iff%Z.eqb_eq). lia.
Qed.
