(* ===== verification/VaultQuota.v ===== *)
(** The capacity accounts of the vault server (crates/argos-vault/src/quota.rs,
    with the write path [put_inner] of server.rs):
    logical usage per agent, separate revocation budget, admission, startup
    reconstruction and publication. *)
From Stdlib Require Import ZArith Lia Ascii.
From stdpp Require Import base gmap strings list.
From S2P Require Import Prelude RustPath Receipts Bundle.
#[local] Open Scope Z_scope.

(** * Accounts *)

Definition LOCK_NAME : string := ".argos-vault.lock".
Definition MAX_REASONS : Z := 32.
Definition METADATA_MARGIN : Z := MAX_RECEIPT_BYTES + 65536.

Record AgentCapacityLimit := mkAgentCapacityLimit {
  al_max_bytes : Z;
  al_max_objects : Z;
}.

Record CapacityConfig := mkCapacityConfig {
  cc_global_max_bytes : Z;
  cc_global_max_objects : Z;
  cc_agent_max_bytes : Z;
  cc_agent_max_objects : Z;
  cc_min_free_bytes : Z;
  cc_revocation_max_bytes : Z;
  cc_revocation_max_objects : Z;
  cc_revocation_agent_max_bytes : Z;
  cc_revocation_agent_max_objects : Z;
  cc_revocation_reserved_free_bytes : Z;
  cc_max_scan_entries : Z;
  cc_max_tracked_agents : Z;
  cc_agent_overrides : gmap string AgentCapacityLimit;
}.

Definition CapacityConfig_default : CapacityConfig :=
  {| cc_global_max_bytes := 100 * 1024 * 1024 * 1024;
     cc_global_max_objects := 1000000;
     cc_agent_max_bytes := 10 * 1024 * 1024 * 1024;
     cc_agent_max_objects := 100000;
     cc_min_free_bytes := 1024 * 1024 * 1024;
     cc_revocation_max_bytes := 8 * 1024 * 1024;
     cc_revocation_max_objects := 1000;
     cc_revocation_agent_max_bytes := 1024 * 1024;
     cc_revocation_agent_max_objects := 100;
     cc_revocation_reserved_free_bytes := 128 * 1024 * 1024;
     cc_max_scan_entries := 2100000;
     cc_max_tracked_agents := 4096;
     cc_agent_overrides := ∅ |}.

Record ObjectUsage := mkObjectUsage {
  ou_logical_bytes : Z;
  ou_objects : Z;
  ou_receipted_objects : Z;
}.
Definition ObjectUsage_default : ObjectUsage := mkObjectUsage 0 0 0.

Record AgentCapacityUsage := mkAgentCapacityUsage {
  acu_usage : ObjectUsage;
  acu_normal_usage : ObjectUsage;
  acu_revocation_usage : ObjectUsage;
  acu_limits : AgentCapacityLimit;
}.

Record FilesystemCapacity := mkFilesystemCapacity {
  fc_supported : bool;
  fc_available_bytes : option Z;
  fc_error : option string;
}.

Record CapacityUsage := mkCapacityUsage {
  cu_limits : CapacityConfig;
  cu_total : ObjectUsage;
  cu_normal_usage : ObjectUsage;
  cu_revocation_usage : ObjectUsage;
  cu_agents : gmap string AgentCapacityUsage;
  cu_filesystem : FilesystemCapacity;
  cu_reconstruction_complete : bool;
  cu_storage_consistent : bool;
  cu_new_uploads_blocked : bool;
  cu_reasons : list string;
  cu_admission_rejections : Z;
}.

Record CapacityState := mkCapacityState {
  qs_limits : CapacityConfig;
  qs_total : ObjectUsage;
  qs_agents : gmap string ObjectUsage;
  qs_reconstruction_complete : bool;
  qs_storage_consistent : bool;
  qs_reasons : list string;
  qs_admission_rejections : Z;
  qs_bundle_control_objects : Z;
  qs_bundle_control_owners : gmap (string * string) Z;
  qs_revocations : ObjectUsage;
  qs_agent_revocations : gmap string ObjectUsage;
}.

(** Field updates. *)
Definition with_usage (s : CapacityState) total agents : CapacityState :=
  mkCapacityState (qs_limits s) total agents (qs_reconstruction_complete s) (qs_storage_consistent s)
    (qs_reasons s) (qs_admission_rejections s) (qs_bundle_control_objects s)
    (qs_bundle_control_owners s) (qs_revocations s) (qs_agent_revocations s).
Definition with_revocations (s : CapacityState) revocations agent_revocations : CapacityState :=
  mkCapacityState (qs_limits s) (qs_total s) (qs_agents s) (qs_reconstruction_complete s)
    (qs_storage_consistent s) (qs_reasons s) (qs_admission_rejections s)
    (qs_bundle_control_objects s) (qs_bundle_control_owners s) revocations agent_revocations.
Definition with_controls (s : CapacityState) objects owners : CapacityState :=
  mkCapacityState (qs_limits s) (qs_total s) (qs_agents s) (qs_reconstruction_complete s)
    (qs_storage_consistent s) (qs_reasons s) (qs_admission_rejections s) objects owners
    (qs_revocations s) (qs_agent_revocations s).
Definition with_health (s : CapacityState) complete consistent reasons rejections : CapacityState :=
  mkCapacityState (qs_limits s) (qs_total s) (qs_agents s) complete consistent reasons rejections
    (qs_bundle_control_objects s) (qs_bundle_control_owners s) (qs_revocations s)
    (qs_agent_revocations s).

(** [fstatvfs]: the available blocks and the block size, when the call succeeds. *)
Definition free_space (probe : option (Z * Z)) : FilesystemCapacity :=
  match probe with
  | None => mkFilesystemCapacity true None (Some "filesystem_free_probe_failed")
  | Some (blocks, size) =>
      match checked_mul blocks size with
      | Some bytes => mkFilesystemCapacity true (Some bytes) None
      | None => mkFilesystemCapacity true None (Some "filesystem_free_overflow")
      end
  end.

Definition inconsistent (s : CapacityState) (code : string) : CapacityState :=
  with_health s (qs_reconstruction_complete s) false
    (if (zlen (qs_reasons s) <? MAX_REASONS) && negb (str_mem code (qs_reasons s))
     then qs_reasons s ++ [code] else qs_reasons s) (qs_admission_rejections s).
Definition incomplete (s : CapacityState) : CapacityState :=
  with_health s false (qs_storage_consistent s) (qs_reasons s) (qs_admission_rejections s).

Definition agent_limit (s : CapacityState) (agent : string) : AgentCapacityLimit :=
  default (mkAgentCapacityLimit (cc_agent_max_bytes (qs_limits s)) (cc_agent_max_objects (qs_limits s)))
    (cc_agent_overrides (qs_limits s) !! agent).

Definition subtract_usage (total reserved : ObjectUsage) : ObjectUsage :=
  mkObjectUsage (sat_sub (ou_logical_bytes total) (ou_logical_bytes reserved))
    (sat_sub (ou_objects total) (ou_objects reserved))
    (sat_sub (ou_receipted_objects total) (ou_receipted_objects reserved)).

Definition counted (u : ObjectUsage) (bytes objects : Z) : ObjectUsage :=
  mkObjectUsage bytes objects (ou_receipted_objects u).

(** All sums are checked before any is stored; [None] is the error. *)
Definition add_usage (s : CapacityState) (agent : string) (bytes : Z) : option CapacityState :=
  current ← qs_agents s !! agent;
  total_bytes ← checked_add (ou_logical_bytes (qs_total s)) bytes;
  total_objects ← checked_add (ou_objects (qs_total s)) 1;
  agent_bytes ← checked_add (ou_logical_bytes current) bytes;
  agent_objects ← checked_add (ou_objects current) 1;
  Some (with_usage s (counted (qs_total s) total_bytes total_objects)
          (<[agent := counted current agent_bytes agent_objects]> (qs_agents s))).

Definition revocation_enabled (s : CapacityState) : bool :=
  (0 <? cc_revocation_max_bytes (qs_limits s)) && (0 <? cc_revocation_max_objects (qs_limits s))
  && (0 <? cc_revocation_agent_max_bytes (qs_limits s))
  && (0 <? cc_revocation_agent_max_objects (qs_limits s)).

Definition plus_object (u : ObjectUsage) (bytes : Z) : ObjectUsage :=
  mkObjectUsage (wrap_add (ou_logical_bytes u) bytes) (wrap_add (ou_objects u) 1)
    (ou_receipted_objects u).
Definition agent_revocation (s : CapacityState) (agent : string) : ObjectUsage :=
  default ObjectUsage_default (qs_agent_revocations s !! agent).

Definition add_revocation (s : CapacityState) (agent : string) (bytes : Z) : CapacityState :=
  with_revocations s (plus_object (qs_revocations s) bytes)
    (<[agent := plus_object (agent_revocation s agent) bytes]> (qs_agent_revocations s)).

Definition plus_receipt (u : ObjectUsage) : ObjectUsage :=
  mkObjectUsage (ou_logical_bytes u) (ou_objects u) (wrap_add (ou_receipted_objects u) 1).
Definition mark_revocation_receipted (s : CapacityState) (agent : string) : CapacityState :=
  if revocation_enabled s
  then with_revocations s (plus_receipt (qs_revocations s))
         (<[agent := plus_receipt (agent_revocation s agent)]> (qs_agent_revocations s))
  else s.

Definition saturating_receipt (u : ObjectUsage) : ObjectUsage :=
  mkObjectUsage (ou_logical_bytes u) (ou_objects u) (sat_add (ou_receipted_objects u) 1).
Definition mark_receipted (s : CapacityState) (agent : string) : CapacityState :=
  with_usage s (saturating_receipt (qs_total s))
    (match qs_agents s !! agent with
     | Some u => <[agent := saturating_receipt u]> (qs_agents s)
     | None => qs_agents s
     end).

Definition write_failed (s : CapacityState) : CapacityState :=
  inconsistent s "publish_failed_restart_required".

(** [Err] when a new owner exceeds the tracking limit. *)
Definition note_control (s : CapacityState) (agent bundle : string) : CapacityState * bool :=
  let key := (agent, bundle) in
  let owners := qs_bundle_control_owners s in
  if negb (is_some (owners !! key)) && (10000 <=? Z.of_nat (size owners))
  then (inconsistent s "bundle_owner_tracking_limit", false)
  else (with_controls s (wrap_add (qs_bundle_control_objects s) 1)
          (<[key := wrap_add (default 0 (owners !! key)) 1]> owners), true).

(** * Admission *)

Definition exceeds (v : option Z) (limit : Z) : bool := is_none_or v (fun x => limit <? x).

Definition over_limit (u : ObjectUsage) (bytes max_bytes max_objects : Z) : bool :=
  (max_bytes <=? ou_logical_bytes u)
  || exceeds (checked_add (ou_logical_bytes u) bytes) max_bytes
  || exceeds (checked_add (ou_objects u) 1) max_objects.

Definition reserved_free (s : CapacityState) (revocation : bool) : Z :=
  if negb revocation && revocation_enabled s
  then cc_revocation_reserved_free_bytes (qs_limits s) else 0.

(** The free-space floor for [bytes] more bytes; the space is probed only when there is one. *)
Definition below_floor (s : CapacityState) (bytes : Z) (revocation : bool) (free : option Z) : bool :=
  let extra := reserved_free s revocation in
  ((0 <? cc_min_free_bytes (qs_limits s)) || (0 <? extra))
  && is_none_or
       (opt_zip free
          (v ← checked_add (cc_min_free_bytes (qs_limits s)) extra;
           v ← checked_add v bytes; checked_add v METADATA_MARGIN))
       (fun fn => fn.1 <? fn.2).

Definition admit_object (s : CapacityState) (agent : string) (bytes : Z) (revocation : bool)
    (free : option Z) : result CapacityState string :=
  let? _ := guard (negb (qs_storage_consistent s) || negb (qs_reconstruction_complete s))
              "storage_accounting_incomplete" in
  let? current := ok_or (qs_agents s !! agent) "untracked_agent" in
  let agent_reserved := agent_revocation s agent in
  let '(total, current, global_bytes, global_objects, limit) :=
    if revocation then
      (qs_revocations s, agent_reserved, cc_revocation_max_bytes (qs_limits s),
       cc_revocation_max_objects (qs_limits s),
       mkAgentCapacityLimit (cc_revocation_agent_max_bytes (qs_limits s))
         (cc_revocation_agent_max_objects (qs_limits s)))
    else
      (subtract_usage (qs_total s) (qs_revocations s), subtract_usage current agent_reserved,
       cc_global_max_bytes (qs_limits s), cc_global_max_objects (qs_limits s), agent_limit s agent) in
  let? _ := guard (over_limit total bytes global_bytes global_objects)
              (if revocation then "revocation_global_limit" else "global_limit") in
  let? _ := guard (over_limit current bytes (al_max_bytes limit) (al_max_objects limit))
              (if revocation then "revocation_agent_limit" else "agent_limit") in
  let? _ := guard (below_floor s bytes revocation free) "filesystem_free_floor_or_unavailable" in
  let? s := ok_or (add_usage s agent bytes) "accounting_overflow" in
  Ok (if revocation then add_revocation s agent bytes else s).

Definition reserve_for (s : CapacityState) (agent : string) (bytes : Z) (revocation : bool)
    (free : option Z) : CapacityState * result unit string :=
  match admit_object s agent bytes (revocation && revocation_enabled s) free with
  | Ok s' => (s', Ok tt)
  | Err code =>
      (with_health s (qs_reconstruction_complete s) (qs_storage_consistent s) (qs_reasons s)
         (sat_add (qs_admission_rejections s) 1), Err code)
  end.
Definition reserve s agent bytes free := reserve_for s agent bytes false free.
Definition reserve_revocation s agent bytes free := reserve_for s agent bytes true free.

Definition usage (s : CapacityState) (filesystem : FilesystemCapacity) : CapacityUsage :=
  let extra := reserved_free s false in
  let floor_blocked :=
    ((0 <? cc_min_free_bytes (qs_limits s)) || (0 <? extra))
    && is_none_or (fc_available_bytes filesystem) (fun free =>
         is_none_or (v ← checked_add (cc_min_free_bytes (qs_limits s)) extra;
                     checked_add v METADATA_MARGIN) (fun needed => free <? needed)) in
  let normal := subtract_usage (qs_total s) (qs_revocations s) in
  let global_blocked :=
    (cc_global_max_bytes (qs_limits s) <=? ou_logical_bytes normal)
    || (cc_global_max_objects (qs_limits s) <=? ou_objects normal) in
  {| cu_limits := qs_limits s;
     cu_total := qs_total s;
     cu_normal_usage := normal;
     cu_revocation_usage := qs_revocations s;
     cu_agents := map_imap (fun id u =>
       Some (mkAgentCapacityUsage u (subtract_usage u (agent_revocation s id)) (agent_revocation s id)
               (agent_limit s id))) (qs_agents s);
     cu_filesystem := filesystem;
     cu_reconstruction_complete := qs_reconstruction_complete s;
     cu_storage_consistent := qs_storage_consistent s;
     cu_new_uploads_blocked :=
       negb (qs_reconstruction_complete s) || negb (qs_storage_consistent s)
       || floor_blocked || global_blocked;
     cu_reasons := qs_reasons s
       ++ (if global_blocked then ["global_capacity_reached"] else [])
       ++ (if floor_blocked then ["filesystem_free_floor_or_unavailable"] else []);
     cu_admission_rejections := qs_admission_rejections s |}.

(** * Startup reconstruction *)

(** A file of an agent's directory, as the scan finds it: its size when it is
    a private regular file on the same file system, whether the blob of a
    receipt exists, the receipt file when it reads and verifies, and the
    control object when the body reads, matches and parses. *)
Record ObjectEntry := mkObjectEntry {
  oe_name : string;
  oe_size : option Z;
  oe_blob_exists : bool;
  oe_receipt : option Receipt;
  oe_control : option (string * bool);
}.

(** An entry of the storage root; [None] where the system call fails. *)
Record RootEntry := mkRootEntry {
  rt_name : string;
  rt_is_dir : option bool;
  rt_private : bool;
  rt_objects : option (list (option ObjectEntry));
}.

(** How a loop ends: it goes on, returns [Ok(())] early, or fails. *)
Inductive flow : Set := Continue | Stop | Fail.

Definition count_entry (s : CapacityState) (entries : Z) : CapacityState * Z * bool :=
  if cc_max_scan_entries (qs_limits s) <=? entries
  then (inconsistent (incomplete s) "startup_scan_limit", entries, false)
  else (s, entries + 1, true).

(** The closure that checks the receipt of a blob; [false] is its error. *)
Definition check_receipt (s : CapacityState) (agent hash key_id : string) (size : Z)
    (o : ObjectEntry) : CapacityState * bool :=
  match oe_receipt o with
  | None => (s, false)
  | Some r =>
      if negb (String.eqb (re_agent_id r) agent) || negb (String.eqb (re_sha256 r) hash)
         || negb (String.eqb (re_key_id r) key_id) || negb (re_size_bytes r =? size)
      then (s, false)
      else if str_starts_with "bundle-" (re_kind r) then
        match oe_control o with
        | None => (s, false)
        | Some (bundle, revoked) =>
            let '(s, ok) := note_control s agent bundle in
            if negb ok then (s, false)
            else if revoked && revocation_enabled s
            then (mark_revocation_receipted (add_revocation s agent size) agent, true)
            else (s, true)
        end
      else (s, true)
  end.

Definition scan_object (s : CapacityState) (agent key_id : string) (o : ObjectEntry)
    : CapacityState * flow :=
  match strip_suffix ".blob" (oe_name o) with
  | None =>
      match opt_filter valid_hash (strip_suffix ".receipt.json" (oe_name o)) with
      | Some _ => (if oe_blob_exists o then s else inconsistent s "receipt_without_object", Continue)
      | None => (inconsistent s "unexpected_or_temporary_object_file", Continue)
      end
  | Some hash =>
      if negb (valid_hash hash) then (inconsistent s "invalid_object_name", Continue)
      else match oe_size o with
      | None => (incomplete (inconsistent s "invalid_object_file"), Continue)
      | Some size =>
          match add_usage s agent size with
          | None => (s, Fail)
          | Some s =>
              let '(s, verified) := check_receipt s agent hash key_id size o in
              (if verified then mark_receipted s agent
               else inconsistent s "object_receipt_missing_invalid_or_mismatched", Continue)
          end
      end
  end.

Fixpoint scan_objects (s : CapacityState) (entries : Z) (agent key_id : string)
    (objects : list (option ObjectEntry)) : CapacityState * Z * flow :=
  match objects with
  | [] => (s, entries, Continue)
  | o :: objects' =>
      let '(s, entries, ok) := count_entry s entries in
      if negb ok then (s, entries, Stop)
      else match o with
      | None => (s, entries, Fail)
      | Some o =>
          match scan_object s agent key_id o with
          | (s, Continue) => scan_objects s entries agent key_id objects'
          | (s, f) => (s, entries, f)
          end
      end
  end.

Definition track_agent (s : CapacityState) (name : string) : CapacityState :=
  with_usage s (qs_total s) (<[name := ObjectUsage_default]> (qs_agents s)).

Definition scan_root (s : CapacityState) (entries : Z) (key_id : string) (e : RootEntry)
    : CapacityState * Z * flow :=
  let name := rt_name e in
  if String.eqb name LOCK_NAME then (s, entries, Continue)
  else match rt_is_dir e with
  | None => (s, entries, Fail)
  | Some false =>
      (if is_some (qs_agents s !! name) || str_starts_with ".argos-vault-" name
       then inconsistent s "unexpected_root_entry" else s, entries, Continue)
  | Some true =>
      if negb (valid_id name) then (inconsistent s "invalid_agent_directory", entries, Continue)
      else if negb (is_some (qs_agents s !! name))
              && (cc_max_tracked_agents (qs_limits s) <=? Z.of_nat (size (qs_agents s)))
      then (inconsistent (incomplete s) "agent_tracking_limit", entries, Stop)
      else
        let s := if is_some (qs_agents s !! name) then s else track_agent s name in
        if negb (rt_private e)
        then (incomplete (inconsistent s "invalid_agent_directory_permissions_or_filesystem"),
              entries, Continue)
        else match rt_objects e with
        | None => (s, entries, Fail)
        | Some objects => scan_objects s entries name key_id objects
        end
  end.

Fixpoint scan_loop (s : CapacityState) (entries : Z) (key_id : string)
    (root : list (option RootEntry)) : CapacityState * flow :=
  match root with
  | [] => (s, Continue)
  | e :: root' =>
      let '(s, entries, ok) := count_entry s entries in
      if negb ok then (s, Stop)
      else match e with
      | None => (s, Fail)
      | Some e =>
          match scan_root s entries key_id e with
          | (s, entries, Continue) => scan_loop s entries key_id root'
          | (s, _, f) => (s, f)
          end
      end
  end.

(** [None] when the root itself cannot be read. *)
Definition scan (s : CapacityState) (key_id : string) (root : option (list (option RootEntry)))
    : CapacityState * bool :=
  match root with
  | None => (s, false)
  | Some root => let '(s, f) := scan_loop s 0 key_id root in
                 (s, match f with Fail => false | _ => true end)
  end.

Definition invalid_limits (limits : CapacityConfig) : bool :=
  negb ((1 <=? cc_max_scan_entries limits) && (cc_max_scan_entries limits <=? 2100000))
  || negb ((1 <=? cc_max_tracked_agents limits) && (cc_max_tracked_agents limits <=? 16384))
  || (cc_max_tracked_agents limits <? Z.of_nat (size (cc_agent_overrides limits)))
  || existsb (fun kv => negb (valid_id kv.1)) (map_to_list (cc_agent_overrides limits)).

Fixpoint track_configured (s : CapacityState) (agents : list string) : result CapacityState string :=
  match agents with
  | [] => Ok s
  | agent :: agents' =>
      if cc_max_tracked_agents (qs_limits s) <=? Z.of_nat (size (qs_agents s))
      then Err "설정된 에이전트 수가 용량 계수 메모리 상한을 초과합니다"
      else track_configured (track_agent s agent) agents'
  end.

Definition CapacityState_new (limits : CapacityConfig) : CapacityState :=
  mkCapacityState limits ObjectUsage_default ∅ true true [] 0 0 ∅ ObjectUsage_default ∅.

(** [lock] is the outcome of [WriterLock::acquire]. *)
Definition capacity_open (limits : CapacityConfig) (configured : list string) (key_id : string)
    (lock : result unit string) (root : option (list (option RootEntry)))
    : result CapacityState string :=
  let? _ := guard (invalid_limits limits) "용량 설정의 스캔/에이전트 상한 또는 개별 ID가 유효하지 않습니다" in
  let? _ := lock in
  let? s := track_configured (CapacityState_new limits) configured in
  let '(s, ok) := scan s key_id root in
  Ok (if ok then s else inconsistent (incomplete s) "startup_scan_failed").

(** * Publication: [Storage::put_inner] of server.rs *)

(** The blobs and receipts below the storage directory, by agent and hash. *)
Record Storage := mkStorage {
  vs_blobs : gmap (string * string) string;
  vs_receipts : gmap (string * string) SignedReceipt;
  vs_capacity : CapacityState;
}.

Record StorageConfig := mkStorageConfig {
  sc_key_id : string;
  (** The verifying key of the server's own signing key. *)
  sc_public_key : string;
  sc_max_object_bytes : Z;
  sc_retention_secs : Z;
}.

(** [write_new]: done, or an error that may come after the file was linked. *)
Inductive write_outcome : Set := Written | WriteFailed (linked : bool).
Definition written (w : write_outcome) : bool := match w with Written => true | _ => false end.
Definition linked (w : write_outcome) : bool :=
  match w with Written => true | WriteFailed l => l end.

(** What the system calls of one request return. *)
Record PutEnv := mkPutEnv {
  pe_free : option Z;
  pe_private : bool;
  pe_parent_sync : bool;
  pe_directory : bool;
  pe_blob : write_outcome;
  pe_now : Z;
  pe_receipt : write_outcome;
  pe_sync : bool;
}.

Inductive PutError : Type :=
| CapacityRejection (code : string)
| OtherError (message : string).

Definition with_capacity (st : Storage) (c : CapacityState) : Storage :=
  mkStorage (vs_blobs st) (vs_receipts st) c.

Section Put.
Context `{Crypto : VaultCrypto} `{Json : BundleJson}.

(** [StorageReader::get]. *)
Definition storage_get (config : StorageConfig) (st : Storage) (private : bool) (agent hash : string)
    : result (SignedReceipt * string) PutError :=
  let? _ := guard (negb private) (OtherError "directory") in
  let? r := ok_or (vs_receipts st !! (agent, hash)) (OtherError "receipt") in
  let? _ := guard (MAX_RECEIPT_BYTES <? receipt_json_len r) (OtherError "receipt size") in
  let? _ := guard (negb (verify_receipt r (sc_public_key config))) (OtherError "수신증명 필드/형식이 유효하지 않습니다") in
  let? _ := guard (negb (String.eqb (re_agent_id (sr_receipt r)) agent)
                   || negb (String.eqb (re_sha256 (sr_receipt r)) hash)
                   || negb (String.eqb (re_key_id (sr_receipt r)) (sc_key_id config)))
              (OtherError "저장된 증명의 신원이 다릅니다") in
  let? bytes := ok_or (vs_blobs st !! (agent, hash)) (OtherError "blob") in
  let? _ := guard (sc_max_object_bytes config <? slen bytes) (OtherError "blob size") in
  let? _ := guard (negb (verify_body bytes r)) (OtherError "수신증명의 크기/해시와 본문이 다릅니다") in
  Ok (r, bytes).

Definition new_receipt (config : StorageConfig) (agent hash kind bytes : string) (now : Z)
    : option SignedReceipt :=
  (fun until =>
     let r := mkReceipt FORMAT (sc_key_id config) agent kind hash (slen bytes) now until in
     mkSignedReceipt r (receipt_signature r))
    <$> checked_add now (sc_retention_secs config * 1000).

(** The closure that publishes: the files it leaves behind and its result. *)
Definition publish (config : StorageConfig) (st : Storage) (env : PutEnv)
    (agent hash kind bytes : string) : Storage * option SignedReceipt :=
  if negb (pe_directory env) then (st, None)
  else
    let st := if linked (pe_blob env)
              then mkStorage (<[(agent, hash) := bytes]> (vs_blobs st)) (vs_receipts st) (vs_capacity st)
              else st in
    if negb (written (pe_blob env)) then (st, None)
    else match new_receipt config agent hash kind bytes (pe_now env) with
    | None => (st, None)
    | Some r =>
        let st := if linked (pe_receipt env)
                  then mkStorage (vs_blobs st) (<[(agent, hash) := r]> (vs_receipts st)) (vs_capacity st)
                  else st in
        if written (pe_receipt env) && pe_sync env then (st, Some r) else (st, None)
    end.

(** A receipt is there already: the resend of an object. *)
Definition put_existing (config : StorageConfig) (st : Storage) (env : PutEnv)
    (agent hash kind bytes : string) : Storage * result SignedReceipt PutError :=
  match storage_get config st (pe_private env) agent hash with
  | Err e => (with_capacity st (write_failed (vs_capacity st)), Err e)
  | Ok (existing, _) =>
      if negb (String.eqb (re_kind (sr_receipt existing)) kind)
         || negb (re_size_bytes (sr_receipt existing) =? slen bytes)
      then (st, Err (OtherError "기존 수신증명 메타데이터와 충돌합니다"))
      else if negb (pe_parent_sync env)
      then (with_capacity st (write_failed (vs_capacity st)), Err (OtherError "sync"))
      else (st, Ok existing)
  end.

Definition put_new (config : StorageConfig) (st : Storage) (env : PutEnv)
    (agent hash kind bytes : string) (control : option (string * bool)) (revocation : bool)
    : Storage * result SignedReceipt PutError :=
  match reserve_for (vs_capacity st) agent (slen bytes) revocation (pe_free env) with
  | (c, Err code) => (with_capacity st c, Err (CapacityRejection code))
  | (c, Ok _) =>
      match publish config (with_capacity st c) env agent hash kind bytes with
      | (st, None) =>
          (with_capacity st (write_failed (vs_capacity st)), Err (OtherError "publish"))
      | (st, Some r) =>
          let c := mark_receipted (vs_capacity st) agent in
          let c := if revocation then mark_revocation_receipted c agent else c in
          match control with
          | None => (with_capacity st c, Ok r)
          | Some (bundle, _) =>
              let '(c, ok) := note_control c agent bundle in
              (with_capacity st c,
               if ok then Ok r else Err (OtherError "번들 귀속 계수 상한"))
          end
      end
  end.

Definition put_inner (config : StorageConfig) (st : Storage) (env : PutEnv)
    (agent hash kind bytes : string) (revocation : bool) : Storage * result SignedReceipt PutError :=
  let control := if str_starts_with "bundle-" kind
                 then res_ok (control_identity kind bytes agent (sc_key_id config) (sc_public_key config))
                 else None in
  if str_starts_with "bundle-" kind && negb (is_some control)
  then (st, Err (OtherError "control"))
  else if revocation && negb (is_some_and control snd)
  then (st, Err (OtherError "취소 전용 예산에 허용되지 않은 객체"))
  else if sc_max_object_bytes config <? slen bytes
  then (st, Err (OtherError "객체 크기가 서버 상한을 초과합니다"))
  else if is_some (vs_receipts st !! (agent, hash)) then put_existing config st env agent hash kind bytes
  else if is_some (vs_blobs st !! (agent, hash))
  then (with_capacity st (write_failed (vs_capacity st)),
        Err (CapacityRejection "incomplete_existing_object"))
  else put_new config st env agent hash kind bytes control revocation.

Definition put config st env agent hash kind bytes :=
  put_inner config st env agent hash kind bytes false.
Definition put_revocation config st env agent hash bytes :=
  put_inner config st env agent hash "bundle-review" bytes true.

End Put.

(** * The invariant of the accounts *)

Definition usage_sum (f : ObjectUsage -> Z) (m : gmap string ObjectUsage) : Z := map_sum f m.

Definition well_counted (u : ObjectUsage) : Prop :=
  0 <= ou_logical_bytes u <= u64_max /\ 0 <= ou_receipted_objects u <= ou_objects u
  /\ ou_objects u <= u64_max.

(** [total] is the sum over the agents, field by field. *)
Record balanced (total : ObjectUsage) (agents : gmap string ObjectUsage) : Prop := {
  ba_bytes : ou_logical_bytes total = map_sum ou_logical_bytes agents;
  ba_objects : ou_objects total = map_sum ou_objects agents;
  ba_receipted : ou_receipted_objects total = map_sum ou_receipted_objects agents;
  ba_each : forall a u, agents !! a = Some u -> well_counted u;
  ba_total : ou_logical_bytes total <= u64_max /\ ou_objects total <= u64_max;
}.

Definition agent_usage (s : CapacityState) (agent : string) : ObjectUsage :=
  default ObjectUsage_default (qs_agents s !! agent).

Record accounts_ok (s : CapacityState) : Prop := {
  aq_agents : balanced (qs_total s) (qs_agents s);
  aq_revocations : balanced (qs_revocations s) (qs_agent_revocations s);
  aq_within : forall a u, qs_agent_revocations s !! a = Some u ->
              ou_logical_bytes u <= ou_logical_bytes (agent_usage s a)
              /\ ou_objects u <= ou_objects (agent_usage s a);
}.

Lemma balanced_each_nonneg total agents :
  balanced total agents ->
  (forall a u, agents !! a = Some u -> 0 <= ou_logical_bytes u)
  /\ (forall a u, agents !! a = Some u -> 0 <= ou_objects u)
  /\ (forall a u, agents !! a = Some u -> 0 <= ou_receipted_objects u).
Proof.
  intros [_ _ _ Hw _]. split_and!; intros a u Hu; destruct (Hw _ _ Hu) as (? & ? & ?); lia.
Qed.

Lemma balanced_agent_le total agents a :
  balanced total agents ->
  let u := default ObjectUsage_default (agents !! a) in
  well_counted u /\ ou_logical_bytes u <= ou_logical_bytes total
  /\ ou_objects u <= ou_objects total /\ ou_receipted_objects u <= ou_receipted_objects total.
Proof.
  intros Hb. destruct (balanced_each_nonneg _ _ Hb) as (Hn1 & Hn2 & Hn3). cbv zeta.
  destruct Hb as [H1 H2 H3 Hw _]. rewrite H1, H2, H3. destruct (agents !! a) as [u|] eqn:Hu; cbn.
  - split_and!; [by eapply Hw|by eapply map_sum_lookup_le_in..].
  - split_and!; [unfold well_counted, u64_max; cbn; lia|by apply map_sum_nonneg_in..].
Qed.

Lemma map_sum_set (f : ObjectUsage -> Z) (m : gmap string ObjectUsage) a u' :
  f ObjectUsage_default = 0 ->
  map_sum f (<[a := u']> m) = map_sum f m - f (default ObjectUsage_default (m !! a)) + f u'.
Proof.
  intros H0. destruct (m !! a) as [u|] eqn:Hu; cbn.
  - by rewrite (map_sum_insert_Some f m a u' u Hu).
  - rewrite map_sum_insert_None by done. lia.
Qed.

(** Replacing one agent's usage and moving the total by the same amount. *)
Lemma balanced_set total total' agents a u' :
  let u := default ObjectUsage_default (agents !! a) in
  balanced total agents -> well_counted u' ->
  ou_logical_bytes total' = ou_logical_bytes total - ou_logical_bytes u + ou_logical_bytes u' ->
  ou_objects total' = ou_objects total - ou_objects u + ou_objects u' ->
  ou_receipted_objects total' =
    ou_receipted_objects total - ou_receipted_objects u + ou_receipted_objects u' ->
  ou_logical_bytes total' <= u64_max -> ou_objects total' <= u64_max ->
  balanced total' (<[a := u']> agents).
Proof.
  intros u [H1 H2 H3 Hw Ht] Hu' E1 E2 E3 B1 B2. split.
  - rewrite map_sum_set by done. fold u. lia.
  - rewrite map_sum_set by done. fold u. lia.
  - rewrite map_sum_set by done. fold u. lia.
  - intros b v. destruct (decide (b = a)) as [->|].
    + rewrite lookup_insert_eq. by intros [= <-].
    + rewrite lookup_insert_ne by done. apply Hw.
  - done.
Qed.

Lemma revocations_within (s : CapacityState) :
  accounts_ok s ->
  ou_logical_bytes (qs_revocations s) <= ou_logical_bytes (qs_total s)
  /\ ou_objects (qs_revocations s) <= ou_objects (qs_total s).
Proof.
  intros [Ha Hr Hw]. destruct (balanced_each_nonneg _ _ Ha) as (Hn1 & Hn2 & _).
  rewrite (ba_bytes _ _ Ha), (ba_bytes _ _ Hr), (ba_objects _ _ Ha), (ba_objects _ _ Hr).
  split; (apply map_sum_within; [done|]); intros a u Hu; destruct (Hw _ _ Hu) as [Hw1 Hw2];
    unfold agent_usage in *; by destruct (qs_agents s !! a).
Qed.

Lemma add_usage_Some (s s' : CapacityState) agent bytes :
  add_usage s agent bytes = Some s' ->
  exists u, qs_agents s !! agent = Some u
    /\ ou_logical_bytes (qs_total s) + bytes <= u64_max
    /\ ou_objects (qs_total s) + 1 <= u64_max
    /\ ou_logical_bytes u + bytes <= u64_max /\ ou_objects u + 1 <= u64_max
    /\ s' = with_usage s
         (counted (qs_total s) (ou_logical_bytes (qs_total s) + bytes) (ou_objects (qs_total s) + 1))
         (<[agent := counted u (ou_logical_bytes u + bytes) (ou_objects u + 1)]> (qs_agents s)).
Proof.
  unfold add_usage. destruct (qs_agents s !! agent) as [u|]; [|done]. cbn.
  destruct (checked_add (ou_logical_bytes (qs_total s)) bytes) eqn:E1; [|done]. cbn.
  destruct (checked_add (ou_objects (qs_total s)) 1) eqn:E2; [|done]. cbn.
  destruct (checked_add (ou_logical_bytes u) bytes) eqn:E3; [|done]. cbn.
  destruct (checked_add (ou_objects u) 1) eqn:E4; [|done]. cbn. intros [= <-].
  apply checked_add_Some in E1 as [-> ?], E2 as [-> ?], E3 as [-> ?], E4 as [-> ?].
  exists u. by split_and!.
Qed.

(** Whether the newest object of [agent] still waits for its receipt mark. *)
Definition slack (s : CapacityState) (agent : string) : Prop :=
  exists u, qs_agents s !! agent = Some u /\ ou_receipted_objects u < ou_objects u.

Lemma accounts_add_usage (s s' : CapacityState) agent bytes :
  accounts_ok s -> 0 <= bytes -> add_usage s agent bytes = Some s' ->
  accounts_ok s' /\ slack s' agent
  /\ ou_logical_bytes (agent_revocation s' agent) + bytes <= ou_logical_bytes (agent_usage s' agent)
  /\ ou_objects (agent_revocation s' agent) + 1 <= ou_objects (agent_usage s' agent).
Proof.
  intros [Ha Hr Hw] Hb Hadd. apply add_usage_Some in Hadd as (u & Hu & B1 & B2 & B3 & B4 & ->).
  pose proof (ba_each _ _ Ha _ _ Hu) as Hwc. unfold well_counted in Hwc. split; [split|split].
  - cbn. eapply balanced_set; [exact Ha|..]; cbn; rewrite ?Hu; cbn; unfold well_counted; cbn; lia.
  - done.
  - cbn. intros a v Hv. destruct (Hw _ _ Hv) as [? ?]. unfold agent_usage in *. cbn.
    destruct (decide (a = agent)) as [->|].
    + rewrite lookup_insert_eq. rewrite Hu in *. cbn in *. lia.
    + by rewrite lookup_insert_ne.
  - exists (counted u (ou_logical_bytes u + bytes) (ou_objects u + 1)). cbn.
    rewrite lookup_insert_eq. split; [done|]. lia.
  - unfold agent_revocation, agent_usage. cbn. rewrite lookup_insert_eq. cbn.
    destruct (qs_agent_revocations s !! agent) as [v|] eqn:Hv; cbn; [|lia].
    destruct (Hw _ _ Hv) as [? ?]. unfold agent_usage in *. rewrite Hu in *. cbn in *. lia.
Qed.

Lemma wrap_add_small (a b : Z) : 0 <= a -> 0 <= b -> a + b <= u64_max -> wrap_add a b = a + b.
Proof. intros. unfold wrap_add. apply Z.mod_small. unfold u64_max in *. lia. Qed.

Lemma accounts_mark_receipted (s : CapacityState) agent :
  accounts_ok s -> slack s agent -> accounts_ok (mark_receipted s agent).
Proof.
  intros Hok (u & Hu & Hlt). pose proof Hok as [Ha Hr Hw]. unfold mark_receipted. rewrite Hu.
  pose proof (ba_each _ _ Ha _ _ Hu) as Hwc. unfold well_counted in Hwc.
  pose proof (balanced_agent_le _ _ agent Ha) as (_ & _ & Hle & Hlr).
  rewrite Hu in Hle, Hlr. cbn in Hle, Hlr.
  assert (Htot : ou_receipted_objects (qs_total s) < ou_objects (qs_total s)).
  { rewrite (ba_receipted _ _ Ha), (ba_objects _ _ Ha).
    pose proof (map_sum_delete ou_receipted_objects _ _ _ Hu).
    pose proof (map_sum_delete ou_objects _ _ _ Hu).
    assert (map_sum ou_receipted_objects (delete agent (qs_agents s))
            <= map_sum ou_objects (delete agent (qs_agents s))); [|lia].
    apply map_sum_le. intros k v [_ Hv]%lookup_delete_Some.
    destruct (ba_each _ _ Ha _ _ Hv) as (_ & ? & _). lia. }
  pose proof (ba_total _ _ Ha) as [_ Hmax].
  split; cbn; [|done|].
  - eapply balanced_set; [exact Ha|..]; cbn; rewrite ?Hu; cbn; unfold well_counted; cbn;
      unfold sat_add; pose proof (ba_total _ _ Ha); lia.
  - intros a v Hv. destruct (Hw _ _ Hv) as [? ?]. unfold agent_usage in *. cbn.
    destruct (decide (a = agent)) as [->|].
    + rewrite lookup_insert_eq. by rewrite Hu in *.
    + by rewrite lookup_insert_ne.
Qed.

Lemma accounts_add_revocation (s : CapacityState) agent bytes :
  accounts_ok s -> 0 <= bytes ->
  ou_logical_bytes (agent_revocation s agent) + bytes <= ou_logical_bytes (agent_usage s agent) ->
  ou_objects (agent_revocation s agent) + 1 <= ou_objects (agent_usage s agent) ->
  let s' := add_revocation s agent bytes in
  accounts_ok s'
  /\ ou_logical_bytes (qs_revocations s') = ou_logical_bytes (qs_revocations s) + bytes
  /\ ou_objects (qs_revocations s') = ou_objects (qs_revocations s) + 1
  /\ ou_logical_bytes (agent_revocation s' agent) = ou_logical_bytes (agent_revocation s agent) + bytes
  /\ ou_objects (agent_revocation s' agent) = ou_objects (agent_revocation s agent) + 1
  /\ ou_receipted_objects (agent_revocation s' agent) < ou_objects (agent_revocation s' agent).
Proof.
  intros Hok Hb Hbytes Hobj. pose proof Hok as [Ha Hr Hw].
  destruct (balanced_agent_le _ _ agent Ha) as ((Hu1 & _ & Hu3) & _ & _ & _).
  change (default ObjectUsage_default (qs_agents s !! agent)) with (agent_usage s agent) in *.
  destruct (balanced_agent_le _ _ agent Hr) as (Hwr & _ & _ & _).
  change (default ObjectUsage_default (qs_agent_revocations s !! agent))
    with (agent_revocation s agent) in *.
  unfold well_counted in Hwr.
  set (r := agent_revocation s agent) in *.
  set (u' := mkObjectUsage (ou_logical_bytes r + bytes) (ou_objects r + 1) (ou_receipted_objects r)).
  assert (Hu' : plus_object r bytes = u').
  { unfold plus_object, u'. by rewrite !wrap_add_small by lia. }
  assert (Hw' : forall a u, <[agent := u']> (qs_agent_revocations s) !! a = Some u ->
    ou_logical_bytes u <= ou_logical_bytes (agent_usage s a)
    /\ ou_objects u <= ou_objects (agent_usage s a)).
  { intros a u. destruct (decide (a = agent)) as [->|].
    - rewrite lookup_insert_eq. intros [= <-]. cbn. lia.
    - rewrite lookup_insert_ne by done. apply Hw. }
  destruct (balanced_each_nonneg _ _ Ha) as (Hn1 & Hn2 & _).
  assert (Hsum1 : map_sum ou_logical_bytes (<[agent := u']> (qs_agent_revocations s))
                  <= map_sum ou_logical_bytes (qs_agents s)).
  { apply map_sum_within; [done|]. intros a u Hu. destruct (Hw' _ _ Hu) as [Hx _].
    unfold agent_usage in Hx. by destruct (qs_agents s !! a). }
  assert (Hsum2 : map_sum ou_objects (<[agent := u']> (qs_agent_revocations s))
                  <= map_sum ou_objects (qs_agents s)).
  { apply map_sum_within; [done|]. intros a u Hu. destruct (Hw' _ _ Hu) as [_ Hx].
    unfold agent_usage in Hx. by destruct (qs_agents s !! a). }
  rewrite map_sum_set in Hsum1, Hsum2 by done.
  change (default ObjectUsage_default (qs_agent_revocations s !! agent)) with r in Hsum1, Hsum2.
  rewrite <- (ba_bytes _ _ Ha), <- (ba_bytes _ _ Hr) in Hsum1.
  rewrite <- (ba_objects _ _ Ha), <- (ba_objects _ _ Hr) in Hsum2.
  pose proof (ba_total _ _ Ha) as [Hm1 Hm2]. cbn in Hsum1, Hsum2.
  assert (Hr0 : 0 <= ou_logical_bytes (qs_revocations s) /\ 0 <= ou_objects (qs_revocations s)).
  { destruct (balanced_each_nonneg _ _ Hr) as (N1 & N2 & _).
    rewrite (ba_bytes _ _ Hr), (ba_objects _ _ Hr). split; by apply map_sum_nonneg_in. }
  assert (Ht : plus_object (qs_revocations s) bytes =
    mkObjectUsage (ou_logical_bytes (qs_revocations s) + bytes) (ou_objects (qs_revocations s) + 1)
      (ou_receipted_objects (qs_revocations s))).
  { unfold plus_object. by rewrite !wrap_add_small by lia. }
  cbv zeta. unfold add_revocation. fold r. rewrite Hu', Ht. unfold agent_revocation. cbn.
  rewrite lookup_insert_eq. cbn. split_and!; try done; [|lia].
  split; [done| |exact Hw']. cbn.
  eapply balanced_set; [exact Hr|..];
    change (default ObjectUsage_default (qs_agent_revocations s !! agent)) with r; cbn;
    unfold well_counted; cbn; lia.
Qed.

Lemma accounts_mark_revocation (s : CapacityState) agent :
  accounts_ok s ->
  ou_receipted_objects (agent_revocation s agent) < ou_objects (agent_revocation s agent) ->
  accounts_ok (mark_revocation_receipted s agent).
Proof.
  intros Hok Hlt. unfold mark_revocation_receipted. destruct (revocation_enabled s); [|done].
  pose proof Hok as [Ha Hr Hw].
  destruct (balanced_agent_le _ _ agent Hr) as (Hwr & _ & Hle & Hlr).
  change (default ObjectUsage_default (qs_agent_revocations s !! agent))
    with (agent_revocation s agent) in *.
  set (r := agent_revocation s agent) in *. unfold well_counted in Hwr.
  destruct (qs_agent_revocations s !! agent) as [r0|] eqn:Hr0.
  2:{ unfold r, agent_revocation in Hlt. rewrite Hr0 in Hlt. cbn in Hlt. lia. }
  assert (r = r0) as Hrr by (unfold r, agent_revocation; by rewrite Hr0).
  assert (Htot : ou_receipted_objects (qs_revocations s) < ou_objects (qs_revocations s)).
  { rewrite (ba_receipted _ _ Hr), (ba_objects _ _ Hr).
    pose proof (map_sum_delete ou_receipted_objects _ _ _ Hr0).
    pose proof (map_sum_delete ou_objects _ _ _ Hr0).
    assert (map_sum ou_receipted_objects (delete agent (qs_agent_revocations s))
            <= map_sum ou_objects (delete agent (qs_agent_revocations s))); [|subst r0; lia].
    apply map_sum_le. intros k v [_ Hv]%lookup_delete_Some.
    destruct (ba_each _ _ Hr _ _ Hv) as (_ & ? & _). lia. }
  pose proof (ba_total _ _ Hr) as [Hm1 Hm2].
  assert (Hn : 0 <= ou_receipted_objects (qs_revocations s)).
  { destruct (balanced_each_nonneg _ _ Hr) as (_ & _ & N3).
    rewrite (ba_receipted _ _ Hr). by apply map_sum_nonneg_in. }
  assert (E1 : plus_receipt r = mkObjectUsage (ou_logical_bytes r) (ou_objects r) (ou_receipted_objects r + 1)).
  { unfold plus_receipt. by rewrite wrap_add_small by lia. }
  assert (E2 : plus_receipt (qs_revocations s) = mkObjectUsage (ou_logical_bytes (qs_revocations s))
    (ou_objects (qs_revocations s)) (ou_receipted_objects (qs_revocations s) + 1)).
  { unfold plus_receipt. by rewrite wrap_add_small by lia. }
  rewrite E1, E2. split; cbn; [done| |].
  - eapply balanced_set; [exact Hr|..]; rewrite ?Hr0; cbn; unfold well_counted; cbn; rewrite <- ?Hrr; lia.
  - intros a u. destruct (decide (a = agent)) as [->|].
    + rewrite lookup_insert_eq. intros [= <-]. cbn. rewrite Hrr. by apply Hw.
    + rewrite lookup_insert_ne by done. apply Hw.
Qed.

Lemma accounts_ok_ext (s s' : CapacityState) :
  qs_total s' = qs_total s -> qs_agents s' = qs_agents s ->
  qs_revocations s' = qs_revocations s -> qs_agent_revocations s' = qs_agent_revocations s ->
  accounts_ok s -> accounts_ok s'.
Proof.
  intros E1 E2 E3 E4 [Ha Hr Hw]. split; unfold agent_usage; rewrite ?E1, ?E2, ?E3, ?E4; done.
Qed.

(** Operations that touch neither usage nor revocations. *)
Definition same_accounts (s s' : CapacityState) : Prop :=
  qs_limits s' = qs_limits s /\ qs_total s' = qs_total s /\ qs_agents s' = qs_agents s
  /\ qs_revocations s' = qs_revocations s /\ qs_agent_revocations s' = qs_agent_revocations s.

Lemma same_accounts_ok (s s' : CapacityState) : same_accounts s s' -> accounts_ok s -> accounts_ok s'.
Proof. intros (_ & E1 & E2 & E3 & E4). by apply accounts_ok_ext. Qed.

Lemma note_control_same (s : CapacityState) agent bundle :
  same_accounts s (note_control s agent bundle).1.
Proof. unfold note_control. by destruct (_ && _). Qed.

Lemma same_accounts_slack (s s' : CapacityState) agent : same_accounts s s' -> slack s agent -> slack s' agent.
Proof. intros (_ & _ & E & _ & _) Hs. unfold slack. by rewrite E. Qed.

(** The accounts are those of a hypothesis, up to health and control counts. *)
Ltac keep_accounts := eapply same_accounts_ok; [|eassumption]; by repeat split.

(** * The scan keeps the accounts balanced *)

Definition entry_sizes_ok (o : option ObjectEntry) : Prop :=
  match o with Some e => forall n, oe_size e = Some n -> 0 <= n | None => True end.
Definition root_sizes_ok (e : option RootEntry) : Prop :=
  match e with
  | Some r => forall objects, rt_objects r = Some objects -> Forall entry_sizes_ok objects
  | None => True
  end.

Lemma check_receipt_ok (s : CapacityState) agent hash key_id size o :
  accounts_ok s -> slack s agent -> 0 <= size ->
  ou_logical_bytes (agent_revocation s agent) + size <= ou_logical_bytes (agent_usage s agent) ->
  ou_objects (agent_revocation s agent) + 1 <= ou_objects (agent_usage s agent) ->
  accounts_ok (check_receipt s agent hash key_id size o).1
  /\ slack (check_receipt s agent hash key_id size o).1 agent.
Proof.
  intros Hok Hsl Hsz Hb Hn. unfold check_receipt.
  destruct (oe_receipt o) as [r|]; [|done]. destruct (_ || _); [done|].
  destruct (str_starts_with _ _); [|done]. destruct (oe_control o) as [[bundle revoked]|]; [|done].
  pose proof (note_control_same s agent bundle) as Hsame.
  destruct (note_control s agent bundle) as [s1 ok]. cbn [fst] in Hsame.
  assert (Hok1 : accounts_ok s1) by by eapply same_accounts_ok.
  assert (Hsl1 : slack s1 agent) by by eapply same_accounts_slack.
  destruct ok; cbn [negb]; [|done]. destruct (revoked && revocation_enabled s1); [|done]. cbn [fst].
  destruct Hsame as (_ & _ & E1 & _ & E2).
  assert (E3 : agent_revocation s1 agent = agent_revocation s agent) by (unfold agent_revocation; by rewrite E2).
  assert (E4 : agent_usage s1 agent = agent_usage s agent) by (unfold agent_usage; by rewrite E1).
  destruct (accounts_add_revocation s1 agent size) as (Hok2 & _ & _ & _ & _ & Hlt);
    [done|done|by rewrite E3, E4..|].
  split; [by apply accounts_mark_revocation|].
  unfold mark_revocation_receipted. by destruct (revocation_enabled _).
Qed.

Lemma scan_object_ok (s : CapacityState) agent key_id o :
  accounts_ok s -> entry_sizes_ok (Some o) -> accounts_ok (scan_object s agent key_id o).1.
Proof.
  intros Hok Hsz. unfold scan_object.
  destruct (strip_suffix ".blob" (oe_name o)) as [hash|].
  2:{ destruct (opt_filter _ _); [|keep_accounts]. cbn [fst].
      destruct (oe_blob_exists o); [done|keep_accounts]. }
  destruct (negb _); [keep_accounts|].
  destruct (oe_size o) as [size|] eqn:Hs; [|keep_accounts].
  specialize (Hsz _ Hs). destruct (add_usage s agent size) as [s1|] eqn:Hadd; [|done].
  destruct (accounts_add_usage _ _ _ _ Hok Hsz Hadd) as (Hok1 & Hsl & Hb & Hn).
  destruct (check_receipt_ok s1 agent hash key_id size o Hok1 Hsl Hsz Hb Hn) as [Hok2 Hsl2].
  destruct (check_receipt _ _ _ _ _ _) as [s2 verified]. cbn [fst] in *.
  destruct verified; [by apply accounts_mark_receipted|keep_accounts].
Qed.

Lemma count_entry_same (s : CapacityState) n : same_accounts s (count_entry s n).1.1.
Proof. unfold count_entry. by destruct (_ <=? _). Qed.

Lemma scan_objects_ok (s : CapacityState) n agent key_id objects :
  accounts_ok s -> Forall entry_sizes_ok objects ->
  accounts_ok (scan_objects s n agent key_id objects).1.1.
Proof.
  revert s n. induction objects as [|o objects IH]; intros s n Hok Hf; cbn [scan_objects]; [done|].
  apply Forall_cons in Hf as [Ho Hf].
  pose proof (count_entry_same s n) as Hsame. destruct (count_entry s n) as [[s1 n1] ok].
  cbn [fst] in Hsame. assert (Hok1 : accounts_ok s1) by by eapply same_accounts_ok.
  destruct ok; cbn [negb]; [|done]. destruct o as [o|]; [|done].
  pose proof (scan_object_ok s1 agent key_id o Hok1 Ho) as Hok2.
  destruct (scan_object s1 agent key_id o) as [s2 f]. cbn [fst] in Hok2.
  destruct f; [by apply IH|done..].
Qed.

Lemma accounts_track_agent (s : CapacityState) name :
  accounts_ok s -> qs_agents s !! name = None -> accounts_ok (track_agent s name).
Proof.
  intros [[H1 H2 H3 H4 H5] Hr Hw] Hn. split; cbn; [|done|].
  - split; [by rewrite map_sum_insert_None..| |done].
    intros a u. destruct (decide (a = name)) as [->|].
    + rewrite lookup_insert_eq. intros [= <-]. by repeat split.
    + rewrite lookup_insert_ne by done. apply H4.
  - intros a u Hu. destruct (Hw _ _ Hu) as [? ?]. unfold agent_usage in *. cbn.
    destruct (decide (a = name)) as [->|].
    + rewrite lookup_insert_eq. by rewrite Hn in *.
    + by rewrite lookup_insert_ne.
Qed.

Lemma scan_root_ok (s : CapacityState) n key_id e :
  accounts_ok s -> root_sizes_ok (Some e) -> accounts_ok (scan_root s n key_id e).1.1.
Proof.
  intros Hok Hsz. unfold scan_root. destruct (String.eqb _ _); [done|].
  destruct (rt_is_dir e) as [[|]|]; [| |done].
  2:{ cbn [fst]. destruct (_ || _); [keep_accounts|done]. }
  destruct (negb (valid_id _)); [keep_accounts|].
  destruct (_ && _); [keep_accounts|].
  set (s1 := if is_some (qs_agents s !! rt_name e) then s else track_agent s (rt_name e)).
  assert (Hok1 : accounts_ok s1).
  { unfold s1. destruct (qs_agents s !! rt_name e) eqn:Hn; [done|]. by apply accounts_track_agent. }
  destruct (negb (rt_private e)); [keep_accounts|].
  destruct (rt_objects e) as [objects|] eqn:Ho; [|done]. apply scan_objects_ok; [done|by apply Hsz].
Qed.

Lemma scan_loop_ok (s : CapacityState) n key_id root :
  accounts_ok s -> Forall root_sizes_ok root -> accounts_ok (scan_loop s n key_id root).1.
Proof.
  revert s n. induction root as [|e root IH]; intros s n Hok Hf; cbn [scan_loop]; [done|].
  apply Forall_cons in Hf as [He Hf].
  pose proof (count_entry_same s n) as Hsame. destruct (count_entry s n) as [[s1 n1] ok].
  cbn [fst] in Hsame. assert (Hok1 : accounts_ok s1) by by eapply same_accounts_ok.
  destruct ok; cbn [negb]; [|done]. destruct e as [e|]; [|done].
  pose proof (scan_root_ok s1 n1 key_id e Hok1 He) as Hok2.
  destruct (scan_root s1 n1 key_id e) as [[s2 n2] f]. cbn [fst] in Hok2.
  destruct f; [by apply IH|done..].
Qed.

Lemma balanced_empty : balanced ObjectUsage_default ∅.
Proof.
  split; rewrite ?map_sum_empty; [done..| |by repeat split].
  intros a u. by rewrite lookup_empty.
Qed.

Lemma track_configured_ok (s s' : CapacityState) agents :
  NoDup agents -> (forall a, a ∈ agents -> qs_agents s !! a = None) -> accounts_ok s ->
  track_configured s agents = Ok s' ->
  accounts_ok s' /\ qs_total s' = qs_total s
  /\ qs_storage_consistent s' = qs_storage_consistent s
  /\ qs_reconstruction_complete s' = qs_reconstruction_complete s.
Proof.
  revert s. induction agents as [|a agents IH]; intros s Hnd Hfr Hok; cbn [track_configured].
  { by intros [= <-]. }
  destruct (_ <=? _); [done|]. apply NoDup_cons in Hnd as [Ha Hnd]. intros Hs.
  destruct (IH (track_agent s a)) as (? & ? & ? & ?); [done| |by apply accounts_track_agent, Hfr; set_solver|done|].
  - intros b Hb. cbn. rewrite lookup_insert_ne by set_solver. apply Hfr. set_solver.
  - by split_and!.
Qed.

(** * The scan reconstructs the stored objects *)

Definition healthy (s : CapacityState) : Prop :=
  qs_storage_consistent s = true /\ qs_reconstruction_complete s = true.

(** The sizes of the objects in a listing, at whichever depth. *)
Definition blob_sizes (objects : list (option ObjectEntry)) : list Z :=
  omap (fun o => e ← o; _ ← strip_suffix ".blob" (oe_name e); Some (default 0 (oe_size e))) objects.
Definition root_blobs (e : option RootEntry) : list Z :=
  match e with
  | Some r =>
      if String.eqb (rt_name r) LOCK_NAME then []
      else match rt_is_dir r, rt_objects r with
           | Some true, Some objects => blob_sizes objects
           | _, _ => []
           end
  | None => []
  end.

(** From [s] to [s'], exactly objects of these sizes were counted, all receipted. *)
Definition counts (s s' : CapacityState) (sizes : list Z) : Prop :=
  ou_logical_bytes (qs_total s') = ou_logical_bytes (qs_total s) + sumZ sizes
  /\ ou_objects (qs_total s') = ou_objects (qs_total s) + zlen sizes
  /\ (ou_receipted_objects (qs_total s) = ou_objects (qs_total s) ->
      ou_receipted_objects (qs_total s') = ou_objects (qs_total s')).

Lemma counts_nil (s s' : CapacityState) : qs_total s' = qs_total s -> counts s s' [].
Proof. intros E. unfold counts. rewrite E. cbn. split_and!; [lia|unfold zlen; cbn; lia|done]. Qed.

Lemma counts_app (a b c : CapacityState) l k : counts a b l -> counts b c k -> counts a c (l ++ k).
Proof.
  intros (H1 & H2 & H3) (H4 & H5 & H6). unfold counts. rewrite sumZ_app, zlen_app.
  split_and!; [lia|lia|auto].
Qed.

Lemma unhealthy (s : CapacityState) code : ~ healthy (inconsistent s code).
Proof. by intros [? _]. Qed.
Lemma unhealthy_incomplete (s : CapacityState) : ~ healthy (incomplete s).
Proof. by intros [_ ?]. Qed.

Lemma check_receipt_total (s : CapacityState) agent hash key_id size o :
  qs_total (check_receipt s agent hash key_id size o).1 = qs_total s
  /\ (healthy (check_receipt s agent hash key_id size o).1 -> healthy s).
Proof.
  unfold check_receipt. destruct (oe_receipt o); [|done]. destruct (_ || _); [done|].
  destruct (str_starts_with _ _); [|done]. destruct (oe_control o) as [[bundle revoked]|]; [|done].
  unfold note_control. destruct (_ && _); cbn [negb].
  - split; [done|]. by intros ?%unhealthy.
  - destruct (_ && _); [|done]. unfold mark_revocation_receipted.
    by destruct (revocation_enabled _).
Qed.

Lemma scan_object_counts (s s' : CapacityState) agent key_id o f :
  scan_object s agent key_id o = (s', f) -> healthy s' -> f <> Fail ->
  f = Continue /\ healthy s /\ counts s s' (blob_sizes [Some o]).
Proof.
  unfold scan_object, blob_sizes. cbn.
  destruct (strip_suffix ".blob" (oe_name o)) as [hash|]; cbn.
  2:{ destruct (opt_filter _ _); intros [= <- <-].
      - destruct (oe_blob_exists o); [|by intros ?%unhealthy]. intros Hh _.
        split_and!; [done|done|by apply counts_nil].
      - by intros ?%unhealthy. }
  destruct (negb _); [intros [= <- <-]; by intros ?%unhealthy|].
  destruct (oe_size o) as [size|]; [|intros [= <- <-]; by intros ?%unhealthy_incomplete].
  destruct (add_usage s agent size) as [s1|] eqn:Hadd; [|by intros [= <- <-]].
  apply add_usage_Some in Hadd as (u & _ & _ & Hmax & _ & _ & ->).
  match goal with |- context [check_receipt ?a ?b ?c ?d ?e ?g] =>
    destruct (check_receipt_total a b c d e g) as [Ht Hh'];
    destruct (check_receipt a b c d e g) as [s2 verified] end. cbn [fst] in *.
  intros [= <- <-]. destruct verified; [|by intros ?%unhealthy]. intros Hh _.
  split_and!; [done|by apply Hh'|]. unfold counts. cbn. rewrite Ht. cbn.
  split_and!; [lia|unfold zlen; cbn; lia|]. unfold sat_add. lia.
Qed.

Lemma count_entry_cases (s : CapacityState) n :
  (count_entry s n = (s, n + 1, true)) \/ (exists s', count_entry s n = (s', n, false) /\ ~ healthy s').
Proof.
  unfold count_entry. destruct (_ <=? _); [right|by left]. eexists. split; [done|apply unhealthy].
Qed.

Lemma scan_objects_counts (s s' : CapacityState) n n' agent key_id objects f :
  scan_objects s n agent key_id objects = (s', n', f) -> healthy s' -> f <> Fail ->
  f = Continue /\ healthy s /\ counts s s' (blob_sizes objects).
Proof.
  revert s n. induction objects as [|o objects IH]; intros s n; cbn [scan_objects].
  { intros [= <- <- <-] Hh _. split_and!; [done|done|by apply counts_nil]. }
  destruct (count_entry_cases s n) as [->|(s1 & -> & Hun)]; cbn [negb].
  2:{ intros [= <- <- <-] Hh _. by destruct Hun. }
  destruct o as [o|]; [|by intros [= <- <- <-]].
  destruct (scan_object s agent key_id o) as [s1 f1] eqn:Ho. intros Hs Hh Hf.
  destruct f1.
  - destruct (IH _ _ Hs Hh Hf) as (-> & Hh1 & Hc).
    destruct (scan_object_counts _ _ _ _ _ _ Ho Hh1) as (_ & Hh0 & Hc0); [done|].
    split_and!; [done|done|].
    change (blob_sizes (Some o :: objects)) with (blob_sizes ([Some o] ++ objects)).
    unfold blob_sizes. rewrite omap_app. by eapply counts_app.
  - simplify_eq. by destruct (scan_object_counts _ _ _ _ _ _ Ho Hh Hf).
  - by simplify_eq.
Qed.

Lemma scan_root_counts (s s' : CapacityState) n n' key_id e f :
  scan_root s n key_id e = (s', n', f) -> healthy s' -> f <> Fail ->
  f = Continue /\ healthy s /\ counts s s' (root_blobs (Some e)).
Proof.
  unfold scan_root, root_blobs. destruct (String.eqb _ _).
  { intros [= <- <- <-] Hh _. split_and!; [done|done|by apply counts_nil]. }
  destruct (rt_is_dir e) as [[|]|]; [| |by intros [= <- <- <-]].
  2:{ intros [= <- <- <-]. destruct (_ || _); [by intros ?%unhealthy|]. intros Hh _.
      split_and!; [done|done|by apply counts_nil]. }
  destruct (negb (valid_id _)); [intros [= <- <- <-]; by intros ?%unhealthy|].
  destruct (_ && _); [intros [= <- <- <-]; by intros ?%unhealthy|].
  set (s1 := if is_some (qs_agents s !! rt_name e) then s else track_agent s (rt_name e)).
  assert (Hs1 : qs_total s1 = qs_total s /\ (healthy s1 -> healthy s)).
  { unfold s1. by destruct (is_some _). }
  destruct Hs1 as [Ht1 Hh1].
  destruct (negb (rt_private e)); [intros [= <- <- <-]; by intros ?%unhealthy_incomplete|].
  destruct (rt_objects e) as [objects|]; [|by intros [= <- <- <-]].
  intros Hs Hh Hf. destruct (scan_objects_counts _ _ _ _ _ _ _ _ Hs Hh Hf) as (-> & Hh0 & Hc).
  split_and!; [done|auto|]. unfold counts in *. by rewrite Ht1 in Hc.
Qed.

Lemma scan_loop_counts (s s' : CapacityState) n key_id root f :
  scan_loop s n key_id root = (s', f) -> healthy s' -> f <> Fail ->
  f = Continue /\ healthy s /\ counts s s' (concat (map root_blobs root)).
Proof.
  revert s n. induction root as [|e root IH]; intros s n; cbn [scan_loop].
  { intros [= <- <-] Hh _. split_and!; [done|done|by apply counts_nil]. }
  destruct (count_entry_cases s n) as [->|(s1 & -> & Hun)]; cbn [negb].
  2:{ intros [= <- <-] Hh _. by destruct Hun. }
  destruct e as [e|]; [|by intros [= <- <-]].
  destruct (scan_root s (n + 1) key_id e) as [[s1 n1] f1] eqn:Hr. intros Hs Hh Hf.
  destruct f1.
  - destruct (IH _ _ Hs Hh Hf) as (-> & Hh1 & Hc).
    destruct (scan_root_counts _ _ _ _ _ _ _ Hr Hh1) as (_ & Hh0 & Hc0); [done|].
    split_and!; [done|done|]. cbn [map concat]. by eapply counts_app.
  - simplify_eq. by destruct (scan_root_counts _ _ _ _ _ _ _ Hr Hh Hf).
  - by simplify_eq.
Qed.

(** * Admission *)

(** What a granted reservation checked and did. *)
Lemma admit_object_Ok (s s' : CapacityState) agent bytes revocation free :
  admit_object s agent bytes revocation free = Ok s' ->
  healthy s
  /\ exists u s1, qs_agents s !! agent = Some u /\ add_usage s agent bytes = Some s1
    /\ s' = (if revocation then add_revocation s1 agent bytes else s1)
    /\ below_floor s bytes revocation free = false
    /\ let '(total, current, gb, go, limit) :=
         if revocation then
           (qs_revocations s, agent_revocation s agent, cc_revocation_max_bytes (qs_limits s),
            cc_revocation_max_objects (qs_limits s),
            mkAgentCapacityLimit (cc_revocation_agent_max_bytes (qs_limits s))
              (cc_revocation_agent_max_objects (qs_limits s)))
         else
           (subtract_usage (qs_total s) (qs_revocations s),
            subtract_usage u (agent_revocation s agent),
            cc_global_max_bytes (qs_limits s), cc_global_max_objects (qs_limits s),
            agent_limit s agent) in
       over_limit total bytes gb go = false
       /\ over_limit current bytes (al_max_bytes limit) (al_max_objects limit) = false.
Proof.
  unfold admit_object. rewrite guard_bind_Ok, ok_or_bind_Ok. intros (Hh & u & Hu & Hr). split.
  { unfold healthy. split_bools. done. }
  destruct revocation; cbv iota beta zeta in Hr;
    rewrite !guard_bind_Ok, ok_or_bind_Ok in Hr; destruct Hr as (H1 & H2 & H3 & s1 & H4 & [= <-]);
    exists u, s1; by split_and!.
Qed.

Lemma over_limit_false (u : ObjectUsage) bytes max_bytes max_objects :
  over_limit u bytes max_bytes max_objects = false ->
  ou_logical_bytes u + bytes <= max_bytes /\ ou_objects u + 1 <= max_objects
  /\ ou_logical_bytes u < max_bytes.
Proof.
  unfold over_limit, exceeds, is_none_or, checked_add. intros Ho. split_bools.
  destruct (_ + _ <=? u64_max) in *; [|done]. destruct (ou_objects u + 1 <=? u64_max) in *; [|done].
  split_bools. lia.
Qed.

(** * Reservations *)

Definition normal_total (s : CapacityState) : ObjectUsage :=
  subtract_usage (qs_total s) (qs_revocations s).
Definition normal_agent (s : CapacityState) (agent : string) : ObjectUsage :=
  subtract_usage (agent_usage s agent) (agent_revocation s agent).

Lemma reserve_for_Ok (s s' : CapacityState) agent bytes revocation free :
  accounts_ok s -> 0 <= bytes ->
  reserve_for s agent bytes revocation free = (s', Ok tt) ->
  healthy s /\ accounts_ok s' /\ slack s' agent
  /\ qs_limits s' = qs_limits s
  /\ qs_storage_consistent s' = qs_storage_consistent s
  /\ qs_reconstruction_complete s' = qs_reconstruction_complete s
  /\ ou_logical_bytes (qs_total s') = ou_logical_bytes (qs_total s) + bytes
  /\ ou_objects (qs_total s') = ou_objects (qs_total s) + 1
  /\ ou_receipted_objects (qs_total s') = ou_receipted_objects (qs_total s)
  /\ (revocation && revocation_enabled s = true ->
      ou_receipted_objects (agent_revocation s' agent) < ou_objects (agent_revocation s' agent)).
Proof.
  intros Hok Hb. unfold reserve_for.
  destruct (admit_object _ _ _ _ _) as [s1|] eqn:Ha; [|done]. intros [= ->].
  apply admit_object_Ok in Ha as (Hh & u & s1 & Hu & Hadd & -> & _ & _).
  destruct (accounts_add_usage _ _ _ _ Hok Hb Hadd) as (Hok1 & Hsl & Hrb & Hrn).
  apply add_usage_Some in Hadd as (u' & _ & _ & _ & _ & _ & E).
  destruct (revocation && revocation_enabled s).
  - destruct (accounts_add_revocation s1 agent bytes Hok1 Hb Hrb Hrn) as (Hok2 & _ & _ & _ & _ & Hlt).
    split_and!; try done; try by rewrite E.
  - split_and!; try done; try by rewrite E.
Qed.

Lemma reserve_for_Err (s s' : CapacityState) agent bytes revocation free code :
  reserve_for s agent bytes revocation free = (s', Err code) ->
  same_accounts s s' /\ qs_storage_consistent s' = qs_storage_consistent s
  /\ qs_reconstruction_complete s' = qs_reconstruction_complete s
  /\ qs_reasons s' = qs_reasons s
  /\ qs_admission_rejections s' = sat_add (qs_admission_rejections s) 1.
Proof.
  unfold reserve_for. destruct (admit_object _ _ _ _ _); [done|]. intros [= <- <-]. by repeat split.
Qed.

(** * Publication keeps the accounts exact *)

Definition stored_ok (st : Storage) (k : string * string) (r : SignedReceipt) : Prop :=
  exists body, vs_blobs st !! k = Some body /\ re_size_bytes (sr_receipt r) = slen body
    /\ re_agent_id (sr_receipt r) = k.1 /\ re_sha256 (sr_receipt r) = k.2.

Record storage_ok (st : Storage) : Prop := {
  so_accounts : accounts_ok (vs_capacity st);
  (** The accounts never under-count what is stored. *)
  so_covers : map_sum slen (vs_blobs st) <= ou_logical_bytes (qs_total (vs_capacity st))
              /\ Z.of_nat (size (vs_blobs st)) <= ou_objects (qs_total (vs_capacity st));
  so_receipts : forall k r, vs_receipts st !! k = Some r -> stored_ok st k r;
  (** While the store is healthy they are exact and every object has its receipt. *)
  so_exact : healthy (vs_capacity st) ->
    ou_logical_bytes (qs_total (vs_capacity st)) = map_sum slen (vs_blobs st)
    /\ ou_objects (qs_total (vs_capacity st)) = Z.of_nat (size (vs_blobs st))
    /\ forall k, is_Some (vs_blobs st !! k) -> is_Some (vs_receipts st !! k);
}.

(** Objects are only ever added. *)
Definition appended (st st' : Storage) : Prop :=
  vs_blobs st ⊆ vs_blobs st' /\ vs_receipts st ⊆ vs_receipts st'.

Lemma appended_refl (st : Storage) : appended st st.
Proof. by split. Qed.
Lemma appended_trans (a b c : Storage) : appended a b -> appended b c -> appended a c.
Proof. intros [] []. split; by etrans. Qed.

Lemma slen_nonneg (s : string) : 0 <= slen s.
Proof. unfold slen. lia. Qed.

(** Changing only the health of the accounts, for the worse. *)
Lemma storage_ok_health (st : Storage) (c : CapacityState) :
  storage_ok st -> same_accounts (vs_capacity st) c -> (healthy c -> healthy (vs_capacity st)) ->
  storage_ok (with_capacity st c).
Proof.
  intros [H1 H2 H3 H4] Hsame Hh. pose proof Hsame as (_ & E & _ & _ & _).
  split; cbn.
  - by eapply same_accounts_ok.
  - by rewrite E.
  - done.
  - intros Hc. rewrite E. by apply H4, Hh.
Qed.

Lemma storage_ok_failed (st : Storage) :
  storage_ok st -> storage_ok (with_capacity st (write_failed (vs_capacity st))).
Proof.
  intros Hst. apply storage_ok_health; [done|by repeat split|]. by intros ?%unhealthy.
Qed.

Lemma storage_ok_reject (st : Storage) agent bytes revocation free c code :
  storage_ok st -> reserve_for (vs_capacity st) agent bytes revocation free = (c, Err code) ->
  storage_ok (with_capacity st c).
Proof.
  intros Hst Hr. apply reserve_for_Err in Hr as (Hsame & E1 & E2 & _).
  apply storage_ok_health; [done|done|]. unfold healthy. by rewrite E1, E2.
Qed.

Section PutProofs.
Context `{Crypto : VaultCrypto} `{Json : BundleJson}.

Lemma note_control_healthy (s : CapacityState) agent bundle :
  healthy (note_control s agent bundle).1 -> healthy s.
Proof. unfold note_control. destruct (_ && _); [by intros ?%unhealthy|done]. Qed.

Lemma new_receipt_Some config agent hash kind bytes now r :
  new_receipt config agent hash kind bytes now = Some r ->
  re_size_bytes (sr_receipt r) = slen bytes /\ re_agent_id (sr_receipt r) = agent
  /\ re_sha256 (sr_receipt r) = hash.
Proof. unfold new_receipt. destruct (checked_add _ _); [|done]. by intros [= <-]. Qed.

(** The files a publication may leave, and what success means. *)
Lemma publish_spec config (st : Storage) env agent hash kind bytes :
  let k := (agent, hash) in
  let '(st', r) := publish config st env agent hash kind bytes in
  vs_capacity st' = vs_capacity st
  /\ (vs_blobs st' = vs_blobs st \/ vs_blobs st' = <[k := bytes]> (vs_blobs st))
  /\ (vs_receipts st' = vs_receipts st
      \/ (vs_blobs st' = <[k := bytes]> (vs_blobs st)
          /\ exists r', vs_receipts st' = <[k := r']> (vs_receipts st)
          /\ re_size_bytes (sr_receipt r') = slen bytes /\ re_agent_id (sr_receipt r') = agent
          /\ re_sha256 (sr_receipt r') = hash))
  /\ (forall r', r = Some r' -> vs_blobs st' = <[k := bytes]> (vs_blobs st)
      /\ vs_receipts st' = <[k := r']> (vs_receipts st)
      /\ new_receipt config agent hash kind bytes (pe_now env) = Some r').
Proof.
  cbv zeta. unfold publish. destruct (pe_directory env); cbn [negb]; [|by split_and!; auto].
  set (st1 := if linked (pe_blob env) then _ else st).
  assert (H1 : vs_capacity st1 = vs_capacity st /\ vs_receipts st1 = vs_receipts st
    /\ (vs_blobs st1 = vs_blobs st \/ vs_blobs st1 = <[(agent, hash) := bytes]> (vs_blobs st))).
  { unfold st1. destruct (linked _); split_and!; auto. }
  destruct H1 as (E1 & E2 & E3).
  destruct (written (pe_blob env)) eqn:Hw; cbn [negb].
  2:{ split_and!; auto. done. }
  assert (Hb : vs_blobs st1 = <[(agent, hash) := bytes]> (vs_blobs st)).
  { unfold st1. by destruct (pe_blob env). }
  destruct (new_receipt _ _ _ _ _ _) as [r|] eqn:Hr; [|by split_and!; auto].
  destruct (new_receipt_Some _ _ _ _ _ _ _ Hr) as (R1 & R2 & R3).
  destruct (linked (pe_receipt env)) eqn:Hl.
  - destruct (_ && _); cbn; (split_and!; [done|by right| |]).
    + right. split; [done|]. exists r. by rewrite E2.
    + intros r' [= <-]. by rewrite Hb, E2.
    + right. split; [done|]. exists r. by rewrite E2.
    + done.
  - destruct (pe_receipt env); [done|]. cbn. split_and!; auto. done.
Qed.

Lemma storage_insert_size (m : gmap (string * string) string) k v :
  m !! k = None -> Z.of_nat (size (<[k := v]> m)) = Z.of_nat (size m) + 1.
Proof. intros Hk. rewrite map_size_insert_None by done. lia. Qed.

Lemma stored_ok_insert (st : Storage) blobs receipts c k bytes k' r :
  vs_blobs st !! k = None -> stored_ok st k' r ->
  stored_ok (mkStorage (<[k := bytes]> blobs) receipts c) k' r \/ blobs <> vs_blobs st.
Proof.
  intros Hk (body & Hb & ? & ? & ?). destruct (decide (blobs = vs_blobs st)) as [->|]; [left|by right].
  exists body. split_and!; try done. cbn. rewrite lookup_insert_ne; [done|]. intros ->. congruence.
Qed.

(** The accounts after a reservation cover one more object of that size. *)
Lemma storage_ok_after (st st' : Storage) c c' k bytes :
  storage_ok st -> vs_blobs st !! k = None -> accounts_ok c' ->
  ou_logical_bytes (qs_total c) = ou_logical_bytes (qs_total (vs_capacity st)) + slen bytes ->
  ou_objects (qs_total c) = ou_objects (qs_total (vs_capacity st)) + 1 ->
  ou_logical_bytes (qs_total c') = ou_logical_bytes (qs_total c) ->
  ou_objects (qs_total c') = ou_objects (qs_total c) ->
  (vs_blobs st' = vs_blobs st \/ vs_blobs st' = <[k := bytes]> (vs_blobs st)) ->
  (vs_receipts st' = vs_receipts st
   \/ (vs_blobs st' = <[k := bytes]> (vs_blobs st)
       /\ exists r, vs_receipts st' = <[k := r]> (vs_receipts st)
       /\ re_size_bytes (sr_receipt r) = slen bytes /\ re_agent_id (sr_receipt r) = k.1
       /\ re_sha256 (sr_receipt r) = k.2)) ->
  (healthy c' -> healthy (vs_capacity st) /\ vs_blobs st' = <[k := bytes]> (vs_blobs st)
     /\ is_Some (vs_receipts st' !! k) /\ vs_receipts st ⊆ vs_receipts st') ->
  storage_ok (with_capacity st' c').
Proof.
  intros [H1 [H2 H2'] H3 H4] Hk Hacc T1 T2 T3 T4 Hb Hr Hh.
  pose proof (slen_nonneg bytes) as Hlen.
  split; cbn [vs_capacity vs_blobs vs_receipts with_capacity].
  - done.
  - rewrite T3, T4, T1, T2. destruct Hb as [-> | ->]; [lia|].
    rewrite map_sum_insert_None, storage_insert_size by done. lia.
  - intros k' r' Hr'. unfold stored_ok. cbn [vs_blobs with_capacity].
    assert (Hold : vs_receipts st !! k' = Some r' -> exists body, vs_blobs st' !! k' = Some body
      /\ re_size_bytes (sr_receipt r') = slen body /\ re_agent_id (sr_receipt r') = k'.1
      /\ re_sha256 (sr_receipt r') = k'.2).
    { intros Ho. destruct (H3 _ _ Ho) as (body & Hbody & ?). exists body. split; [|done].
      destruct Hb as [-> | ->]; [done|]. rewrite lookup_insert_ne; [done|]. intros ->. congruence. }
    destruct Hr as [E|(E & r & E' & R)]; [rewrite E in Hr'; auto|].
    rewrite E' in Hr'. destruct (decide (k' = k)) as [->|].
    + rewrite lookup_insert_eq in Hr'. injection Hr' as <-. exists bytes.
      by rewrite E, lookup_insert_eq.
    + rewrite lookup_insert_ne in Hr' by done. auto.
  - intros Hc. destruct (Hh Hc) as (Hold & Eb & Hk' & Hsub). destruct (H4 Hold) as (E1 & E2 & E3).
    rewrite T3, T4, T1, T2, Eb, map_sum_insert_None, storage_insert_size by done.
    split_and!; [lia|lia|]. intros k'. destruct (decide (k' = k)) as [->|]; [done|].
    rewrite lookup_insert_ne by done. intros Hs. destruct (E3 _ Hs) as [r Hr'].
    exists r. by eapply lookup_weaken.
Qed.

Lemma put_new_ok config (st : Storage) env agent hash kind bytes control revocation :
  storage_ok st -> vs_blobs st !! (agent, hash) = None -> vs_receipts st !! (agent, hash) = None ->
  storage_ok (put_new config st env agent hash kind bytes control revocation).1
  /\ appended st (put_new config st env agent hash kind bytes control revocation).1.
Proof.
  intros Hst Hb Hr. unfold put_new.
  destruct (reserve_for _ _ _ _ _) as [c [[]|code]] eqn:Hres.
  2:{ split; [by eapply storage_ok_reject|by split]. }
  destruct (reserve_for_Ok _ _ _ _ _ _ (so_accounts _ Hst) (slen_nonneg bytes) Hres)
    as (Hh & Hacc & Hsl & Hlim & Hc1 & Hc2 & T1 & T2 & _ & Hrev).
  pose proof (publish_spec config (with_capacity st c) env agent hash kind bytes) as Hp.
  cbv zeta in Hp. destruct (publish _ _ _ _ _ _ _) as [st1 [r|]].
  all: cbn [vs_blobs vs_receipts vs_capacity with_capacity] in Hp.
  2:{ destruct Hp as (E & P1 & P2 & _). cbn [fst]. split.
      - rewrite E. eapply storage_ok_after; [exact Hst|exact Hb| |exact T1|exact T2|done|done|exact P1| |].
        + eapply same_accounts_ok; [|exact Hacc]. by repeat split.
        + destruct P2 as [P2|(P2 & r' & ? & ? & ? & ?)]; [by left|right]. split; [done|]. by exists r'.
        + by intros ?%unhealthy.
      - split; cbn.
        + destruct P1 as [-> | ->]; [done|]. by apply insert_subseteq.
        + destruct P2 as [->|(_ & r' & -> & _)]; [done|]. by apply insert_subseteq. }
  destruct Hp as (E & _ & _ & P). destruct (P r eq_refl) as (P1 & P2 & P3). clear P. rewrite E.
  apply new_receipt_Some in P3 as (R1 & R2 & R3).
  set (c1 := mark_receipted c agent).
  set (c2 := if revocation then mark_revocation_receipted c1 agent else c1).
  assert (A1 : accounts_ok c1) by by apply accounts_mark_receipted.
  assert (A2 : accounts_ok c2 /\ qs_total c2 = qs_total c1 /\ (healthy c2 -> healthy c1)).
  { unfold c2. destruct revocation; [|done]. split.
    - unfold mark_revocation_receipted. destruct (revocation_enabled c1) eqn:Hen; [|done].
      pose proof (accounts_mark_revocation c1 agent A1) as Hm.
      unfold mark_revocation_receipted in Hm. rewrite Hen in Hm. apply Hm. apply Hrev.
      unfold revocation_enabled in *. cbn in Hen. rewrite Hlim in Hen. by rewrite Hen.
    - unfold mark_revocation_receipted. by destruct (revocation_enabled c1). }
  destruct A2 as (A2 & E2 & Hh2).
  assert (Hfinish : forall c3, same_accounts c2 c3 -> (healthy c3 -> healthy c2) ->
    storage_ok (with_capacity st1 c3)).
  { intros c3 Hs Hh3. pose proof Hs as (_ & E3 & _).
    eapply storage_ok_after; [exact Hst|exact Hb|by eapply same_accounts_ok|exact T1|exact T2| | |by right| |].
    - by rewrite E3, E2.
    - by rewrite E3, E2.
    - right. split; [done|]. by exists r.
    - intros _. split; [done|]. split; [done|]. rewrite P2, lookup_insert_eq.
      split; [by eexists|]. by apply insert_subseteq. }
  assert (Happ : appended st (with_capacity st1 c2)).
  { split; cbn; rewrite ?P1, ?P2; by apply insert_subseteq. }
  destruct control as [[bundle rv]|]; [|split; [by apply Hfinish|done]].
  pose proof (note_control_same c2 agent bundle) as Hn.
  assert (Hn' : healthy (note_control c2 agent bundle).1 -> healthy c2).
  { apply note_control_healthy. }
  destruct (note_control c2 agent bundle) as [c3 ok]. cbn [fst] in *.
  split; [by apply Hfinish|done].
Qed.

Lemma put_inner_ok config (st : Storage) env agent hash kind bytes revocation :
  storage_ok st ->
  storage_ok (put_inner config st env agent hash kind bytes revocation).1
  /\ appended st (put_inner config st env agent hash kind bytes revocation).1.
Proof.
  intros Hst. unfold put_inner.
  destruct (_ && _); [done|]. destruct (_ && _); [done|]. destruct (_ <? _); [done|].
  destruct (vs_receipts st !! (agent, hash)) as [r|] eqn:Hr; cbn [is_some].
  { unfold put_existing. destruct (storage_get _ _ _ _ _) as [[existing body]|e].
    - destruct (_ || _); [done|]. destruct (negb _); [|done].
      split; [by apply storage_ok_failed|by split].
    - split; [by apply storage_ok_failed|by split]. }
  destruct (vs_blobs st !! (agent, hash)) eqn:Hb; cbn [is_some].
  { split; [by apply storage_ok_failed|by split]. }
  by apply put_new_ok.
Qed.

(** Whatever a write does, the objects there before stay as they were. *)
Lemma put_inner_appended config (st : Storage) env agent hash kind bytes revocation :
  appended st (put_inner config st env agent hash kind bytes revocation).1.
Proof.
  unfold put_inner. destruct (_ && _); [done|]. destruct (_ && _); [done|]. destruct (_ <? _); [done|].
  destruct (vs_receipts st !! (agent, hash)) as [r|] eqn:Hr; cbn [is_some].
  { unfold put_existing. destruct (storage_get _ _ _ _ _) as [[? ?]|]; [|done].
    destruct (_ || _); [done|]. by destruct (negb _). }
  destruct (vs_blobs st !! (agent, hash)) eqn:Hb; cbn [is_some]; [done|]. unfold put_new.
  destruct (reserve_for _ _ _ _ _) as [c [[]|code]]; [|done].
  pose proof (publish_spec config (with_capacity st c) env agent hash kind bytes) as Hp. cbv zeta in Hp.
  destruct (publish _ _ _ _ _ _ _) as [st1 r]. destruct Hp as (_ & P1 & P2 & _). cbn in P1, P2.
  assert (Happ : appended st st1).
  { split; [destruct P1 as [-> | ->]; [done|by apply insert_subseteq]|].
    destruct P2 as [-> | (_ & r' & -> & _)]; [done|by apply insert_subseteq]. }
  destruct r as [r|]; [|done]. destruct (if str_starts_with _ _ then _ else None) as [[bundle rv]|]; [|done].
  by destruct (note_control _ _ _) as [c3 [|]].
Qed.

End PutProofs.

(** * Histories of requests *)

Record put_request := mkPutRequest {
  pr_env : PutEnv;
  pr_agent : string;
  pr_hash : string;
  pr_kind : string;
  pr_bytes : string;
  pr_revocation : bool;
}.

Definition put_step `{VaultCrypto, BundleJson} (config : StorageConfig) (st : Storage) (r : put_request) : Storage :=
  (put_inner config st (pr_env r) (pr_agent r) (pr_hash r) (pr_kind r) (pr_bytes r) (pr_revocation r)).1.
Definition put_run `{VaultCrypto, BundleJson} (config : StorageConfig) (st : Storage) (h : list put_request) : Storage :=
  fold_left (put_step config) h st.

Lemma put_run_ok `{VaultCrypto, BundleJson} config st h :
  storage_ok st -> storage_ok (put_run config st h) /\ appended st (put_run config st h).
Proof.
  revert st. induction h as [|r h IH]; intros st Hst; cbn; [done|].
  destruct (put_inner_ok config st (pr_env r) (pr_agent r) (pr_hash r) (pr_kind r) (pr_bytes r)
    (pr_revocation r) Hst) as [H1 H2].
  destruct (IH (put_step config st r) H1) as [H3 H4]. split; [done|]. by eapply appended_trans.
Qed.

(** * Fixtures for the examples *)

Definition demo_limits : CapacityConfig :=
  {| cc_global_max_bytes := 20; cc_global_max_objects := 10;
     cc_agent_max_bytes := 12; cc_agent_max_objects := 5; cc_min_free_bytes := 100;
     cc_revocation_max_bytes := 8; cc_revocation_max_objects := 2;
     cc_revocation_agent_max_bytes := 8; cc_revocation_agent_max_objects := 2;
     cc_revocation_reserved_free_bytes := 50; cc_max_scan_entries := 1000;
     cc_max_tracked_agents := 4; cc_agent_overrides := ∅ |}.

Definition demo_hash (c : ascii) : string :=
  String c "00000000000000000000000000000000000000000000000000000000000000f".

(** A blob of agent "a" with its receipt, and a revocation. *)
Definition demo_root : list (option RootEntry) :=
  [ Some (mkRootEntry LOCK_NAME (Some false) true None);
    Some (mkRootEntry "a" (Some true) true (Some
      [ Some (mkObjectEntry (demo_hash "1" +:+ ".blob") (Some 5) true
                (Some (mkReceipt FORMAT "k" "a" "backup" (demo_hash "1") 5 1 2)) None);
        Some (mkObjectEntry (demo_hash "1" +:+ ".receipt.json") (Some 300) true None None);
        Some (mkObjectEntry (demo_hash "2" +:+ ".blob") (Some 3) true
                (Some (mkReceipt FORMAT "k" "a" "bundle-review" (demo_hash "2") 3 1 2))
                (Some ("bundle-1", true))) ])) ].
Definition demo_opened : CapacityState :=
  match capacity_open demo_limits ["a"; "b"] "k" (Ok tt) (Some demo_root) with
  | Ok s => s | Err _ => CapacityState_new demo_limits end.

Definition sample_vault_crypto : VaultCrypto := {|
  body_sha256 := fun body => demo_hash (ascii_of_nat (48 + String.length body));
  receipt_signature := fun _ => "sig";
  receipt_signed := fun _ r => String.eqb (sr_signature_hex r) "sig";
  receipt_json_len := fun _ => 300;
  public_key_ok := fun _ => true;
  key_sign := fun _ => "sig";
  key_verifies := fun _ _ s => String.eqb s "sig";
|}.
Definition sample_bundle_json : BundleJson := {|
  manifest_ser := fun _ => ""; manifest_de := fun _ => None; completion_ser := fun _ => "";
  signed_completion_ser := fun _ => ""; signed_completion_de := fun _ => None;
  event_ser := fun _ => ""; signed_event_ser := fun _ => ""; signed_event_de := fun _ => None;
|}.
Definition demo_storage_config : StorageConfig := mkStorageConfig "k" "pub" 1000 3600.
Definition demo_env : PutEnv := mkPutEnv (Some 1000000) true true true Written 1000 Written true.
Definition demo_storage : Storage :=
  mkStorage ∅ ∅ (match track_configured (CapacityState_new demo_limits) ["a"; "b"] with
                 | Ok s => s | Err _ => CapacityState_new demo_limits end).

Lemma demo_agents_nodup : NoDup ["a"; "b"].
Proof. repeat constructor; set_solver. Qed.

Lemma demo_root_sizes : Forall root_sizes_ok demo_root.
Proof.
  repeat apply Forall_cons_2; try apply Forall_nil_2; intros objects Ho; [done|].
  injection Ho as <-.
  repeat apply Forall_cons_2; try apply Forall_nil_2; intros n Hn; injection Hn as <-; lia.
Qed.

Lemma demo_storage_ok : storage_ok demo_storage.
Proof.
  assert (Hempty : accounts_ok (CapacityState_new demo_limits)).
  { split; [apply balanced_empty..|]. intros a u. cbn. by rewrite lookup_empty. }
  unfold demo_storage. destruct (track_configured _ _) as [s|] eqn:Hs; [|by vm_compute in Hs].
  apply track_configured_ok in Hs as (Hok & Ht & _); [|repeat constructor; set_solver|done|done].
  split; cbn; rewrite ?Ht; [done|done| |].
  - intros k r. by rewrite lookup_empty.
  - intros _. split_and!; [done|done|]. intros k [b Hb]. by rewrite lookup_empty in Hb.
Qed.

Lemma opened_accounts (limits : CapacityConfig) agents key_id lock root s :
  capacity_open limits agents key_id lock root = Ok s -> NoDup agents ->
  (forall l, root = Some l -> Forall root_sizes_ok l) -> accounts_ok s.
Proof.
  unfold capacity_open. rewrite guard_bind_Ok, res_bind_Ok. intros (_ & [] & _ & Hs) Hnd Hroot.
  apply res_bind_Ok in Hs as (s0 & Htrack & Hs).
  assert (Hempty : accounts_ok (CapacityState_new limits)).
  { split; [apply balanced_empty..|]. intros a u. cbn. by rewrite lookup_empty. }
  apply track_configured_ok in Htrack as (Hok & _); [|done|done|done].
  assert (Hscan : accounts_ok (scan s0 key_id root).1).
  { unfold scan. destruct root as [root|]; [|done].
    pose proof (scan_loop_ok s0 0 key_id root Hok (Hroot _ eq_refl)) as Hl.
    by destruct (scan_loop s0 0 key_id root). }
  destruct (scan s0 key_id root) as [s1 ok]. injection Hs as <-. cbn in Hscan.
  destruct ok; [done|]. keep_accounts.
Qed.

(** * Main results *)

(** C37: whatever the scan of the storage finds, the accounts it builds are
    balanced: the totals are the sums over the agents, the revocation budget
    is the sum of its own per-agent accounts and part of the total, no object
    is counted as receipted twice and no counter overflows. *)
Theorem opened_accounts_balanced (limits : CapacityConfig) (agents : list string) (key_id : string)
    (lock : result unit string) (root : option (list (option RootEntry))) (s : CapacityState) :
  capacity_open limits agents key_id lock root = Ok s -> NoDup agents ->
  (forall l, root = Some l -> Forall root_sizes_ok l) ->
  ou_logical_bytes (qs_total s) = map_sum ou_logical_bytes (qs_agents s)
  /\ ou_objects (qs_total s) = map_sum ou_objects (qs_agents s)
  /\ ou_logical_bytes (qs_revocations s) = map_sum ou_logical_bytes (qs_agent_revocations s)
  /\ ou_logical_bytes (qs_revocations s) <= ou_logical_bytes (qs_total s) <= u64_max
  /\ ou_objects (qs_revocations s) <= ou_objects (qs_total s) <= u64_max
  /\ forall a u, qs_agents s !! a = Some u ->
       0 <= ou_logical_bytes u /\ 0 <= ou_receipted_objects u <= ou_objects u.
Proof.
  intros Hopen Hnd Hroot. pose proof (opened_accounts _ _ _ _ _ _ Hopen Hnd Hroot) as Hok.
  destruct (revocations_within s Hok) as [W1 W2]. destruct Hok as [[H1 H2 _ H4 [H5 H6]] [R1 _ _ _ _] _].
  split_and!; try done. intros a u Hu. destruct (H4 _ _ Hu) as ([? ?] & ? & ?). lia.
Qed.

Lemma opened_accounts_balanced_witness :
  capacity_open demo_limits ["a"; "b"] "k" (Ok tt) (Some demo_root) = Ok demo_opened
  /\ ou_logical_bytes (qs_total demo_opened) = 8
  /\ ou_logical_bytes (qs_revocations demo_opened) <= ou_logical_bytes (qs_total demo_opened) <= u64_max.
Proof.
  assert (Ho : capacity_open demo_limits ["a"; "b"] "k" (Ok tt) (Some demo_root) = Ok demo_opened)
    by (vm_compute; reflexivity).
  split; [exact Ho|]. split; [vm_compute; reflexivity|].
  destruct (opened_accounts_balanced _ _ _ _ _ _ Ho demo_agents_nodup) as (_ & _ & _ & Hb & _).
  - intros l Hl. injection Hl as <-. exact demo_root_sizes.
  - exact Hb.
Defined.

(** A store that opens healthy was reconstructed exactly: the total bytes
    and objects are those of the stored objects the scan listed, and every one
    of them has a verified receipt. Anything the scan could not read, verify
    or count makes the store unhealthy, which refuses new writes. *)
Theorem open_reconstructs (limits : CapacityConfig) (agents : list string) (key_id : string)
    (lock : result unit string) (root : option (list (option RootEntry))) (s : CapacityState) :
  capacity_open limits agents key_id lock root = Ok s -> healthy s -> NoDup agents ->
  exists l, root = Some l
  /\ ou_logical_bytes (qs_total s) = sumZ (concat (map root_blobs l))
  /\ ou_objects (qs_total s) = zlen (concat (map root_blobs l))
  /\ ou_receipted_objects (qs_total s) = ou_objects (qs_total s).
Proof.
  unfold capacity_open. rewrite guard_bind_Ok, res_bind_Ok. intros (_ & [] & _ & Hs) Hh Hnd.
  apply res_bind_Ok in Hs as (s0 & Htrack & Hs).
  assert (Hempty : accounts_ok (CapacityState_new limits)).
  { split; [apply balanced_empty..|]. intros a u. cbn. by rewrite lookup_empty. }
  apply track_configured_ok in Htrack as (_ & Ht & _); [|done|done|done].
  destruct (scan s0 key_id root) as [s1 ok] eqn:Hscan. injection Hs as <-.
  destruct ok; [|by apply unhealthy in Hh].
  destruct root as [l|]; [|done]. cbn in Hscan.
  destruct (scan_loop s0 0 key_id l) as [s2 f] eqn:Hl. injection Hscan as -> Hf.
  destruct (scan_loop_counts _ _ _ _ _ _ Hl Hh) as (-> & _ & C1 & C2 & C3); [by intros ->|].
  rewrite Ht in C1, C2, C3. cbn in C1, C2, C3. exists l. split_and!; [done|lia|lia|]. by apply C3.
Qed.

Lemma open_reconstructs_witness :
  exists l, Some demo_root = Some l
  /\ ou_logical_bytes (qs_total demo_opened) = sumZ (concat (map root_blobs l))
  /\ ou_objects (qs_total demo_opened) = zlen (concat (map root_blobs l))
  /\ ou_receipted_objects (qs_total demo_opened) = ou_objects (qs_total demo_opened).
Proof.
  apply (open_reconstructs demo_limits ["a"; "b"] "k" (Ok tt) (Some demo_root) demo_opened).
  - vm_compute. reflexivity.
  - split; vm_compute; reflexivity.
  - apply demo_agents_nodup.
Defined.

(** C32: a granted normal reservation respects every limit: the store is
    healthy, the normal usage (total less revocations) of the store and of the
    agent stays within its byte and object limits, the free-space floor holds,
    only this agent's account moves, by exactly the object, and the revocation
    budget is untouched. *)
Theorem reserve_within_limits (s s' : CapacityState) (agent : string) (bytes : Z) (free : option Z) :
  accounts_ok s -> 0 <= bytes ->
  reserve s agent bytes free = (s', Ok tt) ->
  healthy s /\ accounts_ok s'
  /\ ou_logical_bytes (normal_total s') = ou_logical_bytes (normal_total s) + bytes
  /\ ou_logical_bytes (normal_total s') <= cc_global_max_bytes (qs_limits s)
  /\ ou_objects (normal_total s') <= cc_global_max_objects (qs_limits s)
  /\ ou_logical_bytes (normal_agent s' agent) <= al_max_bytes (agent_limit s agent)
  /\ ou_objects (normal_agent s' agent) <= al_max_objects (agent_limit s agent)
  /\ (forall a, a <> agent -> agent_usage s' a = agent_usage s a)
  /\ qs_revocations s' = qs_revocations s /\ qs_agent_revocations s' = qs_agent_revocations s
  /\ below_floor s bytes false free = false.
Proof.
  intros Hok Hb Hres. unfold reserve in Hres.
  destruct (reserve_for_Ok _ _ _ _ _ _ Hok Hb Hres) as (Hh & Hok' & _).
  unfold reserve_for in Hres. cbn [andb] in Hres.
  destruct (admit_object _ _ _ _ _) as [s1|] eqn:Ha; [|done]. injection Hres as ->.
  apply admit_object_Ok in Ha as (_ & u & s1 & Hu & Hadd & -> & Hfloor & Hlim).
  cbv iota beta zeta in Hlim. destruct Hlim as [L1 L2].
  apply over_limit_false in L1 as [L1 L1'], L2 as [L2 L2'].
  apply add_usage_Some in Hadd as (u' & Hu' & _ & _ & _ & _ & ->). rewrite Hu in Hu'. injection Hu' as <-.
  destruct (revocations_within s Hok) as [W1 W2].
  assert (Hag : ou_logical_bytes (agent_revocation s agent) <= ou_logical_bytes u
                /\ ou_objects (agent_revocation s agent) <= ou_objects u).
  { unfold agent_revocation. destruct (qs_agent_revocations s !! agent) as [v|] eqn:Hv; cbn.
    - destruct (aq_within _ Hok _ _ Hv) as [? ?]. unfold agent_usage in *. by rewrite Hu in *.
    - destruct (ba_each _ _ (aq_agents _ Hok) _ _ Hu) as (? & ? & ?). lia. }
  unfold normal_total, normal_agent, agent_usage, subtract_usage, sat_sub in *. cbn in *.
  rewrite lookup_insert_eq in *. cbn.
  change (agent_revocation (with_usage s _ _) agent) with (agent_revocation s agent).
  split_and!; try done; try lia. intros a Hne. by rewrite lookup_insert_ne.
Qed.

Lemma reserve_within_limits_witness :
  let s := vs_capacity demo_storage in
  exists s', reserve s "a" 12 (Some 1000000) = (s', Ok tt)
    /\ ou_logical_bytes (normal_agent s' "a") <= al_max_bytes (agent_limit s "a").
Proof.
  intros s. eexists. split; [vm_compute; reflexivity|].
  apply (reserve_within_limits s _ "a" 12 (Some 1000000)).
  - apply demo_storage_ok.
  - lia.
  - vm_compute. reflexivity.
Defined.

(** The revocation budget is separate. With the budget enabled, a granted
    revocation stays within the revocation limits of the store and of the
    agent, and leaves the normal usage of every agent and of the store as it
    was, so it is granted even when the normal limits are exhausted and never
    consumes normal capacity. *)
Theorem revocation_budget_separate (s s' : CapacityState) (agent : string) (bytes : Z)
    (free : option Z) :
  accounts_ok s -> 0 <= bytes -> revocation_enabled s = true ->
  reserve_revocation s agent bytes free = (s', Ok tt) ->
  ou_logical_bytes (qs_revocations s') = ou_logical_bytes (qs_revocations s) + bytes
  /\ ou_logical_bytes (qs_revocations s') <= cc_revocation_max_bytes (qs_limits s)
  /\ ou_objects (qs_revocations s') <= cc_revocation_max_objects (qs_limits s)
  /\ ou_logical_bytes (agent_revocation s' agent) <= cc_revocation_agent_max_bytes (qs_limits s)
  /\ ou_objects (agent_revocation s' agent) <= cc_revocation_agent_max_objects (qs_limits s)
  /\ ou_logical_bytes (normal_total s') = ou_logical_bytes (normal_total s)
  /\ ou_objects (normal_total s') = ou_objects (normal_total s)
  /\ forall a, ou_logical_bytes (normal_agent s' a) = ou_logical_bytes (normal_agent s a)
            /\ ou_objects (normal_agent s' a) = ou_objects (normal_agent s a).
Proof.
  intros Hok Hb Hen Hres. unfold reserve_revocation, reserve_for in Hres. rewrite Hen in Hres.
  cbn [andb] in Hres. destruct (admit_object _ _ _ _ _) as [s2|] eqn:Ha; [|done]. injection Hres as ->.
  apply admit_object_Ok in Ha as (_ & u & s1 & Hu & Hadd & -> & _ & Hlim).
  cbv iota beta zeta in Hlim. cbn [al_max_bytes al_max_objects] in Hlim. destruct Hlim as [L1 L2].
  apply over_limit_false in L1 as [L1 L1'], L2 as [L2 L2'].
  destruct (accounts_add_usage _ _ _ _ Hok Hb Hadd) as (Hok1 & _ & Hrb & Hrn).
  destruct (accounts_add_revocation s1 agent bytes Hok1 Hb Hrb Hrn) as (Hok2 & A1 & A2 & A3 & A4 & _).
  apply add_usage_Some in Hadd as (u' & Hu' & _ & _ & _ & _ & ->). rewrite Hu in Hu'. injection Hu' as <-.
  set (s1 := with_usage s _ _) in *.
  change (qs_revocations s1) with (qs_revocations s) in *.
  change (agent_revocation s1 agent) with (agent_revocation s agent) in *.
  rewrite A1, A2, A3, A4. unfold normal_total, normal_agent, subtract_usage, sat_sub.
  cbn [ou_logical_bytes ou_objects]. rewrite A1, A2.
  change (qs_total (add_revocation s1 agent bytes)) with (qs_total s1). cbn [qs_total s1 with_usage counted ou_logical_bytes ou_objects].
  split_and!; try done; try lia. intros a.
  change (agent_usage (add_revocation s1 agent bytes) a) with (agent_usage s1 a).
  destruct (decide (a = agent)) as [->|Hne].
  - rewrite A3, A4. unfold agent_usage. cbn [qs_agents s1 with_usage].
    rewrite lookup_insert_eq, Hu. cbn. lia.
  - unfold agent_usage, agent_revocation. cbn [qs_agents s1 with_usage].
    rewrite lookup_insert_ne by done. cbn. by rewrite lookup_insert_ne.
Qed.

(** Even with the normal limits exhausted. *)
Lemma revocation_budget_separate_witness :
  let s := (reserve (vs_capacity demo_storage) "a" 12 (Some 1000000)).1 in
  (reserve s "a" 1 (Some 1000000)).2 = Err "agent_limit"
  /\ exists s', reserve_revocation s "a" 4 (Some 1000000) = (s', Ok tt)
    /\ ou_logical_bytes (qs_revocations s') <= cc_revocation_max_bytes (qs_limits s).
Proof.
  intros s. split; [vm_compute; reflexivity|]. eexists. split; [vm_compute; reflexivity|].
  apply (revocation_budget_separate s _ "a" 4 (Some 1000000)).
  - apply (reserve_for_Ok (vs_capacity demo_storage) s "a" 12 false (Some 1000000));
      [apply demo_storage_ok|lia|vm_compute; reflexivity].
  - lia.
  - vm_compute. reflexivity.
  - vm_compute. reflexivity.
Defined.

(** The reported status agrees with admission: when [usage] says that new
    uploads are blocked, every normal reservation is refused, for any agent
    and size; and a refused reservation changes nothing but the rejection
    counter. *)
Theorem blocked_uploads_refused (s : CapacityState) (agent : string) (bytes : Z)
    (filesystem : FilesystemCapacity) :
  0 <= bytes -> cu_new_uploads_blocked (usage s filesystem) = true ->
  exists s' code, reserve s agent bytes (fc_available_bytes filesystem) = (s', Err code)
  /\ same_accounts s s' /\ qs_reasons s' = qs_reasons s
  /\ qs_admission_rejections s' = sat_add (qs_admission_rejections s) 1.
Proof.
  intros Hb Hbl.
  destruct (reserve s agent bytes (fc_available_bytes filesystem)) as [s' [[]|code]] eqn:Hres.
  2:{ exists s', code. split; [done|]. unfold reserve in Hres.
      by destruct (reserve_for_Err _ _ _ _ _ _ _ Hres) as (? & _ & _ & ? & ?). }
  exfalso. unfold reserve, reserve_for in Hres. cbn [andb] in Hres.
  destruct (admit_object _ _ _ _ _) as [s1|] eqn:Ha; [|done].
  apply admit_object_Ok in Ha as ([Hc1 Hc2] & u & s2 & _ & _ & _ & Hfloor & Hlim).
  cbv iota beta zeta in Hlim. destruct Hlim as [L _]. apply over_limit_false in L as (_ & L1 & L2).
  unfold usage in Hbl. cbn [cu_new_uploads_blocked] in Hbl. rewrite Hc1, Hc2 in Hbl. cbn [negb orb] in Hbl.
  rewrite (proj2 (Z.leb_gt _ _) L2) in Hbl. rewrite (proj2 (Z.leb_gt _ _)) in Hbl by lia.
  cbn [orb] in Hbl. rewrite orb_false_r in Hbl. unfold below_floor in Hfloor.
  destruct (_ || _) in *; cbn [andb] in *; [|done].
  destruct (fc_available_bytes filesystem) as [available|]; [|done].
  cbn [is_none_or opt_zip] in *. unfold checked_add in *. cbn [mbind option_bind] in *.
  destruct (_ + reserved_free s false <=? u64_max); [|done]. cbn [mbind option_bind] in *.
  destruct (Z.leb_spec (cc_min_free_bytes (qs_limits s) + reserved_free s false + bytes) u64_max); [|done].
  cbn [mbind option_bind] in *.
  destruct (Z.leb_spec (cc_min_free_bytes (qs_limits s) + reserved_free s false + bytes + METADATA_MARGIN)
              u64_max); [|done].
  destruct (Z.leb_spec (cc_min_free_bytes (qs_limits s) + reserved_free s false + METADATA_MARGIN)
              u64_max); [|lia].
  cbn [is_none_or fst snd] in *. split_bools. lia.
Qed.

Lemma blocked_uploads_refused_witness :
  let s := vs_capacity demo_storage in
  let fs := free_space (Some (10, 10)) in
  cu_new_uploads_blocked (usage s fs) = true
  /\ exists s' code, reserve s "a" 1 (fc_available_bytes fs) = (s', Err code).
Proof.
  intros s fs. assert (Hb : cu_new_uploads_blocked (usage s fs) = true) by (vm_compute; reflexivity).
  split; [exact Hb|].
  destruct (blocked_uploads_refused s "a" 1 fs) as (s' & code & Hr & _); [lia|exact Hb|].
  exists s', code. exact Hr.
Defined.

(** C30: the accounts implement the store. From any sound state, along any
    history of requests and of file system failures, the accounts never
    under-count the stored objects; while the store is healthy they are exact
    and every object has its receipt; every receipt describes its object; and
    nothing stored is ever overwritten or removed. *)
Theorem accounts_refine_store `{Crypto : VaultCrypto} `{Json : BundleJson} (config : StorageConfig) (st : Storage)
    (h : list put_request) :
  storage_ok st ->
  let st' := put_run config st h in
  let total := qs_total (vs_capacity st') in
  vs_blobs st ⊆ vs_blobs st' /\ vs_receipts st ⊆ vs_receipts st'
  /\ map_sum slen (vs_blobs st') <= ou_logical_bytes total
  /\ Z.of_nat (size (vs_blobs st')) <= ou_objects total
  /\ (forall k r, vs_receipts st' !! k = Some r -> stored_ok st' k r)
  /\ (healthy (vs_capacity st') ->
      ou_logical_bytes total = map_sum slen (vs_blobs st')
      /\ ou_objects total = Z.of_nat (size (vs_blobs st'))
      /\ forall k, is_Some (vs_blobs st' !! k) -> is_Some (vs_receipts st' !! k)).
Proof.
  intros Hst. destruct (put_run_ok config st h Hst) as [[_ [H1 H2] H3 H4] [H5 H6]].
  by split_and!.
Qed.

Definition demo_requests : list put_request :=
  [ mkPutRequest demo_env "a" (demo_hash "3") "backup" "abc" false;
    mkPutRequest demo_env "a" (demo_hash "3") "backup" "abc" false;
    mkPutRequest (mkPutEnv (Some 1000000) true true true (WriteFailed true) 1000 Written true)
      "b" (demo_hash "2") "audit" "de" false;
    mkPutRequest demo_env "b" (demo_hash "1") "audit" "f" false ].

Lemma accounts_refine_store_witness :
  let st' := put_run (H := sample_vault_crypto) (H0 := sample_bundle_json) demo_storage_config demo_storage demo_requests in
  size (vs_blobs st') = 2%nat /\ size (vs_receipts st') = 1%nat
  /\ map_sum slen (vs_blobs st') <= ou_logical_bytes (qs_total (vs_capacity st')).
Proof.
  intros st'. split; [vm_compute; reflexivity|]. split; [vm_compute; reflexivity|].
  destruct (accounts_refine_store (Crypto := sample_vault_crypto) (Json := sample_bundle_json) demo_storage_config demo_storage
    demo_requests demo_storage_ok) as (_ & _ & Hle & _).
  exact Hle.
Defined.

(** Uploads are idempotent. Once an object is accepted, sending it again
    with the same kind returns the same receipt and changes nothing, even when
    every limit is exhausted or the store refuses new writes. *)
Theorem resend_idempotent `{Crypto : VaultCrypto} `{Json : BundleJson} (config : StorageConfig) (st : Storage)
    (env : PutEnv) (agent hash kind bytes : string) (later : Storage) (env' : PutEnv)
    (r : SignedReceipt) :
  (forall v, receipt_signed (sc_public_key config) (mkSignedReceipt v (receipt_signature v)) = true) ->
  (forall s, receipt_json_len s <= MAX_RECEIPT_BYTES) ->
  valid_id agent = true -> valid_id (sc_key_id config) = true -> valid_kind kind = true ->
  hash = body_sha256 bytes -> valid_hash hash = true ->
  sc_max_object_bytes config <= MAX_OBJECT_BYTES -> 0 < sc_retention_secs config ->
  vs_receipts st !! (agent, hash) = None ->
  put config st env agent hash kind bytes = (later, Ok r) ->
  pe_private env' = true -> pe_parent_sync env' = true ->
  forall st', appended later st' -> put config st' env' agent hash kind bytes = (st', Ok r).
Proof.
  intros Hsig Hjson Hag Hkey Hkind Hhash Hvh Hmax Hret Hnone Hput Hpriv Hsync st' [Hb Hr].
  unfold put, put_inner in *. cbn [andb] in *.
  destruct (_ && negb _); [done|]. destruct (Z.ltb_spec (sc_max_object_bytes config) (slen bytes)); [done|].
  rewrite Hnone in Hput. cbn [is_some] in Hput.
  destruct (is_some (vs_blobs st !! (agent, hash))); [done|]. unfold put_new in Hput.
  destruct (reserve_for _ _ _ _ _) as [c [[]|]]; [|done].
  pose proof (publish_spec config (with_capacity st c) env agent hash kind bytes) as Hp.
  cbv zeta in Hp. destruct (publish _ _ _ _ _ _ _) as [st1 [r1|]]; [|done].
  destruct Hp as (_ & _ & _ & Hp). destruct (Hp r1 eq_refl) as (P1 & P2 & P3). clear Hp.
  assert (Hlater : vs_blobs later = vs_blobs st1 /\ vs_receipts later = vs_receipts st1 /\ r = r1).
  { destruct (if str_starts_with _ _ then _ else None) as [[bundle rv]|].
    - destruct (note_control _ _ _) as [c3 [|]]; by simplify_eq.
    - by simplify_eq. }
  destruct Hlater as (L1 & L2 & ->).
  assert (Hr' : vs_receipts st' !! (agent, hash) = Some r1).
  { eapply lookup_weaken; [|exact Hr]. by rewrite L2, P2, lookup_insert_eq. }
  assert (Hb' : vs_blobs st' !! (agent, hash) = Some bytes).
  { eapply lookup_weaken; [|exact Hb]. by rewrite L1, P1, lookup_insert_eq. }
  rewrite Hr'. cbn [is_some]. unfold put_existing.
  assert (Hget : storage_get config st' (pe_private env') agent hash = Ok (r1, bytes)).
  { unfold new_receipt in P3. destruct (checked_add _ _) as [until|] eqn:Hu; [|done].
    apply checked_add_Some in Hu as [-> Hu]. injection P3 as <-.
    unfold storage_get. rewrite Hpriv, Hr'. cbn [negb guard res_bind ok_or].
    rewrite (proj2 (Z.ltb_ge _ _)) by apply Hjson. cbn [guard res_bind].
    unfold verify_receipt. cbn [sr_receipt re_format re_key_id re_agent_id re_kind re_sha256
      re_size_bytes re_received_at_ms re_retention_until_ms].
    rewrite Hkey, Hag, Hkind, Hvh, Hsig. rewrite (proj2 (Z.leb_le _ _)) by lia.
    rewrite (proj2 (Z.ltb_lt _ _)) by lia. rewrite !String.eqb_refl.
    cbn [andb negb orb guard res_bind]. rewrite Hb'. cbn [ok_or res_bind].
    rewrite (proj2 (Z.ltb_ge _ _)) by lia. cbn [guard res_bind]. unfold verify_body.
    cbn [sr_receipt re_size_bytes re_sha256]. by rewrite Z.eqb_refl, <- Hhash, String.eqb_refl. }
  rewrite Hget. unfold new_receipt in P3. destruct (checked_add _ _); [|done]. injection P3 as <-.
  cbn. by rewrite String.eqb_refl, Z.eqb_refl, Hsync.
Qed.

Definition demo_put : Storage * result SignedReceipt PutError :=
  put (Crypto := sample_vault_crypto) (Json := sample_bundle_json) demo_storage_config demo_storage demo_env "a" (demo_hash "3")
    "backup" "abc".
Definition demo_receipt : SignedReceipt :=
  match demo_put.2 with
  | Ok r => r
  | Err _ => mkSignedReceipt (mkReceipt "" "" "" "" "" 0 0 0) ""
  end.

Lemma resend_idempotent_witness :
  put (Crypto := sample_vault_crypto) (Json := sample_bundle_json) demo_storage_config demo_put.1 demo_env "a" (demo_hash "3") "backup" "abc"
  = (demo_put.1, Ok demo_receipt).
Proof.
  apply (resend_idempotent (Crypto := sample_vault_crypto) (Json := sample_bundle_json) demo_storage_config demo_storage demo_env
    "a" (demo_hash "3") "backup" "abc" demo_put.1 demo_env demo_receipt).
  - intros v. reflexivity.
  - intros s. vm_compute. congruence.
  - vm_compute. reflexivity.
  - vm_compute. reflexivity.
  - vm_compute. reflexivity.
  - vm_compute. reflexivity.
  - vm_compute. reflexivity.
  - vm_compute. congruence.
  - vm_compute. reflexivity.
  - vm_compute. reflexivity.
  - vm_compute. reflexivity.
  - reflexivity.
  - reflexivity.
  - apply appended_refl.
Defined.
