(* ===== verification/BundleServer.v ===== *)
(** The bundle catalog of the vault server (crates/argos-vault/src/bundle/server.rs):
    registration, completion and review of recovery bundles over the object
    store of [VaultQuota], with the durable intents that survive a crash
    between the store and the catalog. *)
From Stdlib Require Import ZArith Lia Ascii.
From stdpp Require Import base gmap strings list.
From S2P Require Import Prelude RustPath Receipts Bundle VaultQuota.
#[local] Open Scope Z_scope.

(** * State *)

Definition MAX_BUNDLES : Z := 10000.

Record RevocationIntent := mkRevocationIntent {
  ri_format : string;
  ri_key_id : string;
  ri_agent_id : string;
  ri_bundle_id : string;
  ri_manifest_sha256 : string;
  ri_request : ReviewRequest;
}.

(** The rows of [bundles] and [reviews]. *)
Record BundleRow := mkBundleRow {
  br_manifest_hash : string;
  br_completion_hash : option string;
}.
Record ReviewRow := mkReviewRow {
  rw_agent : string;
  rw_bundle : string;
  rw_sequence : Z;
  rw_hash : string;
  rw_request_id : string;
}.

(** The three tables: bundles by agent and ID, reviews in the order of their
    insertion, intents by agent, bundle and operation. *)
Record Tables := mkTables {
  tb_bundles : gmap (string * string) BundleRow;
  tb_reviews : list ReviewRow;
  tb_intents : gmap (string * string * string) string;
}.

(** The database and its marker below the storage directory; [cf_schema] once
    the transaction that creates the tables took effect. *)
Record CatalogFiles := mkCatalogFiles {
  cf_exists : bool;
  cf_marked : bool;
  cf_schema : bool;
  cf_tables : Tables;
}.

Record Vault := mkVault {
  va_storage : Storage;
  va_files : CatalogFiles;
}.

(** serde_json on the remaining values. *)
Class IntentJson := {
  intent_ser :: Serialize RevocationIntent;
  signed_intent_ser :: Serialize (Signed RevocationIntent);
  signed_intent_de :: Deserialize (Signed RevocationIntent);
  record_ser :: Serialize BundleRecord;
}.

(** * A request: state passing with errors; a failed request keeps its effects *)

Definition M (A : Type) : Type := Vault -> Vault * result A PutError.
Definition ret {A} (a : A) : M A := fun v => (v, Ok a).
Definition lift {A} (r : result A PutError) : M A := fun v => (v, r).
Definition reads {A} (f : Vault -> result A PutError) : M A := fun v => (v, f v).
Definition bind {A B} (m : M A) (k : A -> M B) : M B :=
  fun v => match m v with (v, Ok a) => k a v | (v, Err e) => (v, Err e) end.
#[local] Notation "'let*' x ':=' m 'in' k" := (bind m (fun x => k))
  (at level 10, x pattern, m at level 100, k at level 200).

Definition other {A} (r : result A string) : result A PutError :=
  match r with Ok a => Ok a | Err e => Err (OtherError e) end.
Definition reject (bad : bool) (e : string) : result unit PutError := guard bad (OtherError e).
Definition found {A} (o : option A) (e : string) : result A PutError := ok_or o (OtherError e).

Definition with_storage (v : Vault) (st : Storage) : Vault := mkVault st (va_files v).
Definition with_tables (v : Vault) (t : Tables) : Vault :=
  mkVault (va_storage v)
    (mkCatalogFiles (cf_exists (va_files v)) (cf_marked (va_files v)) (cf_schema (va_files v)) t).
Definition tables (v : Vault) : Tables := cf_tables (va_files v).

(** A statement outside a transaction, or a whole transaction: [None] when a
    statement of it fails, which changes nothing. *)
Definition transact (c : commit_outcome) (f : Tables -> option Tables) : M unit :=
  fun v => match f (tables v) with
           | None => (v, Err (OtherError "constraint"))
           | Some t => commit_with (OtherError "commit") c v (with_tables v t) tt
           end.

(** The statements. *)
Definition insert_bundle (key : string * string) (hash : string) (t : Tables) : option Tables :=
  if is_some (tb_bundles t !! key) then None
  else Some (mkTables (<[key := mkBundleRow hash None]> (tb_bundles t)) (tb_reviews t) (tb_intents t)).
Definition set_completion (key : string * string) (hash : string) (t : Tables) : option Tables :=
  row ← tb_bundles t !! key;
  match br_completion_hash row with
  | Some _ => None
  | None => Some (mkTables (<[key := mkBundleRow (br_manifest_hash row) (Some hash)]> (tb_bundles t))
                    (tb_reviews t) (tb_intents t))
  end.
Definition same_bundle (agent id : string) (r : ReviewRow) : bool :=
  String.eqb (rw_agent r) agent && String.eqb (rw_bundle r) id.
(** PRIMARY KEY(agent,bundle,sequence), UNIQUE(agent,bundle,request_id). *)
Definition insert_review (row : ReviewRow) (t : Tables) : option Tables :=
  if existsb (fun r => same_bundle (rw_agent row) (rw_bundle row) r
                       && ((rw_sequence r =? rw_sequence row)
                           || String.eqb (rw_request_id r) (rw_request_id row))) (tb_reviews t)
  then None
  else Some (mkTables (tb_bundles t) (tb_reviews t ++ [row]) (tb_intents t)).
Definition insert_intent (key : string * string * string) (payload : string) (t : Tables) : option Tables :=
  if is_some (tb_intents t !! key) then None
  else Some (mkTables (tb_bundles t) (tb_reviews t) (<[key := payload]> (tb_intents t))).
Definition delete_intent (key : string * string * string) (t : Tables) : Tables :=
  mkTables (tb_bundles t) (tb_reviews t) (delete key (tb_intents t)).

(** * The catalog *)

(** What opening the catalog files finds. *)
Record OpenEnv := mkOpenEnv {
  oe_db : write_outcome;
  oe_connect : bool;
  oe_schema : commit_outcome;
  oe_marker : write_outcome;
  (** The marker's text, the file's owner and mode, [quick_check] and the three tables. *)
  oe_intact : bool;
}.

Definition with_files (v : Vault) (f : CatalogFiles) : Vault := mkVault (va_storage v) f.
Definition empty_tables : Tables := mkTables ∅ [] ∅.

Definition accounting_incomplete (v : Vault) : bool :=
  negb (qs_reconstruction_complete (vs_capacity (va_storage v)))
  || negb (qs_storage_consistent (vs_capacity (va_storage v))).

(** The branch of [Catalog::open] that creates both files. *)
Definition catalog_create (env : OpenEnv) : M unit := fun v =>
  let f := va_files v in
  let v := with_files v (mkCatalogFiles (linked (oe_db env)) (cf_marked f) (cf_schema f) (cf_tables f)) in
  if negb (written (oe_db env)) || negb (oe_connect env) then (v, Err (OtherError "catalog"))
  else match commit_with (OtherError "schema") (oe_schema env) v
               (with_files v (mkCatalogFiles true (cf_marked f) true empty_tables)) tt with
  | (v, Err e) => (v, Err e)
  | (v, Ok _) =>
      let f := va_files v in
      let v := with_files v (mkCatalogFiles (cf_exists f) (linked (oe_marker env)) (cf_schema f) (cf_tables f)) in
      (v, if written (oe_marker env) then Ok tt else Err (OtherError "marker"))
  end.

(** [Catalog::open]: [None] when there is no catalog and none is created. *)
Definition catalog_open (env : OpenEnv) (create : bool) : M (option unit) := fun v =>
  let f := va_files v in
  if negb (cf_exists f) && negb (cf_marked f) then
    if (0 <? qs_bundle_control_objects (vs_capacity (va_storage v))) || accounting_incomplete v
    then (v, Err (OtherError "번들 제어 객체와 카탈로그 상태 불일치: 자동 초기화 거부"))
    else if negb create then (v, Ok None)
    else (let* _ := catalog_create env in ret (Some tt)) v
  else if negb (cf_exists f) || negb (cf_marked f)
  then (v, Err (OtherError "번들 카탈로그 초기화/유실 흔적: 수동 점검 필요"))
  else if negb (oe_intact env) || negb (cf_schema f)
  then (v, Err (OtherError "카탈로그 형식/무결성 오류"))
  else (v, Ok (Some tt)).

Definition catalog_required (env : OpenEnv) (create : bool) : M unit :=
  let* c := catalog_open env create in lift (found c "카탈로그 없음").

Section Server.
Context `{Crypto : VaultCrypto} `{Json : BundleJson} `{IJson : IntentJson}.
Variable config : StorageConfig.

#[local] Abbreviation verifying_key := (sc_public_key config).

(** [Catalog::intent]: the payload stored before, or [proposed], stored now. *)
Definition intent (c : commit_outcome) (agent id operation proposed : string) : M string :=
  let* old := reads (fun v => Ok (tb_intents (tables v) !! (agent, id, operation))) in
  match old with
  | Some old =>
      let* _ := lift (reject (MAX_MANIFEST_BYTES <? slen old) "게시 의도 크기 오류") in ret old
  | None =>
      let* _ := transact c (insert_intent (agent, id, operation) proposed) in ret proposed
  end.

Definition coverage (v : Vault) : result unit PutError :=
  let c := vs_capacity (va_storage v) in
  let? _ := reject (accounting_incomplete v
                    || negb (map_sum (fun n => n) (qs_bundle_control_owners c) =? qs_bundle_control_objects c))
              "소유 번들을 확인할 수 없는 보관 상태: 전체 추천 보류" in
  reject ((MAX_BUNDLES <? Z.of_nat (size (tb_bundles (tables v))))
          || existsb (fun kv => negb (valid_id kv.1.1) || negb (valid_bundle_id kv.1.2))
               (map_to_list (tb_bundles (tables v))))
    "카탈로그 전역 신원/상한 오류".

Definition with_completion (r : BundleRecord) (c : Signed Completion) : BundleRecord :=
  mkBundleRecord (bd_agent_id r) (bd_manifest r) (bd_manifest_receipt r) (Some c) (bd_reviews r)
    (bd_current_review r) (bd_recommended r).
Definition with_review (r : BundleRecord) (e : Signed ReviewEvent) : BundleRecord :=
  let state := review_state (rq_decision (ev_request (si_value e))) in
  mkBundleRecord (bd_agent_id r) (bd_manifest r) (bd_manifest_receipt r) (bd_completion r)
    (bd_reviews r ++ [e]) state (String.eqb state "good").

(** Either file of an object is there. *)
Definition object_exists (st : Storage) (agent hash : string) : bool :=
  is_some (vs_blobs st !! (agent, hash)) || is_some (vs_receipts st !! (agent, hash)).

Definition control_kind (operation : string) : string :=
  if String.eqb operation "complete" then "bundle-completion" else "bundle-review".

(** The record an intent leads to. *)
Definition intended (record : BundleRecord) (operation pending : string) : result BundleRecord PutError :=
  if String.eqb operation "complete" then
    let? _ := reject (is_some (bd_completion record)) "완료 의도/상태 충돌" in
    let? c := found (of_json (A := Signed Completion) pending) "json" in
    Ok (with_completion record c)
  else
    let? e := found (of_json (A := Signed ReviewEvent) pending) "json" in
    Ok (with_review record e).

(** The control objects an unfinished operation has already published: none or one. *)
Definition pending_objects (private : bool) (v : Vault) (agent id : string) (record : BundleRecord)
    (operation : string) : result Z PutError :=
  match tb_intents (tables v) !! (agent, id, operation) with
  | None => Ok 0
  | Some pending =>
      let? _ := reject (MAX_MANIFEST_BYTES <? slen pending) "게시 의도 크기 오류" in
      let? check := intended record operation pending in
      let? _ := other (verify_record check verifying_key (sc_key_id config)) in
      let hash := body_sha256 pending in
      if object_exists (va_storage v) agent hash then
        let? rb := storage_get config (va_storage v) private agent hash in
        let? _ := reject (negb (String.eqb (re_kind (sr_receipt rb.1)) (control_kind operation))
                          || negb (String.eqb rb.2 pending)) "게시 의도 객체 불일치" in
        Ok 1
      else Ok 0
  end.

Definition bundle_coverage (private : bool) (v : Vault) (agent id : string) (record : BundleRecord)
    (repair : bool) : result unit PutError :=
  let? _ := coverage v in
  let expected := 1 + (if is_some (bd_completion record) then 1 else 0) + zlen (bd_reviews record) in
  let? expected :=
    if repair then
      let? a := pending_objects private v agent id record "complete" in
      let? b := pending_objects private v agent id record "review" in
      Ok (expected + a + b)
    else Ok expected in
  let actual := default 0 (qs_bundle_control_owners (vs_capacity (va_storage v)) !! (agent, id)) in
  reject (negb (expected =? actual)) "해당 번들 제어 객체/카탈로그 불일치: 복구 보류".

Definition has_revocation_intent (v : Vault) (agent id : string) : bool :=
  is_some (tb_intents (tables v) !! (agent, id, "revoke")).

Definition intent_mismatch (agent id : string) (record : BundleRecord) (request : ReviewRequest)
    (i : RevocationIntent) : bool :=
  negb (String.eqb (ri_format i) "argos-bundle-revocation-intent-v1")
  || negb (String.eqb (ri_key_id i) (sc_key_id config)) || negb (String.eqb (ri_agent_id i) agent)
  || negb (String.eqb (ri_bundle_id i) id)
  || negb (String.eqb (ri_manifest_sha256 i) (re_sha256 (sr_receipt (bd_manifest_receipt record))))
  || negb (bool_decide (ri_request i = request)).

Definition retain_revocation_intent (c : commit_outcome) (agent id : string) (record : BundleRecord)
    (request : ReviewRequest) : M unit :=
  let signed := sign_value (mkRevocationIntent "argos-bundle-revocation-intent-v1" (sc_key_id config)
                  agent id (re_sha256 (sr_receipt (bd_manifest_receipt record))) request) in
  let* bytes := intent c agent id "revoke" (to_json signed) in
  let* existing := lift (found (of_json (A := Signed RevocationIntent) bytes) "json") in
  let* _ := lift (reject (negb (verify_value existing verifying_key)) "signature") in
  lift (reject (intent_mismatch agent id record request (si_value existing))
          "대기 중 취소 요청의 ID/내용이 다릅니다").

(** [operation GLOB 'superseded-review-*'] of one bundle. *)
Definition superseded (t : Tables) (agent id : string) : list string :=
  map snd (List.filter (fun kv =>
    String.eqb kv.1.1.1 agent && String.eqb kv.1.1.2 id && str_starts_with "superseded-review-" kv.1.2)
    (map_to_list (tb_intents t))).

Fixpoint reject_superseded (index : Z) (rows : list string) (request_id : string) : result unit PutError :=
  match rows with
  | [] => Ok tt
  | raw :: rows =>
      let? _ := reject ((MAX_REVIEWS <=? index) || (MAX_MANIFEST_BYTES <? slen raw))
                  "대체된 미완료 검토 보존 상한/형식 오류" in
      let? event := found (of_json (A := Signed ReviewEvent) raw) "json" in
      let? _ := reject (String.eqb (rq_request_id (ev_request (si_value event))) request_id)
                  "취소로 대체된 미완료 검토 요청은 재적용할 수 없습니다" in
      reject_superseded (index + 1) rows request_id
  end.
Definition reject_superseded_request (v : Vault) (agent id : string) (request : ReviewRequest)
    : result unit PutError :=
  reject_superseded 0 (take 101 (superseded (tables v) agent id)) (rq_request_id request).

(** The transaction of [settle_pending_good]. *)
Definition settle_statements (st : Storage) (private : bool) (agent id raw : string)
    (event : ReviewEvent) (t : Tables) : result Tables PutError :=
  let hash := body_sha256 raw in
  let? t :=
    if object_exists st agent hash then
      let? rb := storage_get config st private agent hash in
      let? _ := reject (negb (String.eqb (re_kind (sr_receipt rb.1)) "bundle-review")
                        || negb (String.eqb rb.2 raw)) "미완료 정상 검토 객체 불일치" in
      found (insert_review (mkReviewRow agent id (ev_sequence event) hash
               (rq_request_id (ev_request event))) t) "constraint"
    else
      let? _ := reject (MAX_REVIEWS <=? zlen (superseded t agent id))
                  "대체된 미완료 검토 보존 100개 상한: 취소 의도는 유지됩니다" in
      found (insert_intent (agent, id, String.append "superseded-review-" hash) raw t) "constraint" in
  Ok (delete_intent (agent, id, "review") t).

Definition settle_pending_good (c : commit_outcome) (private : bool) (agent id : string) : M unit :=
  let* pending := reads (fun v => Ok (tb_intents (tables v) !! (agent, id, "review"))) in
  match pending with
  | None => ret tt
  | Some raw =>
      let* event := lift (found (of_json (A := Signed ReviewEvent) raw) "json") in
      if negb (bool_decide (rq_decision (ev_request (si_value event)) = Good)) then ret tt
      else
        let* t := reads (fun v =>
          settle_statements (va_storage v) private agent id raw (si_value event) (tables v)) in
        transact c (fun _ => Some t)
  end.

(** [record_raw]: the loop over the review rows. *)
Fixpoint load_reviews (private : bool) (st : Storage) (agent : string) (rows : list ReviewRow)
    : result (list (Signed ReviewEvent)) PutError :=
  match rows with
  | [] => Ok []
  | row :: rows =>
      let? rb := storage_get config st private agent (rw_hash row) in
      let? event := found (of_json (A := Signed ReviewEvent) rb.2) "json" in
      let? _ := reject (negb (String.eqb (re_kind (sr_receipt rb.1)) "bundle-review")
                        || negb (ev_sequence (si_value event) =? rw_sequence row)
                        || negb (String.eqb (rq_request_id (ev_request (si_value event))) (rw_request_id row)))
                  "검토 객체 카탈로그 불일치" in
      let? events := load_reviews private st agent rows in
      Ok (event :: events)
  end.

Definition review_rows (t : Tables) (agent id : string) : list ReviewRow :=
  take 101 (sort_by rw_sequence (List.filter (same_bundle agent id) (tb_reviews t))).

Definition load_completion (private : bool) (st : Storage) (agent : string) (hash : option string)
    : result (option (Signed Completion)) PutError :=
  match hash with
  | None => Ok None
  | Some hash =>
      let? rb := storage_get config st private agent hash in
      let? _ := reject (negb (String.eqb (re_kind (sr_receipt rb.1)) "bundle-completion")) "완료 객체 종류 오류" in
      let? c := found (of_json (A := Signed Completion) rb.2) "json" in
      Ok (Some c)
  end.

Definition record_raw (private : bool) (v : Vault) (agent id : string) : result BundleRecord PutError :=
  let? row := found (tb_bundles (tables v) !! (agent, id)) "no row" in
  let? rb := storage_get config (va_storage v) private agent (br_manifest_hash row) in
  let? manifest := found (of_json (A := BundleManifest) rb.2) "json" in
  let? _ := reject (negb (String.eqb (mf_bundle_id manifest) id)) "manifest 카탈로그 ID 불일치" in
  let? completion := load_completion private (va_storage v) agent (br_completion_hash row) in
  let? reviews := load_reviews private (va_storage v) agent (review_rows (tables v) agent id) in
  let current_review := reviewed_state reviews in
  let record := mkBundleRecord agent manifest rb.1 completion reviews current_review
                  (String.eqb current_review "good" && is_some completion) in
  let? _ := other (verify_record record verifying_key (sc_key_id config)) in
  Ok record.

(** [Catalog::record]. *)
Definition record (private : bool) (v : Vault) (agent id : string) : result BundleRecord PutError :=
  let? _ := reject (has_revocation_intent v agent id)
              "취소 의도가 영속 저장되어 완료 전까지 복구/추천을 보류합니다" in
  let? _ :=
    match tb_intents (tables v) !! (agent, id, "review") with
    | None => Ok tt
    | Some pending =>
        let? event := found (of_json (A := Signed ReviewEvent) pending) "json" in
        reject (bool_decide (rq_decision (ev_request (si_value event)) = Revoked))
          "정상 판정 취소가 게시 대기 중이므로 복구/추천을 보류합니다"
    end in
  let? record := record_raw private v agent id in
  let? _ := bundle_coverage private v agent id record false in
  Ok record.

(** [Storage::put] in a request. *)
Definition do_put (env : PutEnv) (agent hash kind bytes : string) (revocation : bool) : M SignedReceipt :=
  fun v => let '(st, r) := put_inner config (va_storage v) env agent hash kind bytes revocation in
           (with_storage v st, r).

(** * Operations *)

(** What the system calls of one request return. *)
Record OpEnv := mkOpEnv {
  op_open : OpenEnv;
  op_private : bool;
  op_put : PutEnv;
  op_intent : commit_outcome;
  op_revoke : commit_outcome;
  op_settle : commit_outcome;
  op_commit : commit_outcome;
  op_now : Z;
}.

Definition count_agent (t : Tables) (agent : string) : Z :=
  zlen (List.filter (fun kv => String.eqb kv.1.1 agent) (map_to_list (tb_bundles t))).

(** The branch of [register_inner] for a new bundle. *)
Definition register_new (env : OpEnv) (agent id hash bytes : string) : M unit :=
  let* _ := reads (fun v => reject (1000 <=? count_agent (tables v) agent) "에이전트별 번들 1000개 상한") in
  let* _ := reads (fun v => reject (MAX_BUNDLES <=? Z.of_nat (size (tb_bundles (tables v))))
                              "번들 카탈로그 10000개 상한") in
  let* _ := do_put (op_put env) agent hash "bundle-manifest" bytes false in
  transact (op_commit env) (insert_bundle (agent, id) hash).

Definition register_inner (env : OpEnv) (agent : string) (manifest : BundleManifest) : M BundleRecord :=
  let id := mf_bundle_id manifest in
  let* _ := lift (other (validate manifest)) in
  let* _ := catalog_required (op_open env) true in
  let bytes := to_json manifest in
  let hash := body_sha256 bytes in
  let* existing := reads (fun v => Ok (tb_bundles (tables v) !! (agent, id))) in
  let* _ :=
    match existing with
    | Some row => lift (reject (negb (String.eqb (br_manifest_hash row) hash))
                          "동일 번들 ID의 manifest 변경 거부")
    | None => register_new env agent id hash bytes
    end in
  let* r := reads (fun v => record_raw (op_private env) v agent id) in
  let* _ := reads (fun v => bundle_coverage (op_private env) v agent id r true) in
  if is_some (bd_completion r) then reads (fun v => record (op_private env) v agent id) else ret r.

(** A completion between its two critical sections: what is left to read and
    the bytes hashed so far. *)
Record CompleteTask := mkCompleteTask {
  tk_agent : string;
  tk_id : string;
  tk_record : BundleRecord;
  tk_rest : list Chunk;
  tk_body : string;
}.

(** [complete_unlocked] up to the release of the lock: the answer for a bundle
    that is complete, or the work to do. *)
Definition complete_begin (env : OpEnv) (agent id : string) : M (BundleRecord + CompleteTask) :=
  let* _ := catalog_required (op_open env) false in
  let* r := reads (fun v => record_raw (op_private env) v agent id) in
  let* _ := reads (fun v => bundle_coverage (op_private env) v agent id r true) in
  if is_some (bd_completion r)
  then let* r := reads (fun v => record (op_private env) v agent id) in ret (inl r)
  else ret (inr (mkCompleteTask agent id r (mf_chunks (bd_manifest r)) "")).

(** One chunk, read outside the lock; [stamped] when the stamps of both files
    could be taken before and were the same after. *)
Definition complete_chunk (private stamped : bool) (st : Storage) (t : CompleteTask)
    : result CompleteTask PutError :=
  match tk_rest t with
  | [] => Ok t
  | chunk :: rest =>
      let reader := mkStorageConfig (sc_key_id config) verifying_key
                      (Z.min (sc_max_object_bytes config) CHUNK_BYTES) (sc_retention_secs config) in
      let? rb := storage_get reader st private (tk_agent t) (ch_sha256 chunk) in
      let? _ := reject (negb (String.eqb (re_kind (sr_receipt rb.1)) "backup")
                        || negb (slen rb.2 =? ch_size_bytes chunk)) "번들 청크/수신증명 불일치" in
      let? _ := reject (negb stamped) "검증 도중 보관 파일 변경: 완료 게시 보류" in
      Ok (mkCompleteTask (tk_agent t) (tk_id t) (tk_record t) rest (String.append (tk_body t) rb.2))
  end.

Definition new_completion (now : Z) (agent id : string) (record : BundleRecord) : Signed Completion :=
  sign_value (mkCompletion "argos-bundle-completion-v1" (sc_key_id config) agent id
    (re_sha256 (sr_receipt (bd_manifest_receipt record))) (mf_sha256 (bd_manifest record))
    (mf_size_bytes (bd_manifest record)) now).

(** The transaction that publishes a completion. *)
Definition completion_statements (agent id hash : string) (t : Tables) : option Tables :=
  delete_intent (agent, id, "complete") <$> set_completion (agent, id) hash t.

(** The publication of a completion whose chunks were read. *)
Definition publish_completion (env : OpEnv) (agent id : string) (record0 : BundleRecord) : M unit :=
  let* bytes := intent (op_intent env) agent id "complete"
                  (to_json (new_completion (op_now env) agent id record0)) in
  let* c := lift (found (of_json (A := Signed Completion) bytes) "json") in
  let* _ := lift (other (verify_record (with_completion record0 c) verifying_key (sc_key_id config))) in
  let hash := body_sha256 bytes in
  let* _ := do_put (op_put env) agent hash "bundle-completion" bytes false in
  transact (op_commit env) (completion_statements agent id hash).

(** [complete_unlocked] after the last chunk; [unchanged] when the stamps of
    all chunks are as they were. *)
Definition complete_commit (env : OpEnv) (unchanged : bool) (t : CompleteTask) : M BundleRecord :=
  let '(mkCompleteTask agent id record0 rest body) := t in
  let* _ := lift (reject (negb (zlen rest =? 0)) "chunks left") in
  let* _ := lift (reject (negb (String.eqb (body_sha256 body) (mf_sha256 (bd_manifest record0))))
                    "번들 전체 해시 불일치") in
  let* _ := catalog_required (op_open env) false in
  let* current := reads (fun v => record_raw (op_private env) v agent id) in
  let* _ := reads (fun v => bundle_coverage (op_private env) v agent id current true) in
  if is_some (bd_completion current) then reads (fun v => record (op_private env) v agent id)
  else
    let* _ := lift (reject (negb (String.eqb (to_json current) (to_json record0)))
                      "검증 도중 번들 상태 변경") in
    let* _ := lift (reject (negb unchanged) "검증 도중 보관 파일 변경: 완료 게시 보류") in
    let* _ := publish_completion env agent id record0 in
    reads (fun v => record (op_private env) v agent id).

(** ** Reviews *)

Definition find_review (r : BundleRecord) (request_id : string) : option (Signed ReviewEvent) :=
  List.find (fun e => String.eqb (rq_request_id (ev_request (si_value e))) request_id) (bd_reviews r).

Definition review_limit (r : BundleRecord) (request : ReviewRequest) : bool :=
  (MAX_REVIEWS <=? zlen (bd_reviews r))
  || ((zlen (bd_reviews r) + 1 =? MAX_REVIEWS) && negb (bool_decide (rq_decision request = Revoked))).

Definition new_event (now : Z) (agent id : string) (r : BundleRecord) (completion : Signed Completion)
    (request : ReviewRequest) : Signed ReviewEvent :=
  sign_value (mkReviewEvent "argos-bundle-review-v1" (sc_key_id config) agent id
    (re_sha256 (sr_receipt (bd_manifest_receipt r))) (body_sha256 (to_json completion))
    (zlen (bd_reviews r) + 1) ((fun e => body_sha256 (to_json e)) <$> list.last (bd_reviews r)) now request).

(** The transaction that publishes a review. *)
Definition review_statements (agent id hash : string) (sequence : Z) (request : ReviewRequest) (t : Tables)
    : option Tables :=
  t ← insert_review (mkReviewRow agent id sequence hash (rq_request_id request)) t;
  let t := delete_intent (agent, id, "review") t in
  Some (if bool_decide (rq_decision request = Revoked) then delete_intent (agent, id, "revoke") t else t).

Definition publish_review (env : OpEnv) (agent id : string) (r : BundleRecord)
    (completion : Signed Completion) (request : ReviewRequest) : M unit :=
  let* _ := lift (reject (review_limit r request) "번들 검토 이력 100개 상한(마지막 슬롯은 취소 전용)") in
  let event := new_event (op_now env) agent id r completion request in
  let* bytes := intent (op_intent env) agent id "review" (to_json event) in
  let* stored := lift (found (of_json (A := Signed ReviewEvent) bytes) "json") in
  let* _ := lift (reject (negb (bool_decide (ev_request (si_value stored) = request)))
                    "기존 미완료 검토 요청을 먼저 같은 ID/내용으로 재시도하세요") in
  let* _ := lift (other (verify_record (with_review r stored) verifying_key (sc_key_id config))) in
  let hash := body_sha256 bytes in
  let revoked := bool_decide (rq_decision request = Revoked) in
  let* _ := do_put (op_put env) agent hash "bundle-review" bytes revoked in
  transact (op_commit env) (review_statements agent id hash (zlen (bd_reviews r) + 1) request).

(** What a review has to settle before it is published: a revocation is
    retained first and the unfinished good review ended, a good review waits
    for the revocation. *)
Definition prepare_review (env : OpEnv) (agent id : string) (r : BundleRecord) (request : ReviewRequest)
    : M BundleRecord :=
  if bool_decide (rq_decision request = Revoked) then
    let* _ := retain_revocation_intent (op_revoke env) agent id r request in
    let* _ := settle_pending_good (op_settle env) (op_private env) agent id in
    let* r := reads (fun v => record_raw (op_private env) v agent id) in
    let* _ := reads (fun v => bundle_coverage (op_private env) v agent id r true) in
    ret r
  else
    let* _ := reads (fun v => reject (has_revocation_intent v agent id)
                "대기 중 취소를 먼저 같은 ID/내용으로 완료해야 합니다") in
    ret r.

Definition request_reused (existing : Signed ReviewEvent) (request : ReviewRequest)
    : result unit PutError :=
  reject (negb (bool_decide (ev_request (si_value existing) = request)))
    "검토 요청 ID 재사용 내용 불일치".

(** [review_inner] for a request the history does not hold yet. *)
Definition review_new (env : OpEnv) (agent id : string) (r : BundleRecord) (request : ReviewRequest)
    : M BundleRecord :=
  let* _ := reads (fun v => reject_superseded_request v agent id request) in
  let* _ := lift (reject (negb (is_some (bd_completion r))) "미완료 번들의 검토는 보류합니다") in
  let* r := prepare_review env agent id r request in
  let* completion := lift (found (bd_completion r) "미완료 번들의 검토는 보류합니다") in
  let* _ :=
    match find_review r (rq_request_id request) with
    | Some existing => lift (request_reused existing request)
    | None => publish_review env agent id r completion request
    end in
  let* _ := reads coverage in
  reads (fun v => record (op_private env) v agent id).

Definition review_inner (env : OpEnv) (agent id : string) (request : ReviewRequest) : M BundleRecord :=
  let* _ := lift (other (validate_review request)) in
  let* _ := catalog_required (op_open env) false in
  let* r := reads (fun v => record_raw (op_private env) v agent id) in
  let* _ := reads (fun v => bundle_coverage (op_private env) v agent id r true) in
  match find_review r (rq_request_id request) with
  | Some existing =>
      let* _ := lift (request_reused existing request) in
      reads (fun v => record (op_private env) v agent id)
  | None => review_new env agent id r request
  end.

(** The handler of [GET /v1/bundles/:agent/:bundle]. *)
Definition get_bundle (env : OpEnv) (agent id : string) : M BundleRecord :=
  let* _ := catalog_required (op_open env) false in
  let* _ := reads coverage in
  reads (fun v => record (op_private env) v agent id).

(** ** Lists *)

Record BundleSummary := mkBundleSummary {
  sm_bundle_id : string;
  sm_original_path : string;
  sm_version : option Z;
  sm_sha256 : string;
  sm_size_bytes : Z;
  sm_complete : bool;
  sm_current_review : string;
  sm_recommended : bool;
}.
Record UnavailableBundle := mkUnavailableBundle {
  ub_bundle_id : string;
  ub_reason : string;
}.
Record BundleList := mkBundleList {
  bl_agent_id : string;
  bl_items : list BundleSummary;
  bl_next_cursor : option string;
  bl_unavailable : list UnavailableBundle;
}.

Definition summary (id : string) (r : BundleRecord) : BundleSummary :=
  let m := bd_manifest r in
  mkBundleSummary id (bm_original_path (mf_metadata m)) (bm_version (mf_metadata m)) (mf_sha256 m)
    (mf_size_bytes m) (is_some (bd_completion r)) (bd_current_review r) (bd_recommended r).

(** The IDs a list shows: those of the catalog and those the store accounts for. *)
Definition known_ids (v : Vault) (agent : string) : list string :=
  let mine {A} (m : gmap (string * string) A) : list string :=
    map (fun kv => kv.1.2) (List.filter (fun kv => String.eqb kv.1.1 agent) (map_to_list m)) in
  btree_set (take (Z.to_nat 10001) (sort (mine (tb_bundles (tables v))))
             ++ mine (qs_bundle_control_owners (vs_capacity (va_storage v)))).

Definition list_page (private : bool) (v : Vault) (agent : string) (after : option string) (limit : nat)
    : BundleList :=
  let after := default "" after in
  let ids := take (limit + 1) (List.filter (fun id => match cmp id after with Gt => true | _ => false end)
                                 (known_ids v agent)) in
  let next := if Nat.ltb limit (length ids) then ids !! (limit - 1)%nat else None in
  let shown := map (fun id => (id, record private v agent id)) (take limit ids) in
  mkBundleList agent
    (omap (fun p => match p.2 with Ok r => Some (summary p.1 r) | Err _ => None end) shown) next
    (omap (fun p => match p.2 with Ok _ => None
                   | Err _ => Some (mkUnavailableBundle p.1 "bundle_state_unavailable") end) shown).

Definition list_bundles (env : OpEnv) (agent : string) (after : option string) (limit : nat) : M BundleList :=
  let* catalog := catalog_open (op_open env) false in
  match catalog with
  | None => ret (mkBundleList agent [] None [])
  | Some _ =>
      let* _ := reads coverage in
      reads (fun v => Ok (list_page (op_private env) v agent after limit))
  end.

End Server.

(** * What every request preserves *)

(** Before the catalog exists its tables are empty. *)
Definition files_ok (v : Vault) : Prop := cf_exists (va_files v) = false -> tables v = empty_tables.

(** Rows are only added, and a bundle only ever gains its completion. *)
Record tables_grow (t t' : Tables) : Prop := {
  tg_bundles : forall k row, tb_bundles t !! k = Some row ->
    exists row', tb_bundles t' !! k = Some row' /\ br_manifest_hash row' = br_manifest_hash row
      /\ (is_Some (br_completion_hash row) -> br_completion_hash row' = br_completion_hash row);
  tg_reviews : tb_reviews t `prefix_of` tb_reviews t';
}.

#[global] Instance tables_grow_preorder : PreOrder tables_grow.
Proof.
  split.
  - intros t. split; [intros k row E; by exists row|done].
  - intros a b c [B1 R1] [B2 R2]. split; [|by etrans].
    intros k row E. destruct (B1 k row E) as (r1 & E1 & M1 & C1).
    destruct (B2 k r1 E1) as (r2 & E2 & M2 & C2). exists r2. split; [done|]. split; [congruence|].
    intros Hs. rewrite C2; rewrite C1 by done; done.
Qed.

Definition vault_grows (v v' : Vault) : Prop :=
  appended (va_storage v) (va_storage v') /\ tables_grow (tables v) (tables v').
#[global] Instance vault_grows_preorder : PreOrder vault_grows.
Proof.
  split; [intros v; split; [apply appended_refl|done]|].
  intros a b c [A1 T1] [A2 T2]. split; [by eapply appended_trans|by etrans].
Qed.

Definition opened (v : Vault) : Prop := cf_exists (va_files v) = true.

(** A part of a request that works on an open catalog and relates the states
    before and after it. *)
Definition stable {A} (R : relation Vault) (m : M A) : Prop :=
  forall v, opened v -> opened (m v).1 /\ R v (m v).1.
(** A whole request. *)
Definition advances {A} (R : relation Vault) (m : M A) : Prop :=
  forall v, files_ok v -> files_ok (m v).1 /\ R v (m v).1.

Create HintDb stable.

Lemma opened_ok (v : Vault) : opened v -> files_ok v.
Proof. unfold opened, files_ok. congruence. Qed.

Section Stable.
Context (R : relation Vault) `{!PreOrder R}.

Lemma stable_ret {A} (a : A) : stable R (ret a).
Proof. by intros v Hv. Qed.
Lemma stable_lift {A} (r : result A PutError) : stable R (lift r).
Proof. by intros v Hv. Qed.
Lemma stable_reads {A} (f : Vault -> result A PutError) : stable R (reads f).
Proof. by intros v Hv. Qed.
Lemma stable_bind {A B} (m : M A) (k : A -> M B) :
  stable R m -> (forall a, stable R (k a)) -> stable R (bind m k).
Proof.
  intros Hm Hk v Hv. unfold bind. destruct (Hm v Hv) as [Ho Hg]. destruct (m v) as [v1 [a|e]]; cbn in *; [|done].
  destruct (Hk a v1 Ho) as [Ho' Hg']. split; [done|by etrans].
Qed.
Lemma transact_stable_at (c : commit_outcome) (f : Tables -> option Tables) (v : Vault) : opened v ->
  (forall t, f (tables v) = Some t -> R v (with_tables v t)) ->
  opened (transact c f v).1 /\ R v (transact c f v).1.
Proof.
  intros Hv Hf. unfold transact. destruct (f (tables v)) as [t|]; [|done].
  destruct c as [|[|]]; cbn; try done; (split; [done|by apply Hf]).
Qed.
Lemma stable_transact (c : commit_outcome) (f : Tables -> option Tables) :
  (forall v t, f (tables v) = Some t -> R v (with_tables v t)) -> stable R (transact c f).
Proof. intros Hf v Hv. apply transact_stable_at; [done|apply Hf]. Qed.
Lemma stable_lift_bind {A B} (r : result A PutError) (k : A -> M B) :
  (forall a, r = Ok a -> stable R (k a)) -> stable R (bind (lift r) k).
Proof. intros Hk v Hv. unfold bind, lift. destruct r as [a|e]; [by apply Hk|done]. Qed.
Lemma advances_lift_bind {A B} (r : result A PutError) (k : A -> M B) :
  (forall a, advances R (k a)) -> advances R (bind (lift r) k).
Proof. intros Hk v Hv. unfold bind, lift. destruct r as [a|e]; [by apply Hk|done]. Qed.

(** Opening the catalog only creates empty tables. *)
Hypothesis R_files : forall v f, cf_tables f = tables v -> R v (with_files v f).

Lemma catalog_create_opens (env : OpenEnv) (v : Vault) :
  tables v = empty_tables ->
  let p := catalog_create env v in files_ok p.1 /\ R v p.1 /\ (p.2 = Ok tt -> opened p.1).
Proof.
  intros He. unfold catalog_create. assert (Hf : forall e m s, R v (with_files v (mkCatalogFiles e m s (cf_tables (va_files v)))) /\ R v (with_files v (mkCatalogFiles e m s empty_tables))).
  { intros e m s. split; apply R_files; [done|by rewrite He]. }
  destruct (_ || _); [split_and!; [by intros _|apply Hf|done]|].
  destruct (oe_schema env) as [|[|]]; cbn; (split_and!; [by intros ?|apply Hf|done]).
Qed.

Lemma catalog_open_opens (env : OpenEnv) (create : bool) (v : Vault) : files_ok v ->
  let p := catalog_open env create v in
  files_ok p.1 /\ R v p.1 /\ (p.2 = Ok (Some tt) -> opened p.1).
Proof.
  intros Hv. pose proof Hv as He. unfold catalog_open, opened. unfold files_ok in He.
  destruct (cf_exists (va_files v)) eqn:Hex, (cf_marked (va_files v)); cbn [negb andb orb].
  1: by destruct (_ || _).
  1-2: done.
  destruct (_ || _); [done|]. destruct (negb create); [done|].
  pose proof (catalog_create_opens env v (He eq_refl)) as (H1 & H2 & H3). unfold bind, ret.
  destruct (catalog_create env v) as [v1 [[]|e]]; cbn in *; (split_and!; [done|done|]); [by intros _; apply H3|done].
Qed.

Lemma advances_required {B} (env : OpenEnv) (create : bool) (k : unit -> M B) :
  (forall a, stable R (k a)) -> advances R (bind (catalog_required env create) k).
Proof.
  intros Hk v Hv. unfold bind, catalog_required, bind.
  pose proof (catalog_open_opens env create v Hv) as (H1 & H2 & H3).
  destruct (catalog_open env create v) as [v1 [[[]|]|e]]; cbn in *; [|done..].
  destruct (Hk tt v1 (H3 eq_refl)) as [H4 H5]. split; [by apply opened_ok|by etrans].
Qed.

End Stable.

#[export] Hint Resolve stable_ret stable_lift stable_reads : stable.
Ltac stable :=
  repeat first
    [ solve [eauto 3 with stable typeclass_instances] | apply stable_bind; [apply _| |intros ?]
    | match goal with |- stable _ (match ?x with _ => _ end) => destruct x end
    | match goal with |- stable _ (if ?b then _ else _) => destruct b end ].

(** ** The relation of all requests but the publication of a completion *)

(** No bundle becomes complete. *)
Definition completions_kept (t t' : Tables) : Prop :=
  forall k row' h, tb_bundles t' !! k = Some row' -> br_completion_hash row' = Some h ->
  exists row, tb_bundles t !! k = Some row /\ br_completion_hash row = Some h.

Definition keeps (v v' : Vault) : Prop := vault_grows v v' /\ completions_kept (tables v) (tables v').

#[global] Instance completions_kept_preorder : PreOrder completions_kept.
Proof.
  split; [intros t k row h E F; by exists row|].
  intros a b c H1 H2 k row h E F. destruct (H2 k row h E F) as (row1 & E1 & F1). by eapply H1.
Qed.
#[global] Instance keeps_preorder : PreOrder keeps.
Proof. split; [by intros v|]. intros a b c [G1 C1] [G2 C2]. split; by etrans. Qed.

Lemma insert_bundle_grows key hash (t t' : Tables) :
  insert_bundle key hash t = Some t' -> tables_grow t t' /\ completions_kept t t'.
Proof.
  unfold insert_bundle. destruct (tb_bundles t !! key) eqn:E; [done|]. intros [= <-]. split; [split; [|done]|].
  - intros k row Ek. exists row. split; [|done]. cbn. rewrite lookup_insert_ne; [done|]. intros ->. congruence.
  - intros k row h Ek Hc. cbn in Ek. destruct (decide (k = key)) as [->|].
    + rewrite lookup_insert_eq in Ek. by injection Ek as <-.
    + rewrite lookup_insert_ne in Ek by done. by exists row.
Qed.
Lemma set_completion_grows key hash (t t' : Tables) : set_completion key hash t = Some t' -> tables_grow t t'.
Proof.
  unfold set_completion. destruct (tb_bundles t !! key) as [row|] eqn:E; cbn; [|done].
  destruct (br_completion_hash row) eqn:Ec; [done|]. intros [= <-]. split; [|done].
  intros k row' Ek. cbn. destruct (decide (k = key)) as [->|].
  - rewrite lookup_insert_eq. eexists. split; [done|]. rewrite E in Ek. injection Ek as <-. cbn.
    split; [done|]. rewrite Ec. by intros [? ?].
  - rewrite lookup_insert_ne by done. by exists row'.
Qed.
(** The statements that leave the bundles alone. *)
Lemma same_bundles_keep (t t' : Tables) :
  tb_bundles t' = tb_bundles t -> tb_reviews t `prefix_of` tb_reviews t' ->
  tables_grow t t' /\ completions_kept t t'.
Proof.
  intros E Hp. split; [split; [|done]|]; rewrite ?E.
  - intros k r Ek. by exists r.
  - intros k r h. rewrite E. by exists r.
Qed.
Lemma insert_review_same row (t t' : Tables) : insert_review row t = Some t' ->
  tb_bundles t' = tb_bundles t /\ tb_reviews t' = tb_reviews t ++ [row] /\ tb_intents t' = tb_intents t.
Proof. unfold insert_review. destruct (existsb _ _); [done|]. by intros [= <-]. Qed.
Lemma insert_intent_same key p (t t' : Tables) : insert_intent key p t = Some t' ->
  tb_bundles t' = tb_bundles t /\ tb_reviews t' = tb_reviews t
  /\ tb_intents t !! key = None /\ tb_intents t' = <[key := p]> (tb_intents t).
Proof. unfold insert_intent. destruct (_ !! _); [done|]. by intros [= <-]. Qed.
Lemma review_statements_same agent id hash n request (t t' : Tables) :
  review_statements agent id hash n request t = Some t' ->
  tb_bundles t' = tb_bundles t
  /\ tb_reviews t' = tb_reviews t ++ [mkReviewRow agent id n hash (rq_request_id request)]
  /\ tb_intents t' = (let i := delete (agent, id, "review") (tb_intents t) in
                      if bool_decide (rq_decision request = Revoked) then delete (agent, id, "revoke") i else i).
Proof.
  unfold review_statements. destruct (insert_review _ t) as [t1|] eqn:E; [|done]. intros [= <-].
  apply insert_review_same in E as (E1 & E2 & E3). cbn. destruct (bool_decide _); cbn; by rewrite E1, E2, E3.
Qed.

Section StableOps.
Context `{Crypto : VaultCrypto} `{Json : BundleJson} `{IJson : IntentJson}.
Variable config : StorageConfig.

(** Any relation that the writes respect holds across the requests. *)
Section Relation.
Context (R : relation Vault) `{!PreOrder R}.
Hypothesis R_files : forall v f, cf_tables f = tables v -> R v (with_files v f).
Hypothesis R_put : forall v st, appended (va_storage v) st -> R v (with_storage v st).
Hypothesis R_intent : forall v key p t, insert_intent key p (tables v) = Some t -> R v (with_tables v t).

Lemma do_put_stable env agent hash kind bytes revocation :
  stable R (do_put config env agent hash kind bytes revocation).
Proof.
  intros v Hv. unfold do_put.
  pose proof (put_inner_appended config (va_storage v) env agent hash kind bytes revocation) as Ha.
  destruct (put_inner _ _ _ _ _ _ _ _) as [st r]. cbn in *. split; [done|by apply R_put].
Qed.
Lemma intent_stable c agent id op p : stable R (intent c agent id op p).
Proof. unfold intent. stable. apply stable_transact; [done|]. intros v t. apply R_intent. Qed.
#[local] Hint Resolve do_put_stable intent_stable : stable.

Lemma register_advances env agent manifest :
  (forall v key h t, insert_bundle key h (tables v) = Some t -> R v (with_tables v t)) ->
  advances R (register_inner config env agent manifest).
Proof.
  intros Hb. apply advances_lift_bind; [done|]. intros _. apply advances_required; [done|done|]. intros _.
  unfold register_new. stable. apply stable_transact; [done|]. intros v t. apply Hb.
Qed.
Lemma begin_advances env agent id : advances R (complete_begin config env agent id).
Proof. apply advances_required; [done|done|]. intros _. stable. Qed.
Lemma settle_stable c private agent id :
  (forall v raw event t, settle_statements config (va_storage v) private agent id raw event (tables v) = Ok t ->
     R v (with_tables v t)) ->
  stable R (settle_pending_good config c private agent id).
Proof.
  intros Hs. unfold settle_pending_good. apply stable_bind; [done|by apply stable_reads|].
  intros [raw|]; [|by apply stable_ret].
  apply stable_bind; [done|by apply stable_lift|]. intros event. destruct (negb _); [by apply stable_ret|].
  intros v Hv. unfold bind, reads.
  destruct (settle_statements _ _ _ _ _ _ _ _) as [t|] eqn:E; [|done].
  apply transact_stable_at; [done|done|]. intros t' [= <-]. by eapply Hs.
Qed.
Lemma review_advances env agent id request :
  (forall v private raw event t, settle_statements config (va_storage v) private agent id raw event (tables v) = Ok t ->
     R v (with_tables v t)) ->
  (forall v hash n t, review_statements agent id hash n request (tables v) = Some t -> R v (with_tables v t)) ->
  advances R (review_inner config env agent id request).
Proof.
  intros Hs Hr. apply advances_lift_bind; [done|]. intros _. apply advances_required; [done|done|]. intros _.
  assert (Hsettle : forall c p, stable R (settle_pending_good config c p agent id)).
  { intros c p. apply settle_stable. intros v raw event t. apply Hs. }
  unfold review_new, prepare_review, retain_revocation_intent, publish_review. stable.
  apply stable_transact; [done|]. intros v t. apply Hr.
Qed.
Lemma commit_advances env unchanged t :
  (forall v hash t', completion_statements (tk_agent t) (tk_id t) hash (tables v) = Some t' ->
     R v (with_tables v t')) ->
  advances R (complete_commit config env unchanged t).
Proof.
  intros Hc. destruct t as [agent id r rest body]. do 2 (apply advances_lift_bind; [done|]; intros _).
  apply advances_required; [done|done|]. intros _. unfold publish_completion. stable.
  apply stable_transact; [done|]. intros v t. apply Hc.
Qed.

End Relation.

Lemma settle_statements_same st private agent id raw event (t t' : Tables) :
  settle_statements config st private agent id raw event t = Ok t' ->
  tb_bundles t' = tb_bundles t /\ tb_reviews t `prefix_of` tb_reviews t'
  /\ forall key, key <> (agent, id, "review") -> is_Some (tb_intents t !! key) ->
       tb_intents t' !! key = tb_intents t !! key.
Proof.
  unfold settle_statements. rewrite res_bind_Ok. intros (t1 & H1 & [= <-]). destruct (object_exists _ _ _).
  - apply res_bind_Ok in H1 as (rb & _ & H1). apply guard_bind_Ok in H1 as (_ & H1).
    apply ok_or_Ok, insert_review_same in H1 as (E1 & E2 & E3). cbn. rewrite E1, E2, E3.
    split_and!; [done|by eexists|]. intros key Hk _. by rewrite lookup_delete_ne.
  - apply guard_bind_Ok in H1 as (_ & H1). apply ok_or_Ok, insert_intent_same in H1 as (E1 & E2 & E3 & E4).
    cbn. rewrite E1, E2, E4. split_and!; [done|done|]. intros key Hk [p Hp].
    rewrite lookup_delete_ne, lookup_insert_ne; [done| |done]. intros <-. congruence.
Qed.

(** ** Requests keep what is stored *)

Lemma keeps_tables (v : Vault) (t : Tables) :
  tables_grow (tables v) t /\ completions_kept (tables v) t -> keeps v (with_tables v t).
Proof. intros [H1 H2]. split; [split; [apply appended_refl|done]|done]. Qed.
Lemma keeps_files (v : Vault) (f : CatalogFiles) : cf_tables f = tables v -> keeps v (with_files v f).
Proof.
  intros E. split; [split; [apply appended_refl|]|]; unfold tables in *; cbn; by rewrite E.
Qed.
Lemma keeps_put (v : Vault) (st : Storage) : appended (va_storage v) st -> keeps v (with_storage v st).
Proof. intros H. split; [split; [done|]|]; done. Qed.
Lemma keeps_intent (v : Vault) key p t : insert_intent key p (tables v) = Some t -> keeps v (with_tables v t).
Proof.
  intros (E1 & E2 & _)%insert_intent_same. apply keeps_tables, same_bundles_keep; [done|by rewrite E2].
Qed.
Lemma keeps_settle (v : Vault) private agent id raw event t :
  settle_statements config (va_storage v) private agent id raw event (tables v) = Ok t -> keeps v (with_tables v t).
Proof. intros (E1 & E2 & _)%settle_statements_same. by apply keeps_tables, same_bundles_keep. Qed.
Lemma keeps_review (v : Vault) agent id hash n request t :
  review_statements agent id hash n request (tables v) = Some t -> keeps v (with_tables v t).
Proof.
  intros (E1 & E2 & _)%review_statements_same. apply keeps_tables, same_bundles_keep; [done|rewrite E2; by eexists].
Qed.
Lemma keeps_bundle (v : Vault) key h t : insert_bundle key h (tables v) = Some t -> keeps v (with_tables v t).
Proof. intros H. by apply keeps_tables, (insert_bundle_grows _ _ _ _ H). Qed.

Lemma register_keeps env agent manifest : advances keeps (register_inner config env agent manifest).
Proof. apply register_advances; eauto using keeps_files, keeps_put, keeps_intent, keeps_bundle with typeclass_instances. Qed.
Lemma begin_keeps env agent id : advances keeps (complete_begin config env agent id).
Proof. apply begin_advances; eauto using keeps_files with typeclass_instances. Qed.
Lemma review_keeps env agent id request : advances keeps (review_inner config env agent id request).
Proof.
  apply review_advances;
    eauto using keeps_files, keeps_put, keeps_intent, keeps_settle, keeps_review with typeclass_instances.
Qed.
Lemma commit_grows env unchanged t : advances vault_grows (complete_commit config env unchanged t).
Proof.
  apply commit_advances; [apply _|intros v f E; by apply keeps_files|intros v st H; by apply keeps_put
    |intros v key p t1 H; by apply (keeps_intent _ _ _ _ H)|].
  intros v hash t' Ht. unfold completion_statements in Ht.
  destruct (set_completion _ _ _) as [t1|] eqn:E; [|done]. injection Ht as <-.
  split; [apply appended_refl|]. etrans; [by eapply set_completion_grows|].
  apply (same_bundles_keep t1 (delete_intent _ t1)); done.
Qed.

End StableOps.

(** * Reading a record *)

Section Records.
Context `{Crypto : VaultCrypto} `{Json : BundleJson} `{IJson : IntentJson}.
Variable config : StorageConfig.

Lemma storage_get_Ok (cf : StorageConfig) (st : Storage) private agent hash r b :
  storage_get cf st private agent hash = Ok (r, b) ->
  vs_blobs st !! (agent, hash) = Some b /\ vs_receipts st !! (agent, hash) = Some r
  /\ body_sha256 b = hash /\ re_size_bytes (sr_receipt r) = slen b.
Proof.
  unfold storage_get. intros (_ & H)%guard_bind_Ok. apply ok_or_bind_Ok in H as (r' & Hr & H).
  apply guard_bind_Ok in H as (_ & H). apply guard_bind_Ok in H as (_ & H).
  apply guard_bind_Ok in H as (Hid & H). apply ok_or_bind_Ok in H as (b' & Hb & H).
  apply guard_bind_Ok in H as (_ & H). apply guard_bind_Ok in H as (Hv & [= <- <-]).
  apply orb_false_iff in Hid as [Hid _]. apply orb_false_iff in Hid as [_ Hh].
  apply negb_false_iff, String.eqb_eq in Hh. apply negb_false_iff in Hv. unfold verify_body in Hv.
  apply andb_true_iff in Hv as [Hs%Z.eqb_eq He%String.eqb_eq]. split_and!; try done. congruence.
Qed.

(** An object a put acknowledges is in the store; one that was there has at least its hash. *)
Lemma do_put_stored env agent hash kind bytes rv (v v' : Vault) r :
  do_put config env agent hash kind bytes rv v = (v', Ok r) ->
  exists b, vs_blobs (va_storage v') !! (agent, hash) = Some b /\ (b = bytes \/ body_sha256 b = hash).
Proof.
  unfold do_put, put_inner. destruct (_ && _); [done|]. destruct (_ && _); [done|]. destruct (_ <? _); [done|].
  destruct (is_some (vs_receipts _ !! _)).
  { unfold put_existing. destruct (storage_get _ _ _ _ _) as [[x b]|] eqn:Hg; [|done].
    apply storage_get_Ok in Hg as (Hb & _ & Hh & _).
    destruct (_ || _); [done|]. destruct (negb _); [done|]. intros [= <- <-]. exists b. by split; [|right]. }
  destruct (is_some (vs_blobs _ !! _)); [done|]. unfold put_new.
  destruct (reserve_for _ _ _ _ _) as [c [[]|]]; [|done].
  pose proof (publish_spec config (with_capacity (va_storage v) c) env agent hash kind bytes) as Hp. cbv zeta in Hp.
  destruct (publish _ _ _ _ _ _ _) as [st [r'|]]; [|done]. destruct Hp as (_ & _ & _ & Hp).
  destruct (Hp r' eq_refl) as (Eb & _).
  assert (Hs : vs_blobs st !! (agent, hash) = Some bytes) by by rewrite Eb, lookup_insert_eq.
  destruct (if str_starts_with _ _ then _ else None) as [[bundle x]|].
  - destruct (note_control _ _ _) as [c3 [|]]; intros [= <- <-]. exists bytes. by split; [|left].
  - intros [= <- <-]. exists bytes. by split; [|left].
Qed.

(** [e] is the event the object of [row] holds. *)
Definition row_event (st : Storage) (agent : string) (row : ReviewRow) (e : Signed ReviewEvent) : Prop :=
  (exists b, vs_blobs st !! (agent, rw_hash row) = Some b /\ of_json b = Some e)
  /\ ev_sequence (si_value e) = rw_sequence row
  /\ rq_request_id (ev_request (si_value e)) = rw_request_id row.

Lemma load_reviews_Ok private st agent rows : forall events,
  load_reviews config private st agent rows = Ok events -> Forall2 (row_event st agent) rows events.
Proof.
  induction rows as [|row rows IH]; cbn [load_reviews]; intros events H; [by injection H as <-|].
  apply res_bind_Ok in H as ([r b] & Hg & H). apply ok_or_bind_Ok in H as (e & He & H).
  apply guard_bind_Ok in H as (Hm & H). apply res_bind_Ok in H as (es & Hes & [= <-]).
  apply storage_get_Ok in Hg as (Hb & _ & _ & _).
  apply orb_false_iff in Hm as [Hm Hid%negb_false_iff%String.eqb_eq].
  apply orb_false_iff in Hm as [_ Hseq%negb_false_iff%Z.eqb_eq].
  constructor; [|by apply IH]. split; [by exists b|done].
Qed.

(** What a successful [record_raw] has read. *)
Record raw_read (v : Vault) (agent id : string) (r : BundleRecord) : Prop := {
  rr_valid : record_valid r (sc_public_key config) (sc_key_id config);
  rr_agent : bd_agent_id r = agent;
  rr_row : exists row b, tb_bundles (tables v) !! (agent, id) = Some row
    /\ vs_blobs (va_storage v) !! (agent, br_manifest_hash row) = Some b
    /\ vs_receipts (va_storage v) !! (agent, br_manifest_hash row) = Some (bd_manifest_receipt r)
    /\ of_json b = Some (bd_manifest r)
    /\ match br_completion_hash row with
       | None => bd_completion r = None
       | Some h => exists cb c, bd_completion r = Some c
           /\ vs_blobs (va_storage v) !! (agent, h) = Some cb /\ of_json cb = Some c
       end;
  rr_reviews : Forall2 (row_event (va_storage v) agent) (review_rows (tables v) agent id) (bd_reviews r);
}.

Lemma other_Ok {A} (r : result A string) (a : A) : other r = Ok a <-> r = Ok a.
Proof. destruct r; cbn; split; congruence. Qed.

Lemma record_raw_Ok private v agent id r : record_raw config private v agent id = Ok r -> raw_read v agent id r.
Proof.
  unfold record_raw. intros H. apply ok_or_bind_Ok in H as (row & Hrow & H).
  apply res_bind_Ok in H as ([mr mb] & Hg & H). apply ok_or_bind_Ok in H as (m & Hm & H).
  apply guard_bind_Ok in H as (_ & H). apply res_bind_Ok in H as (c & Hc & H).
  apply res_bind_Ok in H as (es & Hes & H). apply res_bind_Ok in H as ([] & Hv & [= <-]).
  apply other_Ok, verify_record_iff in Hv. apply storage_get_Ok in Hg as (Hb & Hr & _).
  split; [done|done| |by eapply load_reviews_Ok].
  exists row, mb. cbn. split_and!; try done. unfold load_completion in Hc.
  destruct (br_completion_hash row) as [h|]; [|by injection Hc as <-].
  apply res_bind_Ok in Hc as ([cr cb] & Hcg & Hc). apply guard_bind_Ok in Hc as (_ & Hc).
  apply ok_or_bind_Ok in Hc as (c' & Hc' & [= <-]). apply storage_get_Ok in Hcg as (Hcb & _).
  by exists cb, c'.
Qed.

(** All rows of the bundle were read, and the row at index [i] has sequence [i + 1]. *)
Lemma raw_read_rows v agent id r row : raw_read v agent id r ->
  row ∈ tb_reviews (tables v) -> same_bundle agent id row = true ->
  exists i e, review_rows (tables v) agent id !! i = Some row /\ bd_reviews r !! i = Some e
    /\ row_event (va_storage v) agent row e /\ rw_sequence row = Z.of_nat i + 1.
Proof.
  intros H Hrow Hsame. pose proof (Forall2_length _ _ _ (rr_reviews _ _ _ _ H)) as Hlen.
  pose proof (rv_bound _ _ _ (rr_valid _ _ _ _ H)) as Hmax. unfold MAX_REVIEWS, zlen in Hmax.
  set (sorted := sort_by rw_sequence (List.filter (same_bundle agent id) (tb_reviews (tables v)))) in *.
  assert (Hall : review_rows (tables v) agent id = sorted).
  { unfold review_rows in *. fold sorted in Hlen |- *. rewrite length_take in Hlen.
    apply take_ge. lia. }
  assert (Hin : row ∈ review_rows (tables v) agent id).
  { rewrite Hall. unfold sorted. rewrite sort_by_perm. by apply filter_elem. }
  apply list_elem_of_lookup_1 in Hin as [i Hi]. exists i.
  destruct (Forall2_lookup_l _ _ _ _ _ (rr_reviews _ _ _ _ H) Hi) as (e & He & Hev).
  exists e. split_and!; [done|done|done|].
  destruct Hev as (_ & <- & _).
  assert (exists c, bd_completion r = Some c) as [c Hc].
  { destruct (bd_completion r) as [c|] eqn:Hc; [by exists c|].
    rewrite (rv_incomplete _ _ _ (rr_valid _ _ _ _ H) Hc) in He. by rewrite lookup_nil in He. }
  destruct (rv_complete _ _ _ (rr_valid _ _ _ _ H) c Hc) as [_ Hchain].
  apply (vv_sequence _ _ _ _ _ _ _ (Hchain i e He)).
Qed.

(** Two reads of one bundle, the second in a grown vault. *)
Lemma raw_read_grows v v' agent id r r' : vault_grows v v' ->
  raw_read v agent id r -> raw_read v' agent id r' ->
  bd_manifest r' = bd_manifest r /\ bd_manifest_receipt r' = bd_manifest_receipt r
  /\ (is_Some (bd_completion r) -> bd_completion r' = bd_completion r)
  /\ bd_reviews r `prefix_of` bd_reviews r'.
Proof.
  intros [[Ab Ar] [Tb Tr]] H H'.
  destruct (rr_row _ _ _ _ H) as (row & b & Hrow & Hb & Hr & Hm & Hc).
  destruct (rr_row _ _ _ _ H') as (row' & b' & Hrow' & Hb' & Hr' & Hm' & Hc').
  destruct (Tb _ _ Hrow) as (row'' & E & Emh & Ech). rewrite Hrow' in E. injection E as <-.
  rewrite Emh in Hb', Hr'.
  rewrite (lookup_weaken _ _ _ _ Hb Ab) in Hb'. rewrite (lookup_weaken _ _ _ _ Hr Ar) in Hr'.
  split_and!; [congruence|congruence| |].
  - intros Hs. destruct (br_completion_hash row) as [h|] eqn:Eh; [|rewrite Hc in Hs; by destruct Hs].
    rewrite Ech in Hc' by done. destruct Hc as (cb & c & -> & Hcb & Ej).
    destruct Hc' as (cb' & c' & -> & Hcb' & Ej').
    rewrite (lookup_weaken _ _ _ _ Hcb Ab) in Hcb'. congruence.
  - assert (Hpre : forall i e, bd_reviews r !! i = Some e -> bd_reviews r' !! i = Some e).
    { intros i e He. destruct (Forall2_lookup_r _ _ _ _ _ (rr_reviews _ _ _ _ H) He) as (w & Hw & Hev).
      assert (Hin : w ∈ tb_reviews (tables v) /\ same_bundle agent id w = true).
      { apply list_elem_of_lookup_2 in Hw. unfold review_rows in Hw. apply elem_of_take in Hw.
        rewrite sort_by_perm in Hw. by apply filter_elem. }
      destruct Hin as [Hin Hsame].
      destruct (raw_read_rows v agent id r w H Hin Hsame) as (j & e1 & _ & Hj & Hev1 & Hs).
      assert (Hin' : w ∈ tb_reviews (tables v')) by by (destruct Tr as [k ->]; apply elem_of_app; left).
      destruct (raw_read_rows v' agent id r' w H' Hin' Hsame) as (j' & e2 & _ & Hj' & Hev2 & Hs').
      assert (i = j) as <-.
      { destruct Hev as (_ & Q & _).
        destruct (bd_completion r) as [c|] eqn:Hcc.
        - destruct (rv_complete _ _ _ (rr_valid _ _ _ _ H) c Hcc) as [_ Hchain].
          pose proof (vv_sequence _ _ _ _ _ _ _ (Hchain i e He)). lia.
        - rewrite (rv_incomplete _ _ _ (rr_valid _ _ _ _ H) Hcc) in He. by rewrite lookup_nil in He. }
      assert (i = j') as <- by lia. rewrite Hj'. f_equal.
      destruct Hev as ((x & Hx & Px) & _), Hev2 as ((y & Hy & Py) & _).
      rewrite (lookup_weaken _ _ _ _ Hx Ab) in Hy. congruence. }
    exists (drop (length (bd_reviews r)) (bd_reviews r')). apply list_eq. intros i.
    destruct (decide (i < length (bd_reviews r))%nat) as [Hi|Hi].
    + rewrite lookup_app_l by done. destruct (lookup_lt_is_Some_2 _ _ Hi) as [e He].
      rewrite He. by apply Hpre.
    + rewrite lookup_app_r, lookup_drop by lia. f_equal. lia.
Qed.

Lemma record_Ok private v agent id r : record config private v agent id = Ok r ->
  has_revocation_intent v agent id = false /\ record_raw config private v agent id = Ok r
  /\ bundle_coverage config private v agent id r false = Ok tt.
Proof.
  unfold record. intros (Hi & H)%guard_bind_Ok. apply res_bind_Ok in H as (_ & _ & H).
  apply res_bind_Ok in H as (r' & Hr & H). apply res_bind_Ok in H as ([] & Hc & [= <-]). done.
Qed.

End Records.

(** * Histories *)

Record System := mkSystem {
  sy_vault : Vault;
  sy_tasks : list CompleteTask;
}.

(** Requests in the order in which they take the lock; a completion takes it
    twice and reads its chunks in between, one at a time. [Restart] is a
    restart of the server, with the accounts the scan of the store finds. *)
Inductive Step :=
| Upload (env : PutEnv) (agent hash kind body : string)
| Register (env : OpEnv) (agent : string) (manifest : BundleManifest)
| BeginCompletion (env : OpEnv) (agent id : string)
| ReadChunk (n : nat) (private stamped : bool)
| CommitCompletion (env : OpEnv) (unchanged : bool) (n : nat)
| Review (env : OpEnv) (agent id : string) (request : ReviewRequest)
| Restart (capacity : CapacityState).

Section Systems.
Context `{Crypto : VaultCrypto} `{Json : BundleJson} `{IJson : IntentJson}.
Variable config : StorageConfig.

(** The upload handler behind its token check. *)
Definition upload (env : PutEnv) (agent hash kind body : string) : M SignedReceipt :=
  let* _ := lift (reject (negb (str_mem kind ["evidence"; "backup"; "audit"])) "유효한 X-Argos-Kind가 필요합니다") in
  let* _ := lift (reject (negb (valid_hash hash)) "SHA-256 형식 오류") in
  let* _ := lift (reject (sc_max_object_bytes config <? slen body) "본문 수집/크기 상한 오류") in
  let* _ := lift (reject (negb (String.eqb (body_sha256 body) hash)) "본문 해시 불일치") in
  do_put config env agent hash kind body false.

Definition system_step (s : System) (step : Step) : System :=
  let '(mkSystem v tasks) := s in
  match step with
  | Upload env agent hash kind body => mkSystem (upload env agent hash kind body v).1 tasks
  | Register env agent m => mkSystem (register_inner config env agent m v).1 tasks
  | BeginCompletion env agent id =>
      match complete_begin config env agent id v with
      | (v, Ok (inr t)) => mkSystem v (tasks ++ [t])
      | (v, _) => mkSystem v tasks
      end
  | ReadChunk n private stamped =>
      match tasks !! n with
      | None => s
      | Some t =>
          match complete_chunk config private stamped (va_storage v) t with
          | Ok t => mkSystem v (<[n := t]> tasks)
          | Err _ => mkSystem v (delete n tasks)
          end
      end
  | CommitCompletion env unchanged n =>
      match tasks !! n with
      | None => s
      | Some t => mkSystem (complete_commit config env unchanged t v).1 (delete n tasks)
      end
  | Review env agent id request => mkSystem (review_inner config env agent id request v).1 tasks
  | Restart c => mkSystem (with_storage v (with_capacity (va_storage v) c)) []
  end.

Definition system_run (s : System) (steps : list Step) : System := foldl system_step s steps.

(** ** The rows only grow *)

Lemma upload_keeps env agent hash kind body v : keeps v (upload env agent hash kind body v).1.
Proof.
  unfold upload, bind, lift. repeat (destruct (reject _ _) as [[]|]; [|done]). unfold do_put.
  pose proof (put_inner_appended config (va_storage v) env agent hash kind body false) as Ha.
  destruct (put_inner _ _ _ _ _ _ _ _) as [st r]. by apply keeps_put.
Qed.
Lemma upload_files env agent hash kind body v : va_files (upload env agent hash kind body v).1 = va_files v.
Proof.
  unfold upload, bind, lift. repeat (destruct (reject _ _) as [[]|]; [|done]). unfold do_put.
  by destruct (put_inner _ _ _ _ _ _ _ _) as [st r].
Qed.

(** The vault part of a step, when it is not the end of a completion. *)
Lemma step_keeps (s : System) (step : Step) :
  files_ok (sy_vault s) -> (forall env unchanged n, step <> CommitCompletion env unchanged n) ->
  files_ok (sy_vault (system_step s step)) /\ keeps (sy_vault s) (sy_vault (system_step s step)).
Proof.
  destruct s as [v tasks]. cbn [sy_vault]. intros Hv Hstep.
  destruct step; cbn [system_step]; try by destruct (Hstep env unchanged n).
  - split; [|by apply upload_keeps]. cbn [sy_vault]. unfold files_ok, tables in *. by rewrite upload_files.
  - exact (register_keeps config env agent manifest v Hv).
  - pose proof (begin_keeps config env agent id v Hv) as H.
    destruct (complete_begin _ _ _ _ _) as [v1 [[r|t]|e]]; exact H.
  - destruct (tasks !! n); [|done]. by destruct (complete_chunk _ _ _ _ _).
  - exact (review_keeps config env agent id request v Hv).
  - split; [done|]. by apply keeps_put.
Qed.

Lemma step_grows (s : System) (step : Step) :
  files_ok (sy_vault s) ->
  files_ok (sy_vault (system_step s step)) /\ vault_grows (sy_vault s) (sy_vault (system_step s step)).
Proof.
  intros Hv. assert (Hd : (forall env u n, step <> CommitCompletion env u n)
    \/ exists env u n, step = CommitCompletion env u n).
  { destruct step; try (left; congruence). right. by eexists _, _, _. }
  destruct Hd as [Hn|(env & u & n & ->)]; [by destruct (step_keeps s step Hv Hn) as [? []]|].
  destruct s as [v tasks]. cbn in *. destruct (tasks !! n) as [t|]; [|done].
  exact (commit_grows config env u t v Hv).
Qed.

Lemma run_grows (steps : list Step) : forall s,
  files_ok (sy_vault s) ->
  files_ok (sy_vault (system_run s steps)) /\ vault_grows (sy_vault s) (sy_vault (system_run s steps)).
Proof.
  induction steps as [|step steps IH]; intros s Hs; [done|]. cbn [system_run foldl].
  destruct (step_grows s step Hs) as [H1 H2]. destruct (IH _ H1) as [H3 H4]. split; [done|by etrans].
Qed.

(** ** Completions are backed by the chunks *)

(** The stored bodies of the chunks. *)
Definition stored_chunk (st : Storage) (agent : string) (c : Chunk) (b : string) : Prop :=
  vs_blobs st !! (agent, ch_sha256 c) = Some b /\ body_sha256 b = ch_sha256 c /\ slen b = ch_size_bytes c
  /\ exists r, vs_receipts st !! (agent, ch_sha256 c) = Some r /\ re_kind (sr_receipt r) = "backup".

Definition concat_str (l : list string) : string := foldl String.append "" l.

Definition bundle_stored (v : Vault) (agent : string) (m : BundleManifest) : Prop :=
  exists bodies, Forall2 (stored_chunk (va_storage v) agent) (mf_chunks m) bodies
    /\ body_sha256 (concat_str bodies) = mf_sha256 m.

(** The manifest of a row. *)
Definition row_manifest (v : Vault) (agent id : string) (row : BundleRow) (m : BundleManifest) : Prop :=
  tb_bundles (tables v) !! (agent, id) = Some row
  /\ exists b, vs_blobs (va_storage v) !! (agent, br_manifest_hash row) = Some b /\ of_json b = Some m.

Definition completions_backed (v : Vault) : Prop :=
  forall agent id row h, tb_bundles (tables v) !! (agent, id) = Some row ->
    br_completion_hash row = Some h ->
    exists m, row_manifest v agent id row m /\ bundle_stored v agent m.

Record task_ok (v : Vault) (t : CompleteTask) : Prop := {
  to_row : exists row, row_manifest v (tk_agent t) (tk_id t) row (bd_manifest (tk_record t));
  to_read : exists done bodies, mf_chunks (bd_manifest (tk_record t)) = done ++ tk_rest t
    /\ Forall2 (stored_chunk (va_storage v) (tk_agent t)) done bodies /\ tk_body t = concat_str bodies;
}.

Record system_ok (s : System) : Prop := {
  sk_files : files_ok (sy_vault s);
  sk_backed : completions_backed (sy_vault s);
  sk_tasks : Forall (task_ok (sy_vault s)) (sy_tasks s);
}.

Lemma stored_chunk_grows (st st' : Storage) agent c b :
  appended st st' -> stored_chunk st agent c b -> stored_chunk st' agent c b.
Proof.
  intros [Ab Ar] (H1 & H2 & H3 & r & H4 & H5). split_and!; try done; [by eapply lookup_weaken|].
  exists r. split; [by eapply lookup_weaken|done].
Qed.
Lemma stored_chunks_grow (st st' : Storage) agent cs bs :
  appended st st' -> Forall2 (stored_chunk st agent) cs bs -> Forall2 (stored_chunk st' agent) cs bs.
Proof. intros Ha H. eapply Forall2_impl; [exact H|]. intros c b. by apply stored_chunk_grows. Qed.
Lemma bundle_stored_grows v v' agent m : vault_grows v v' -> bundle_stored v agent m -> bundle_stored v' agent m.
Proof. intros [Ha _] (bs & H & E). exists bs. split; [by eapply stored_chunks_grow|done]. Qed.
Lemma row_manifest_grows v v' agent id row m : vault_grows v v' -> row_manifest v agent id row m ->
  exists row', row_manifest v' agent id row' m /\ br_manifest_hash row' = br_manifest_hash row.
Proof.
  intros [[Ab _] [Tb _]] (Hrow & b & Hb & Hm). destruct (Tb _ _ Hrow) as (row' & Hrow' & E & _).
  exists row'. split; [|done]. split; [done|]. exists b. rewrite E. split; [by eapply lookup_weaken|done].
Qed.
Lemma task_ok_grows v v' t : vault_grows v v' -> task_ok v t -> task_ok v' t.
Proof.
  intros Hg [(row & Hrow) (d & bs & E1 & E2 & E3)]. split.
  - destruct (row_manifest_grows _ _ _ _ _ _ Hg Hrow) as (row' & Hrow' & _). by exists row'.
  - exists d, bs. split_and!; try done. destruct Hg as [Ha _]. by eapply stored_chunks_grow.
Qed.
Lemma backed_keeps v v' : keeps v v' -> completions_backed v -> completions_backed v'.
Proof.
  intros [Hg Hc] Hb agent id row' h Hrow' Hh. destruct (Hc _ _ _ Hrow' Hh) as (row & Hrow & Hh').
  destruct (Hb _ _ _ _ Hrow Hh') as (m & Hm & Hs).
  destruct (row_manifest_grows _ _ _ _ _ _ Hg Hm) as (row'' & [Hrow'' Hm''] & _).
  rewrite Hrow' in Hrow''. injection Hrow'' as <-. exists m. split; [by split|by eapply bundle_stored_grows].
Qed.

Lemma raw_row_manifest v agent id r : raw_read config v agent id r ->
  exists row, row_manifest v agent id row (bd_manifest r).
Proof.
  intros H. destruct (rr_row _ _ _ _ _ H) as (row & b & Hrow & Hb & _ & Hm & _).
  exists row. split; [done|]. by exists b.
Qed.

Lemma concat_str_snoc (l : list string) (s : string) : concat_str (l ++ [s]) = String.append (concat_str l) s.
Proof. unfold concat_str. by rewrite foldl_app. Qed.

Lemma begin_task env agent id v v' t :
  files_ok v -> complete_begin config env agent id v = (v', Ok (inr t)) -> task_ok v' t.
Proof.
  intros Hv. unfold complete_begin, bind, reads.
  destruct (catalog_required _ _ v) as [v1 [[]|]]; [|done].
  destruct (record_raw _ _ _ _ _) as [r|] eqn:Hr; [|done].
  destruct (bundle_coverage _ _ _ _ _ _ _) as [[]|]; [|done].
  destruct (is_some _). { by destruct (record _ _ _ _ _). }
  intros [= <- <-]. apply record_raw_Ok in Hr. split; cbn.
  - by eapply raw_row_manifest.
  - exists [], []. by split_and!.
Qed.

Lemma chunk_task v private stamped t t' :
  complete_chunk config private stamped (va_storage v) t = Ok t' -> task_ok v t -> task_ok v t'.
Proof.
  unfold complete_chunk. intros H [Hrow (d & bs & E1 & E2 & E3)].
  destruct (tk_rest t) as [|c rest] eqn:Er.
  { injection H as <-. split; [done|]. exists d, bs. by rewrite Er. }
  apply res_bind_Ok in H as ([r b] & Hg & H). apply guard_bind_Ok in H as (Hm & H).
  apply guard_bind_Ok in H as (_ & [= <-]). apply storage_get_Ok in Hg as (Hb & Hr & Hh & Hsz).
  apply orb_false_iff in Hm as [Hk%negb_false_iff%String.eqb_eq Hl%negb_false_iff%Z.eqb_eq].
  split; [done|]. cbn in *. exists (d ++ [c]), (bs ++ [b]). split_and!.
  - by rewrite <- app_assoc.
  - apply Forall2_app; [done|]. constructor; [|done]. split_and!; [done|done|done|]. by exists r.
  - by rewrite concat_str_snoc, E3.
Qed.

#[local] Instance implied_preorder (P : Vault -> Prop) : PreOrder (fun v v' => P v -> P v').
Proof. split; [by intros v|]. intros a b c H1 H2 Ha. by apply H2, H1. Qed.

(** The end of a completion publishes a bundle whose chunks are stored. *)
Lemma commit_backed env unchanged t v :
  files_ok v -> task_ok v t -> completions_backed v ->
  completions_backed (complete_commit config env unchanged t v).1.
Proof.
  intros Hv Ht Hb. destruct (decide (tk_rest t = [] /\ body_sha256 (tk_body t) = mf_sha256 (bd_manifest (tk_record t))))
    as [[Hrest Hsha]|Hn].
  2:{ destruct t as [agent id r rest body]. cbn in *. unfold bind at 1, lift at 1.
      destruct (reject _ "chunks left") as [[]|] eqn:E1; [|done]. unfold bind at 1, lift at 1.
      destruct (reject (negb (String.eqb _ _)) _) as [[]|] eqn:E2; [|done]. exfalso. apply Hn.
      apply guard_Ok, negb_false_iff in E1, E2. apply String.eqb_eq in E2. split; [|done].
      destruct rest as [|c rest]; [done|]. rewrite zlen_cons in E1. pose proof (zlen_nonneg rest). lia. }
  assert (Hstored : forall v, task_ok v t -> bundle_stored v (tk_agent t) (bd_manifest (tk_record t))).
  { intros v1 [_ (d & bs & E1 & E2 & E3)]. exists bs. rewrite Hrest, app_nil_r in E1. rewrite E1.
    split; [done|]. by rewrite <- E3. }
  set (P := fun v => completions_backed v /\ task_ok v t).
  assert (HP : forall v v', keeps v v' -> P v -> P v').
  { intros v1 v2 Hk [H1 H2]. split; [by eapply backed_keeps|]. by eapply task_ok_grows; [apply Hk|]. }
  assert (Hadv : advances (fun v v' => P v -> P v') (complete_commit config env unchanged t));
    [apply commit_advances; [apply _|..]|by apply (Hadv v Hv)].
  - intros v1 f E. by apply HP, keeps_files.
  - intros v1 st E. by apply HP, keeps_put.
  - intros v1 key p t1 E. by eapply HP, keeps_intent.
  - intros v1 hash t1 E [H1 H2]. unfold completion_statements in E.
    destruct (set_completion _ _ _) as [t2|] eqn:E2; [|done]. injection E as <-.
    assert (Hg : vault_grows v1 (with_tables v1 (delete_intent (tk_agent t, tk_id t, "complete") t2))).
    { split; [apply appended_refl|]. etrans; [by eapply set_completion_grows|].
      by apply (same_bundles_keep t2 (delete_intent _ t2)). }
    split; [|by eapply task_ok_grows].
    intros agent id row h Hrow Hh. unfold set_completion in E2. destruct H2 as [(row0 & Hrow0 & b & Hbl & Hj) H2].
    rewrite Hrow0 in E2. cbn in E2. destruct (br_completion_hash row0) eqn:Ec; [done|]. injection E2 as <-.
    cbn in Hrow. destruct (decide ((agent, id) = (tk_agent t, tk_id t))) as [[= -> ->]|Hne].
    + rewrite lookup_insert_eq in Hrow. injection Hrow as <-. exists (bd_manifest (tk_record t)). split.
      * split; [cbn; by rewrite lookup_insert_eq|]. by exists b.
      * eapply bundle_stored_grows; [exact Hg|]. apply Hstored. split; [exists row0; split; [done|by exists b]|done].
    + rewrite lookup_insert_ne in Hrow by done. destruct (H1 _ _ _ _ Hrow Hh) as (m & [Hm Hm'] & Hs).
      exists m. split; [|by eapply bundle_stored_grows]. split; [|done]. cbn. by rewrite lookup_insert_ne.
Qed.

Lemma system_step_ok (s : System) (step : Step) : system_ok s -> system_ok (system_step s step).
Proof.
  intros [Hf Hb Ht]. pose proof (step_grows s step Hf) as [Hf' Hg].
  assert (Hold : Forall (task_ok (sy_vault (system_step s step))) (sy_tasks s)).
  { eapply Forall_impl; [exact Ht|]. intros t. by apply task_ok_grows. }
  assert (Hd : (forall env u n, step <> CommitCompletion env u n)
    \/ exists env u n, step = CommitCompletion env u n).
  { destruct step; try (left; congruence). right. by eexists _, _, _. }
  destruct s as [v tasks]. cbn [sy_vault sy_tasks] in *. split; [done| |].
  - destruct Hd as [Hn|(env & u & n & ->)].
    + eapply backed_keeps; [|exact Hb]. by apply (step_keeps (mkSystem v tasks) step Hf Hn).
    + cbn [system_step]. destruct (tasks !! n) as [t|] eqn:E; [|done]. apply commit_backed; [done| |done].
      rewrite Forall_forall in Ht. apply Ht. by eapply list_elem_of_lookup_2.
  - clear Hf' Hg Hd. revert Hold. destruct step; cbn [system_step]; try (by intros Hold).
    + destruct (complete_begin _ _ _ _ _) as [v1 [[r|t]|e]] eqn:E; cbn; intros Hold; try exact Hold.
      apply Forall_app. split; [exact Hold|]. apply Forall_singleton. by eapply begin_task.
    + destruct (tasks !! n) as [t|] eqn:E; [|done].
      destruct (complete_chunk _ _ _ _ _) as [t'|] eqn:E2; cbn; intros Hold; [|by apply Forall_delete].
      apply Forall_insert; [done|]. eapply chunk_task; [exact E2|].
      rewrite Forall_forall in Ht. apply Ht. by eapply list_elem_of_lookup_2.
    + destruct (tasks !! n) as [t|] eqn:E; [|done]. cbn. intros Hold. by apply Forall_delete.
Qed.

Lemma system_run_ok (steps : list Step) : forall s, system_ok s -> system_ok (system_run s steps).
Proof. induction steps as [|step steps IH]; intros s Hs; [done|]. by apply IH, system_step_ok. Qed.


(** ** Revocations *)

(** The retained intent to revoke, and the row of a published review. *)
Definition revoke_intent (t : Tables) (agent id : string) (request : ReviewRequest) : Prop :=
  exists p e, tb_intents t !! (agent, id, "revoke") = Some p /\ of_json p = Some e
    /\ ri_request (si_value (A := RevocationIntent) e) = request.
(** Successful parts. *)
Lemma bind_Ok {A B} (m : M A) (k : A -> M B) (v v' : Vault) (b : B) :
  bind m k v = (v', Ok b) <-> exists v1 a, m v = (v1, Ok a) /\ k a v1 = (v', Ok b).
Proof. unfold bind. destruct (m v) as [v1 [a|e]]; naive_solver. Qed.
Lemma reads_Ok {A} (f : Vault -> result A PutError) (v v' : Vault) (a : A) :
  reads f v = (v', Ok a) <-> v' = v /\ f v = Ok a.
Proof. unfold reads. split; [intros [= <- ->]|intros [-> ->]]; done. Qed.
Lemma lift_Ok {A} (r : result A PutError) (v v' : Vault) (a : A) :
  lift r v = (v', Ok a) <-> v' = v /\ r = Ok a.
Proof. unfold lift. split; [intros [= <- ->]|intros [-> ->]]; done. Qed.
Lemma transact_Ok c f (v v' : Vault) :
  transact c f v = (v', Ok tt) -> exists t, f (tables v) = Some t /\ v' = with_tables v t.
Proof.
  unfold transact. destruct (f (tables v)) as [t|]; [|done]. destruct c; cbn; [|done].
  intros [= <-]. by exists t.
Qed.

(** [text] is a signed event for this very request. *)
Definition reviews_request (request : ReviewRequest) (text : string) : Prop :=
  exists e, of_json text = Some e /\ verify_value e (sc_public_key config) = true
    /\ ev_request (si_value e) = request.
(** [b] is such an event, or a body of the same SHA-256 as one. *)
Definition review_object (request : ReviewRequest) (b : string) : Prop :=
  reviews_request request b
  \/ exists text, reviews_request request text /\ text <> b /\ body_sha256 text = body_sha256 b.
Definition review_row (v : Vault) (agent id : string) (request : ReviewRequest) : Prop :=
  exists row b, row ∈ tb_reviews (tables v) /\ same_bundle agent id row = true
    /\ vs_blobs (va_storage v) !! (agent, rw_hash row) = Some b /\ review_object request b.
Definition noted (agent id : string) (request : ReviewRequest) (v : Vault) : Prop :=
  revoke_intent (tables v) agent id request \/ review_row v agent id request.

Lemma review_row_grows (v v' : Vault) agent id request :
  vault_grows v v' -> review_row v agent id request -> review_row v' agent id request.
Proof.
  intros [[Hb _] [_ [k Hk]]] (row & b & Hr & Hs & Hl & Ho). exists row, b. split_and!; try done.
  - rewrite Hk. apply elem_of_app. by left.
  - by eapply lookup_weaken.
Qed.

(** A note survives what keeps the intent to revoke. *)
Definition noted_rel (agent id : string) (request : ReviewRequest) (v v' : Vault) : Prop :=
  noted agent id request v -> noted agent id request v'.
#[local] Instance noted_rel_preorder agent id request : PreOrder (noted_rel agent id request).
Proof. apply (implied_preorder (noted agent id request)). Qed.
Lemma noted_mono (v v' : Vault) agent id request : vault_grows v v' ->
  (forall p, tb_intents (tables v) !! (agent, id, "revoke") = Some p ->
     tb_intents (tables v') !! (agent, id, "revoke") = Some p) ->
  noted_rel agent id request v v'.
Proof.
  intros Hg Hi [(p & e & Hp & He & Hr)|Hrow]; [left|right; by eapply review_row_grows].
  exists p, e. split_and!; try done. by apply Hi.
Qed.

(** Every statement but the end of the revocation itself does. *)
Lemma noted_files agent id request v f : cf_tables f = tables v -> noted_rel agent id request v (with_files v f).
Proof. intros E. apply noted_mono; [apply (keeps_files v f E)|]. unfold tables in *. cbn. by rewrite E. Qed.
Lemma noted_put agent id request v st : appended (va_storage v) st -> noted_rel agent id request v (with_storage v st).
Proof. intros H. apply noted_mono; [apply (keeps_put v st H)|done]. Qed.
Lemma noted_intent agent id request v key p t :
  insert_intent key p (tables v) = Some t -> noted_rel agent id request v (with_tables v t).
Proof.
  intros H. apply noted_mono; [apply (keeps_intent v _ _ _ H)|]. intros q Hq.
  apply insert_intent_same in H as (_ & _ & E3 & E4). cbn. rewrite E4, lookup_insert_ne; [done|]. intros ->. congruence.
Qed.
Lemma noted_settle agent id request v private agent' id' raw event t :
  settle_statements config (va_storage v) private agent' id' raw event (tables v) = Ok t ->
  noted_rel agent id request v (with_tables v t).
Proof.
  intros H. apply noted_mono; [apply (keeps_settle config v _ _ _ _ _ _ H)|]. intros p Hp.
  apply settle_statements_same in H as (_ & _ & E3). cbn. rewrite E3; [done|congruence|by eexists].
Qed.
Lemma noted_review agent id request v agent' id' hash n request' t :
  review_statements agent' id' hash n request' (tables v) = Some t ->
  ((agent', id') <> (agent, id) \/ rq_decision request' = Good) ->
  noted_rel agent id request v (with_tables v t).
Proof.
  intros H Hne. apply noted_mono; [apply (keeps_review v _ _ _ _ _ _ H)|]. intros p Hp.
  apply review_statements_same in H as (_ & _ & E3). cbn. rewrite E3. cbn zeta.
  destruct (bool_decide_reflect (rq_decision request' = Revoked)) as [Hd|].
  - destruct Hne as [Hne|Hne]; [|congruence]. rewrite !lookup_delete_ne by congruence. done.
  - by rewrite lookup_delete_ne.
Qed.

Lemma bind_post {A B} (P : Vault -> Prop) (m : M A) (k : A -> M B) (v : Vault) :
  (forall v1 a, m v = (v1, Ok a) -> P (k a v1).1) -> (forall v1 e, m v = (v1, Err e) -> P v1) ->
  P (bind m k v).1.
Proof. intros H1 H2. unfold bind. destruct (m v) as [v1 [a|e]]; [by apply H1|by eapply H2]. Qed.

(** A retained intent is the request's own. *)
Lemma retain_spec c agent id r request v : opened v ->
  let p := retain_revocation_intent config c agent id r request v in
  opened p.1 /\ keeps v p.1 /\ (p.2 = Ok tt -> revoke_intent (tables p.1) agent id request).
Proof.
  intros Hv.
  assert (Hst : stable keeps (retain_revocation_intent config c agent id r request)).
  { unfold retain_revocation_intent. apply stable_bind; [apply _| |intros ?; stable].
    apply intent_stable; [apply _|]. intros v1 key p t. apply keeps_intent. }
  destruct (Hst v Hv) as [Ho Hk]. split_and!; [done|done|]. clear Hst Ho Hk. cbn zeta.
  unfold retain_revocation_intent. set (text := to_json _).
  assert (Hi : forall v1 b, intent c agent id "revoke" text v = (v1, Ok b) ->
    tb_intents (tables v1) !! (agent, id, "revoke") = Some b).
  { intros v1 b. unfold intent, bind, reads, lift, ret.
    destruct (tb_intents (tables v) !! _) as [old|] eqn:Eo.
    - destruct (reject _ _) as [[]|]; [|done]. by intros [= <- <-].
    - unfold transact. destruct (insert_intent _ _ _) as [t|] eqn:Et; [|done].
      apply insert_intent_same in Et as (_ & _ & _ & Et). destruct c; cbn; [|done].
      intros [= <- <-]. cbn. by rewrite Et, lookup_insert_eq. }
  unfold bind, lift. destruct (intent _ _ _ _ _ _) as [v1 [b|]]; [|done]. specialize (Hi v1 b eq_refl).
  destruct (found (of_json b) _) as [e|] eqn:Ee; [|done].
  destruct (reject (negb (verify_value _ _)) _) as [[]|]; [|done]. cbn.
  intros Hm%guard_Ok. apply ok_or_Ok in Ee. exists b, e. split_and!; try done.
  apply orb_false_iff in Hm as [_ Hm%negb_false_iff]. by apply bool_decide_eq_true in Hm.
Qed.

(** The part of a review after the retention. *)
Definition review_rest (env : OpEnv) (agent id : string) (request : ReviewRequest) : M BundleRecord :=
  let* _ := settle_pending_good config (op_settle env) (op_private env) agent id in
  let* r := reads (fun v => record_raw config (op_private env) v agent id) in
  let* _ := reads (fun v => bundle_coverage config (op_private env) v agent id r true) in
  let* completion := lift (found (bd_completion r) "미완료 번들의 검토는 보류합니다") in
  let* _ :=
    match find_review r (rq_request_id request) with
    | Some existing => lift (request_reused existing request)
    | None => publish_review config env agent id r completion request
    end in
  let* _ := reads coverage in
  reads (fun v => record config (op_private env) v agent id).

Lemma with_review_signed r e key key_id :
  verify_record (with_review r e) key key_id = Ok tt -> verify_value e key = true.
Proof.
  intros H%verify_record_iff. set (n := length (bd_reviews r)).
  assert (He : bd_reviews (with_review r e) !! n = Some e) by (cbn; apply list_lookup_middle; done).
  destruct (bd_completion (with_review r e)) as [c|] eqn:Hc.
  - destruct (rv_complete _ _ _ H c Hc) as [_ Hchain]. exact (vv_signed _ _ _ _ _ _ _ (Hchain n e He)).
  - rewrite (rv_incomplete _ _ _ H Hc) in He. by rewrite lookup_nil in He.
Qed.

(** The end of a publication: the row names the event that was put. *)
Lemma published_row env agent id kind rv n request text (v v1 : Vault) receipt t :
  reviews_request request text ->
  do_put config env agent (body_sha256 text) kind text rv v = (v1, Ok receipt) ->
  review_statements agent id (body_sha256 text) n request (tables v1) = Some t ->
  review_row (with_tables v1 t) agent id request.
Proof.
  intros Htext (b & Hb & Hor)%do_put_stored (_ & E & _)%review_statements_same.
  eexists _, b. split_and!; [cbn; rewrite E; apply elem_of_app; right; by apply list_elem_of_singleton| |exact Hb|].
  - unfold same_bundle. cbn. by rewrite !String.eqb_refl.
  - destruct (decide (text = b)) as [->|Hne]; [by left|]. destruct Hor as [->|Hor]; [done|].
    right. exists text. by split_and!.
Qed.

(** A publication keeps the note, and a successful one makes it. *)
Lemma publish_noted env agent id r c request :
  stable (noted_rel agent id request) (publish_review config env agent id r c request).
Proof.
  unfold publish_review. apply stable_lift_bind; [apply _|]. intros _ _.
  apply stable_bind; [apply _| |].
  { apply intent_stable; [apply _|]. intros v1 key q t. apply noted_intent. }
  intros bytes. apply stable_lift_bind; [apply _|]. intros e He%ok_or_Ok.
  apply stable_lift_bind; [apply _|]. intros [] Hq%guard_Ok%negb_false_iff%bool_decide_eq_true.
  apply stable_lift_bind; [apply _|]. intros [] Hver%other_Ok%with_review_signed.
  assert (Htext : reviews_request request bytes) by by exists e.
  intros v Hv.
  assert (Hput : forall rv, stable (noted_rel agent id request)
    (do_put config (op_put env) agent (body_sha256 bytes) "bundle-review" bytes rv)).
  { intros rv. apply do_put_stable. intros v1 st. apply noted_put. }
  specialize (Hput (bool_decide (rq_decision request = Revoked)) v Hv). unfold bind.
  destruct (do_put _ _ _ _ _ _ _ _) as [v1 [receipt|]] eqn:E; [|done]. destruct Hput as [Ho Hn].
  destruct (transact_stable_at (noted_rel agent id request) (op_commit env)
    (review_statements agent id (body_sha256 bytes) (zlen (bd_reviews r) + 1) request) v1 Ho) as [H1 H2].
  - intros t Ht _. right. by eapply published_row.
  - split; [done|]. by etrans.
Qed.
Lemma publish_row env agent id r c request v v' :
  publish_review config env agent id r c request v = (v', Ok tt) -> review_row v' agent id request.
Proof.
  unfold publish_review. intros H. apply bind_Ok in H as (? & ? & [-> _]%lift_Ok & H).
  apply bind_Ok in H as (v1 & bytes & _ & H). apply bind_Ok in H as (? & e & [-> He%ok_or_Ok]%lift_Ok & H).
  apply bind_Ok in H as (? & [] & [-> Hq%guard_Ok]%lift_Ok & H).
  apply bind_Ok in H as (? & [] & [-> Hver%other_Ok%with_review_signed]%lift_Ok & H).
  apply bind_Ok in H as (v2 & receipt & Hput & H). apply transact_Ok in H as (t & Ht & ->).
  apply negb_false_iff, bool_decide_eq_true in Hq. eapply published_row; [|exact Hput|exact Ht]. by exists e.
Qed.

Lemma review_rest_noted env agent id request v : opened v ->
  revoke_intent (tables v) agent id request ->
  noted agent id request (review_rest env agent id request v).1.
Proof.
  intros Hv Hi. enough (Hst : stable (noted_rel agent id request) (review_rest env agent id request))
    by (apply (Hst v Hv); by left).
  unfold review_rest. apply stable_bind; [apply _| |].
  { apply settle_stable; [apply _|]. intros v1 raw event t Ht. by eapply noted_settle. }
  intros _. assert (Hpub : forall r c, stable (noted_rel agent id request) (publish_review config env agent id r c request))
    by (intros r c; apply publish_noted).
  stable.
Qed.

(** [review_new] of a revocation retains it and goes on with [review_rest]. *)
Lemma review_new_revoked env agent id r request v :
  rq_decision request = Revoked ->
  review_new config env agent id r request v
  = bind (reads (fun v => reject_superseded_request v agent id request)) (fun _ =>
    bind (lift (reject (negb (is_some (bd_completion r))) "미완료 번들의 검토는 보류합니다")) (fun _ =>
    bind (retain_revocation_intent config (op_revoke env) agent id r request) (fun _ =>
    review_rest env agent id request))) v.
Proof.
  intros Hd. unfold review_new, prepare_review, review_rest. rewrite bool_decide_eq_true_2 by done.
  unfold bind, reads, lift, ret. destruct (reject_superseded_request _ _ _ _) as [[]|]; [|done].
  destruct (reject _ _) as [[]|]; [|done].
  destruct (retain_revocation_intent _ _ _ _ _ _ _) as [v1 [[]|]]; [|done].
  destruct (settle_pending_good _ _ _ _ _ _) as [v2 [[]|]]; [|done].
  destruct (record_raw _ _ _ _ _) as [r2|]; [|done].
  by destruct (bundle_coverage _ _ _ _ _ _ _) as [[]|].
Qed.

Lemma retain_noted c agent' id' r request' agent id request :
  stable (noted_rel agent id request) (retain_revocation_intent config c agent' id' r request').
Proof.
  unfold retain_revocation_intent. apply stable_bind; [apply _| |intros ?; stable].
  apply intent_stable; [apply _|]. intros v1 key q t. apply noted_intent.
Qed.

Lemma review_rest_keeps env agent id request : stable keeps (review_rest env agent id request).
Proof.
  unfold review_rest. apply stable_bind; [apply _| |].
  { apply settle_stable; [apply _|]. intros v1 raw event t. apply keeps_settle. }
  intros _. assert (Hint : forall c op p, stable keeps (intent c agent id op p)).
  { intros c op p. apply intent_stable; [apply _|]. intros v1 key q t. apply keeps_intent. }
  assert (Hput : forall e hash kind bytes rv, stable keeps (do_put config e agent hash kind bytes rv)).
  { intros e hash kind bytes rv. apply do_put_stable. apply keeps_put. }
  unfold publish_review. stable. apply stable_transact; [apply _|]. intros v1 t. apply keeps_review.
Qed.

(** The part of a revocation after its checks keeps every note, and makes its own. *)
Lemma retain_rest_noted c env agent id r request req v : opened v ->
  noted agent id req v ->
  noted agent id req (bind (retain_revocation_intent config c agent id r request)
    (fun _ => review_rest env agent id request) v).1.
Proof.
  intros Hv Hn. pose proof (retain_spec c agent id r request v Hv) as (Ho & Hk & Hi).
  destruct (retain_noted c agent id r request agent id req v Hv) as [_ Hn1]. specialize (Hn1 Hn).
  apply bind_post.
  - intros v1 [] E. rewrite E in *. cbn in *. specialize (Hi eq_refl).
    destruct Hn1 as [(p & e & Hp & He & Hr)|Hrow].
    + destruct Hi as (p' & e' & Hp' & He' & Hr'). rewrite Hp in Hp'. injection Hp' as <-.
      rewrite He in He'. injection He' as <-. rewrite <- Hr, Hr'. apply review_rest_noted; [done|].
      by exists p, e.
    + right. eapply review_row_grows; [|exact Hrow].
      by destruct (review_rest_keeps env agent id request v1 Ho) as [_ [Hg _]].
  - intros v1 e E. rewrite E in *. exact Hn1.
Qed.

Lemma reads_post {A B} (P : Vault -> Prop) (f : Vault -> result A PutError) (k : A -> M B) (v : Vault) :
  P v -> (forall a, f v = Ok a -> P (k a v).1) -> P (bind (reads f) k v).1.
Proof. intros Hv Hk. unfold bind, reads. destruct (f v) as [a|] eqn:E; [by apply Hk|done]. Qed.

(** A review whatsoever keeps the notes of every bundle. *)
Lemma review_noted env agent' id' request agent id req :
  advances (noted_rel agent id req) (review_inner config env agent' id' request).
Proof.
  destruct (decide ((agent', id') <> (agent, id) \/ rq_decision request = Good)) as [Hne|Hno].
  { apply review_advances; [apply _|apply noted_files|apply noted_put|apply noted_intent| |].
    - intros v private raw event t Ht. by eapply noted_settle.
    - intros v hash n t Ht. by eapply noted_review. }
  assert ((agent', id') = (agent, id) /\ rq_decision request = Revoked) as [[= -> ->] Hd].
  { destruct (decide ((agent', id') = (agent, id))); [|by destruct Hno; left].
    split; [done|]. destruct (rq_decision request); [|done]. by destruct Hno; right. }
  apply advances_lift_bind; [apply _|]. intros _. apply advances_required; [apply _|apply noted_files|].
  intros _ v Hv. split.
  { assert (Hst : stable keeps (let* r := reads (fun v => record_raw config (op_private env) v agent id) in
      let* _ := reads (fun v => bundle_coverage config (op_private env) v agent id r true) in
      match find_review r (rq_request_id request) with
      | Some existing => let* _ := lift (request_reused existing request) in
                         reads (fun v => record config (op_private env) v agent id)
      | None => review_new config env agent id r request
      end)); [|by apply Hst].
    assert (Hnew : forall r, stable keeps (review_new config env agent id r request)).
    { intros r v1 Hv1. rewrite review_new_revoked by done. revert v1 Hv1.
      apply stable_bind; [apply _|apply stable_reads, _|]. intros _.
      apply stable_bind; [apply _|apply stable_lift, _|]. intros _.
      apply stable_bind; [apply _| |intros _; apply review_rest_keeps].
      intros v1 Hv1. by destruct (retain_spec (op_revoke env) agent id r request v1 Hv1) as (H1 & H2 & _). }
    stable. }
  intros Hn. apply reads_post; [done|]. intros r _. apply reads_post; [done|]. intros _ _.
  destruct (find_review r _) as [existing|].
  { unfold bind, lift, reads. by destruct (request_reused existing request). }
  rewrite review_new_revoked by done. apply reads_post; [done|]. intros _ _.
  unfold bind at 1, lift at 1. destruct (reject _ _) as [[]|]; [|done].
  by apply retain_rest_noted.
Qed.

Lemma step_noted (s : System) (step : Step) agent id req : files_ok (sy_vault s) ->
  noted agent id req (sy_vault s) -> noted agent id req (sy_vault (system_step s step)).
Proof.
  destruct s as [v tasks]. cbn [sy_vault]. intros Hv Hn. destruct step; cbn [system_step].
  - cbn [sy_vault]. eapply noted_mono; [apply upload_keeps| |exact Hn]. intros p. unfold tables. by rewrite upload_files.
  - enough (H : advances (noted_rel agent id req) (register_inner config env agent0 manifest))
      by by apply (H v Hv).
    apply register_advances; [apply _|apply noted_files|apply noted_put|].
    intros v1 key h t E. apply noted_mono; [apply (keeps_bundle v1 _ _ _ E)|].
    unfold insert_bundle in E. destruct (is_some _); [done|]. by injection E as <-.
  - assert (H : advances (noted_rel agent id req) (complete_begin config env agent0 id0)).
    { apply begin_advances; [apply _|apply noted_files]. }
    destruct (H v Hv) as [_ H']. destruct (complete_begin _ _ _ _ _) as [v1 [[r|t]|e]]; by apply H'.
  - destruct (tasks !! n); [|done]. by destruct (complete_chunk _ _ _ _ _).
  - destruct (tasks !! n) as [t|]; [|done]. cbn [sy_vault].
    enough (H : advances (noted_rel agent id req) (complete_commit config env unchanged t))
      by by apply (H v Hv).
    apply commit_advances; [apply _|apply noted_files|apply noted_put|apply noted_intent|].
    intros v1 hash t' E. unfold completion_statements in E.
    destruct (set_completion _ _ _) as [t2|] eqn:E2; [|done]. injection E as <-. apply noted_mono.
    { split; [apply appended_refl|]. etrans; [by eapply set_completion_grows|].
      by apply (same_bundles_keep t2 (delete_intent _ t2)). }
    unfold set_completion in E2. destruct (tb_bundles _ !! _) as [row|]; cbn in E2; [|done].
    destruct (br_completion_hash row); [done|]. injection E2 as <-.
    intros p Hp. cbn. rewrite lookup_delete_ne; [done|]. congruence.
  - cbn [sy_vault]. by apply (review_noted env agent0 id0 request agent id req v Hv).
  - done.
Qed.

Lemma run_noted (steps : list Step) agent id req : forall s, files_ok (sy_vault s) ->
  noted agent id req (sy_vault s) -> noted agent id req (sy_vault (system_run s steps)).
Proof.
  induction steps as [|step steps IH]; intros s Hs Hn; [done|]. cbn [system_run foldl].
  apply IH; [by apply step_grows|by apply step_noted].
Qed.

End Systems.

(** * Successful requests *)

Section Acknowledged.
Context `{Crypto : VaultCrypto} `{Json : BundleJson} `{IJson : IntentJson}.
Variable config : StorageConfig.

(** Every review a read returns has its row. *)
Lemma raw_read_row v agent id r e : raw_read config v agent id r -> e ∈ bd_reviews r ->
  review_row config v agent id (ev_request (si_value e)).
Proof.
  intros H (i & Hi)%list_elem_of_lookup_1.
  assert (Hsigned : verify_value e (sc_public_key config) = true).
  { destruct (bd_completion r) as [c|] eqn:Hc.
    - destruct (rv_complete _ _ _ (rr_valid _ _ _ _ _ H) c Hc) as [_ Hchain].
      exact (vv_signed _ _ _ _ _ _ _ (Hchain i e Hi)).
    - rewrite (rv_incomplete _ _ _ (rr_valid _ _ _ _ _ H) Hc) in Hi. by rewrite lookup_nil in Hi. }
  destruct (Forall2_lookup_r _ _ _ _ _ (rr_reviews _ _ _ _ _ H) Hi) as (row & Hrow & (b & Hb & He) & _).
  apply list_elem_of_lookup_2 in Hrow. unfold review_rows in Hrow. apply elem_of_take in Hrow.
  rewrite sort_by_perm in Hrow. apply filter_elem in Hrow as [Hrow Hsame].
  exists row, b. split_and!; [done..|]. left. by exists e.
Qed.

(** A review of the same request is found again only with the same content. *)
Lemma find_review_row v agent id r request existing :
  raw_read config v agent id r -> find_review r (rq_request_id request) = Some existing ->
  request_reused existing request = Ok tt -> review_row config v agent id request.
Proof.
  intros H Hf <-%guard_Ok%negb_false_iff%bool_decide_eq_true. apply List.find_some in Hf as [Hin _].
  eapply raw_read_row; [exact H|]. by apply list_elem_of_In.
Qed.

(** The record a review continues with is read from the state it continues in. *)
Lemma prepare_read env agent id r request v v' r' :
  raw_read config v agent id r -> prepare_review config env agent id r request v = (v', Ok r') ->
  raw_read config v' agent id r'.
Proof.
  intros Hr. unfold prepare_review. destruct (bool_decide _).
  - intros H. do 2 (apply bind_Ok in H as (? & ? & _ & H)).
    apply bind_Ok in H as (? & ? & [-> Hraw]%reads_Ok & H).
    apply bind_Ok in H as (? & ? & [-> _]%reads_Ok & H). injection H as <- <-. by eapply record_raw_Ok.
  - intros H. apply bind_Ok in H as (? & ? & [-> _]%reads_Ok & H). by injection H as <- <-.
Qed.

(** An acknowledged review has its row. *)
Lemma review_acknowledged env agent id request v v' r :
  review_inner config env agent id request v = (v', Ok r) ->
  review_row config v' agent id request.
Proof.
  unfold review_inner. intros H. do 2 (apply bind_Ok in H as (? & ? & _ & H)).
  apply bind_Ok in H as (? & r1 & [-> Hraw%record_raw_Ok]%reads_Ok & H).
  apply bind_Ok in H as (? & ? & [-> _]%reads_Ok & H).
  destruct (find_review r1 _) as [existing|] eqn:Hf.
  { apply bind_Ok in H as (? & [] & [-> Hq]%lift_Ok & [-> _]%reads_Ok). by eapply find_review_row. }
  unfold review_new in H. apply bind_Ok in H as (? & ? & [-> _]%reads_Ok & H).
  apply bind_Ok in H as (? & ? & [-> _]%lift_Ok & H).
  apply bind_Ok in H as (v2 & r2 & Hp & H). apply (prepare_read _ _ _ _ _ _ _ _ Hraw) in Hp.
  apply bind_Ok in H as (? & c & [-> _]%lift_Ok & H). apply bind_Ok in H as (v3 & [] & Hpub & H).
  apply bind_Ok in H as (? & ? & [-> _]%reads_Ok & [-> _]%reads_Ok).
  destruct (find_review r2 _) as [existing|] eqn:Hf2.
  - apply lift_Ok in Hpub as [-> Hq]. by eapply find_review_row.
  - by eapply publish_row.
Qed.

End Acknowledged.

(** * Main results *)

Section Results.
Context `{Crypto : VaultCrypto} `{Json : BundleJson} `{IJson : IntentJson}.
Variable config : StorageConfig.

(** A server over a store without a catalog. *)
Definition fresh (st : Storage) : System :=
  mkSystem (mkVault st (mkCatalogFiles false false false empty_tables)) [].

Lemma fresh_ok (st : Storage) : system_ok (fresh st).
Proof.
  split; [done| |by apply Forall_nil]. intros agent id row h Hrow. cbn in Hrow. by rewrite lookup_empty in Hrow.
Qed.

Lemma concat_str_length (st : Storage) agent (cs : list Chunk) : forall bs,
  Forall2 (stored_chunk st agent) cs bs -> slen (concat_str bs) = sumZ (map ch_size_bytes cs).
Proof.
  induction cs as [|c cs IH] using rev_ind; intros bs H.
  - apply Forall2_nil_inv_l in H as ->. done.
  - apply Forall2_app_inv_l in H as (bs1 & bs2 & H1 & H2 & ->).
    apply Forall2_cons_inv_l in H2 as (b & bs3 & (_ & _ & Hb & _) & H3 & ->).
    apply Forall2_nil_inv_l in H3 as ->. rewrite concat_str_snoc, map_app, sumZ_app, <- (IH bs1) by done.
    unfold slen in *. rewrite string_length_app. cbn. lia.
Qed.

(** C13: a bundle the server reports as complete can be rebuilt. Whatever the
    order of requests, failures and restarts, the stored objects of its chunks
    are backups with receipts that join to a body of the size and hash of the
    manifest the agent registered. *)
Theorem complete_bundle_stored (st : Storage) (steps : list Step) (private : bool) (agent id : string)
    (r : BundleRecord) :
  let v := sy_vault (system_run config (fresh st) steps) in
  record_raw config private v agent id = Ok r -> is_Some (bd_completion r) ->
  exists bodies, Forall2 (stored_chunk (va_storage v) agent) (mf_chunks (bd_manifest r)) bodies
    /\ body_sha256 (concat_str bodies) = mf_sha256 (bd_manifest r)
    /\ slen (concat_str bodies) = mf_size_bytes (bd_manifest r).
Proof.
  intros v Hr [c Hc]. destruct (system_run_ok config steps _ (fresh_ok st)) as [_ Hb _].
  apply record_raw_Ok in Hr. destruct (rr_row _ _ _ _ _ Hr) as (row & b & Hrow & Hbl & _ & Hm & Hcomp).
  destruct (br_completion_hash row) as [h|] eqn:Eh; [|congruence].
  destruct (Hb agent id row h Hrow Eh) as (m & (_ & b' & Hb' & Hm') & bodies & Hs & Hsha).
  assert (m = bd_manifest r) as -> by (unfold v in *; congruence).
  exists bodies. split_and!; [done|done|]. rewrite (concat_str_length _ _ _ _ Hs).
  apply validate_size, (rv_manifest _ _ _ (rr_valid _ _ _ _ _ Hr)).
Qed.

(** The history of a bundle is append-only. What a later read returns
    has the same manifest, keeps the completion and extends the reviews, so a
    bundle whose revocation was once visible is recommended again only after a
    later good review. *)
Theorem reviews_append_only (st : Storage) (steps later : list Step) (p1 p2 : bool) (agent id : string)
    (r1 r2 : BundleRecord) :
  let s := system_run config (fresh st) steps in
  record_raw config p1 (sy_vault s) agent id = Ok r1 ->
  record_raw config p2 (sy_vault (system_run config s later)) agent id = Ok r2 ->
  bd_manifest r2 = bd_manifest r1
  /\ (is_Some (bd_completion r1) -> bd_completion r2 = bd_completion r1)
  /\ bd_reviews r1 `prefix_of` bd_reviews r2
  /\ forall i e, bd_reviews r1 !! i = Some e -> rq_decision (ev_request (si_value e)) = Revoked ->
       bd_recommended r2 = true ->
       exists j e', (i < j)%nat /\ bd_reviews r2 !! j = Some e'
         /\ rq_decision (ev_request (si_value e')) = Good.
Proof.
  intros s H1%record_raw_Ok H2%record_raw_Ok.
  destruct (run_grows config steps (fresh st) (sk_files _ (fresh_ok st))) as [Hf _].
  destruct (run_grows config later s Hf) as [_ Hg].
  destruct (raw_read_grows config _ _ _ _ _ _ Hg H1 H2) as (Em & _ & Ec & Hp).
  split_and!; [done|done|done|]. intros i e Hi Hd Hrec.
  apply (rv_recommended _ _ _ (rr_valid _ _ _ _ _ H2)) in Hrec as [_ Hgood].
  unfold reviewed_state in Hgood. destruct (list.last (bd_reviews r2)) as [e'|] eqn:Hl; [|done].
  assert (Hi2 : bd_reviews r2 !! i = Some e) by by eapply prefix_lookup_Some.
  apply list_last_lookup in Hl. exists (pred (length (bd_reviews r2))), e'. split_and!; [|done|].
  - pose proof (lookup_lt_Some _ _ _ Hi2).
    destruct (decide (i = pred (length (bd_reviews r2)))) as [->|]; [|lia].
    rewrite Hl in Hi2. injection Hi2 as ->. by rewrite Hd in Hgood.
  - revert Hgood. by destruct (rq_decision (ev_request (si_value e'))).
Qed.

(** A catalog rolled back to an older state never hides a review: the
    objects in the store give it away, and a read either fails or returns the
    reviews and the completion of the newest state. *)
Theorem stale_catalog_refused (v : Vault) (old : Tables) (p1 p2 : bool) (agent id : string)
    (r r' : BundleRecord) :
  record config p1 v agent id = Ok r -> tables_grow old (tables v) ->
  record config p2 (with_tables v old) agent id = Ok r' ->
  bd_reviews r' = bd_reviews r /\ bd_completion r' = bd_completion r /\ bd_manifest r' = bd_manifest r
  /\ bd_recommended r' = bd_recommended r.
Proof.
  intros (_ & H1%record_raw_Ok & C1)%record_Ok Hold (_ & H2%record_raw_Ok & C2)%record_Ok.
  assert (Hg : vault_grows (with_tables v old) v) by (split; [apply appended_refl|done]).
  destruct (raw_read_grows config _ _ _ _ _ _ Hg H2 H1) as (Em & _ & Ec & [k Hk]).
  unfold bundle_coverage in C1, C2. apply res_bind_Ok in C1 as (_ & _ & C1), C2 as (_ & _ & C2).
  cbn [res_bind va_storage with_tables] in C1, C2.
  apply guard_Ok in C1, C2. apply negb_false_iff, Z.eqb_eq in C1, C2.
  rewrite <- C1, Hk, zlen_app in C2. clear C1. pose proof (zlen_nonneg k).
  assert (Hc : bd_completion r' = bd_completion r).
  { destruct (bd_completion r') as [c|] eqn:E'; [rewrite Ec by done; done|].
    destruct (bd_completion r) as [c|] eqn:E; [|done]. cbn in C2. lia. }
  rewrite Hc in C2. assert (k = []) as ->.
  { destruct k as [|x k]; [done|]. rewrite zlen_cons in *. pose proof (zlen_nonneg k). lia. }
  rewrite app_nil_r in Hk. split_and!; try done. apply eq_true_iff_eq.
  rewrite (rv_recommended _ _ _ (rr_valid _ _ _ _ _ H1)), (rv_recommended _ _ _ (rr_valid _ _ _ _ _ H2)).
  by rewrite Hk, Hc.
Qed.

(** C12: no review is forgotten. Once the server has acknowledged a review, or
    has retained the intent to revoke although the request failed, whatever
    happens after (lost answers, failed writes, other requests, restarts), the
    bundle is unavailable or its record contains an event for the very same
    request: ID, decision, actor and reason. An acknowledgement never refers to
    another request that used the same ID. The one exception is a body that
    collides under SHA-256 with a signed event for the request. *)
Theorem review_never_forgotten (st : Storage) (steps later : list Step) (env : OpEnv) (private : bool)
    (agent id : string) (request : ReviewRequest) (r : BundleRecord) :
  let v := sy_vault (system_run config (fresh st) steps) in
  is_ok (review_inner config env agent id request v).2 = true
  \/ revoke_intent (tables (review_inner config env agent id request v).1) agent id request ->
  let final := sy_vault (system_run config (fresh st) (steps ++ Review env agent id request :: later)) in
  record config private final agent id = Ok r ->
  exists e hash b, e ∈ bd_reviews r
    /\ vs_blobs (va_storage final) !! (agent, hash) = Some b /\ of_json b = Some e
    /\ (ev_request (si_value e) = request
        \/ exists text, reviews_request config request text /\ text <> b /\ body_sha256 text = body_sha256 b).
Proof.
  intros v. destruct (review_inner config env agent id request v) as [v1 answer] eqn:Ev. cbn [fst snd].
  intros Hn Hr.
  destruct (run_grows config steps (fresh st) (sk_files _ (fresh_ok st))) as [Hf _].
  unfold system_run in *. rewrite foldl_app in *. cbn [foldl] in *.
  set (s := foldl (system_step config) (fresh st) steps) in *.
  assert (Hs1 : sy_vault (system_step config s (Review env agent id request)) = v1).
  { unfold v in Ev. fold s in Ev. destruct s as [v0 tasks]. cbn in *. by rewrite Ev. }
  assert (Hn1 : noted config agent id request v1).
  { destruct Hn as [Hok|Hi]; [right|by left]. destruct answer as [r0|]; [|done].
    by eapply review_acknowledged. }
  rewrite <- Hs1 in Hn1.
  apply (run_noted config later) in Hn1; [|by apply step_grows].
  apply record_Ok in Hr as (Hrev & Hraw%record_raw_Ok & _).
  destruct Hn1 as [(p & e & Hp & _)|(row & b & Hrow & Hsame & Hb & Hobj)].
  - unfold has_revocation_intent in Hrev. unfold system_run in Hp. by rewrite Hp in Hrev.
  - destruct (raw_read_rows config _ _ _ _ _ Hraw Hrow Hsame) as (i & e & _ & He & ((b' & Hb' & Hj) & _) & _).
    unfold system_run in Hb. rewrite Hb in Hb'. injection Hb' as <-.
    exists e, (rw_hash row), b. split_and!; [by eapply list_elem_of_lookup_2|done|done|].
    destruct Hobj as [(e' & He' & _ & Hq)|Hc]; [left; congruence|by right].
Qed.

End Results.

(** * A concrete run *)

Module Run.
Import Bundle.Sample.
#[local] Existing Instances Sample.json Sample.crypto.

Definition request_fields (r : ReviewRequest) : list string :=
  [rq_request_id r; decision_str (rq_decision r); rq_actor r; rq_reason r].
Definition revocation_fields (i : RevocationIntent) : list string :=
  [ri_format i; ri_key_id i; ri_agent_id i; ri_bundle_id i; ri_manifest_sha256 i] ++ request_fields (ri_request i).
Definition revocation_of (l : list string) : option RevocationIntent :=
  match l with
  | [f; k; a; b; m; i; d; w; y] =>
      Some (mkRevocationIntent f k a b m (mkReviewRequest i (if String.eqb d "g" then Good else Revoked) w y))
  | _ => None
  end.
Definition record_fields (r : BundleRecord) : list string :=
  [bd_agent_id r; fields (manifest_fields (bd_manifest r)); receipt_text (sr_receipt (bd_manifest_receipt r));
   sr_signature_hex (bd_manifest_receipt r);
   fields (match bd_completion r with Some c => signed_fields completion_fields c | None => [] end);
   bd_current_review r; if bd_recommended r then "t" else "f"]
  ++ map (fun e => fields (signed_fields event_fields e)) (bd_reviews r).

#[local] Instance intent_json : IntentJson := {|
  intent_ser := fun i => fields (revocation_fields i);
  signed_intent_ser := fun i => fields (signed_fields revocation_fields i);
  signed_intent_de := fun s => untext s ≫= signed_of revocation_of;
  record_ser := fun r => fields (record_fields r);
|}.

Definition config : StorageConfig := mkStorageConfig "k" "pub" 65536 3600.
Definition store : Storage :=
  mkStorage ∅ ∅ (match track_configured (CapacityState_new CapacityConfig_default) ["a"] with
                 | Ok s => s | Err _ => CapacityState_new CapacityConfig_default end).
Definition put_env : PutEnv := mkPutEnv (Some (2 ^ 40)) true true true Written 1000 Written true.
Definition open_env : OpenEnv := mkOpenEnv Written true Committed Written true.
Definition env (now : Z) : OpEnv :=
  mkOpEnv open_env true put_env Committed Committed Committed Committed now.
(** The disk fails after the intents of a request. *)
Definition full_disk (now : Z) : OpEnv :=
  mkOpEnv open_env true (mkPutEnv (Some 0) true true true Written 1000 Written true)
    Committed Committed Committed Committed now.
Definition id : string := mf_bundle_id manifest.
Definition request (d : ReviewDecision) (n : string) : ReviewRequest := mkReviewRequest n d "kim" "checked".

(** An agent stores a file in one chunk and completes its bundle, then it is reviewed. *)
Definition completed : list Step :=
  [Upload put_env "a" (sha "hello") "backup" "hello"; Register (env 1000) "a" manifest;
   BeginCompletion (env 1100) "a" id; ReadChunk 0 true true; CommitCompletion (env 1200) true 0].
Definition approved : list Step := completed ++ [Review (env 1300) "a" id (request Good "r1")].
(** A revocation on a full disk, retried when there is space again. *)
Definition interrupted : list Step := approved ++ [Review (full_disk 1400) "a" id (request Revoked "r2")].
Definition retried : list Step := interrupted ++ [Review (env 1500) "a" id (request Revoked "r2")].

#[local] Abbreviation vault steps := (sy_vault (system_run config (fresh store) steps)).
Definition read (steps : list Step) : result BundleRecord PutError :=
  BundleServer.record config true (vault steps) "a" id.
Definition summary_of (steps : list Step) : result (string * bool) PutError :=
  let? r := read steps in Ok (bd_current_review r, bd_recommended r).

Example completed_unknown : summary_of completed = Ok ("unknown", false).
Proof. vm_compute. reflexivity. Qed.
Example approved_recommended : summary_of approved = Ok ("good", true).
Proof. vm_compute. reflexivity. Qed.
Example interrupted_withheld : is_ok (read interrupted) = false.
Proof. vm_compute. reflexivity. Qed.
Example retried_revoked : summary_of retried = Ok ("revoked", false).
Proof. vm_compute. reflexivity. Qed.


Definition raw_of (steps : list Step) : BundleRecord :=
  match record_raw config true (vault steps) "a" id with Ok r => r | Err _ => Sample.record [] end.
Definition read_of (r : result BundleRecord PutError) : BundleRecord :=
  match r with Ok r => r | Err _ => Sample.record [] end.

Lemma complete_bundle_stored_witness :
  exists bodies, Forall2 (stored_chunk (va_storage (vault completed)) "a") (mf_chunks manifest) bodies
    /\ sha (concat_str bodies) = sha "hello".
Proof.
  assert (Hr : record_raw config true (vault completed) "a" id = Ok (raw_of completed))
    by (vm_compute; reflexivity).
  assert (Hm : bd_manifest (raw_of completed) = manifest) by (vm_compute; reflexivity).
  assert (Hc : is_Some (bd_completion (raw_of completed))) by (vm_compute; eexists; reflexivity).
  destruct (complete_bundle_stored config store completed true "a" id (raw_of completed) Hr Hc)
    as (bodies & H1 & H2 & _).
  rewrite Hm in H1, H2. exists bodies. split; [exact H1|exact H2].
Defined.

(** The bundle is approved again after its revocation. *)
Lemma reviews_append_only_witness :
  let later := [Review (env 1600) "a" id (request Good "r3")] in
  exists j e', (1 < j)%nat /\ bd_reviews (raw_of (retried ++ later)) !! j = Some e'
    /\ rq_decision (ev_request (si_value e')) = Good.
Proof.
  intros later.
  assert (H1 : record_raw config true (vault retried) "a" id = Ok (raw_of retried)) by (vm_compute; reflexivity).
  assert (H2 : record_raw config true (sy_vault (system_run config (system_run config (fresh store) retried) later))
    "a" id = Ok (raw_of (retried ++ later))) by (vm_compute; reflexivity).
  assert (H3 : exists e, bd_reviews (raw_of retried) !! 1%nat = Some e
    /\ rq_decision (ev_request (si_value e)) = Revoked) by (vm_compute; eexists; split; reflexivity).
  assert (H4 : bd_recommended (raw_of (retried ++ later)) = true) by (vm_compute; reflexivity).
  destruct H3 as (e & He & Hd).
  exact (proj2 (proj2 (proj2 (reviews_append_only config store retried later true true "a" id _ _ H1 H2)))
    1%nat e He Hd H4).
Defined.

(** Another bundle was registered since the catalog was copied. *)
Definition other_manifest : BundleManifest :=
  mkBundleManifest "argos-recovery-bundle-v1" (hex_digits 32 6) 1000
    (mkBundleMetadata "/srv/b" None "[]" None) (sha "hello") 5 [mkChunk (sha "hello") 5].

Lemma stale_catalog_refused_witness :
  let s := system_run config (fresh store) approved in
  let v := sy_vault (system_run config s [Register (env 1700) "a" other_manifest]) in
  size (tb_bundles (tables v)) = 2%nat
  /\ bd_recommended (read_of (BundleServer.record config true (with_tables v (tables (sy_vault s))) "a" id))
     = bd_recommended (read_of (BundleServer.record config true v "a" id)).
Proof.
  intros s v. split; [vm_compute; reflexivity|].
  assert (H1 : BundleServer.record config true v "a" id = Ok (read_of (BundleServer.record config true v "a" id)))
    by (vm_compute; reflexivity).
  assert (H2 : BundleServer.record config true (with_tables v (tables (sy_vault s))) "a" id
    = Ok (read_of (BundleServer.record config true (with_tables v (tables (sy_vault s))) "a" id)))
    by (vm_compute; reflexivity).
  assert (Hg : tables_grow (tables (sy_vault s)) (tables v)).
  { destruct (run_grows config approved (fresh store) (sk_files _ (fresh_ok store))) as [Hf _].
    destruct (run_grows config [Register (env 1700) "a" other_manifest] s Hf) as [_ [_ Hg]]. exact Hg. }
  destruct (stale_catalog_refused config v (tables (sy_vault s)) true true "a" id _ _ H1 Hg H2)
    as (_ & _ & _ & E). exact E.
Defined.

(** The revocation hidden by an older catalog is noticed. *)
Example stale_revocation_refused :
  is_ok (BundleServer.record config true (with_tables (vault retried) (tables (vault approved))) "a" id) = false.
Proof. vm_compute. reflexivity. Qed.

(** The reviews a read returns. *)
Definition requests_of (steps : list Step) : list ReviewRequest :=
  map (fun e => ev_request (si_value e)) (bd_reviews (raw_of steps)).

Lemma review_never_forgotten_witness :
  let later := [Review (env 1500) "a" id (request Revoked "r2")] in
  requests_of retried = [request Good "r1"; request Revoked "r2"]
  /\ exists e b, e ∈ bd_reviews (raw_of retried) /\ of_json b = Some e
       /\ (ev_request (si_value e) = request Revoked "r2"
           \/ exists text, reviews_request config (request Revoked "r2") text /\ text <> b
                /\ sha text = sha b).
Proof.
  intros later. split; [vm_compute; reflexivity|].
  set (v1 := (review_inner config (full_disk 1400) "a" id (request Revoked "r2") (vault approved)).1).
  assert (Hi : revoke_intent (tables v1) "a" id (request Revoked "r2")).
  { set (p := default "" (tb_intents (tables v1) !! ("a", id, "revoke"))).
    set (i := mkRevocationIntent "" "" "" "" "" (request Good "")).
    exists p, (default (mkSigned i "") (of_json p)).
    split; [vm_compute; reflexivity|split; vm_compute; reflexivity]. }
  assert (Hr : BundleServer.record config true (vault (approved
    ++ Review (full_disk 1400) "a" id (request Revoked "r2") :: later)) "a" id = Ok (raw_of retried))
    by (vm_compute; reflexivity).
  destruct (review_never_forgotten config store approved later (full_disk 1400) true "a" id
    (request Revoked "r2") (raw_of retried) (or_intror Hi) Hr) as (e & hash & b & H1 & _ & H2 & H3).
  exists e, b. split; [exact H1|split; [exact H2|exact H3]].
Defined.

(** The ID of a recorded review is refused for another decision. *)
Example reused_id_refused :
  is_ok (review_inner config (env 1400) "a" id (request Revoked "r1") (vault approved)).2 = false.
Proof. vm_compute. reflexivity. Qed.

End Run.
