(* ===== verification/VaultQueue.v ===== *)
(** The persistent upload queue (crates/argos-vault/src/queue.rs): snapshots on
    disk, active items with leases and retry times, the archive of receipts.
    Every operation runs under the queue's file lock, so it is one step; several
    workers interleave whole steps, and their leases may go stale in between. *)
From Stdlib Require Import ZArith Lia Ascii.
From stdpp Require Import base gmap strings list.
From S2P Require Import Prelude RustPath Receipts VaultQuota.
#[local] Open Scope Z_scope.

Definition MAX_ITEMS : Z := 10000.
Definition MAX_BYTES : Z := 8 * 1024 * 1024 * 1024.
Definition STATUS_ITEMS : Z := 100.
Definition MAX_ARCHIVE_ITEMS : Z := 100000.
Definition LEASE_GRACE_MS : Z := 30000.

Record QueueLimits := mkQueueLimits {
  ql_max_items : Z;
  ql_max_bytes : Z;
}.
Definition QueueLimits_default : QueueLimits := mkQueueLimits 1000 (256 * 1024 * 1024).
Definition limits_validate (l : QueueLimits) : result unit string :=
  guard (negb ((1 <=? ql_max_items l) && (ql_max_items l <=? MAX_ITEMS))
         || negb ((1 <=? ql_max_bytes l) && (ql_max_bytes l <=? MAX_BYTES)))
    "활성 큐 상한은 1~10000개, 본문 1바이트~8GiB입니다".

Record QueueTarget := mkQueueTarget {
  qt_endpoint : string;
  qt_agent_id : string;
  qt_key_id : string;
  qt_pinned_pubkey : string;
  qt_allow_http_loopback : bool;
  qt_tls_ca_sha256 : option string;
}.
#[export] Instance QueueTarget_eq_dec : EqDecision QueueTarget.
Proof. solve_decision. Defined.

Record QueueItem := mkQueueItem {
  qi_id : string;
  qi_kind : string;
  qi_sha256 : string;
  qi_size_bytes : Z;
  qi_state : string;
  qi_created_at_ms : Z;
  qi_attempts : Z;
  qi_next_retry_ms : Z;
  qi_last_error : option string;
  qi_sent_at_ms : option Z;
  qi_receipt : option SignedReceipt;
}.

(** A row of queue_items: the item and its lease columns. *)
Record ActiveRow := mkActiveRow {
  row_item : QueueItem;
  row_lease_token : option string;
  row_lease_expires_ms : option Z;
}.

(** A directory entry of the snapshot directory. *)
Record ObjectFile := mkObjectFile {
  of_regular : bool;
  of_private : bool;
  of_bytes : string;
}.

Record QueueState := mkQueueState {
  qu_target : QueueTarget;
  qu_limits : QueueLimits;
  qu_active : gmap string ActiveRow;
  qu_archive : gmap string QueueItem;
  qu_objects : gmap string ObjectFile;
}.

(** The tables and the directory that [open_mutating] creates for a first [enqueue]. *)
Definition queue_new (target : QueueTarget) (limits : QueueLimits) : QueueState :=
  mkQueueState target limits ∅ ∅ ∅.

Definition with_tables (st : QueueState) active archive : QueueState :=
  mkQueueState (qu_target st) (qu_limits st) active archive (qu_objects st).
Definition with_objects (st : QueueState) objects : QueueState :=
  mkQueueState (qu_target st) (qu_limits st) (qu_active st) (qu_archive st) objects.

Definition is_lower_hex_digit (c : ascii) : bool :=
  let n := nat_of_ascii c in is_digit c || (Nat.leb 97 n && Nat.leb n 102).
Definition id_ok (id : string) : bool := (slen id =? 32) && str_all is_lower_hex_digit id.
Definition snapshot_name (id : string) : string := id +:+ ".bin".

Definition clock (now now_ms : Z) : Z := Z.min (Z.max now now_ms) i64_max.

Definition retry_delay (attempts : Z) : Z :=
  Z.min (sat_mul 5000 (Z.shiftl 1 (Z.min (sat_sub32 attempts 1) 10))) 3600000.

Section Queue.
Context `{Crypto : VaultCrypto}.

(** [Ok] when a completed item matches its signed receipt. *)
Definition verified_item (item : QueueItem) (target : QueueTarget) : result unit string :=
  let? ack := ok_or (qi_receipt item) "완료 항목에 수신증명이 없습니다" in
  let? _ := guard (negb (verify_receipt ack (qt_pinned_pubkey target)))
              "수신증명 필드/형식이 유효하지 않습니다" in
  let r := sr_receipt ack in
  guard (negb (id_ok (qi_id item)) || negb (String.eqb (qi_state item) "sent")
         || negb (is_some (qi_sent_at_ms item))
         || negb (String.eqb (re_agent_id r) (qt_agent_id target))
         || negb (String.eqb (re_key_id r) (qt_key_id target))
         || negb (String.eqb (re_kind r) (qi_kind item))
         || negb (String.eqb (re_sha256 r) (qi_sha256 item))
         || negb (re_size_bytes r =? qi_size_bytes item))
    "완료 항목과 서명 수신증명이 일치하지 않습니다".

(** * Opening the queue *)

Definition active_list (st : QueueState) : list (string * ActiveRow) := map_to_list (qu_active st).
Definition archive_list (st : QueueState) : list (string * QueueItem) := map_to_list (qu_archive st).

Definition bad_active (row : ActiveRow) : bool :=
  negb (String.eqb (qi_state (row_item row)) "pending") || is_some (qi_receipt (row_item row))
  || is_some (qi_sent_at_ms (row_item row))
  || negb (Bool.eqb (is_some (row_lease_token row)) (is_some (row_lease_expires_ms row))).
Definition bad_archived (item : QueueItem) : bool :=
  negb (String.eqb (qi_state item) "sent") || negb (is_some (qi_receipt item))
  || negb (is_some (qi_sent_at_ms item)).
Definition same_object (a b : QueueItem) : bool :=
  String.eqb (qi_kind a) (qi_kind b) && String.eqb (qi_sha256 a) (qi_sha256 b).
Definition duplicated (st : QueueState) : bool :=
  existsb (fun a => existsb (fun b => String.eqb a.1 b.1 || same_object (row_item a.2) b.2)
                      (archive_list st)) (active_list st).

(** [validate_database] of a current queue (schema version 3) without bundle jobs. *)
Definition validate_database (st : QueueState) : result unit string :=
  let? _ := guard (negb (valid_id (qt_agent_id (qu_target st)))
                   || negb (valid_id (qt_key_id (qu_target st))))
              "큐 대상 기록이 유효하지 않습니다" in
  let? _ := guard (negb (public_key_ok (qt_pinned_pubkey (qu_target st))))
              "공개키는 32바이트 hex여야 합니다" in
  let? _ := limits_validate (qu_limits st) in
  let active := Z.of_nat (size (qu_active st)) in
  let? _ := guard (MAX_ITEMS <? active) "활성 큐 절대 상한 초과" in
  let? _ := guard (MAX_ARCHIVE_ITEMS <? sat_add (Z.of_nat (size (qu_archive st))) active)
              "큐 수신증명 보관 상한 초과" in
  guard (existsb (fun kv => bad_active kv.2) (active_list st) || duplicated st
         || existsb (fun kv => bad_archived kv.2) (archive_list st))
    "활성 큐/수신증명 보관 스키마 상태 오류".

(** One entry of the snapshot directory: what is left of it, or an error that
    stops the sweep. *)
Definition cleanup_entry (st : QueueState) (name : string) : result QueueState string :=
  match qu_objects st !! name with
  | None => Err "symlink_metadata"
  | Some file =>
      let? _ := guard (negb (of_regular file)) "큐 스냅샷 경로에 일반 파일 외 항목이 있습니다" in
      let temporary := str_starts_with ".argos-vault-" name && ends_with ".tmp" name in
      let id := opt_filter id_ok (strip_suffix ".bin" name) in
      if temporary || is_some_and id (fun id => negb (is_some (qu_active st !! id))) then
        let? _ := match id ≫= fun id => qu_archive st !! id with
                  | Some completed => verified_item completed (qu_target st)
                  | None => Ok tt
                  end in
        Ok (with_objects st (delete name (qu_objects st)))
      else if is_some id then Ok st
      else Err "큐 스냅샷 디렉터리에 알 수 없는 파일이 있습니다"
  end.

(** The sweep in the order of the listing; what it removed before an error stays removed. *)
Fixpoint sweep (st : QueueState) (count : Z) (listing : list string) : QueueState * result unit string :=
  match listing with
  | [] => (st, Ok tt)
  | name :: listing' =>
      if MAX_ITEMS * 2 + 100 <=? count then (st, Err "큐 스냅샷 디렉터리 항목 상한 초과")
      else match cleanup_entry st name with
           | Err e => (st, Err e)
           | Ok st' => sweep st' (count + 1) listing'
           end
  end.

Definition cleanup (st : QueueState) (listing : list string) : QueueState * result unit string :=
  if MAX_ITEMS <? Z.of_nat (size (qu_active st)) then (st, Err "큐 기록의 절대 상한 초과")
  else if existsb (fun kv => negb (id_ok kv.1)
                             || negb (str_mem (qi_state (row_item kv.2)) ["pending"; "sent"]))
            (active_list st)
  then (st, Err "큐 기록이 유효하지 않아 스냅샷 정리를 거부합니다")
  else sweep st 0 listing.

Definition open_mutating (st : QueueState) (listing : list string) : QueueState * result unit string :=
  match validate_database st with
  | Ok _ => cleanup st listing
  | Err e => (st, Err e)
  end.

Definition assert_target (st : QueueState) (target : QueueTarget) : result unit string :=
  guard (negb (bool_decide (qu_target st = target)))
    "큐에 고정된 대상·에이전트·수신증명 키와 현재 설정이 다릅니다. 다른 대상을 위한 새 큐를 사용하세요".

(** * Adding an object *)

Definition object_key (kind hash : string) (item : QueueItem) : bool :=
  String.eqb (qi_kind item) kind && String.eqb (qi_sha256 item) hash.
(** The item for a kind and hash, active or archived. *)
Definition find_object (st : QueueState) (kind hash : string) : option QueueItem :=
  match List.find (fun kv => object_key kind hash (row_item kv.2)) (active_list st) with
  | Some kv => Some (row_item kv.2)
  | None => snd <$> List.find (fun kv => object_key kind hash kv.2) (archive_list st)
  end.

Definition read_snapshot (st : QueueState) (id : string) (max_bytes : Z) : option string :=
  if negb (id_ok id) then None
  else match qu_objects st !! snapshot_name id with
       | Some file => if of_regular file && of_private file && (slen (of_bytes file) <=? max_bytes)
                      then Some (of_bytes file) else None
       | None => None
       end.
Definition intact (item : QueueItem) (bytes : string) : bool :=
  (slen bytes =? qi_size_bytes item) && String.eqb (body_sha256 bytes) (qi_sha256 item).

Definition pending_bytes (st : QueueState) : Z :=
  map_sum (fun row => if String.eqb (qi_state (row_item row)) "pending" then qi_size_bytes (row_item row) else 0)
    (qu_active st).

Definition new_item (id kind hash : string) (size now : Z) : QueueItem :=
  mkQueueItem id kind hash size "pending" now 0 now None None None.

(** INSERT INTO queue_items: the primary key and UNIQUE(kind, sha256). *)
Definition insert_item (st : QueueState) (item : QueueItem) : option QueueState :=
  if is_some (qu_active st !! qi_id item)
     || existsb (fun kv => same_object (row_item kv.2) item) (active_list st)
  then None
  else Some (with_tables st (<[qi_id item := mkActiveRow item None None]> (qu_active st)) (qu_archive st)).

(** What one request meets outside the database: the directory listing, the
    random ID, the outcome of the snapshot write and of COMMIT (which may fail
    after it took effect), the clock, and whether the snapshot of a finished item
    can be removed and its directory synced. *)
Record QueueEnv := mkQueueEnv {
  qe_listing : list string;
  qe_random : option string;
  qe_write : write_outcome;
  qe_commit : write_outcome;
  qe_now_ms : Z;
  qe_remove : bool;
  qe_sync : bool;
}.

Definition commit (env : QueueEnv) (before after : QueueState) : QueueState * bool :=
  (if linked (qe_commit env) then after else before, written (qe_commit env)).

Definition enqueue_existing (st : QueueState) (target : QueueTarget) (max_bytes : Z) (item : QueueItem)
    : result QueueItem string :=
  if String.eqb (qi_state item) "sent" then
    let? _ := verified_item item target in Ok item
  else
    let? stored := ok_or (read_snapshot st (qi_id item) max_bytes) "snapshot" in
    let? _ := guard (negb (intact item stored)) "기존 pending 스냅샷 내용 불일치: 원본을 보존하고 큐를 점검하세요" in
    Ok item.

Definition enqueue_new (st : QueueState) (env : QueueEnv) (kind hash bytes : string) (limits : QueueLimits)
    : QueueState * result QueueItem string :=
  let count := Z.of_nat (size (qu_active st)) in
  if MAX_ARCHIVE_ITEMS <=? sat_add count (Z.of_nat (size (qu_archive st)))
  then (st, Err "수신증명 보관 상한(100000건)에 도달했습니다. 남은 항목 전송 뒤 export-archive하고 기존 큐를 보존한 채 새 경로를 사용하세요")
  else if (ql_max_items limits <=? count)
          || (ql_max_bytes limits <? sat_add (pending_bytes st) (slen bytes))
  then (st, Err "활성 큐 기록/본문 용량 상한에 도달했습니다. pending 항목을 전송하거나 상한을 검토하세요")
  else match opt_filter id_ok (qe_random env) with
  | None => (st, Err "큐 ID 난수 생성 실패")
  | Some id =>
      if is_some (qu_objects st !! snapshot_name id) then (st, Err "write_new")
      else
        let st :=
          if linked (qe_write env)
          then with_objects st (<[snapshot_name id := mkObjectFile true true bytes]> (qu_objects st))
          else st in
        if negb (written (qe_write env)) then (st, Err "write_new")
        else
          let now := Z.min (qe_now_ms env) i64_max in
          let item := new_item id kind hash (slen bytes) now in
          match insert_item (mkQueueState (qu_target st) limits (qu_active st) (qu_archive st)
                               (qu_objects st)) item with
          | None => (st, Err "insert")
          | Some st' =>
              let '(st, ok) := commit env st st' in (st, if ok then Ok item else Err "commit")
          end
  end.

(** On an initialised queue; [source] is what the stable bounded read returned. *)
Definition enqueue (st : QueueState) (env : QueueEnv) (target : QueueTarget) (max_object_bytes : Z)
    (source : result string string) (kind : string) (limits : QueueLimits)
    : QueueState * result QueueItem string :=
  match (let? _ := limits_validate limits in
         let? _ := guard (negb (valid_kind kind)) "보관 종류 오류" in source) with
  | Err e => (st, Err e)
  | Ok bytes =>
      let hash := body_sha256 bytes in
      let '(st, opened) := open_mutating st (qe_listing env) in
      match (let? _ := opened in assert_target st target) with
      | Err e => (st, Err e)
      | Ok _ =>
          match find_object st kind hash with
          | Some item => (st, enqueue_existing st target max_object_bytes item)
          | None => enqueue_new st env kind hash bytes limits
          end
      end
  end.

(** * Leases *)

Record Lease := mkLease {
  ls_item : QueueItem;
  ls_token : string;
}.

Definition due (now : Z) (row : ActiveRow) : bool :=
  (qi_next_retry_ms (row_item row) <=? now)
  && is_none_or (row_lease_expires_ms row) (fun e => e <=? now).

(** ORDER BY created_at_ms, id LIMIT 1. *)
Definition next_due (st : QueueState) (now : Z) : option (string * ActiveRow) :=
  min_by_key (fun kv => (qi_created_at_ms (row_item kv.2), kv.1))
    (List.filter (fun kv => due now kv.2) (active_list st)).

Definition retried (item : QueueItem) (attempts next : Z) (error : string) : QueueItem :=
  mkQueueItem (qi_id item) (qi_kind item) (qi_sha256 item) (qi_size_bytes item) (qi_state item)
    (qi_created_at_ms item) attempts next (Some error) (qi_sent_at_ms item) (qi_receipt item).
Definition with_attempts (item : QueueItem) (attempts : Z) : QueueItem :=
  mkQueueItem (qi_id item) (qi_kind item) (qi_sha256 item) (qi_size_bytes item) (qi_state item)
    (qi_created_at_ms item) attempts (qi_next_retry_ms item) (qi_last_error item)
    (qi_sent_at_ms item) (qi_receipt item).

Definition lease_expiry (now timeout_secs : Z) : Z :=
  Z.min (sat_add (sat_add now (sat_mul timeout_secs 1000)) LEASE_GRACE_MS) i64_max.

Definition claim (st : QueueState) (env : QueueEnv) (target : QueueTarget) (timeout_secs now : Z)
    : QueueState * result (option Lease) string :=
  let '(st, opened) := open_mutating st (qe_listing env) in
  match (let? _ := opened in assert_target st target) with
  | Err e => (st, Err e)
  | Ok _ =>
      let now := clock now (qe_now_ms env) in
      match next_due st now with
      | None => (st, Ok None)
      | Some (id, row) =>
          let item := row_item row in
          if negb (valid_kind (qi_kind item)) || negb (valid_hash (qi_sha256 item))
             || (MAX_OBJECT_BYTES <? qi_size_bytes item)
          then (st, Err "큐 항목 메타데이터 오류")
          else match qe_random env with
          | None => (st, Err "큐 임대 난수 생성 실패")
          | Some token =>
              let attempts := sat_add32 (qi_attempts item) 1 in
              let next := Z.min (sat_add now (retry_delay attempts)) i64_max in
              let row' := mkActiveRow (retried item attempts next "interrupted_or_unconfirmed")
                            (Some token) (Some (lease_expiry now timeout_secs)) in
              let '(st, ok) := commit env st
                (with_tables st (<[id := row']> (qu_active st)) (qu_archive st)) in
              (st, if ok then Ok (Some (mkLease (with_attempts item attempts) token)) else Err "commit")
          end
      end
  end.

Definition owns (st : QueueState) (lease : Lease) (now : Z) : option ActiveRow :=
  row ← qu_active st !! qi_id (ls_item lease);
  if bool_decide (row_lease_token row = Some (ls_token lease))
     && is_some_and (row_lease_expires_ms row) (fun e => now <? e)
  then Some row else None.

Definition completed_item (item : QueueItem) (receipt : SignedReceipt) (now : Z) : QueueItem :=
  mkQueueItem (qi_id item) (qi_kind item) (qi_sha256 item) (qi_size_bytes item) "sent"
    (qi_created_at_ms item) (qi_attempts item) (qi_next_retry_ms item) (qi_last_error item)
    (Some now) (Some receipt).
(** The row that INSERT .. SELECT copies to the archive. *)
Definition archived_item (row : ActiveRow) (receipt : SignedReceipt) (now : Z) : QueueItem :=
  let item := row_item row in
  mkQueueItem (qi_id item) (qi_kind item) (qi_sha256 item) (qi_size_bytes item) "sent"
    (qi_created_at_ms item) (qi_attempts item) 0 None (Some now) (Some receipt).
Definition insert_archive (st : QueueState) (item : QueueItem) : option (gmap string QueueItem) :=
  if is_some (qu_archive st !! qi_id item)
     || existsb (fun kv => same_object kv.2 item) (archive_list st)
  then None else Some (<[qi_id item := item]> (qu_archive st)).

Definition finish (st : QueueState) (env : QueueEnv) (target : QueueTarget) (lease : Lease)
    (outcome : result SignedReceipt string) (now : Z) : QueueState * result bool string :=
  let '(st, opened) := open_mutating st (qe_listing env) in
  match (let? _ := opened in assert_target st target) with
  | Err e => (st, Err e)
  | Ok _ =>
      let now := clock now (qe_now_ms env) in
      match owns st lease now with
      | None => (st, Ok false)
      | Some row =>
          let id := qi_id (ls_item lease) in
          match outcome with
          | Ok receipt =>
              match (let? _ := verified_item (completed_item (ls_item lease) receipt now) target in
                     ok_or (insert_archive st (archived_item row receipt now)) "insert") with
              | Err e => (st, Err e)
              | Ok archive =>
                  let '(st, ok) := commit env st (with_tables st (delete id (qu_active st)) archive) in
                  if negb ok then (st, Err "commit")
                  else if qe_remove env && is_some (qu_objects st !! snapshot_name id)
                  then (with_objects st (delete (snapshot_name id) (qu_objects st)),
                        if qe_sync env then Ok true else Err "sync_directory")
                  else (st, Err "remove_file")
              end
          | Err code =>
              let retry := Z.min (sat_add now (retry_delay (qi_attempts (ls_item lease)))) i64_max in
              let row' := mkActiveRow (retried (row_item row) (qi_attempts (row_item row)) retry code)
                            None None in
              let '(st, ok) := commit env st
                (with_tables st (<[id := row']> (qu_active st)) (qu_archive st)) in
              (st, if ok then Ok true else Err "commit")
          end
      end
  end.

(** * The worker between claim and finish, and inspection *)

(** The upload of one lease; [upload] is the network client. *)
Definition send_lease (st : QueueState) (target : QueueTarget) (max_object_bytes : Z) (lease : Lease)
    (upload : string -> result SignedReceipt string) (now : Z) : result SignedReceipt string :=
  let? bytes := ok_or (read_snapshot st (qi_id (ls_item lease)) max_object_bytes) "queue_local" in
  let? _ := guard (negb (intact (ls_item lease) bytes)) "queue_local" in
  let? receipt := upload bytes in
  match verified_item (completed_item (ls_item lease) receipt now) target with
  | Ok _ => Ok receipt
  | Err _ => Err "response_integrity"
  end.

(** Without [bundle_jobs], the summary of the bundle jobs. *)
Record QueueStatus := mkQueueStatus {
  stat_target : option QueueTarget;
  stat_limits : option QueueLimits;
  stat_items_total : Z;
  stat_pending_items : Z;
  stat_sent_items : Z;
  stat_pending_bytes : Z;
  stat_failed_items : Z;
  stat_leased_items : Z;
  stat_archive_items : Z;
  stat_archive_capacity : Z;
  stat_archive_slots_available : Z;
  stat_earliest_retry_ms : option Z;
  stat_items : list QueueItem;
  stat_items_truncated : bool;
}.

(** [item_source]: the two tables together. *)
Definition item_source (st : QueueState) : list QueueItem :=
  map (fun kv => row_item kv.2) (active_list st) ++ map snd (archive_list st).
Definition is_pending (i : QueueItem) : bool := String.eqb (qi_state i) "pending".
Definition is_sent (i : QueueItem) : bool := String.eqb (qi_state i) "sent".
Definition count_items (p : QueueItem -> bool) (l : list QueueItem) : Z := zlen (List.filter p l).

(** ORDER BY created_at_ms DESC, id DESC. *)
Definition newest_first : Ord QueueItem := fun a b =>
  cmp (qi_created_at_ms b, qi_id b) (qi_created_at_ms a, qi_id a).
Definition recent_items (items : list QueueItem) : list QueueItem :=
  take (Z.to_nat STATUS_ITEMS) (@sort _ newest_first items).

Fixpoint verify_sent (target : QueueTarget) (items : list QueueItem) : result unit string :=
  match items with
  | [] => Ok tt
  | i :: items' =>
      let? _ := if is_sent i then verified_item i target else Ok tt in
      verify_sent target items'
  end.

Definition status (st : QueueState) (now_ms : Z) : result QueueStatus string :=
  let? _ := validate_database st in
  let all := item_source st in
  let items := recent_items all in
  let? _ := verify_sent (qu_target st) items in
  Ok {| stat_target := Some (qu_target st);
        stat_limits := Some (qu_limits st);
        stat_items_total := zlen all;
        stat_pending_items := count_items is_pending all;
        stat_sent_items := count_items is_sent all;
        stat_pending_bytes := sumZ (map (fun i => if is_pending i then qi_size_bytes i else 0) all);
        stat_failed_items := count_items (fun i => is_pending i && is_some (qi_last_error i)) all;
        stat_leased_items := zlen (List.filter (fun kv =>
          is_some_and (row_lease_expires_ms kv.2) (fun e => now_ms <? e)) (active_list st));
        stat_archive_items := count_items is_sent all;
        stat_archive_capacity := MAX_ARCHIVE_ITEMS;
        stat_archive_slots_available := sat_sub MAX_ARCHIVE_ITEMS (zlen all);
        stat_earliest_retry_ms := min_by_key (fun x => x) (map (fun kv =>
          Z.max (qi_next_retry_ms (row_item kv.2)) (default 0 (row_lease_expires_ms kv.2)))
          (active_list st));
        stat_items := items;
        stat_items_truncated := zlen items <? zlen all |}.

Definition item (st : QueueState) (id : string) : result QueueItem string :=
  let? _ := guard (negb (id_ok id)) "큐 ID는 소문자 hex 32자여야 합니다" in
  let? _ := validate_database st in
  let? found := ok_or (match qu_active st !! id with
                       | Some row => Some (row_item row)
                       | None => qu_archive st !! id end) "큐 항목을 찾을 수 없습니다" in
  let? _ := if is_sent found then verified_item found (qu_target st) else Ok tt in
  Ok found.

End Queue.

(** * Workers: whole requests in any order *)

Inductive QueueOp : Type :=
| Enqueue (env : QueueEnv) (target : QueueTarget) (max_object_bytes : Z)
    (source : result string string) (kind : string) (limits : QueueLimits)
| Claim (env : QueueEnv) (target : QueueTarget) (timeout_secs now : Z)
| Finish (env : QueueEnv) (target : QueueTarget) (lease : Lease)
    (outcome : result SignedReceipt string) (now : Z).

(** The queue on disk, and the leases its workers were ever handed. *)
Record QueueWorld := mkQueueWorld {
  qw_queue : QueueState;
  qw_leases : list Lease;
}.

Section Workers.
Context `{Crypto : VaultCrypto}.

Definition issued (r : result (option Lease) string) (leases : list Lease) : list Lease :=
  match r with Ok (Some lease) => lease :: leases | _ => leases end.

Definition queue_step (w : QueueWorld) (op : QueueOp) : QueueWorld :=
  let st := qw_queue w in
  match op with
  | Enqueue env target max source kind limits =>
      mkQueueWorld (enqueue st env target max source kind limits).1 (qw_leases w)
  | Claim env target timeout now =>
      let '(st, r) := claim st env target timeout now in mkQueueWorld st (issued r (qw_leases w))
  | Finish env target lease outcome now =>
      mkQueueWorld (finish st env target lease outcome now).1 (qw_leases w)
  end.

(** The 128-bit random IDs and tokens do not repeat, and a worker finishes a
    lease it was handed. *)
Definition op_allowed (w : QueueWorld) (op : QueueOp) : Prop :=
  match op with
  | Enqueue env _ _ _ _ _ => forall id, qe_random env = Some id -> qu_archive (qw_queue w) !! id = None
  | Claim env _ _ _ => forall token, qe_random env = Some token -> token ∉ map ls_token (qw_leases w)
  | Finish _ _ lease _ _ => lease ∈ qw_leases w
  end.

Fixpoint queue_run (w : QueueWorld) (ops : list QueueOp) : QueueWorld :=
  match ops with [] => w | op :: ops' => queue_run (queue_step w op) ops' end.
Fixpoint run_allowed (w : QueueWorld) (ops : list QueueOp) : Prop :=
  match ops with [] => True | op :: ops' => op_allowed w op /\ run_allowed (queue_step w op) ops' end.

(** * The invariant *)

(** The snapshot of an active item: there, private, and the enqueued bytes. *)
Definition snapshot_intact (st : QueueState) (item : QueueItem) : Prop :=
  exists file, qu_objects st !! snapshot_name (qi_id item) = Some file
    /\ of_regular file = true /\ of_private file = true /\ intact item (of_bytes file) = true.

Record active_ok (st : QueueState) (id : string) (row : ActiveRow) : Prop := {
  act_id : qi_id (row_item row) = id;
  act_id_ok : id_ok id = true;
  act_state : bad_active row = false;
  act_kind : valid_kind (qi_kind (row_item row)) = true;
  act_snapshot : snapshot_intact st (row_item row);
}.

Record queue_ok (st : QueueState) : Prop := {
  qo_active : forall id row, qu_active st !! id = Some row -> active_ok st id row;
  qo_archive : forall id it, qu_archive st !! id = Some it ->
    qi_id it = id /\ verified_item it (qu_target st) = Ok tt;
  qo_active_unique : forall id row id' row', qu_active st !! id = Some row ->
    qu_active st !! id' = Some row' -> same_object (row_item row) (row_item row') = true -> id = id';
  qo_archive_unique : forall id it id' it', qu_archive st !! id = Some it ->
    qu_archive st !! id' = Some it' -> same_object it it' = true -> id = id';
  qo_disjoint : forall id row id' it, qu_active st !! id = Some row ->
    qu_archive st !! id' = Some it -> id <> id' /\ same_object (row_item row) it = false;
  qo_limits : limits_validate (qu_limits st) = Ok tt;
  qo_count : Z.of_nat (size (qu_active st)) <= MAX_ITEMS;
  qo_total : Z.of_nat (size (qu_archive st)) + Z.of_nat (size (qu_active st)) <= MAX_ARCHIVE_ITEMS;
}.

(** The upload a lease stands for. *)
Definition same_upload (a b : QueueItem) : Prop :=
  qi_id a = qi_id b /\ qi_kind a = qi_kind b /\ qi_sha256 a = qi_sha256 b
  /\ qi_size_bytes a = qi_size_bytes b.

(** A row that carries the token of a lease is the row the lease was cut from. *)
Definition leases_ok (w : QueueWorld) : Prop :=
  forall lease row, lease ∈ qw_leases w ->
    qu_active (qw_queue w) !! qi_id (ls_item lease) = Some row ->
    row_lease_token row = Some (ls_token lease) -> same_upload (ls_item lease) (row_item row).

Definition world_ok (w : QueueWorld) : Prop := queue_ok (qw_queue w) /\ leases_ok w.

(** What the sweep of the snapshot directory leaves alone. *)
Record swept (st st' : QueueState) : Prop := {
  sw_tables : qu_target st' = qu_target st /\ qu_limits st' = qu_limits st
              /\ qu_active st' = qu_active st /\ qu_archive st' = qu_archive st;
  sw_snapshots : forall id, is_Some (qu_active st !! id) ->
    qu_objects st' !! snapshot_name id = qu_objects st !! snapshot_name id;
}.

Lemma swept_refl st : swept st st.
Proof. by split. Qed.

Lemma swept_trans a b c : swept a b -> swept b c -> swept a c.
Proof.
  intros [(T1 & L1 & E1 & A1) S1] [(T2 & L2 & E2 & A2) S2].
  split; [repeat split; congruence|].
  intros id Hid. rewrite S2, S1; [done|done|by rewrite E1].
Qed.

Lemma ends_with_app (s suf : string) : ends_with suf (s +:+ suf) = true.
Proof.
  unfold ends_with. rewrite string_length_app.
  replace (String.length s + String.length suf - String.length suf)%nat with (String.length s) by lia.
  rewrite substring_app_r, String.eqb_refl, andb_true_r. apply Nat.leb_le. lia.
Qed.

Lemma strip_suffix_app (s suf : string) : strip_suffix suf (s +:+ suf) = Some s.
Proof.
  unfold strip_suffix. rewrite ends_with_app, string_length_app.
  replace (String.length s + String.length suf - String.length suf)%nat with (String.length s) by lia.
  by rewrite substring_app_l.
Qed.

(** A snapshot is never taken for a temporary file. *)
Lemma snapshot_not_temporary (id : string) : ends_with ".tmp" (snapshot_name id) = false.
Proof.
  unfold ends_with, snapshot_name. rewrite string_length_app. cbn [String.length].
  replace (String.length id + 4 - 4)%nat with (String.length id) by lia.
  assert (E : String.substring (String.length id) 4 (id +:+ ".bin") = ".bin")
    by apply (substring_app_r id ".bin").
  rewrite E. by rewrite andb_false_r.
Qed.

Lemma cleanup_entry_swept st name st' : cleanup_entry st name = Ok st' -> swept st st'.
Proof.
  unfold cleanup_entry. destruct (qu_objects st !! name) as [file|]; [|done].
  rewrite guard_bind_Ok. intros [_ Hc].
  destruct (str_starts_with ".argos-vault-" name && ends_with ".tmp" name
    || is_some_and (opt_filter id_ok (strip_suffix ".bin" name)) _) eqn:Hd; cycle 1.
  { destruct (is_some _); [|done]. injection Hc as <-. apply swept_refl. }
  apply res_bind_Ok in Hc as (u & _ & Hc). injection Hc as <-.
  split; [by repeat split|]. intros id [row Hid]. cbn.
  apply lookup_delete_ne. intros ->.
  rewrite snapshot_not_temporary, andb_false_r in Hd. unfold snapshot_name in Hd.
  rewrite strip_suffix_app in Hd. cbn in Hd. destruct (id_ok id); [|done].
  cbn in Hd. by rewrite Hid in Hd.
Qed.

Lemma sweep_swept st count listing st' r : sweep st count listing = (st', r) -> swept st st'.
Proof.
  revert st count. induction listing as [|name listing IH]; intros st count; cbn.
  { intros [= <- _]. apply swept_refl. }
  destruct (_ <=? count); [intros [= <- _]; apply swept_refl|].
  destruct (cleanup_entry st name) as [st1|e] eqn:Hc; [|intros [= <- _]; apply swept_refl].
  intros Hs. eapply swept_trans; [by eapply cleanup_entry_swept|by eapply IH].
Qed.

Lemma open_mutating_swept st listing st' r : open_mutating st listing = (st', r) -> swept st st'.
Proof.
  unfold open_mutating, cleanup. destruct (validate_database st).
  - destruct (MAX_ITEMS <? _); [intros [= <- _]; apply swept_refl|].
    destruct (existsb _ _); [intros [= <- _]; apply swept_refl|]. apply sweep_swept.
  - intros [= <- _]. apply swept_refl.
Qed.

Lemma swept_ok st st' : swept st st' -> queue_ok st -> queue_ok st'.
Proof.
  intros [(Et & El & Ea & Er) Ho] [Hact Harc Hau Hru Hdis Hlim Hcnt Htot].
  split; rewrite ?Et, ?El, ?Ea, ?Er; try done.
  intros id row Hid. destruct (Hact id row Hid) as [? ? ? ? (file & Hf & ?)]. split; try done.
  exists file. rewrite Ho; [done|]. rewrite act_id0. by eexists.
Qed.

Lemma same_object_true a b :
  same_object a b = true <-> qi_kind a = qi_kind b /\ qi_sha256 a = qi_sha256 b.
Proof. unfold same_object. by rewrite andb_true_iff, !String.eqb_eq. Qed.

Lemma object_key_true kind hash it :
  object_key kind hash it = true <-> qi_kind it = kind /\ qi_sha256 it = hash.
Proof. unfold object_key. by rewrite andb_true_iff, !String.eqb_eq. Qed.

Lemma same_object_upload a b c : same_upload a b -> same_object a c = same_object b c.
Proof. intros (_ & Hk & Hh & _). unfold same_object. by rewrite Hk, Hh. Qed.

Lemma same_object_sym a b : same_object a b = same_object b a.
Proof. unfold same_object. by rewrite (String.eqb_sym (qi_kind a)), (String.eqb_sym (qi_sha256 a)). Qed.

Lemma find_map {A} (p : A -> bool) (m : gmap string A) :
  match List.find (fun kv => p kv.2) (map_to_list m) with
  | Some kv => m !! kv.1 = Some kv.2 /\ p kv.2 = true
  | None => forall id a, m !! id = Some a -> p a = false
  end.
Proof.
  destruct (List.find _ _) as [[k a]|] eqn:Hf.
  - apply List.find_some in Hf as [Hin Hp]. split; [|done].
    by apply elem_of_map_to_list, list_elem_of_In.
  - intros id a Hid. apply (List.find_none _ _ Hf (id, a)).
    by apply list_elem_of_In, elem_of_map_to_list.
Qed.

Lemma existsb_map {A} (p : A -> bool) (m : gmap string A) :
  existsb (fun kv => p kv.2) (map_to_list m) = false <-> forall id a, m !! id = Some a -> p a = false.
Proof.
  rewrite existsb_false_Forall, Forall_forall. split.
  - intros Hf id a Hid. apply (Hf (id, a)). by apply elem_of_map_to_list.
  - intros Hf [id a] Hin. apply elem_of_map_to_list in Hin. by eapply Hf.
Qed.

(** [find_object] sees both tables. *)
Lemma find_object_None st kind hash :
  find_object st kind hash = None <->
    (forall id row, qu_active st !! id = Some row -> object_key kind hash (row_item row) = false)
    /\ (forall id it, qu_archive st !! id = Some it -> object_key kind hash it = false).
Proof.
  unfold find_object, active_list, archive_list.
  pose proof (find_map (fun row => object_key kind hash (row_item row)) (qu_active st)) as Ha.
  pose proof (find_map (object_key kind hash) (qu_archive st)) as Hr. cbn in Ha, Hr.
  destruct (List.find _ (map_to_list (qu_active st))) as [[id row]|].
  { split; [done|]. intros [Hn _]. destruct Ha as [Hid Hk]. cbn in *. by rewrite (Hn _ _ Hid) in Hk. }
  destruct (List.find _ (map_to_list (qu_archive st))) as [[id it]|]; cbn; [|by split].
  split; [done|]. intros [_ Hn]. destruct Hr as [Hid Hk]. cbn in *. by rewrite (Hn _ _ Hid) in Hk.
Qed.

Lemma find_object_Some st kind hash it :
  find_object st kind hash = Some it ->
  object_key kind hash it = true
  /\ ((exists id row, qu_active st !! id = Some row /\ row_item row = it)
      \/ exists id, qu_archive st !! id = Some it).
Proof.
  unfold find_object, active_list, archive_list.
  pose proof (find_map (fun row => object_key kind hash (row_item row)) (qu_active st)) as Ha.
  pose proof (find_map (object_key kind hash) (qu_archive st)) as Hr. cbn in Ha, Hr.
  destruct (List.find _ (map_to_list (qu_active st))) as [[id row]|].
  { intros [= <-]. destruct Ha. split; [done|]. left. by exists id, row. }
  destruct (List.find _ (map_to_list (qu_archive st))) as [[id a]|]; [|done].
  intros [= <-]. destruct Hr. split; [done|]. right. by exists id.
Qed.

Lemma commit_cases env before after st ok :
  commit env before after = (st, ok) -> (st = before \/ st = after) /\ (ok = true -> st = after).
Proof.
  unfold commit. destruct (qe_commit env) as [|[]]; cbn; intros [= <- <-]; split; auto; done.
Qed.

(** * Each change of the tables keeps the invariant *)

Lemma insert_row_ok st limits id row :
  queue_ok st -> active_ok st id row -> limits_validate limits = Ok tt ->
  qu_active st !! id = None -> qu_archive st !! id = None ->
  find_object st (qi_kind (row_item row)) (qi_sha256 (row_item row)) = None ->
  Z.of_nat (size (qu_active st)) < MAX_ITEMS ->
  Z.of_nat (size (qu_archive st)) + Z.of_nat (size (qu_active st)) < MAX_ARCHIVE_ITEMS ->
  queue_ok (mkQueueState (qu_target st) limits (<[id := row]> (qu_active st)) (qu_archive st)
              (qu_objects st)).
Proof.
  intros [Hact Harc Hau Hru Hdis Hlim Hcnt Htot] Hrow Hl Hna Hnr Hfresh Hc Ht.
  apply find_object_None in Hfresh as [Hfa Hfr].
  assert (Hother : forall id' row', qu_active st !! id' = Some row' ->
    same_object (row_item row) (row_item row') = false).
  { intros id' row' Hid'. specialize (Hfa _ _ Hid'). rewrite same_object_sym. exact Hfa. }
  split; cbn; try done.
  - intros id' row' [[<- <-]|[Hne Hid']]%lookup_insert_Some.
    + destruct Hrow. by split.
    + destruct (Hact _ _ Hid'). by split.
  - intros i r i' r' [[<- <-]|[Hne Hi]]%lookup_insert_Some [[<- <-]|[Hne' Hi']]%lookup_insert_Some.
    + done.
    + by rewrite (Hother _ _ Hi').
    + rewrite same_object_sym. by rewrite (Hother _ _ Hi).
    + by eapply Hau.
  - intros i r i' it [[<- <-]|[Hne Hi]]%lookup_insert_Some Hi'; [|by eapply Hdis].
    split; [congruence|]. rewrite same_object_sym. exact (Hfr _ _ Hi').
  - rewrite map_size_insert_None by done. lia.
  - rewrite map_size_insert_None by done. lia.
Qed.

Lemma new_snapshot_ok st name file :
  queue_ok st -> qu_objects st !! name = None -> queue_ok (with_objects st (<[name := file]> (qu_objects st))).
Proof.
  intros [Hact Harc Hau Hru Hdis Hlim Hcnt Htot] Hn. split; try done.
  intros id row Hid. destruct (Hact id row Hid) as [Hi ? ? ? (f & Hf & ?)]. split; try done.
  exists f. split; [|done]. cbn. rewrite lookup_insert_ne; [done|]. intros ->. congruence.
Qed.

Lemma delete_snapshot_ok st name :
  queue_ok st -> (forall id, is_Some (qu_active st !! id) -> snapshot_name id <> name) ->
  queue_ok (with_objects st (delete name (qu_objects st))).
Proof.
  intros [Hact Harc Hau Hru Hdis Hlim Hcnt Htot] Hn. split; try done.
  intros id row Hid. destruct (Hact id row Hid) as [Hi ? ? ? (f & Hf & ?)]. split; try done.
  exists f. split; [|done]. cbn. rewrite lookup_delete_ne; [done|]. rewrite Hi.
  intros E. apply (Hn id); [by eexists|done].
Qed.

(** A lease taken, given back or renewed. *)
Lemma update_row_ok st id row row' :
  queue_ok st -> qu_active st !! id = Some row -> same_upload (row_item row) (row_item row') ->
  bad_active row' = false ->
  queue_ok (with_tables st (<[id := row']> (qu_active st)) (qu_archive st)).
Proof.
  intros [Hact Harc Hau Hru Hdis Hlim Hcnt Htot] Hid Hsame Hbad.
  assert (Hobj : forall c, same_object (row_item row') c = same_object (row_item row) c).
  { intros c. symmetry. by apply same_object_upload. }
  split; cbn; try done.
  - intros i r [[<- <-]|[Hne Hi]]%lookup_insert_Some; [|by destruct (Hact _ _ Hi)].
    destruct (Hact _ _ Hid) as [Hi Hio ? Hk (f & Hf & ? & ? & Hint)].
    destruct Hsame as (E1 & E2 & E3 & E4). split; try done.
    + congruence.
    + by rewrite <- E2.
    + exists f. cbn. rewrite <- E1. split; [done|]. split; [done|]. split; [done|].
      revert Hint. unfold intact. by rewrite E3, E4.
  - intros i r i' r' [[<- <-]|[Hne Hi]]%lookup_insert_Some [[<- <-]|[Hne' Hi']]%lookup_insert_Some.
    + done.
    + rewrite Hobj. by eapply Hau.
    + rewrite same_object_sym, Hobj, same_object_sym. by eapply Hau.
    + by eapply Hau.
  - intros i r i' it [[<- <-]|[Hne Hi]]%lookup_insert_Some Hi'; [|by eapply Hdis].
    rewrite Hobj. by eapply Hdis.
  - rewrite map_size_insert_Some; [done|by eexists].
  - rewrite map_size_insert_Some; [done|by eexists].
Qed.

(** A finished upload moves to the archive. *)
Lemma archive_row_ok st id row it archive :
  queue_ok st -> qu_active st !! id = Some row -> same_upload (row_item row) it ->
  verified_item it (qu_target st) = Ok tt -> insert_archive st it = Some archive ->
  archive = <[id := it]> (qu_archive st)
  /\ queue_ok (with_tables st (delete id (qu_active st)) archive).
Proof.
  intros [Hact Harc Hau Hru Hdis Hlim Hcnt Htot] Hid Hsame Hver.
  pose proof (act_id _ _ _ (Hact _ _ Hid)) as Hrid.
  assert (Hiid : qi_id it = id) by (destruct Hsame; congruence).
  unfold insert_archive, archive_list. rewrite Hiid.
  destruct (qu_archive st !! id) eqn:Hnone; [done|]. cbn.
  destruct (existsb _ _) eqn:Hdup; [done|]. intros [= <-]. split; [done|].
  pose proof (proj1 (existsb_map (fun a => same_object a it) (qu_archive st)) Hdup) as Hd.
  assert (Hobj : forall c, same_object it c = same_object (row_item row) c).
  { intros c. symmetry. by apply same_object_upload. }
  split; cbn; try done.
  - intros i r [Hne Hi]%lookup_delete_Some. by destruct (Hact _ _ Hi).
  - intros i a [[<- <-]|[Hne Hi]]%lookup_insert_Some; [done|by apply Harc].
  - intros i r i' r' [_ Hi]%lookup_delete_Some [_ Hi']%lookup_delete_Some. by eapply Hau.
  - intros i a i' a' [[<- <-]|[Hne Hi]]%lookup_insert_Some [[<- <-]|[Hne' Hi']]%lookup_insert_Some.
    + done.
    + rewrite same_object_sym. by rewrite (Hd _ _ Hi').
    + by rewrite (Hd _ _ Hi).
    + by eapply Hru.
  - intros i r i' a [Hne Hi]%lookup_delete_Some [[<- <-]|[Hne' Hi']]%lookup_insert_Some;
      [|by eapply Hdis].
    split; [done|]. rewrite same_object_sym, Hobj.
    destruct (same_object (row_item row) (row_item r)) eqn:E; [|done]. by destruct Hne; eapply Hau.
  - pose proof (map_size_delete_le (qu_active st) id). lia.
  - rewrite map_size_insert_None by done. rewrite map_size_delete_Some by (by eexists).
    pose proof (map_size_ne_0_lookup_2 (qu_active st) id (ex_intro _ row Hid)). lia.
Qed.

(** * What each request does to the tables *)

(** At most a new row, without a lease, for an ID that was free. *)
Record enqueued (st st' : QueueState) : Prop := {
  en_target : qu_target st' = qu_target st;
  en_archive : qu_archive st' = qu_archive st;
  en_old : forall id row, qu_active st !! id = Some row -> qu_active st' !! id = Some row;
  en_new : forall id row, qu_active st' !! id = Some row ->
    qu_active st !! id = Some row \/ (qu_active st !! id = None /\ row_lease_token row = None);
}.

Lemma enqueued_refl st : enqueued st st.
Proof. split; auto. Qed.

Lemma swept_enqueued st st' st'' : swept st st' -> enqueued st' st'' -> enqueued st st''.
Proof.
  intros [(Et & _ & Ea & Er) _] [? ? Ho Hn].
  split; [congruence|congruence| |]; intros ??; rewrite <- Ea; auto.
Qed.

Lemma insert_item_Some st it st' :
  insert_item st it = Some st' ->
  qu_active st !! qi_id it = None
  /\ st' = with_tables st (<[qi_id it := mkActiveRow it None None]> (qu_active st)) (qu_archive st).
Proof.
  unfold insert_item. destruct (qu_active st !! qi_id it); [done|]. cbn.
  destruct (existsb _ _); [done|]. by intros [= <-].
Qed.

Lemma new_item_ok st id kind bytes now :
  id_ok id = true -> valid_kind kind = true ->
  qu_objects st !! snapshot_name id = Some (mkObjectFile true true bytes) ->
  active_ok st id (mkActiveRow (new_item id kind (body_sha256 bytes) (slen bytes) now) None None).
Proof.
  intros Hid Hk Ho. split; try done. exists (mkObjectFile true true bytes).
  split; [exact Ho|]. split; [done|]. split; [done|].
  cbn. unfold intact. cbn. by rewrite Z.eqb_refl, String.eqb_refl.
Qed.

Lemma enqueue_new_spec st env kind bytes limits st' r :
  queue_ok st -> limits_validate limits = Ok tt -> valid_kind kind = true ->
  find_object st kind (body_sha256 bytes) = None ->
  (forall id, qe_random env = Some id -> qu_archive st !! id = None) ->
  enqueue_new st env kind (body_sha256 bytes) bytes limits = (st', r) ->
  queue_ok st' /\ enqueued st st'
  /\ (forall it, r = Ok it -> qi_kind it = kind /\ qi_sha256 it = body_sha256 bytes
        /\ qu_active st' !! qi_id it = Some (mkActiveRow it None None)).
Proof.
  intros Hok Hlim Hk Hnone Hfresh. unfold enqueue_new.
  assert (Hsame : queue_ok st /\ enqueued st st) by (split; [done|apply enqueued_refl]).
  destruct (Z.leb_spec MAX_ARCHIVE_ITEMS (sat_add (Z.of_nat (size (qu_active st)))
    (Z.of_nat (size (qu_archive st))))) as [|Htot]; [intros [= <- <-]; naive_solver|].
  destruct (_ || _) eqn:Hcap; [intros [= <- <-]; naive_solver|].
  destruct (opt_filter id_ok (qe_random env)) as [id|] eqn:Hid; [|intros [= <- <-]; naive_solver].
  destruct (qe_random env) as [rid|] eqn:Hrand; [|done]. cbn in Hid.
  destruct (id_ok rid) eqn:Hio; [|done]. injection Hid as ->.
  destruct (qu_objects st !! snapshot_name id) eqn:Hobj; [intros [= <- <-]; naive_solver|].
  cbn [is_some]. set (file := mkObjectFile true true bytes).
  set (st1 := if linked (qe_write env) then _ else st).
  assert (H1 : queue_ok st1 /\ enqueued st st1).
  { subst st1. destruct (linked _); [|done]. split; [by apply new_snapshot_ok|by split; auto]. }
  destruct (written (qe_write env)) eqn:Hw; cbn [negb]; [|intros [= <- <-]; naive_solver].
  destruct (qe_write env); [|done]. cbn in st1. clear Hw Hsame.
  set (it := new_item id kind _ _ _).
  destruct (insert_item _ it) as [st2|] eqn:Hins; [|intros [= <- <-]; naive_solver].
  apply insert_item_Some in Hins as [Hna ->]. cbn in Hna.
  apply orb_false_elim in Hcap as [Hitems _]. apply Z.leb_gt in Hitems.
  pose proof Hlim as Hl. unfold limits_validate in Hl. apply guard_Ok in Hl. split_bools.
  assert (Hst2 : queue_ok (with_tables (mkQueueState (qu_target st1) limits (qu_active st1)
    (qu_archive st1) (qu_objects st1)) (<[id := mkActiveRow it None None]> (qu_active st1)) (qu_archive st1))).
  { unfold with_tables. cbn [qu_target qu_limits qu_objects].
    apply (insert_row_ok st1 limits id); try done.
    - apply H1.
    - apply new_item_ok; [done|done|]. cbn. by rewrite lookup_insert_eq.
    - cbn. by apply Hfresh.
    - cbn. lia.
    - revert Htot. unfold sat_add, MAX_ARCHIVE_ITEMS, u64_max. cbn. lia. }
  destruct (commit env st1 _) as [st3 ok] eqn:Hc. apply commit_cases in Hc as [Hcase Hgood].
  intros [= <- <-]. split; [destruct Hcase as [->| ->]; [apply H1|exact Hst2]|]. split.
  - destruct Hcase as [->| ->]; [apply H1|]. split; cbn; try done.
    + intros i row Hi. rewrite lookup_insert_ne; [done|congruence].
    + intros i row [[<- <-]|[_ Hi]]%lookup_insert_Some; auto.
  - intros it'. destruct ok; [|done]. intros [= <-]. split; [done|]. split; [done|].
    rewrite (Hgood eq_refl). cbn. by rewrite lookup_insert_eq.
Qed.

(** An item is there, pending or archived. *)
Definition present (st : QueueState) (it : QueueItem) : Prop :=
  (exists row, qu_active st !! qi_id it = Some row /\ same_upload (row_item row) it)
  \/ (exists a, qu_archive st !! qi_id it = Some a /\ same_upload a it).

Lemma same_upload_refl it : same_upload it it.
Proof. by repeat split. Qed.

Lemma same_upload_trans a b c : same_upload a b -> same_upload b c -> same_upload a c.
Proof. intros (?&?&?&?) (?&?&?&?). repeat split; congruence. Qed.

Lemma same_upload_sym a b : same_upload a b -> same_upload b a.
Proof. intros (?&?&?&?). by repeat split. Qed.

Lemma enqueue_spec st env target max source kind limits st' r :
  queue_ok st -> (forall id, qe_random env = Some id -> qu_archive st !! id = None) ->
  enqueue st env target max source kind limits = (st', r) ->
  queue_ok st' /\ enqueued st st'
  /\ (forall bytes it, source = Ok bytes -> r = Ok it ->
        qi_kind it = kind /\ qi_sha256 it = body_sha256 bytes /\ present st' it).
Proof.
  intros Hok Hfresh. unfold enqueue.
  destruct (limits_validate limits) as [[]|] eqn:Hlim; cycle 1.
  { intros [= <- <-]. split; [done|]. split; [apply enqueued_refl|done]. }
  destruct (valid_kind kind) eqn:Hk; cycle 1.
  { intros [= <- <-]. split; [done|]. split; [apply enqueued_refl|done]. }
  destruct source as [bytes|e]; cycle 1.
  { intros [= <- <-]. split; [done|]. split; [apply enqueued_refl|done]. }
  cbn [res_bind guard negb].
  destruct (open_mutating st (qe_listing env)) as [st1 opened] eqn:Ho.
  apply open_mutating_swept in Ho. pose proof (swept_ok _ _ Ho Hok) as Hok1.
  destruct (let? _ := opened in assert_target st1 target) as [[]|e]; cycle 1.
  { intros [= <- <-]. split; [done|]. split; [eapply swept_enqueued; [done|apply enqueued_refl]|done]. }
  destruct (find_object st1 kind (body_sha256 bytes)) as [it|] eqn:Hf; cycle 1.
  - intros Hn. destruct Ho as [(Et & El & Ea & Er) Hs].
    apply enqueue_new_spec in Hn as (Hok' & Hen & Hr); try done; [|by rewrite Er].
    split; [done|]. split; [eapply swept_enqueued; [by split|done]|].
    intros bytes' it [= <-] Hit. destruct (Hr it Hit) as (Hkind & Hhash & Hact).
    split; [done|]. split; [done|]. left. eexists. split; [exact Hact|apply same_upload_refl].
  - intros [= <- He]. split; [done|]. split; [eapply swept_enqueued; [done|apply enqueued_refl]|].
    intros bytes' it' [= <-] Hr. assert (it' = it) as ->.
    { subst r. revert Hr. unfold enqueue_existing. destruct (String.eqb _ _).
      - destruct (verified_item it target); [|done]. by intros [= ->].
      - destruct (read_snapshot _ _ _); [|done]. cbn. destruct (negb _); [done|]. by intros [= ->]. }
    apply find_object_Some in Hf as [Hkey Hf]. apply object_key_true in Hkey as [Hkind Hhash].
    split; [done|]. split; [done|]. destruct Hf as [(id & row & Hid & Hrow)|(id & Hid)].
    + left. exists row. pose proof (act_id _ _ _ (qo_active _ Hok1 _ _ Hid)) as Hi.
      rewrite <- Hrow, Hi. split; [done|apply same_upload_refl].
    + right. exists it. destruct (qo_archive _ Hok1 _ _ Hid) as [Hi _].
      rewrite Hi. split; [done|apply same_upload_refl].
Qed.

Definition leased_row (item : QueueItem) (token : string) (timeout now : Z) : ActiveRow :=
  let attempts := sat_add32 (qi_attempts item) 1 in
  mkActiveRow (retried item attempts (Z.min (sat_add now (retry_delay attempts)) i64_max)
                 "interrupted_or_unconfirmed")
    (Some token) (Some (lease_expiry now timeout)).
Definition lease_of (item : QueueItem) (token : string) : Lease :=
  mkLease (with_attempts item (sat_add32 (qi_attempts item) 1)) token.

Inductive claim_result (st : QueueState) (env : QueueEnv) (timeout now : Z)
    : QueueState -> result (option Lease) string -> Prop :=
| claim_none st1 r : swept st st1 -> (forall lease, r <> Ok (Some lease)) ->
    claim_result st env timeout now st1 r
| claim_some st1 id row token r : swept st st1 -> next_due st1 now = Some (id, row) ->
    qe_random env = Some token ->
    r = Ok (Some (lease_of (row_item row) token)) \/ r = Err "commit" ->
    claim_result st env timeout now
      (with_tables st1 (<[id := leased_row (row_item row) token timeout now]> (qu_active st1))
         (qu_archive st1)) r.

Lemma claim_cases st env target timeout now st' r :
  claim st env target timeout now = (st', r) ->
  claim_result st env timeout (clock now (qe_now_ms env)) st' r.
Proof.
  unfold claim. destruct (open_mutating st (qe_listing env)) as [st1 opened] eqn:Ho.
  apply open_mutating_swept in Ho.
  destruct (let? _ := opened in assert_target st1 target) as [[]|e];
    [|intros [= <- <-]; by apply claim_none].
  destruct (next_due st1 _) as [[id row]|] eqn:Hd; [|intros [= <- <-]; by apply claim_none].
  destruct (_ || _); [intros [= <- <-]; by apply claim_none|].
  destruct (qe_random env) as [token|] eqn:Hr; [|intros [= <- <-]; by apply claim_none].
  destruct (commit env st1 _) as [st2 ok] eqn:Hc. apply commit_cases in Hc as [[->| ->] Hgood].
  - intros [= <- <-]. destruct ok; [|by apply claim_none].
    assert (E := Hgood eq_refl). rewrite E. eapply claim_some; auto.
  - intros [= <- <-]. eapply claim_some; [done|done|done|]. destruct ok; auto.
Qed.

Inductive finish_result (st : QueueState) (lease : Lease) (target : QueueTarget)
    (outcome : result SignedReceipt string) (now : Z) : QueueState -> result bool string -> Prop :=
| finish_none st1 r : swept st st1 -> r <> Ok true ->
    finish_result st lease target outcome now st1 r
| finish_failed st1 row code r : swept st st1 -> owns st1 lease now = Some row ->
    outcome = Err code -> r = Ok true \/ r = Err "commit" ->
    finish_result st lease target outcome now
      (with_tables st1 (<[qi_id (ls_item lease) :=
          mkActiveRow (retried (row_item row) (qi_attempts (row_item row))
            (Z.min (sat_add now (retry_delay (qi_attempts (ls_item lease)))) i64_max) code) None None]>
          (qu_active st1)) (qu_archive st1)) r
| finish_sent st1 row receipt archive objects r : swept st st1 -> owns st1 lease now = Some row ->
    outcome = Ok receipt ->
    qu_target st1 = target ->
    verified_item (completed_item (ls_item lease) receipt now) target = Ok tt ->
    insert_archive st1 (archived_item row receipt now) = Some archive ->
    objects = qu_objects st1 \/ objects = delete (snapshot_name (qi_id (ls_item lease))) (qu_objects st1) ->
    (r = Ok true -> objects = delete (snapshot_name (qi_id (ls_item lease))) (qu_objects st1)) ->
    r = Ok true \/ r = Err "commit" \/ r = Err "remove_file" \/ r = Err "sync_directory" ->
    finish_result st lease target outcome now
      (with_objects (with_tables st1 (delete (qi_id (ls_item lease)) (qu_active st1)) archive) objects) r.

Lemma with_objects_id st : with_objects st (qu_objects st) = st.
Proof. by destruct st. Qed.

Lemma finish_cases st env target lease outcome now st' r :
  finish st env target lease outcome now = (st', r) ->
  finish_result st lease target outcome (clock now (qe_now_ms env)) st' r.
Proof.
  unfold finish. destruct (open_mutating st (qe_listing env)) as [st1 opened] eqn:Ho.
  apply open_mutating_swept in Ho.
  destruct (let? _ := opened in assert_target st1 target) as [[]|e] eqn:Ht;
    [|intros [= <- <-]; by apply finish_none].
  apply res_bind_Ok in Ht as (u & _ & Ht). unfold assert_target in Ht. apply guard_Ok in Ht.
  apply negb_false_iff, bool_decide_eq_true_1 in Ht.
  destruct (owns st1 lease _) as [row|] eqn:Hown; [|intros [= <- <-]; by apply finish_none].
  destruct outcome as [receipt|code].
  - destruct (res_bind _ _) as [archive|e] eqn:Hv; [|intros [= <- <-]; by apply finish_none].
    apply res_bind_Ok in Hv as ([] & Hv & Ha). apply ok_or_Ok in Ha.
    destruct (commit env st1 _) as [st2 ok] eqn:Hc. apply commit_cases in Hc as [Hcase Hgood].
    destruct ok; cbn [negb].
    + rewrite (Hgood eq_refl). destruct (qe_remove env && _).
      * intros [= <- <-]. eapply finish_sent; eauto. destruct (qe_sync env); auto.
      * intros [= <- <-]. rewrite <- (with_objects_id (with_tables st1 (delete (qi_id (ls_item lease)) (qu_active st1)) archive)). eapply finish_sent; eauto; done.
    + intros [= <- <-]. destruct Hcase as [->| ->]; [by apply finish_none|].
      rewrite <- (with_objects_id (with_tables st1 (delete (qi_id (ls_item lease)) (qu_active st1)) archive)). eapply finish_sent; eauto; done.
  - destruct (commit env st1 _) as [st2 ok] eqn:Hc. apply commit_cases in Hc as [Hcase Hgood].
    destruct ok.
    + rewrite (Hgood eq_refl). intros [= <- <-]. eapply finish_failed; eauto.
    + intros [= <- <-]. destruct Hcase as [->| ->]; [by apply finish_none|].
      eapply finish_failed; eauto.
Qed.

(** * Every request keeps the invariant *)

Lemma next_due_Some st now id row :
  next_due st now = Some (id, row) -> qu_active st !! id = Some row /\ due now row = true.
Proof.
  intros Hn. apply min_by_key_elem, list_elem_of_In, List.filter_In in Hn as [Hin Hdue].
  split; [|done]. by apply elem_of_map_to_list, list_elem_of_In.
Qed.

Lemma owns_Some st lease now row :
  owns st lease now = Some row ->
  qu_active st !! qi_id (ls_item lease) = Some row
  /\ row_lease_token row = Some (ls_token lease)
  /\ exists e, row_lease_expires_ms row = Some e /\ now < e.
Proof.
  unfold owns. destruct (qu_active st !! _) as [r|]; [|done]. cbn.
  destruct (bool_decide _) eqn:Hb; [|done]. apply bool_decide_eq_true_1 in Hb.
  destruct (row_lease_expires_ms r) as [e|] eqn:He; [|done]. cbn.
  destruct (Z.ltb_spec now e); [|done]. intros [= <-]. split; [done|]. split; [done|]. by exists e.
Qed.

Lemma leased_row_pending item token timeout now row :
  item = row_item row -> bad_active row = false -> bad_active (leased_row item token timeout now) = false.
Proof. intros -> Hb. unfold bad_active in *. cbn. apply orb_false_elim in Hb as [Hb _]. by rewrite Hb. Qed.

Lemma released_row_pending row attempts next code :
  bad_active row = false -> bad_active (mkActiveRow (retried (row_item row) attempts next code) None None) = false.
Proof. unfold bad_active. cbn. intros Hb. apply orb_false_elim in Hb as [Hb _]. by rewrite Hb. Qed.

Lemma claim_ok st env timeout now st' r :
  queue_ok st -> claim_result st env timeout now st' r -> queue_ok st'.
Proof.
  intros Hok [st1 r' Hs _|st1 id row token r' Hs Hn _ _]; pose proof (swept_ok _ _ Hs Hok) as Hok1;
    [done|].
  apply next_due_Some in Hn as [Hid _].
  apply (update_row_ok st1 id row); [done|done|by repeat split|].
  eapply leased_row_pending; [done|]. exact (act_state _ _ _ (qo_active _ Hok1 _ _ Hid)).
Qed.

(** A leased row that is finished is the upload of its lease. *)
Lemma archived_item_verified target lease row receipt now :
  same_upload (ls_item lease) (row_item row) ->
  verified_item (completed_item (ls_item lease) receipt now) target = Ok tt ->
  verified_item (archived_item row receipt now) target = Ok tt.
Proof. intros (E1 & E2 & E3 & E4). unfold verified_item. cbn. by rewrite E1, E2, E3, E4. Qed.

Lemma finish_ok w lease target outcome now st' r :
  world_ok w -> lease ∈ qw_leases w -> finish_result (qw_queue w) lease target outcome now st' r ->
  queue_ok st'.
Proof.
  intros [Hok Hls] Hin [st1 r' Hs _|st1 row code r' Hs Hown _ _|st1 row receipt archive objects r' Hs Hown _ Ht Hv Ha Ho _ _];
    pose proof (swept_ok _ _ Hs Hok) as Hok1; [done|..].
  - apply owns_Some in Hown as (Hid & _ & _).
    apply (update_row_ok st1 _ row); [done|done|by repeat split|].
    apply released_row_pending. exact (act_state _ _ _ (qo_active _ Hok1 _ _ Hid)).
  - apply owns_Some in Hown as (Hid & Htok & _).
    assert (Hsame : same_upload (ls_item lease) (row_item row)).
    { apply (Hls lease row Hin); [|done]. destruct Hs as [(_ & _ & Ea & _) _]. by rewrite <- Ea. }
    rewrite <- Ht in Hv.
    apply (archive_row_ok st1 (qi_id (ls_item lease)) row) in Ha as [-> Hok2]; try done.
    + destruct Ho as [->| ->]; [exact Hok2|]. apply (delete_snapshot_ok _ _ Hok2).
      cbn. intros id [r0 [Hne _]%lookup_delete_Some] E. apply Hne.
      unfold snapshot_name in E. pose proof (strip_suffix_app id ".bin") as E1. rewrite E in E1.
      rewrite strip_suffix_app in E1. by injection E1.
    + by eapply archived_item_verified.
Qed.

Lemma step_ok w op : world_ok w -> op_allowed w op -> world_ok (queue_step w op).
Proof.
  intros [Hok Hls] Hop. destruct op as [env target max source kind limits|env target timeout now|env target lease outcome now]; cbn in *.
  - destruct (enqueue _ _ _ _ _ _ _) as [st' r] eqn:He. apply enqueue_spec in He as (Hok' & Hen & _); [|done..].
    split; [done|]. intros l row Hl Hid Htok. cbn in *.
    destruct (en_new _ _ Hen _ _ Hid) as [Hold|[_ Hnone]]; [by apply Hls|congruence].
  - destruct (claim _ _ _ _ _) as [st' r] eqn:Hc. apply claim_cases in Hc.
    split; [by eapply claim_ok|]. cbn.
    destruct Hc as [st1 r' Hs Hr|st1 id row token r' Hs Hn Htok Hr].
    + intros l row Hl Hid Htok. destruct Hs as [(_ & _ & Ea & _) _]. cbn in *. rewrite Ea in Hid.
      apply Hls; try done. destruct r' as [[l'|]|]; cbn in Hl; [by destruct (Hr l')|done|done].
    + pose proof (swept_ok _ _ Hs Hok) as Hok1. apply next_due_Some in Hn as [Hid _].
      pose proof (act_id _ _ _ (qo_active _ Hok1 _ _ Hid)) as Hi.
      destruct Hs as [(_ & _ & Ea & _) _].
      assert (Hold : forall l row', l ∈ qw_leases w ->
        <[id := leased_row (row_item row) token timeout (clock now (qe_now_ms env))]> (qu_active st1)
          !! qi_id (ls_item l) = Some row' ->
        row_lease_token row' = Some (ls_token l) -> same_upload (ls_item l) (row_item row')).
      { intros l row' Hl [[Eid <-]|[Hne Hl']]%lookup_insert_Some Ht.
        - cbn in Ht. injection Ht as ->. destruct (Hop _ Htok). by apply list_elem_of_fmap_2.
        - rewrite Ea in Hl'. by apply Hls. }
      intros l row' Hl. cbn in Hl |- *. destruct Hr as [->| ->]; cbn in Hl; [|by apply Hold].
      apply elem_of_cons in Hl as [->|Hl]; [|by apply Hold].
      cbn. rewrite Hi, lookup_insert_eq. intros [= <-] _. by repeat split.
  - destruct (finish _ _ _ _ _ _) as [st' r] eqn:Hf. apply finish_cases in Hf.
    split; [by eapply finish_ok|]. cbn. intros l row Hl.
    destruct Hf as [st1 r' Hs _|st1 row1 code r' Hs Hown _ _|st1 row1 receipt archive objects r' Hs Hown _ _ _ _ _ _ _];
      destruct Hs as [(_ & _ & Ea & _) _]; cbn.
    + rewrite Ea. by apply Hls.
    + intros [[Eid <-]|[Hne Hid]]%lookup_insert_Some; [done|]. rewrite Ea in Hid. by apply Hls.
    + intros [Hne Hid]%lookup_delete_Some. rewrite Ea in Hid. by apply Hls.
Qed.

Lemma step_present w op it :
  world_ok w -> op_allowed w op -> present (qw_queue w) it -> present (qw_queue (queue_step w op)) it.
Proof.
  intros [Hok Hls] Hop Hp. destruct op as [env target max source kind limits|env target timeout now|env target lease outcome now]; cbn in *.
  - destruct (enqueue _ _ _ _ _ _ _) as [st' r] eqn:He. apply enqueue_spec in He as (_ & Hen & _); [|done..].
    destruct Hp as [(row & Hid & Hs)|(a & Hid & Hs)]; [left; exists row|right; exists a]; (split; [|done]).
    + by apply (en_old _ _ Hen).
    + cbn. by rewrite (en_archive _ _ Hen).
  - destruct (claim _ _ _ _ _) as [st' r] eqn:Hc. apply claim_cases in Hc. cbn.
    destruct Hc as [st1 r' Hs _|st1 id row token r' Hs Hn _ _];
      destruct Hs as [(_ & _ & Ea & Er) _]; unfold present; cbn; rewrite Er, Ea; [done|].
    apply next_due_Some in Hn as [Hid _]. rewrite Ea in Hid.
    destruct Hp as [(row' & Hid' & Hsame)|?]; [left|by right].
    destruct (decide (qi_id it = id)) as [E|E].
    + rewrite E, lookup_insert_eq. eexists. split; [done|]. rewrite E, Hid in Hid'.
      injection Hid' as ->. by eapply same_upload_trans.
    + rewrite lookup_insert_ne by done. by exists row'.
  - destruct (finish _ _ _ _ _ _) as [st' r] eqn:Hf. apply finish_cases in Hf. cbn.
    destruct Hf as [st1 r' Hs _|st1 row code r' Hs Hown _ _|st1 row receipt archive objects r' Hs Hown _ _ _ Ha _ _ _];
      pose proof (swept_ok _ _ Hs Hok) as Hok1;
      destruct Hs as [(_ & _ & Ea & Er) _]; unfold present; cbn; rewrite ?Er, Ea.
    + done.
    + apply owns_Some in Hown as (Hid & _ & _). rewrite Ea in Hid.
      destruct Hp as [(row' & Hid' & Hsame)|?]; [left|by right].
      destruct (decide (qi_id it = qi_id (ls_item lease))) as [E|E].
      * rewrite E, lookup_insert_eq. eexists. split; [done|]. rewrite E, Hid in Hid'.
        injection Hid' as ->. by eapply same_upload_trans.
      * rewrite lookup_insert_ne by done. by exists row'.
    + apply owns_Some in Hown as (Hid & _ & _).
      pose proof (act_id _ _ _ (qo_active _ Hok1 _ _ Hid)) as Hi.
      unfold insert_archive in Ha. destruct (_ || _) eqn:Hnew; [done|]. injection Ha as <-.
      apply orb_false_elim in Hnew as [Hnew _]. cbn in Hnew |- *.
      destruct (qu_archive st1 !! qi_id (row_item row)) eqn:Hnone; [done|].
      rewrite Er in *. rewrite Ea in Hid.
      destruct Hp as [(row' & Hid' & Hsame)|(a & Hid' & Hsame)].
      * destruct (decide (qi_id it = qi_id (ls_item lease))) as [E|E].
        -- right. rewrite E, Hi, lookup_insert_eq. eexists. split; [done|].
           rewrite E, Hid in Hid'. injection Hid' as ->. by eapply same_upload_trans.
        -- left. exists row'. by rewrite lookup_delete_ne.
      * right. exists a. rewrite lookup_insert_ne; [done|congruence].
Qed.

Lemma run_ok w ops : world_ok w -> run_allowed w ops -> world_ok (queue_run w ops).
Proof.
  revert w. induction ops as [|op ops IH]; intros w Hok; [done|]. cbn. intros [Hop Hops].
  apply IH; [by apply step_ok|done].
Qed.

Lemma run_present w ops it :
  world_ok w -> run_allowed w ops -> present (qw_queue w) it -> present (qw_queue (queue_run w ops)) it.
Proof.
  revert w. induction ops as [|op ops IH]; intros w Hok; [done|]. cbn. intros [Hop Hops] Hp.
  apply IH; [by apply step_ok|done|by apply step_present].
Qed.

Lemma queue_new_ok target limits :
  limits_validate limits = Ok tt -> world_ok (mkQueueWorld (queue_new target limits) []).
Proof.
  intros Hl. split; [|intros l row Hl'; by apply elem_of_nil in Hl'].
  split; cbn; try done; rewrite ?map_size_empty; done.
Qed.

(** * Leases in time *)

(** The lease holds the row until [expires]. *)
Definition held (st : QueueState) (lease : Lease) (expires : Z) : Prop :=
  exists row, qu_active st !! qi_id (ls_item lease) = Some row
    /\ row_lease_token row = Some (ls_token lease) /\ row_lease_expires_ms row = Some expires.

(** A request of another worker while the clock has not reached [expires]. *)
Definition before_expiry (lease : Lease) (expires : Z) (op : QueueOp) : Prop :=
  match op with
  | Enqueue _ _ _ _ _ _ => True
  | Claim env _ _ now => clock now (qe_now_ms env) < expires
  | Finish _ _ other _ _ => ls_token other <> ls_token lease
  end.

Lemma held_owns st lease expires now : held st lease expires -> now < expires ->
  is_Some (owns st lease now).
Proof.
  intros (row & Hid & Ht & He) Hnow. exists row. unfold owns. rewrite Hid. cbn.
  rewrite bool_decide_eq_true_2 by done. rewrite He. cbn.
  apply Z.ltb_lt in Hnow. by rewrite Hnow.
Qed.

Lemma held_swept st st' lease expires : swept st st' -> held st lease expires -> held st' lease expires.
Proof. intros [(_ & _ & Ea & _) _] (row & Hid & H). exists row. by rewrite Ea. Qed.

(** A claim does not touch a held row, and hands out another item. *)
Lemma claim_held st env timeout now st' r lease expires :
  queue_ok st -> held st lease expires -> now < expires ->
  claim_result st env timeout now st' r ->
  held st' lease expires
  /\ (forall other, r = Ok (Some other) -> qi_id (ls_item other) <> qi_id (ls_item lease)).
Proof.
  intros Hok Hheld Hnow [st1 r' Hs Hr|st1 id row token r' Hs Hn _ Hr].
  - split; [by eapply held_swept|]. intros other E. by destruct (Hr other).
  - pose proof (swept_ok _ _ Hs Hok) as Hok1.
    destruct (held_swept _ _ _ _ Hs Hheld) as (row' & Hid' & Ht & He).
    apply next_due_Some in Hn as [Hid Hdue].
    assert (id <> qi_id (ls_item lease)) as Hne.
    { intros ->. rewrite Hid in Hid'. injection Hid' as ->.
      unfold due in Hdue. rewrite He in Hdue. cbn in Hdue. apply andb_prop in Hdue as [_ Hdue].
      apply Z.leb_le in Hdue. lia. }
    split.
    + exists row'. cbn. by rewrite lookup_insert_ne.
    + intros other E. destruct Hr as [-> | ->]; [|done]. injection E as <-. cbn.
      by rewrite (act_id _ _ _ (qo_active _ Hok1 _ _ Hid)).
Qed.

Lemma finish_held st other target outcome now st' r lease expires :
  held st lease expires -> ls_token other <> ls_token lease ->
  finish_result st other target outcome now st' r -> held st' lease expires.
Proof.
  intros Hheld Hne Hf.
  assert (Hown : forall st1 row, swept st st1 -> owns st1 other now = Some row ->
    qi_id (ls_item other) <> qi_id (ls_item lease) /\ held st1 lease expires).
  { intros st1 row Hs (Hid & Ht & _)%owns_Some.
    pose proof (held_swept _ _ _ _ Hs Hheld) as Hh. split; [|done].
    destruct Hh as (row' & Hid' & Ht' & _). intros E. rewrite E in Hid. congruence. }
  destruct Hf as [st1 r' Hs _|st1 row code r' Hs Ho _ _|st1 row receipt archive objects r' Hs Ho _ _ _ _ _ _ _].
  - by eapply held_swept.
  - destruct (Hown _ _ Hs Ho) as [Hi (row' & Hid' & Hl)]. exists row'. cbn. by rewrite lookup_insert_ne.
  - destruct (Hown _ _ Hs Ho) as [Hi (row' & Hid' & Hl)]. exists row'. cbn. by rewrite lookup_delete_ne.
Qed.

(** Leases of an item among those ever handed out. *)
Definition leases_of (id : string) (leases : list Lease) : list Lease :=
  List.filter (fun l => String.eqb (qi_id (ls_item l)) id) leases.

Lemma step_held w op lease expires :
  world_ok w -> op_allowed w op -> before_expiry lease expires op -> held (qw_queue w) lease expires ->
  held (qw_queue (queue_step w op)) lease expires
  /\ leases_of (qi_id (ls_item lease)) (qw_leases (queue_step w op))
     = leases_of (qi_id (ls_item lease)) (qw_leases w).
Proof.
  intros [Hok Hls] Hop Hb Hheld.
  destruct op as [env target max source kind limits|env target timeout now|env target other outcome now]; cbn in *.
  - split; [|done]. destruct (enqueue _ _ _ _ _ _ _) as [st' r] eqn:He.
    apply enqueue_spec in He as (_ & Hen & _); [|done..].
    destruct Hheld as (row & Hid & Hl). exists row. split; [|done]. by apply (en_old _ _ Hen).
  - destruct (claim _ _ _ _ _) as [st' r] eqn:Hc. apply claim_cases in Hc.
    destruct (claim_held _ _ _ _ _ _ lease expires Hok Hheld Hb Hc) as [Hh Hne]. split; [done|].
    cbn. destruct r as [[l|]|]; [|done|done]. cbn.
    destruct (String.eqb_spec (qi_id (ls_item l)) (qi_id (ls_item lease))); [|done].
    by destruct (Hne l eq_refl).
  - split; [|done]. destruct (finish _ _ _ _ _ _) as [st' r] eqn:Hf. apply finish_cases in Hf.
    by eapply finish_held.
Qed.

Lemma run_held w ops lease expires :
  world_ok w -> run_allowed w ops -> Forall (before_expiry lease expires) ops ->
  held (qw_queue w) lease expires ->
  held (qw_queue (queue_run w ops)) lease expires
  /\ leases_of (qi_id (ls_item lease)) (qw_leases (queue_run w ops))
     = leases_of (qi_id (ls_item lease)) (qw_leases w).
Proof.
  revert w. induction ops as [|op ops IH]; intros w Hok; [done|].
  intros [Hop Hops] [Hb Hbs]%Forall_cons_1 Hh.
  destruct (step_held w op lease expires Hok Hop Hb Hh) as [Hh' El].
  destruct (IH _ (step_ok _ _ Hok Hop) Hops Hbs Hh') as [Hh'' El'].
  split; [done|]. cbn [queue_run]. by rewrite El'.
Qed.

(** * The receipt of an upload *)

Lemma verified_item_receipt it target : verified_item it target = Ok tt ->
  exists ack, qi_receipt it = Some ack /\ verify_receipt ack (qt_pinned_pubkey target) = true
    /\ re_agent_id (sr_receipt ack) = qt_agent_id target /\ re_kind (sr_receipt ack) = qi_kind it
    /\ re_sha256 (sr_receipt ack) = qi_sha256 it /\ re_size_bytes (sr_receipt ack) = qi_size_bytes it.
Proof.
  unfold verified_item. rewrite ok_or_bind_Ok. intros (ack & Ha & Hv). exists ack.
  rewrite guard_bind_Ok in Hv. destruct Hv as [Hv Hf]. apply guard_Ok in Hf. split_bools.
  repeat match goal with H : String.eqb _ _ = true |- _ => apply String.eqb_eq in H end.
  repeat split; done.
Qed.

Lemma run_target w ops : qu_target (qw_queue (queue_run w ops)) = qu_target (qw_queue w).
Proof.
  revert w. induction ops as [|op ops IH]; intros w; [done|]. cbn [queue_run]. rewrite IH.
  destruct op as [env target max source kind limits|env target timeout now|env target lease outcome now]; cbn.
  - unfold enqueue. destruct (res_bind _ _); [|done].
    destruct (open_mutating _ _) as [st1 o] eqn:Ho. apply open_mutating_swept in Ho as [(Et & _) _].
    destruct (res_bind _ _); [|done]. destruct (find_object _ _ _); [done|].
    unfold enqueue_new.
    destruct (_ <=? _); [done|]. destruct (_ || _); [done|]. destruct (opt_filter _ _) as [id|]; [|done].
    destruct (is_some _); [done|]. destruct (linked (qe_write env)), (negb _); try done.
    + destruct (insert_item _ _) as [st2|] eqn:Hi; [|done]. apply insert_item_Some in Hi as [_ ->].
      destruct (commit _ _ _) as [st3 ok] eqn:Hc. by apply commit_cases in Hc as [[-> | ->] _].
    + destruct (insert_item _ _) as [st2|] eqn:Hi; [|done]. apply insert_item_Some in Hi as [_ ->].
      destruct (commit _ _ _) as [st3 ok] eqn:Hc. by apply commit_cases in Hc as [[-> | ->] _].
  - destruct (claim _ _ _ _ _) as [st' r] eqn:Hc. apply claim_cases in Hc.
    by destruct Hc as [? ? [(Et & _) _]|? ? ? ? ? [(Et & _) _]].
  - destruct (finish _ _ _ _ _ _) as [st' r] eqn:Hf. apply finish_cases in Hf.
    by destruct Hf as [? ? [(Et & _) _]|? ? ? ? [(Et & _) _]|? ? ? ? ? ? [(Et & _) _]].
Qed.

End Workers.

(** * What the queue promises *)

Section Promises.
Context `{Crypto : VaultCrypto}.

(** The worlds that requests reach from a queue created with valid limits. *)
Definition queue_reached (w : QueueWorld) : Prop :=
  exists target limits ops, limits_validate limits = Ok tt
    /\ run_allowed (mkQueueWorld (queue_new target limits) []) ops
    /\ w = queue_run (mkQueueWorld (queue_new target limits) []) ops.

Lemma reached_ok w : queue_reached w -> world_ok w.
Proof. intros (target & limits & ops & Hl & Ha & ->). apply run_ok; [by apply queue_new_ok|done]. Qed.

Lemma queue_ok_valid st :
  queue_ok st -> valid_id (qt_agent_id (qu_target st)) = true ->
  valid_id (qt_key_id (qu_target st)) = true -> public_key_ok (qt_pinned_pubkey (qu_target st)) = true ->
  validate_database st = Ok tt.
Proof.
  intros [Hact Harc Hau Hru Hdis Hlim Hcnt Htot] Ha Hk Hp. unfold validate_database.
  rewrite Ha, Hk, Hp, Hlim. cbn [negb orb guard res_bind].
  apply guard_bind_Ok. split; [by apply Z.ltb_ge|]. apply guard_bind_Ok.
  split; [apply Z.ltb_ge; unfold sat_add, MAX_ARCHIVE_ITEMS, u64_max in *; lia|].
  apply guard_Ok. unfold active_list, archive_list, duplicated, active_list, archive_list.
  apply orb_false_intro; [apply orb_false_intro|].
  - apply (existsb_map bad_active). intros id row Hid. exact (act_state _ _ _ (Hact _ _ Hid)).
  - apply existsb_false_Forall, Forall_forall. intros [id row] Hin%elem_of_map_to_list.
    apply existsb_false_Forall, Forall_forall. intros [id' it] Hin'%elem_of_map_to_list. cbn.
    destruct (Hdis _ _ _ _ Hin Hin') as [Hne ->]. rewrite orb_false_r. by apply String.eqb_neq.
  - apply (existsb_map bad_archived). intros id it Hid. destruct (Harc _ _ Hid) as [_ Hv].
    unfold bad_archived. revert Hv. unfold verified_item. rewrite ok_or_bind_Ok.
    intros (ack & -> & Hv). rewrite guard_bind_Ok in Hv. destruct Hv as [_ Hv]. apply guard_Ok in Hv.
    split_bools. by repeat match goal with H : _ = true |- _ => rewrite H; clear H end.
Qed.

(** The queue stays sound. Whatever requests its workers make, in any
    order and with any failures, every active item has its untouched private
    snapshot on disk, every archived item has a verified receipt, no item is
    in both tables or twice in one, the counts stay within their limits, and
    the checks that guard every request keep passing. *)
Theorem queue_stays_sound (w : QueueWorld) :
  queue_reached w ->
  queue_ok (qw_queue w)
  /\ (valid_id (qt_agent_id (qu_target (qw_queue w))) = true ->
      valid_id (qt_key_id (qu_target (qw_queue w))) = true ->
      public_key_ok (qt_pinned_pubkey (qu_target (qw_queue w))) = true ->
      validate_database (qw_queue w) = Ok tt).
Proof. intros [Hok _]%reached_ok. split; [done|]. by apply queue_ok_valid. Qed.

(** C3: an enqueued object is never lost. Once [enqueue] returns an item, then
    whatever requests follow, either the item is still pending and its snapshot
    holds bytes of its size and hash, or its receipt is archived: signed under
    the pinned key for exactly this agent, kind, hash and size. *)
Theorem enqueued_never_lost (w : QueueWorld) (env : QueueEnv) (target : QueueTarget) (max : Z)
    (bytes kind : string) (limits : QueueLimits) (st : QueueState) (it : QueueItem)
    (ops : list QueueOp) :
  let op := Enqueue env target max (Ok bytes) kind limits in
  queue_reached w -> op_allowed w op ->
  enqueue (qw_queue w) env target max (Ok bytes) kind limits = (st, Ok it) ->
  run_allowed (queue_step w op) ops ->
  let final := qw_queue (queue_run (queue_step w op) ops) in
  qi_kind it = kind /\ qi_sha256 it = body_sha256 bytes
  /\ ((exists row file, qu_active final !! qi_id it = Some row
         /\ qu_objects final !! snapshot_name (qi_id it) = Some file
         /\ body_sha256 (of_bytes file) = qi_sha256 it /\ slen (of_bytes file) = qi_size_bytes it)
      \/ (exists a receipt, qu_archive final !! qi_id it = Some a /\ qi_receipt a = Some receipt
         /\ verify_receipt receipt (qt_pinned_pubkey (qu_target (qw_queue w))) = true
         /\ re_agent_id (sr_receipt receipt) = qt_agent_id (qu_target (qw_queue w))
         /\ re_kind (sr_receipt receipt) = kind /\ re_sha256 (sr_receipt receipt) = body_sha256 bytes
         /\ re_size_bytes (sr_receipt receipt) = qi_size_bytes it)).
Proof.
  intros op Hw%reached_ok Hop He Hops final.
  pose proof (step_ok _ _ Hw Hop) as Hw1. pose proof (run_ok _ _ Hw1 Hops) as [Hok _].
  pose proof (enqueue_spec _ _ _ _ _ _ _ _ _ (proj1 Hw) Hop He) as (_ & _ & Hres).
  destruct (Hres _ _ eq_refl eq_refl) as (Hk & Hh & Hp). split; [done|]. split; [done|].
  assert (Hp' : present (qw_queue (queue_step w op)) it) by (cbn; by rewrite He).
  pose proof (run_present _ _ _ Hw1 Hops Hp') as Hfin.
  assert (Et : qu_target final = qu_target (qw_queue w)).
  { unfold final. rewrite run_target. apply (run_target w [op]). }
  destruct Hfin as [(row & Hid & E1 & E2 & E3 & E4)|(a & Hid & E1 & E2 & E3 & E4)].
  - left. destruct (act_snapshot _ _ _ (qo_active _ Hok _ _ Hid)) as (file & Hf & _ & _ & Hi).
    exists row, file. split; [exact Hid|]. split; [by rewrite <- E1|].
    unfold intact in Hi. apply andb_prop in Hi as [Hs Hb].
    apply Z.eqb_eq in Hs. apply String.eqb_eq in Hb. by rewrite <- E3, <- E4.
  - right. destruct (qo_archive _ Hok _ _ Hid) as [_ Hv].
    apply verified_item_receipt in Hv as (ack & Ha & Hv & Hag & Hki & Hsh & Hsz).
    exists a, ack. fold final in Hv, Hag. rewrite Et in Hv, Hag.
    split; [exact Hid|]. split; [done|]. split; [done|]. split; [done|].
    split; [congruence|]. split; congruence.
Qed.

(** C5: a lease is exclusive. From the claim that hands it out until it
    expires, whatever other workers do, no other lease of the same item is
    handed out, and the worker still owns the item when it comes to finish. *)
Theorem lease_exclusive (w : QueueWorld) (env : QueueEnv) (target : QueueTarget) (timeout now : Z)
    (st : QueueState) (lease : Lease) (ops : list QueueOp) (t : Z) :
  let op := Claim env target timeout now in
  let expires := lease_expiry (clock now (qe_now_ms env)) timeout in
  queue_reached w -> op_allowed w op ->
  claim (qw_queue w) env target timeout now = (st, Ok (Some lease)) ->
  run_allowed (queue_step w op) ops -> Forall (before_expiry lease expires) ops -> t < expires ->
  let w' := queue_run (queue_step w op) ops in
  leases_of (qi_id (ls_item lease)) (qw_leases w')
    = lease :: leases_of (qi_id (ls_item lease)) (qw_leases w)
  /\ is_Some (owns (qw_queue w') lease t).
Proof.
  intros op expires Hw%reached_ok Hop Hc Hops Hb Ht w'.
  pose proof (step_ok _ _ Hw Hop) as Hw1.
  assert (Es : queue_step w op = mkQueueWorld st (lease :: qw_leases w)) by (cbn; by rewrite Hc).
  assert (Hh : held (qw_queue (queue_step w op)) lease expires).
  { rewrite Es. apply claim_cases in Hc. inversion Hc as [? ? ? Hn|st1 id row token ? Hs Hn Htok Hr]; subst;
      [by destruct (Hn lease)|].
    destruct Hr as [Hr|Hr]; [|done]. injection Hr as ->.
    apply next_due_Some in Hn as [Hid _].
    pose proof (act_id _ _ _ (qo_active _ (swept_ok _ _ Hs (proj1 Hw)) _ _ Hid)) as Hi.
    eexists. cbn. rewrite Hi, lookup_insert_eq. by split. }
  destruct (run_held _ ops lease expires Hw1 Hops Hb Hh) as [Hh' El].
  split; [|by eapply held_owns].
  unfold w'. rewrite El, Es. unfold leases_of. cbn. by rewrite String.eqb_refl.
Qed.

(** Only the owner of an unexpired lease finishes an upload. Otherwise
    [finish] changes no table and does not report success. When it reports
    success, a receipt has moved the row to the archive with the verified
    receipt and removed its snapshot; an error code has released the row, its
    attempts kept, to be retried within an hour. *)
Theorem finish_outcome (w : QueueWorld) (env : QueueEnv) (target : QueueTarget) (lease : Lease)
    (outcome : result SignedReceipt string) (now : Z) (st : QueueState) (r : result bool string) :
  let id := qi_id (ls_item lease) in
  let t := clock now (qe_now_ms env) in
  queue_reached w -> lease ∈ qw_leases w ->
  finish (qw_queue w) env target lease outcome now = (st, r) ->
  (owns (qw_queue w) lease t = None ->
     qu_active st = qu_active (qw_queue w) /\ qu_archive st = qu_archive (qw_queue w) /\ r <> Ok true)
  /\ (r = Ok true -> exists row, owns (qw_queue w) lease t = Some row
       /\ match outcome with
          | Ok receipt =>
              qu_active st = delete id (qu_active (qw_queue w))
              /\ qu_archive st = <[id := archived_item row receipt t]> (qu_archive (qw_queue w))
              /\ verified_item (archived_item row receipt t) target = Ok tt
              /\ qu_objects st !! snapshot_name id = None
          | Err code =>
              qu_archive st = qu_archive (qw_queue w)
              /\ exists row', qu_active st = <[id := row']> (qu_active (qw_queue w))
                   /\ same_upload (row_item row') (row_item row)
                   /\ row_lease_token row' = None /\ qi_last_error (row_item row') = Some code
                   /\ qi_attempts (row_item row') = qi_attempts (row_item row)
                   /\ qi_next_retry_ms (row_item row') <= t + 3600000
          end).
Proof.
  intros id t [Hok Hls]%reached_ok Hin Hf. apply finish_cases in Hf. fold t in Hf.
  assert (Eo : forall st1, swept (qw_queue w) st1 -> owns st1 lease t = owns (qw_queue w) lease t).
  { intros st1 [(_ & _ & Ea & _) _]. unfold owns. by rewrite Ea. }
  destruct Hf as [st1 r' Hs Hr|st1 row code r' Hs Ho -> Hr|st1 row receipt archive objects r' Hs Ho -> Ht Hv Ha Hobj Hob Hr];
    pose proof (swept_ok _ _ Hs Hok) as Hok1; pose proof (Eo _ Hs) as Eo1;
    destruct Hs as [(Et & _ & Ea & Er) _]; (split; [intros Hnone|intros ->]); try congruence.
  - done.
  - exists row. split; [congruence|]. cbn. split; [done|]. eexists.
    rewrite Ea. split; [done|]. split; [by repeat split|]. split; [done|]. split; [done|]. split; [done|].
    cbn. unfold sat_add, retry_delay. lia.
  - exists row. split; [congruence|]. apply owns_Some in Ho as (Hid & Htok & _).
    assert (Hsame : same_upload (ls_item lease) (row_item row)).
    { apply (Hls lease row Hin); [|done]. by rewrite <- Ea. }
    rewrite <- Ht in *.
    pose proof (archived_item_verified _ _ _ _ _ Hsame Hv) as Hver.
    apply (archive_row_ok st1 id row) in Ha as [-> _]; try done.
    cbn. rewrite Ea, Er. split; [done|]. split; [done|]. split; [done|].
    rewrite (Hob eq_refl). apply lookup_delete_eq.
Qed.

(** Snapshots of active items are all the sweep finds: it passes. *)
Definition only_snapshots (st : QueueState) (listing : list string) : Prop :=
  Forall (fun name => exists id, name = snapshot_name id /\ is_Some (qu_active st !! id)) listing
  /\ zlen listing <= MAX_ITEMS.

Lemma sweep_clean st count listing :
  queue_ok st -> Forall (fun name => exists id, name = snapshot_name id /\ is_Some (qu_active st !! id)) listing ->
  0 <= count -> count + zlen listing <= MAX_ITEMS -> sweep st count listing = (st, Ok tt).
Proof.
  intros Hok. revert count. induction listing as [|name listing IH]; intros count; [done|].
  intros [(id & -> & row & Hid) Hl]%Forall_cons_1 Hc Hlen. rewrite zlen_cons in Hlen. cbn [sweep].
  pose proof (zlen_nonneg listing).
  destruct (Z.leb_spec (MAX_ITEMS * 2 + 100) count); [unfold MAX_ITEMS in *; lia|].
  destruct (qo_active _ Hok _ _ Hid) as [Hi Hio _ _ (file & Hf & Hreg & _)]. rewrite Hi in Hf.
  assert (E : cleanup_entry st (snapshot_name id) = Ok st).
  { unfold cleanup_entry. rewrite Hf, Hreg, snapshot_not_temporary, andb_false_r.
    unfold snapshot_name. rewrite strip_suffix_app. cbn. rewrite Hio. cbn. by rewrite Hid. }
  rewrite E. apply IH; [done|lia|lia].
Qed.

Lemma open_mutating_clean st listing :
  queue_ok st -> validate_database st = Ok tt -> only_snapshots st listing ->
  open_mutating st listing = (st, Ok tt).
Proof.
  intros Hok Hv [Hl Hlen]. unfold open_mutating, cleanup. rewrite Hv.
  destruct (Z.ltb_spec MAX_ITEMS (Z.of_nat (size (qu_active st)))); [pose proof (qo_count _ Hok); lia|].
  assert (E : existsb (fun kv : string * ActiveRow => negb (id_ok kv.1)
      || negb (str_mem (qi_state (row_item kv.2)) ["pending"; "sent"])) (active_list st) = false).
  { apply existsb_false_Forall, Forall_forall. intros [id row] Hin%elem_of_map_to_list. cbn -[str_mem].
    destruct (qo_active _ Hok _ _ Hin) as [_ Hio Hbad _ _]. rewrite Hio. cbn -[str_mem].
    unfold bad_active in Hbad. split_bools.
    match goal with H : String.eqb _ "pending" = true |- _ => apply String.eqb_eq in H; rewrite H end.
    reflexivity. }
  rewrite E. by apply sweep_clean.
Qed.

(** The queue makes progress. When the snapshot directory holds only
    snapshots of active items and some item is due, a claim whose random token
    and commit succeed hands out a lease: of the oldest due item, for one more
    attempt, held until the timeout and grace have passed and to be retried
    within an hour. *)
Theorem due_item_claimed (w : QueueWorld) (env : QueueEnv) (target : QueueTarget) (timeout now : Z)
    (token : string) :
  let st := qw_queue w in
  let t := clock now (qe_now_ms env) in
  queue_reached w -> qu_target st = target -> validate_database st = Ok tt ->
  only_snapshots st (qe_listing env) -> qe_random env = Some token -> qe_commit env = Written ->
  (forall id row, qu_active st !! id = Some row -> valid_hash (qi_sha256 (row_item row)) = true
     /\ qi_size_bytes (row_item row) <= MAX_OBJECT_BYTES) ->
  (exists id row, qu_active st !! id = Some row /\ due t row = true) ->
  exists st' lease row row',
    claim st env target timeout now = (st', Ok (Some lease))
    /\ ls_token lease = token
    /\ qu_active st !! qi_id (ls_item lease) = Some row /\ due t row = true
    /\ (forall id' other, qu_active st !! id' = Some other -> due t other = true ->
          cmp (qi_created_at_ms (row_item other), id')
              (qi_created_at_ms (row_item row), qi_id (ls_item lease)) <> Lt)
    /\ qi_attempts (ls_item lease) = sat_add32 (qi_attempts (row_item row)) 1
    /\ qu_active st' !! qi_id (ls_item lease) = Some row'
    /\ row_lease_expires_ms row' = Some (lease_expiry t timeout)
    /\ qi_next_retry_ms (row_item row') <= t + 3600000.
Proof.
  intros st t [Hok _]%reached_ok Ht Hv Hls Hrand Hcommit Hmeta (id0 & row0 & Hid0 & Hdue0).
  destruct (next_due st t) as [[id row]|] eqn:Hn; cycle 1.
  { apply min_by_key_None in Hn. assert (Hin : (id0, row0) ∈ List.filter (fun kv : string * ActiveRow =>
      due t kv.2) (active_list st)); [|rewrite Hn in Hin; by apply elem_of_nil in Hin].
    apply list_elem_of_In, List.filter_In. split; [|done].
    by apply list_elem_of_In, elem_of_map_to_list. }
  assert (Hleast := Hn). apply next_due_Some in Hn as [Hid Hdue].
  destruct (qo_active _ Hok _ _ Hid) as [Hi _ _ Hk _]. destruct (Hmeta _ _ Hid) as [Hh Hsz].
  set (row' := leased_row (row_item row) token timeout t).
  exists (with_tables st (<[id := row']> (qu_active st)) (qu_archive st)),
    (lease_of (row_item row) token), row, row'.
  split.
  { unfold claim. rewrite (open_mutating_clean st _ Hok Hv Hls). cbn [res_bind].
    unfold assert_target. rewrite bool_decide_eq_true_2 by done. cbn [negb guard].
    fold t. rewrite Hleast, Hk, Hh. apply Z.ltb_ge in Hsz. rewrite Hsz. cbn [negb orb].
    rewrite Hrand. unfold commit. by rewrite Hcommit. }
  cbn [lease_of ls_item ls_token with_attempts qi_id qi_attempts]. rewrite Hi.
  split; [done|]. split; [done|]. split; [done|]. split.
  { intros id' other Ho Hd. apply (min_by_key_least _ _ (id, row) (id', other) Hleast).
    apply list_elem_of_In, List.filter_In. split; [|done]. by apply list_elem_of_In, elem_of_map_to_list. }
  split; [done|]. split; [cbn; by rewrite lookup_insert_eq|]. split; [done|].
  cbn. unfold sat_add, retry_delay. lia.
Qed.

End Promises.

(** * A queue on which the promises are tried *)

#[local] Abbreviation SQ := sample_vault_crypto.
Definition demo_id : string := "0123456789abcdef0123456789abcdef".
Definition demo_target : QueueTarget := mkQueueTarget "https://vault/" "a" "k" "pub" false None.
Definition demo_env_at (random : option string) (listing : list string) : QueueEnv :=
  mkQueueEnv listing random Written Written 1000 true true.
Definition demo_enqueue : QueueOp :=
  Enqueue (demo_env_at (Some demo_id) []) demo_target 1000 (Ok "abc") "backup" QueueLimits_default.
Definition demo_claim : QueueOp :=
  Claim (demo_env_at (Some "t1") [snapshot_name demo_id]) demo_target 30 2000.
Definition demo_empty : QueueWorld := mkQueueWorld (queue_new demo_target QueueLimits_default) [].
Definition demo_queued : QueueWorld := queue_step (Crypto := SQ) demo_empty demo_enqueue.
Definition demo_leased : QueueWorld := queue_step (Crypto := SQ) demo_queued demo_claim.
Definition demo_item : QueueItem :=
  new_item demo_id "backup" (body_sha256 (VaultCrypto := SQ) "abc") 3 1000.
Definition demo_lease : Lease := lease_of demo_item "t1".
Definition demo_ack : SignedReceipt :=
  mkSignedReceipt (mkReceipt FORMAT "k" "a" "backup" (body_sha256 (VaultCrypto := SQ) "abc") 3 1 2) "sig".

Lemma demo_enqueue_allowed : op_allowed demo_empty demo_enqueue.
Proof. intros id _. apply lookup_empty. Qed.

Lemma demo_claim_allowed : op_allowed demo_queued demo_claim.
Proof. intros token _ Hin. by apply elem_of_nil in Hin. Qed.

Lemma demo_empty_reached : queue_reached (Crypto := SQ) demo_empty.
Proof. by exists demo_target, QueueLimits_default, []. Qed.

Lemma demo_queued_reached : queue_reached (Crypto := SQ) demo_queued.
Proof.
  exists demo_target, QueueLimits_default, [demo_enqueue]. split; [done|]. split; [|done].
  split; [exact demo_enqueue_allowed|exact I].
Qed.

Lemma demo_leased_reached : queue_reached (Crypto := SQ) demo_leased.
Proof.
  exists demo_target, QueueLimits_default, [demo_enqueue; demo_claim]. split; [done|]. split; [|done].
  split; [exact demo_enqueue_allowed|]. split; [exact demo_claim_allowed|exact I].
Qed.

Lemma queue_stays_sound_witness :
  queue_ok (Crypto := SQ) (qw_queue demo_leased)
  /\ validate_database (Crypto := SQ) (qw_queue demo_leased) = Ok tt.
Proof.
  destruct (queue_stays_sound (Crypto := SQ) demo_leased demo_leased_reached) as [H1 H2].
  split; [exact H1|]. apply H2; vm_compute; reflexivity.
Defined.

Lemma enqueued_never_lost_witness :
  let final := qw_queue (queue_run (Crypto := SQ) demo_queued [demo_claim]) in
  exists row, qu_active final !! demo_id = Some row.
Proof.
  assert (He : enqueue (Crypto := SQ) (qw_queue demo_empty) (demo_env_at (Some demo_id) []) demo_target
    1000 (Ok "abc") "backup" QueueLimits_default = (qw_queue demo_queued, Ok demo_item))
    by (vm_compute; reflexivity).
  assert (Ha : run_allowed (Crypto := SQ) demo_queued [demo_claim])
    by (split; [exact demo_claim_allowed|exact I]).
  destruct (enqueued_never_lost (Crypto := SQ) demo_empty (demo_env_at (Some demo_id) []) demo_target
    1000 "abc" "backup" QueueLimits_default (qw_queue demo_queued) demo_item [demo_claim]
    demo_empty_reached demo_enqueue_allowed He Ha)
    as (_ & _ & [(row & file & Hrow & _)|(a & receipt & Ha' & _)]).
  - exists row. exact Hrow.
  - exfalso. revert Ha'. vm_compute. discriminate.
Defined.

Lemma lease_exclusive_witness :
  let other := Claim (demo_env_at (Some "t2") [snapshot_name demo_id]) demo_target 30 9000 in
  is_Some (owns (qw_queue (queue_run (Crypto := SQ) demo_leased [other])) demo_lease 61999).
Proof.
  intros other.
  assert (Hc : claim (Crypto := SQ) (qw_queue demo_queued) (demo_env_at (Some "t1") [snapshot_name demo_id])
    demo_target 30 2000 = (qw_queue demo_leased, Ok (Some demo_lease))) by (vm_compute; reflexivity).
  assert (Ha : run_allowed (Crypto := SQ) demo_leased [other]).
  { split; [|exact I]. intros token [= <-]. change (qw_leases demo_leased) with [demo_lease].
    intros Hin. apply elem_of_cons in Hin as [E|Hin]; [discriminate E|by apply elem_of_nil in Hin]. }
  apply (lease_exclusive (Crypto := SQ) demo_queued (demo_env_at (Some "t1") [snapshot_name demo_id])
    demo_target 30 2000 (qw_queue demo_leased) demo_lease [other] 61999
    demo_queued_reached demo_claim_allowed Hc Ha).
  - repeat constructor.
  - vm_compute. reflexivity.
Defined.

Lemma finish_outcome_witness :
  exists st row, finish (Crypto := SQ) (qw_queue demo_leased) (demo_env_at None [snapshot_name demo_id])
    demo_target demo_lease (Ok demo_ack) 3000 = (st, Ok true)
  /\ qu_archive st = <[demo_id := archived_item row demo_ack 3000]> (qu_archive (qw_queue demo_leased)).
Proof.
  destruct (finish (Crypto := SQ) (qw_queue demo_leased) (demo_env_at None [snapshot_name demo_id])
    demo_target demo_lease (Ok demo_ack) 3000) as [st r] eqn:Hf.
  assert (Hr : (finish (Crypto := SQ) (qw_queue demo_leased) (demo_env_at None [snapshot_name demo_id])
    demo_target demo_lease (Ok demo_ack) 3000).2 = Ok true) by (vm_compute; reflexivity).
  rewrite Hf in Hr. cbn in Hr.
  assert (Hin : demo_lease ∈ qw_leases demo_leased).
  { change (qw_leases demo_leased) with [demo_lease]. apply elem_of_cons. left. reflexivity. }
  destruct (finish_outcome (Crypto := SQ) demo_leased (demo_env_at None [snapshot_name demo_id])
    demo_target demo_lease (Ok demo_ack) 3000 st r demo_leased_reached Hin Hf) as [_ Hok].
  destruct (Hok Hr) as (row & _ & _ & Harc & _).
  exists st, row. split; [rewrite Hr; reflexivity|exact Harc].
Defined.

Lemma due_item_claimed_witness :
  exists st lease, claim (Crypto := SQ) (qw_queue demo_queued)
    (demo_env_at (Some "t1") [snapshot_name demo_id]) demo_target 30 2000 = (st, Ok (Some lease)).
Proof.
  assert (Hactive : qu_active (qw_queue demo_queued) = {[demo_id := mkActiveRow demo_item None None]})
    by (vm_compute; reflexivity).
  destruct (due_item_claimed (Crypto := SQ) demo_queued (demo_env_at (Some "t1") [snapshot_name demo_id])
    demo_target 30 2000 "t1" demo_queued_reached) as (st & lease & row & row' & Hc & _).
  - reflexivity.
  - vm_compute. reflexivity.
  - split; [|vm_compute; discriminate]. constructor; [|constructor]. exists demo_id.
    split; [reflexivity|]. rewrite Hactive, lookup_singleton_eq. eexists. reflexivity.
  - reflexivity.
  - reflexivity.
  - rewrite Hactive. intros id row [<- <-]%lookup_singleton_Some.
    split; [vm_compute; reflexivity|vm_compute; discriminate].
  - exists demo_id, (mkActiveRow demo_item None None). rewrite Hactive, lookup_singleton_eq.
    split; [reflexivity|vm_compute; reflexivity].
  - exists st, lease. exact Hc.
Defined.
