(* ===== verification/BundleJobs.v ===== *)
(** Bundle jobs of the upload queue (crates/argos-vault/src/queue/jobs.rs): a
    registered bundle is a row with its manifest, one reference per unique chunk
    to an item of the queue, and a lease of its own for the two requests that
    register and complete it at the server once all its chunks are archived. *)
From Stdlib Require Import ZArith Lia Ascii.
From stdpp Require Import base gmap strings list.
From S2P Require Import Prelude RustPath Receipts Bundle VaultQuota VaultQueue.
#[local] Open Scope Z_scope.

Definition MAX_BUNDLE_JOBS : Z := 1000.

Record BundleChunkRef := mkBundleChunkRef {
  cr_item_id : string;
  cr_sha256 : string;
  cr_size_bytes : Z;
}.

(** A row of bundle_jobs. As in the queue, a receipt or a completion stands for
    its JSON column; the manifest is kept as the text that is hashed. *)
Record JobRow := mkJobRow {
  jr_manifest_json : string;
  jr_manifest_sha256 : string;
  jr_state : string;
  jr_phase : string;
  jr_created_at_ms : Z;
  jr_attempts : Z;
  jr_next_retry_ms : Z;
  jr_last_error : option string;
  jr_lease_token : option string;
  jr_lease_expires_ms : option Z;
  jr_completed_at_ms : option Z;
  jr_manifest_receipt : option SignedReceipt;
  jr_completion : option (Signed Completion);
}.

Record BundleJob := mkBundleJob {
  bj_bundle_id : string;
  bj_manifest_sha256 : string;
  bj_manifest : BundleManifest;
  bj_chunk_items : list BundleChunkRef;
  bj_state : string;
  bj_phase : string;
  bj_created_at_ms : Z;
  bj_attempts : Z;
  bj_next_retry_ms : Z;
  bj_last_error : option string;
  bj_lease_expires_ms : option Z;
  bj_completed_at_ms : option Z;
  bj_manifest_receipt : option SignedReceipt;
  bj_completion : option (Signed Completion);
  bj_recommended : bool;
}.

(** The queue with the tables bundle_jobs and bundle_refs; a row of bundle_refs
    is found by its primary key, the bundle and the hash. *)
Record JobsState := mkJobsState {
  jb_queue : QueueState;
  jb_jobs : gmap string JobRow;
  jb_refs : gmap string (gmap string BundleChunkRef);
}.
Definition jobs_new (target : QueueTarget) (limits : QueueLimits) : JobsState :=
  mkJobsState (queue_new target limits) ∅ ∅.

Definition with_queue (st : JobsState) (q : QueueState) : JobsState :=
  mkJobsState q (jb_jobs st) (jb_refs st).
Definition with_job (st : JobsState) (id : string) (row : JobRow) : JobsState :=
  mkJobsState (jb_queue st) (<[id := row]> (jb_jobs st)) (jb_refs st).

Definition refs_of (st : JobsState) (id : string) : gmap string BundleChunkRef := default ∅ (jb_refs st !! id).
(** ORDER BY sha256. *)
Definition sorted_refs (refs : gmap string BundleChunkRef) : list BundleChunkRef :=
  map snd (sort_by fst (map_to_list refs)).

(** What of a file [same_snapshot] compares. *)
Record FileMeta := mkFileMeta {
  fm_is_file : bool;
  fm_is_symlink : bool;
  fm_len : Z;
  fm_modified : option Z;
  fm_identity : list Z;
}.
(** [fm_identity] holds dev, ino, ctime, ctime_nsec, uid, mode and nlink. *)
Definition same_snapshot (before after : FileMeta) : bool :=
  fm_is_file before && fm_is_file after && negb (fm_is_symlink after)
  && (fm_len before =? fm_len after)
  && bool_decide (fm_modified before = fm_modified after)
  && bool_decide (fm_identity before = fm_identity after).

(** [length] of SQLite counts the characters of a text. *)
Fixpoint char_count (s : string) : Z :=
  match s with
  | EmptyString => 0
  | String c s' => (if is_continuation c then 0 else 1) + char_count s'
  end.

Section Jobs.
Context `{Crypto : VaultCrypto} `{Json : BundleJson}.

(** * Manifests and their references *)

Fixpoint collect_chunks (refs : gmap string Z) (chunks : list Chunk) : result (gmap string Z) string :=
  match chunks with
  | [] => Ok refs
  | chunk :: rest =>
      let? _ := guard (is_some_and (refs !! ch_sha256 chunk) (fun prior => negb (prior =? ch_size_bytes chunk)))
                  "동일 청크 해시의 크기가 다릅니다" in
      collect_chunks (<[ch_sha256 chunk := ch_size_bytes chunk]> refs) rest
  end.
Definition unique_chunks (manifest : BundleManifest) : result (gmap string Z) string :=
  let? _ := validate manifest in collect_chunks ∅ (mf_chunks manifest).
(** A [BTreeMap] in the order of its keys. *)
Definition by_hash (chunks : gmap string Z) : list (string * Z) := sort_by fst (map_to_list chunks).

Definition collected (items : list BundleChunkRef) : gmap string Z :=
  foldl (fun m r => <[cr_sha256 r := cr_size_bytes r]> m) ∅ items.

Definition job_record (job : BundleJob) (target : QueueTarget) (receipt : SignedReceipt) : BundleRecord :=
  mkBundleRecord (qt_agent_id target) (bj_manifest job) receipt (bj_completion job) [] "unknown" false.

(** [proof]. *)
Definition job_proof (job : BundleJob) (target : QueueTarget) : result unit string :=
  let? _ := validate (bj_manifest job) in
  let? _ := guard (negb (String.eqb (bj_bundle_id job) (mf_bundle_id (bj_manifest job)))
                   || negb (String.eqb (bj_manifest_sha256 job) (body_sha256 (to_json (bj_manifest job)))))
              "영속 번들 구성 목록의 ID/해시 불일치" in
  let? expected := unique_chunks (bj_manifest job) in
  let actual := collected (bj_chunk_items job) in
  let? _ := guard (negb (bool_decide (expected = actual))
                   || negb (Z.of_nat (size actual) =? zlen (bj_chunk_items job))
                   || existsb (fun r => negb (id_ok (cr_item_id r))) (bj_chunk_items job))
              "영속 번들 구성 목록과 청크 참조 불일치" in
  let? _ := match bj_manifest_receipt job with
            | Some receipt =>
                verify_record (job_record job target receipt) (qt_pinned_pubkey target) (qt_key_id target)
            | None => guard (is_some (bj_completion job) || negb (String.eqb (bj_phase job) "register"))
                        "구성 목록 수신증명 없는 번들 완료 상태"
            end in
  guard (negb (Bool.eqb (String.eqb (bj_state job) "complete") (is_some (bj_completion job))))
    "번들 완료 증명/상태 불일치".

Definition decode_job (id : string) (row : JobRow) (manifest : BundleManifest)
    (refs : list BundleChunkRef) : BundleJob :=
  mkBundleJob id (jr_manifest_sha256 row) manifest refs (jr_state row) (jr_phase row)
    (jr_created_at_ms row) (jr_attempts row) (jr_next_retry_ms row) (jr_last_error row)
    (jr_lease_expires_ms row) (jr_completed_at_ms row) (jr_manifest_receipt row) (jr_completion row) false.

Definition load (st : JobsState) (id : string) : result BundleJob string :=
  let? row := ok_or (jb_jobs st !! id) "번들 작업을 찾을 수 없습니다" in
  let? manifest := ok_or (of_json (A := BundleManifest) (jr_manifest_json row)) "json" in
  let job := decode_job id row manifest (sorted_refs (refs_of st id)) in
  let? _ := job_proof job (qu_target (jb_queue st)) in
  Ok job.

(** * Opening *)

Definition bad_job (row : JobRow) : bool :=
  let is_state s := String.eqb (jr_state row) s in
  let is_phase s := String.eqb (jr_phase row) s in
  (262144 <? char_count (jr_manifest_json row))
  || negb (Bool.eqb (is_some (jr_lease_token row)) (is_some (jr_lease_expires_ms row)))
  || (is_state "pending" && (negb (is_phase "register" || is_phase "complete")
        || is_some (jr_completed_at_ms row) || is_some (jr_completion row)))
  || (is_state "complete" && (negb (is_phase "done") || negb (is_some (jr_completed_at_ms row))
        || negb (is_some (jr_completion row)) || negb (is_some (jr_manifest_receipt row))
        || is_some (jr_lease_token row)))
  || (is_phase "complete" && negb (is_some (jr_manifest_receipt row))).

Definition backup_of (r : BundleChunkRef) (item : QueueItem) : bool :=
  String.eqb (qi_kind item) "backup" && String.eqb (qi_sha256 item) (cr_sha256 r)
  && (qi_size_bytes item =? cr_size_bytes r).
Definition bad_ref (st : JobsState) (id : string) (r : BundleChunkRef) : bool :=
  negb (is_some (jb_jobs st !! id))
  || negb (is_some_and (qu_active (jb_queue st) !! cr_item_id r) (fun row => backup_of r (row_item row))
           || is_some_and (qu_archive (jb_queue st) !! cr_item_id r) (backup_of r)).
Definition ref_count (st : JobsState) (id : string) : Z := Z.of_nat (size (refs_of st id)).
Definition all_refs (st : JobsState) : Z := map_sum (fun refs => Z.of_nat (size refs)) (jb_refs st).

Definition validate_schema (st : JobsState) : result unit string :=
  let? _ := guard (MAX_BUNDLE_JOBS <? Z.of_nat (size (jb_jobs st))) "번들 작업 1000개 상한 초과" in
  guard (existsb (fun kv => bad_job kv.2) (map_to_list (jb_jobs st))
         || (MAX_BUNDLE_JOBS * 64 <? all_refs st)
         || existsb (fun kv => existsb (fun r => bad_ref st kv.1 r.2) (map_to_list kv.2)) (map_to_list (jb_refs st))
         || existsb (fun kv => negb ((1 <=? ref_count st kv.1) && (ref_count st kv.1 <=? 64)))
              (map_to_list (jb_jobs st)))
    "번들 작업/청크 참조 상태 오류: 자동 초기화하지 않습니다".

(** [open_mutating] of queue.rs with the tables of bundle jobs. *)
Definition jobs_open (st : JobsState) (listing : list string) : JobsState * result unit string :=
  match (let? _ := validate_database (jb_queue st) in validate_schema st) with
  | Err e => (st, Err e)
  | Ok _ => let '(q, r) := cleanup (jb_queue st) listing in (with_queue st q, r)
  end.

(** * The snapshots a bundle reuses *)

Definition lookup_chunk (st : JobsState) (hash : string) : option QueueItem :=
  find_object (jb_queue st) "backup" hash.
Definition item_sent (item : QueueItem) : bool := String.eqb (qi_state item) "sent".

(** What [verify_pending_snapshots] finds for one hash, without a lock: the
    item, its private regular snapshot read between two looks at its metadata,
    and the item again when that failed. *)
Record SnapshotView := mkSnapshotView {
  sv_item : option QueueItem;
  sv_file : option (FileMeta * string * FileMeta);
  sv_again : option QueueItem;
}.

Definition snapshot_good (hash : string) (size : Z) (file : FileMeta * string * FileMeta) : bool :=
  let '(before, bytes, after) := file in
  (slen bytes <=? CHUNK_BYTES) && (slen bytes =? size) && String.eqb (body_sha256 bytes) hash
  && same_snapshot before after.

(** One turn of its loop: the metadata to remember. *)
Definition verify_snapshot (target : QueueTarget) (hash : string) (size : Z) (v : SnapshotView)
    : result (option (string * FileMeta)) string :=
  match sv_item v with
  | None => Ok None
  | Some item =>
      let? _ := guard (negb (qi_size_bytes item =? size)) "기존 큐 청크 크기 불일치" in
      if item_sent item then
        let? _ := verified_item item target in Ok None
      else match opt_filter (snapshot_good hash size) (sv_file v) with
      | Some file => Ok (Some (qi_id item, file.2))
      | None =>
          match opt_filter (fun c => String.eqb (qi_id c) (qi_id item) && item_sent c) (sv_again v) with
          | Some current => let? _ := verified_item current target in Ok None
          | None => Err "기존 pending 청크 본문이 유실·변경되었습니다: 등록 거부"
          end
      end
  end.

Fixpoint verify_pending_snapshots (target : QueueTarget) (views : string -> SnapshotView)
    (chunks : list (string * Z)) : result (gmap string FileMeta) string :=
  match chunks with
  | [] => Ok ∅
  | (hash, size) :: rest =>
      let? found := verify_snapshot target hash size (views hash) in
      let? checked := verify_pending_snapshots target views rest in
      Ok (match found with Some (id, meta) => <[id := meta]> checked | None => checked end)
  end.

Definition private_regular (st : JobsState) (name : string) : bool :=
  is_some_and (qu_objects (jb_queue st) !! name) (fun f => of_regular f && of_private f).

(** [check_reused_snapshots]; [stat] is the metadata of a snapshot now. *)
Definition check_reused (st : JobsState) (target : QueueTarget) (stat : string -> option FileMeta)
    (checked : gmap string FileMeta) (require_existing : bool) (r : BundleChunkRef) : result unit string :=
  match lookup_chunk st (cr_sha256 r) with
  | None => guard require_existing "기존 번들 청크 참조가 없습니다"
  | Some item =>
      let? _ := guard (negb (String.eqb (qi_id item) (cr_item_id r))
                       || negb (qi_size_bytes item =? cr_size_bytes r))
                  "기존 번들 청크 참조가 변경되었습니다" in
      if item_sent item then verified_item item target
      else
        let? before := ok_or (checked !! qi_id item) "동시 등록된 pending 청크를 검증하려면 다시 등록하세요" in
        let? _ := guard (negb (id_ok (qi_id item)) || negb (private_regular st (snapshot_name (qi_id item))))
                    "snapshot" in
        let? now := ok_or (stat (snapshot_name (qi_id item))) "symlink_metadata" in
        guard (negb (same_snapshot before now)) "검증 후 pending 청크가 변경되었습니다: 등록 거부"
  end.
Fixpoint check_reused_snapshots (st : JobsState) (target : QueueTarget) (stat : string -> option FileMeta)
    (checked : gmap string FileMeta) (require_existing : bool) (refs : list BundleChunkRef)
    : result unit string :=
  match refs with
  | [] => Ok tt
  | r :: rest =>
      let? _ := check_reused st target stat checked require_existing r in
      check_reused_snapshots st target stat checked require_existing rest
  end.

(** * Admission *)

Definition active_bytes (st : JobsState) : Z :=
  map_sum (fun row => qi_size_bytes (row_item row)) (qu_active (jb_queue st)).

(** The loop of [admission]; [randoms] are the answers of [random_id] still to come. *)
Fixpoint admit_chunks (st : JobsState) (target : QueueTarget) (randoms : list (option string))
    (added extra : Z) (refs : list BundleChunkRef) (chunks : list (string * Z))
    : result (list BundleChunkRef * Z * Z) string :=
  match chunks with
  | [] => Ok (refs, added, extra)
  | (hash, size) :: rest =>
      match lookup_chunk st hash with
      | Some item =>
          let? _ := guard (negb (qi_size_bytes item =? size)) "기존 큐 청크 크기 불일치" in
          let? _ := if item_sent item then verified_item item target else Ok tt in
          admit_chunks st target randoms added extra (refs ++ [mkBundleChunkRef (qi_id item) hash size]) rest
      | None =>
          let? extra := ok_or (checked_add extra size) "청크 합계 초과" in
          match randoms with
          | Some id :: randoms =>
              admit_chunks st target randoms (added + 1) extra (refs ++ [mkBundleChunkRef id hash size]) rest
          | _ => Err "큐 임대 난수 생성 실패"
          end
      end
  end.

Definition admission (st : JobsState) (chunks : gmap string Z) (limits : QueueLimits) (target : QueueTarget)
    (randoms : list (option string)) : result (list BundleChunkRef) string :=
  let active := Z.of_nat (size (qu_active (jb_queue st))) in
  let archived := Z.of_nat (size (qu_archive (jb_queue st))) in
  let? _ := guard (MAX_BUNDLE_JOBS <=? Z.of_nat (size (jb_jobs st)))
              "번들 작업 보관 1000개 상한: 기존 큐를 보존하고 새 큐를 사용하세요" in
  let? admitted := admit_chunks st target randoms 0 0 [] (by_hash chunks) in
  let '(refs, added, extra) := admitted in
  let? _ := guard ((ql_max_items limits <? sat_add active added)
                   || (ql_max_bytes limits <? sat_add (active_bytes st) extra)
                   || (MAX_ARCHIVE_ITEMS <? sat_add (sat_add active archived) added))
              "전체 번들 청크의 활성 개수/바이트/보관 슬롯을 확보할 수 없습니다: 작업 미등록" in
  Ok refs.

(** * Registering a bundle *)

(** The prepared bundle: whether its directories are private and apart from the
    queue, the bytes of the manifest and of each chunk as bounded reads return them. *)
Record Stage := mkStage {
  sg_private : bool;
  sg_separate : bool;
  sg_manifest : option string;
  sg_chunk : string -> option string;
}.

(** [bundle::read_manifest]. *)
Definition read_manifest (bytes : option string) : result BundleManifest string :=
  let? bytes := ok_or (opt_filter (fun b => slen b <=? MAX_MANIFEST_BYTES) bytes) "read_bounded" in
  let? manifest := ok_or (of_json (A := BundleManifest) bytes) "json" in
  let? _ := validate manifest in
  Ok manifest.

(** What a request meets outside the tables. [je_links] says which hard links
    succeed. *)
Record BundleEnv := mkBundleEnv {
  je_listing : list string;
  je_randoms : list (option string);
  je_links : string -> bool;
  je_synced : bool;
  je_stat : string -> option FileMeta;
  je_commit : write_outcome;
  je_now_ms : Z;
}.

Definition read_stage (limits : QueueLimits) (max_object_bytes : Z) (stage : Stage)
    : result (BundleManifest * gmap string Z) string :=
  let? _ := limits_validate limits in
  let? _ := guard (negb (sg_private stage)) "validate_private_directory" in
  let? _ := guard (negb (sg_separate stage)) "준비 경로와 큐는 서로 분리된 경로여야 합니다" in
  let? manifest := read_manifest (sg_manifest stage) in
  let? chunks := unique_chunks manifest in
  let? _ := guard (existsb (fun kv => max_object_bytes <? kv.2) (by_hash chunks))
              "청크가 현재 클라이언트 객체 상한을 초과합니다" in
  Ok (manifest, chunks).

Definition load_same (st : JobsState) (manifest : BundleManifest) : result BundleJob string :=
  let? old := load st (mf_bundle_id manifest) in
  let? _ := guard (negb (bool_decide (bj_manifest old = manifest))) "같은 번들 ID의 구성 목록 변경을 거부합니다" in
  Ok old.

(** The first critical section of [enqueue_bundle]: whether the job is there already. *)
Definition enqueue_begin (st : JobsState) (env : BundleEnv) (target : QueueTarget) (limits : QueueLimits)
    (max_object_bytes : Z) (stage : Stage) : JobsState * result (BundleManifest * bool) string :=
  match read_stage limits max_object_bytes stage with
  | Err e => (st, Err e)
  | Ok (manifest, chunks) =>
      let '(st, opened) := jobs_open st (je_listing env) in
      (st,
       let? _ := opened in
       let? _ := assert_target (jb_queue st) target in
       if is_some (jb_jobs st !! mf_bundle_id manifest) then
         let? _ := load_same st manifest in Ok (manifest, true)
       else
         let? _ := admission st chunks limits target (je_randoms env) in Ok (manifest, false))
  end.

(** The copy of the chunks to the spool directory, checked and joined. *)
Fixpoint read_spool (stage : Stage) (spool : gmap string string) (full : string) (chunks : list Chunk)
    : result (gmap string string * string) string :=
  match chunks with
  | [] => Ok (spool, full)
  | chunk :: rest =>
      let? read := ok_or (match spool !! ch_sha256 chunk with
                          | Some bytes => Some bytes
                          | None => sg_chunk stage (ch_sha256 chunk)
                          end) "read_bounded" in
      let? _ := guard ((CHUNK_BYTES <? slen read) || negb (slen read =? ch_size_bytes chunk)
                       || negb (String.eqb (body_sha256 read) (ch_sha256 chunk)))
                  "번들 청크의 실제 내용/구성 목록 불일치: 작업 미등록" in
      read_spool stage (<[ch_sha256 chunk := read]> spool) (String.append full read) rest
  end.
Definition spool_of (stage : Stage) (manifest : BundleManifest) : result (gmap string string) string :=
  let? read := read_spool stage ∅ "" (mf_chunks manifest) in
  let? _ := guard (negb (String.eqb (body_sha256 read.2) (mf_sha256 manifest)))
              "번들 전체 파일 해시 불일치: 작업 미등록" in
  Ok read.1.

(** The transaction failed: its rows are gone, the linked files stay. *)
Definition rollback (before tx : JobsState) : JobsState :=
  with_queue before (with_objects (jb_queue before) (qu_objects (jb_queue tx))).
Definition commit_job {A} (env : BundleEnv) (before tx : JobsState) (a : A) : JobsState * result A string :=
  (if linked (je_commit env) then tx else rollback before tx,
   if written (je_commit env) then Ok a else Err "commit").

(** The loop that moves new chunks from the spool into the queue. *)
Fixpoint link_chunks (tx : JobsState) (env : BundleEnv) (spool : gmap string string) (now : Z)
    (refs : list BundleChunkRef) : JobsState * result unit string :=
  match refs with
  | [] => (tx, Ok tt)
  | r :: rest =>
      if is_some (lookup_chunk tx (cr_sha256 r)) then link_chunks tx env spool now rest
      else
        let name := snapshot_name (cr_item_id r) in
        match spool !! cr_sha256 r with
        | Some bytes =>
            if negb (id_ok (cr_item_id r)) || negb (je_links env name)
               || is_some (qu_objects (jb_queue tx) !! name) then (tx, Err "hard_link")
            else
              let tx := with_queue tx (with_objects (jb_queue tx)
                          (<[name := mkObjectFile true true bytes]> (qu_objects (jb_queue tx)))) in
              match insert_item (jb_queue tx)
                      (new_item (cr_item_id r) "backup" (cr_sha256 r) (cr_size_bytes r) now) with
              | None => (tx, Err "insert")
              | Some q => link_chunks (with_queue tx q) env spool now rest
              end
        | None => (tx, Err "hard_link")
        end
  end.

Definition new_job (manifest : BundleManifest) (now : Z) : JobRow :=
  mkJobRow (to_json manifest) (body_sha256 (to_json manifest)) "pending" "register" now 0 now
    None None None None None None.
(** The job, its references and the limits in one transaction. *)
Definition insert_job (tx : JobsState) (manifest : BundleManifest) (now : Z) (limits : QueueLimits)
    (refs : list BundleChunkRef) : JobsState :=
  let q := jb_queue tx in
  mkJobsState (mkQueueState (qu_target q) limits (qu_active q) (qu_archive q) (qu_objects q))
    (<[mf_bundle_id manifest := new_job manifest now]> (jb_jobs tx))
    (<[mf_bundle_id manifest := list_to_map (map (fun r => (cr_sha256 r, r)) refs)]> (jb_refs tx)).

(** The second critical section for a bundle that was not there. *)
Definition publish_job (st : JobsState) (env : BundleEnv) (target : QueueTarget) (limits : QueueLimits)
    (manifest : BundleManifest) (chunks : gmap string Z) (spool : gmap string string)
    (checked : gmap string FileMeta) : JobsState * result BundleJob string :=
  let '(st, opened) := jobs_open st (je_listing env) in
  match (let? _ := opened in assert_target (jb_queue st) target) with
  | Err e => (st, Err e)
  | Ok _ =>
      if is_some (jb_jobs st !! mf_bundle_id manifest) then
        match (let? old := load_same st manifest in
               let? _ := check_reused_snapshots st target (je_stat env) checked true (bj_chunk_items old) in
               Ok old) with
        | Err e => (st, Err e)
        | Ok old => commit_job env st st old
        end
      else
        match (let? refs := admission st chunks limits target (je_randoms env) in
               let? _ := check_reused_snapshots st target (je_stat env) checked false refs in
               Ok refs) with
        | Err e => (st, Err e)
        | Ok refs =>
            let now := Z.min (je_now_ms env) i64_max in
            let '(tx, moved) := link_chunks st env spool now refs in
            match (let? _ := moved in guard (negb (je_synced env)) "sync_directory") with
            | Err e => (rollback st tx, Err e)
            | Ok _ =>
                let tx := insert_job tx manifest now limits refs in
                match load tx (mf_bundle_id manifest) with
                | Err e => (rollback st tx, Err e)
                | Ok job => commit_job env st tx job
                end
            end
        end
  end.

(** [open_readonly] and [assert_target] of [verify_pending_snapshots]. *)
Definition readonly_open (st : JobsState) (target : QueueTarget) : result unit string :=
  let? _ := validate_database (jb_queue st) in
  let? _ := validate_schema st in
  assert_target (jb_queue st) target.

(** The rest of [enqueue_bundle] after its first critical section. *)
Definition enqueue_rest (st : JobsState) (env : BundleEnv) (target : QueueTarget) (limits : QueueLimits)
    (stage : Stage) (manifest : BundleManifest) (already_registered : bool)
    (views : string -> SnapshotView) : JobsState * result BundleJob string :=
  match unique_chunks manifest with
  | Err e => (st, Err e)
  | Ok chunks =>
      if already_registered then
        match (let? _ := readonly_open st target in
               verify_pending_snapshots target views (by_hash chunks)) with
        | Err e => (st, Err e)
        | Ok checked =>
            let '(st, opened) := jobs_open st (je_listing env) in
            (st,
             let? _ := opened in
             let? _ := assert_target (jb_queue st) target in
             let? old := load_same st manifest in
             let? _ := check_reused_snapshots st target (je_stat env) checked true (bj_chunk_items old) in
             Ok old)
        end
      else
        match (let? spool := spool_of stage manifest in
               let? _ := readonly_open st target in
               let? checked := verify_pending_snapshots target views (by_hash chunks) in
               Ok (spool, checked)) with
        | Err e => (st, Err e)
        | Ok (spool, checked) => publish_job st env target limits manifest chunks spool checked
        end
  end.

(** * Leases of jobs *)

Record JobLease := mkJobLease {
  jl_job : BundleJob;
  jl_token : string;
}.

(** Every chunk of the job is archived. *)
Definition uploaded (st : JobsState) (id : string) : bool :=
  forallb (fun kv => is_some (qu_archive (jb_queue st) !! cr_item_id kv.2)) (map_to_list (refs_of st id)).
Definition job_due (st : JobsState) (now : Z) (id : string) (row : JobRow) : bool :=
  String.eqb (jr_state row) "pending" && (jr_next_retry_ms row <=? now)
  && is_none_or (jr_lease_expires_ms row) (fun e => e <=? now) && uploaded st id.
(** ORDER BY created_at_ms, bundle_id LIMIT 1. *)
Definition next_job (st : JobsState) (now : Z) : option (string * JobRow) :=
  min_by_key (fun kv => (jr_created_at_ms kv.2, kv.1))
    (List.filter (fun kv => job_due st now kv.1 kv.2) (map_to_list (jb_jobs st))).

Fixpoint verify_archived (st : JobsState) (target : QueueTarget) (refs : list BundleChunkRef) : result unit string :=
  match refs with
  | [] => Ok tt
  | r :: rest =>
      let? item := ok_or (qu_archive (jb_queue st) !! cr_item_id r) "query" in
      let? _ := verified_item item target in
      verify_archived st target rest
  end.

Definition leased_job (row : JobRow) (attempts next : Z) (token : string) (expires : Z) : JobRow :=
  mkJobRow (jr_manifest_json row) (jr_manifest_sha256 row) (jr_state row) (jr_phase row)
    (jr_created_at_ms row) attempts next (Some "interrupted_or_unconfirmed") (Some token) (Some expires)
    (jr_completed_at_ms row) (jr_manifest_receipt row) (jr_completion row).
Definition job_with_attempts (job : BundleJob) (attempts : Z) : BundleJob :=
  mkBundleJob (bj_bundle_id job) (bj_manifest_sha256 job) (bj_manifest job) (bj_chunk_items job)
    (bj_state job) (bj_phase job) (bj_created_at_ms job) attempts (bj_next_retry_ms job)
    (bj_last_error job) (bj_lease_expires_ms job) (bj_completed_at_ms job) (bj_manifest_receipt job)
    (bj_completion job) (bj_recommended job).

Definition claim_job (st : JobsState) (env : BundleEnv) (target : QueueTarget) (timeout now : Z)
    : JobsState * result (option JobLease) string :=
  let '(st, opened) := jobs_open st (je_listing env) in
  match (let? _ := opened in assert_target (jb_queue st) target) with
  | Err e => (st, Err e)
  | Ok _ =>
      let now := clock now (je_now_ms env) in
      match next_job st now with
      | None => commit_job env st st None
      | Some (id, row) =>
          match (let? job := load st id in
                 let? _ := verify_archived st target (bj_chunk_items job) in
                 Ok job) with
          | Err e => (st, Err e)
          | Ok job =>
              let attempts := sat_add32 (bj_attempts job) 1 in
              match je_randoms env with
              | Some token :: _ =>
                  let next := Z.min (sat_add now (retry_delay attempts)) i64_max in
                  commit_job env st
                    (with_job st id (leased_job row attempts next token (lease_expiry now timeout)))
                    (Some (mkJobLease (job_with_attempts job attempts) token))
              | _ => (st, Err "큐 임대 난수 생성 실패")
              end
          end
      end
  end.

(** The row while the lease is held. *)
Definition owns_job (st : JobsState) (lease : JobLease) (now : Z) : option JobRow :=
  row ← jb_jobs st !! bj_bundle_id (jl_job lease);
  if bool_decide (jr_lease_token row = Some (jl_token lease))
     && is_some_and (jr_lease_expires_ms row) (fun e => now <? e)
  then Some row else None.

Definition response_mismatch (lease : JobLease) (target : QueueTarget) (record : BundleRecord) : bool :=
  negb (bool_decide (bd_manifest record = bj_manifest (jl_job lease)))
  || negb (String.eqb (bd_agent_id record) (qt_agent_id target))
  || (String.eqb (bj_phase (jl_job lease)) "complete" && negb (is_some (bd_completion record))).

Definition advanced_job (row : JobRow) (record : BundleRecord) (now : Z) : JobRow :=
  let completed := is_some (bd_completion record) in
  mkJobRow (jr_manifest_json row) (jr_manifest_sha256 row)
    (if completed then "complete" else "pending") (if completed then "done" else "complete")
    (jr_created_at_ms row) (jr_attempts row) (if completed then 0 else now) None None None
    (if completed then Some now else None) (Some (bd_manifest_receipt record)) (bd_completion record).
Definition released_job (row : JobRow) (next : Z) (code : string) : JobRow :=
  mkJobRow (jr_manifest_json row) (jr_manifest_sha256 row) (jr_state row) (jr_phase row)
    (jr_created_at_ms row) (jr_attempts row) next (Some code) None None
    (jr_completed_at_ms row) (jr_manifest_receipt row) (jr_completion row).

Definition finish_job (st : JobsState) (env : BundleEnv) (target : QueueTarget) (lease : JobLease)
    (outcome : result BundleRecord string) (now : Z) : JobsState * result bool string :=
  let '(st, opened) := jobs_open st (je_listing env) in
  match (let? _ := opened in assert_target (jb_queue st) target) with
  | Err e => (st, Err e)
  | Ok _ =>
      let now := clock now (je_now_ms env) in
      let id := bj_bundle_id (jl_job lease) in
      match owns_job st lease now with
      | None => commit_job env st st false
      | Some row =>
          match outcome with
          | Ok record =>
              match (let? _ := verify_record record (qt_pinned_pubkey target) (qt_key_id target) in
                     guard (response_mismatch lease target record)
                       "번들 작업 응답의 구성 목록/완료 증명 불일치") with
              | Err e => (st, Err e)
              | Ok _ => commit_job env st (with_job st id (advanced_job row record now)) true
              end
          | Err code =>
              let retry := Z.min (sat_add now (retry_delay (bj_attempts (jl_job lease)))) i64_max in
              commit_job env st (with_job st id (released_job row retry code)) true
          end
      end
  end.

(** The middle of [drain_one]: the answer of the server, by its error code. *)
Definition job_result (lease : JobLease) (target : QueueTarget) (answer : result BundleRecord string)
    : result BundleRecord string :=
  match answer with
  | Err code => Err (if String.eqb code "unknown" then "bundle_response_or_state_invalid" else code)
  | Ok record => let? _ := guard (response_mismatch lease target record) "response_integrity" in Ok record
  end.

Record BundleJobOutcome := mkBundleJobOutcome {
  bo_bundle_id : string;
  bo_phase : string;
  bo_completed : bool;
  bo_error : option string;
}.
(** The end of [drain_one]. *)
Definition job_outcome (lease : JobLease) (outcome : result BundleRecord string) (committed : bool)
    : BundleJobOutcome :=
  mkBundleJobOutcome (bj_bundle_id (jl_job lease)) (bj_phase (jl_job lease))
    (committed && match outcome with Ok r => is_some (bd_completion r) | Err _ => false end)
    (if negb committed then Some "lease_expired_or_replaced"
     else match outcome with Err code => Some code | Ok _ => None end).

(** * Inspection *)

Record BundleJobSummary := mkBundleJobSummary {
  bs_bundle_id : string;
  bs_manifest_sha256 : string;
  bs_state : string;
  bs_phase : string;
  bs_chunk_count : Z;
  bs_unique_chunks : Z;
  bs_completed_chunks : Z;
  bs_created_at_ms : Z;
  bs_attempts : Z;
  bs_next_retry_ms : Z;
  bs_last_error : option string;
  bs_lease_expires_ms : option Z;
  bs_completed_at_ms : option Z;
}.
Record BundleJobsStatus := mkBundleJobsStatus {
  js_total : Z;
  js_pending : Z;
  js_complete : Z;
  js_leased : Z;
  js_capacity : Z;
  js_earliest_retry_ms : option Z;
  js_items : list BundleJobSummary;
  js_items_truncated : bool;
}.

Definition completed_chunks (st : JobsState) (id : string) : Z :=
  zlen (List.filter (fun kv => is_some (qu_archive (jb_queue st) !! cr_item_id kv.2)) (map_to_list (refs_of st id))).
Definition job_summary (st : JobsState) (id : string) : result BundleJobSummary string :=
  let? job := load st id in
  Ok (mkBundleJobSummary id (bj_manifest_sha256 job) (bj_state job) (bj_phase job)
        (zlen (mf_chunks (bj_manifest job))) (zlen (bj_chunk_items job)) (completed_chunks st id)
        (bj_created_at_ms job) (bj_attempts job) (bj_next_retry_ms job) (bj_last_error job)
        (bj_lease_expires_ms job) (bj_completed_at_ms job)).
Fixpoint job_summaries (st : JobsState) (ids : list string) : result (list BundleJobSummary) string :=
  match ids with
  | [] => Ok []
  | id :: ids =>
      let? s := job_summary st id in
      let? rest := job_summaries st ids in
      Ok (s :: rest)
  end.

(** ORDER BY created_at_ms DESC, bundle_id DESC LIMIT 100. *)
Definition recent_jobs (st : JobsState) : list string :=
  map fst (take 100 (rev (sort_by (fun kv => (jr_created_at_ms kv.2, kv.1)) (map_to_list (jb_jobs st))))).

(** [status_with_conn] of a current queue. *)
Definition status_with_conn (st : JobsState) (now_ms : Z) : result BundleJobsStatus string :=
  let rows := map snd (map_to_list (jb_jobs st)) in
  let total := zlen rows in
  let in_state s r := String.eqb (jr_state r) s in
  let? items := job_summaries st (recent_jobs st) in
  Ok (mkBundleJobsStatus total
        (zlen (List.filter (in_state "pending") rows)) (zlen (List.filter (in_state "complete") rows))
        (zlen (List.filter (fun r => is_some_and (jr_lease_expires_ms r) (fun e => now_ms <? e)) rows))
        MAX_BUNDLE_JOBS
        (min_by_key (fun x => x) (map (fun r => Z.max (jr_next_retry_ms r) (default 0 (jr_lease_expires_ms r)))
           (List.filter (in_state "pending") rows)))
        items (zlen items <? total)).

Definition bundle_jobs (st : JobsState) (now_ms : Z) : result BundleJobsStatus string :=
  let? _ := validate_database (jb_queue st) in
  let? _ := validate_schema st in
  status_with_conn st now_ms.
Definition bundle_job (st : JobsState) (id : string) : result BundleJob string :=
  let? _ := guard (negb (id_ok id)) "번들 작업 ID는 32자리 소문자 hex입니다" in
  let? _ := validate_database (jb_queue st) in
  let? _ := validate_schema st in
  load st id.

End Jobs.

(** * Requests of several processes in any order *)

Inductive JobOp : Type :=
| QueueRequest (op : QueueOp)
| EnqueueBegin (env : BundleEnv) (target : QueueTarget) (limits : QueueLimits) (max_object_bytes : Z) (stage : Stage)
| EnqueueRest (env : BundleEnv) (target : QueueTarget) (limits : QueueLimits) (stage : Stage)
    (manifest : BundleManifest) (already_registered : bool) (views : string -> SnapshotView)
| ClaimJob (env : BundleEnv) (target : QueueTarget) (timeout now : Z)
| FinishJob (env : BundleEnv) (target : QueueTarget) (lease : JobLease) (outcome : result BundleRecord string) (now : Z).

(** The queue on disk and the leases handed out so far, of items and of jobs. *)
Record JobsWorld := mkJobsWorld {
  jw_state : JobsState;
  jw_leases : list Lease;
  jw_job_leases : list JobLease;
}.
Definition items_of (w : JobsWorld) : QueueWorld := mkQueueWorld (jb_queue (jw_state w)) (jw_leases w).
Definition with_items (w : JobsWorld) (q : QueueWorld) : JobsWorld :=
  mkJobsWorld (with_queue (jw_state w) (qw_queue q)) (qw_leases q) (jw_job_leases w).
Definition with_state (w : JobsWorld) (st : JobsState) : JobsWorld :=
  mkJobsWorld st (jw_leases w) (jw_job_leases w).

Section Histories.
Context `{Crypto : VaultCrypto} `{Json : BundleJson}.

(** A request of the queue opens it like the others: with a damaged job table
    it ends there. *)
Definition jobs_step (w : JobsWorld) (op : JobOp) : JobsWorld :=
  let st := jw_state w in
  match op with
  | QueueRequest op => if is_ok (validate_schema st) then with_items w (queue_step (items_of w) op) else w
  | EnqueueBegin env target limits max stage => with_state w (enqueue_begin st env target limits max stage).1
  | EnqueueRest env target limits stage manifest already views =>
      with_state w (enqueue_rest st env target limits stage manifest already views).1
  | ClaimJob env target timeout now =>
      let '(st, r) := claim_job st env target timeout now in
      mkJobsWorld st (jw_leases w)
        (match r with Ok (Some lease) => lease :: jw_job_leases w | _ => jw_job_leases w end)
  | FinishJob env target lease outcome now => with_state w (finish_job st env target lease outcome now).1
  end.

(** Random IDs do not repeat IDs of the archive; the limits passed the check of
    [read_stage]; a worker finishes its own leases. *)
Definition job_allowed (w : JobsWorld) (op : JobOp) : Prop :=
  match op with
  | QueueRequest op => op_allowed (items_of w) op
  | EnqueueRest env _ limits _ _ _ _ =>
      limits_validate limits = Ok tt
      /\ forall id, Some id ∈ je_randoms env -> qu_archive (jb_queue (jw_state w)) !! id = None
  | FinishJob _ _ lease _ _ => lease ∈ jw_job_leases w
  | _ => True
  end.

Fixpoint jobs_run (w : JobsWorld) (ops : list JobOp) : JobsWorld :=
  match ops with [] => w | op :: ops' => jobs_run (jobs_step w op) ops' end.
Fixpoint jobs_run_allowed (w : JobsWorld) (ops : list JobOp) : Prop :=
  match ops with [] => True | op :: ops' => job_allowed w op /\ jobs_run_allowed (jobs_step w op) ops' end.

(** * The invariant *)

(** The item a reference stands for. *)
Definition ref_item (r : BundleChunkRef) : QueueItem :=
  mkQueueItem (cr_item_id r) "backup" (cr_sha256 r) (cr_size_bytes r) "" 0 0 0 None None None.

Record jobs_ok (st : JobsState) : Prop := {
  jk_queue : queue_ok (jb_queue st);
  jk_load : forall id row, jb_jobs st !! id = Some row -> is_ok (load st id) = true /\ bad_job row = false;
  jk_count : Z.of_nat (size (jb_jobs st)) <= MAX_BUNDLE_JOBS;
  jk_refs : forall id refs, jb_refs st !! id = Some refs ->
    is_Some (jb_jobs st !! id)
    /\ forall h r, refs !! h = Some r -> cr_sha256 r = h /\ present (jb_queue st) (ref_item r);
  jk_complete : forall id row, jb_jobs st !! id = Some row -> jr_state row = "complete" -> uploaded st id = true;
}.

(** A lease handed out is of a job that is there, with its manifest, and whose
    chunks are archived. *)
Definition job_leases_ok (w : JobsWorld) : Prop :=
  forall lease, lease ∈ jw_job_leases w ->
    let id := bj_bundle_id (jl_job lease) in
    uploaded (jw_state w) id = true
    /\ exists row, jb_jobs (jw_state w) !! id = Some row
         /\ of_json (jr_manifest_json row) = Some (bj_manifest (jl_job lease)).

Definition jobs_world_ok (w : JobsWorld) : Prop :=
  jobs_ok (jw_state w) /\ leases_ok (items_of w) /\ job_leases_ok w.

Lemma load_Ok st id job :
  load st id = Ok job <->
  exists row manifest, jb_jobs st !! id = Some row /\ of_json (jr_manifest_json row) = Some manifest
    /\ job = decode_job id row manifest (sorted_refs (refs_of st id))
    /\ job_proof job (qu_target (jb_queue st)) = Ok tt.
Proof.
  unfold load. rewrite ok_or_bind_Ok. split.
  - intros (row & Hrow & Hl). apply ok_or_bind_Ok in Hl as (m & Hm & Hl).
    apply res_bind_Ok in Hl as ([] & Hp & [= <-]). by exists row, m.
  - intros (row & m & Hrow & Hm & -> & Hp). exists row. split; [done|]. rewrite Hm. cbn. by rewrite Hp.
Qed.

(** What [load] looks at. *)
Definition same_claims (a b : JobRow) : Prop :=
  jr_manifest_json a = jr_manifest_json b /\ jr_manifest_sha256 a = jr_manifest_sha256 b
  /\ jr_state a = jr_state b /\ jr_phase a = jr_phase b
  /\ jr_manifest_receipt a = jr_manifest_receipt b /\ jr_completion a = jr_completion b.

Lemma load_ext st st' id row row' :
  qu_target (jb_queue st') = qu_target (jb_queue st) -> refs_of st' id = refs_of st id ->
  jb_jobs st !! id = Some row -> jb_jobs st' !! id = Some row' -> same_claims row row' ->
  is_ok (load st id) = true -> is_ok (load st' id) = true.
Proof.
  intros Ht Hr Hrow Hrow' (E1 & E2 & E3 & E4 & E5 & E6). unfold load. rewrite Hrow, Hrow'. cbn [ok_or res_bind].
  rewrite Ht, Hr, <- E1. destruct (of_json _) as [m|]; [|done]. cbn [ok_or res_bind].
  assert (E : job_proof (decode_job id row' m (sorted_refs (refs_of st id))) (qu_target (jb_queue st))
    = job_proof (decode_job id row m (sorted_refs (refs_of st id))) (qu_target (jb_queue st))).
  { unfold job_proof, job_record, decode_job. cbn. by rewrite E2, E3, E4, E5, E6. }
  rewrite E. set (proved := job_proof _ _). by destruct proved.
Qed.

(** What changes of the queue alone keep. *)
Lemma load_with_queue st q id :
  qu_target q = qu_target (jb_queue st) -> load (with_queue st q) id = load st id.
Proof. intros Ht. unfold load, with_queue, refs_of. cbn. by rewrite Ht. Qed.

Lemma uploaded_mono st st' id :
  refs_of st' id = refs_of st id ->
  (forall i, is_Some (qu_archive (jb_queue st) !! i) -> is_Some (qu_archive (jb_queue st') !! i)) ->
  uploaded st id = true -> uploaded st' id = true.
Proof.
  intros Hr Ha. unfold uploaded. rewrite Hr, !forallb_forall. intros Hup kv Hin.
  specialize (Hup kv Hin). destruct (qu_archive (jb_queue st) !! _) eqn:E; [|done].
  destruct (Ha _ (ex_intro _ _ E)) as [it' ->]. done.
Qed.

Lemma uploaded_iff st id :
  uploaded st id = true <->
  forall h r, refs_of st id !! h = Some r -> is_Some (qu_archive (jb_queue st) !! cr_item_id r).
Proof.
  unfold uploaded. rewrite forallb_forall. split.
  - intros Hup h r Hr. specialize (Hup (h, r)). cbn in Hup.
    destruct (qu_archive _ !! _); [by eexists|]. exfalso. cut (false = true); [done|]. apply Hup.
    by apply list_elem_of_In, elem_of_map_to_list.
  - intros Hall [h r] Hin%list_elem_of_In%elem_of_map_to_list. cbn. by destruct (Hall h r Hin) as [it ->].
Qed.

(** The queue moved on: every item is still there, what was archived stays. *)
Record queue_grows (q q' : QueueState) : Prop := {
  qg_target : qu_target q' = qu_target q;
  qg_present : forall it, present q it -> present q' it;
  qg_archive : forall id, is_Some (qu_archive q !! id) -> is_Some (qu_archive q' !! id);
}.

Lemma queue_grows_refl q : queue_grows q q.
Proof. by split. Qed.
Lemma queue_grows_trans a b c : queue_grows a b -> queue_grows b c -> queue_grows a c.
Proof. intros [? ? ?] [? ? ?]. split; [congruence|auto..]. Qed.

Lemma jobs_ok_queue st q :
  jobs_ok st -> queue_ok q -> queue_grows (jb_queue st) q -> jobs_ok (with_queue st q).
Proof.
  intros [Hq Hl Hc Hr Hd] Hq' [Ht Hp Ha]. split; cbn; [done| |done| |].
  - intros id row Hrow. rewrite load_with_queue by done. by apply Hl.
  - intros id refs Hrefs. destruct (Hr id refs Hrefs) as [Hj Hrs]. split; [done|].
    intros h r Hh. destruct (Hrs h r Hh). split; [done|by apply Hp].
  - intros id row Hrow Hs. apply (uploaded_mono st); [done|done|]. by apply (Hd id row).
Qed.

Lemma swept_grows q q' : swept q q' -> queue_grows q q'.
Proof.
  intros [(Ht & _ & Ha & Hr) _]. split; [done| |by rewrite Hr].
  intros it. unfold present. by rewrite Ha, Hr.
Qed.

Lemma jobs_open_swept st listing st' r :
  jobs_open st listing = (st', r) -> exists q, st' = with_queue st q /\ swept (jb_queue st) q.
Proof.
  assert (Hid : st = with_queue st (jb_queue st)) by (by destruct st).
  unfold jobs_open. destruct (res_bind _ _); [|intros [= <- <-]; eauto using swept_refl].
  destruct (cleanup (jb_queue st) listing) as [q r'] eqn:Hc. intros [= <- <-]. exists q. split; [done|].
  revert Hc. unfold cleanup. repeat case_match; try (intros [= <- <-]; apply swept_refl).
  by apply sweep_swept.
Qed.

Lemma jobs_open_ok st listing st' r :
  jobs_ok st -> jobs_open st listing = (st', r) ->
  jobs_ok st' /\ queue_grows (jb_queue st) (jb_queue st')
  /\ jb_jobs st' = jb_jobs st /\ jb_refs st' = jb_refs st
  /\ qu_active (jb_queue st') = qu_active (jb_queue st).
Proof.
  intros Hok (q & -> & Hs)%jobs_open_swept. pose proof (swept_grows _ _ Hs) as Hg.
  split; [|split_and!; try done; apply Hs].
  apply jobs_ok_queue; [done| |done]. eapply swept_ok; [done|apply Hok].
Qed.

(** A queue request. *)
Lemma step_archive w op id :
  world_ok w -> op_allowed w op ->
  is_Some (qu_archive (qw_queue w) !! id) -> is_Some (qu_archive (qw_queue (queue_step w op)) !! id).
Proof.
  intros [Hok Hls] Hop Hid.
  destruct op as [env target max source kind limits|env target timeout now|env target lease outcome now]; cbn.
  - destruct (enqueue _ _ _ _ _ _ _) as [st' r] eqn:He. apply enqueue_spec in He as (_ & Hen & _); [|done..].
    cbn. by rewrite (en_archive _ _ Hen).
  - destruct (claim _ _ _ _ _) as [st' r] eqn:Hc. apply claim_cases in Hc. cbn.
    by destruct Hc as [st1 r' [(_ & _ & _ & Er) _] _|st1 id' row token r' [(_ & _ & _ & Er) _] _ _ _]; cbn; rewrite Er.
  - destruct (finish _ _ _ _ _ _) as [st' r] eqn:Hf. apply finish_cases in Hf. cbn.
    destruct Hf as [st1 r' [(_ & _ & _ & Er) _] _|st1 row code r' [(_ & _ & _ & Er) _] _ _ _
                   |st1 row receipt archive objects r' [(_ & _ & _ & Er) _] _ _ _ _ Ha _ _ _]; cbn; rewrite ?Er; [done..|].
    unfold insert_archive in Ha. destruct (_ || _); [done|]. injection Ha as <-. rewrite Er.
    apply lookup_insert_is_Some'. by right.
Qed.

Lemma queue_step_grows w op : world_ok w -> op_allowed w op -> queue_grows (qw_queue w) (qw_queue (queue_step w op)).
Proof.
  intros Hw Hop. split; [apply (run_target w [op])|intros it; by apply step_present|intros id; by apply step_archive].
Qed.

Lemma enqueued_grows q q' : enqueued q q' -> queue_grows q q'.
Proof.
  intros [Ht Ha Ho _]. split; [done| |by rewrite Ha].
  intros it [(row & Hid & Hs)|Hin]; [left; exists row; by split; [apply Ho|]|right; by rewrite Ha].
Qed.
Lemma enqueued_trans a b c : enqueued a b -> enqueued b c -> enqueued a c.
Proof.
  intros [Et Ea Eo En] [Et' Ea' Eo' En']. split; [congruence|congruence|auto|].
  intros id row Hrow. destruct (En' _ _ Hrow) as [Hb|[Hn Hl]]; [by apply En|]. right. split; [|done].
  destruct (qu_active a !! id) eqn:E; [|done]. by rewrite (Eo _ _ E) in Hn.
Qed.

Lemma enqueued_leases q q' leases :
  enqueued q q' -> leases_ok (mkQueueWorld q leases) -> leases_ok (mkQueueWorld q' leases).
Proof.
  intros Hen Hl lease row Hin Hid Htok. cbn in *.
  destruct (en_new _ _ Hen _ _ Hid) as [Hold|[_ Hnone]]; [by apply (Hl lease)|congruence].
Qed.

(** * Linking the chunks *)

(** Snapshots are only added. *)
Definition objects_kept (q q' : QueueState) : Prop :=
  forall name f, qu_objects q !! name = Some f -> qu_objects q' !! name = Some f.

Lemma more_objects_ok q objects :
  queue_ok q -> (forall name f, qu_objects q !! name = Some f -> objects !! name = Some f) ->
  queue_ok (with_objects q objects).
Proof.
  intros [Hact Harc Hau Hru Hdis Hlim Hcnt Htot] Hk. split; try done.
  intros id row Hid. destruct (Hact id row Hid) as [Hi ? ? ? (f & Hf & ?)]. split; try done.
  exists f. split; [by apply Hk|done].
Qed.

Lemma find_object_mono q q' kind hash :
  enqueued q q' -> find_object q' kind hash = None -> find_object q kind hash = None.
Proof.
  intros Hen. rewrite !find_object_None. intros [Ha Hr]. split.
  - intros id row Hid. eapply Ha. by apply (en_old _ _ Hen).
  - intros id it Hid. apply (Hr id). by rewrite (en_archive _ _ Hen).
Qed.

Definition missing (tx : JobsState) (refs : list BundleChunkRef) : Z :=
  zlen (List.filter (fun r => negb (is_some (lookup_chunk tx (cr_sha256 r)))) refs).

Lemma missing_mono tx tx' refs :
  enqueued (jb_queue tx) (jb_queue tx') -> missing tx' refs <= missing tx refs.
Proof.
  intros Hen. unfold missing. induction refs as [|r refs IH]; [done|]. cbn [List.filter].
  unfold lookup_chunk in *. destruct (find_object (jb_queue tx') "backup" (cr_sha256 r)) eqn:E'; cbn [is_some negb].
  - destruct (find_object (jb_queue tx) "backup" (cr_sha256 r)); cbn [is_some negb]; rewrite ?zlen_cons; lia.
  - rewrite (find_object_mono _ _ _ _ Hen E'). cbn [is_some negb]. rewrite !zlen_cons. lia.
Qed.

(** What the spool holds: the bytes of each hash, of the size of its reference. *)
Definition spool_good (spool : gmap string string) (refs : list BundleChunkRef) : Prop :=
  forall r bytes, r ∈ refs -> spool !! cr_sha256 r = Some bytes ->
    body_sha256 bytes = cr_sha256 r /\ slen bytes = cr_size_bytes r.

Record linking (st tx : JobsState) : Prop := {
  lk_queue : queue_ok (jb_queue tx);
  lk_enqueued : enqueued (jb_queue st) (jb_queue tx);
  lk_objects : objects_kept (jb_queue st) (jb_queue tx);
  lk_rest : jb_jobs tx = jb_jobs st /\ jb_refs tx = jb_refs st /\ qu_limits (jb_queue tx) = qu_limits (jb_queue st);
}.
Lemma linking_refl st : queue_ok (jb_queue st) -> linking st st.
Proof. intros H. split; [done|apply enqueued_refl|by intros ??|done]. Qed.
Lemma linking_trans a b c : linking a b -> linking b c -> linking a c.
Proof.
  intros [Q1 E1 O1 (J1 & R1 & L1)] [Q2 E2 O2 (J2 & R2 & L2)]. split; [done|by eapply enqueued_trans| |].
  - intros name f Hf. by apply O2, O1.
  - split_and!; congruence.
Qed.

(** One chunk. *)
Lemma link_one tx r bytes now q :
  queue_ok (jb_queue tx) -> lookup_chunk tx (cr_sha256 r) = None ->
  body_sha256 bytes = cr_sha256 r -> slen bytes = cr_size_bytes r ->
  id_ok (cr_item_id r) = true -> qu_objects (jb_queue tx) !! snapshot_name (cr_item_id r) = None ->
  qu_archive (jb_queue tx) !! cr_item_id r = None ->
  Z.of_nat (size (qu_active (jb_queue tx))) < MAX_ITEMS ->
  Z.of_nat (size (qu_archive (jb_queue tx))) + Z.of_nat (size (qu_active (jb_queue tx))) < MAX_ARCHIVE_ITEMS ->
  let q1 := with_objects (jb_queue tx) (<[snapshot_name (cr_item_id r) := mkObjectFile true true bytes]>
              (qu_objects (jb_queue tx))) in
  linking tx (with_queue tx q1)
  /\ (insert_item q1 (new_item (cr_item_id r) "backup" (cr_sha256 r) (cr_size_bytes r) now) = Some q ->
      linking tx (with_queue tx q) /\ present q (ref_item r)
      /\ size (qu_active q) = S (size (qu_active (jb_queue tx)))
      /\ forall h, h <> cr_sha256 r -> lookup_chunk tx h = None -> lookup_chunk (with_queue tx q) h = None).
Proof.
  intros Hok Hlk Hb Hsz Hid Hobj Harc Hc Ht q1.
  assert (Hq1 : queue_ok q1) by (by apply new_snapshot_ok).
  assert (Hkept : objects_kept (jb_queue tx) q1).
  { intros name f Hf. cbn. rewrite lookup_insert_ne; [done|congruence]. }
  split; [by split; [|split; auto| |]|].
  intros (Hna & ->)%insert_item_Some. cbn [qi_id new_item] in *.
  set (row := mkActiveRow _ None None) in *.
  assert (Hq2 : queue_ok (with_tables q1 (<[cr_item_id r := row]> (qu_active q1)) (qu_archive q1))).
  { apply (insert_row_ok q1 (qu_limits q1) (cr_item_id r) row); try done.
    - subst row. rewrite <- Hb, <- Hsz. apply new_item_ok; [done|done|]. cbn. by rewrite lookup_insert_eq.
    - apply Hq1. }
  split; [|split; [|split]].
  - split; [done| |done|done]. split; cbn; [done|done| |].
    + intros i row' Hi. rewrite lookup_insert_ne; [done|]. intros <-. cbn in Hna. congruence.
    + intros i row' [[<- <-]|[_ Hi]]%lookup_insert_Some; auto.
  - left. exists row. cbn. rewrite lookup_insert_eq. by repeat split.
  - cbn. by rewrite map_size_insert_None.
  - intros h Hne. unfold lookup_chunk. rewrite !find_object_None. intros [Ha Hr]. split; [|done].
    intros i row'. cbn. intros [[<- <-]|[_ Hi]]%lookup_insert_Some; [|by eapply Ha].
    unfold object_key. cbn. by apply String.eqb_neq.
Qed.

Lemma link_chunks_linking tx env spool now refs tx' res :
  queue_ok (jb_queue tx) -> spool_good spool refs -> NoDup (map cr_sha256 refs) ->
  (forall r, r ∈ refs -> lookup_chunk tx (cr_sha256 r) = None -> qu_archive (jb_queue tx) !! cr_item_id r = None) ->
  Z.of_nat (size (qu_active (jb_queue tx))) + missing tx refs <= MAX_ITEMS ->
  Z.of_nat (size (qu_archive (jb_queue tx))) + Z.of_nat (size (qu_active (jb_queue tx))) + missing tx refs
    <= MAX_ARCHIVE_ITEMS ->
  link_chunks tx env spool now refs = (tx', res) ->
  linking tx tx'
  /\ (res = Ok tt -> forall r, r ∈ refs -> lookup_chunk tx (cr_sha256 r) = None -> present (jb_queue tx') (ref_item r)).
Proof.
  revert tx. induction refs as [|r refs IH]; intros tx Hok Hsp Hnd Hfresh Hc Ht.
  { intros [= <- <-]. split; [by apply linking_refl|]. intros _ r Hr. by apply elem_of_nil in Hr. }
  cbn [map] in Hnd. apply NoDup_cons in Hnd as [Hnot Hnd].
  assert (Hspr : spool_good spool refs) by (intros r' b Hr'; apply Hsp; by right).
  cbn [link_chunks]. destruct (lookup_chunk tx (cr_sha256 r)) as [it|] eqn:Hl; cbn [is_some].
  { assert (Em : missing tx (r :: refs) = missing tx refs)
      by (unfold missing; cbn [List.filter]; by rewrite Hl).
    rewrite Em in Hc, Ht. intros Hlink. destruct (IH tx Hok Hspr Hnd) as [Hk Hp]; try done.
    { intros r' Hr'. apply Hfresh. by right. }
    split; [done|]. intros -> r' [->|Hr']%elem_of_cons Hn; [congruence|by apply Hp]. }
  assert (Em : missing tx (r :: refs) = 1 + missing tx refs).
  { unfold missing; cbn [List.filter]. rewrite Hl. cbn [is_some negb]. by rewrite zlen_cons. }
  pose proof (zlen_nonneg (List.filter (fun r => negb (is_some (lookup_chunk tx (cr_sha256 r)))) refs)) as Hpos.
  fold (missing tx refs) in Hpos.
  destruct (spool !! cr_sha256 r) as [bytes|] eqn:Hb;
    [|intros [= <- <-]; split; [by apply linking_refl|done]].
  destruct (_ || _) eqn:Hbad; [intros [= <- <-]; split; [by apply linking_refl|done]|].
  split_bools. destruct (Hsp r bytes) as [Hh Hsz]; [by left|done|].
  destruct (qu_objects (jb_queue tx) !! snapshot_name (cr_item_id r)) eqn:Hobj; [done|].
  pose proof (fun q => link_one tx r bytes now q Hok Hl Hh Hsz) as Hone.
  destruct (insert_item _ _) as [q|] eqn:Hins; cycle 1.
  { intros [= <- <-]. split; [|done]. apply (Hone (jb_queue tx)); try done; try lia. apply Hfresh; [by left|done]. }
  cbn [jb_queue with_queue] in Hins.
  destruct (Hone q) as [_ Htwo]; try done; try lia. { apply Hfresh; [by left|done]. }
  destruct (Htwo Hins) as (Hk1 & Hpr & Hsize & Hother). clear Hone Htwo.
  pose proof (missing_mono tx (with_queue tx q) refs (lk_enqueued _ _ Hk1)) as Hm.
  assert (Earc : qu_archive q = qu_archive (jb_queue tx)) by apply (en_archive _ _ (lk_enqueued _ _ Hk1)).
  assert (Hne : forall r', r' ∈ refs -> cr_sha256 r' <> cr_sha256 r).
  { intros r' Hr' E. apply Hnot. rewrite <- E. by apply list_elem_of_fmap_2. }
  intros Hlink.
  assert (Hfresh' : forall r', r' ∈ refs -> lookup_chunk (with_queue tx q) (cr_sha256 r') = None ->
            qu_archive q !! cr_item_id r' = None).
  { intros r' Hr' Hn. rewrite Earc. apply Hfresh; [by right|].
    by apply (find_object_mono _ _ _ _ (lk_enqueued _ _ Hk1)). }
  destruct (IH (with_queue tx q) (lk_queue _ _ Hk1) Hspr Hnd Hfresh') as [Hk Hp];
    [cbn [jb_queue with_queue]; lia|cbn [jb_queue with_queue]; rewrite Earc; lia|done|].
  split; [by eapply linking_trans|]. intros -> r' [->|Hr']%elem_of_cons Hn.
  - by apply (enqueued_grows _ _ (lk_enqueued _ _ Hk)).
  - apply Hp; [done|done|]. apply Hother; [by apply Hne|done].
Qed.

(** * Publishing a job *)

Definition ref_entry (r : BundleChunkRef) : string * Z := (cr_sha256 r, cr_size_bytes r).

Lemma admit_chunks_spec st target randoms added extra acc chunks refs added' extra' :
  admit_chunks st target randoms added extra acc chunks = Ok (refs, added', extra') ->
  exists new, refs = acc ++ new /\ map ref_entry new = chunks /\ added' = added + missing st new
    /\ forall r, r ∈ new -> match lookup_chunk st (cr_sha256 r) with
         | Some it => qi_id it = cr_item_id r /\ qi_size_bytes it = cr_size_bytes r
         | None => Some (cr_item_id r) ∈ randoms
         end.
Proof.
  revert randoms added extra acc. induction chunks as [|[hash size] chunks IH]; intros randoms added extra acc.
  { cbn. intros [= <- <- <-]. exists []. rewrite app_nil_r. split_and!; [done|done|unfold missing, zlen; cbn; lia|].
    intros r Hr. by apply elem_of_nil in Hr. }
  cbn [admit_chunks]. destruct (lookup_chunk st hash) as [it|] eqn:Hl.
  - intros (Hsz & Hrest)%guard_bind_Ok. apply res_bind_Ok in Hrest as ([] & _ & Hrest).
    apply IH in Hrest as (new & -> & Hmap & -> & Hnew). exists (mkBundleChunkRef (qi_id it) hash size :: new).
    rewrite <- app_assoc. split_and!; [done|cbn; by rewrite Hmap|unfold missing; cbn; by rewrite Hl|].
    intros r [->|Hr]%elem_of_cons; [|by apply Hnew]. cbn. rewrite Hl. split; [done|].
    by apply negb_false_iff, Z.eqb_eq in Hsz.
  - intros (extra1 & _ & Hrest)%ok_or_bind_Ok. destruct randoms as [|[id|] randoms]; try done.
    apply IH in Hrest as (new & -> & Hmap & -> & Hnew). exists (mkBundleChunkRef id hash size :: new).
    rewrite <- app_assoc. split_and!; [done|cbn; by rewrite Hmap| |].
    { unfold missing; cbn. rewrite Hl; cbn. rewrite zlen_cons. lia. }
    intros r [->|Hr]%elem_of_cons; [cbn; rewrite Hl; by left|]. specialize (Hnew r Hr).
    destruct (lookup_chunk st (cr_sha256 r)); [done|]. by right.
Qed.

Lemma by_hash_elem chunks h z : (h, z) ∈ by_hash chunks <-> chunks !! h = Some z.
Proof. unfold by_hash. by rewrite sort_by_perm, elem_of_map_to_list. Qed.
Lemma by_hash_nodup chunks : NoDup (map fst (by_hash chunks)).
Proof.
  unfold by_hash. assert (Hp : map fst (sort_by fst (map_to_list chunks)) ≡ₚ map fst (map_to_list chunks))
    by (by rewrite sort_by_perm). rewrite Hp. apply NoDup_fst_map_to_list.
Qed.

(** What admission promises about its references. *)
Record admitted (st : JobsState) (chunks : gmap string Z) (randoms : list (option string))
    (refs : list BundleChunkRef) : Prop := {
  ad_entries : map ref_entry refs = by_hash chunks;
  ad_jobs : Z.of_nat (size (jb_jobs st)) < MAX_BUNDLE_JOBS;
  ad_items : Z.of_nat (size (qu_active (jb_queue st))) + missing st refs <= MAX_ITEMS;
  ad_archive : Z.of_nat (size (qu_archive (jb_queue st))) + Z.of_nat (size (qu_active (jb_queue st)))
                 + missing st refs <= MAX_ARCHIVE_ITEMS;
  ad_ids : forall r, r ∈ refs -> match lookup_chunk st (cr_sha256 r) with
             | Some it => qi_id it = cr_item_id r /\ qi_size_bytes it = cr_size_bytes r
             | None => Some (cr_item_id r) ∈ randoms
             end;
}.
Lemma admission_spec st chunks limits target randoms refs :
  limits_validate limits = Ok tt -> admission st chunks limits target randoms = Ok refs ->
  admitted st chunks randoms refs.
Proof.
  intros Hlim. unfold admission. intros (Hj & Ha)%guard_bind_Ok.
  apply res_bind_Ok in Ha as ([[refs' added] extra] & Ha & Hrest).
  apply guard_bind_Ok in Hrest as [Hroom [= <-]].
  apply admit_chunks_spec in Ha as (new & -> & Hmap & -> & Hnew). cbn [app] in *.
  unfold limits_validate in Hlim. apply guard_Ok in Hlim. split_bools.
  assert (Hmin : forall x y, Z.min x u64_max <= y -> y <= 100000 -> x <= y) by (unfold u64_max; lia).
  unfold sat_add in *. pose proof (Hmin _ _ H ltac:(unfold MAX_ITEMS in *; lia)) as Hitems.
  pose proof (Hmin _ _ H0 ltac:(done)) as Harch. split; [done|done|lia| |done].
  destruct (Z.min_spec (Z.of_nat (size (qu_active (jb_queue st))) + Z.of_nat (size (qu_archive (jb_queue st)))) u64_max)
    as [[_ E]|[_ E]]; rewrite E in Harch; [lia|].
  pose proof (zlen_nonneg (List.filter (fun r => negb (is_some (lookup_chunk st (cr_sha256 r)))) new)) as Hp.
  fold (missing st new) in Hp. unfold u64_max, MAX_ARCHIVE_ITEMS in *. lia.
Qed.
Lemma admitted_nodup st chunks randoms refs : admitted st chunks randoms refs -> NoDup (map cr_sha256 refs).
Proof.
  intros Ha. replace (map cr_sha256 refs) with (map fst (map ref_entry refs)) by (by rewrite map_map).
  rewrite (ad_entries _ _ _ _ Ha). apply by_hash_nodup.
Qed.
Lemma admitted_size st chunks randoms refs r :
  admitted st chunks randoms refs -> r ∈ refs -> chunks !! cr_sha256 r = Some (cr_size_bytes r).
Proof.
  intros Ha Hr. apply by_hash_elem. rewrite <- (ad_entries _ _ _ _ Ha). by apply (list_elem_of_fmap_2 ref_entry).
Qed.

Lemma collect_chunks_spec refs chunks refs' :
  collect_chunks refs chunks = Ok refs' ->
  (forall h z, refs !! h = Some z -> refs' !! h = Some z)
  /\ (forall c, c ∈ chunks -> refs' !! ch_sha256 c = Some (ch_size_bytes c))
  /\ (forall h z, refs' !! h = Some z -> refs !! h = Some z \/ exists c, c ∈ chunks /\ ch_sha256 c = h).
Proof.
  revert refs. induction chunks as [|c chunks IH]; intros refs; cbn [collect_chunks].
  { intros [= <-]. split_and!; [done|intros c Hc; by apply elem_of_nil in Hc|auto]. }
  intros (Hsame & Hrest)%guard_bind_Ok. destruct (IH _ Hrest) as (Hold & Hin & Hnew).
  assert (Hc : refs' !! ch_sha256 c = Some (ch_size_bytes c)) by (apply Hold; by rewrite lookup_insert_eq).
  split_and!.
  - intros h z Hh. destruct (decide (h = ch_sha256 c)) as [->|Hne].
    + rewrite Hh in Hsame. cbn in Hsame. apply negb_false_iff, Z.eqb_eq in Hsame. by rewrite Hc, Hsame.
    + apply Hold. by rewrite lookup_insert_ne.
  - intros c' [->|Hc']%elem_of_cons; [done|by apply Hin].
  - intros h z Hh. destruct (Hnew h z Hh) as [Hi|(c' & Hc' & E)].
    + apply lookup_insert_Some in Hi as [[<- <-]|[_ Hi]]; [|by left]. right. exists c. split; [by left|done].
    + right. exists c'. split; [by right|done].
Qed.

Lemma unique_chunks_spec manifest chunks :
  unique_chunks manifest = Ok chunks ->
  validate manifest = Ok tt
  /\ (forall c, c ∈ mf_chunks manifest -> chunks !! ch_sha256 c = Some (ch_size_bytes c))
  /\ (forall h z, chunks !! h = Some z -> exists c, c ∈ mf_chunks manifest /\ ch_sha256 c = h).
Proof.
  unfold unique_chunks. intros ([] & Hv & Hc)%res_bind_Ok. apply collect_chunks_spec in Hc as (_ & Hin & Hnew).
  split_and!; [done|done|]. intros h z Hh. destruct (Hnew h z Hh) as [He|He]; [by rewrite lookup_empty in He|done].
Qed.

Lemma read_spool_spec stage spool full chunks spool' full' :
  read_spool stage spool full chunks = Ok (spool', full') ->
  forall h bytes, spool' !! h = Some bytes ->
    spool !! h = Some bytes
    \/ (body_sha256 bytes = h /\ exists c, c ∈ chunks /\ ch_sha256 c = h /\ ch_size_bytes c = slen bytes).
Proof.
  revert spool full. induction chunks as [|c chunks IH]; intros spool full; cbn [read_spool].
  { intros [= <- <-]. auto. }
  intros (read & Hread & Hr)%ok_or_bind_Ok h bytes Hh. apply guard_bind_Ok in Hr as [Hgood Hr]. split_bools.
  repeat match goal with H : String.eqb _ _ = true |- _ => apply String.eqb_eq in H end.
  destruct (IH _ _ Hr h bytes Hh) as [Hi|(Hb & c' & Hc' & E)].
  - apply lookup_insert_Some in Hi as [[<- <-]|[_ Hi]]; [right|by left].
    split; [done|]. exists c. split_and!; [by left|done|lia].
  - right. split; [done|]. exists c'. split; [by right|done].
Qed.

Lemma spool_of_good stage manifest chunks spool refs :
  unique_chunks manifest = Ok chunks -> spool_of stage manifest = Ok spool ->
  (forall r, r ∈ refs -> chunks !! cr_sha256 r = Some (cr_size_bytes r)) -> spool_good spool refs.
Proof.
  intros (_ & Hin & _)%unique_chunks_spec Hs Hrefs r bytes Hr Hb.
  unfold spool_of in Hs. apply res_bind_Ok in Hs as ([sp full] & Hs & Hf). apply guard_bind_Ok in Hf as [_ [= <-]].
  destruct (read_spool_spec _ _ _ _ _ _ Hs _ _ Hb) as [He|(Hh & c & Hc & E & Hz)]; [by rewrite lookup_empty in He|].
  split; [done|]. specialize (Hin c Hc). rewrite E, (Hrefs r Hr) in Hin. injection Hin as ->. done.
Qed.

Lemma char_count_le s : char_count s <= slen s.
Proof. unfold slen. induction s as [|c s IH]; cbn; [done|]. destruct (is_continuation c); lia. Qed.

Lemma new_job_good manifest now : validate manifest = Ok tt -> bad_job (new_job manifest now) = false.
Proof.
  unfold validate. intros (Hs & _)%guard_bind_Ok. unfold bad_shape in Hs. split_bools.
  unfold bad_job. cbn -[Z.ltb]. rewrite !orb_false_r. apply Z.ltb_ge.
  pose proof (char_count_le (to_json manifest)). unfold MAX_MANIFEST_BYTES in *. lia.
Qed.

Lemma with_limits_ok q limits :
  queue_ok q -> limits_validate limits = Ok tt ->
  queue_ok (mkQueueState (qu_target q) limits (qu_active q) (qu_archive q) (qu_objects q)).
Proof. intros [Hact ? ? ? ? ? ? ?] Hl. split; try done. intros id row Hid. by destruct (Hact id row Hid). Qed.

Lemma insert_job_ok st tx manifest now limits refs :
  jobs_ok st -> linking st tx -> validate manifest = Ok tt -> limits_validate limits = Ok tt ->
  jb_jobs st !! mf_bundle_id manifest = None -> Z.of_nat (size (jb_jobs st)) < MAX_BUNDLE_JOBS ->
  (forall r, r ∈ refs -> present (jb_queue tx) (ref_item r)) ->
  is_ok (load (insert_job tx manifest now limits refs) (mf_bundle_id manifest)) = true ->
  jobs_ok (insert_job tx manifest now limits refs).
Proof.
  intros Hok [Hq Hen _ (Ej & Er & _)] Hv Hl Hnone Hcount Hpr Hload.
  pose proof (enqueued_grows _ _ Hen) as Hg. split; cbn.
  - by apply with_limits_ok.
  - intros id row. rewrite Ej. intros [[<- <-]|[Hne Hid]]%lookup_insert_Some; [split; [done|by apply new_job_good]|].
    destruct (jk_load _ Hok _ _ Hid) as [Hlo Hb]. split; [|done].
    apply (load_ext st _ id row row); try done; [apply Hg| |cbn; by rewrite Ej, lookup_insert_ne].
    unfold refs_of. cbn. by rewrite Er, lookup_insert_ne.
  - rewrite Ej, map_size_insert_None by done. lia.
  - intros id rs. rewrite Er, Ej. intros [[<- <-]|[Hne Hid]]%lookup_insert_Some.
    + split; [rewrite lookup_insert_eq; by eexists|]. intros h r Hr.
      apply elem_of_list_to_map_2, list_elem_of_fmap in Hr as (r' & [= -> ->] & Hr'). split; [done|by apply Hpr].
    + destruct (jk_refs _ Hok _ _ Hid) as [Hj Hrs]. split; [by rewrite lookup_insert_ne|].
      intros h r Hr. destruct (Hrs h r Hr). split; [done|by apply Hg].
  - intros id row. rewrite Ej. intros [[<- <-]|[Hne Hid]]%lookup_insert_Some Hs; [done|].
    apply (uploaded_mono st); [unfold refs_of; cbn; by rewrite Er, lookup_insert_ne|apply Hg|].
    by apply (jk_complete _ Hok id row).
Qed.

Lemma rollback_ok st tx :
  jobs_ok st -> objects_kept (jb_queue st) (jb_queue tx) -> jobs_ok (rollback st tx).
Proof. intros Hok Hk. apply jobs_ok_queue; [done|apply more_objects_ok; [apply Hok|done]|by split]. Qed.

Lemma rollback_refl st : rollback st st = st.
Proof. destruct st as [[] ? ?]. done. Qed.

(** What may happen to the tables of a request that starts at [st]. *)
Record jobs_moved (st st' : JobsState) : Prop := {
  jm_ok : jobs_ok st';
  jm_queue : enqueued (jb_queue st) (jb_queue st');
  jm_jobs : forall id row, jb_jobs st !! id = Some row -> jb_jobs st' !! id = Some row;
  jm_refs : forall id row, jb_jobs st !! id = Some row -> refs_of st' id = refs_of st id;
}.
Lemma jobs_moved_refl st : jobs_ok st -> jobs_moved st st.
Proof. intros H. split; [done|apply enqueued_refl|done|done]. Qed.
Lemma jobs_moved_trans a b c : jobs_moved a b -> jobs_moved b c -> jobs_moved a c.
Proof.
  intros [_ Q1 J1 R1] [O2 Q2 J2 R2]. split; [done|by eapply enqueued_trans|auto|].
  intros id row Hid. rewrite (R2 id row); auto. by apply (R1 id row).
Qed.

Lemma jobs_open_moved st listing st' r :
  jobs_ok st -> jobs_open st listing = (st', r) -> jobs_moved st st' /\ jb_jobs st' = jb_jobs st.
Proof.
  intros Hok Ho. pose proof (jobs_open_ok _ _ _ _ Hok Ho) as (Hok' & _ & Ej & Er & _).
  apply jobs_open_swept in Ho as (q & -> & Hs). split; [|done].
  split; [done|eapply swept_enqueued; [done|apply enqueued_refl]|done|done].
Qed.

Lemma rollback_moved st tx :
  jobs_ok st -> objects_kept (jb_queue st) (jb_queue tx) -> jobs_moved st (rollback st tx).
Proof.
  intros Hok Hk. split; [by apply rollback_ok|split; by auto|done|done].
Qed.

Lemma commit_job_moved {A} env st tx (a : A) st' r :
  jobs_ok st -> jobs_moved st tx -> objects_kept (jb_queue st) (jb_queue tx) ->
  commit_job env st tx a = (st', r) ->
  jobs_moved st st' /\ (forall x, r = Ok x -> x = a /\ st' = tx).
Proof.
  intros Hok Hm Hk. unfold commit_job. intros [= <- <-].
  destruct (je_commit env) as [|[]]; cbn; (split; [by try apply rollback_moved|]); try done.
  by intros x [= <-].
Qed.

(** The job a registration returns. *)
Definition registered (st : JobsState) (manifest : BundleManifest) (job : BundleJob) : Prop :=
  load st (mf_bundle_id manifest) = Ok job
  /\ (bj_manifest job = manifest \/ of_json (to_json manifest) = Some (bj_manifest job)).

Lemma load_same_Ok st manifest job : load_same st manifest = Ok job -> registered st manifest job.
Proof.
  unfold load_same. intros (old & Hl & Hs)%res_bind_Ok. apply guard_bind_Ok in Hs as [Hs [= ->]].
  apply negb_false_iff, bool_decide_eq_true_1 in Hs. by split; [|left].
Qed.
Lemma load_new_job st manifest now job :
  jb_jobs st !! mf_bundle_id manifest = Some (new_job manifest now) ->
  load st (mf_bundle_id manifest) = Ok job -> registered st manifest job.
Proof.
  intros Hrow Hl. split; [done|]. right. apply load_Ok in Hl as (row & m & Hrow' & Hm & -> & _).
  rewrite Hrow in Hrow'. by injection Hrow' as <-.
Qed.

Lemma publish_job_spec st env target limits stage manifest chunks spool checked st' r :
  jobs_ok st -> limits_validate limits = Ok tt -> unique_chunks manifest = Ok chunks ->
  spool_of stage manifest = Ok spool ->
  (forall id, Some id ∈ je_randoms env -> qu_archive (jb_queue st) !! id = None) ->
  publish_job st env target limits manifest chunks spool checked = (st', r) ->
  jobs_moved st st' /\ (forall job, r = Ok job -> registered st' manifest job).
Proof.
  intros Hok Hlim Hch Hsp Hfresh. unfold publish_job.
  destruct (jobs_open st (je_listing env)) as [st1 opened] eqn:Ho.
  pose proof (jobs_open_ok _ _ _ _ Hok Ho) as (Hok1 & _ & Ej & Er & _).
  assert (Hfresh1 : forall id, Some id ∈ je_randoms env -> qu_archive (jb_queue st1) !! id = None).
  { apply jobs_open_swept in Ho as (q & -> & [(_ & _ & _ & Ea) _]). intros id Hid. cbn. rewrite Ea. by apply Hfresh. }
  apply (jobs_open_moved _ _ _ _ Hok) in Ho as [Hm1 _].
  assert (Hend : forall st2, jobs_moved st1 st2 -> jobs_moved st st2) by (intros; by eapply jobs_moved_trans).
  destruct (let? _ := opened in assert_target (jb_queue st1) target) as [[]|e]; [|by intros [= <- <-]].
  destruct (jb_jobs st1 !! mf_bundle_id manifest) as [row|] eqn:Hrow; cbn [is_some].
  - destruct (res_bind _ _) as [old|e] eqn:Hold; [|by intros [= <- <-]].
    apply res_bind_Ok in Hold as (old' & Hl & Hold). apply res_bind_Ok in Hold as ([] & _ & [= ->]).
    apply load_same_Ok in Hl.
    intros (Hm & Hr)%commit_job_moved; [|done|by apply jobs_moved_refl|by intros ??].
    split; [by apply Hend|]. intros job Hj. by destruct (Hr _ Hj) as [-> ->].
  - destruct (res_bind _ _) as [refs|e] eqn:Hadm; [|by intros [= <- <-]].
    apply res_bind_Ok in Hadm as (refs' & Hadm & Hre). apply res_bind_Ok in Hre as ([] & _ & [= ->]).
    apply admission_spec in Hadm; [|done].
    destruct (link_chunks _ _ _ _ _) as [tx moved] eqn:Hlink.
    apply link_chunks_linking in Hlink as [Hlk Hpr]; [|apply Hok1| | | |apply Hadm|apply Hadm]; cycle 1.
    { eapply spool_of_good; [done|done|]. intros r'. by eapply admitted_size. }
    { by eapply admitted_nodup. }
    { intros r' Hr' Hn. apply Hfresh1. pose proof (ad_ids _ _ _ _ Hadm r' Hr') as Hid. by rewrite Hn in Hid. }
    destruct (res_bind moved _) as [[]|e] eqn:Hmv; cycle 1.
    { intros [= <- <-]. split; [|done]. apply Hend, rollback_moved; [done|apply Hlk]. }
    apply res_bind_Ok in Hmv as ([] & -> & _).
    assert (Hpresent : forall r', r' ∈ refs -> present (jb_queue tx) (ref_item r')).
    { intros r' Hr'. pose proof (ad_ids _ _ _ _ Hadm r' Hr') as Hid.
      destruct (lookup_chunk st1 (cr_sha256 r')) as [it|] eqn:Hl; [|by apply Hpr].
      apply (enqueued_grows _ _ (lk_enqueued _ _ Hlk)). destruct Hid as [Hi Hz].
      apply find_object_Some in Hl as [Hkey Hin]. apply object_key_true in Hkey as [Hk Hh].
      destruct Hin as [(id & row & Hid & Hrow')|(id & Hid)].
      - left. exists row. pose proof (act_id _ _ _ (qo_active _ (jk_queue _ Hok1) _ _ Hid)) as E.
        rewrite Hrow' in E. cbn. rewrite <- Hi, E. split; [done|]. by rewrite Hrow'.
      - right. exists it. destruct (qo_archive _ (jk_queue _ Hok1) _ _ Hid) as [E _].
        cbn. rewrite <- Hi, E. by repeat split. }
    set (now := Z.min (je_now_ms env) i64_max) in *. set (tx2 := insert_job tx manifest now limits refs).
    destruct (load tx2 (mf_bundle_id manifest)) as [job|e] eqn:Hload; cycle 1.
    { intros [= <- <-]. split; [|done]. apply Hend, rollback_moved; [done|apply Hlk]. }
    apply unique_chunks_spec in Hch as (Hv & _).
    assert (Hok2 : jobs_ok tx2).
    { eapply insert_job_ok; try done; [apply Hadm|]. fold tx2. by rewrite Hload. }
    destruct Hlk as [Hq Hen Hob (Ejt & Ert & _)].
    assert (Hm2 : jobs_moved st1 tx2).
    { split; [done|split; [apply Hen|apply Hen|apply Hen|apply Hen]| |].
      - intros id row Hid. cbn. rewrite Ejt, lookup_insert_ne; [done|congruence].
      - intros id row Hid. unfold refs_of. cbn. rewrite Ert, lookup_insert_ne; [done|congruence]. }
    intros (Hm & Hr)%commit_job_moved; [|done|done|done].
    split; [by apply Hend|]. intros job' Hj. destruct (Hr _ Hj) as [-> ->].
    eapply load_new_job; [|done]. cbn. by rewrite lookup_insert_eq.
Qed.

(** * Every request keeps the invariant *)

Lemma enqueue_begin_moved st env target limits max stage :
  jobs_ok st -> jobs_moved st (enqueue_begin st env target limits max stage).1.
Proof.
  intros Hok. unfold enqueue_begin. destruct (read_stage _ _ _) as [[manifest chunks]|e]; [|by apply jobs_moved_refl].
  destruct (jobs_open st (je_listing env)) as [st1 opened] eqn:Ho. cbn. by eapply jobs_open_moved.
Qed.

Lemma enqueue_rest_moved st env target limits stage manifest already views st' r :
  jobs_ok st -> limits_validate limits = Ok tt ->
  (forall id, Some id ∈ je_randoms env -> qu_archive (jb_queue st) !! id = None) ->
  enqueue_rest st env target limits stage manifest already views = (st', r) ->
  jobs_moved st st' /\ (forall job, r = Ok job -> registered st' manifest job).
Proof.
  intros Hok Hlim Hfresh. unfold enqueue_rest.
  destruct (unique_chunks manifest) as [chunks|e] eqn:Hch; [|by intros [= <- <-]; split; [apply jobs_moved_refl|]].
  destruct already.
  - destruct (let? _ := _ in verify_pending_snapshots _ _ _) as [checked|e];
      [|by intros [= <- <-]; split; [apply jobs_moved_refl|]].
    destruct (jobs_open st (je_listing env)) as [st1 opened] eqn:Ho. intros [= <- <-].
    split; [by eapply jobs_open_moved|]. intros job Hj.
    apply res_bind_Ok in Hj as ([] & _ & Hj). apply res_bind_Ok in Hj as ([] & _ & Hj).
    apply res_bind_Ok in Hj as (old & Hold & Hj). apply res_bind_Ok in Hj as ([] & _ & [= ->]).
    by apply load_same_Ok.
  - destruct (let? spool := spool_of stage manifest in _) as [[spool checked]|e] eqn:Hsp;
      [|by intros [= <- <-]; split; [apply jobs_moved_refl|]].
    apply res_bind_Ok in Hsp as (spool' & Hsp & Hrest). apply res_bind_Ok in Hrest as ([] & _ & Hrest).
    apply res_bind_Ok in Hrest as (checked' & _ & [= -> ->]). by eapply publish_job_spec.
Qed.

Lemma update_job_ok st id row row' :
  jobs_ok st -> jb_jobs st !! id = Some row -> bad_job row' = false ->
  is_ok (load (with_job st id row') id) = true -> (jr_state row' = "complete" -> uploaded st id = true) ->
  jobs_ok (with_job st id row').
Proof.
  intros Hok Hid Hbad Hload Hup. split; cbn.
  - apply Hok.
  - intros i r [[<- <-]|[Hne Hi]]%lookup_insert_Some; [done|].
    destruct (jk_load _ Hok _ _ Hi) as [Hl Hb]. split; [|done].
    apply (load_ext st _ i r r); try done. cbn. by rewrite lookup_insert_ne.
  - rewrite map_size_insert_Some by (by eexists). apply Hok.
  - intros i rs Hi. destruct (jk_refs _ Hok _ _ Hi) as [Hj Hrs]. split; [|done].
    apply lookup_insert_is_Some'. by right.
  - intros i r [[<- <-]|[Hne Hi]]%lookup_insert_Some Hs; [by apply Hup|]. by apply (jk_complete _ Hok i r).
Qed.

Lemma same_claims_ok st id row row' :
  jobs_ok st -> jb_jobs st !! id = Some row -> same_claims row row' -> bad_job row' = false ->
  jobs_ok (with_job st id row').
Proof.
  intros Hok Hid Hs Hb. apply (update_job_ok st id row); try done.
  - eapply (load_ext st _ id row row'); try done; [cbn; by rewrite lookup_insert_eq|]. by apply (jk_load _ Hok id row).
  - destruct Hs as (_ & _ & E & _). rewrite <- E. by apply (jk_complete _ Hok id row).
Qed.

Lemma next_job_Some st now id row :
  next_job st now = Some (id, row) -> jb_jobs st !! id = Some row /\ job_due st now id row = true.
Proof.
  intros Hn. apply min_by_key_elem, filter_elem in Hn as [Hin Hd]. split; [|done].
  by apply elem_of_map_to_list.
Qed.

Lemma leased_good row attempts next token expires :
  bad_job row = false -> jr_state row = "pending" -> bad_job (leased_job row attempts next token expires) = false.
Proof. unfold bad_job. cbn. intros Hb E. rewrite E in *. cbn -[Z.ltb] in *.
  rewrite ?orb_false_iff in *. tauto.
Qed.

Lemma released_good row next code :
  bad_job row = false -> bad_job (released_job row next code) = false.
Proof.
  unfold bad_job. cbn -[Z.ltb]. destruct (String.eqb (jr_state row) "complete");
    cbn -[Z.ltb]; rewrite ?orb_false_iff; tauto.
Qed.

(** The record of a job without its reviews verifies with the record. *)
Lemma verify_record_plain record key key_id :
  verify_record record key key_id = Ok tt ->
  verify_record (mkBundleRecord (bd_agent_id record) (bd_manifest record) (bd_manifest_receipt record)
                   (bd_completion record) [] "unknown" false) key key_id = Ok tt.
Proof.
  unfold verify_record. cbn [bd_agent_id bd_manifest bd_manifest_receipt bd_completion bd_reviews bd_current_review bd_recommended].
  intros ([] & -> & H)%res_bind_Ok. cbn [res_bind].
  apply guard_bind_Ok in H as (Ha & H). apply orb_false_iff in Ha as [Ha _]. rewrite Ha. cbn [negb orb].
  apply guard_bind_Ok in H as (Hr & H). rewrite Hr. apply guard_bind_Ok in H as (Hm & H).
  change (receipt_mismatch (mkBundleRecord (bd_agent_id record) (bd_manifest record) (bd_manifest_receipt record)
    (bd_completion record) [] "unknown" false)) with (receipt_mismatch record). rewrite Hm. cbn [guard res_bind].
  destruct (bd_completion record) as [c|]; [|done]. apply res_bind_Ok in H as (state & H & _).
  apply guard_bind_Ok in H as (Hs & H). rewrite Hs. apply guard_bind_Ok in H as (Hc & _). cbn [guard res_bind].
  change (completion_mismatch (mkBundleRecord (bd_agent_id record) (bd_manifest record) (bd_manifest_receipt record)
    (Some c) [] "unknown" false)) with (completion_mismatch record). by rewrite Hc.
Qed.

Lemma advanced_job_ok st id row manifest record now :
  jobs_ok st -> jb_jobs st !! id = Some row -> of_json (jr_manifest_json row) = Some manifest ->
  verify_record record (qt_pinned_pubkey (qu_target (jb_queue st))) (qt_key_id (qu_target (jb_queue st))) = Ok tt ->
  bd_manifest record = manifest -> bd_agent_id record = qt_agent_id (qu_target (jb_queue st)) ->
  uploaded st id = true -> jobs_ok (with_job st id (advanced_job row record now)).
Proof.
  intros Hok Hid Hm Hv Em Ea Hup. destruct (jk_load _ Hok _ _ Hid) as [Hl Hb].
  apply (update_job_ok st id row); try done.
  - unfold bad_job in *. cbn -[Z.ltb]. destruct (bd_completion record); cbn -[Z.ltb] in *;
      rewrite ?orb_false_iff in *; tauto.
  - destruct (load st id) as [job|e] eqn:Hload; [|done]. apply load_Ok in Hload as (row' & m & Hrow & Hm' & -> & Hp).
    rewrite Hid in Hrow. injection Hrow as <-. rewrite Hm in Hm'. injection Hm' as <-.
    apply verify_record_plain in Hv. rewrite Em, Ea in Hv.
    assert (Hp' : job_proof (decode_job id (advanced_job row record now) manifest (sorted_refs (refs_of st id)))
              (qu_target (jb_queue st)) = Ok tt).
    { unfold job_proof in *. cbn -[validate unique_chunks collected] in Hp |- *.
      apply res_bind_Ok in Hp as ([] & -> & Hp). cbn [res_bind]. apply guard_bind_Ok in Hp as (-> & Hp).
      apply res_bind_Ok in Hp as (expected & -> & Hp). cbn [res_bind guard]. apply guard_bind_Ok in Hp as (-> & _).
      unfold job_record. cbn -[validate unique_chunks collected verify_record]. rewrite Hv. cbn.
      by destruct (bd_completion record). }
    unfold load. cbn [jb_jobs with_job]. rewrite lookup_insert_eq. cbn [ok_or res_bind].
    change (jr_manifest_json (advanced_job row record now)) with (jr_manifest_json row). rewrite Hm.
    cbn [ok_or res_bind]. change (refs_of (with_job st id (advanced_job row record now)) id) with (refs_of st id).
    change (qu_target (jb_queue (with_job st id (advanced_job row record now)))) with (qu_target (jb_queue st)).
    by rewrite Hp'.
Qed.

(** What every request keeps of the jobs and of the items. *)
Record jobs_grow (st st' : JobsState) : Prop := {
  gr_queue : queue_grows (jb_queue st) (jb_queue st');
  gr_jobs : forall id row, jb_jobs st !! id = Some row ->
    exists row', jb_jobs st' !! id = Some row' /\ jr_manifest_json row' = jr_manifest_json row;
  gr_refs : forall id row, jb_jobs st !! id = Some row -> refs_of st' id = refs_of st id;
}.
Lemma jobs_grow_refl st : jobs_grow st st.
Proof. split; [apply queue_grows_refl|by eauto|done]. Qed.
Lemma jobs_grow_trans a b c : jobs_grow a b -> jobs_grow b c -> jobs_grow a c.
Proof.
  intros [Q1 J1 R1] [Q2 J2 R2]. split; [by eapply queue_grows_trans| |].
  - intros id row Hid. destruct (J1 _ _ Hid) as (row1 & H1 & E1), (J2 _ _ H1) as (row2 & H2 & E2).
    exists row2. split; [done|congruence].
  - intros id row Hid. destruct (J1 _ _ Hid) as (row1 & H1 & _). by rewrite (R2 _ _ H1), (R1 _ _ Hid).
Qed.

Lemma moved_grow st st' : jobs_moved st st' -> jobs_grow st st'.
Proof. intros [_ Hq Hj Hr]. split; [by apply enqueued_grows|eauto|done]. Qed.
Lemma with_job_grow st id row row' :
  jb_jobs st !! id = Some row -> jr_manifest_json row' = jr_manifest_json row -> jobs_grow st (with_job st id row').
Proof.
  intros Hid E. split; [apply queue_grows_refl| |done]. intros i r Hi. cbn.
  destruct (decide (i = id)) as [->|Hne]; [rewrite lookup_insert_eq|rewrite lookup_insert_ne by done; by eauto].
  exists row'. split; [done|]. rewrite Hid in Hi. by injection Hi as <-.
Qed.

(** A step of another kind than a queue request. *)
Record job_moved (st st' : JobsState) : Prop := {
  mv_ok : jobs_ok st';
  mv_queue : enqueued (jb_queue st) (jb_queue st');
  mv_grow : jobs_grow st st';
}.
Lemma moved_job st st' : jobs_moved st st' -> job_moved st st'.
Proof. intros H. split; [apply H|apply H|by apply moved_grow]. Qed.
Lemma job_moved_trans a b c : job_moved a b -> job_moved b c -> job_moved a c.
Proof. intros [? ? ?] [? ? ?]. split; [done|by eapply enqueued_trans|by eapply jobs_grow_trans]. Qed.

Lemma commit_update {A} env st id row row' (a : A) st' r :
  jobs_ok st -> jb_jobs st !! id = Some row -> jr_manifest_json row' = jr_manifest_json row ->
  jobs_ok (with_job st id row') -> commit_job env st (with_job st id row') a = (st', r) ->
  job_moved st st' /\ (forall x, r = Ok x -> x = a /\ st' = with_job st id row').
Proof.
  intros Hok Hid E Hok'. unfold commit_job.
  change (rollback st (with_job st id row')) with (rollback st st). rewrite rollback_refl.
  assert (H1 : job_moved st st) by (by apply moved_job, jobs_moved_refl).
  assert (H2 : job_moved st (with_job st id row'))
    by (split; [done|apply enqueued_refl|by apply (with_job_grow st id row)]).
  intros [= <- <-]. destruct (je_commit env) as [|[]]; cbn; (split; [done|]); try done. by intros x [= <-].
Qed.
Lemma commit_nothing {A} env st (a : A) st' r : commit_job env st st a = (st', r) ->
  st' = st /\ (forall x, r = Ok x -> x = a).
Proof.
  unfold commit_job. rewrite rollback_refl. intros [= <- <-].
  destruct (je_commit env) as [|[]]; (split; [done|]); cbn; try done. by intros x [= <-].
Qed.

Lemma claim_job_spec st env target timeout now st' r :
  jobs_ok st -> claim_job st env target timeout now = (st', r) ->
  job_moved st st'
  /\ forall lease, r = Ok (Some lease) ->
       let id := bj_bundle_id (jl_job lease) in
       uploaded st' id = true
       /\ exists row, jb_jobs st' !! id = Some row /\ of_json (jr_manifest_json row) = Some (bj_manifest (jl_job lease)).
Proof.
  intros Hok. unfold claim_job. destruct (jobs_open st (je_listing env)) as [st1 opened] eqn:Ho.
  apply (jobs_open_moved _ _ _ _ Hok) in Ho as [Hm _]. pose proof (jm_ok _ _ Hm) as Hok1. apply moved_job in Hm.
  destruct (let? _ := opened in assert_target (jb_queue st1) target) as [[]|e]; [|by intros [= <- <-]].
  destruct (next_job st1 _) as [[id row]|] eqn:Hn; cycle 1.
  { intros (-> & Hr)%commit_nothing. split; [done|]. intros lease Hl. by specialize (Hr _ Hl). }
  apply next_job_Some in Hn as [Hid Hdue]. unfold job_due in Hdue.
  apply andb_true_iff in Hdue as [Hdue Hup]. split_bools.
  destruct (res_bind _ _) as [job|e] eqn:Hload; [|by intros [= <- <-]].
  apply res_bind_Ok in Hload as (job' & Hload & Hrest). apply res_bind_Ok in Hrest as ([] & _ & [= ->]).
  destruct (je_randoms env) as [|[token|] randoms]; try (by intros [= <- <-]).
  assert (Hok2 : forall attempts next, jobs_ok (with_job st1 id
            (leased_job row attempts next token (lease_expiry (clock now (je_now_ms env)) timeout)))).
  { intros attempts next. apply (same_claims_ok st1 id row); try done.
    apply leased_good; [by apply (jk_load _ Hok1 id)|]. by apply String.eqb_eq. }
  intros (Hm2 & Hr)%(commit_update _ _ _ row); [|done|done|done|apply Hok2].
  split; [by eapply job_moved_trans|]. intros lease Hl. destruct (Hr _ Hl) as [[= ->] ->]. cbn.
  apply load_Ok in Hload as (row' & m & Hrow & Hjs & -> & _). rewrite Hid in Hrow. injection Hrow as <-. cbn.
  split; [done|]. rewrite lookup_insert_eq. eexists. by split.
Qed.

Lemma owns_job_Some st lease now row :
  owns_job st lease now = Some row ->
  jb_jobs st !! bj_bundle_id (jl_job lease) = Some row
  /\ jr_lease_token row = Some (jl_token lease)
  /\ exists e, jr_lease_expires_ms row = Some e /\ now < e.
Proof.
  unfold owns_job. destruct (jb_jobs st !! _) as [r|]; [|done]. cbn.
  destruct (bool_decide _) eqn:Hb; [|done]. apply bool_decide_eq_true_1 in Hb.
  destruct (jr_lease_expires_ms r) as [e|] eqn:He; [|done]. cbn.
  destruct (Z.ltb_spec now e); [|done]. intros [= <-]. split; [done|]. split; [done|]. by exists e.
Qed.

Lemma response_match lease target record :
  response_mismatch lease target record = false ->
  bd_manifest record = bj_manifest (jl_job lease) /\ bd_agent_id record = qt_agent_id target
  /\ (bj_phase (jl_job lease) = "complete" -> is_Some (bd_completion record)).
Proof.
  unfold response_mismatch. intros [[Hm Ha]%orb_false_iff Hc]%orb_false_iff.
  apply negb_false_iff, bool_decide_eq_true_1 in Hm. apply negb_false_iff, String.eqb_eq in Ha.
  split; [done|]. split; [done|]. intros E. rewrite E in Hc. cbn in Hc. destruct (bd_completion record); [by eexists|done].
Qed.

Lemma finish_job_spec st env target lease outcome now st' r :
  jobs_ok st -> uploaded st (bj_bundle_id (jl_job lease)) = true ->
  (forall row, jb_jobs st !! bj_bundle_id (jl_job lease) = Some row ->
     of_json (jr_manifest_json row) = Some (bj_manifest (jl_job lease))) ->
  finish_job st env target lease outcome now = (st', r) -> job_moved st st'.
Proof.
  intros Hok Hup Hjson. unfold finish_job. destruct (jobs_open st (je_listing env)) as [st1 opened] eqn:Ho.
  pose proof (jobs_open_ok _ _ _ _ Hok Ho) as (_ & Hg & Ej & Er & _).
  apply (jobs_open_moved _ _ _ _ Hok) in Ho as [Hm _]. pose proof (jm_ok _ _ Hm) as Hok1. apply moved_job in Hm.
  destruct (let? _ := opened in assert_target (jb_queue st1) target) as [[]|e] eqn:Ht; [|by intros [= <- <-]].
  apply res_bind_Ok in Ht as ([] & _ & Ht). unfold assert_target in Ht. apply guard_Ok, negb_false_iff, bool_decide_eq_true_1 in Ht.
  destruct (owns_job st1 lease _) as [row|] eqn:Hown; [|by intros (-> & _)%commit_nothing].
  apply owns_job_Some in Hown as (Hid & _).
  destruct (jk_load _ Hok1 _ _ Hid) as [_ Hb]. destruct outcome as [record|code].
  - destruct (res_bind _ _) as [[]|e] eqn:Hv; [|by intros [= <- <-]].
    apply res_bind_Ok in Hv as ([] & Hv & Hmis). apply guard_Ok, response_match in Hmis as (Em & Ea & _).
    intros (Hm2 & _)%(commit_update _ _ _ row); [by eapply job_moved_trans|done|done|done|].
    rewrite <- Ht in Hv, Ea.
    apply (advanced_job_ok st1 _ row (bj_manifest (jl_job lease))); try done; [apply Hjson; congruence|].
    apply (uploaded_mono st); [by unfold refs_of; rewrite Er|apply Hg|done].
  - intros (Hm2 & _)%(commit_update _ _ _ row); [by eapply job_moved_trans|done|done|done|].
    apply (same_claims_ok st1 _ row); try done. by apply released_good.
Qed.

Lemma job_leases_grow w st :
  job_leases_ok w -> jobs_grow (jw_state w) st -> job_leases_ok (with_state w st).
Proof.
  intros Hl [Hq Hj Hr] lease Hin. destruct (Hl lease Hin) as [Hup (row & Hrow & Hjson)].
  cbn in *. split.
  - apply (uploaded_mono (jw_state w)); [by apply (Hr _ row)|apply Hq|done].
  - destruct (Hj _ _ Hrow) as (row' & Hrow' & E). exists row'. by rewrite E.
Qed.

Lemma job_step_ok w op :
  jobs_world_ok w -> job_allowed w op ->
  jobs_world_ok (jobs_step w op) /\ jobs_grow (jw_state w) (jw_state (jobs_step w op)).
Proof.
  intros (Hok & Hls & Hjl) Hop.
  assert (Hmove : forall st leases, job_moved (jw_state w) st ->
    (forall lease, lease ∈ leases -> lease ∈ jw_job_leases w
       \/ uploaded st (bj_bundle_id (jl_job lease)) = true
          /\ exists row, jb_jobs st !! bj_bundle_id (jl_job lease) = Some row
               /\ of_json (jr_manifest_json row) = Some (bj_manifest (jl_job lease))) ->
    jobs_world_ok (mkJobsWorld st (jw_leases w) leases) /\ jobs_grow (jw_state w) st).
  { intros st leases [Hok' Hen Hg] Hnew. split; [|done]. split; [done|]. split.
    - eapply enqueued_leases; [exact Hen|exact Hls].
    - intros lease Hin. destruct (Hnew lease Hin) as [Hold|Hn]; [|done].
      by apply (job_leases_grow w st Hjl Hg). }
  destruct op as [op|env target limits max stage|env target limits stage manifest already views|env target timeout now|env target lease outcome now]; cbn in *.
  - destruct (is_ok _); [|split; [done|apply jobs_grow_refl]].
    assert (Hw : world_ok (items_of w)) by (split; [apply Hok|done]).
    pose proof (queue_step_grows _ _ Hw Hop) as Hg. pose proof (step_ok _ _ Hw Hop) as [Hq' Hl'].
    assert (Hgrow : jobs_grow (jw_state w) (with_queue (jw_state w) (qw_queue (queue_step (items_of w) op))))
      by (split; [done|by eauto|done]).
    split; [|done]. split; [by apply jobs_ok_queue|]. split; [done|].
    by apply (job_leases_grow w _ Hjl).
  - apply Hmove; [by apply moved_job, enqueue_begin_moved|by left].
  - destruct (enqueue_rest _ _ _ _ _ _ _ _) as [st r] eqn:He. destruct Hop as [Hlim Hfr].
    apply enqueue_rest_moved in He as [Hm _]; try done. apply Hmove; [by apply moved_job|by left].
  - destruct (claim_job _ _ _ _ _) as [st r] eqn:Hc. apply claim_job_spec in Hc as [Hm Hl]; [|done].
    apply Hmove; [done|]. destruct r as [[lease|]|]; try (by left).
    intros l [->|Hin]%elem_of_cons; [right; by apply Hl|by left].
  - destruct (finish_job _ _ _ _ _ _) as [st r] eqn:Hf. destruct (Hjl _ Hop) as [Hup (row & Hrow & Hjson)].
    apply finish_job_spec in Hf; [|done|done|intros row' Hrow'; congruence]. apply Hmove; [done|by left].
Qed.

Lemma job_run_ok w ops :
  jobs_world_ok w -> jobs_run_allowed w ops ->
  jobs_world_ok (jobs_run w ops) /\ jobs_grow (jw_state w) (jw_state (jobs_run w ops)).
Proof.
  revert w. induction ops as [|op ops IH]; intros w Hw; [intros _; split; [done|apply jobs_grow_refl]|].
  cbn. intros [Hop Hops]. destruct (job_step_ok w op Hw Hop) as [Hw1 Hg1], (IH _ Hw1 Hops) as [Hw2 Hg2].
  split; [done|by eapply jobs_grow_trans].
Qed.

Lemma jobs_new_ok target limits :
  limits_validate limits = Ok tt -> jobs_world_ok (mkJobsWorld (jobs_new target limits) [] []).
Proof.
  intros Hl. destruct (queue_new_ok target limits Hl) as [Hq Hls]. split; [|split; [done|]].
  - split; cbn; [done|intros id row Hid; by rewrite lookup_empty in Hid|by rewrite map_size_empty| |];
      intros id row Hid; by rewrite lookup_empty in Hid.
  - intros lease Hin. by apply elem_of_nil in Hin.
Qed.

(** Any state of the queue with its jobs. *)
Definition jobs_reached (w : JobsWorld) : Prop :=
  exists target limits ops, limits_validate limits = Ok tt
    /\ jobs_run_allowed (mkJobsWorld (jobs_new target limits) [] []) ops
    /\ w = jobs_run (mkJobsWorld (jobs_new target limits) [] []) ops.
Lemma jobs_reached_ok w : jobs_reached w -> jobs_world_ok w.
Proof. intros (target & limits & ops & Hl & Ha & ->). by apply job_run_ok; [apply jobs_new_ok|]. Qed.

Lemma jobs_run_allowed_app w ops ops' :
  jobs_run_allowed w ops -> jobs_run_allowed (jobs_run w ops) ops' -> jobs_run_allowed w (ops ++ ops').
Proof. revert w. induction ops as [|op ops IH]; intros w; [by intros|]. cbn. intros [? ?] ?. auto. Qed.
Lemma jobs_run_app w ops ops' : jobs_run w (ops ++ ops') = jobs_run (jobs_run w ops) ops'.
Proof. revert w. induction ops as [|op ops IH]; intros w; [done|]. apply IH. Qed.
Lemma jobs_reached_run w ops : jobs_reached w -> jobs_run_allowed w ops -> jobs_reached (jobs_run w ops).
Proof.
  intros (target & limits & past & Hl & Ha & ->) Hops. exists target, limits, (past ++ ops).
  split; [done|]. rewrite jobs_run_app. split; [by apply jobs_run_allowed_app|done].
Qed.

(** * The references of a loaded job *)

Lemma collected_elem items h z :
  collected items !! h = Some z -> exists r, r ∈ items /\ cr_sha256 r = h /\ cr_size_bytes r = z.
Proof.
  unfold collected. assert (Hgen : forall m : gmap string Z, foldl (fun m r => <[cr_sha256 r := cr_size_bytes r]> m) m items !! h = Some z ->
    m !! h = Some z \/ exists r, r ∈ items /\ cr_sha256 r = h /\ cr_size_bytes r = z).
  { induction items as [|r items IH]; intros m; cbn; [by left|]. intros Hh.
    destruct (IH _ Hh) as [Hi|(r' & Hr' & E)]; [|right; exists r'; split; [by right|done]].
    apply lookup_insert_Some in Hi as [[<- <-]|[_ Hi]]; [|by left]. right. exists r. by split; [left|]. }
  intros Hh. destruct (Hgen ∅ Hh) as [He|He]; [by rewrite lookup_empty in He|done].
Qed.

Lemma sorted_refs_elem refs r : r ∈ sorted_refs refs <-> exists h, refs !! h = Some r.
Proof.
  unfold sorted_refs. rewrite list_elem_of_fmap. split.
  - intros ([h r'] & -> & Hin). rewrite sort_by_perm, elem_of_map_to_list in Hin. by exists h.
  - intros (h & Hh). exists (h, r). split; [done|]. by rewrite sort_by_perm, elem_of_map_to_list.
Qed.

Lemma loaded_chunk st id job c :
  load st id = Ok job -> c ∈ mf_chunks (bj_manifest job) ->
  exists r, r ∈ bj_chunk_items job /\ cr_sha256 r = ch_sha256 c /\ cr_size_bytes r = ch_size_bytes c.
Proof.
  intros (row & m & Hrow & Hm & -> & Hp)%load_Ok. cbn [bj_manifest decode_job]. intros Hc.
  unfold job_proof in Hp. apply res_bind_Ok in Hp as ([] & _ & Hp). apply guard_bind_Ok in Hp as (_ & Hp).
  apply res_bind_Ok in Hp as (expected & He & Hp). apply guard_bind_Ok in Hp as (Hs & _).
  apply orb_false_iff in Hs as [Hs _]. apply orb_false_iff in Hs as [Hs _].
  apply negb_false_iff, bool_decide_eq_true_1 in Hs.
  apply unique_chunks_spec in He as (_ & Hin & _). specialize (Hin c Hc). rewrite Hs in Hin.
  by apply collected_elem.
Qed.

Lemma ref_item_there st id job r :
  jobs_ok st -> load st id = Ok job -> r ∈ bj_chunk_items job -> present (jb_queue st) (ref_item r).
Proof.
  intros Hok (row & m & Hrow & Hm & -> & _)%load_Ok. cbn. rewrite sorted_refs_elem. intros (h & Hh).
  unfold refs_of in Hh. destruct (jb_refs st !! id) as [refs|] eqn:Hr; cbn in Hh; [|by rewrite lookup_empty in Hh].
  by apply (jk_refs _ Hok _ _ Hr) in Hh as [_ ?].
Qed.

(** The backup of a chunk: its bytes wait in the queue, or the receipt of the
    server for them is archived. *)
Definition chunk_waits (q : QueueState) (c : Chunk) : Prop :=
  exists id row file, qu_active q !! id = Some row /\ qu_objects q !! snapshot_name id = Some file
    /\ body_sha256 (of_bytes file) = ch_sha256 c /\ slen (of_bytes file) = ch_size_bytes c.
Definition chunk_receipted (q : QueueState) (c : Chunk) : Prop :=
  exists id a receipt, qu_archive q !! id = Some a /\ qi_receipt a = Some receipt
    /\ verify_receipt receipt (qt_pinned_pubkey (qu_target q)) = true
    /\ re_agent_id (sr_receipt receipt) = qt_agent_id (qu_target q)
    /\ re_kind (sr_receipt receipt) = "backup" /\ re_sha256 (sr_receipt receipt) = ch_sha256 c
    /\ re_size_bytes (sr_receipt receipt) = ch_size_bytes c.

Lemma archived_chunk q r c a :
  queue_ok q -> qu_archive q !! cr_item_id r = Some a -> same_upload a (ref_item r) ->
  cr_sha256 r = ch_sha256 c -> cr_size_bytes r = ch_size_bytes c -> chunk_receipted q c.
Proof.
  intros Hok Hid (E1 & E2 & E3 & E4) Eh Ez. cbn in *. destruct (qo_archive _ Hok _ _ Hid) as [_ Hv].
  apply verified_item_receipt in Hv as (ack & Ha & Hv & Hag & Hki & Hsh & Hsz).
  exists (cr_item_id r), a, ack. split_and!; try done; congruence.
Qed.

Lemma present_chunk q r c :
  queue_ok q -> present q (ref_item r) -> cr_sha256 r = ch_sha256 c -> cr_size_bytes r = ch_size_bytes c ->
  chunk_waits q c \/ chunk_receipted q c.
Proof.
  intros Hok [(row & Hid & Hs)|(a & Hid & Hs)] Eh Ez; [left|right; exact (archived_chunk q r c a Hok Hid Hs Eh Ez)].
  destruct Hs as (E1 & E2 & E3 & E4). cbn in *.
  destruct (act_snapshot _ _ _ (qo_active _ Hok _ _ Hid)) as (file & Hf & _ & _ & Hi).
  unfold intact in Hi. apply andb_prop in Hi as [Hs Hb]. apply Z.eqb_eq in Hs. apply String.eqb_eq in Hb.
  exists (cr_item_id r), row, file. split_and!; [done|by rewrite <- E1|congruence|congruence].
Qed.

Lemma chunks_there st id job c :
  jobs_ok st -> load st id = Ok job -> c ∈ mf_chunks (bj_manifest job) ->
  chunk_waits (jb_queue st) c \/ chunk_receipted (jb_queue st) c.
Proof.
  intros Hok Hl Hc. destruct (loaded_chunk _ _ _ _ Hl Hc) as (r & Hr & Eh & Ez).
  eapply present_chunk; [apply Hok|by eapply ref_item_there|done|done].
Qed.

Lemma chunks_uploaded st id job c :
  jobs_ok st -> load st id = Ok job -> uploaded st id = true -> c ∈ mf_chunks (bj_manifest job) ->
  chunk_receipted (jb_queue st) c.
Proof.
  intros Hok Hl Hup Hc. destruct (loaded_chunk _ _ _ _ Hl Hc) as (r & Hr & Eh & Ez).
  pose proof (ref_item_there _ _ _ _ Hok Hl Hr) as Hp.
  apply load_Ok in Hl as (row & m & Hrow & Hm & -> & _). cbn in Hr. apply sorted_refs_elem in Hr as (h & Hh).
  destruct (proj1 (uploaded_iff st id) Hup h r Hh) as [a Ha].
  destruct Hp as [(arow & Hid & _)|(a' & Hid & Hs)].
  - by destruct (qo_disjoint _ (jk_queue _ Hok) _ _ _ _ Hid Ha) as [[] _].
  - apply (archived_chunk _ r c a'); [apply Hok|done..].
Qed.

Lemma load_grow st st' id job :
  jobs_ok st' -> jobs_grow st st' -> load st id = Ok job ->
  exists job', load st' id = Ok job' /\ bj_manifest job' = bj_manifest job.
Proof.
  intros Hok Hg (row & m & Hrow & Hm & -> & _)%load_Ok.
  destruct (gr_jobs _ _ Hg _ _ Hrow) as (row' & Hrow' & E).
  destruct (jk_load _ Hok _ _ Hrow') as [Hl _]. destruct (load st' id) as [job'|] eqn:Hload; [|done].
  exists job'. split; [done|]. apply load_Ok in Hload as (row2 & m' & Hrow2 & Hm' & -> & _).
  rewrite Hrow' in Hrow2. injection Hrow2 as <-. rewrite E, Hm in Hm'. by injection Hm' as <-.
Qed.
End Histories.

Section Valid.
Context `{Crypto : VaultCrypto} `{Json : BundleJson}.

Lemma collect_chunks_size refs chunks refs' :
  collect_chunks refs chunks = Ok refs' -> (size refs' <= size refs + length chunks)%nat.
Proof.
  revert refs. induction chunks as [|c chunks IH]; intros refs; cbn [collect_chunks length].
  { intros [= <-]. lia. }
  intros (_ & H)%guard_bind_Ok. apply IH in H. pose proof (map_size_insert_le refs (ch_sha256 c) (ch_size_bytes c)). lia.
Qed.

Lemma loaded_ref_count st id job :
  load st id = Ok job -> 1 <= ref_count st id <= 64.
Proof.
  intros (row & m & Hrow & Hm & -> & Hp)%load_Ok. unfold job_proof in Hp.
  apply res_bind_Ok in Hp as ([] & Hv & Hp). apply guard_bind_Ok in Hp as (_ & Hp).
  apply res_bind_Ok in Hp as (expected & He & Hp). apply guard_bind_Ok in Hp as (Hs & _).
  apply orb_false_iff in Hs as [Hs _]. apply orb_false_iff in Hs as [Heq Hsz].
  apply negb_false_iff, bool_decide_eq_true_1 in Heq. apply negb_false_iff, Z.eqb_eq in Hsz.
  cbn [bj_chunk_items bj_manifest decode_job] in *.
  assert (Hlen : zlen (sorted_refs (refs_of st id)) = ref_count st id).
  { unfold sorted_refs, ref_count, zlen. rewrite length_map.
    rewrite (Permutation_length (sort_by_perm fst (map_to_list (refs_of st id)))).
    by rewrite length_map_to_list. }
  rewrite Hlen, <- Heq in Hsz. rewrite <- Hsz. unfold unique_chunks in He. apply res_bind_Ok in He as ([] & _ & He).
  pose proof (collect_chunks_size _ _ _ He) as Hle. rewrite map_size_empty in Hle.
  apply collect_chunks_spec in He as (_ & Hin & _).
  unfold validate in Hv. apply guard_bind_Ok in Hv as (Hshape & _). unfold bad_shape in Hshape. split_bools.
  unfold zlen in *. destruct (mf_chunks m) as [|c rest] eqn:E; [done|].
  pose proof (map_size_ne_0_lookup_2 expected _ (ex_intro _ _ (Hin c (list_elem_of_here _ _)))). cbn [length] in *. lia.
Qed.

Lemma all_refs_bound st : jobs_ok st -> all_refs st <= MAX_BUNDLE_JOBS * 64.
Proof.
  intros Hok. unfold all_refs.
  assert (Hsize : forall id refs, jb_refs st !! id = Some refs -> Z.of_nat (size refs) <= 64).
  { intros id refs Hr. destruct (jk_refs _ Hok _ _ Hr) as [[row Hrow] _].
    destruct (jk_load _ Hok _ _ Hrow) as [Hl _]. destruct (load st id) as [job|] eqn:Hload; [|done].
    apply loaded_ref_count in Hload. unfold ref_count, refs_of in Hload. rewrite Hr in Hload. cbn in Hload. lia. }
  assert (Hdom : (size (jb_refs st) <= size (jb_jobs st))%nat).
  { rewrite <- !size_dom. apply subseteq_size. intros id. rewrite !elem_of_dom. intros [refs Hr].
    by apply (jk_refs _ Hok _ _ Hr). }
  assert (Hsum : map_sum (fun refs => Z.of_nat (size refs)) (jb_refs st) <= 64 * Z.of_nat (size (jb_refs st))).
  { clear Hdom. revert Hsize. generalize (jb_refs st) as m. clear.
    induction m as [|id refs m Hnone IH] using map_ind; intros Hsize; [by rewrite map_sum_empty, map_size_empty|].
    rewrite map_sum_insert_None, map_size_insert_None by done.
    specialize (Hsize id refs (lookup_insert_eq _ _ _)) as H1.
    assert (H2 : map_sum (fun refs => Z.of_nat (size refs)) m <= 64 * Z.of_nat (size m)).
    { apply IH. intros i r Hi. apply (Hsize i). rewrite lookup_insert_ne; [done|congruence]. }
    lia. }
  pose proof (jk_count _ Hok). lia.
Qed.

Lemma existsb_pairs {A} (p : string * A -> bool) (m : gmap string A) :
  existsb p (map_to_list m) = false <-> forall id a, m !! id = Some a -> p (id, a) = false.
Proof.
  rewrite existsb_false_Forall, Forall_forall. split.
  - intros Hf id a Hid. apply Hf. by apply elem_of_map_to_list.
  - intros Hf [id a] Hin%elem_of_map_to_list. by apply Hf.
Qed.

Lemma present_ref st id r :
  jobs_ok st -> is_Some (jb_jobs st !! id) -> present (jb_queue st) (ref_item r) -> bad_ref st id r = false.
Proof.
  intros Hok [row Hrow] Hp. unfold bad_ref. rewrite Hrow. cbn [is_some negb orb]. apply negb_false_iff, orb_true_iff.
  assert (Hb : forall it, same_upload it (ref_item r) -> backup_of r it = true).
  { intros it (_ & E2 & E3 & E4). unfold backup_of. cbn in *. rewrite E2, E3, E4.
    by rewrite !String.eqb_refl, Z.eqb_refl. }
  destruct Hp as [(arow & Hid & Hs)|(a & Hid & Hs)]; cbn in Hid; [left|right]; rewrite Hid; by apply Hb.
Qed.

Lemma jobs_ok_valid st : jobs_ok st -> validate_schema st = Ok tt.
Proof.
  intros Hok. unfold validate_schema. pose proof (jk_count _ Hok) as Hc.
  rewrite (proj2 (Z.ltb_ge _ _)) by lia. cbn [guard res_bind]. apply guard_Ok.
  rewrite !orb_false_iff. split_and!.
  - apply existsb_pairs. intros id row Hid. by apply (jk_load _ Hok id row).
  - apply Z.ltb_ge. by apply all_refs_bound.
  - apply existsb_pairs. intros id refs Hr. destruct (jk_refs _ Hok _ _ Hr) as [Hj Hrs]. cbn [fst snd].
    apply existsb_pairs. intros h r Hh. destruct (Hrs h r Hh) as [_ Hp]. by apply present_ref.
  - apply existsb_pairs. intros id row Hid. cbn [fst]. destruct (jk_load _ Hok _ _ Hid) as [Hl _].
    destruct (load st id) as [job|] eqn:Hload; [|done]. apply loaded_ref_count in Hload.
    apply negb_false_iff, andb_true_iff. split; apply Z.leb_le; lia.
Qed.

Lemma verify_archived_uploaded st id job :
  jobs_ok st -> load st id = Ok job -> uploaded st id = true ->
  verify_archived st (qu_target (jb_queue st)) (bj_chunk_items job) = Ok tt.
Proof.
  intros Hok (row & m & _ & _ & -> & _)%load_Ok Hup. cbn.
  assert (Hall : forall r, r ∈ sorted_refs (refs_of st id) -> exists a, qu_archive (jb_queue st) !! cr_item_id r = Some a).
  { intros r (h & Hh)%sorted_refs_elem. by destruct (proj1 (uploaded_iff st id) Hup h r Hh) as [a Ha]; exists a. }
  induction (sorted_refs (refs_of st id)) as [|r refs IH]; [done|]. cbn. destruct (Hall r) as [a Ha]; [by left|].
  rewrite Ha. cbn. destruct (qo_archive _ (jk_queue _ Hok) _ _ Ha) as [_ Hva]. rewrite Hva. cbn.
  apply IH. intros r' Hr'. apply Hall. by right.
Qed.

Lemma jobs_open_clean st listing :
  jobs_ok st -> validate_database (jb_queue st) = Ok tt -> only_snapshots (jb_queue st) listing ->
  jobs_open st listing = (st, Ok tt).
Proof.
  intros Hok Hv Hls. unfold jobs_open. rewrite Hv, (jobs_ok_valid _ Hok). cbn [res_bind].
  pose proof (open_mutating_clean _ _ (jk_queue _ Hok) Hv Hls) as Ho. unfold open_mutating in Ho. rewrite Hv in Ho.
  rewrite Ho. by destruct st.
Qed.

Lemma next_job_exists st now id row :
  jb_jobs st !! id = Some row -> job_due st now id row = true -> exists kv, next_job st now = Some kv.
Proof.
  intros Hid Hdue. destruct (next_job st now) as [kv|] eqn:Hn; [by exists kv|]. apply min_by_key_None in Hn.
  assert (Hin : (id, row) ∈ List.filter (fun kv : string * JobRow => job_due st now kv.1 kv.2) (map_to_list (jb_jobs st)))
    by (apply filter_elem; split; [by apply elem_of_map_to_list|done]).
  rewrite Hn in Hin. by apply elem_of_nil in Hin.
Qed.

End Valid.

(** * Promises *)

Section JobPromises.
Context `{Crypto : VaultCrypto} `{Json : BundleJson}.

(** C6: A registered bundle is never lost. Once [enqueue_bundle] returns a job,
    then whatever requests follow, the job is still there with the same
    manifest, and each chunk of the manifest either waits in the queue with
    bytes of its hash and size or has an archived receipt, signed under the
    pinned key for exactly these bytes of this agent. *)
Theorem registered_bundle_never_lost `{!JsonRoundtrip BundleManifest} (w : JobsWorld) (env : BundleEnv)
    (target : QueueTarget) (limits : QueueLimits) (stage : Stage) (manifest : BundleManifest)
    (already : bool) (views : string -> SnapshotView) (st : JobsState) (job : BundleJob) (ops : list JobOp) :
  let op := EnqueueRest env target limits stage manifest already views in
  jobs_reached w -> job_allowed w op ->
  enqueue_rest (jw_state w) env target limits stage manifest already views = (st, Ok job) ->
  jobs_run_allowed (jobs_step w op) ops ->
  let final := jw_state (jobs_run (jobs_step w op) ops) in
  exists job', load final (mf_bundle_id manifest) = Ok job' /\ bj_manifest job' = manifest
    /\ Forall (fun c => chunk_waits (jb_queue final) c \/ chunk_receipted (jb_queue final) c)
         (mf_chunks manifest).
Proof.
  intros op Hw%jobs_reached_ok Hop He Hops final. destruct (job_step_ok w op Hw Hop) as [Hw1 _].
  assert (Hj : registered st manifest job).
  { destruct Hw as (Hok & _), Hop as [Hlim Hfr]. by eapply (enqueue_rest_moved _ _ _ _ _ _ _ _ _ _ Hok Hlim Hfr He). }
  assert (Est : jw_state (jobs_step w op) = st) by (cbn; by rewrite He).
  destruct (job_run_ok _ _ Hw1 Hops) as [(Hok & _) Hg]. fold final in Hok, Hg. rewrite Est in Hg.
  destruct Hj as [Hl Hm]. destruct (load_grow _ _ _ _ Hok Hg Hl) as (job' & Hl' & Em).
  assert (E : bj_manifest job' = manifest).
  { rewrite Em. destruct Hm as [Hm|Hm]; [done|]. rewrite of_to_json in Hm. by injection Hm. }
  exists job'. split; [done|]. split; [done|]. apply Forall_forall. intros c Hc. rewrite <- E in Hc.
  by eapply chunks_there.
Qed.

(** C11: A job is only complete with proof. The row of a complete job holds a
    completion and a receipt of the manifest that verify, under the pinned key,
    as the record of exactly its manifest and agent, and the receipt of every
    chunk is archived. A lease of a job is only handed out when the latter
    holds. *)
Theorem completed_job_proven (w : JobsWorld) (id : string) (row : JobRow) :
  jobs_reached w -> jb_jobs (jw_state w) !! id = Some row -> jr_state row = "complete" ->
  let q := jb_queue (jw_state w) in
  exists manifest receipt completion,
    of_json (jr_manifest_json row) = Some manifest /\ mf_bundle_id manifest = id
    /\ jr_manifest_receipt row = Some receipt /\ jr_completion row = Some completion
    /\ verify_record (mkBundleRecord (qt_agent_id (qu_target q)) manifest receipt (Some completion) [] "unknown" false)
         (qt_pinned_pubkey (qu_target q)) (qt_key_id (qu_target q)) = Ok tt
    /\ Forall (chunk_receipted q) (mf_chunks manifest).
Proof.
  intros (Hok & _)%jobs_reached_ok Hid Hs q. destruct (jk_load _ Hok _ _ Hid) as [Hl _].
  destruct (load (jw_state w) id) as [job|] eqn:Hload; [|done]. assert (Hload' := Hload).
  apply load_Ok in Hload as (row' & m & Hrow & Hm & -> & Hp). rewrite Hid in Hrow. injection Hrow as <-.
  assert (Hch : Forall (chunk_receipted q) (mf_chunks m)).
  { apply Forall_forall. intros c Hc. apply (chunks_uploaded _ _ _ _ Hok Hload'); [|done].
    by apply (jk_complete _ Hok id row). }
  unfold job_proof in Hp. cbn -[validate unique_chunks collected verify_record] in Hp.
  apply res_bind_Ok in Hp as ([] & _ & Hp). apply guard_bind_Ok in Hp as (Hid' & Hp).
  apply res_bind_Ok in Hp as (expected & _ & Hp). apply guard_bind_Ok in Hp as (_ & Hp).
  apply res_bind_Ok in Hp as ([] & Hr & Hp). apply guard_Ok, negb_false_iff in Hp. rewrite Hs in Hp. cbn in Hp.
  destruct (jr_completion row) as [c|] eqn:Hc; [|done].
  apply orb_false_iff in Hid' as [Hid' _]. apply negb_false_iff, String.eqb_eq in Hid'.
  destruct (jr_manifest_receipt row) as [receipt|]; [|done].
  exists m, receipt, c. split_and!; try done. unfold job_record in Hr. cbn in Hr. by rewrite Hc in Hr.
Qed.

(** The queue never locks itself out. In every state that requests reach,
    failed writes and commits included, the check of the job tables that every
    open makes passes: each job reads back with its proof, has between 1 and 64
    references, each to an item of the queue, and the bounds hold. *)
Theorem jobs_stay_valid (w : JobsWorld) :
  jobs_reached w ->
  validate_schema (jw_state w) = Ok tt
  /\ forall id row, jb_jobs (jw_state w) !! id = Some row -> exists job, load (jw_state w) id = Ok job.
Proof.
  intros (Hok & _)%jobs_reached_ok. split; [by apply jobs_ok_valid|]. intros id row Hid.
  destruct (jk_load _ Hok _ _ Hid) as [Hl _]. destruct (load (jw_state w) id) as [job|]; [by exists job|done].
Qed.

(** Jobs make progress. When a pending job is due and all its chunks are
    archived, and the snapshot directory holds only snapshots of active items, a
    claim whose random token and commit succeed hands out a lease of such a job,
    the oldest one, with its manifest, for one more attempt. *)
Theorem ready_job_claimed (w : JobsWorld) (env : BundleEnv) (target : QueueTarget) (timeout now : Z)
    (token : string) (rest : list (option string)) :
  let st := jw_state w in
  let t := clock now (je_now_ms env) in
  jobs_reached w -> qu_target (jb_queue st) = target -> validate_database (jb_queue st) = Ok tt ->
  only_snapshots (jb_queue st) (je_listing env) -> je_randoms env = Some token :: rest -> je_commit env = Written ->
  (exists id row, jb_jobs st !! id = Some row /\ job_due st t id row = true) ->
  exists st' lease row,
    claim_job st env target timeout now = (st', Ok (Some lease))
    /\ jl_token lease = token
    /\ (let id := bj_bundle_id (jl_job lease) in
        jb_jobs st !! id = Some row /\ job_due st t id row = true
        /\ of_json (jr_manifest_json row) = Some (bj_manifest (jl_job lease))
        /\ (forall id' other, jb_jobs st !! id' = Some other -> job_due st t id' other = true ->
              cmp (jr_created_at_ms other, id') (jr_created_at_ms row, id) <> Lt)
        /\ exists row', jb_jobs st' !! id = Some row' /\ jr_lease_token row' = Some token
             /\ jr_lease_expires_ms row' = Some (lease_expiry t timeout)
             /\ jr_attempts row' = sat_add32 (jr_attempts row) 1).
Proof.
  intros st t (Hok & _)%jobs_reached_ok Ht Hv Hls Hrand Hcommit (id0 & row0 & Hid0 & Hdue0). fold st in Hok.
  destruct (next_job_exists st t id0 row0 Hid0 Hdue0) as [[id row] Hn].
  assert (Hleast := Hn). apply next_job_Some in Hn as [Hid Hdue].
  destruct (jk_load _ Hok _ _ Hid) as [Hl _]. destruct (load st id) as [job|] eqn:Hload; [|done].
  assert (Hup := Hdue). unfold job_due in Hup. apply andb_true_iff in Hup as [_ Hup].
  pose proof (verify_archived_uploaded _ _ _ Hok Hload Hup) as Hver. rewrite Ht in Hver.
  pose proof (jobs_open_clean _ _ Hok Hv Hls) as Hopen.
  apply load_Ok in Hload as Hj. destruct Hj as (row' & m & Hrow & Hm & -> & _). rewrite Hid in Hrow. injection Hrow as <-.
  set (job := decode_job id row m (sorted_refs (refs_of st id))) in *.
  exists (with_job st id (leased_job row (sat_add32 (jr_attempts row) 1)
            (Z.min (sat_add t (retry_delay (sat_add32 (jr_attempts row) 1))) i64_max) token (lease_expiry t timeout))),
    (mkJobLease (job_with_attempts job (sat_add32 (jr_attempts row) 1)) token), row.
  split.
  { unfold claim_job. rewrite Hopen. cbn [res_bind]. unfold assert_target.
    rewrite bool_decide_eq_true_2 by done. cbn [negb guard]. fold t. rewrite Hleast, Hload. cbn [res_bind].
    rewrite Hver. cbn [res_bind]. rewrite Hrand. unfold commit_job. by rewrite Hcommit. }
  cbn. split; [done|]. split; [done|]. split; [done|]. split; [done|]. split.
  - intros id' other Ho Hd. apply (min_by_key_least _ _ (id, row) (id', other) Hleast).
    apply filter_elem. split; [by apply elem_of_map_to_list|done].
  - eexists. split; [by rewrite lookup_insert_eq|done].
Qed.

End JobPromises.

(** * A bundle from registration to completion *)

Module Demo.
#[local] Existing Instances Sample.json Sample.crypto.
#[local] Existing Instances Sample.manifest_roundtrip.

Definition target : QueueTarget := mkQueueTarget "https://vault/" "a" "k" "pub" false None.
Definition item_id : string := Sample.hex_digits 32 9.
Definition stage : Stage :=
  mkStage true true (Some (to_json Sample.manifest)) (fun h => if String.eqb h (Sample.sha "hello") then Some "hello" else None).
Definition env (randoms : list (option string)) (listing : list string) (now : Z) : BundleEnv :=
  mkBundleEnv listing randoms (fun _ => true) true (fun _ => None) Written now.
Definition queue_env (random : option string) (listing : list string) (now : Z) : QueueEnv :=
  mkQueueEnv listing random Written Written now true true.
Definition views (h : string) : SnapshotView := mkSnapshotView None None None.

Definition empty : JobsWorld := mkJobsWorld (jobs_new target QueueLimits_default) [] [].
Definition register : JobOp :=
  EnqueueRest (env [Some item_id] [] 1000) target QueueLimits_default stage Sample.manifest false views.
Definition registered_world : JobsWorld := jobs_step empty register.

Definition claim_item : JobOp := QueueRequest (Claim (queue_env (Some "t1") [snapshot_name item_id] 2000) target 30 2000).
Definition lease : Lease := lease_of (new_item item_id "backup" (Sample.sha "hello") 5 1000) "t1".
Definition receipt : SignedReceipt :=
  let r := mkReceipt FORMAT "k" "a" "backup" (Sample.sha "hello") 5 2500 9000 in
  mkSignedReceipt r (Sample.sha (Sample.receipt_text r)).
Definition finish_item : JobOp :=
  QueueRequest (Finish (queue_env None [snapshot_name item_id] 3000) target lease (Ok receipt) 3000).
Definition uploaded_world : JobsWorld := jobs_run registered_world [claim_item; finish_item].

Definition job_lease (w : JobsWorld) (token : string) (now : Z) : option JobLease :=
  match (claim_job (jw_state w) (env [Some token] [] now) target 30 now).2 with Ok l => l | Err _ => None end.
Definition no_lease : JobLease := mkJobLease
  (mkBundleJob "" "" Sample.manifest [] "" "" 0 0 0 None None None None None false) "".
Definition claim_at (token : string) (now : Z) : JobOp := ClaimJob (env [Some token] [] now) target 30 now.
Definition finish_at (w : JobsWorld) (token : string) (now : Z) (record : BundleRecord) : JobOp :=
  FinishJob (env [] [] (now + 500)) target (default no_lease (job_lease w token now)) (Ok record) (now + 500).
Definition record (completion : option (Signed Completion)) : BundleRecord :=
  mkBundleRecord "a" Sample.manifest Sample.manifest_receipt completion [] "unknown" false.

Definition manifest_world : JobsWorld :=
  jobs_run uploaded_world [claim_at "j1" 4000; finish_at uploaded_world "j1" 4000 (record None)].
Definition complete_world : JobsWorld :=
  jobs_run manifest_world [claim_at "j2" 5000; finish_at manifest_world "j2" 5000 (record (Some Sample.completion))].

Definition states (w : JobsWorld) : list (string * string) :=
  map (fun kv => (jr_state kv.2, jr_phase kv.2)) (map_to_list (jb_jobs (jw_state w))).

Example registered_ex : (states registered_world, size (qu_active (jb_queue (jw_state registered_world))))
  = ([("pending", "register")], 1%nat).
Proof. vm_compute. reflexivity. Qed.
Example uploaded_ex : (states uploaded_world, size (qu_active (jb_queue (jw_state uploaded_world))))
  = ([("pending", "register")], 0%nat).
Proof. vm_compute. reflexivity. Qed.
Example manifest_ex : states manifest_world = [("pending", "complete")].
Proof. vm_compute. reflexivity. Qed.
Example complete_ex : states complete_world = [("complete", "done")].
Proof. vm_compute. reflexivity. Qed.

(** Each lease is finished by the worker that has it. *)
Lemma item_lease : jw_leases (jobs_step registered_world claim_item) = [lease].
Proof. vm_compute. reflexivity. Qed.
Lemma first_job_lease :
  jw_job_leases (jobs_step uploaded_world (claim_at "j1" 4000)) = [default no_lease (job_lease uploaded_world "j1" 4000)].
Proof. vm_compute. reflexivity. Qed.
Lemma second_job_lease :
  match jw_job_leases (jobs_step manifest_world (claim_at "j2" 5000)) with
  | lease :: _ => lease = default no_lease (job_lease manifest_world "j2" 5000) | [] => False end.
Proof. vm_compute. reflexivity. Qed.

Lemma register_allowed : job_allowed empty register.
Proof. split; [reflexivity|]. intros id _. apply lookup_empty. Qed.
Lemma upload_allowed : jobs_run_allowed registered_world [claim_item; finish_item].
Proof.
  split; [intros token _; apply not_elem_of_nil|]. split; [|exact I].
  change (lease ∈ jw_leases (jobs_step registered_world claim_item)). rewrite item_lease. by left.
Qed.
Lemma manifest_allowed :
  jobs_run_allowed uploaded_world [claim_at "j1" 4000; finish_at uploaded_world "j1" 4000 (record None)].
Proof.
  split; [exact I|]. split; [|exact I].
  change (default no_lease (job_lease uploaded_world "j1" 4000)
    ∈ jw_job_leases (jobs_step uploaded_world (claim_at "j1" 4000))). rewrite first_job_lease. by left.
Qed.
Lemma complete_allowed :
  jobs_run_allowed manifest_world
    [claim_at "j2" 5000; finish_at manifest_world "j2" 5000 (record (Some Sample.completion))].
Proof.
  split; [exact I|]. split; [|exact I].
  change (default no_lease (job_lease manifest_world "j2" 5000)
    ∈ jw_job_leases (jobs_step manifest_world (claim_at "j2" 5000))).
  pose proof second_job_lease as H. destruct (jw_job_leases _) as [|l ls]; [done|]. rewrite H. by left.
Qed.

Lemma empty_reached : jobs_reached empty.
Proof. by exists target, QueueLimits_default, []. Qed.
Lemma uploaded_reached : jobs_reached uploaded_world.
Proof.
  exact (jobs_reached_run registered_world _
    (jobs_reached_run empty [register] empty_reached (conj register_allowed I)) upload_allowed).
Qed.
Lemma complete_reached : jobs_reached complete_world.
Proof.
  exact (jobs_reached_run manifest_world _
    (jobs_reached_run uploaded_world _ uploaded_reached manifest_allowed) complete_allowed).
Qed.

Lemma registered_bundle_never_lost_witness :
  let final := jw_state uploaded_world in
  exists job', load final (mf_bundle_id Sample.manifest) = Ok job' /\ bj_manifest job' = Sample.manifest
    /\ Forall (fun c => chunk_waits (jb_queue final) c \/ chunk_receipted (jb_queue final) c)
         (mf_chunks Sample.manifest).
Proof.
  destruct (enqueue_rest (jw_state empty) (env [Some item_id] [] 1000) target QueueLimits_default stage
    Sample.manifest false views) as [st [job|e]] eqn:He; [|exfalso; vm_compute in He; discriminate He].
  exact (registered_bundle_never_lost empty (env [Some item_id] [] 1000) target QueueLimits_default stage
    Sample.manifest false views st job [claim_item; finish_item] empty_reached register_allowed He upload_allowed).
Defined.

Lemma completed_job_proven_witness :
  Forall (chunk_receipted (jb_queue (jw_state complete_world))) (mf_chunks Sample.manifest).
Proof.
  destruct (jb_jobs (jw_state complete_world) !! mf_bundle_id Sample.manifest) as [row|] eqn:Hrow;
    [|exfalso; vm_compute in Hrow; discriminate Hrow].
  assert (Hs : jr_state <$> (jb_jobs (jw_state complete_world) !! mf_bundle_id Sample.manifest) = Some "complete")
    by (vm_compute; reflexivity).
  assert (Hm : (fun r => of_json (A := BundleManifest) (jr_manifest_json r))
                 <$> (jb_jobs (jw_state complete_world) !! mf_bundle_id Sample.manifest)
               = Some (Some Sample.manifest)) by (vm_compute; reflexivity).
  rewrite Hrow in Hs, Hm. apply (inj Some) in Hs, Hm.
  destruct (completed_job_proven complete_world _ row complete_reached Hrow Hs)
    as (m & receipt & c & Hm' & _ & _ & _ & _ & Hall).
  rewrite Hm in Hm'. apply (inj Some) in Hm' as <-. exact Hall.
Defined.

Lemma jobs_stay_valid_witness : validate_schema (jw_state complete_world) = Ok tt.
Proof. exact (proj1 (jobs_stay_valid complete_world complete_reached)). Defined.

Lemma ready_job_claimed_witness :
  exists st' lease, claim_job (jw_state uploaded_world) (env [Some "j1"] [] 4000) target 30 4000
    = (st', Ok (Some lease)) /\ jl_token lease = "j1".
Proof.
  destruct (jb_jobs (jw_state uploaded_world) !! mf_bundle_id Sample.manifest) as [row|] eqn:Hrow;
    [|exfalso; vm_compute in Hrow; discriminate Hrow].
  assert (Hdue : job_due (jw_state uploaded_world) 4000 (mf_bundle_id Sample.manifest) row = true).
  { assert (E : job_due (jw_state uploaded_world) 4000 (mf_bundle_id Sample.manifest)
      <$> (jb_jobs (jw_state uploaded_world) !! mf_bundle_id Sample.manifest) = Some true) by (vm_compute; reflexivity).
    rewrite Hrow in E. by apply (inj Some) in E. }
  destruct (ready_job_claimed uploaded_world (env [Some "j1"] [] 4000) target 30 4000 "j1" []
    uploaded_reached ltac:(vm_compute; reflexivity) ltac:(vm_compute; reflexivity)
    ltac:(split; [constructor|vm_compute; discriminate]) eq_refl eq_refl
    (ex_intro _ _ (ex_intro _ row (conj Hrow Hdue)))) as (st' & lease & row' & Hc & Ht & _).
  exists st', lease. split; assumption.
Defined.

End Demo.
