(* ===== verification/VaultClient.v ===== *)
(** The HTTP client of the vault (crates/argos-vault/src/client.rs): the checks of
    the endpoint and of the credentials, the classification of answers, the
    upload of an object against a signed receipt and its download to a new file.
    The server is any function from requests to answers. *)
From Stdlib Require Import ZArith Lia Ascii.
From stdpp Require Import base gmap strings list pretty.
From S2P Require Import Prelude RustPath IpAddr Receipts Bundle VaultQuota VaultQueue.
#[local] Open Scope Z_scope.

(** [str::trim_matches] for the two brackets. *)
Definition is_bracket (c : ascii) : bool := Ascii.eqb c "[" || Ascii.eqb c "]".
Fixpoint trim_brackets_start (s : string) : string :=
  match s with String c rest => if is_bracket c then trim_brackets_start rest else s | EmptyString => s end.
Fixpoint trim_brackets_end (s : string) : string :=
  match s with
  | EmptyString => EmptyString
  | String c rest =>
      match trim_brackets_end rest with
      | EmptyString => if is_bracket c then EmptyString else String c EmptyString
      | rest => String c rest
      end
  end.
Definition trim_brackets (s : string) : string := trim_brackets_end (trim_brackets_start s).

(** * Errors *)

Inductive ClientError :=
| Authentication (status : Z)
| Capacity
| RateLimit
| ServerTransient (status : Z)
| RequestRejected (status : Z)
| Transport
| Connect
| Timeout
| ResponseIntegrity
| ClientSettings
| SnapshotRead.

Definition code (e : ClientError) : string :=
  match e with
  | Authentication _ => "authentication"
  | Capacity => "capacity"
  | RateLimit => "rate_limit"
  | ServerTransient _ => "server_transient"
  | RequestRejected _ => "request_rejected"
  | Transport => "transport"
  | Connect => "connect"
  | Timeout => "timeout"
  | ResponseIntegrity => "response_integrity"
  | ClientSettings => "client_settings"
  | SnapshotRead => "snapshot_read"
  end.
Definition http_suffix (status : Z) : string := " (HTTP " +:+ pretty status +:+ ")".
Definition client_error_fmt (e : ClientError) : string :=
  "보관 클라이언트 오류: " +:+ code e +:+
  match e with
  | Authentication status | ServerTransient status | RequestRejected status => http_suffix status
  | Capacity => " (HTTP 507)"
  | RateLimit => " (HTTP 429)"
  | _ => ""
  end.

(** A boxed error: a [ClientError] or one with a message only. *)
Inductive Failure :=
| Client (e : ClientError)
| Message (s : string).
Definition error_code (f : Failure) : string :=
  match f with Client e => code e | Message _ => "unknown" end.

(** The errors of [reqwest] and of the body of an answer. *)
Record SendFailure := mkSendFailure {
  sf_timeout : bool;
  sf_connect : bool;
}.
Record BodyFailure := mkBodyFailure {
  bf_timed_out : bool;
  bf_request : option SendFailure;
}.
Definition request_error (e : SendFailure) : ClientError :=
  if sf_timeout e then Timeout else if sf_connect e then Connect else Transport.
Definition body_error (e : BodyFailure) : ClientError :=
  if bf_timed_out e then Timeout
  else match bf_request e with Some e => request_error e | None => Transport end.

(** * Configuration *)

Record VaultConfig := mkVaultConfig {
  vc_endpoint : string;
  vc_agent_id : string;
  vc_upload_token : string;
  vc_admin_token : string;
  vc_pinned_pubkey : string;
  vc_key_id : string;
  vc_allow_http_loopback : bool;
  vc_tls_ca_pem : option string;
  vc_max_object_bytes : Z;
  vc_timeout_secs : Z;
}.
Definition VaultConfig_default : VaultConfig :=
  mkVaultConfig "" "" "" "" "" "vault-1" false None MAX_OBJECT_BYTES 30.

(** What the client reads of a [reqwest::Url]. *)
Record Url := mkUrl {
  url_text : string;
  url_scheme : string;
  url_username : string;
  url_password : option string;
  url_host : option string;
  url_path : string;
  url_query : option string;
  url_fragment : option string;
}.

(** * Requests and answers *)

Inductive Method := GET | POST.

(** How a client treats redirects: [Policy::none], or follow up to a number of them. *)
Inductive RedirectPolicy :=
| NoRedirects
| FollowRedirects (limit : nat).
(** What [ClientBuilder] was told, starting from the defaults of the crate. *)
Record HttpClient := mkHttpClient {
  cl_redirect : RedirectPolicy;
  cl_timeout_secs : option Z;
  cl_built_in_roots : bool;
  cl_roots : list string;
  cl_no_proxy : bool;
}.
Definition client_builder : HttpClient := mkHttpClient (FollowRedirects 10) None true [] false.

(** A request a client makes for [hq_path] joined to the endpoint, with its
    bearer token; [hq_proxy] is the proxy it goes through. *)
Record HttpRequest := mkHttpRequest {
  hq_client : HttpClient;
  hq_proxy : option string;
  hq_method : Method;
  hq_endpoint : Url;
  hq_path : string;
  hq_query : list (string * string);
  hq_bearer : string;
  hq_headers : list (string * string);
  hq_body : string;
}.

(** An answer: the bytes of its body up to its end, or up to a failure. *)
Record HttpResponse := mkHttpResponse {
  hr_status : Z;
  hr_content_length : option Z;
  hr_body : string;
  hr_failure : option BodyFailure;
}.

(** The crate [reqwest]: parsing of URLs and certificates, whether a relative
    path joins an URL and whether a client can be built; the proxy the environment
    names for a URL, and the request a client that follows redirects makes after
    an answer; [key_hex] is the lower-case hex of a public key that [public_key] parses. *)
Class WebLibs := {
  parse_url : string -> option Url;
  pem_bundle : string -> option (list string);
  joins : Url -> string -> bool;
  client_builds : HttpClient -> bool;
  system_proxy : Url -> option string;
  redirected : HttpRequest -> HttpResponse -> option HttpRequest;
  key_hex : string -> string;
}.

Section Settings.
Context `{Crypto : VaultCrypto} `{Web : WebLibs}.

Definition tls_certificates (config : VaultConfig) : result (list string) ClientError :=
  match vc_tls_ca_pem config with
  | None => Ok []
  | Some pem =>
      let? _ := guard (String.eqb pem "" || (64 * 1024 <? slen pem)) ClientSettings in
      let? certificates := ok_or (pem_bundle pem) ClientSettings in
      let? _ := guard ((zlen certificates =? 0) || (16 <? zlen certificates)) ClientSettings in
      Ok certificates
  end.
Definition tls_ca_sha256 (config : VaultConfig) : result (option string) ClientError :=
  let? _ := tls_certificates config in
  Ok (body_sha256 <$> vc_tls_ca_pem config).

Definition host_loopback (url : Url) : bool :=
  is_some_and (url_host url ≫= fun host => parse_ip (trim_brackets host)) is_loopback.

Definition validated_endpoint (config : VaultConfig) : result Url ClientError :=
  let? url := ok_or (parse_url (vc_endpoint config)) ClientSettings in
  let? _ := guard (negb (String.eqb (url_username url) "") || is_some (url_password url)
                   || is_some (url_query url) || is_some (url_fragment url)
                   || negb (str_mem (url_path url) [""; "/"])) ClientSettings in
  let? _ := guard (negb (String.eqb (url_scheme url) "https")
                   && negb (String.eqb (url_scheme url) "http" && vc_allow_http_loopback config
                            && host_loopback url)) ClientSettings in
  let? _ := guard (is_some (vc_tls_ca_pem config) && negb (String.eqb (url_scheme url) "https"))
              ClientSettings in
  let? _ := tls_certificates config in
  let? _ := guard (negb (public_key_ok (vc_pinned_pubkey config))) ClientSettings in
  let? _ := guard (negb (valid_id (vc_key_id config))
                   || negb ((1 <=? vc_max_object_bytes config) && (vc_max_object_bytes config <=? MAX_OBJECT_BYTES))
                   || (vc_timeout_secs config =? 0) || (300 <? vc_timeout_secs config)) ClientSettings in
  Ok url.

(** A client and the endpoint it is for. *)
Record Connection := mkConnection {
  cn_client : HttpClient;
  cn_url : Url;
}.
Definition no_redirects (c : HttpClient) : HttpClient :=
  mkHttpClient NoRedirects (cl_timeout_secs c) (cl_built_in_roots c) (cl_roots c) (cl_no_proxy c).
Definition with_timeout (secs : Z) (c : HttpClient) : HttpClient :=
  mkHttpClient (cl_redirect c) (Some secs) (cl_built_in_roots c) (cl_roots c) (cl_no_proxy c).
Definition only_roots (roots : list string) (c : HttpClient) : HttpClient :=
  mkHttpClient (cl_redirect c) (cl_timeout_secs c) false (cl_roots c ++ roots) (cl_no_proxy c).
Definition no_proxy (c : HttpClient) : HttpClient :=
  mkHttpClient (cl_redirect c) (cl_timeout_secs c) (cl_built_in_roots c) (cl_roots c) true.

Definition connection (config : VaultConfig) : result Connection ClientError :=
  let? url := validated_endpoint config in
  let builder := with_timeout (vc_timeout_secs config) (no_redirects client_builder) in
  let? builder :=
    if is_some (vc_tls_ca_pem config)
    then let? certificates := tls_certificates config in Ok (only_roots certificates builder)
    else Ok builder in
  let builder := if String.eqb (url_scheme url) "http" then no_proxy builder else builder in
  let? _ := guard (negb (client_builds builder)) ClientSettings in
  Ok (mkConnection builder url).

(** A request of the client to a path below the endpoint. *)
Definition new_request (conn : Connection) (method : Method) (path : string) (query : list (string * string))
    (bearer : string) (headers : list (string * string)) (body : string) : HttpRequest :=
  mkHttpRequest (cn_client conn)
    (if cl_no_proxy (cn_client conn) then None else system_proxy (cn_url conn))
    method (cn_url conn) path query bearer headers body.

(** [u8::is_ascii_control], [u8::is_ascii_whitespace] and [u8::is_ascii]. *)
Definition token_byte_bad (c : ascii) : bool :=
  let n := nat_of_ascii c in
  Nat.leb 128 n || (Nat.ltb n 32 || Nat.eqb n 127) || existsb (Nat.eqb n) [32; 9; 10; 12; 13]%nat.
Definition token (value : string) : result string ClientError :=
  let? _ := guard (negb (String.eqb (str_trim value) value) || (slen value <? 16) || (4096 <? slen value)
                   || negb (str_all (fun c => negb (token_byte_bad c)) value)) ClientSettings in
  Ok value.

(** [QueueTarget::from_config] of queue.rs. *)
Definition target_from_config (config : VaultConfig) : result QueueTarget Failure :=
  match validated_endpoint config with
  | Err e => Err (Client e)
  | Ok url =>
      let? _ := guard (negb (valid_id (vc_agent_id config))) (Message "큐 에이전트 ID 오류") in
      match tls_ca_sha256 config with
      | Err e => Err (Client e)
      | Ok ca => Ok (mkQueueTarget (url_text url) (vc_agent_id config) (vc_key_id config)
                       (key_hex (vc_pinned_pubkey config)) (vc_allow_http_loopback config) ca)
      end
  end.

End Settings.

(** * Answers *)

Definition status_error (status : Z) : ClientError :=
  if (status =? 401) || (status =? 403) then Authentication status
  else if status =? 507 then Capacity
  else if status =? 429 then RateLimit
  else if (500 <=? status) && (status <=? 599) then ServerTransient status
  else RequestRejected status.
(** No more than [maximum + 1] bytes are read. *)
Definition read_response (response : HttpResponse) (maximum : Z) : result string ClientError :=
  let? _ := guard (negb ((200 <=? hr_status response) && (hr_status response <=? 299)))
              (status_error (hr_status response)) in
  let? _ := guard (is_some_and (hr_content_length response) (fun size => maximum <? size)) ResponseIntegrity in
  let? _ := guard (maximum <? slen (hr_body response)) ResponseIntegrity in
  match hr_failure response with
  | Some e => Err (body_error e)
  | None => Ok (hr_body response)
  end.

(** * Files *)

(** The files the client writes or looks for, by their path. *)
Abbreviation Files := (gmap string string).

(** What the system calls that write a new file meet: [io_write] is the bytes a
    failed write left. *)
Record WriteEnv := mkWriteEnv {
  io_temporary : string;
  io_opened : bool;
  io_write : option nat;
  io_synced : bool;
  io_linked : bool;
  io_removed : bool;
  io_directory : bool;
  io_cleaned : bool;
}.

(** The complete temporary file becomes [path], exclusively. *)
Definition publish_new (env : WriteEnv) (files : Files) (path : string) : Files * result unit string :=
  let temporary := io_temporary env in
  if negb (io_synced env) then (files, Err "sync_all")
  else if negb (io_linked env) || is_some (files !! path) then (files, Err "hard_link")
  else
    let files := match files !! temporary with Some b => <[path := b]> files | None => files end in
    if negb (io_removed env) then (files, Err "remove_file")
    else
      let files := delete temporary files in
      (files, guard (negb (io_directory env)) "sync_directory").

(** [if result.is_err() { let _ = fs::remove_file(&temporary); }]. *)
Definition clean_temporary {A E} (env : WriteEnv) (out : Files * result A E) : Files * result A E :=
  let '(files, r) := out in
  match r with
  | Ok _ => out
  | Err _ => (if io_cleaned env then delete (io_temporary env) files else files, r)
  end.

Definition write_new (env : WriteEnv) (files : Files) (path bytes : string) : Files * result unit string :=
  let temporary := io_temporary env in
  if negb (io_opened env) || is_some (files !! temporary) then (files, Err "open")
  else clean_temporary env
    match io_write env with
    | Some n => (<[temporary := String.substring 0 n bytes]> files, Err "write_all")
    | None => publish_new env (<[temporary := bytes]> files) path
    end.

(** * Conversations with a server *)

(** serde_json on what the server answers. *)
Class ClientJson := {
  receipt_de :: Deserialize SignedReceipt;
}.

(** The state of the server, the requests made so far and the local files. *)
Record Conversation (S : Type) := mkConversation {
  w_server : S;
  w_trace : list HttpRequest;
  w_files : Files;
}.
Arguments mkConversation {S}.
Arguments w_server {S}.
Arguments w_trace {S}.
Arguments w_files {S}.

Definition Client_ (S A : Type) : Type := Conversation S -> Conversation S * result A Failure.

Section Monad.
Context {S : Type}.

Definition answer {A} (r : result A Failure) : Client_ S A := fun w => (w, r).
Definition client {A} (r : result A ClientError) : Client_ S A :=
  answer (match r with Ok a => Ok a | Err e => Err (Client e) end).
Definition message {A} (r : result A string) : Client_ S A :=
  answer (match r with Ok a => Ok a | Err e => Err (Message e) end).
Definition then_ {A B} (m : Client_ S A) (k : A -> Client_ S B) : Client_ S B :=
  fun w => match m w with (w, Ok a) => k a w | (w, Err e) => (w, Err e) end.

(** A local effect. *)
Definition locally {A} (f : Files -> Files * result A string) : Client_ S A :=
  fun w => let '(files, r) := f (w_files w) in
           (mkConversation (w_server w) (w_trace w) files,
            match r with Ok a => Ok a | Err e => Err (Message e) end).

End Monad.

Notation "'do?' x ':=' m 'in' k" := (then_ m (fun x => k))
  (at level 10, x pattern, m at level 100, k at level 200) : argos_scope.

Section Conversations.
Context `{Crypto : VaultCrypto} `{Web : WebLibs} `{CJson : ClientJson}.
Context {S : Type} (exchange : HttpRequest -> S -> S * result HttpResponse SendFailure).

(** The requests a client makes until it has its answer: one, and one more for
    every redirect it follows. *)
Fixpoint follow (limit : nat) (q : HttpRequest) (s : S) : S * list HttpRequest * result HttpResponse SendFailure :=
  let '(s, r) := exchange q s in
  match r with
  | Err e => (s, [q], Err e)
  | Ok response =>
      match redirected q response with
      | None => (s, [q], Ok response)
      | Some next =>
          match limit with
          | O => (s, [q], Err (mkSendFailure false false))
          | Datatypes.S limit => let '(s, sent, r) := follow limit next s in (s, q :: sent, r)
          end
      end
  end.
Definition transmit (q : HttpRequest) (s : S) : S * list HttpRequest * result HttpResponse SendFailure :=
  match cl_redirect (hq_client q) with
  | NoRedirects => let '(s, r) := exchange q s in (s, [q], r)
  | FollowRedirects limit => follow limit q s
  end.

Definition send (q : HttpRequest) : Client_ S HttpResponse :=
  fun w => let '(s, sent, r) := transmit q (w_server w) in
           (mkConversation s (w_trace w ++ sent) (w_files w),
            match r with Ok a => Ok a | Err e => Err (Client (request_error e)) end).

Definition joined (conn : Connection) (path : string) : result unit ClientError :=
  guard (negb (joins (cn_url conn) path)) ClientSettings.

(** GET with the token of the administrator. *)
Definition get_admin (config : VaultConfig) (conn : Connection) (path : string) : Client_ S HttpResponse :=
  do? _ := client (joined conn path) in
  do? bearer := client (token (vc_admin_token config)) in
  send (new_request conn GET path [] bearer [] "").

Definition read_json {A} `{Deserialize A} (response : HttpResponse) (maximum : Z) : result A ClientError :=
  let? bytes := read_response response maximum in
  ok_or (of_json bytes) ResponseIntegrity.

(** [expected]. *)
Definition expected_receipt (receipt : SignedReceipt) (config : VaultConfig) (agent hash : string)
    : result unit ClientError :=
  let? _ := guard (negb (verify_receipt receipt (vc_pinned_pubkey config))) ResponseIntegrity in
  guard (negb (String.eqb (re_key_id (sr_receipt receipt)) (vc_key_id config))
         || negb (String.eqb (re_agent_id (sr_receipt receipt)) agent)
         || negb (String.eqb (re_sha256 (sr_receipt receipt)) hash)) ResponseIntegrity.

Definition upload_connected (config : VaultConfig) (bytes kind : string) (conn : Connection) : Client_ S SignedReceipt :=
  do? _ := client (guard (negb (valid_id (vc_agent_id config)) || negb (valid_kind kind)
                          || (vc_max_object_bytes config <? slen bytes)) ClientSettings) in
  let hash := body_sha256 bytes in
  let path := "v1/objects/" +:+ hash in
  do? _ := client (joined conn path) in
  do? bearer := client (token (vc_upload_token config)) in
  do? response := send (new_request conn POST path [] bearer
                          [("X-Argos-Kind", kind); ("Content-Type", "application/octet-stream")] bytes) in
  do? receipt := client (read_json (A := SignedReceipt) response MAX_RECEIPT_BYTES) in
  do? _ := client (expected_receipt receipt config (vc_agent_id config) hash) in
  do? _ := client (guard (negb (String.eqb (re_kind (sr_receipt receipt)) kind)
                          || negb (re_size_bytes (sr_receipt receipt) =? slen bytes)) ResponseIntegrity) in
  answer (Ok receipt).

(** [read] is what the bounded read of the path returns under a limit. *)
Definition upload_file (config : VaultConfig) (read : Z -> option string) (kind : string)
    : Client_ S SignedReceipt :=
  do? conn := client (connection config) in
  do? bytes := client (ok_or (read (vc_max_object_bytes config)) SnapshotRead) in
  upload_connected config bytes kind conn.
Definition upload_bytes (config : VaultConfig) (bytes kind : string) : Client_ S SignedReceipt :=
  do? conn := client (connection config) in
  upload_connected config bytes kind conn.

Definition fetch_file (config : VaultConfig) (env : WriteEnv) (agent_id hash destination : string)
    : Client_ S SignedReceipt :=
  do? conn := client (connection config) in
  do? _ := client (guard (negb (valid_id agent_id) || negb (valid_hash hash)) ClientSettings) in
  do? _ := locally (fun files => (files, guard (is_some (files !! destination)) "출력 파일이 이미 존재합니다")) in
  do? receipt_response := get_admin config conn ("v1/receipts/" +:+ agent_id +:+ "/" +:+ hash) in
  do? receipt := client (read_json (A := SignedReceipt) receipt_response MAX_RECEIPT_BYTES) in
  do? _ := client (expected_receipt receipt config agent_id hash) in
  do? _ := client (guard (vc_max_object_bytes config <? re_size_bytes (sr_receipt receipt)) ResponseIntegrity) in
  do? response := get_admin config conn ("v1/objects/" +:+ agent_id +:+ "/" +:+ hash) in
  do? bytes := client (read_response response (vc_max_object_bytes config)) in
  do? _ := client (guard (negb (verify_body bytes receipt)) ResponseIntegrity) in
  do? _ := locally (fun files => write_new env files destination bytes) in
  answer (Ok receipt).

(** The answer is not signed; [U] is [CapacityUsage]. *)
Definition fetch_usage {U} `{Deserialize U} (config : VaultConfig) : Client_ S U :=
  do? conn := client (connection config) in
  do? response := get_admin config conn "v1/usage" in
  client (read_json response (8 * 1024 * 1024)).

End Conversations.

(** * Reasoning about conversations *)

(** From files in [P], a success leaves its value and the files in [Q] and a
    failure the files in [E], whatever the server does. *)
Definition triple {S A} (P : Files -> Prop) (m : Client_ S A) (Q : A -> Files -> Prop) (E : Files -> Prop) : Prop :=
  forall w, P (w_files w) ->
  match m w with (w', Ok a) => Q a (w_files w') | (w', Err _) => E (w_files w') end.
(** The files stay as they are. *)
Definition quiet {S A} (m : Client_ S A) : Prop := forall w, w_files (m w).1 = w_files w.
(** What holds of every result. *)
Definition yields {S A} (m : Client_ S A) (Q : A -> Prop) : Prop :=
  forall w w' a, m w = (w', Ok a) -> Q a.
(** The requests of [m] all satisfy [Q]. *)
Definition emits {S A} (Q : HttpRequest -> Prop) (m : Client_ S A) : Prop :=
  forall w, exists sent, w_trace (m w).1 = w_trace w ++ sent /\ Forall Q sent.

Create HintDb conversation discriminated.

Section Reasoning.
Context {S : Type}.
Implicit Types (P E : Files -> Prop).

Lemma then_Ok {A B} (m : Client_ S A) (k : A -> Client_ S B) w w'' b :
  then_ m k w = (w'', Ok b) <-> exists w' a, m w = (w', Ok a) /\ k a w' = (w'', Ok b).
Proof. unfold then_. destruct (m w) as [w' [a|e]]; naive_solver. Qed.
Lemma client_Ok {A} (r : result A ClientError) (w w' : Conversation S) a :
  client r w = (w', Ok a) <-> w' = w /\ r = Ok a.
Proof. unfold client, answer. destruct r; naive_solver. Qed.
Lemma message_Ok {A} (r : result A string) (w w' : Conversation S) a :
  message r w = (w', Ok a) <-> w' = w /\ r = Ok a.
Proof. unfold message, answer. destruct r; naive_solver. Qed.
Lemma answer_Ok {A} (r : result A Failure) (w w' : Conversation S) a :
  answer r w = (w', Ok a) <-> w' = w /\ r = Ok a.
Proof. unfold answer. naive_solver. Qed.

Lemma quiet_answer {A} (r : result A Failure) : quiet (S := S) (answer r).
Proof. done. Qed.
Lemma quiet_client {A} (r : result A ClientError) : quiet (S := S) (client r).
Proof. done. Qed.
Lemma quiet_message {A} (r : result A string) : quiet (S := S) (message r).
Proof. done. Qed.
Lemma quiet_then {A B} (m : Client_ S A) (k : A -> Client_ S B) :
  quiet m -> (forall a, quiet (k a)) -> quiet (then_ m k).
Proof.
  intros Hm Hk w. unfold then_. specialize (Hm w). destruct (m w) as [w' [a|e]]; [|done].
  rewrite Hk. done.
Qed.
Lemma quiet_send `{Web : WebLibs} exchange q : quiet (S := S) (send exchange q).
Proof. intros w. unfold send. by destruct (transmit exchange q (w_server w)) as [[s sent] r]. Qed.

Lemma yields_then {A B} (m : Client_ S A) (k : A -> Client_ S B) Q :
  (forall a, yields (k a) Q) -> yields (then_ m k) Q.
Proof. intros Hk w w' b (w1 & a & _ & H)%then_Ok. by eapply Hk. Qed.
Lemma yields_bind {A B} (m : Client_ S A) (k : A -> Client_ S B) (R : A -> Prop) Q :
  yields m R -> (forall a, R a -> yields (k a) Q) -> yields (then_ m k) Q.
Proof. intros Hm Hk w w' b (w1 & a & H1%Hm & H)%then_Ok. by eapply Hk. Qed.
Lemma yields_client {A} (r : result A ClientError) : yields (S := S) (client r) (fun a => r = Ok a).
Proof. by intros w w' a [_ H]%client_Ok. Qed.
Lemma yields_message {A} (r : result A string) : yields (S := S) (message r) (fun a => r = Ok a).
Proof. by intros w w' a [_ H]%message_Ok. Qed.
Lemma yields_answer {A} (a : A) (Q : A -> Prop) : Q a -> yields (S := S) (answer (Ok a)) Q.
Proof. by intros HQ w w' b [_ [= <-]]%answer_Ok. Qed.

Lemma yields_any {A} (m : Client_ S A) : yields m (fun _ => True).
Proof. done. Qed.

Lemma emits_answer {A} Q (r : result A Failure) : emits (S := S) Q (answer r).
Proof. intros w. exists []. by rewrite app_nil_r. Qed.
Lemma emits_client {A} Q (r : result A ClientError) : emits (S := S) Q (client r).
Proof. apply emits_answer. Qed.
Lemma emits_message {A} Q (r : result A string) : emits (S := S) Q (message r).
Proof. apply emits_answer. Qed.
Lemma emits_locally {A} Q (f : Files -> Files * result A string) : emits (S := S) Q (locally f).
Proof. intros w. exists []. unfold locally. destruct (f (w_files w)). by rewrite app_nil_r. Qed.
Lemma emits_then {A B} Q (m : Client_ S A) (k : A -> Client_ S B) :
  emits Q m -> (forall a, emits Q (k a)) -> emits Q (then_ m k).
Proof.
  intros Hm Hk w. unfold then_. destruct (Hm w) as (t & Ht & HQ). destruct (m w) as [w' [a|e]]; [|by exists t].
  destruct (Hk a w') as (t' & Ht' & HQ'). exists (t ++ t'). cbn in Ht. rewrite Ht', Ht, app_assoc.
  split; [done|]. by apply Forall_app.
Qed.
(** As [emits_then], with what is known of the value. *)
Lemma emits_bind {A B} Q (R : A -> Prop) (m : Client_ S A) (k : A -> Client_ S B) :
  emits Q m -> yields m R -> (forall a, R a -> emits Q (k a)) -> emits Q (then_ m k).
Proof.
  intros Hm Hy Hk w. unfold then_. destruct (Hm w) as (t & Ht & HQ). specialize (Hy w).
  destruct (m w) as [w' [a|e]]; [|by exists t].
  destruct (Hk a (Hy w' a eq_refl) w') as (t' & Ht' & HQ'). exists (t ++ t'). cbn in Ht.
  rewrite Ht', Ht, app_assoc. split; [done|]. by apply Forall_app.
Qed.
(** Without redirects a request is sent once, as it is. *)
Lemma emits_send `{Web : WebLibs} (Q : HttpRequest -> Prop) exchange q :
  cl_redirect (hq_client q) = NoRedirects -> Q q -> emits (S := S) Q (send exchange q).
Proof.
  intros Hn HQ w. exists [q]. unfold send, transmit. rewrite Hn. destruct (exchange q (w_server w)).
  split; [done|]. by apply Forall_singleton.
Qed.

Lemma triple_then {A B} P E (m : Client_ S A) (k : A -> Client_ S B) Q R :
  triple P m Q E -> (forall a, triple (Q a) (k a) R E) -> triple P (then_ m k) R E.
Proof.
  intros Hm Hk w HP. unfold then_. specialize (Hm w HP). destruct (m w) as [w' [a|e]]; [|done].
  by apply Hk.
Qed.
(** An operation that leaves the files alone: what its value satisfies is known from then on. *)
Lemma triple_quiet {A B} P E (m : Client_ S A) (k : A -> Client_ S B) Q R :
  quiet m -> yields m Q -> (forall f, P f -> E f) -> (forall a, Q a -> triple P (k a) R E) ->
  triple P (then_ m k) R E.
Proof.
  intros Hq Hy HE Hk w HP. unfold then_. specialize (Hq w). specialize (Hy w).
  destruct (m w) as [w' [a|e]]; cbn in Hq; [|rewrite Hq; by apply HE].
  apply Hk; [by eapply Hy|by rewrite Hq].
Qed.
Lemma triple_answer {A} P (Q : A -> Files -> Prop) E (a : A) :
  (forall f, P f -> Q a f) -> triple (S := S) P (answer (Ok a)) Q E.
Proof. intros H w HP. by apply H. Qed.
Lemma triple_locally {A} P Q E (f : Files -> Files * result A string) :
  (forall files, P files -> match f files with (files', Ok a) => Q a files' | (files', Err _) => E files' end) ->
  triple (S := S) P (locally f) Q E.
Proof. intros H w HP. unfold locally. specialize (H _ HP). destruct (f (w_files w)) as [files [a|e]]; done. Qed.
Lemma triple_weaken {A} P P' Q Q' E E' (m : Client_ S A) :
  triple P' m Q' E' -> (forall f, P f -> P' f) -> (forall a f, Q' a f -> Q a f) -> (forall f, E' f -> E f) ->
  triple P m Q E.
Proof.
  intros Hm HP HQ HE w H. specialize (Hm w (HP _ H)). destruct (m w) as [w' [a|e]]; auto.
Qed.

End Reasoning.

(** Run an operation that leaves the files alone; [H] bounds what a failure leaves. *)
Ltac quiet_step H :=
  eapply triple_quiet;
    [solve [auto 10 with conversation]|first [apply yields_client|apply yields_message|apply yields_any]|exact H|].

#[export] Hint Resolve quiet_answer quiet_client quiet_message quiet_send quiet_then : conversation.
#[export] Hint Resolve emits_answer emits_client emits_message emits_locally : conversation.

Lemma quiet_get_admin `{Crypto : VaultCrypto} `{Web : WebLibs} {S : Type}
    (exchange : HttpRequest -> S -> S * result HttpResponse SendFailure) config conn path :
  quiet (get_admin exchange config conn path).
Proof. unfold get_admin. auto with conversation. Qed.
#[export] Hint Resolve quiet_get_admin : conversation.

(** ** Secrets *)

Section Secrets.
Context `{Crypto : VaultCrypto} `{Web : WebLibs} `{CJson : ClientJson}.
Context {S : Type} (exchange : HttpRequest -> S -> S * result HttpResponse SendFailure).

(** An endpoint that may see a token: HTTPS, or HTTP to a loopback address the
    configuration allows; nothing but the origin is given. *)
Record endpoint_ok (config : VaultConfig) (url : Url) : Prop := {
  eo_parsed : parse_url (vc_endpoint config) = Some url;
  eo_encrypted : url_scheme url = "https"
    \/ (url_scheme url = "http" /\ vc_allow_http_loopback config = true /\ vc_tls_ca_pem config = None
        /\ exists ip, (url_host url ≫= fun host => parse_ip (trim_brackets host)) = Some ip
                      /\ is_loopback ip = true);
  eo_bare : url_username url = "" /\ url_password url = None /\ url_query url = None
            /\ url_fragment url = None /\ (url_path url = "" \/ url_path url = "/");
}.

Lemma is_some_false {A} (o : option A) : is_some o = false <-> o = None.
Proof. by destruct o. Qed.

Lemma validated_endpoint_Ok (config : VaultConfig) (url : Url) :
  validated_endpoint config = Ok url -> endpoint_ok config url.
Proof.
  unfold validated_endpoint. intros (u & Hu & H)%ok_or_bind_Ok.
  apply guard_bind_Ok in H as (Hbare & H). apply guard_bind_Ok in H as (Henc & H).
  apply guard_bind_Ok in H as (Hca & H). apply res_bind_Ok in H as (_ & _ & H).
  apply guard_bind_Ok in H as (_ & H). apply guard_bind_Ok in H as (_ & [= <-]).
  split; [done| |].
  - destruct (String.eqb_spec (url_scheme u) "https") as [|Hs]; [by left|right].
    cbn in Henc, Hca. rewrite andb_true_r in Hca. apply is_some_false in Hca. split_bools.
    unfold host_loopback in *. destruct (url_host u ≫= _) as [ip|]; [|done].
    split_and!; [by apply String.eqb_eq|done|done|by exists ip].
  - split_bools. rewrite <- !is_some_false. split_and!; try done; [by apply String.eqb_eq|].
    match goal with H : str_mem _ _ = true |- _ => cbn in H;
      apply orb_true_iff in H as [H|H] end; [left|right; rewrite orb_false_r in *]; by apply String.eqb_eq.
Qed.

(** A client that follows no redirect, trusts only the configured roots when
    there are any, and reaches a plain HTTP endpoint directly. *)
Record connection_ok (config : VaultConfig) (conn : Connection) : Prop := {
  co_endpoint : endpoint_ok config (cn_url conn);
  co_redirect : cl_redirect (cn_client conn) = NoRedirects;
  co_roots : match vc_tls_ca_pem config with
             | None => cl_built_in_roots (cn_client conn) = true /\ cl_roots (cn_client conn) = []
             | Some pem => cl_built_in_roots (cn_client conn) = false /\ pem_bundle pem = Some (cl_roots (cn_client conn))
             end;
  co_proxy : url_scheme (cn_url conn) = "https" \/ cl_no_proxy (cn_client conn) = true;
}.

Lemma connection_Ok (config : VaultConfig) (conn : Connection) : connection config = Ok conn -> connection_ok config conn.
Proof.
  unfold connection. intros (u & Hu%validated_endpoint_Ok & H)%res_bind_Ok.
  apply res_bind_Ok in H as (builder & Hb & H). apply guard_bind_Ok in H as (_ & [= <-]).
  set (b := if String.eqb (url_scheme u) "http" then no_proxy builder else builder).
  assert (cl_redirect b = cl_redirect builder /\ cl_built_in_roots b = cl_built_in_roots builder
    /\ cl_roots b = cl_roots builder) as (E1 & E2 & E3) by (unfold b; by destruct (String.eqb _ _)).
  split; cbn [cn_url cn_client]; rewrite ?E1, ?E2, ?E3.
  - done.
  - destruct (vc_tls_ca_pem config); cbn [is_some] in Hb; [|by injection Hb as <-].
    by apply res_bind_Ok in Hb as (l & _ & [= <-]).
  - destruct (vc_tls_ca_pem config) as [pem|] eqn:Hpem; cbn [is_some] in Hb; [|by injection Hb as <-].
    apply res_bind_Ok in Hb as (l & Hl & [= <-]). split; [done|]. unfold tls_certificates in Hl. rewrite Hpem in Hl.
    apply guard_bind_Ok in Hl as (_ & Hl). apply ok_or_bind_Ok in Hl as (l' & Hl' & Hl).
    apply guard_bind_Ok in Hl as (_ & [= ->]). done.
  - destruct (eo_encrypted _ _ Hu) as [|(Hhttp & _)]; [by left|right]. unfold b. by rewrite Hhttp.
Qed.

(** A well-formed token: 16 to 4096 printable ASCII bytes. *)
Definition token_ok (t : string) : Prop :=
  16 <= slen t <= 4096 /\ str_all (fun c => negb (token_byte_bad c)) t = true.
Lemma token_Ok (t t' : string) : token t = Ok t' -> t' = t /\ token_ok t.
Proof.
  unfold token. intros (Hb & [= <-])%guard_bind_Ok. split; [done|]. split_bools. by split; [lia|].
Qed.

(** A request that carries [secret] to an endpoint that may see it: through a
    proxy only inside TLS, and trusting only the configured roots when there are any. *)
Definition confined (config : VaultConfig) (secret : string) (r : HttpRequest) : Prop :=
  endpoint_ok config (hq_endpoint r) /\ hq_bearer r = secret /\ token_ok secret
  /\ (hq_proxy r = None \/ url_scheme (hq_endpoint r) = "https")
  /\ match vc_tls_ca_pem config with
     | None => True
     | Some pem => cl_built_in_roots (hq_client r) = false /\ pem_bundle pem = Some (cl_roots (hq_client r))
     end.

Lemma emits_request (config : VaultConfig) (conn : Connection) (secret : string) method path query headers body :
  connection_ok config conn -> token_ok secret ->
  emits (confined config secret) (send exchange (new_request conn method path query secret headers body)).
Proof.
  intros [He Hr Hroots Hp] Ht. apply emits_send; [done|]. split_and!; try done.
  - destruct Hp as [Hp|Hp]; [by right|left]. cbn. by rewrite Hp.
  - by destruct (vc_tls_ca_pem config).
Qed.

Lemma emits_get_admin (config : VaultConfig) (conn : Connection) (path : string) : connection_ok config conn ->
  emits (confined config (vc_admin_token config)) (get_admin exchange config conn path).
Proof.
  intros Hu. unfold get_admin. apply emits_then; [apply emits_client|intros _].
  eapply emits_bind; [apply emits_client|apply yields_client|]. intros t (-> & Ht)%token_Ok.
  by apply emits_request.
Qed.

Lemma emits_connection {A} (config : VaultConfig) Q (k : Connection -> Client_ S A) :
  (forall conn, connection_ok config conn -> emits Q (k conn)) -> emits Q (then_ (client (connection config)) k).
Proof.
  intros Hk. eapply emits_bind; [apply emits_client|apply yields_client|]. intros u Hu%connection_Ok.
  by apply Hk.
Qed.

Lemma emits_upload_connected config bytes kind conn : connection_ok config conn ->
  emits (confined config (vc_upload_token config)) (upload_connected exchange config bytes kind conn).
Proof.
  intros Hu. unfold upload_connected. do 2 (apply emits_then; [apply emits_client|intros _]).
  eapply emits_bind; [apply emits_client|apply yields_client|]. intros t (-> & Ht)%token_Ok.
  apply emits_then; [by apply emits_request|intros r]. repeat (apply emits_then; [apply emits_client|intros ?]).
  apply emits_answer.
Qed.
Lemma emits_upload_bytes config bytes kind :
  emits (confined config (vc_upload_token config)) (upload_bytes exchange config bytes kind).
Proof. apply emits_connection. intros. by apply emits_upload_connected. Qed.
Lemma emits_upload_file config read kind :
  emits (confined config (vc_upload_token config)) (upload_file exchange config read kind).
Proof.
  apply emits_connection. intros. apply emits_then; [apply emits_client|intros b]. by apply emits_upload_connected.
Qed.
Lemma emits_fetch_file config env agent hash dest :
  emits (confined config (vc_admin_token config)) (fetch_file exchange config env agent hash dest).
Proof.
  apply emits_connection. intros conn Hu.
  repeat (apply emits_then; [solve [auto with conversation|by apply emits_get_admin]|intros ?]).
  apply emits_answer.
Qed.
Lemma emits_fetch_usage {U} `{Deserialize U} config :
  emits (confined config (vc_admin_token config)) (fetch_usage (U := U) exchange config).
Proof.
  apply emits_connection. intros conn Hu. apply emits_then; [by apply emits_get_admin|intros r]. apply emits_client.
Qed.

End Secrets.

(** ** New files *)

(** Only the temporary file and [path] change, and [path] only from nothing to
    contents that [good] describes. *)
Record placed (good : string -> Prop) (tmp path : string) (before after : Files) : Prop := {
  pl_others : forall p, p <> tmp -> p <> path -> after !! p = before !! p;
  pl_path : after !! path = before !! path \/ (before !! path = None /\ exists b, after !! path = Some b /\ good b);
}.

Lemma placed_refl good tmp path files : placed good tmp path files files.
Proof. split; [done|by left]. Qed.
(** The temporary file may change freely. *)
Lemma placed_temporary good tmp path files files' (o : option string) : tmp <> path ->
  placed good tmp path files files' -> placed good tmp path files (partial_alter (fun _ => o) tmp files').
Proof.
  intros Hne [Ho Hp]. split.
  - intros p H1 H2. rewrite lookup_partial_alter_ne by done. by apply Ho.
  - by rewrite lookup_partial_alter_ne.
Qed.
Lemma placed_delete good tmp path files files' : tmp <> path ->
  placed good tmp path files files' -> placed good tmp path files (delete tmp files').
Proof. apply placed_temporary. Qed.
Lemma placed_insert good tmp path files files' b : tmp <> path ->
  placed good tmp path files files' -> placed good tmp path files (<[tmp := b]> files').
Proof. apply placed_temporary. Qed.

Lemma publish_new_spec (good : string -> Prop) (env : WriteEnv) (before files : Files) (path b : string) :
  io_temporary env <> path -> placed good (io_temporary env) path before files ->
  files !! io_temporary env = Some b -> good b ->
  let '(after, r) := publish_new env files path in
  placed good (io_temporary env) path before after
  /\ (r = Ok tt -> before !! path = None /\ after !! path = Some b /\ after !! io_temporary env = None).
Proof.
  intros Hne Hpl Hb Hgood. unfold publish_new. destruct (io_synced env); [cbn|by split].
  destruct (io_linked env); [cbn|by split]. destruct (files !! path) eqn:Hp; [by split|cbn]. rewrite Hb.
  assert (before !! path = None) as Hnone.
  { destruct Hpl as [_ [H|(H & _)]]; congruence. }
  assert (placed good (io_temporary env) path before (<[path := b]> files)) as Hlinked.
  { split.
    - intros p H1 H2. rewrite lookup_insert_ne by done. by apply Hpl.
    - right. split; [done|]. exists b. by rewrite lookup_insert_eq. }
  destruct (io_removed env); [cbn|by split]. split; [by apply placed_delete|].
  intros _. rewrite lookup_delete_ne, lookup_insert_eq, lookup_delete_eq by done. done.
Qed.

Lemma clean_temporary_spec {A E} (good : string -> Prop) (env : WriteEnv) (before : Files) (path : string)
    (out : Files * result A E) :
  io_temporary env <> path -> placed good (io_temporary env) path before out.1 ->
  placed good (io_temporary env) path before (clean_temporary env out).1
  /\ (forall a, out.2 = Ok a -> clean_temporary env out = out)
  /\ (clean_temporary env out).2 = out.2.
Proof.
  intros Hne Hpl. destruct out as [files [a|e]]; cbn; [done|]. split; [|done].
  destruct (io_cleaned env); [by apply placed_delete|done].
Qed.

Lemma write_new_spec (good : string -> Prop) (env : WriteEnv) (files : Files) (path bytes : string) :
  io_temporary env <> path -> good bytes ->
  let '(after, r) := write_new env files path bytes in
  placed good (io_temporary env) path files after
  /\ (r = Ok tt -> files !! path = None /\ after !! path = Some bytes /\ after !! io_temporary env = None).
Proof.
  intros Hne Hgood. unfold write_new.
  destruct (negb (io_opened env) || _); [split; [apply placed_refl|done]|].
  set (out := match io_write env with Some _ => _ | None => _ end).
  assert (placed good (io_temporary env) path files out.1 /\ (out.2 = Ok tt ->
    files !! path = None /\ out.1 !! path = Some bytes /\ out.1 !! io_temporary env = None)) as [H1 H2].
  { unfold out. destruct (io_write env) as [n|].
    { split; [|done]. apply placed_insert; [done|apply placed_refl]. }
    pose proof (publish_new_spec good env files (<[io_temporary env := bytes]> files) path bytes Hne) as H.
    destruct (publish_new env _ path) as [after r]. apply H; [|by rewrite lookup_insert_eq|done].
    apply placed_insert; [done|apply placed_refl]. }
  destruct (clean_temporary_spec good env files path out Hne H1) as (H3 & H4 & H5).
  destruct (clean_temporary env out) as [after r] eqn:E. split; [done|].
  intros ->. cbn in H5. specialize (H4 tt (eq_sym H5)). destruct out as [o1 o2]. injection H4 as -> _.
  by apply H2.
Qed.

(** ** Objects *)

Section Objects.
Context `{Crypto : VaultCrypto} `{Web : WebLibs} `{CJson : ClientJson}.
Context {S : Type} (exchange : HttpRequest -> S -> S * result HttpResponse SendFailure).

(** A receipt of [bytes] that the pinned key signed. *)
Record receipt_for (config : VaultConfig) (agent hash bytes : string) (receipt : SignedReceipt) : Prop := {
  rf_signed : verify_receipt receipt (vc_pinned_pubkey config) = true;
  rf_key_id : re_key_id (sr_receipt receipt) = vc_key_id config;
  rf_agent : re_agent_id (sr_receipt receipt) = agent;
  rf_hash : re_sha256 (sr_receipt receipt) = hash;
  rf_body : body_sha256 bytes = hash;
  rf_size : re_size_bytes (sr_receipt receipt) = slen bytes;
}.

Lemma expected_receipt_Ok receipt config agent hash : expected_receipt receipt config agent hash = Ok tt ->
  verify_receipt receipt (vc_pinned_pubkey config) = true /\ re_key_id (sr_receipt receipt) = vc_key_id config
  /\ re_agent_id (sr_receipt receipt) = agent /\ re_sha256 (sr_receipt receipt) = hash.
Proof.
  unfold expected_receipt. intros (Hv & H%guard_Ok)%guard_bind_Ok. split_bools.
  split_and!; try done; by apply String.eqb_eq.
Qed.
Lemma verify_body_true bytes receipt : verify_body bytes receipt = true ->
  re_size_bytes (sr_receipt receipt) = slen bytes /\ re_sha256 (sr_receipt receipt) = body_sha256 bytes.
Proof. unfold verify_body. intros H. split_bools. split; [done|by apply String.eqb_eq]. Qed.

(** An upload that succeeds holds a receipt of exactly the bytes it sent. *)
Lemma upload_connected_yields config bytes kind conn :
  yields (upload_connected exchange config bytes kind conn) (fun receipt =>
    receipt_for config (vc_agent_id config) (body_sha256 bytes) bytes receipt
    /\ re_kind (sr_receipt receipt) = kind).
Proof.
  unfold upload_connected. do 4 (apply yields_then; intros ?). apply yields_then. intros receipt.
  eapply yields_bind; [apply yields_client|]. intros [] (Hv & Hk & Ha & Hh)%expected_receipt_Ok.
  eapply yields_bind; [apply yields_client|]. intros [] H%guard_Ok. split_bools.
  apply yields_answer. split; [|by apply String.eqb_eq]. by split.
Qed.
Lemma upload_bytes_yields config bytes kind :
  yields (upload_bytes exchange config bytes kind) (fun receipt =>
    receipt_for config (vc_agent_id config) (body_sha256 bytes) bytes receipt
    /\ re_kind (sr_receipt receipt) = kind).
Proof. apply yields_then. intros. apply upload_connected_yields. Qed.

(** The network client of the worker of the queue. *)
Definition client_upload (config : VaultConfig) (kind : string) (w : Conversation S) (bytes : string)
    : result SignedReceipt string :=
  match (upload_bytes exchange config bytes kind w).2 with
  | Ok receipt => Ok receipt
  | Err e => Err (error_code e)
  end.

Lemma completed_item_verified (config : VaultConfig) (target : QueueTarget) (item : QueueItem)
    (bytes : string) (receipt : SignedReceipt) (now : Z) :
  (forall k r, receipt_signed (key_hex k) r = receipt_signed k r) ->
  target_from_config config = Ok target -> id_ok (qi_id item) = true -> intact item bytes = true ->
  receipt_for config (vc_agent_id config) (body_sha256 bytes) bytes receipt ->
  re_kind (sr_receipt receipt) = qi_kind item ->
  verified_item (completed_item item receipt now) target = Ok tt.
Proof.
  intros Hhex Ht Hid Hin [Hv Hk Ha Hsha _ Hsize] Hkind. unfold target_from_config in Ht.
  destruct (validated_endpoint config) as [url|]; [|done]. apply guard_bind_Ok in Ht as (_ & Ht).
  destruct (tls_ca_sha256 config) as [ca|]; [|done]. injection Ht as <-.
  unfold intact in Hin. split_bools.
  assert (verify_receipt receipt (key_hex (vc_pinned_pubkey config)) = true) as Hv'.
  { unfold verify_receipt in *. by rewrite Hhex. }
  unfold verified_item. cbn. rewrite Hv'. cbn. apply guard_Ok. rewrite Hid, Ha, Hk, Hkind, Hsha, Hsize.
  rewrite !String.eqb_refl. cbn. by rewrite (proj2 (Z.eqb_eq _ _) H), H0.
Qed.

(** What the client uploads for the worker of the queue is accepted by the
    queue. The second check of the receipt, against the target of the queue, never
    turns a successful upload into an error, and the receipt it returns completes
    the leased item: the queue can archive it. *)
Theorem worker_upload_verified (config : VaultConfig) (target : QueueTarget) (st : QueueState) (lease : Lease)
    (now : Z) (w : Conversation S) :
  (forall k r, receipt_signed (key_hex k) r = receipt_signed k r) ->
  target_from_config config = Ok target -> id_ok (qi_id (ls_item lease)) = true ->
  let item := ls_item lease in
  let sent := send_lease st target (vc_max_object_bytes config) lease (client_upload config (qi_kind item) w) now in
  sent = (let? bytes := ok_or (read_snapshot st (qi_id item) (vc_max_object_bytes config)) "queue_local" in
          let? _ := guard (negb (intact item bytes)) "queue_local" in
          client_upload config (qi_kind item) w bytes)
  /\ forall receipt, sent = Ok receipt -> verified_item (completed_item item receipt now) target = Ok tt.
Proof.
  intros Hhex Ht Hid item sent. unfold sent, send_lease, item. clear sent item.
  set (item := ls_item lease) in *.
  destruct (ok_or (read_snapshot _ _ _) _) as [bytes|]; cbn [res_bind]; [|done].
  destruct (intact item bytes) eqn:Hin; cbn [negb guard res_bind]; [|done]. unfold client_upload.
  destruct (upload_bytes _ _ _ _ w) as [w' [receipt|e]] eqn:Hu; cbn [snd res_bind]; [|done].
  apply upload_bytes_yields in Hu as [Hf Hkind].
  rewrite (completed_item_verified config target item bytes receipt now Hhex Ht Hid Hin Hf Hkind).
  split; [done|]. intros receipt' [= <-].
  exact (completed_item_verified config target item bytes receipt now Hhex Ht Hid Hin Hf Hkind).
Qed.

(** What [fetch_file] writes is the object its caller asked for: whatever the
    server answers, the destination is either as before or a new file with that
    hash and a size within the limit. *)
Theorem fetched_file_verified (config : VaultConfig) (env : WriteEnv) (agent hash dest : string)
    (w : Conversation S) :
  io_temporary env <> dest ->
  let '(w', r) := fetch_file exchange config env agent hash dest w in
  placed (fun b => body_sha256 b = hash /\ slen b <= vc_max_object_bytes config)
    (io_temporary env) dest (w_files w) (w_files w')
  /\ (forall receipt, r = Ok receipt ->
       exists b, w_files w' !! dest = Some b /\ receipt_for config agent hash b receipt).
Proof.
  intros Hne. set (good := fun b => body_sha256 b = hash /\ slen b <= vc_max_object_bytes config).
  assert (triple (fun f => f = w_files w) (fetch_file exchange config env agent hash dest)
    (fun receipt f => placed good (io_temporary env) dest (w_files w) f
       /\ exists b, f !! dest = Some b /\ receipt_for config agent hash b receipt)
    (placed good (io_temporary env) dest (w_files w))) as H.
  2: { specialize (H w eq_refl). destruct (fetch_file _ _ _ _ _ _ w) as [w' [r|e]]; [|done].
       destruct H as [H1 H2]. split; [done|]. by intros ? [= <-]. }
  assert (Hsame : forall f, f = w_files w -> placed good (io_temporary env) dest (w_files w) f)
    by (intros f ->; apply placed_refl).
  unfold fetch_file. do 2 (quiet_step Hsame; intros).
  eapply triple_then; [apply (triple_locally _ (fun _ f => f = w_files w)); intros f Hf; cbn; destruct (is_some _); cbn; [by apply Hsame|done]|].
  intros []. cbn beta.
  quiet_step Hsame. intros r1 _. quiet_step Hsame. intros receipt _.
  quiet_step Hsame. intros [] (Hv & Hk & Ha & Hh)%expected_receipt_Ok.
  quiet_step Hsame. intros [] Hmax%guard_Ok. quiet_step Hsame. intros r2 _. quiet_step Hsame. intros bytes _.
  quiet_step Hsame. intros [] Hbody%guard_Ok. apply negb_false_iff, verify_body_true in Hbody as [Hs Hsha].
  apply Z.ltb_ge in Hmax.
  eapply (triple_then _ _ _ _ (fun _ f => placed good (io_temporary env) dest (w_files w) f
    /\ exists b, f !! dest = Some b /\ receipt_for config agent hash b receipt)); [|intros []; by apply triple_answer].
  apply triple_locally. intros f ->. assert (good bytes) as Hgood by (split; [congruence|lia]).
  pose proof (write_new_spec good env (w_files w) dest bytes Hne Hgood) as Hw.
  destruct (write_new _ _ _ _) as [f [[]|e]]; destruct Hw as [Hw1 Hw2]; [|done].
  destruct (Hw2 eq_refl) as (_ & Hd & _). split; [done|]. exists bytes. split; [done|]. by split; [..|congruence|].
Qed.

End Objects.

(** * A conversation *)

Module Talk.
#[local] Existing Instances Sample.json Sample.crypto.

(** Receipts as text. *)
Definition receipt_ser (r : SignedReceipt) : string :=
  Sample.fields [Sample.receipt_text (sr_receipt r); sr_signature_hex r].
Definition receipt_of (l : list string) : option Receipt :=
  match l with
  | [f; k; a; d; h; s; t; u] =>
      s ← Sample.str_z s; t ← Sample.str_z t; u ← Sample.str_z u; Some (mkReceipt f k a d h s t u)
  | _ => None
  end.
Definition parse_receipt (s : string) : option SignedReceipt :=
  match Sample.untext s with
  | Some [r; g] => r ← Sample.untext r ≫= receipt_of; Some (mkSignedReceipt r g)
  | _ => None
  end.
#[local] Instance client_json : ClientJson := {| receipt_de := parse_receipt |}.
(** The environment names a proxy, and a client that follows redirects would go
    to another host in plain text. *)
Definition elsewhere (q : HttpRequest) (response : HttpResponse) : option HttpRequest :=
  if (300 <=? hr_status response) && (hr_status response <=? 399)
  then Some (mkHttpRequest (hq_client q) (hq_proxy q) (hq_method q)
               (mkUrl "http://evil.example/" "http" "" None (Some "evil.example") "/" None None)
               (hq_path q) (hq_query q) (hq_bearer q) (hq_headers q) (hq_body q))
  else None.
Definition web_at (scheme host : string) : WebLibs := {|
  parse_url s := Some (mkUrl s scheme "" None (Some host) "/" None None);
  pem_bundle _ := None;
  joins _ _ := true;
  client_builds _ := true;
  system_proxy _ := Some "proxy.example:3128";
  redirected := elsewhere;
  key_hex k := k;
|}.
#[local] Instance web : WebLibs := web_at "https" "vault.example".

Definition config : VaultConfig :=
  mkVaultConfig "https://vault.example/" "a" "upload-token-0123" "admin-token-01234" "pub" "k" false None 65536 30.
Definition ack : SignedReceipt :=
  let r := mkReceipt FORMAT "k" "a" "backup" (Sample.sha "hello") 5 2500 9000 in
  mkSignedReceipt r (Sample.sha (Sample.receipt_text r)).
(** A server that reads its answers from a list. *)
Definition scripted (_ : HttpRequest) (answers : list HttpResponse)
    : list HttpResponse * result HttpResponse SendFailure :=
  match answers with [] => ([], Err (mkSendFailure false true)) | a :: rest => (rest, Ok a) end.
Definition ok_with (b : string) : HttpResponse := mkHttpResponse 200 None b None.
Definition talk (answers : list HttpResponse) : Conversation (list HttpResponse) := mkConversation answers [] ∅.

Definition target : QueueTarget := mkQueueTarget "https://vault.example/" "a" "k" "pub" false None.
Definition item_id : string := Sample.hex_digits 32 9.
Definition lease : Lease := mkLease (new_item item_id "backup" (Sample.sha "hello") 5 1000) "t1".
Definition queue : QueueState :=
  mkQueueState target QueueLimits_default ∅ ∅ {[snapshot_name item_id := mkObjectFile true true "hello"]}.

Example refused_answers : map (fun status => error_code (Client (status_error status))) [403; 429; 503; 507; 404]
  = ["authentication"; "rate_limit"; "server_transient"; "capacity"; "request_rejected"].
Proof. reflexivity. Qed.
Example connect_failed : (upload_bytes scripted config "hello" "backup" (talk [])).2 = Err (Client Connect).
Proof. vm_compute. reflexivity. Qed.
(** HTTP is refused unless it is allowed and the host is a literal loopback address. *)
Definition http_config (host : string) (allow : bool) : WebLibs * VaultConfig :=
  (web_at "http" host,
   mkVaultConfig "http" "a" "" "" "pub" "k" allow None 65536 30).
Example http_ex :
  map (fun c => is_ok (validated_endpoint (Web := c.1) c.2))
    [http_config "127.0.0.1" true; http_config "[::1]" true; http_config "127.0.0.1" false;
     http_config "localhost" true; http_config "[::ffff:127.0.0.1]" true]
  = [true; true; false; false; false].
Proof. vm_compute. reflexivity. Qed.

Lemma worker_upload_verified_witness :
  verified_item (completed_item (ls_item lease) ack 3000) target = Ok tt.
Proof.
  assert (Ht : target_from_config config = Ok target) by (vm_compute; reflexivity).
  assert (Hid : id_ok (qi_id (ls_item lease)) = true) by (vm_compute; reflexivity).
  assert (Hs : send_lease queue target (vc_max_object_bytes config) lease
    (client_upload scripted config (qi_kind (ls_item lease)) (talk [ok_with (receipt_ser ack)])) 3000 = Ok ack)
    by (vm_compute; reflexivity).
  exact (proj2 (worker_upload_verified scripted config target queue lease 3000
    (talk [ok_with (receipt_ser ack)]) (fun _ _ => eq_refl) Ht Hid) ack Hs).
Defined.

End Talk.
