(* ===== verification/BundleClient.v ===== *)
(** The bundle client of the vault (crates/argos-vault/src/bundle/client.rs): the
    preparation of a file in chunks, the upload of a prepared bundle, the records
    and lists a server returns, and the reassembly of a bundle in a new file. *)
From Stdlib Require Import ZArith Lia Ascii.
From stdpp Require Import base gmap strings list pretty sorting.
From S2P Require Import Prelude RustPath Receipts Bundle VaultQuota BundleServer VaultQueue BundleJobs VaultClient.
#[local] Open Scope Z_scope.

(** * Preparing a file *)

(** [same]: what two looks at a file must have in common; the first four of
    [fm_identity] are dev, ino, ctime and ctime_nsec. *)
Definition same_file (a b : FileMeta) : bool :=
  fm_is_file a && fm_is_file b && (fm_len a =? fm_len b)
  && bool_decide (fm_modified a = fm_modified b)
  && bool_decide (take 4 (fm_identity a) = take 4 (fm_identity b)).

(** [private_new_dir]; whether the parent is private, the directory is new and
    the parent is synced. *)
Record NewDir := mkNewDir {
  nd_parent_private : bool;
  nd_created : bool;
  nd_synced : bool;
}.
Definition private_new_dir (path : string) (env : NewDir) : result unit string :=
  let? _ := guard (negb (is_absolute path) || existsb (fun c => bool_decide (c = ParentDir)) (components path))
              "새 번들 경로는 .. 없는 절대 경로여야 합니다" in
  let? _ := ok_or (path_parent path) "번들 부모 경로 없음" in
  let? _ := guard (negb (nd_parent_private env)) "validate_private_directory" in
  let? _ := guard (negb (nd_created env)) "create" in
  guard (negb (nd_synced env)) "sync_directory".

(** The reads of at most [size] bytes until the end; [room] is what is left of
    the current one. *)
Definition cons_head (c : ascii) (pieces : list string) : list string :=
  match pieces with [] => [String c ""] | p :: rest => String c p :: rest end.
Fixpoint pieces_from (size room : Z) (s : string) : list string :=
  match s with
  | EmptyString => []
  | String c rest =>
      if room <=? 1 then String c "" :: pieces_from size size rest
      else cons_head c (pieces_from size (room - 1) rest)
  end.
Definition pieces (size : Z) (s : string) : list string := pieces_from size size s.

(** What [prepare] meets: the looks at the source, the bytes the open file
    yields up to its end or a failed read, and the outcomes of its writes. *)
Record PrepareEnv := mkPrepareEnv {
  pp_before_path : option FileMeta;
  pp_before : option FileMeta;
  pp_random : option string;
  pp_now_ms : Z;
  pp_stage : string;
  pp_stage_dir : NewDir;
  pp_chunks_dir : NewDir;
  pp_input : string;
  pp_broken : bool;
  pp_write_chunk : string -> write_outcome;
  pp_after : option FileMeta;
  pp_path_after : option FileMeta;
  pp_write_manifest : write_outcome;
}.

(** The prepared directory: the chunks by hash and manifest.json. *)
Record Prepared := mkPrepared {
  pd_chunks : gmap string string;
  pd_manifest : option string;
}.

(** [serde_json::to_vec_pretty] of a manifest. *)
Class PrettyJson := manifest_pretty : BundleManifest -> string.

(** serde_json on the values of the requests and answers. *)
Class BundleClientJson := {
  record_de :: Deserialize BundleRecord;
  list_de :: Deserialize BundleList;
  request_ser :: Serialize ReviewRequest;
}.

Definition zeros : string := "0000000000000000000000000000000000000000000000000000000000000000".
Definition draft (id : string) (now : Z) (metadata : BundleMetadata) (len : Z) : BundleManifest :=
  mkBundleManifest "argos-recovery-bundle-v1" id now metadata zeros len [mkChunk zeros 1].
Definition finished (m : BundleManifest) (sha256 : string) (chunks : list Chunk) : BundleManifest :=
  mkBundleManifest (mf_format m) (mf_bundle_id m) (mf_created_at_ms m) (mf_metadata m) sha256
    (mf_size_bytes m) chunks.

(** The prepared directory as the operations that upload it read it. *)
Definition stage_of (p : Prepared) : Stage :=
  mkStage true true (pd_manifest p) (fun hash => pd_chunks p !! hash).

Section Prepare.
Context `{Crypto : VaultCrypto} `{Json : BundleJson} `{Pretty : PrettyJson}.

(** The loop over the reads: the sum, the bytes hashed so far, the files and the chunks. *)
Fixpoint write_pieces (env : PrepareEnv) (limit total : Z) (full : string) (files : gmap string string)
    (chunks : list Chunk) (reads : list string)
    : gmap string string * result (Z * string * list Chunk) string :=
  match reads with
  | [] => (files, if pp_broken env then Err "read_to_end" else Ok (total, full, chunks))
  | bytes :: rest =>
      match (let? _ := guard (pp_broken env && (slen bytes <? CHUNK_BYTES)) "read_to_end" in
             let? total := ok_or (checked_add total (slen bytes)) "번들 크기 초과" in
             let? _ := guard ((MAX_BUNDLE_BYTES <? total) || (limit <? total)) "입력이 읽는 중 커졌습니다" in
             Ok total) with
      | Err e => (files, Err e)
      | Ok total =>
          let hash := body_sha256 bytes in
          let fresh := negb (is_some (files !! hash)) in
          let files := if fresh && linked (pp_write_chunk env hash) then <[hash := bytes]> files else files in
          if fresh && negb (written (pp_write_chunk env hash)) then (files, Err "write_new")
          else write_pieces env limit total (String.append full bytes) files
                 (chunks ++ [mkChunk hash (slen bytes)]) rest
      end
  end.

Definition prepare_begin (env : PrepareEnv) (metadata : BundleMetadata) : result (FileMeta * BundleManifest) string :=
  let? before_path := ok_or (pp_before_path env) "symlink_metadata" in
  let? _ := guard (fm_is_symlink before_path) "입력 symlink 거부" in
  let? before := ok_or (pp_before env) "open" in
  let? _ := guard (negb (same_file before before_path) || (fm_len before =? 0)
                   || (MAX_BUNDLE_BYTES <? fm_len before)) "번들 입력 신원/크기 오류(1바이트~1GiB)" in
  let? id := ok_or (pp_random env) "번들 ID 생성 실패" in
  let m := draft id (pp_now_ms env) metadata (fm_len before) in
  let? _ := guard ((MAX_MANIFEST_BYTES <? slen (to_json m))
                   || is_some_and (bm_recovery_plan metadata) (fun p => 65536 <? slen p)
                   || negb (is_absolute (bm_original_path metadata))) "번들 메타데이터 오류" in
  let? _ := private_new_dir (pp_stage env) (pp_stage_dir env) in
  let? _ := private_new_dir (pp_stage env +:+ "/chunks") (pp_chunks_dir env) in
  Ok (before, m).

Definition prepare_end (env : PrepareEnv) (before : FileMeta) (m : BundleManifest)
    (read : Z * string * list Chunk) : result BundleManifest string :=
  let '(total, full, chunks) := read in
  let? after := ok_or (pp_after env) "metadata" in
  let? path_after := ok_or (pp_path_after env) "symlink_metadata" in
  let? _ := guard (negb (total =? fm_len before) || negb (same_file before after)
                   || negb (same_file before path_after) || fm_is_symlink path_after)
              "읽는 동안 입력 파일/경로 변경" in
  let m := finished m (body_sha256 full) chunks in
  let? _ := validate m in
  Ok m.

Definition prepare_bundle (env : PrepareEnv) (metadata : BundleMetadata) : Prepared * result BundleManifest string :=
  match prepare_begin env metadata with
  | Err e => (mkPrepared ∅ None, Err e)
  | Ok (before, m) =>
      let '(files, read) := write_pieces env (fm_len before) 0 "" ∅ [] (pieces CHUNK_BYTES (pp_input env)) in
      match (let? read := read in prepare_end env before m read) with
      | Err e => (mkPrepared files None, Err e)
      | Ok m =>
          (mkPrepared files (if linked (pp_write_manifest env) then Some (manifest_pretty m) else None),
           if written (pp_write_manifest env) then Ok m else Err "write_new")
      end
  end.

End Prepare.

(** * Lists *)

(** The first loop of [validate_page]: the set of the IDs, in order. *)
Fixpoint page_ids (after : option string) (ids : list string) (l : list string) : result (list string) string :=
  match l with
  | [] => Ok (sort ids)
  | id :: rest =>
      let? _ := guard (negb (valid_bundle_id id)
                       || is_some_and after (fun cursor => match cmp id cursor with Gt => false | _ => true end)
                       || str_mem id ids) "번들 목록 ID/범위/중복 오류" in
      page_ids after (id :: ids) rest
  end.
Definition bad_item (item : BundleSummary) : bool :=
  negb (valid_hash (sm_sha256 item))
  || negb ((1 <=? sm_size_bytes item) && (sm_size_bytes item <=? MAX_BUNDLE_BYTES))
  || negb (str_mem (sm_current_review item) ["unknown"; "good"; "revoked"])
  || negb (Bool.eqb (sm_recommended item) (sm_complete item && String.eqb (sm_current_review item) "good")).
Definition shown_ids (page : BundleList) : list string :=
  map sm_bundle_id (bl_items page) ++ map ub_bundle_id (bl_unavailable page).
Definition validate_page (page : BundleList) (agent : string) (after : option string) (limit : Z)
    : result unit string :=
  let? ids := page_ids after [] (shown_ids page) in
  guard (negb (String.eqb (bl_agent_id page) agent) || (limit <? zlen ids)
         || existsb (fun item => negb (String.eqb (ub_reason item) "bundle_state_unavailable")) (bl_unavailable page)
         || existsb bad_item (bl_items page)
         || is_some_and (bl_next_cursor page) (fun cursor =>
              negb (valid_bundle_id cursor) || negb (bool_decide (list.last ids = Some cursor))))
    "번들 목록 응답 범위/상태 오류".

(** * Requests *)

Definition RECORD_BYTES : Z := 2 * 1024 * 1024.

Section Requests.
Context `{Crypto : VaultCrypto} `{Json : BundleJson} `{Web : WebLibs} `{CJson : ClientJson}
  `{BJson : BundleClientJson}.
Context {S : Type} (exchange : HttpRequest -> S -> S * result HttpResponse SendFailure).

(** [url.join(..)?]. *)
Definition join_message (conn : Connection) (path : string) : result unit string :=
  guard (negb (joins (cn_url conn) path)) "join".

Definition parse_json {A} `{Deserialize A} (bytes : string) : result A string :=
  ok_or (of_json bytes) "번들 JSON 형식 오류".

Definition record_response (config : VaultConfig) (agent id : string) (response : HttpResponse)
    : Client_ S BundleRecord :=
  do? bytes := client (read_response response RECORD_BYTES) in
  do? record := message (parse_json (A := BundleRecord) bytes) in
  do? _ := message (verify_record record (vc_pinned_pubkey config) (vc_key_id config)) in
  do? _ := message (guard (negb (String.eqb (bd_agent_id record) agent)
                           || negb (String.eqb (mf_bundle_id (bd_manifest record)) id))
                      "서버가 다른 번들을 반환했습니다") in
  answer (Ok record).

(** A request with a bearer token, and the record it returns. *)
Definition record_request (config : VaultConfig) (method : Method) (conn : Connection) (path secret body agent id : string)
    : Client_ S BundleRecord :=
  do? _ := message (join_message conn path) in
  do? bearer := client (token secret) in
  do? response := send exchange (new_request conn method path [] bearer [] body) in
  record_response config agent id response.

Definition register_manifest (config : VaultConfig) (manifest : BundleManifest) : Client_ S BundleRecord :=
  do? _ := message (validate manifest) in
  do? _ := message (guard (negb (valid_id (vc_agent_id config))) "에이전트 ID 오류") in
  do? conn := client (connection config) in
  do? record := record_request config POST conn "v1/bundles" (vc_upload_token config) (to_json manifest)
                  (vc_agent_id config) (mf_bundle_id manifest) in
  do? _ := message (guard (negb (bool_decide (bd_manifest record = manifest)))
                      "등록 응답 manifest가 요청과 다릅니다") in
  answer (Ok record).

Definition complete (config : VaultConfig) (bundle_id : string) : Client_ S BundleRecord :=
  do? _ := message (guard (negb (valid_bundle_id bundle_id) || negb (valid_id (vc_agent_id config)))
                      "번들/에이전트 ID 오류") in
  do? conn := client (connection config) in
  do? record := record_request config POST conn ("v1/bundles/" +:+ bundle_id +:+ "/complete")
                  (vc_upload_token config) "" (vc_agent_id config) bundle_id in
  do? _ := message (guard (negb (is_some (bd_completion record))) "서버가 번들 완료를 확인하지 않았습니다") in
  answer (Ok record).

(** The loop over the chunks of the prepared directory. *)
Definition read_chunk (stage : Stage) (chunk : Chunk) : result string string :=
  let? bytes := ok_or (opt_filter (fun b => slen b <=? CHUNK_BYTES) (sg_chunk stage (ch_sha256 chunk)))
                  "read_bounded" in
  let? _ := guard (negb (slen bytes =? ch_size_bytes chunk)
                   || negb (String.eqb (body_sha256 bytes) (ch_sha256 chunk))) "준비된 청크 내용 불일치" in
  Ok bytes.
Fixpoint upload_chunks (config : VaultConfig) (stage : Stage) (chunks : list Chunk) : Client_ S unit :=
  match chunks with
  | [] => answer (Ok tt)
  | chunk :: rest =>
      do? bytes := message (read_chunk stage chunk) in
      do? _ := upload_bytes exchange config bytes "backup" in
      upload_chunks config stage rest
  end.

Definition upload_prepared (config : VaultConfig) (stage : Stage) : Client_ S BundleRecord :=
  do? _ := message (guard (negb (sg_private stage)) "validate_private_directory") in
  do? manifest := message (read_manifest (sg_manifest stage)) in
  do? _ := register_manifest config manifest in
  do? _ := upload_chunks config stage (mf_chunks manifest) in
  do? record := complete config (mf_bundle_id manifest) in
  do? _ := message (guard (negb (bool_decide (bd_manifest record = manifest)))
                      "완료 응답 manifest가 준비한 번들과 다릅니다") in
  answer (Ok record).

Definition get (config : VaultConfig) (agent bundle_id : string) : Client_ S BundleRecord :=
  do? _ := message (guard (negb (valid_id agent) || negb (valid_bundle_id bundle_id)) "번들/에이전트 ID 오류") in
  do? conn := client (connection config) in
  record_request config GET conn ("v1/bundles/" +:+ agent +:+ "/" +:+ bundle_id)
    (vc_admin_token config) "" agent bundle_id.

Definition list_remote (config : VaultConfig) (agent : string) (after : option string) (limit : Z)
    : Client_ S BundleList :=
  do? _ := message (guard (negb (valid_id agent) || negb ((1 <=? limit) && (limit <=? 100))
                           || is_some_and after (fun id => negb (valid_bundle_id id))) "번들 목록 범위 오류") in
  do? conn := client (connection config) in
  let path := "v1/bundles/" +:+ agent in
  do? _ := message (join_message conn path) in
  do? bearer := client (token (vc_admin_token config)) in
  let query := ("limit", pretty limit) :: (match after with Some id => [("after", id)] | None => [] end) in
  do? response := send exchange (new_request conn GET path query bearer [] "") in
  do? bytes := client (read_response response RECORD_BYTES) in
  do? page := message (parse_json (A := BundleList) bytes) in
  do? _ := message (validate_page page agent after limit) in
  answer (Ok page).

Definition review_remote (config : VaultConfig) (agent bundle_id : string) (request : ReviewRequest)
    : Client_ S BundleRecord :=
  do? _ := message (validate_review request) in
  do? _ := message (guard (negb (valid_id agent) || negb (valid_bundle_id bundle_id)) "번들/에이전트 ID 오류") in
  do? conn := client (connection config) in
  do? record := record_request config POST conn ("v1/bundles/" +:+ agent +:+ "/" +:+ bundle_id +:+ "/reviews")
                  (vc_admin_token config) (to_json request) agent bundle_id in
  do? _ := message (guard (negb (existsb (fun e => bool_decide (ev_request (si_value e) = request))
                                  (bd_reviews record))) "검토 요청 적용 증명이 없습니다") in
  answer (Ok record).

(** * Reassembly *)

(** The outcomes of the local calls of [fetch]: [fe_writes] is what a failed
    write of a chunk left, by the index of the chunk. *)
Record FetchEnv := mkFetchEnv {
  fe_parent_private : bool;
  fe_random : option string;
  fe_writes : nat -> option nat;
  fe_io : WriteEnv;
}.
Definition at_temporary (env : WriteEnv) (temporary : string) : WriteEnv :=
  mkWriteEnv temporary (io_opened env) (io_write env) (io_synced env) (io_linked env) (io_removed env)
    (io_directory env) (io_cleaned env).

Definition write_all (temporary bytes : string) (failed : option nat) (files : Files)
    : Files * result unit string :=
  let old := default "" (files !! temporary) in
  match failed with
  | Some n => (<[temporary := String.append old (String.substring 0 n bytes)]> files, Err "write_all")
  | None => (<[temporary := String.append old bytes]> files, Ok tt)
  end.

Definition chunk_receipt_bad (config : VaultConfig) (agent : string) (chunk : Chunk) (receipt : SignedReceipt)
    : bool :=
  let r := sr_receipt receipt in
  negb (String.eqb (re_agent_id r) agent) || negb (String.eqb (re_key_id r) (vc_key_id config))
  || negb (String.eqb (re_kind r) "backup") || negb (String.eqb (re_sha256 r) (ch_sha256 chunk))
  || negb (re_size_bytes r =? ch_size_bytes chunk).

(** One GET of [fetch]. *)
Definition fetch_part (conn : Connection) (bearer path : string) (maximum : Z) : Client_ S string :=
  do? _ := message (join_message conn path) in
  do? response := send exchange (new_request conn GET path [] bearer [] "") in
  client (read_response response maximum).

(** The loop over the chunks, with the bytes so far. *)
Fixpoint fetch_chunks (config : VaultConfig) (env : FetchEnv) (temporary : string) (conn : Connection)
    (bearer agent : string) (k : nat) (full : string) (chunks : list Chunk) : Client_ S string :=
  match chunks with
  | [] => answer (Ok full)
  | chunk :: rest =>
      let name := agent +:+ "/" +:+ ch_sha256 chunk in
      do? answered := fetch_part conn bearer ("v1/receipts/" +:+ name) MAX_RECEIPT_BYTES in
      do? receipt := message (parse_json (A := SignedReceipt) answered) in
      do? _ := message (guard (negb (verify_receipt receipt (vc_pinned_pubkey config)))
                          "수신증명 필드/형식이 유효하지 않습니다") in
      do? _ := message (guard (chunk_receipt_bad config agent chunk receipt) "청크 수신증명 불일치") in
      do? bytes := fetch_part conn bearer ("v1/objects/" +:+ name) CHUNK_BYTES in
      do? _ := message (guard (negb (verify_body bytes receipt)) "본문 해시/크기가 수신증명과 다릅니다") in
      do? _ := locally (write_all temporary bytes (fe_writes env k)) in
      fetch_chunks config env temporary conn bearer agent (Datatypes.S k) (String.append full bytes) rest
  end.

(** The closure of [fetch]. *)
Definition fetch_into (config : VaultConfig) (env : FetchEnv) (temporary agent bundle_id destination : string)
    (evidence_only : bool) (record : BundleRecord) : Client_ S BundleRecord :=
  do? conn := client (connection config) in
  do? bearer := client (token (vc_admin_token config)) in
  do? full := fetch_chunks config env temporary conn bearer agent 0 "" (mf_chunks (bd_manifest record)) in
  do? _ := message (guard (negb (slen full =? mf_size_bytes (bd_manifest record))
                           || negb (String.eqb (body_sha256 full) (mf_sha256 (bd_manifest record))))
                      "재조립 전체 해시/크기 불일치") in
  do? latest := get config agent bundle_id in
  do? _ := message (guard (negb (bool_decide (bd_manifest latest = bd_manifest record))
                           || negb (bool_decide (bd_completion latest = bd_completion record))
                           || (negb evidence_only && negb (bd_recommended latest)))
                      "복구 전송 중 정상 판정/완료 상태 변경") in
  do? _ := locally (fun files => publish_new (at_temporary (fe_io env) temporary) files destination) in
  answer (Ok latest).

(** A failure removes the temporary file. *)
Definition cleaning {A} (env : WriteEnv) (m : Client_ S A) : Client_ S A :=
  fun w => let '(w, r) := m w in
           let '(files, r) := clean_temporary env (w_files w, r) in
           (mkConversation (w_server w) (w_trace w) files, r).

Definition fetch (config : VaultConfig) (env : FetchEnv) (agent bundle_id destination : string)
    (evidence_only : bool) : Client_ S BundleRecord :=
  do? record := get config agent bundle_id in
  do? _ := message (guard (negb (is_some (bd_completion record)) || (negb evidence_only && negb (bd_recommended record)))
                      "완료된 원격 정상 판정이 없어 복구를 보류합니다") in
  do? parent := message (ok_or (path_parent destination) "복구 부모 경로 없음") in
  do? _ := message (guard (negb (fe_parent_private env)) "validate_private_directory") in
  do? _ := locally (fun files => (files, guard (is_some (files !! destination)) "복구 파일은 새 경로여야 합니다")) in
  do? random := message (ok_or (fe_random env) "임시 이름 생성 실패") in
  let temporary := parent +:+ "/.argos-bundle-" +:+ random +:+ ".tmp" in
  do? _ := locally (fun files =>
             if negb (io_opened (fe_io env)) || is_some (files !! temporary) then (files, Err "open")
             else (<[temporary := ""]> files, Ok tt)) in
  cleaning (at_temporary (fe_io env) temporary)
    (fetch_into config env temporary agent bundle_id destination evidence_only record).

End Requests.

(** * What the operations leave alone and what they send *)

Section Effects.
Context `{Crypto : VaultCrypto} `{Json : BundleJson} `{Web : WebLibs} `{CJson : ClientJson}
  `{BJson : BundleClientJson}.
Context {S : Type} (exchange : HttpRequest -> S -> S * result HttpResponse SendFailure).

Lemma quiet_record_response config agent id response :
  quiet (S := S) (record_response config agent id response).
Proof. unfold record_response. auto 10 with conversation. Qed.
#[local] Hint Resolve quiet_record_response : conversation.
Lemma quiet_record_request config method conn path secret body agent id :
  quiet (record_request exchange config method conn path secret body agent id).
Proof. unfold record_request. auto 10 with conversation. Qed.
#[local] Hint Resolve quiet_record_request : conversation.
Lemma quiet_get config agent id : quiet (get exchange config agent id).
Proof. unfold get. auto 10 with conversation. Qed.
Lemma quiet_fetch_part conn bearer path maximum : quiet (fetch_part exchange conn bearer path maximum).
Proof. unfold fetch_part. auto 10 with conversation. Qed.

(** A record the server could not have made up: checked against the pinned key. *)
Record record_for (config : VaultConfig) (agent id : string) (r : BundleRecord) : Prop := {
  rc_valid : record_valid r (vc_pinned_pubkey config) (vc_key_id config);
  rc_agent : bd_agent_id r = agent;
  rc_id : mf_bundle_id (bd_manifest r) = id;
}.

Lemma record_request_yields config method conn path secret body agent id :
  yields (record_request exchange config method conn path secret body agent id) (record_for config agent id).
Proof.
  unfold record_request. do 3 (apply yields_then; intros ?). unfold record_response.
  apply yields_then. intros bytes. apply yields_then. intros r.
  eapply yields_bind; [apply yields_message|]. intros [] Hv%verify_record_iff.
  eapply yields_bind; [apply yields_message|]. intros [] Hg%guard_Ok. split_bools.
  apply yields_answer. split; [done|by apply String.eqb_eq..].
Qed.
Lemma get_yields config agent id : yields (get exchange config agent id) (record_for config agent id).
Proof. unfold get. do 2 (apply yields_then; intros ?). apply record_request_yields. Qed.

Lemma emits_record_request config method conn path secret body agent id : connection_ok config conn ->
  emits (confined config secret) (record_request exchange config method conn path secret body agent id).
Proof.
  intros Hu. unfold record_request. apply emits_then; [apply emits_message|intros _].
  eapply emits_bind; [apply emits_client|apply yields_client|]. intros t (-> & Ht)%token_Ok.
  apply emits_then; [by apply emits_request|intros r]. unfold record_response.
  repeat (apply emits_then; [auto with conversation|intros ?]). apply emits_answer.
Qed.
Lemma emits_get config agent id : emits (confined config (vc_admin_token config)) (get exchange config agent id).
Proof.
  apply emits_then; [apply emits_message|intros _]. apply emits_connection. intros. by apply emits_record_request.
Qed.
Lemma emits_register config manifest :
  emits (confined config (vc_upload_token config)) (register_manifest exchange config manifest).
Proof.
  do 2 (apply emits_then; [apply emits_message|intros _]). apply emits_connection. intros conn Hu.
  apply emits_then; [by apply emits_record_request|intros r]. apply emits_then; [apply emits_message|intros _].
  apply emits_answer.
Qed.
Lemma emits_complete config id : emits (confined config (vc_upload_token config)) (complete exchange config id).
Proof.
  apply emits_then; [apply emits_message|intros _]. apply emits_connection. intros conn Hu.
  apply emits_then; [by apply emits_record_request|intros r]. apply emits_then; [apply emits_message|intros _].
  apply emits_answer.
Qed.
Lemma emits_upload_chunks config stage chunks :
  emits (confined config (vc_upload_token config)) (upload_chunks exchange config stage chunks).
Proof.
  induction chunks as [|c chunks IH]; cbn [upload_chunks]; [apply emits_answer|].
  apply emits_then; [apply emits_message|intros b]. apply emits_then; [apply emits_upload_bytes|intros r]. exact IH.
Qed.
Lemma emits_upload_prepared config stage :
  emits (confined config (vc_upload_token config)) (upload_prepared exchange config stage).
Proof.
  do 2 (apply emits_then; [apply emits_message|intros ?]). apply emits_then; [apply emits_register|intros ?].
  apply emits_then; [apply emits_upload_chunks|intros ?]. apply emits_then; [apply emits_complete|intros ?].
  apply emits_then; [apply emits_message|intros _]. apply emits_answer.
Qed.
Lemma emits_list config agent after limit :
  emits (confined config (vc_admin_token config)) (list_remote exchange config agent after limit).
Proof.
  apply emits_then; [apply emits_message|intros _]. apply emits_connection. intros conn Hu.
  apply emits_then; [apply emits_message|intros _].
  eapply emits_bind; [apply emits_client|apply yields_client|]. intros t (-> & Ht)%token_Ok.
  apply emits_then; [by apply emits_request|intros r].
  repeat (apply emits_then; [auto with conversation|intros ?]). apply emits_answer.
Qed.
Lemma emits_review config agent id request :
  emits (confined config (vc_admin_token config)) (review_remote exchange config agent id request).
Proof.
  do 2 (apply emits_then; [apply emits_message|intros _]). apply emits_connection. intros conn Hu.
  apply emits_then; [by apply emits_record_request|intros r]. apply emits_then; [apply emits_message|intros _].
  apply emits_answer.
Qed.

Lemma emits_fetch_part config conn path maximum : connection_ok config conn -> token_ok (vc_admin_token config) ->
  emits (confined config (vc_admin_token config)) (fetch_part exchange conn (vc_admin_token config) path maximum).
Proof.
  intros Hu Ht. unfold fetch_part. apply emits_then; [apply emits_message|intros _].
  apply emits_then; [by apply emits_request|intros r]. apply emits_client.
Qed.
Lemma emits_fetch_chunks config env tmp conn agent k full chunks :
  connection_ok config conn -> token_ok (vc_admin_token config) ->
  emits (confined config (vc_admin_token config))
    (fetch_chunks exchange config env tmp conn (vc_admin_token config) agent k full chunks).
Proof.
  intros Hu Ht. revert k full. induction chunks as [|c chunks IH]; intros; cbn [fetch_chunks]; [apply emits_answer|].
  repeat (apply emits_then; [first [by apply emits_fetch_part|solve [auto with conversation]]|intros ?]). apply IH.
Qed.
Lemma emits_cleaning {A} Q env (m : Client_ S A) : emits Q m -> emits Q (cleaning env m).
Proof.
  intros Hm w. destruct (Hm w) as (t & Ht & HQ). exists t. unfold cleaning. destruct (m w) as [w' r].
  by destruct (clean_temporary env (w_files w', r)).
Qed.
Lemma emits_fetch config env agent id dest evidence :
  emits (confined config (vc_admin_token config)) (fetch exchange config env agent id dest evidence).
Proof.
  unfold fetch. apply emits_then; [apply emits_get|intros r].
  repeat (apply emits_then; [solve [auto with conversation]|intros ?]). apply emits_cleaning.
  unfold fetch_into. apply emits_connection. intros conn Hu.
  eapply emits_bind; [apply emits_client|apply yields_client|]. intros t (-> & Ht)%token_Ok.
  apply emits_then; [by apply emits_fetch_chunks|intros full].
  repeat (apply emits_then; [first [apply emits_get|solve [auto with conversation]]|intros ?]). apply emits_answer.
Qed.

End Effects.

#[export] Hint Resolve quiet_get quiet_fetch_part : conversation.

(** * A restored file *)

Section Fetch.
Context `{Crypto : VaultCrypto} `{Json : BundleJson} `{Web : WebLibs} `{CJson : ClientJson}
  `{BJson : BundleClientJson}.
Context {S : Type} (exchange : HttpRequest -> S -> S * result HttpResponse SendFailure).

(** A record that lets [b] be restored: signed by the pinned key, complete and,
    unless only evidence is wanted, last reviewed as good. *)
Record restorable (config : VaultConfig) (agent id : string) (evidence_only : bool) (r : BundleRecord)
    (b : string) : Prop := {
  rs_record : record_for config agent id r;
  rs_complete : is_Some (bd_completion r);
  rs_approved : evidence_only = false -> reviewed_state (bd_reviews r) = "good";
  rs_size : slen b = mf_size_bytes (bd_manifest r);
  rs_hash : body_sha256 b = mf_sha256 (bd_manifest r);
}.

Definition temporary_name (dest : string) (env : FetchEnv) : option string :=
  parent ← path_parent dest; random ← fe_random env;
  Some (parent +:+ "/.argos-bundle-" +:+ random +:+ ".tmp").

(** The temporary file holds what was received so far. *)
Definition receiving (good : string -> Prop) (tmp dest : string) (before : Files) (full : string) (f : Files)
    : Prop := placed good tmp dest before f /\ f !! tmp = Some full.

Lemma receiving_write good tmp dest before full bytes failed f : tmp <> dest ->
  receiving good tmp dest before full f ->
  match write_all tmp bytes failed f with
  | (f', Ok _) => receiving good tmp dest before (String.append full bytes) f'
  | (f', Err _) => placed good tmp dest before f'
  end.
Proof.
  intros Hne [Hp Hf]. unfold write_all. rewrite Hf. cbn [default].
  destruct failed; [by apply placed_insert|]. split; [by apply placed_insert|]. apply lookup_insert_eq.
Qed.

Lemma fetch_chunks_triple good config env tmp dest before conn bearer agent chunks : tmp <> dest ->
  forall k full, triple (receiving good tmp dest before full)
    (fetch_chunks exchange config env tmp conn bearer agent k full chunks)
    (receiving good tmp dest before) (placed good tmp dest before).
Proof.
  intros Hne. induction chunks as [|c chunks IH]; intros k full; cbn [fetch_chunks].
  { by apply triple_answer. }
  assert (Hfail : forall f, receiving good tmp dest before full f -> placed good tmp dest before f) by by intros f [].
  quiet_step Hfail. intros answered _. quiet_step Hfail. intros receipt _.
  quiet_step Hfail. intros _ _. quiet_step Hfail. intros _ _. quiet_step Hfail. intros bytes _.
  quiet_step Hfail. intros _ _.
  eapply (triple_then _ _ _ _ (fun _ => receiving good tmp dest before (String.append full bytes)));
    [|intros; apply IH].
  apply triple_locally. intros f Hf. pose proof (receiving_write good tmp dest before full bytes (fe_writes env k) f Hne Hf).
  by destruct (write_all _ _ _ _) as [f' [|]].
Qed.

Lemma fetch_into_triple config env tmp agent id dest evidence_only record before :
  let good := fun b => exists latest, restorable config agent id evidence_only latest b in
  tmp <> dest -> is_Some (bd_completion record) ->
  triple (receiving good tmp dest before "")
    (fetch_into exchange config env tmp agent id dest evidence_only record)
    (fun latest f => placed good tmp dest before f
       /\ exists b, f !! dest = Some b /\ restorable config agent id evidence_only latest b)
    (placed good tmp dest before).
Proof.
  intros good Hne Hc. unfold fetch_into.
  assert (Hfail : forall full f, receiving good tmp dest before full f -> placed good tmp dest before f)
    by by intros ? f [].
  quiet_step (Hfail ""). intros conn _. quiet_step (Hfail ""). intros bearer _.
  eapply triple_then; [by apply fetch_chunks_triple|]. intros full.
  quiet_step (Hfail full). intros [] Hg%guard_Ok. eapply triple_quiet; [apply quiet_get|apply get_yields|exact (Hfail full)|].
  intros latest Hl. quiet_step (Hfail full). intros [] Hg'%guard_Ok. split_bools.
  match goal with H : bd_manifest latest = _ |- _ => rename H into Hm end.
  match goal with H : bd_completion latest = _ |- _ => rename H into Hcomp end.
  assert (restorable config agent id evidence_only latest full) as Hr.
  { split; [done|by rewrite Hcomp| |by rewrite Hm|rewrite Hm; by apply String.eqb_eq].
    intros ->. cbn in *. split_bools. by apply (rv_recommended _ _ _ (rc_valid _ _ _ _ Hl)). }
  eapply (triple_then _ _ _ _ (fun _ f => placed good tmp dest before f /\ f !! dest = Some full));
    [|intros []; apply triple_answer; intros f [??]; split; [done|by exists full]].
  apply triple_locally. intros f [Hp Hf].
  assert (good full) as Hgood by by exists latest.
  pose proof (publish_new_spec good (at_temporary (fe_io env) tmp) before f dest full Hne Hp Hf Hgood) as Hw.
  destruct (publish_new _ _ _) as [f' [[]|e]]; destruct Hw as [Hw1 Hw2]; [|done].
  split; [done|]. by apply (Hw2 eq_refl).
Qed.

Lemma cleaning_triple {A} good env before dest P (Q : A -> Files -> Prop) (m : Client_ S A) :
  io_temporary env <> dest ->
  triple P m Q (placed good (io_temporary env) dest before) ->
  triple P (cleaning env m) Q (placed good (io_temporary env) dest before).
Proof.
  intros Hne Hm w HP. specialize (Hm w HP). unfold cleaning. destruct (m w) as [w' [a|e]]; [done|].
  cbn. destruct (io_cleaned env); [by apply placed_delete|done].
Qed.

(** The files when [fetch] stops. *)
Definition fetch_files (config : VaultConfig) (env : FetchEnv) (agent id dest : string) (evidence_only : bool)
    (before f : Files) : Prop :=
  f = before \/ exists tmp, temporary_name dest env = Some tmp
    /\ placed (fun b => exists latest, restorable config agent id evidence_only latest b) tmp dest before f.

Lemma fetch_triple (config : VaultConfig) (env : FetchEnv) (agent id dest : string)
    (evidence_only : bool) (w : Conversation S) :
  temporary_name dest env <> Some dest ->
  match fetch exchange config env agent id dest evidence_only w with
  | (w', Ok latest) => fetch_files config env agent id dest evidence_only (w_files w) (w_files w')
      /\ exists b, w_files w' !! dest = Some b /\ restorable config agent id evidence_only latest b
  | (w', Err _) => fetch_files config env agent id dest evidence_only (w_files w) (w_files w')
  end.
Proof.
  intros Hne. set (good := fun b => exists latest, restorable config agent id evidence_only latest b).
  set (E := fetch_files config env agent id dest evidence_only (w_files w)).
  enough (triple (fun f => f = w_files w) (fetch exchange config env agent id dest evidence_only)
    (fun latest f => E f /\ exists b, f !! dest = Some b /\ restorable config agent id evidence_only latest b) E) as H
    by exact (H w eq_refl).
  assert (Hsame : forall f, f = w_files w -> E f) by by left.
  unfold fetch. eapply triple_quiet; [apply quiet_get|apply get_yields|exact Hsame|]. intros record _.
  quiet_step Hsame. intros [] Hg%guard_Ok. split_bools. quiet_step Hsame. intros parent Hparent%ok_or_Ok.
  quiet_step Hsame. intros _ _.
  eapply triple_then; [apply (triple_locally _ (fun _ f => f = w_files w)); intros f Hf; cbn;
    destruct (is_some (f !! dest)); cbn; [by apply Hsame|done]|].
  intros []. cbn beta. quiet_step Hsame. intros random Hrandom%ok_or_Ok.
  set (tmp := parent +:+ _ ) in *. 
  assert (temporary_name dest env = Some tmp) as Ht by (unfold temporary_name; by rewrite Hparent, Hrandom).
  assert (tmp <> dest) as Htmp by congruence.
  eapply (triple_then _ _ _ _ (fun _ => receiving good tmp dest (w_files w) "")).
  { apply triple_locally. intros f ->. cbn beta.
    destruct (negb (io_opened (fe_io env)) || _); [exact (Hsame _ eq_refl)|].
    split; [apply placed_insert; [done|apply placed_refl]|apply lookup_insert_eq]. }
  intros []. eapply triple_weaken.
  + apply (cleaning_triple good (at_temporary (fe_io env) tmp) (w_files w) dest); [done|].
    apply (fetch_into_triple config env tmp agent id dest evidence_only record (w_files w)); [done|].
    by destruct (bd_completion record).
  + done.
  + intros latest f [Hf Hd]. split; [right; by exists tmp|done].
  + intros f Hf. right. by exists tmp.
Qed.

(** C14: what [fetch] restores was approved and arrived whole. Whatever the server
    answers and wherever the conversation or a local call fails, no file changes
    but the temporary one and the destination; the destination is as before or a
    new file, and then its bytes have the size and the hash of a bundle whose
    record the pinned key signed for this agent and ID, complete and, unless only
    evidence was asked for, with a good last review. A success leaves such a file. *)
Theorem fetch_restores_approved (config : VaultConfig) (env : FetchEnv) (agent id dest : string)
    (evidence_only : bool) (w : Conversation S) :
  temporary_name dest env <> Some dest ->
  let '(w', r) := fetch exchange config env agent id dest evidence_only w in
  (forall p, p <> dest -> Some p <> temporary_name dest env -> w_files w' !! p = w_files w !! p)
  /\ (w_files w' !! dest = w_files w !! dest
      \/ (w_files w !! dest = None /\ exists b latest, w_files w' !! dest = Some b
          /\ restorable config agent id evidence_only latest b))
  /\ (forall latest, r = Ok latest -> exists b, w_files w' !! dest = Some b
        /\ restorable config agent id evidence_only latest b).
Proof.
  intros Hne. pose proof (fetch_triple config env agent id dest evidence_only w Hne) as H.
  destruct (fetch _ _ _ _ _ _ _ w) as [w' r].
  assert (fetch_files config env agent id dest evidence_only (w_files w) (w_files w')) as HE
    by (destruct r; [apply H|done]).
  split_and!.
  - destruct HE as [->|(t & Ht & [Ho _])]; [done|]. intros p H1 H2. apply Ho; [congruence|done].
  - destruct HE as [->|(t & Ht & [_ [Hd|(Hd & b & Hb & Hgood)]])]; [by left|by left|right].
    split; [done|]. destruct Hgood as [latest Hl]. by exists b, latest.
  - intros latest ->. apply H.
Qed.

End Fetch.

(** * A prepared bundle *)

Lemma string_app_nil_r (s : string) : String.append s "" = s.
Proof. induction s as [|c s IH]; [done|]. change (String c (String.append s "") = String c s). by rewrite IH. Qed.
Lemma string_app_assoc (a b c : string) :
  String.append (String.append a b) c = String.append a (String.append b c).
Proof.
  induction a as [|x a IH]; [done|].
  change (String x (String.append (String.append a b) c) = String x (String.append a (String.append b c))).
  by rewrite IH.
Qed.
Lemma concat_str_cons (s : string) (l : list string) : concat_str (s :: l) = String.append s (concat_str l).
Proof.
  unfold concat_str. cbn [foldl]. change (String.append "" s) with s.
  assert (forall a b, foldl String.append (String.append a b) l = String.append a (foldl String.append b l)) as H.
  { induction l as [|x l IH]; intros a b; [done|]. cbn [foldl]. rewrite string_app_assoc. apply IH. }
  specialize (H s ""). by rewrite string_app_nil_r in H.
Qed.

(** The reads join to what was read. *)
Lemma pieces_from_concat (size : Z) (s : string) : forall room, concat_str (pieces_from size room s) = s.
Proof.
  induction s as [|c s IH]; intros room; [done|]. cbn [pieces_from].
  destruct (room <=? 1); [by rewrite concat_str_cons, IH|].
  unfold cons_head. specialize (IH (room - 1)). destruct (pieces_from size (room - 1) s) as [|p rest].
  - cbn in IH. by rewrite <- IH.
  - rewrite concat_str_cons in IH |- *. by rewrite <- IH.
Qed.

Section Prepared.
Context `{Crypto : VaultCrypto} `{Json : BundleJson} `{Pretty : PrettyJson}.

Definition chunk_of (b : string) : Chunk := mkChunk (body_sha256 b) (slen b).
(** The files of a stage are named by their hash. *)
Definition hashed (files : gmap string string) : Prop := map_Forall (fun h b => body_sha256 b = h) files.

Lemma write_pieces_Ok env limit reads : forall total full files chunks files' out,
  write_pieces env limit total full files chunks reads = (files', Ok out) -> hashed files ->
  hashed files' /\ files ⊆ files' /\ Forall (fun b => is_Some (files' !! body_sha256 b)) reads
  /\ map_Forall (fun h b => files !! h = Some b \/ b ∈ reads) files'
  /\ out.1.2 = String.append full (concat_str reads) /\ out.2 = chunks ++ map chunk_of reads
  /\ out.1.1 = total + slen (concat_str reads).
Proof.
  induction reads as [|b reads IH]; intros total full files chunks files' out; cbn [write_pieces].
  - destruct (pp_broken env); [done|]. intros [= <- <-] Hh. cbn.
    rewrite app_nil_r, string_app_nil_r. split_and!; try done; [by left|]. unfold slen. cbn. lia.
  - destruct (let? _ := guard _ _ in _) as [t|] eqn:Ht; [|done].
    apply guard_bind_Ok in Ht as (_ & Ht). apply ok_or_bind_Ok in Ht as (t' & [-> _]%checked_add_Some & Ht).
    apply guard_bind_Ok in Ht as (_ & [= <-]).
    set (files1 := if _ && linked _ then _ else _).
    destruct (negb _ && negb (written _)) eqn:Hw; [done|]. intros H Hh.
    assert (hashed files1 /\ files ⊆ files1 /\ is_Some (files1 !! body_sha256 b)) as (H1 & H2 & H3).
    { unfold files1. destruct (files !! body_sha256 b) as [x|] eqn:Hb; cbn [is_some negb andb] in *;
        [by split_and!; [..|rewrite Hb]|].
      destruct (pp_write_chunk env (body_sha256 b)); [cbn in *|done]. split_and!.
      - by apply map_Forall_insert_2.
      - by apply insert_subseteq.
      - rewrite lookup_insert_eq. by eexists. }
    apply IH in H as (I1 & I2 & I3 & I0 & I4 & I5 & I6); [|done]. split_and!.
    + done.
    + by etrans.
    + apply Forall_cons. split; [|done]. destruct H3 as [x Hx]. exists x. by eapply lookup_weaken.
    + intros h x Hx. destruct (I0 h x Hx) as [Hf|]; [|right; by apply elem_of_cons; right]. unfold files1 in Hf.
      destruct (_ && _); [|by left]. apply lookup_insert_Some in Hf as [[_ <-]|[_ ?]]; [right; apply elem_of_cons; by left|by left].
    + by rewrite I4, concat_str_cons, string_app_assoc.
    + by rewrite I5, <- app_assoc.
    + rewrite I6, concat_str_cons. unfold slen. rewrite string_length_app. lia.
Qed.

(** What a successful preparation leaves. *)
Record prepared_ok (env : PrepareEnv) (p : Prepared) (m : BundleManifest) : Prop := {
  po_valid : validate m = Ok tt;
  po_chunks : mf_chunks m = map chunk_of (pieces CHUNK_BYTES (pp_input env));
  po_hash : mf_sha256 m = body_sha256 (pp_input env);
  po_size : mf_size_bytes m = slen (pp_input env);
  po_hashed : hashed (pd_chunks p);
  po_there : Forall (fun b => is_Some (pd_chunks p !! body_sha256 b)) (pieces CHUNK_BYTES (pp_input env));
  po_from : map_Forall (fun _ b => b ∈ pieces CHUNK_BYTES (pp_input env)) (pd_chunks p);
  po_manifest : pd_manifest p = Some (manifest_pretty m);
}.

Lemma prepare_bundle_Ok env metadata p m : prepare_bundle env metadata = (p, Ok m) -> prepared_ok env p m.
Proof.
  unfold prepare_bundle. destruct (prepare_begin env metadata) as [[before d]|] eqn:Hb; [|done].
  destruct (write_pieces _ _ _ _ _ _ _) as [files read] eqn:Hr.
  destruct (let? read := read in _) as [m'|] eqn:He; [|done]. intros [= <- H].
  destruct (pp_write_manifest env); [|done]. injection H as ->. cbn in *.
  apply res_bind_Ok in He as ([[total full] chunks] & -> & He). apply write_pieces_Ok in Hr as (H1 & _ & H3 & H0 & H4 & H5 & H6);
    [|apply map_Forall_empty]. cbn in H4, H5, H6.
  apply ok_or_bind_Ok in He as (after & _ & He). apply ok_or_bind_Ok in He as (path_after & _ & He).
  apply guard_bind_Ok in He as (Hg & He). apply res_bind_Ok in He as ([] & Hv & [= <-]).
  unfold pieces in H4, H6. rewrite pieces_from_concat in H4, H6. split_bools.
  assert (mf_size_bytes d = fm_len before) as Hsize.
  { unfold prepare_begin in Hb. repeat (apply ok_or_bind_Ok in Hb as (? & _ & Hb)
      || apply guard_bind_Ok in Hb as (_ & Hb) || apply res_bind_Ok in Hb as (? & _ & Hb)).
    by injection Hb as <- <-. }
  split; cbn; [done|exact H5|by rewrite H4|rewrite Hsize; lia|done|done| |done].
  intros h b Hx. destruct (H0 h b Hx) as [Hn|]; [by rewrite lookup_empty in Hn|done].
Qed.

Lemma sum_chunks_small count chunks : forall i total t, sum_chunks count i total chunks = Ok t ->
  Forall (fun c => ch_size_bytes c <= CHUNK_BYTES) chunks.
Proof.
  induction chunks as [|c chunks IH]; intros i total t; cbn [sum_chunks]; [by intros; apply Forall_nil|].
  intros (Hg & H)%guard_bind_Ok. apply ok_or_bind_Ok in H as (t' & _ & H). split_bools.
  apply Forall_cons. split; [done|by eapply IH].
Qed.
Lemma validate_small m : validate m = Ok tt -> Forall (fun c => ch_size_bytes c <= CHUNK_BYTES) (mf_chunks m).
Proof.
  unfold validate. intros (_ & H)%guard_bind_Ok. apply res_bind_Ok in H as (t & H & _). by eapply sum_chunks_small.
Qed.

(** No two different reads of the source have one hash. *)
Definition no_collision (env : PrepareEnv) : Prop :=
  forall x y, x ∈ pieces CHUNK_BYTES (pp_input env) -> y ∈ pieces CHUNK_BYTES (pp_input env) ->
  body_sha256 x = body_sha256 y -> x = y.

Lemma prepared_chunk env p m b : prepared_ok env p m -> no_collision env ->
  b ∈ pieces CHUNK_BYTES (pp_input env) -> pd_chunks p !! body_sha256 b = Some b.
Proof.
  intros Hp Hno Hb. pose proof (po_there _ _ _ Hp) as Ht. rewrite Forall_forall in Ht.
  destruct (Ht b Hb) as [x Hx]. rewrite Hx. f_equal. apply Hno; [exact (po_from _ _ _ Hp _ _ Hx)|done|].
  exact (po_hashed _ _ _ Hp _ _ Hx).
Qed.

Lemma read_spool_prepared (p : Prepared) reads : forall spool full, spool ⊆ pd_chunks p ->
  Forall (fun b => slen b <= CHUNK_BYTES /\ pd_chunks p !! body_sha256 b = Some b) reads ->
  exists spool', read_spool (stage_of p) spool full (map chunk_of reads)
    = Ok (spool', String.append full (concat_str reads)).
Proof.
  induction reads as [|b reads IH]; intros spool full Hsub Hall; cbn [map read_spool].
  - exists spool. by rewrite string_app_nil_r.
  - apply Forall_cons in Hall as [[Hlen Hb] Hall]. unfold chunk_of at 1 2 3 4 5. cbn [ch_sha256 ch_size_bytes stage_of sg_chunk].
    assert ((match spool !! body_sha256 b with Some bytes => Some bytes | None => pd_chunks p !! body_sha256 b end)
      = Some b) as ->.
    { destruct (spool !! body_sha256 b) as [x|] eqn:Hx; [|done].
      apply (lookup_weaken _ _ _ _ Hx) in Hsub. congruence. }
    cbn [ok_or res_bind].
    rewrite Z.eqb_refl, String.eqb_refl. rewrite (proj2 (Z.ltb_ge _ _) Hlen). cbn [orb negb guard res_bind].
    destruct (IH (<[body_sha256 b := b]> spool) (String.append full b)) as [spool' E]; [|done|].
    + by apply insert_subseteq_l.
    + exists spool'. rewrite E, concat_str_cons, string_app_assoc. done.
Qed.

End Prepared.

Section Roundtrip.
Context `{Crypto : VaultCrypto} `{Json : BundleJson} `{Pretty : PrettyJson} `{Web : WebLibs}
  `{CJson : ClientJson} `{BJson : BundleClientJson}.

(** C18: a prepared file comes back as it was. When [prepare] succeeds and the manifest
    it printed is no longer than [MAX_MANIFEST_BYTES] (which [prepare] itself checks only
    of the compact text) and reads back, the queue and the uploader accept what it left,
    unless two chunks collide: the manifest is read back, every chunk
    is the part of the source its hash names and the chunks join to the source.
    Whatever server the bundle went through, a later [fetch] that succeeds with
    that manifest leaves the bytes of the source, or bytes of the same length that
    collide with them under SHA-256. *)
Theorem prepared_bundle_restored (env : PrepareEnv) (metadata : BundleMetadata) (p : Prepared) (m : BundleManifest) :
  prepare_bundle env metadata = (p, Ok m) -> no_collision env ->
  of_json (manifest_pretty m) = Some m -> slen (manifest_pretty m) <= MAX_MANIFEST_BYTES ->
  read_manifest (sg_manifest (stage_of p)) = Ok m
  /\ (exists spool, read_spool (stage_of p) ∅ "" (mf_chunks m) = Ok (spool, pp_input env)
       /\ spool_of (stage_of p) m = Ok spool)
  /\ Forall (fun c => is_ok (read_chunk (stage_of p) c) = true) (mf_chunks m)
  /\ forall (S : Type) (exchange : HttpRequest -> S -> S * result HttpResponse SendFailure) config fenv
       agent id dest evidence_only w w' latest,
     temporary_name dest fenv <> Some dest ->
     fetch exchange config fenv agent id dest evidence_only w = (w', Ok latest) -> bd_manifest latest = m ->
     exists b, w_files w' !! dest = Some b /\ slen b = slen (pp_input env)
       /\ (b = pp_input env \/ (b <> pp_input env /\ body_sha256 b = body_sha256 (pp_input env))).
Proof.
  intros Hp%prepare_bundle_Ok Hno Hjson Hlen.
  assert (Forall (fun b => slen b <= CHUNK_BYTES /\ pd_chunks p !! body_sha256 b = Some b)
    (pieces CHUNK_BYTES (pp_input env))) as Hall.
  { apply Forall_forall. intros b Hb. split; [|by eapply prepared_chunk].
    pose proof (validate_small _ (po_valid _ _ _ Hp)) as Hs. rewrite (po_chunks _ _ _ Hp), Forall_forall in Hs.
    apply (Hs (chunk_of b)). by apply list_elem_of_fmap_2. }
  split_and!.
  - cbn. rewrite (po_manifest _ _ _ Hp). unfold read_manifest. cbn. rewrite (proj2 (Z.leb_le _ _) Hlen). cbn.
    rewrite Hjson. cbn. by rewrite (po_valid _ _ _ Hp).
  - destruct (read_spool_prepared p (pieces CHUNK_BYTES (pp_input env)) ∅ "" (map_empty_subseteq _) Hall) as [spool E].
    rewrite <- (po_chunks _ _ _ Hp) in E. unfold pieces in E. rewrite pieces_from_concat in E.
    exists spool. split; [exact E|]. unfold spool_of. rewrite E. cbn. by rewrite (po_hash _ _ _ Hp), String.eqb_refl.
  - rewrite (po_chunks _ _ _ Hp). apply Forall_map, (Forall_impl _ _ _ Hall). intros b [Hb Hc].
    unfold read_chunk. cbn. rewrite Hc. cbn. rewrite (proj2 (Z.leb_le _ _) Hb). cbn.
    by rewrite Z.eqb_refl, String.eqb_refl.
  - intros S exchange config fenv agent id dest evidence_only w w' latest Hne Hf Hm.
    pose proof (fetch_triple exchange config fenv agent id dest evidence_only w Hne) as H. rewrite Hf in H.
    destruct H as [_ (b & Hb & Hr)]. exists b. rewrite (rs_size _ _ _ _ _ _ Hr), Hm, (po_size _ _ _ Hp).
    pose proof (rs_hash _ _ _ _ _ _ Hr) as Hh. rewrite Hm, (po_hash _ _ _ Hp) in Hh.
    split_and!; [done|done|]. destruct (decide (b = pp_input env)); [by left|by right].
Qed.

End Roundtrip.

(** * Pages *)

Lemma str_mem_elem (s : string) (l : list string) : str_mem s l = true <-> s ∈ l.
Proof.
  unfold str_mem. rewrite existsb_exists. split.
  - intros (x & Hx & ->%String.eqb_eq). by apply list_elem_of_In.
  - intros Hs. exists s. split; [by apply list_elem_of_In|apply String.eqb_refl].
Qed.

(** The IDs of a page are accepted when they are valid, past the cursor and distinct. *)
Lemma page_ids_Ok (after : option string) (l : list string) : forall ids,
  NoDup (l ++ ids) -> Forall (fun id => valid_bundle_id id = true) l ->
  (forall cursor id, after = Some cursor -> id ∈ l -> cmp id cursor = Gt) ->
  page_ids after ids l = Ok (sort (rev l ++ ids)).
Proof.
  induction l as [|x l IH]; intros ids Hn Hv Ha; [done|]. cbn [page_ids rev].
  apply Forall_cons in Hv as [Hx Hv]. cbn in Hn. apply NoDup_cons in Hn as [Hxn Hn]. rewrite Hx. cbn [negb orb].
  assert (is_some_and after (fun cursor => match cmp x cursor with Gt => false | _ => true end) = false) as ->.
  { destruct after as [c|]; [|done]. cbn. rewrite (Ha c x); [done|done|]. by apply elem_of_cons; left. }
  assert (str_mem x ids = false) as ->.
  { apply not_true_is_false. rewrite str_mem_elem. intros Hi. apply Hxn, elem_of_app. by right. }
  cbn [orb guard res_bind]. rewrite IH, <- app_assoc; [done| |done|].
  - rewrite <- Permutation_middle. by apply NoDup_cons.
  - intros c id Hc Hid. apply (Ha c id Hc). by apply elem_of_cons; right.
Qed.

Section Pages.
Context `{Crypto : VaultCrypto} `{Json : BundleJson} `{IJson : IntentJson}.
Variable config : StorageConfig.

(** The two halves of a page show exactly the IDs looked up. *)
Lemma shown_split (f : string -> result BundleRecord PutError) (agent : string) next (ids : list string) :
  let shown := map (fun id => (id, f id)) ids in
  shown_ids (mkBundleList agent
    (omap (fun p => match p.2 with Ok r => Some (summary p.1 r) | Err _ => None end) shown) next
    (omap (fun p => match p.2 with Ok _ => None
                   | Err _ => Some (mkUnavailableBundle p.1 "bundle_state_unavailable") end) shown)) ≡ₚ ids.
Proof.
  unfold shown_ids. cbn. induction ids as [|id ids IH]; [done|]. cbn. destruct (f id) as [r|e]; cbn.
  - by rewrite IH.
  - rewrite <- Permutation_middle. by rewrite IH.
Qed.

(** The numbers of the stored manifests fit their types. *)
Definition stored_typed (v : Vault) : Prop :=
  map_Forall (fun _ b => forall m, of_json (A := BundleManifest) b = Some m -> manifest_typed m)
    (vs_blobs (va_storage v)).

Lemma summary_good private v agent id r : stored_typed v ->
  record config private v agent id = Ok r -> bad_item (summary id r) = false.
Proof.
  intros Ht (_ & Hr%record_raw_Ok & _)%record_Ok. pose proof (rr_valid _ _ _ _ _ Hr) as Hv.
  destruct (rr_row _ _ _ _ _ Hr) as (row & b & _ & Hb & _ & Hm & _).
  assert (manifest_valid (bd_manifest r)) as Hmv.
  { apply validate_iff; [exact (Ht _ _ Hb _ Hm)|exact (rv_manifest _ _ _ Hv)]. }
  unfold bad_item, summary. cbn. rewrite (mv_hash _ Hmv). cbn. pose proof (mv_size _ Hmv) as Hs.
  rewrite (proj2 (Z.leb_le 1 _)), (proj2 (Z.leb_le _ MAX_BUNDLE_BYTES)) by lia. cbn.
  assert (bd_recommended r = is_some (bd_completion r) && String.eqb (bd_current_review r) "good") as ->.
  { apply eq_true_iff_eq. rewrite (rv_recommended _ _ _ Hv), (rv_state _ _ _ Hv), andb_true_iff, String.eqb_eq.
    destruct (bd_completion r); cbn; split; intros []; naive_solver. }
  rewrite Bool.eqb_reflx, orb_false_r. rewrite (rv_state _ _ _ Hv). unfold reviewed_state.
  destruct (list.last _) as [e|]; [|done]. by destruct (rq_decision _).
Qed.

(** The IDs of an agent past a cursor. *)
Definition past_cursor (v : Vault) (agent : string) (after : option string) : list string :=
  List.filter (fun id => match cmp id (default "" after) with Gt => true | _ => false end) (known_ids v agent).

Lemma past_cursor_elem v agent after id :
  id ∈ past_cursor v agent after <-> id ∈ known_ids v agent /\ cmp id (default "" after) = Gt.
Proof. unfold past_cursor. rewrite filter_elem. destruct (cmp id (default "" after)); naive_solver. Qed.
Lemma past_cursor_ascending v agent after : ascending (past_cursor v agent after).
Proof. apply ascending_filter, btree_set_ascending. Qed.

Lemma list_last_take {A} (l : list A) (n : nat) : (0 < n <= length l)%nat -> list.last (take n l) = l !! (n - 1)%nat.
Proof.
  intros Hn. rewrite list.last_lookup, length_take, Nat.min_l by lia.
  replace (pred n) with (n - 1)%nat by lia. by rewrite lookup_take_lt by lia.
Qed.

(** What a page is made of. *)
Lemma list_page_spec private v agent after limit : (1 <= limit)%nat -> stored_typed v ->
  let page := list_page config private v agent after limit in
  let past := past_cursor v agent after in
  bl_agent_id page = agent /\ shown_ids page ≡ₚ take limit past
  /\ Forall (fun item => bad_item item = false) (bl_items page)
  /\ Forall (fun item => ub_reason item = "bundle_state_unavailable") (bl_unavailable page)
  /\ bl_next_cursor page = (if Nat.ltb limit (length past) then list.last (take limit past) else None).
Proof.
  intros Hlimit Ht page past. unfold page, list_page. fold (past_cursor v agent after). fold past.
  rewrite take_take, Nat.min_l by lia. split_and!.
  - done.
  - apply shown_split.
  - apply Forall_forall. intros item Hitem. cbn in Hitem.
    apply list_elem_of_omap in Hitem as ([id r] & Hid & Hr).
    apply list_elem_of_fmap in Hid as (id' & [= <- ->] & _). cbn in Hr.
    destruct (record _ _ _ _ _) as [r|] eqn:E; [|done]. injection Hr as <-. by eapply summary_good.
  - apply Forall_forall. intros item Hitem. cbn in Hitem.
    apply list_elem_of_omap in Hitem as ([id r] & _ & Hr). cbn in Hr. destruct r; [done|]. by injection Hr as <-.
  - cbn [bl_next_cursor]. rewrite length_take. destruct (Nat.ltb_spec limit (length past)) as [Hl|Hl].
    + rewrite (proj2 (Nat.ltb_lt _ _)) by lia. rewrite lookup_take_lt by lia.
      by rewrite list_last_take by lia.
    + by rewrite (proj2 (Nat.ltb_ge _ _)) by lia.
Qed.

(** The lists of the server are the lists the client accepts, and nothing is
    missing from them. Of a catalog whose IDs are well formed the server returns
    pages that pass every check of [validate_page], a withheld bundle included,
    and every known bundle past the cursor is on the page or past its next cursor:
    following the cursors visits each bundle once. *)
Theorem server_page_accepted (private : bool) (v : Vault) (agent : string) (after : option string) (limit : nat) :
  (1 <= limit)%nat -> stored_typed v ->
  Forall (fun id => valid_bundle_id id = true) (known_ids v agent) ->
  let page := list_page config private v agent after limit in
  validate_page page agent after (Z.of_nat limit) = Ok tt
  /\ (forall id, id ∈ shown_ids page -> id ∈ known_ids v agent
        /\ forall c, bl_next_cursor page = Some c -> cmp id c <> Gt)
  /\ (forall id, id ∈ known_ids v agent -> cmp id (default "" after) = Gt ->
       id ∈ shown_ids page \/ exists c, bl_next_cursor page = Some c /\ cmp id c = Gt).
Proof.
  intros Hlimit Ht Hvalid page. destruct (list_page_spec private v agent after limit Hlimit Ht)
    as (Ha & Hs & Hitems & Hun & Hnext). fold page in Ha, Hs, Hitems, Hun, Hnext.
  set (past := past_cursor v agent after) in *.
  pose proof (past_cursor_ascending v agent after) as Hasc. fold past in Hasc.
  pose proof Hasc as Hsplit. rewrite <- (take_drop limit past) in Hsplit.
  apply ascending_app in Hsplit as [Htake Hlt].
  assert (forall id, id ∈ shown_ids page -> id ∈ known_ids v agent /\ cmp id (default "" after) = Gt) as Hshown.
  { intros id Hid. rewrite Hs in Hid. apply elem_of_take in Hid. by apply past_cursor_elem. }
  assert (Forall (fun id => valid_bundle_id id = true) (shown_ids page)) as Hids.
  { apply Forall_forall. intros id [Hid _]%Hshown. rewrite Forall_forall in Hvalid. by apply Hvalid. }
  split_and!.
  - unfold validate_page. rewrite page_ids_Ok.
    + cbn [res_bind]. rewrite app_nil_r, (sort_ascending (take limit past)); [|done|].
      2: { rewrite <- Hs. symmetry. apply Permutation_rev. }
      apply guard_Ok. rewrite Ha, String.eqb_refl. cbn [negb orb].
      rewrite (proj2 (Z.ltb_ge _ _)) by (unfold zlen; rewrite length_take; lia).
      assert (existsb bad_item (bl_items page) = false) as -> by by apply existsb_false_Forall.
      assert (existsb (fun item => negb (String.eqb (ub_reason item) "bundle_state_unavailable"))
        (bl_unavailable page) = false) as ->.
      { apply existsb_false_Forall, (Forall_impl _ _ _ Hun). intros item ->. by rewrite String.eqb_refl. }
      cbn [orb]. rewrite Hnext. destruct (Nat.ltb _ _); [|done].
      destruct (list.last (take limit past)) as [c|] eqn:Hc; [|done]. cbn.
      rewrite bool_decide_eq_true_2 by done. rewrite orb_false_r. apply negb_false_iff.
      rewrite Forall_forall in Hids. apply Hids. rewrite Hs. by apply list.last_Some_elem_of.
    + rewrite app_nil_r, Hs. by apply ascending_nodup.
    + done.
    + intros cursor id -> [_ Hid]%Hshown. done.
  - intros id Hid. split; [by apply Hshown|]. intros c Hc. rewrite Hnext in Hc.
    destruct (Nat.ltb _ _); [|done]. rewrite Hs in Hid. by eapply ascending_last.
  - intros id Hid Hgt. assert (id ∈ past) as Hp by by apply past_cursor_elem.
    rewrite <- (take_drop limit past), elem_of_app in Hp. destruct Hp as [Hp|Hp]; [left; by rewrite Hs|right].
    assert (limit < length past)%nat as Hlen.
    { destruct (decide (limit < length past)%nat); [done|]. rewrite drop_ge in Hp by lia. by apply elem_of_nil in Hp. }
    rewrite Hnext, (proj2 (Nat.ltb_lt _ _) Hlen).
    destruct (list.last (take limit past)) as [c|] eqn:Hc.
    + exists c. split; [done|]. apply cmp_Gt, Hlt; [by apply list.last_Some_elem_of|done].
    + apply list.last_None in Hc. assert (length (take limit past) = 0%nat) as H0 by by rewrite Hc.
      rewrite length_take in H0. lia.
Qed.

End Pages.

(** * The requests of an upload, in order *)

Section Order.
Context `{Crypto : VaultCrypto} `{Json : BundleJson} `{Web : WebLibs} `{CJson : ClientJson}
  `{BJson : BundleClientJson}.
Context {S : Type} (exchange : HttpRequest -> S -> S * result HttpResponse SendFailure).

(** [m] makes the requests of [plan] in order: all of them when it succeeds, a
    prefix when it fails. *)
Definition follows {A} (plan : list HttpRequest) (m : Client_ S A) : Prop :=
  forall w, exists sent, w_trace (m w).1 = w_trace w ++ sent /\ sent `prefix_of` plan
    /\ forall a, (m w).2 = Ok a -> sent = plan.

Lemma follows_answer {A} (r : result A Failure) : follows [] (answer r).
Proof. intros w. exists []. by rewrite app_nil_r. Qed.
Lemma follows_client {A} (r : result A ClientError) : follows [] (client r).
Proof. apply follows_answer. Qed.
Lemma follows_message {A} (r : result A string) : follows [] (message r).
Proof. apply follows_answer. Qed.
Lemma follows_send q : cl_redirect (hq_client q) = NoRedirects -> follows [q] (send exchange q).
Proof. intros Hn w. exists [q]. unfold send, transmit. rewrite Hn. by destruct (exchange q (w_server w)). Qed.
Lemma follows_bind {A B} (m : Client_ S A) (k : A -> Client_ S B) (R : A -> Prop) p q :
  follows p m -> yields m R -> (forall a, R a -> follows q (k a)) -> follows (p ++ q) (then_ m k).
Proof.
  intros Hm Hy Hk w. unfold then_. destruct (Hm w) as (sent & Ht & Hp & Hall). specialize (Hy w).
  destruct (m w) as [w' [a|e]]; cbn in *.
  - destruct (Hk a (Hy w' a eq_refl) w') as (sent' & Ht' & Hp' & Hall'). exists (sent ++ sent').
    rewrite (Hall a eq_refl) in *. rewrite Ht', Ht, app_assoc. split_and!; [done|by apply prefix_app|].
    intros b Hb. by rewrite (Hall' b Hb).
  - exists sent. split_and!; [done|by etrans; [|apply prefix_app_r]|done].
Qed.
Lemma follows_then {A B} (m : Client_ S A) (k : A -> Client_ S B) p q :
  follows p m -> (forall a, follows q (k a)) -> follows (p ++ q) (then_ m k).
Proof. intros Hm Hk. eapply follows_bind; [done|apply yields_any|]. intros; apply Hk. Qed.

(** The requests of an upload. *)
Definition register_request (config : VaultConfig) (conn : Connection) (m : BundleManifest) : HttpRequest :=
  new_request conn POST "v1/bundles" [] (vc_upload_token config) [] (to_json m).
Definition object_request (config : VaultConfig) (conn : Connection) (b : string) : HttpRequest :=
  new_request conn POST ("v1/objects/" +:+ body_sha256 b) [] (vc_upload_token config)
    [("X-Argos-Kind", "backup"); ("Content-Type", "application/octet-stream")] b.
Definition complete_request (config : VaultConfig) (conn : Connection) (id : string) : HttpRequest :=
  new_request conn POST ("v1/bundles/" +:+ id +:+ "/complete") [] (vc_upload_token config) [] "".
Definition chunk_body (stage : Stage) (c : Chunk) : string := default "" (sg_chunk stage (ch_sha256 c)).
Definition upload_plan (config : VaultConfig) (conn : Connection) (stage : Stage) (m : BundleManifest) : list HttpRequest :=
  [register_request config conn m]
  ++ map (fun c => object_request config conn (chunk_body stage c)) (mf_chunks m)
  ++ [complete_request config conn (mf_bundle_id m)].

Lemma follows_record_request config method conn path secret body agent id :
  cl_redirect (cn_client conn) = NoRedirects ->
  follows [new_request conn method path [] secret [] body]
    (record_request exchange config method conn path secret body agent id).
Proof.
  intros Hn. unfold record_request. apply (follows_then _ _ []); [apply follows_message|intros _].
  apply (follows_bind _ _ (fun t => token secret = Ok t) []); [apply follows_client|apply yields_client|].
  intros t (-> & _)%token_Ok. apply (follows_then _ _ [_] []); [by apply follows_send|intros r].
  unfold record_response. repeat (apply (follows_then _ _ [] []); [first [apply follows_client|apply follows_message]|intros ?]).
  apply follows_answer.
Qed.
Lemma follows_connection {A} (config : VaultConfig) conn plan (k : Connection -> Client_ S A) : connection config = Ok conn ->
  follows plan (k conn) -> follows plan (then_ (client (connection config)) k).
Proof.
  intros Hu Hk. apply (follows_bind _ _ (fun u => connection config = Ok u) []); [apply follows_client|apply yields_client|].
  intros u Hu'. rewrite Hu in Hu'. by injection Hu' as <-.
Qed.

Lemma follows_register config conn m : connection config = Ok conn ->
  follows [register_request config conn m] (register_manifest exchange config m).
Proof.
  intros Hu. do 2 (apply (follows_then _ _ []); [apply follows_message|intros _]).
  eapply follows_connection; [done|]. apply (follows_then _ _ [_] []);
    [apply follows_record_request, (co_redirect _ _ (connection_Ok _ _ Hu))|intros r].
  apply (follows_then _ _ [] []); [apply follows_message|intros _]. apply follows_answer.
Qed.
Lemma follows_complete config conn id : connection config = Ok conn ->
  follows [complete_request config conn id] (complete exchange config id).
Proof.
  intros Hu. apply (follows_then _ _ []); [apply follows_message|intros _].
  eapply follows_connection; [done|]. apply (follows_then _ _ [_] []);
    [apply follows_record_request, (co_redirect _ _ (connection_Ok _ _ Hu))|intros r].
  apply (follows_then _ _ [] []); [apply follows_message|intros _]. apply follows_answer.
Qed.
Lemma follows_object config conn b : connection config = Ok conn ->
  follows [object_request config conn b] (upload_bytes exchange config b "backup").
Proof.
  intros Hu. eapply follows_connection; [done|]. unfold upload_connected.
  do 2 (apply (follows_then _ _ []); [apply follows_client|intros _]).
  apply (follows_bind _ _ (fun t => token (vc_upload_token config) = Ok t) []); [apply follows_client|apply yields_client|].
  intros t (-> & _)%token_Ok. apply (follows_then _ _ [_] []); [apply follows_send, (co_redirect _ _ (connection_Ok _ _ Hu))|intros r].
  repeat (apply (follows_then _ _ [] []); [apply follows_client|intros ?]). apply follows_answer.
Qed.

(** The bytes of a chunk the uploader accepted. *)
Definition chunk_intact (stage : Stage) (c : Chunk) : Prop :=
  exists b, sg_chunk stage (ch_sha256 c) = Some b /\ body_sha256 b = ch_sha256 c /\ slen b = ch_size_bytes c.
Lemma read_chunk_Ok stage c b : read_chunk stage c = Ok b ->
  sg_chunk stage (ch_sha256 c) = Some b /\ body_sha256 b = ch_sha256 c /\ slen b = ch_size_bytes c.
Proof.
  unfold read_chunk. intros (x & Hx & H)%ok_or_bind_Ok. apply guard_bind_Ok in H as (Hg & [= <-]).
  split_bools. destruct (sg_chunk stage (ch_sha256 c)) as [y|]; [|done]. cbn in Hx.
  destruct (slen y <=? CHUNK_BYTES); [|done]. injection Hx as <-. split_and!; [done|by apply String.eqb_eq|done].
Qed.

Lemma follows_chunks config conn stage chunks : connection config = Ok conn ->
  follows (map (fun c => object_request config conn (chunk_body stage c)) chunks)
    (upload_chunks exchange config stage chunks).
Proof.
  intros Hu. induction chunks as [|c chunks IH]; cbn [map upload_chunks]; [apply follows_answer|].
  apply (follows_bind _ _ (fun b => read_chunk stage c = Ok b) []); [apply follows_message|apply yields_message|].
  intros b (Hb & _)%read_chunk_Ok. unfold chunk_body at 1. rewrite Hb. cbn [default].
  apply (follows_then _ _ [_]); [by apply follows_object|intros _]. exact IH.
Qed.
Lemma upload_chunks_yields config stage chunks :
  yields (upload_chunks exchange config stage chunks) (fun _ => Forall (chunk_intact stage) chunks).
Proof.
  induction chunks as [|c chunks IH]; cbn [upload_chunks]; [by apply yields_answer|].
  eapply yields_bind; [apply yields_message|]. intros b Hb%read_chunk_Ok. apply yields_then. intros _.
  intros w w' a H%IH. apply Forall_cons. split; [by exists b|done].
Qed.

(** An upload registers first and asks for the completion last. Whatever the
    server answers, the requests that [upload_prepared] makes are, in this order,
    the registration of the manifest, one object for each chunk with the bytes of
    its file, and the completion; a failure stops somewhere on the way. When it
    succeeds all were made, every chunk had the hash and the size of the manifest,
    and the record is a complete one, signed by the pinned key, of this manifest. *)
Theorem upload_in_order (config : VaultConfig) (conn : Connection) (stage : Stage) (m : BundleManifest) (w : Conversation S) :
  connection config = Ok conn -> read_manifest (sg_manifest stage) = Ok m ->
  let '(w', r) := upload_prepared exchange config stage w in
  exists sent, w_trace w' = w_trace w ++ sent /\ sent `prefix_of` upload_plan config conn stage m
    /\ forall record, r = Ok record -> sent = upload_plan config conn stage m
         /\ Forall (chunk_intact stage) (mf_chunks m)
         /\ record_for config (vc_agent_id config) (mf_bundle_id m) record
         /\ bd_manifest record = m /\ is_Some (bd_completion record).
Proof.
  intros Hu Hm.
  assert (follows (upload_plan config conn stage m) (upload_prepared exchange config stage)) as Hf.
  { unfold upload_prepared. apply (follows_then _ _ []); [apply follows_message|intros _].
    apply (follows_bind _ _ (fun x => read_manifest (sg_manifest stage) = Ok x) []);
      [apply follows_message|apply yields_message|]. intros m' Hm'. assert (m' = m) as -> by congruence.
    apply (follows_then _ _ [_]); [by apply follows_register|intros _].
    apply follows_then; [by apply follows_chunks|intros _].
    apply (follows_then _ _ [_] []); [by apply follows_complete|intros r].
    apply (follows_then _ _ [] []); [apply follows_message|intros _]. apply follows_answer. }
  assert (yields (upload_prepared exchange config stage) (fun record =>
    Forall (chunk_intact stage) (mf_chunks m) /\ record_for config (vc_agent_id config) (mf_bundle_id m) record
    /\ bd_manifest record = m /\ is_Some (bd_completion record))) as Hy.
  { unfold upload_prepared. apply yields_then. intros _. eapply yields_bind; [apply yields_message|].
    intros m' Hm'. assert (m' = m) as -> by congruence. apply yields_then. intros _.
    eapply yields_bind; [apply upload_chunks_yields|]. intros u Hc. cbn beta in Hc.
    eapply (yields_bind _ _ (fun record => record_for config (vc_agent_id config) (mf_bundle_id m) record
      /\ is_Some (bd_completion record))).
    - unfold complete. do 2 (apply yields_then; intros ?). eapply yields_bind; [apply record_request_yields|].
      intros r Hr. eapply yields_bind; [apply yields_message|]. intros [] Hg%guard_Ok. apply yields_answer.
      split; [done|]. by destruct (bd_completion r).
    - intros r [Hr Hcomp]. eapply yields_bind; [apply yields_message|]. intros [] Hg%guard_Ok. split_bools.
      apply yields_answer. by split_and!. }
  destruct (Hf w) as (sent & Ht & Hp & Hall). specialize (Hy w).
  destruct (upload_prepared exchange config stage w) as [w' r]. exists sent. split_and!; [done|done|].
  intros record ->. split; [by apply (Hall record)|]. by apply (Hy w').
Qed.

End Order.

(** * Secrets *)

(** The operations of the client. *)
Inductive Operation :=
| OpUpload (read : Z -> option string) (kind : string)
| OpFetchFile (env : WriteEnv) (agent hash dest : string)
| OpUsage
| OpRegister (m : BundleManifest)
| OpComplete (id : string)
| OpUploadBundle (stage : Stage)
| OpGet (agent id : string)
| OpList (agent : string) (after : option string) (limit : Z)
| OpReview (agent id : string) (request : ReviewRequest)
| OpFetch (env : FetchEnv) (agent id dest : string) (evidence_only : bool).

(** The token an operation needs. *)
Definition op_secret (config : VaultConfig) (op : Operation) : string :=
  match op with
  | OpUpload _ _ | OpRegister _ | OpComplete _ | OpUploadBundle _ => vc_upload_token config
  | _ => vc_admin_token config
  end.

Section Operations.
Context `{Crypto : VaultCrypto} `{Json : BundleJson} `{Web : WebLibs} `{CJson : ClientJson}
  `{BJson : BundleClientJson}.
Context {S U : Type} `{Deserialize U} (exchange : HttpRequest -> S -> S * result HttpResponse SendFailure).

Definition run_operation (config : VaultConfig) (op : Operation) (w : Conversation S) : Conversation S :=
  match op with
  | OpUpload read kind => (upload_file exchange config read kind w).1
  | OpFetchFile env agent hash dest => (fetch_file exchange config env agent hash dest w).1
  | OpUsage => (fetch_usage (U := U) exchange config w).1
  | OpRegister m => (register_manifest exchange config m w).1
  | OpComplete id => (complete exchange config id w).1
  | OpUploadBundle stage => (upload_prepared exchange config stage w).1
  | OpGet agent id => (get exchange config agent id w).1
  | OpList agent after limit => (list_remote exchange config agent after limit w).1
  | OpReview agent id request => (review_remote exchange config agent id request w).1
  | OpFetch env agent id dest evidence => (fetch exchange config env agent id dest evidence w).1
  end.

(** C39: tokens stay with the endpoint. Whatever the server answers - redirects
    included - and whatever proxy the environment names, every request of an
    operation goes to the parsed endpoint of the configuration, over HTTPS (then
    through a proxy at most as a tunnel, and trusting only the configured roots
    when there are any) or, directly, over HTTP to a literal loopback address that
    was allowed, with no credentials, query or fragment in the URL; it carries one
    well-formed token, that of the agent in uploads and that of the administrator
    in queries, reviews and downloads, and never the other. *)
Theorem tokens_confined (config : VaultConfig) (op : Operation) (w : Conversation S) :
  exists sent, w_trace (run_operation config op w) = w_trace w ++ sent
    /\ Forall (confined config (op_secret config op)) sent.
Proof.
  destruct op; cbn [run_operation op_secret];
    [apply emits_upload_file|apply emits_fetch_file|apply emits_fetch_usage|apply emits_register|apply emits_complete
    |apply emits_upload_prepared|apply emits_get|apply emits_list|apply emits_review|apply emits_fetch].
Qed.

End Operations.

(** * The client and the server together *)

Module EndToEnd.
#[local] Existing Instances Sample.json Sample.crypto Run.intent_json Talk.client_json Talk.web.

(** Records and requests as text. *)
Definition record_text (r : BundleRecord) : string :=
  Sample.fields ([bd_agent_id r; Sample.fields (Sample.manifest_fields (bd_manifest r));
    Talk.receipt_ser (bd_manifest_receipt r);
    match bd_completion r with Some c => Sample.fields (Sample.signed_fields Sample.completion_fields c) | None => "" end;
    bd_current_review r; if bd_recommended r then "t" else "f"]
  ++ map (fun e => Sample.fields (Sample.signed_fields Sample.event_fields e)) (bd_reviews r)).
Definition parse_record (s : string) : option BundleRecord :=
  match Sample.untext s with
  | Some (a :: m :: r :: c :: state :: t :: es) =>
      m ← Sample.untext m ≫= Sample.manifest_of;
      r ← Talk.parse_receipt r;
      c ← (if String.eqb c "" then Some None
           else Some <$> (Sample.untext c ≫= Sample.signed_of Sample.completion_of));
      es ← mapM (fun e => Sample.untext e ≫= Sample.signed_of Sample.event_of) es;
      Some (mkBundleRecord a m r c es state (String.eqb t "t"))
  | _ => None
  end.
Definition request_of (s : string) : option ReviewRequest :=
  match Sample.untext s with
  | Some [i; d; w; y] => Some (mkReviewRequest i (if String.eqb d "g" then Good else Revoked) w y)
  | _ => None
  end.
#[local] Instance bundle_client_json : BundleClientJson := {|
  record_de := parse_record;
  list_de := fun _ => None;
  request_ser := fun r => Sample.fields (Run.request_fields r);
|}.
#[local] Instance pretty_json : PrettyJson := fun m => to_json m.

(** The handlers of the server for the agent "a" and the administrator, by the
    segments of the paths the client asks for. *)
Definition answered {A} (r : option A) (ser : A -> string) : result HttpResponse SendFailure :=
  Ok (match r with Some a => Talk.ok_with (ser a) | None => mkHttpResponse 500 None "" None end).
Definition answer_record (s : System) (id : string) : result HttpResponse SendFailure :=
  answered (match BundleServer.record Run.config true (sy_vault s) "a" id with Ok r => Some r | Err _ => None end)
    record_text.
Definition serve (r : HttpRequest) (s : System) : System * result HttpResponse SendFailure :=
  let env := Run.env (1000 + 100 * Z.of_nat (size (vs_blobs (va_storage (sy_vault s))))) in
  let step := system_step Run.config s in
  let store := va_storage (sy_vault s) in
  match hq_method r, split_slash (hq_path r) with
  | POST, [_; _; hash] =>
      let s := step (Upload Run.put_env "a" hash "backup" (hq_body r)) in
      (s, answered (vs_receipts (va_storage (sy_vault s)) !! ("a", hash)) Talk.receipt_ser)
  | POST, [_; _] =>
      match of_json (A := BundleManifest) (hq_body r) with
      | Some m => let s := step (Register env "a" m) in (s, answer_record s (mf_bundle_id m))
      | None => (s, answered None Talk.receipt_ser)
      end
  | POST, [_; _; id; _] =>
      let s := system_run Run.config s
                 [BeginCompletion env "a" id; ReadChunk 0 true true; CommitCompletion env true 0] in
      (s, answer_record s id)
  | POST, [_; _; _; id; _] =>
      match request_of (hq_body r) with
      | Some request => let s := step (Review env "a" id request) in (s, answer_record s id)
      | None => (s, answered None Talk.receipt_ser)
      end
  | GET, [_; kind; a; key] =>
      (s, if String.eqb kind "bundles" then answer_record s key
          else if String.eqb kind "receipts" then answered (vs_receipts store !! (a, key)) Talk.receipt_ser
          else answered (vs_blobs store !! (a, key)) (fun b => b))
  | _, _ => (s, answered None Talk.receipt_ser)
  end.

(** A file of five bytes is prepared. *)
Definition meta : FileMeta := mkFileMeta true false 5 (Some 1) [1; 2; 3; 4; 5; 6; 7].
Definition new_dir : NewDir := mkNewDir true true true.
Definition prepare_env : PrepareEnv :=
  mkPrepareEnv (Some meta) (Some meta) (Some (Sample.hex_digits 32 7)) 900 "/stage" new_dir new_dir
    "hello" false (fun _ => Written) (Some meta) (Some meta) Written.
Definition metadata : BundleMetadata := mkBundleMetadata "/srv/a" (Some 3) "[]" None.
Definition prepared : Prepared := (prepare_bundle prepare_env metadata).1.
Definition manifest : BundleManifest :=
  match (prepare_bundle prepare_env metadata).2 with Ok m => m | Err _ => Sample.manifest end.
Definition id : string := mf_bundle_id manifest.

Definition io : WriteEnv := mkWriteEnv "" true None true true true true true.
Definition fetch_env : FetchEnv := mkFetchEnv true (Some "r1") (fun _ => None) io.
Definition dest : string := "/restore/a".

(** It is uploaded, reviewed and restored. *)
Definition start : Conversation System := mkConversation (fresh Run.store) [] ∅.
Definition uploaded : Conversation System * result BundleRecord Failure :=
  upload_prepared serve Talk.config (stage_of prepared) start.
Definition reviewed : Conversation System * result BundleRecord Failure :=
  review_remote serve Talk.config "a" id (Run.request Good "r1") uploaded.1.
Definition fetched : Conversation System * result BundleRecord Failure :=
  fetch serve Talk.config fetch_env "a" id dest false reviewed.1.
Definition record_in (r : result BundleRecord Failure) : BundleRecord :=
  match r with Ok r => r | Err _ => Sample.record [] end.

Example prepared_ex : is_ok (prepare_bundle prepare_env metadata).2 = true.
Proof. vm_compute. reflexivity. Qed.
(** Not reviewed yet: nothing is restored. *)
Example unreviewed_withheld :
  let '(w, r) := fetch serve Talk.config fetch_env "a" id dest false uploaded.1 in
  (is_ok uploaded.2, is_ok r, w_files w !! dest) = (true, false, None).
Proof. vm_compute. reflexivity. Qed.
Example restored_ex : (is_ok fetched.2, w_files fetched.1 !! dest) = (true, Some "hello").
Proof. vm_compute. reflexivity. Qed.

Lemma outcome_eq {A} (x : A * result BundleRecord Failure) : is_ok x.2 = true -> x = (x.1, Ok (record_in x.2)).
Proof. by destruct x as [w []]. Qed.
Lemma fetched_eq : fetched = (fetched.1, Ok (record_in fetched.2)).
Proof. apply outcome_eq. vm_compute. reflexivity. Qed.
Lemma uploaded_eq : uploaded = (uploaded.1, Ok (record_in uploaded.2)).
Proof. apply outcome_eq. vm_compute. reflexivity. Qed.
Lemma temporary_other : temporary_name dest fetch_env <> Some dest.
Proof. vm_compute. discriminate. Qed.

Lemma fetch_restores_approved_witness :
  exists b, w_files fetched.1 !! dest = Some b
    /\ restorable Talk.config "a" id false (record_in fetched.2) b.
Proof.
  pose proof (fetch_restores_approved serve Talk.config fetch_env "a" id dest false reviewed.1 temporary_other) as H.
  fold fetched in H. rewrite fetched_eq in H. exact (proj2 (proj2 H) _ eq_refl).
Defined.

Lemma prepared_bundle_restored_witness :
  exists b, w_files fetched.1 !! dest = Some b /\ slen b = 5.
Proof.
  assert (Hp : prepare_bundle prepare_env metadata = (prepared, Ok manifest)) by (vm_compute; reflexivity).
  assert (Hno : no_collision prepare_env).
  { intros x y Hx Hy _. change (pieces CHUNK_BYTES (pp_input prepare_env)) with ["hello"] in Hx, Hy.
    apply list_elem_of_singleton in Hx as ->. apply list_elem_of_singleton in Hy as ->. reflexivity. }
  assert (Hj : of_json (manifest_pretty manifest) = Some manifest) by (vm_compute; reflexivity).
  assert (Hl : slen (manifest_pretty manifest) <= MAX_MANIFEST_BYTES) by (vm_compute; discriminate).
  assert (Hm : bd_manifest (record_in fetched.2) = manifest) by (vm_compute; reflexivity).
  destruct (prepared_bundle_restored prepare_env metadata prepared manifest Hp Hno Hj Hl) as (_ & _ & _ & H).
  destruct (H System serve Talk.config fetch_env "a" id dest false reviewed.1 fetched.1 (record_in fetched.2)
    temporary_other fetched_eq Hm) as (b & Hb & Hs & _).
  exists b. split; [exact Hb|exact Hs].
Defined.

Lemma upload_in_order_witness :
  let conn := mkConnection (mkHttpClient NoRedirects (Some 30) true [] false)
    (mkUrl "https://vault.example/" "https" "" None (Some "vault.example") "/" None None) in
  w_trace uploaded.1 = upload_plan Talk.config conn (stage_of prepared) manifest.
Proof.
  intros conn.
  assert (Hu : connection Talk.config = Ok conn) by (vm_compute; reflexivity).
  assert (Hm : read_manifest (sg_manifest (stage_of prepared)) = Ok manifest) by (vm_compute; reflexivity).
  pose proof (upload_in_order serve Talk.config conn (stage_of prepared) manifest start Hu Hm) as H.
  fold uploaded in H. rewrite uploaded_eq in H. destruct H as (sent & Ht & _ & Hall). rewrite Ht. exact (proj1 (Hall _ eq_refl)).
Defined.

(** A loopback server redirects the upload to another host, and the environment
    names a proxy: the one request made goes to the loopback server, directly. *)
Definition loopback_config : VaultConfig :=
  mkVaultConfig "http://127.0.0.1:9/" "a" "upload-token-0123" "admin-token-01234" "pub" "k" true None 65536 30.
Definition redirected_upload : Conversation (list HttpResponse) :=
  run_operation (U := SignedReceipt) (Web := Talk.web_at "http" "127.0.0.1") Talk.scripted loopback_config
    (OpUpload (fun _ => Some "hello") "backup") (Talk.talk [mkHttpResponse 307 None "" None; Talk.ok_with ""]).
Lemma tokens_confined_witness :
  map (fun q => (url_text (hq_endpoint q), hq_proxy q, hq_bearer q)) (w_trace redirected_upload)
    = [("http://127.0.0.1:9/", None, "upload-token-0123")]
  /\ Forall (confined (Web := Talk.web_at "http" "127.0.0.1") loopback_config "upload-token-0123")
       (w_trace redirected_upload).
Proof.
  split; [vm_compute; reflexivity|].
  destruct (tokens_confined (U := SignedReceipt) (Web := Talk.web_at "http" "127.0.0.1") Talk.scripted loopback_config
    (OpUpload (fun _ => Some "hello") "backup") (Talk.talk [mkHttpResponse 307 None "" None; Talk.ok_with ""]))
    as (sent & Ht & Hall).
  fold redirected_upload in Ht. rewrite Ht. exact Hall.
Defined.

(** The page of a catalog with one bundle. *)
Definition vault : Vault := sy_vault (w_server reviewed.1).
Lemma server_page_accepted_witness :
  validate_page (list_page Run.config true vault "a" None 10) "a" None 10 = Ok tt.
Proof.
  assert (Hid : Forall (fun id => valid_bundle_id id = true) (known_ids vault "a")).
  { assert (E : known_ids vault "a" = [id]) by (vm_compute; reflexivity). rewrite E.
    constructor; [vm_compute; reflexivity|constructor]. }
  assert (Ht : stored_typed vault).
  { intros k b Hb m Hm.
    assert (Hall : forallb (fun kv => match of_json (A := BundleManifest) kv.2 with
        | Some m => (0 <=? mf_size_bytes m) && (mf_size_bytes m <=? u64_max)
                    && forallb (fun c => (0 <=? ch_size_bytes c) && (ch_size_bytes c <=? u64_max)) (mf_chunks m)
        | None => true end) (map_to_list (vs_blobs (va_storage vault))) = true) by (vm_compute; reflexivity).
    rewrite forallb_forall in Hall. specialize (Hall (k, b)). cbn [snd] in Hall. rewrite Hm in Hall.
    specialize (Hall (proj1 (list_elem_of_In _ _) (proj2 (elem_of_map_to_list _ _ _) Hb))).
    apply andb_true_iff in Hall as [Hs Hc]. apply andb_true_iff in Hs as [H1%Z.leb_le H2%Z.leb_le].
    split; [split; assumption|]. apply Forall_forall. intros c Hin.
    rewrite forallb_forall in Hc. specialize (Hc c (proj1 (list_elem_of_In _ _) Hin)).
    apply andb_true_iff in Hc as [H3%Z.leb_le H4%Z.leb_le]. split; assumption. }
  exact (proj1 (server_page_accepted Run.config true vault "a" None 10 ltac:(lia) Ht Hid)).
Defined.

End EndToEnd.
