(* ===== verification/Archive.v ===== *)
(** The export of the receipts of a queue to a file and its verification
    (crates/argos-vault/src/queue/archive.rs), for a queue of the current format. *)
From Stdlib Require Import ZArith Lia Ascii.
From stdpp Require Import base gmap strings list sorting.
From S2P Require Import Prelude RustPath RustStr Receipts Bundle VaultQuota VaultQueue BundleJobs BundleClient.
#[local] Open Scope Z_scope.

Definition ARCHIVE_FORMAT : string := "argos-queue-receipt-archive-v1".
Definition MAX_LINE : Z := 8192.
Definition MAX_EXPORT : Z := 256 * 1024 * 1024.

Record ArchiveExportReport := mkArchiveExportReport {
  xe_format : string;
  xe_output : string;
  xe_archived_items : Z;
  xe_sha256 : string;
  xe_size_bytes : Z;
  xe_source_preserved : bool;
}.
Record ArchiveVerification := mkArchiveVerification {
  xv_format : string;
  xv_archived_items : Z;
  xv_sha256 : string;
  xv_size_bytes : Z;
  xv_archive_authenticated : bool;
}.
Inductive ArchiveRecord :=
  | Header (format : string) (target : QueueTarget) (archived_items exported_at_ms : Z)
  | ReceiptLine (item : QueueItem)
  | Trailer (archived_items : Z) (content_sha256 : string).

(** [serde_json] on a record, and [hex::encode(public_key(pubkey)?.to_bytes())]. *)
Class ArchiveLibs := {
  record_json : ArchiveRecord -> string;
  parse_record : string -> option ArchiveRecord;
  normal_key : string -> option string;
}.

(** What the export meets: the private parent, the random name, the clock, the
    bytes the disk takes, and the outcomes of the calls after the last write. *)
Record ArchiveEnv := mkArchiveEnv {
  ae_parent_private : bool;
  ae_queue_private : bool;
  ae_random : option string;
  ae_create_ok : bool;
  ae_now_ms : Z;
  ae_capacity : Z;
  ae_sync_ok : bool;
  ae_link_ok : bool;
  ae_remove_ok : bool;
  ae_dir_sync_ok : bool;
}.

Section Exporting.
Context `{Crypto : VaultCrypto} `{Libs : ArchiveLibs}.

Definition line (record : ArchiveRecord) : result string string :=
  let bytes := record_json record +:+ String newline "" in
  let? _ := guard (MAX_LINE <? slen bytes) "수신증명 보관 행은 8KiB를 넘을 수 없습니다" in
  Ok bytes.

(** The bytes written so far; their hashes are taken when they are finished. *)
Definition write_bytes (env : ArchiveEnv) (file bytes : string) : result string string :=
  let? _ := guard (ae_capacity env <? slen (file +:+ bytes)) "write_all" in
  Ok (file +:+ bytes).
Definition emit (env : ArchiveEnv) (file : string) (record : ArchiveRecord) : result string string :=
  let? bytes := line record in
  let? _ := guard (MAX_EXPORT <? sat_add (slen file) (slen bytes)) "수신증명 내보내기 256MiB 상한 초과" in
  write_bytes env file bytes.

(** The table in the order of its rowids, which count from 1: rows are only
    appended, by INSERT. *)
Definition sent_rows (table : list QueueItem) : list (Z * QueueItem) :=
  List.filter (fun r => String.eqb (qi_state r.2) "sent") (imap (fun i item => (Z.of_nat i + 1, item)) table).
Definition watermark_of (table : list QueueItem) : Z := foldr Z.max 0 (map fst (sent_rows table)).
(** ORDER BY rowid LIMIT 100; the inner query finds the row again by its primary key. *)
Definition batch (table : list QueueItem) (cursor watermark : Z) : list (Z * QueueItem) :=
  take 100 (List.filter (fun r => (cursor <? r.1) && (r.1 <=? watermark)) (sent_rows table)).

Fixpoint copy_batch (env : ArchiveEnv) (target : QueueTarget) (file : string) (cursor written : Z) (rows : list (Z * QueueItem))
    : result (string * Z * Z) string :=
  match rows with
  | [] => Ok (file, cursor, written)
  | (rowid, item) :: rows =>
      let? _ := verified_item item target in
      let? _ := guard (MAX_ARCHIVE_ITEMS <? written + 1) "수신증명 기록 상한 초과" in
      let? file := emit env file (ReceiptLine item) in
      copy_batch env target file rowid (written + 1) rows
  end.
(** [tables n] is the table at the n-th query; [None] when the fuel runs out. *)
Fixpoint copy_all (fuel : nat) (env : ArchiveEnv) (target : QueueTarget) (tables : nat -> list QueueItem) (n : nat)
    (watermark : Z) (file : string) (cursor written : Z) : option (result (string * Z) string) :=
  match fuel with
  | O => None
  | S fuel =>
      match batch (tables n) cursor watermark with
      | [] => Some (Ok (file, written))
      | rows =>
          match copy_batch env target file cursor written rows with
          | Err e => Some (Err e)
          | Ok (file, cursor, written) => copy_all fuel env target tables (S n) watermark file cursor written
          end
      end
  end.
(** Each query but the last one writes a row, and there are at most [MAX_ARCHIVE_ITEMS]. *)
Definition COPY_FUEL : nat := Z.to_nat (MAX_ARCHIVE_ITEMS + 2).

Definition archive_file (env : ArchiveEnv) (target : QueueTarget) (tables : nat -> list QueueItem) : result (string * Z) string :=
  let count := zlen (sent_rows (tables O)) in
  let? file := emit env "" (Header ARCHIVE_FORMAT target count (ae_now_ms env)) in
  let? copied := match copy_all COPY_FUEL env target tables 1 (watermark_of (tables O)) file 0 0 with
                 | Some r => r
                 | None => Err "copy_all"
                 end in
  let '(file, written) := copied in
  let? _ := guard (negb (written =? count)) "내보내기 중 수신증명 이력이 변경되었습니다" in
  let? trailer := line (Trailer written (body_sha256 file)) in
  let? _ := guard (MAX_EXPORT <? slen file + slen trailer) "수신증명 내보내기 크기 상한 초과" in
  let? file := write_bytes env file trailer in
  let? _ := guard (negb (ae_sync_ok env)) "sync_all" in
  Ok (file, written).

Definition archive_temporary (parent random : string) : string := parent +:+ "/.argos-vault-archive-" +:+ random +:+ ".tmp".
Definition remove_file (env : ArchiveEnv) (files : gmap string string) (path : string) : gmap string string :=
  if ae_remove_ok env then delete path files else files.
(** [hard_link] never replaces a file. *)
Definition publish_archive (env : ArchiveEnv) (files : gmap string string) (temporary output file : string)
    : gmap string string * result unit string :=
  if negb (ae_link_ok env) || is_some (files !! output) then (remove_file env files temporary, Err "hard_link")
  else
    let files := <[output := file]> files in
    if negb (ae_remove_ok env) then (files, Err "remove_file")
    else
      let files := delete temporary files in
      (files, if ae_dir_sync_ok env then Ok tt else Err "sync_directory").

Definition export_archive (files : gmap string string) (env : ArchiveEnv) (st : QueueState) (tables : nat -> list QueueItem)
    (directory output : string) : gmap string string * result ArchiveExportReport string :=
  let admitted :=
    let? parent := ok_or (path_parent output) "내보내기 부모 경로 없음" in
    let? _ := guard (negb (ae_parent_private env)) "validate_private_directory" in
    let? _ := guard (path_starts_with output directory) "내보내기는 큐 바깥 전용 디렉터리를 사용하세요" in
    let? _ := guard (negb (ae_queue_private env)) "open_readonly" in
    let? _ := validate_database st in
    let? random := ok_or (ae_random env) "random_id" in
    let temporary := archive_temporary parent random in
    let? _ := guard (negb (ae_create_ok env) || is_some (files !! temporary)) "open_private" in
    Ok temporary in
  match admitted with
  | Err e => (files, Err e)
  | Ok temporary =>
      match archive_file env (qu_target st) tables with
      | Err e => (remove_file env (<[temporary := ""]> files) temporary, Err e)
      | Ok (file, written) =>
          let '(files, r) := publish_archive env (<[temporary := file]> files) temporary output file in
          (files, let? _ := r in
                  Ok (mkArchiveExportReport ARCHIVE_FORMAT output written (body_sha256 file) (slen file) true))
      end
  end.

(** * Verification *)

(** What the verification meets: the file that was opened, what it yields until
    its end or a failed read, and the looks at it. *)
Record ArchiveView := mkArchiveView {
  av_private : bool;
  av_before : option FileMeta;
  av_bytes : string;
  av_broken : bool;
  av_after : option FileMeta;
  av_path_after : option FileMeta;
}.

(** [take(max).read_until(newline)]. *)
Fixpoint read_until (max : nat) (s : string) : string * string :=
  match max, s with
  | O, _ | _, EmptyString => ("", s)
  | S max, String c s =>
      if Ascii.eqb c newline then (String c "", s)
      else let '(taken, rest) := read_until max s in (String c taken, rest)
  end.
Definition ends_line (bytes : string) : bool := ends_with (String newline "") bytes.

Record Verifying := mkVerifying {
  vy_content : string;
  vy_seen : Z;
  vy_size : Z;
  vy_target : option QueueTarget;
  vy_expected : Z;
  vy_trailer : bool;
  vy_ids : list string;
  vy_objects : list (string * string);
}.
Definition verify_start : Verifying := mkVerifying "" 0 0 None 0 false [] [].

Definition verify_archive_record (public : string) (s : Verifying) (bytes : string) (record : ArchiveRecord) : result Verifying string :=
  match record, vy_target s with
  | Header format target archived_items _, None =>
      if negb (vy_seen s =? 0) then Err "수신증명 보관 기록 순서 오류"
      else
        let? _ := guard (negb (String.eqb format ARCHIVE_FORMAT) || (MAX_ARCHIVE_ITEMS <? archived_items)
                         || negb (String.eqb (qt_pinned_pubkey target) public)
                         || negb (valid_id (qt_agent_id target)) || negb (valid_id (qt_key_id target)))
                    "수신증명 보관 헤더/신뢰 공개키 오류" in
        Ok (mkVerifying (vy_content s +:+ bytes) (vy_seen s) (vy_size s) (Some target) archived_items (vy_trailer s)
              (vy_ids s) (vy_objects s))
  | ReceiptLine _, None => Err "보관 헤더 없음"
  | ReceiptLine item, Some target =>
      let? _ := verified_item item target in
      let object := (qi_kind item, qi_sha256 item) in
      let? _ := guard ((vy_expected s <? vy_seen s + 1) || str_mem (qi_id item) (vy_ids s) || bool_decide (object ∈ vy_objects s))
                  "보관 수신증명 수/중복 오류" in
      Ok (mkVerifying (vy_content s +:+ bytes) (vy_seen s + 1) (vy_size s) (Some target) (vy_expected s) (vy_trailer s)
            (vy_ids s ++ [qi_id item]) (vy_objects s ++ [object]))
  | Trailer archived_items content_sha256, Some target =>
      let? _ := guard (negb (archived_items =? vy_seen s) || negb (vy_seen s =? vy_expected s)
                       || negb (String.eqb content_sha256 (body_sha256 (vy_content s))))
                  "보관 끝 기록 수/내용 해시 불일치" in
      Ok (mkVerifying (vy_content s) (vy_seen s) (vy_size s) (Some target) (vy_expected s) true (vy_ids s) (vy_objects s))
  | _, _ => Err "수신증명 보관 기록 순서 오류"
  end.
Definition verify_line (public : string) (s : Verifying) (bytes : string) : result Verifying string :=
  let size := vy_size s + slen bytes in
  let? _ := guard ((MAX_LINE <? slen bytes) || negb (ends_line bytes) || (MAX_EXPORT <? size) || vy_trailer s)
              "수신증명 보관 파일 행/크기/끝 구조 오류" in
  let? record := ok_or (parse_record bytes) "serde_json" in
  verify_archive_record public
    (mkVerifying (vy_content s) (vy_seen s) size (vy_target s) (vy_expected s) (vy_trailer s) (vy_ids s) (vy_objects s)) bytes record.
(** A read consumes a byte, so the length of the file is enough fuel. *)
Fixpoint verify_lines (fuel : nat) (public : string) (broken : bool) (s : Verifying) (rest : string) : result Verifying string :=
  match fuel with
  | O => Err "verify_lines"
  | S fuel =>
      let '(bytes, rest) := read_until (Z.to_nat (MAX_LINE + 1)) rest in
      if broken && String.eqb rest "" && (slen bytes <? MAX_LINE + 1) && negb (ends_line bytes) then Err "read_until"
      else if String.eqb bytes "" then Ok s
      else let? s := verify_line public s bytes in verify_lines fuel public broken s rest
  end.

(** The identity of a file is dev, ino, ctime and ctime_nsec, then what is not compared. *)
Definition stable_file (before after path_after : FileMeta) (size : Z) : bool :=
  (fm_len before =? fm_len after) && (fm_len after =? size) && bool_decide (fm_modified before = fm_modified after)
  && negb (fm_is_symlink path_after)
  && bool_decide (take 4 (fm_identity before) = take 4 (fm_identity after))
  && bool_decide (take 2 (fm_identity before) = take 2 (fm_identity path_after)).

Definition verify_archive (view : ArchiveView) (pubkey : string) : result ArchiveVerification string :=
  let? public := ok_or (normal_key pubkey) "public_key" in
  let? _ := guard (negb (av_private view)) "private_file" in
  let? before := ok_or (av_before view) "open" in
  let? _ := guard (MAX_EXPORT <? fm_len before) "수신증명 보관 파일 256MiB 상한 초과" in
  let? s := verify_lines (S (String.length (av_bytes view))) public (av_broken view) verify_start (av_bytes view) in
  let? _ := guard (negb (vy_trailer s)) "완료 trailer가 없는 보관 파일입니다" in
  let? after := ok_or (av_after view) "metadata" in
  let? path_after := ok_or (av_path_after view) "symlink_metadata" in
  let? _ := guard (negb (is_some (fm_modified before) && is_some (fm_modified after))) "modified" in
  let? _ := guard (negb (stable_file before after path_after (vy_size s))) "검증 도중 수신증명 보관 파일이 변경되었습니다" in
  Ok (mkArchiveVerification ARCHIVE_FORMAT (vy_seen s) (body_sha256 (av_bytes view)) (vy_size s) false).

End Exporting.

(** * The text of a list of records *)

Class ArchiveLaws `{Libs : ArchiveLibs} : Prop := {
  parse_line_back r : parse_record (record_json r +:+ String newline "") = Some r;
  (** A newline in a string is escaped. *)
  one_line r : str_all (fun c => negb (Ascii.eqb c newline)) (record_json r) = true;
}.

Lemma slen_app (s t : string) : slen (s +:+ t) = slen s + slen t.
Proof. unfold slen. rewrite string_length_app. lia. Qed.

Section Text.
Context `{Libs : ArchiveLibs}.

Definition line_of (r : ArchiveRecord) : string := record_json r +:+ String newline "".
Definition text_of (records : list ArchiveRecord) : string := String.concat "" (map line_of records).

Lemma text_cons r records : text_of (r :: records) = line_of r +:+ text_of records.
Proof. apply concat_cons. Qed.
Lemma text_app a b : text_of (a ++ b) = text_of a +:+ text_of b.
Proof. induction a as [|r a IH]; [done|]. cbn [app]. by rewrite !text_cons, IH, append_assoc. Qed.
Lemma text_snoc records r : text_of (records ++ [r]) = text_of records +:+ line_of r.
Proof. rewrite text_app, text_cons. cbn. by rewrite append_nil_r. Qed.

Lemma line_Ok r bytes : line r = Ok bytes <-> bytes = line_of r /\ slen (line_of r) <= MAX_LINE.
Proof.
  unfold line. fold (line_of r). cbv zeta. rewrite guard_bind_Ok, Z.ltb_ge. split; [intros [H1 H2]|intros [-> H2]]; split; by simplify_eq.
Qed.
Lemma emit_Ok env file r file' :
  emit env file r = Ok file' <->
  file' = file +:+ line_of r /\ slen (line_of r) <= MAX_LINE /\ sat_add (slen file) (slen (line_of r)) <= MAX_EXPORT
  /\ slen (file +:+ line_of r) <= ae_capacity env.
Proof.
  unfold emit, write_bytes. rewrite res_bind_Ok. setoid_rewrite line_Ok. setoid_rewrite guard_bind_Ok. setoid_rewrite guard_bind_Ok.
  setoid_rewrite Z.ltb_ge. split.
  - intros (b & [-> H1] & H2 & H3 & H4). by simplify_eq.
  - intros (-> & H1 & H2 & H3). by exists (line_of r).
Qed.

Lemma emit_size file r : slen file <= MAX_EXPORT -> sat_add (slen file) (slen (line_of r)) <= MAX_EXPORT -> slen (file +:+ line_of r) <= MAX_EXPORT.
Proof.
  rewrite slen_app. generalize (slen file) as a, (slen (line_of r)) as b. intros a b. unfold sat_add, u64_max, MAX_EXPORT. lia.
Qed.

Lemma read_until_line max (body rest : string) :
  str_all (fun c => negb (Ascii.eqb c newline)) body = true -> (String.length body < max)%nat ->
  read_until max ((body +:+ String newline "") +:+ rest) = (body +:+ String newline "", rest).
Proof.
  revert max. induction body as [|c body IH]; intros max Hb Hl.
  - destruct max as [|max]; [cbn in Hl; lia|]. done.
  - cbn in Hb. apply andb_true_iff in Hb as [Hc%negb_true_iff Hb]. destruct max as [|max]; [cbn in Hl; lia|].
    change ((String c body +:+ String newline "") +:+ rest) with (String c ((body +:+ String newline "") +:+ rest)).
    cbn [read_until]. rewrite Hc, IH by (done || cbn in Hl; lia). done.
Qed.

(** What a read takes is a prefix of what is left. *)
Lemma read_until_split max s : (read_until max s).1 +:+ (read_until max s).2 = s.
Proof.
  revert s. induction max as [|max IH]; intros [|c s]; cbn [read_until]; try done. destruct (Ascii.eqb c newline); [done|].
  specialize (IH s). destruct (read_until max s) as [taken rest]. cbn in *. by rewrite <- IH.
Qed.

End Text.

(** * The rows that an export copies *)

Section Copy.
Context `{Crypto : VaultCrypto} `{Libs : ArchiveLibs}.

Definition receipt_lines (rows : list (Z * QueueItem)) : list ArchiveRecord := map (fun r => ReceiptLine r.2) rows.
(** The last rowid, or the cursor before the rows. *)
Definition cursor_after (cursor : Z) (rows : list (Z * QueueItem)) : Z := default cursor (fst <$> list.last rows).

Lemma copy_batch_Ok env target file cursor written rows file' cursor' written' :
  slen file <= MAX_EXPORT ->
  copy_batch env target file cursor written rows = Ok (file', cursor', written') ->
  file' = file +:+ text_of (receipt_lines rows) /\ cursor' = cursor_after cursor rows /\ written' = written + zlen rows
  /\ slen file' <= MAX_EXPORT /\ (rows <> [] -> written' <= MAX_ARCHIVE_ITEMS)
  /\ Forall (fun r => verified_item r.2 target = Ok tt /\ slen (line_of (ReceiptLine r.2)) <= MAX_LINE) rows.
Proof.
  revert file cursor written. induction rows as [|[rowid item] rows IH]; intros file cursor written Hfile Hc; cbn [copy_batch] in Hc.
  { simplify_eq. rewrite zlen_nil, Z.add_0_r. split_and!; [symmetry; apply append_nil_r|done..]. }
  apply res_bind_Ok in Hc as (u & Hv & Hc). apply guard_bind_Ok in Hc as [Hmax%Z.ltb_ge Hc]. apply res_bind_Ok in Hc as (f & He & Hc).
  apply emit_Ok in He as (-> & Hline & Hsize & _).
  pose proof (emit_size _ _ Hfile Hsize) as Hf.
  destruct (IH _ _ _ Hf Hc) as (-> & -> & -> & I1 & I2 & I3). destruct u. split_and!.
  - cbn [receipt_lines map snd]. by rewrite text_cons, append_assoc.
  - unfold cursor_after. rewrite last_cons. by destruct (list.last rows).
  - rewrite zlen_cons. lia.
  - done.
  - intros _. destruct rows as [|r rows]; [rewrite zlen_nil; lia|by apply I2].
  - by constructor.
Qed.


Lemma sent_rows_ids table r : r ∈ sent_rows table -> 1 <= r.1 <= zlen table.
Proof.
  unfold sent_rows. rewrite filter_elem. intros [Hin _]. apply elem_of_lookup_imap in Hin as (i & it & -> & Hi).
  apply lookup_lt_Some in Hi. cbn. unfold zlen. lia.
Qed.
Lemma sent_rows_sorted table : StronglySorted (fun a b : Z * QueueItem => a.1 < b.1) (sent_rows table).
Proof.
  unfold sent_rows. assert (forall k, StronglySorted (fun a b : Z * QueueItem => a.1 < b.1)
    (List.filter (fun r => String.eqb (qi_state r.2) "sent") (imap (fun i item => (Z.of_nat (k + i) + 1, item)) table))) as H; [|apply (H O)].
  induction table as [|it table IH]; intros k; [constructor|]. cbn [imap List.filter].
  assert (StronglySorted (fun a b : Z * QueueItem => a.1 < b.1)
    (List.filter (fun r => String.eqb (qi_state r.2) "sent") (imap ((fun i item => (Z.of_nat (k + i) + 1, item)) ∘ S) table))) as H.
  { erewrite imap_ext; [apply (IH (S k))|]. intros i x _. cbn. f_equal. lia. }
  destruct (String.eqb _ _); [|done]. constructor; [done|]. rewrite Forall_forall. intros r [Hin _]%filter_elem.
  apply elem_of_lookup_imap in Hin as (i & x & -> & _). cbn. lia.
Qed.

Lemma watermark_max table r : r ∈ sent_rows table -> r.1 <= watermark_of table.
Proof.
  unfold watermark_of. induction (sent_rows table) as [|x l IH]; [by intros ?%elem_of_nil|]. cbn.
  rewrite elem_of_cons. intros [->|Hin]; [lia|]. specialize (IH Hin). lia.
Qed.
Lemma watermark_le table : watermark_of table <= zlen table.
Proof.
  unfold watermark_of. assert (Forall (fun r : Z * QueueItem => r.1 <= zlen table) (sent_rows table)) as H.
  { rewrite Forall_forall. intros r Hr. apply sent_rows_ids in Hr. lia. }
  induction H as [|x l Hx _ IH]; cbn; [unfold zlen|]; lia.
Qed.

(** A query of a table that only grows finds the rows that were there at first. *)
Lemma batch_grown table grown cursor :
  table `prefix_of` grown ->
  batch grown cursor (watermark_of table) = take 100 (List.filter (fun r => cursor <? r.1) (sent_rows table)).
Proof.
  intros [more ->]. unfold batch. f_equal.
  assert (exists late, sent_rows (table ++ more) = sent_rows table ++ late /\ Forall (fun r : Z * QueueItem => zlen table < r.1) late) as (late & -> & Hlate).
  { unfold sent_rows. rewrite imap_app, List.filter_app. eexists. split; [done|]. rewrite Forall_forall. intros r [Hin _]%filter_elem.
    apply elem_of_lookup_imap in Hin as (i & it & -> & _). cbn. unfold zlen. lia. }
  rewrite List.filter_app. rewrite (filter_none_of _ late), app_nil_r.
  - apply filter_agree. intros r Hr. rewrite (proj2 (Z.leb_le _ _)) by by apply watermark_max. by rewrite andb_true_r.
  - pose proof (watermark_le table). eapply Forall_impl; [exact Hlate|]. cbn. intros r Hr. apply andb_false_iff. right. apply Z.leb_gt. lia.
Qed.

(** The next rows by number are the rows after the cursor. *)
Lemma after_cursor (l done rest : list (Z * QueueItem)) :
  StronglySorted (fun a b : Z * QueueItem => a.1 < b.1) l -> l = done ++ rest -> Forall (fun r : Z * QueueItem => 0 < r.1) l ->
  List.filter (fun r => cursor_after 0 done <? r.1) l = rest.
Proof.
  intros Hs -> Hpos. rewrite List.filter_app.
  assert (Forall (fun r : Z * QueueItem => r.1 <= cursor_after 0 done) done) as Hbefore.
  { unfold cursor_after. destruct done as [|x d] using rev_ind; [constructor|]. rewrite last_snoc. cbn. clear IHd.
    rewrite <- app_assoc in Hs. apply Forall_app. split; [|constructor; [lia|constructor]]. rewrite Forall_forall. intros r Hr.
    apply list_elem_of_split in Hr as (a & b & ->). rewrite <- app_assoc in Hs. cbn in Hs.
    assert (StronglySorted (fun a b : Z * QueueItem => a.1 < b.1) (r :: b ++ x :: rest)) as Hs'
      by (clear -Hs; induction a as [|y a IH]; [done|]; inversion Hs; auto).
    apply StronglySorted_inv in Hs' as [_ Hf]. apply Forall_app in Hf as [_ Hf]. inversion Hf; subst. lia. }
  rewrite filter_none_of by (eapply Forall_impl; [exact Hbefore|]; cbn; intros r Hr; by apply Z.ltb_ge).
  cbn. apply filter_all_true. unfold cursor_after. destruct done as [|x d _] using rev_ind.
  - cbn in *. eapply Forall_impl; [exact Hpos|]. intros r Hr. by apply Z.ltb_lt.
  - rewrite last_snoc. cbn. rewrite <- app_assoc in Hs. cbn in Hs. clear -Hs. induction d as [|y d IH]; [|inversion Hs; auto].
    apply StronglySorted_inv in Hs as [_ Hf]. eapply Forall_impl; [exact Hf|]. intros r Hr. by apply Z.ltb_lt.
Qed.

Lemma copy_all_Ok fuel env target tables n file rest before result written :
  (forall n, tables O `prefix_of` tables n) -> sent_rows (tables O) = before ++ rest -> slen file <= MAX_EXPORT ->
  copy_all fuel env target tables n (watermark_of (tables O)) file (cursor_after 0 before) (zlen before) = Some (Ok (result, written)) ->
  result = file +:+ text_of (receipt_lines rest) /\ written = zlen (before ++ rest) /\ slen result <= MAX_EXPORT
  /\ (rest <> [] -> written <= MAX_ARCHIVE_ITEMS)
  /\ Forall (fun r => verified_item r.2 target = Ok tt /\ slen (line_of (ReceiptLine r.2)) <= MAX_LINE) rest.
Proof.
  intros Hgrow. revert n file rest before. induction fuel as [|fuel IH]; intros n file rest before Hsplit Hfile Hc; [done|]. cbn [copy_all] in Hc.
  rewrite (batch_grown (tables O)) in Hc by done.
  rewrite (after_cursor _ before rest) in Hc; [|apply sent_rows_sorted|done|].
  2:{ rewrite Forall_forall. intros r Hr. apply sent_rows_ids in Hr. lia. }
  destruct rest as [|r0 rest'].
  { cbn in Hc. simplify_eq. rewrite append_nil_r, app_nil_r. by split_and!. }
  set (rest := r0 :: rest') in *. destruct (take 100 rest) as [|r1 rows'] eqn:Hrows; [done|].
  set (rows := r1 :: rows') in *. destruct (copy_batch _ _ _ _ _ rows) as [[[f c] w]|] eqn:Hb; [|done].
  apply copy_batch_Ok in Hb as (-> & -> & -> & H1 & H2 & H3); [|done].
  assert (rest = rows ++ drop 100 rest) as Hrest by (rewrite <- Hrows; by rewrite take_drop).
  destruct (IH (S n) (file +:+ text_of (receipt_lines rows)) (drop 100 rest) (before ++ rows)) as (I1 & I2 & I3 & I4 & I5); [by rewrite <- app_assoc, <- Hrest|done| |].
  - rewrite zlen_app. replace (cursor_after 0 (before ++ rows)) with (cursor_after (cursor_after 0 before) rows); [done|].
    unfold cursor_after. rewrite last_app. by destruct (list.last rows).
  - rewrite Hrest. split_and!.
    + rewrite I1, append_assoc, <- text_app. unfold receipt_lines. by rewrite map_app.
    + by rewrite I2, app_assoc.
    + done.
    + intros _. destruct (drop 100 rest) as [|x l]; [|by apply I4]. rewrite I2, app_nil_r, zlen_app. by apply H2.
    + by apply Forall_app.
Qed.

(** Whatever other connections do to the table, the copy ends. *)
Lemma copy_all_ends fuel env target tables n watermark file cursor written :
  0 <= written -> MAX_ARCHIVE_ITEMS - written + 2 <= Z.of_nat fuel -> written <= MAX_ARCHIVE_ITEMS ->
  slen file <= MAX_EXPORT ->
  copy_all fuel env target tables n watermark file cursor written <> None.
Proof.
  revert n file cursor written. induction fuel as [|fuel IH]; intros n file cursor written H0 Hf Hw Hfile; [lia|]. cbn [copy_all].
  destruct (batch (tables n) cursor watermark) as [|r rows] eqn:Hb; [done|].
  destruct (copy_batch _ _ _ _ _ (r :: rows)) as [[[f c] w]|] eqn:Hc; [|done].
  apply copy_batch_Ok in Hc as (_ & _ & -> & H1 & H2 & _); [|done]. rewrite zlen_cons in *. pose proof (zlen_nonneg rows). specialize (H2 ltac:(done)).
  apply IH; lia.
Qed.

End Copy.

(** * What the verification accepts *)

Section Accept.
Context `{Crypto : VaultCrypto} `{Libs : ArchiveLibs}.

Definition object_of (item : QueueItem) : string * string := (qi_kind item, qi_sha256 item).
Definition lines_text (lines : list (string * ArchiveRecord)) : string := String.concat "" (map fst lines).
Lemma lines_text_snoc lines l : lines_text (lines ++ [l]) = lines_text lines +:+ l.1.
Proof.
  unfold lines_text. induction lines as [|x lines IH]; cbn [app map]; rewrite !concat_cons; [cbn; by rewrite append_nil_r|].
  by rewrite IH, append_assoc.
Qed.

(** The receipts of an archive: verified, and none twice. *)
Record receipts_ok (target : QueueTarget) (items : list QueueItem) : Prop := {
  rk_verified : Forall (fun item => verified_item item target = Ok tt) items;
  rk_ids : NoDup (map qi_id items);
  rk_objects : NoDup (map object_of items);
  rk_count : zlen items <= MAX_ARCHIVE_ITEMS;
}.

(** What is known after the lines. *)
Record reading (public : string) (lines : list (string * ArchiveRecord)) (s : Verifying) (target : QueueTarget) (items : list QueueItem) : Prop := {
  rd_target : vy_target s = Some target;
  rd_public : qt_pinned_pubkey target = public;
  rd_receipts : receipts_ok target items;
  rd_ids : vy_ids s = map qi_id items;
  rd_objects : vy_objects s = map object_of items;
  rd_seen : vy_seen s = zlen items;
  rd_expected : vy_expected s <= MAX_ARCHIVE_ITEMS /\ (items <> [] -> zlen items <= vy_expected s);
  rd_lines : exists at_ms body, map snd body = Header ARCHIVE_FORMAT target (vy_expected s) at_ms :: map ReceiptLine items
    /\ vy_content s = lines_text body
    /\ if vy_trailer s
       then vy_seen s = vy_expected s /\ exists bytes, lines = body ++ [(bytes, Trailer (zlen items) (body_sha256 (lines_text body)))]
       else lines = body;
}.
Definition accepted (public : string) (lines : list (string * ArchiveRecord)) (s : Verifying) : Prop :=
  (lines = [] /\ s = verify_start) \/ exists target items, reading public lines s target items.

Lemma verify_line_accepted public lines s bytes s' :
  accepted public lines s -> verify_line public s bytes = Ok s' ->
  exists record, parse_record bytes = Some record /\ accepted public (lines ++ [(bytes, record)]) s'
    /\ vy_size s' = vy_size s + slen bytes /\ vy_size s' <= MAX_EXPORT.
Proof.
  intros Ha Hl. unfold verify_line in Hl. apply guard_bind_Ok in Hl as [Hg Hl]. rewrite !orb_false_iff in Hg.
  destruct Hg as [[[_ _] Hsize%Z.ltb_ge] Htrailer]. apply ok_or_bind_Ok in Hl as (record & Hp & Hl).
  exists record. split; [done|]. unfold verify_archive_record in Hl. cbn [vy_target vy_seen vy_size vy_content vy_trailer vy_ids vy_objects vy_expected] in Hl.
  destruct Ha as [[-> ->]|(target & items & [R1 R2 R3 R4 R5 R6 R7 R8])].
  - cbn [vy_target verify_start vy_seen] in Hl. destruct record as [format target n at_ms| |]; [|done|done]. cbn [Z.eqb negb] in Hl.
    apply guard_bind_Ok in Hl as [Hg Hl]. rewrite !orb_false_iff, !negb_false_iff in Hg. destruct Hg as [[[[Hf Hn] Hk] _] _].
    apply String.eqb_eq in Hf as ->. apply String.eqb_eq in Hk. apply Z.ltb_ge in Hn. injection Hl as <-. split; [|done].
    right. exists target, []. split; cbn; try done; [by repeat constructor|].
    exists at_ms, [(bytes, Header ARCHIVE_FORMAT target n at_ms)]. done.
  - rewrite Htrailer in R8. destruct R8 as (at_ms & body & B1 & B2 & ->). rewrite R1 in Hl. destruct record as [|item|count hash]; [done| |].
    + apply res_bind_Ok in Hl as ([] & Hv & Hl). apply guard_bind_Ok in Hl as [Hg Hl]. rewrite !orb_false_iff in Hg.
      destruct Hg as [[He%Z.ltb_ge Hid] Hobj%bool_decide_eq_false]. injection Hl as <-. split; [|done].
      assert (qi_id item ∉ vy_ids s) as Hid' by (rewrite <- str_mem_spec; by rewrite Hid). rewrite R4 in *. rewrite R5 in *. rewrite R6 in *.
      destruct R3 as [V1 V2 V3 V4]. right. exists target, (items ++ [item]). split; cbn; try done.
      * split; rewrite ?map_app, ?zlen_app; [by apply Forall_app; split; [|repeat constructor]| | |unfold zlen in *; cbn; lia].
        -- apply NoDup_app. split_and!; [done| |apply NoDup_singleton]. intros x Hx ->%list_elem_of_singleton. done.
        -- apply NoDup_app. split_and!; [done| |apply NoDup_singleton]. intros x Hx ->%list_elem_of_singleton. done.
      * by rewrite map_app.
      * by rewrite map_app.
      * by rewrite zlen_app.
      * split; [lia|]. intros _. rewrite zlen_app. unfold zlen in *. cbn. lia.
      * exists at_ms, (body ++ [(bytes, ReceiptLine item)]). rewrite !map_app, B1, lines_text_snoc, B2, Htrailer. done.
    + apply guard_bind_Ok in Hl as [Hg Hl]. rewrite !orb_false_iff, !negb_false_iff, Z.eqb_eq, Z.eqb_eq, String.eqb_eq in Hg.
      destruct Hg as [[-> Hseen] ->]. injection Hl as <-. split; [|done]. right. exists target, items. split; cbn; try done.
      exists at_ms, body. split_and!; [done..|]. exists bytes. by rewrite R6, B2.
Qed.

Lemma verify_lines_accepted fuel public broken lines s rest s' :
  accepted public lines s -> verify_lines fuel public broken s rest = Ok s' ->
  exists more, rest = lines_text more /\ broken = false /\ accepted public (lines ++ more) s'
    /\ Forall (fun l => parse_record l.1 = Some l.2) more /\ vy_size s' = vy_size s + slen rest.
Proof.
  revert lines s rest. induction fuel as [|fuel IH]; intros lines s rest Ha Hl; [done|]. cbn [verify_lines] in Hl.
  pose proof (read_until_split (Z.to_nat (MAX_LINE + 1)) rest) as Hsplit.
  destruct (read_until (Z.to_nat (MAX_LINE + 1)) rest) as [bytes rest'] eqn:Hr. cbn [fst snd] in Hsplit.
  destruct (broken && _ && _ && _) eqn:Hbroken; [done|]. destruct (String.eqb_spec bytes "") as [->|Hne].
  - injection Hl as <-. assert (rest = "") as ->.
    { destruct rest as [|c rest]; [done|]. exfalso. revert Hr. replace (Z.to_nat (MAX_LINE + 1)) with (S (Z.to_nat MAX_LINE)) by (unfold MAX_LINE; lia).
      cbn [read_until]. destruct (Ascii.eqb c newline); [done|]. by destruct (read_until _ rest). }
    rewrite append_nil_l in Hsplit. subst rest'. exists []. rewrite app_nil_r.
    split_and!; [done|by destruct broken|done|by apply Forall_nil|unfold slen; cbn; lia].
  - apply res_bind_Ok in Hl as (s1 & H1 & Hl). destruct (verify_line_accepted _ _ _ _ _ Ha H1) as (record & Hp & Ha1 & Hsize & _).
    destruct (IH _ _ _ Ha1 Hl) as (more & -> & Hb & Hacc & Hall & Hsz). exists ((bytes, record) :: more). split_and!.
    + rewrite <- Hsplit. unfold lines_text. cbn [map fst]. by rewrite concat_cons.
    + done.
    + by rewrite <- app_assoc in Hacc.
    + by constructor.
    + rewrite Hsz, Hsize, <- Hsplit, slen_app. lia.
Qed.

(** C16: What the verification accepts is an archive and nothing else: the file is a
    header for the trusted key, then receipts that this key signed for the agent of the
    header, none twice by number or by object, then a trailer with their count and the
    hash of the lines before it, and nothing after it; and the file did not change
    while it was read. *)
Theorem verified_archive_sound (view : ArchiveView) (pubkey : string) report :
  verify_archive view pubkey = Ok report ->
  exists public target at_ms items body trailer,
    normal_key pubkey = Some public /\ qt_pinned_pubkey target = public /\ receipts_ok target items
    /\ av_bytes view = lines_text body +:+ trailer
    /\ Forall (fun l => parse_record l.1 = Some l.2) body
    /\ map snd body = Header ARCHIVE_FORMAT target (zlen items) at_ms :: map ReceiptLine items
    /\ parse_record trailer = Some (Trailer (zlen items) (body_sha256 (lines_text body)))
    /\ report = mkArchiveVerification ARCHIVE_FORMAT (zlen items) (body_sha256 (av_bytes view)) (slen (av_bytes view)) false
    /\ exists before after path_after, av_before view = Some before /\ av_after view = Some after /\ av_path_after view = Some path_after
       /\ stable_file before after path_after (slen (av_bytes view)) = true.
Proof.
  unfold verify_archive. intros Hv. apply ok_or_bind_Ok in Hv as (public & Hpub & Hv). apply guard_bind_Ok in Hv as [_ Hv].
  apply ok_or_bind_Ok in Hv as (before & Hbefore & Hv). apply guard_bind_Ok in Hv as [_ Hv]. apply res_bind_Ok in Hv as (s & Hs & Hv).
  apply guard_bind_Ok in Hv as [Htrailer%negb_false_iff Hv]. apply ok_or_bind_Ok in Hv as (after & Hafter & Hv).
  apply ok_or_bind_Ok in Hv as (path_after & Hpath & Hv). apply guard_bind_Ok in Hv as [_ Hv]. apply guard_bind_Ok in Hv as [Hstable%negb_false_iff Hv].
  injection Hv as <-. apply (verify_lines_accepted _ _ _ []) in Hs as (lines & Hbytes & _ & Hacc & Hall & Hsize); [|by left].
  cbn [app] in Hacc. assert (vy_size s = slen (av_bytes view)) as Hsz by (rewrite Hsize; done). rewrite Hsz in *.
  destruct Hacc as [[_ ->]|(target & items & [R1 R2 R3 R4 R5 R6 R7 R8])]; [done|].
  destruct R8 as (at_ms & body & B1 & B2 & B3). rewrite Htrailer in B3. destruct B3 as (Hexp & bytes & ->).
  rewrite lines_text_snoc in Hbytes. apply Forall_app in Hall as [Hall Ht]. apply Forall_cons in Ht as [Ht _]. cbn [fst snd] in *.
  exists public, target, at_ms, items, body, bytes. rewrite <- Hexp, R6 in B1. rewrite R6.
  split_and!; try done. by exists before, after, path_after.
Qed.

End Accept.

(** * What an export writes is accepted *)

Section Complete.
Context `{Crypto : VaultCrypto} `{Laws : ArchiveLaws}.

Lemma verify_lines_line fuel public broken s r rest :
  slen (line_of r) <= MAX_LINE ->
  verify_lines (S fuel) public broken s (line_of r +:+ rest)
  = (let? s := verify_line public s (line_of r) in verify_lines fuel public broken s rest).
Proof.
  intros Hl. cbn [verify_lines]. unfold line_of in *. rewrite read_until_line; [|apply one_line|].
  2:{ rewrite slen_app in Hl. unfold slen in Hl. change (String.length (String newline "")) with 1%nat in Hl. lia. }
  unfold ends_line. rewrite ends_with_app, andb_false_r. destruct (String.eqb_spec (record_json r +:+ String newline "") "") as [He|]; [|done].
  by destruct (record_json r).
Qed.

(** The state after the header and the receipts. *)
Definition state_after (target : QueueTarget) (count : Z) (text : string) (items : list QueueItem) : Verifying :=
  mkVerifying text (zlen items) (slen text) (Some target) count false (map qi_id items) (map object_of items).

Lemma verify_receipt_line public target count text items item :
  verified_item item target = Ok tt -> slen (line_of (ReceiptLine item)) <= MAX_LINE ->
  slen (text +:+ line_of (ReceiptLine item)) <= MAX_EXPORT -> zlen items + 1 <= count ->
  qi_id item ∉ map qi_id items -> object_of item ∉ map object_of items ->
  verify_line public (state_after target count text items) (line_of (ReceiptLine item))
  = Ok (state_after target count (text +:+ line_of (ReceiptLine item)) (items ++ [item])).
Proof.
  intros Hv Hl Hs Hc Hid Hobj. unfold verify_line. cbn [state_after vy_size vy_trailer vy_content vy_seen vy_target vy_expected vy_ids vy_objects].
  rewrite <- slen_app. rewrite (proj2 (Z.ltb_ge _ _) Hl), (proj2 (Z.ltb_ge _ _) Hs).
  unfold ends_line, line_of at 1. rewrite ends_with_app. cbn [negb orb guard res_bind]. unfold line_of at 1. rewrite parse_line_back.
  cbn [ok_or res_bind verify_archive_record vy_target vy_seen vy_expected vy_ids vy_objects vy_content vy_size vy_trailer]. rewrite Hv. cbn [res_bind].
  rewrite (proj2 (Z.ltb_ge _ _)) by lia. fold (object_of item). rewrite (bool_decide_eq_false_2 _ Hobj).
  destruct (str_mem (qi_id item) (map qi_id items)) eqn:Hm; [by apply str_mem_spec in Hm|]. cbn [orb guard res_bind].
  unfold state_after. by rewrite !map_app, zlen_app.
Qed.

Lemma verify_receipt_lines fuel public broken target count text items more rest :
  Forall (fun item => verified_item item target = Ok tt /\ slen (line_of (ReceiptLine item)) <= MAX_LINE) more ->
  slen (text +:+ text_of (map ReceiptLine more)) <= MAX_EXPORT -> zlen (items ++ more) <= count ->
  NoDup (map qi_id (items ++ more)) -> NoDup (map object_of (items ++ more)) ->
  verify_lines (length more + fuel) public broken (state_after target count text items) (text_of (map ReceiptLine more) +:+ rest)
  = verify_lines fuel public broken (state_after target count (text +:+ text_of (map ReceiptLine more)) (items ++ more)) rest.
Proof.
  intros Hall. revert text items. induction Hall as [|item more [Hv Hl] Hall IH]; intros text items Hs Hc Hn1 Hn2.
  { cbn [map length Nat.add]. rewrite app_nil_r. change (text_of []) with "". by rewrite append_nil_r. }
  cbn [map length Nat.add]. rewrite text_cons, !append_assoc, verify_lines_line by done. cbn [map] in Hs. rewrite text_cons, <- append_assoc in Hs.
  assert (items ++ item :: more = (items ++ [item]) ++ more) as Hsplit by by rewrite <- app_assoc.
  assert ((qi_id item ∉ map qi_id items) /\ (object_of item ∉ map object_of items)) as [Hid Hobj].
  { rewrite map_app in Hn1, Hn2. cbn in Hn1, Hn2. apply NoDup_app in Hn1 as (_ & Hn1 & _). apply NoDup_app in Hn2 as (_ & Hn2 & _).
    split; intros Hin; [eapply Hn1|eapply Hn2]; try exact Hin; set_solver. }
  rewrite verify_receipt_line; try done.
  - cbn [res_bind]. rewrite (IH (text +:+ line_of (ReceiptLine item)) (items ++ [item])); rewrite <- ?Hsplit; try done.
    by rewrite append_assoc.
  - rewrite slen_app in Hs. unfold slen in *. lia.
  - rewrite zlen_app, zlen_cons in Hc. pose proof (zlen_nonneg more). lia.
Qed.

(** A private regular file that stays as it is. *)
Record steady (view : ArchiveView) (file : string) : Prop := {
  sy_private : av_private view = true;
  sy_bytes : av_bytes view = file;
  sy_broken : av_broken view = false;
  sy_looks : exists m t, av_before view = Some m /\ av_after view = Some m /\ av_path_after view = Some m
    /\ fm_len m = slen file /\ fm_modified m = Some t /\ fm_is_symlink m = false;
}.

Lemma text_length records : (length records <= String.length (text_of records))%nat.
Proof.
  induction records as [|r records IH]; [cbn; lia|]. rewrite text_cons, string_length_app. unfold line_of. rewrite string_length_app. cbn [length].
  change (String.length (String newline "")) with 1%nat. lia.
Qed.

Lemma archive_verifies view pubkey target items at_ms :
  let body := Header ARCHIVE_FORMAT target (zlen items) at_ms :: map ReceiptLine items in
  let trailer := Trailer (zlen items) (body_sha256 (text_of body)) in
  let file := text_of (body ++ [trailer]) in
  normal_key pubkey = Some (qt_pinned_pubkey target) -> valid_id (qt_agent_id target) = true -> valid_id (qt_key_id target) = true ->
  receipts_ok target items -> Forall (fun r => slen (line_of r) <= MAX_LINE) (body ++ [trailer]) -> slen file <= MAX_EXPORT ->
  steady view file ->
  verify_archive view pubkey = Ok (mkArchiveVerification ARCHIVE_FORMAT (zlen items) (body_sha256 file) (slen file) false).
Proof.
  intros body trailer file Hkey Ha Hk [V1 V2 V3 V4] Hlines Hsize [S1 S2 S3 (m & t & B1 & B2 & B3 & Hlen & Hmod & Hlink)].
  unfold verify_archive. rewrite Hkey, S1, S2, S3, B1, B2, B3. cbn [ok_or res_bind negb guard].
  rewrite Hlen. rewrite (proj2 (Z.ltb_ge _ _) Hsize). cbn [guard res_bind].
  apply Forall_cons in Hlines as [Hh Hlines]. apply Forall_app in Hlines as [Hr Ht]. apply Forall_cons in Ht as [Ht _].
  set (h := Header ARCHIVE_FORMAT target (zlen items) at_ms) in *.
  assert (file = line_of h +:+ (text_of (map ReceiptLine items) +:+ line_of trailer)) as Hfile
    by (unfold file; rewrite text_snoc; unfold body; by rewrite text_cons, append_assoc).
  assert (exists fuel, S (String.length file) = S (length items + S (S fuel))) as [fuel Hfuel].
  { pose proof (text_length (body ++ [trailer])) as Hl. fold file in Hl. rewrite length_app in Hl. cbn [length body] in Hl. rewrite length_map in Hl.
    exists (String.length file - length items - 2)%nat. lia. }
  rewrite Hfuel, Hfile at 1. rewrite verify_lines_line by done.
  assert (slen file = slen (line_of h) + slen (text_of (map ReceiptLine items)) + slen (line_of trailer)) as Hsum
    by (rewrite Hfile, !slen_app; lia).
  assert (0 <= slen (line_of h) /\ 0 <= slen (text_of (map ReceiptLine items)) /\ 0 <= slen (line_of trailer)) as (L1 & L2 & L3) by (unfold slen; lia).
  assert (verify_line (qt_pinned_pubkey target) verify_start (line_of h) = Ok (state_after target (zlen items) (line_of h) [])) as ->.
  { unfold verify_line. cbn [verify_start vy_size vy_trailer]. rewrite (proj2 (Z.ltb_ge _ _) Hh), (proj2 (Z.ltb_ge _ _)) by lia.
    unfold ends_line, line_of at 1. rewrite ends_with_app. cbn [negb orb guard res_bind]. unfold line_of at 1. rewrite parse_line_back.
    cbn. rewrite (proj2 (Z.ltb_ge _ _) V4), String.eqb_refl, Ha, Hk. done. }
  cbn [res_bind]. rewrite verify_receipt_lines; cbn [app]; try done.
  2:{ clear -V1 Hr. rewrite Forall_map in Hr. apply Forall_and. done. }
  2:{ rewrite slen_app. lia. }
  rewrite <- (append_nil_r (line_of trailer)) at 1. rewrite verify_lines_line by done.
  set (before := line_of h +:+ text_of (map ReceiptLine items)) in *.
  assert (verify_line (qt_pinned_pubkey target) (state_after target (zlen items) before items) (line_of trailer)
    = Ok (mkVerifying before (zlen items) (slen file) (Some target) (zlen items) true (map qi_id items) (map object_of items))) as ->.
  { assert (slen before + slen (line_of trailer) = slen file) as Hs by (unfold before; rewrite Hsum, slen_app; lia).
    unfold verify_line. cbn [state_after vy_size vy_trailer vy_content vy_seen vy_target vy_expected vy_ids vy_objects].
    rewrite Hs, (proj2 (Z.ltb_ge _ _) Ht), (proj2 (Z.ltb_ge _ _) Hsize).
    unfold ends_line, line_of at 1. rewrite ends_with_app. cbn [negb orb guard res_bind]. unfold line_of at 1. rewrite parse_line_back.
    cbn [trailer ok_or res_bind verify_archive_record vy_target vy_seen vy_expected vy_content].
    assert (text_of body = before) as -> by (unfold body, before; by rewrite text_cons).
    rewrite Z.eqb_refl, String.eqb_refl. done. }
  cbn [res_bind]. change (verify_lines (S fuel) (qt_pinned_pubkey target) false ?s "") with (Ok (E := string) s). cbn [res_bind vy_trailer vy_seen vy_size negb guard].
  rewrite Hmod. cbn [is_some andb negb guard res_bind]. unfold stable_file. rewrite Hlen, Hmod, Hlink, Z.eqb_refl, !bool_decide_eq_true_2 by done. done.
Qed.

End Complete.

Section Exported.
Context `{Crypto : VaultCrypto} `{Laws : ArchiveLaws}.

Definition records_of (target : QueueTarget) (items : list QueueItem) (at_ms : Z) : list ArchiveRecord :=
  Header ARCHIVE_FORMAT target (zlen items) at_ms :: map ReceiptLine items.
Definition archive_records (target : QueueTarget) (items : list QueueItem) (at_ms : Z) : list ArchiveRecord :=
  records_of target items at_ms ++ [Trailer (zlen items) (body_sha256 (text_of (records_of target items at_ms)))].

Lemma archive_file_Ok env target tables file written :
  (forall n, tables O `prefix_of` tables n) -> archive_file env target tables = Ok (file, written) ->
  let items := map snd (sent_rows (tables O)) in
  file = text_of (archive_records target items (ae_now_ms env)) /\ written = zlen items /\ slen file <= MAX_EXPORT
  /\ Forall (fun r => slen (line_of r) <= MAX_LINE) (archive_records target items (ae_now_ms env))
  /\ (items <> [] -> zlen items <= MAX_ARCHIVE_ITEMS).
Proof.
  intros Hgrow Hf items. unfold archive_file in Hf. assert (zlen (sent_rows (tables O)) = zlen items) as Hcount by (unfold items; by rewrite zlen_map).
  rewrite Hcount in Hf. set (count := zlen items) in *.
  apply res_bind_Ok in Hf as (f0 & Hh & Hf). apply emit_Ok in Hh as (-> & Hhl & Hhs & _). rewrite append_nil_l in Hf.
  set (h := Header ARCHIVE_FORMAT target count (ae_now_ms env)) in *.
  assert (slen (line_of h) <= MAX_EXPORT) as H0 by (revert Hhl; unfold MAX_LINE, MAX_EXPORT; lia).
  apply res_bind_Ok in Hf as ([f1 w] & Hcopy & Hf).
  destruct (copy_all COPY_FUEL env target tables 1 (watermark_of (tables O)) (line_of h) 0 0) as [[r|]|] eqn:Hc; [|done|done]. injection Hcopy as ->.
  apply (copy_all_Ok _ _ _ _ _ _ (sent_rows (tables O)) []) in Hc as (-> & -> & Hs1 & Hmax & Hrows); [|done|done|done].
  apply guard_bind_Ok in Hf as [_ Hf]. apply res_bind_Ok in Hf as (trailer & Ht & Hf). apply line_Ok in Ht as [-> Htl].
  apply guard_bind_Ok in Hf as [Hsize%Z.ltb_ge Hf]. apply res_bind_Ok in Hf as (f2 & Hw & Hf). apply guard_bind_Ok in Hw as [_ Hw]. injection Hw as <-.
  apply guard_bind_Ok in Hf as [_ Hf]. injection Hf as <- <-. cbn [app] in *.
  assert (receipt_lines (sent_rows (tables O)) = map ReceiptLine items) as Hlines by (unfold items, receipt_lines; by rewrite map_map).
  rewrite Hlines, <- text_cons in *. fold (records_of target items (ae_now_ms env)) in *. rewrite Hcount in *. fold count in Htl, Hsize |- *.
  assert (text_of (h :: map ReceiptLine items) = text_of (records_of target items (ae_now_ms env))) as Hbody by done.
  split_and!.
  - unfold archive_records. by rewrite text_snoc.
  - done.
  - by rewrite slen_app.
  - unfold archive_records, records_of. apply Forall_app. split; [constructor; [done|]|by constructor].
    rewrite Forall_map. unfold items. rewrite Forall_map. eapply Forall_impl; [exact Hrows|]. by intros x [_ ?].
  - intros Hne. apply Hmax. unfold items in Hne. by destruct (sent_rows (tables O)).
Qed.

(** The archive of a sound queue holds verified receipts, none twice. *)
Lemma queue_receipts_ok st table :
  queue_ok st -> table ≡ₚ map snd (archive_list st) -> receipts_ok (qu_target st) table /\ map snd (sent_rows table) = table.
Proof.
  intros Hok Hperm. assert (forall item, item ∈ table -> qu_archive st !! qi_id item = Some item /\ verified_item item (qu_target st) = Ok tt) as Hin.
  { intros item. rewrite Hperm. unfold archive_list. intros Hitem. apply list_elem_of_fmap in Hitem as ([id it] & -> & Hit).
    apply elem_of_map_to_list in Hit. destruct (qo_archive _ Hok _ _ Hit) as [Hid Hv]. cbn in *. by rewrite Hid. }
  assert (NoDup (map qi_id table)) as Hids.
  { rewrite (Permutation_map qi_id Hperm), map_map. erewrite map_ext_in; [apply (NoDup_fst_map_to_list (qu_archive st))|].
    intros [id it] Hit%list_elem_of_In. apply elem_of_map_to_list in Hit. by destruct (qo_archive _ Hok _ _ Hit). }
  split.
  - split; [|done| |].
    + rewrite Forall_forall. intros item Hitem. by apply Hin.
    + assert (NoDup table) as Hn by (by eapply NoDup_fmap_1). apply NoDup_fmap_2_strong; [|done].
      intros a b Ha Hb Hab. destruct (Hin a Ha) as [Ha' _], (Hin b Hb) as [Hb' _]. unfold object_of in Hab. injection Hab as Hkind Hsha.
      assert (qi_id a = qi_id b) as E by (eapply (qo_archive_unique _ Hok); [exact Ha'|exact Hb'|]; unfold same_object;
        rewrite Hkind, Hsha, !String.eqb_refl; done). rewrite E in Ha'. congruence.
    + pose proof (qo_total _ Hok). apply Permutation_length in Hperm. unfold archive_list in Hperm. rewrite length_map, length_map_to_list in Hperm.
      unfold zlen. lia.
  - unfold sent_rows. rewrite filter_all_true.
    + change (map snd ?l) with (snd <$> l). rewrite fmap_imap. rewrite (imap_ext _ (const id)) by done. rewrite imap_const. apply list_fmap_id.
    + rewrite Forall_forall. intros r Hr. apply elem_of_lookup_imap in Hr as (i & item & -> & Hi). cbn.
      destruct (Hin item) as [_ Hv]; [by eapply list_elem_of_lookup_2|]. unfold verified_item in Hv. apply ok_or_bind_Ok in Hv as (ack & _ & Hv).
      apply guard_bind_Ok in Hv as [_ Hv]. apply guard_Ok in Hv. by split_bools.
Qed.

(** C15: An exported archive verifies. Whatever other workers add to the queue during an
    export of a queue that requests reached, when it succeeds the output is a new file
    that holds exactly the receipts archived when it began, one per line, no other file
    has changed, and the verification of that file under the key of the queue answers
    with the count, the hash and the size that the export reported. *)
Theorem exported_archive_verifies (w : QueueWorld) files env tables directory output files' report pubkey :
  let st := qw_queue w in
  queue_reached w -> tables O ≡ₚ map snd (archive_list st) -> (forall n, tables O `prefix_of` tables n) ->
  export_archive files env st tables directory output = (files', Ok report) ->
  normal_key pubkey = Some (qt_pinned_pubkey (qu_target st)) ->
  exists file, files' = <[output := file]> files /\ files !! output = None
  /\ file = text_of (archive_records (qu_target st) (tables O) (ae_now_ms env))
  /\ xe_archived_items report = Z.of_nat (size (qu_archive st))
  /\ forall view, steady view file ->
       verify_archive view pubkey
       = Ok (mkArchiveVerification (xe_format report) (xe_archived_items report) (xe_sha256 report) (xe_size_bytes report) false).
Proof.
  intros st [Hok _]%reached_ok Hperm Hgrow He Hkey. destruct (queue_receipts_ok st (tables O) Hok Hperm) as [Hreceipts Hsent].
  unfold export_archive in He. destruct (let? parent := ok_or (path_parent output) _ in _) as [temporary|] eqn:Hadm; [|done].
  apply ok_or_bind_Ok in Hadm as (parent & _ & Hadm). apply guard_bind_Ok in Hadm as [_ Hadm]. apply guard_bind_Ok in Hadm as [_ Hadm].
  apply guard_bind_Ok in Hadm as [_ Hadm]. apply res_bind_Ok in Hadm as ([] & Hvalid & Hadm). apply ok_or_bind_Ok in Hadm as (random & _ & Hadm).
  apply guard_bind_Ok in Hadm as [[_ Hfresh]%orb_false_iff Hadm]. injection Hadm as Htemp. rewrite Htemp in Hfresh.
  destruct (archive_file env (qu_target st) tables) as [[file written]|] eqn:Hfile; [|done].
  apply archive_file_Ok in Hfile as (Htext & -> & Hsize & Hlines & _); [|done]. rewrite Hsent in Htext, Hlines, He.
  unfold publish_archive in He. destruct (negb (ae_link_ok env) || _) eqn:Hlink; [done|]. apply orb_false_iff in Hlink as [_ Hout].
  destruct (negb (ae_remove_ok env)); [done|]. destruct (ae_dir_sync_ok env); [|done]. cbn [res_bind] in He. injection He as <- <-.
  assert (output <> temporary) as Hne by (intros ->; by rewrite lookup_insert_eq in Hout).
  rewrite lookup_insert_ne in Hout by done.
  assert (zlen (tables O) = Z.of_nat (size (qu_archive st))) as Hcount.
  { apply Permutation_length in Hperm. unfold archive_list in Hperm. rewrite length_map, length_map_to_list in Hperm. unfold zlen. lia. }
  exists file. split_and!; [|by destruct (files !! output)|done|done|].
  - rewrite delete_insert_ne by done. rewrite delete_insert_id; [done|]. by destruct (files !! temporary).
  - intros view Hview. cbn [xe_format xe_archived_items xe_sha256 xe_size_bytes]. unfold validate_database in Hvalid.
    apply guard_bind_Ok in Hvalid as [Hvid _]. rewrite orb_false_iff, !negb_false_iff in Hvid. destruct Hvid as [Ha Hk].
    rewrite Htext in *. by apply (archive_verifies view pubkey (qu_target st) (tables O) (ae_now_ms env)).
Qed.

(** Whatever fails, an export changes no file that was there. *)
Lemma export_never_overwrites files env st tables directory output path content :
  files !! path = Some content -> fst (export_archive files env st tables directory output) !! path = Some content.
Proof.
  intros Hp. unfold export_archive. destruct (let? parent := ok_or (path_parent output) _ in _) as [temporary|] eqn:Hadm; [|done].
  apply ok_or_bind_Ok in Hadm as (parent & _ & Hadm). do 3 (apply guard_bind_Ok in Hadm as [_ Hadm]). apply res_bind_Ok in Hadm as (? & _ & Hadm).
  apply ok_or_bind_Ok in Hadm as (random & _ & Hadm). apply guard_bind_Ok in Hadm as [[_ Hfresh]%orb_false_iff Hadm]. injection Hadm as <-.
  assert (archive_temporary parent random <> path) as Hne by (intros Heq; rewrite Heq, Hp in Hfresh; done).
  assert (forall f, remove_file env (<[archive_temporary parent random := f]> files) (archive_temporary parent random) !! path = Some content) as Hrm
    by (intros f; unfold remove_file; destruct (ae_remove_ok env); by rewrite ?lookup_delete_ne, lookup_insert_ne).
  destruct (archive_file _ _ _) as [[file written]|]; cbn [fst]; [|apply Hrm]. unfold publish_archive.
  destruct (negb (ae_link_ok env) || _) eqn:Hlink; cbn [fst]; [apply Hrm|]. apply orb_false_iff in Hlink as [_ Hout].
  assert (output <> path) as Hne2 by (intros ->; rewrite lookup_insert_ne, Hp in Hout by done; done).
  destruct (negb (ae_remove_ok env)); cbn [fst]; [by rewrite !lookup_insert_ne|]. by rewrite lookup_delete_ne, !lookup_insert_ne.
Qed.

End Exported.

(** The fuel of the copy is enough: each query but the last writes a receipt. *)
Lemma copy_fuel_enough `{VaultCrypto} `{ArchiveLibs} env target tables watermark file :
  slen file <= MAX_EXPORT -> copy_all COPY_FUEL env target tables 1 watermark file 0 0 <> None.
Proof.
  intros Hf. assert (0 <= MAX_ARCHIVE_ITEMS) as Hmax by (unfold MAX_ARCHIVE_ITEMS; lia).
  apply (copy_all_ends COPY_FUEL); [lia| |exact Hmax|exact Hf].
  rewrite Z.sub_0_r. unfold COPY_FUEL. rewrite Z2Nat.id by lia. lia.

Qed.

(** * A queue whose receipt is exported *)

Module Archived.
Import Bundle.Sample.

(** A text without newlines: two letters for each byte. *)
Definition letter (n : nat) : ascii := ascii_of_nat (65 + n).
Fixpoint letters (s : string) : string :=
  match s with
  | EmptyString => ""
  | String c s => let n := nat_of_ascii c in String (letter (Nat.div n 16)) (String (letter (Nat.modulo n 16)) (letters s))
  end.
Fixpoint unletters (s : string) : string :=
  match s with
  | String a (String b s) => String (ascii_of_nat ((nat_of_ascii a - 65) * 16 + (nat_of_ascii b - 65))) (unletters s)
  | _ => ""
  end.
Lemma unletters_letters s rest : unletters (letters s +:+ String newline rest) = s +:+ unletters (String newline rest).
Proof.
  induction s as [|c s IH]; [done|]. cbn [letters].
  change (unletters (String ?a (String ?b ?t) +:+ ?u))
    with (String (ascii_of_nat ((nat_of_ascii a - 65) * 16 + (nat_of_ascii b - 65))) (unletters (t +:+ u))).
  rewrite IH. f_equal. by destruct c as [[] [] [] [] [] [] [] []].
Qed.
Lemma letters_one_line s : str_all (fun c => negb (Ascii.eqb c newline)) (letters s) = true.
Proof.
  induction s as [|c s IH]; [done|]. cbn [letters str_all]. rewrite IH, andb_true_r.
  by destruct c as [[] [] [] [] [] [] [] []].
Qed.

Definition flag (b : bool) : string := if b then "1" else "0".
Definition receipt_fields (r : option SignedReceipt) : list string :=
  match r with
  | None => []
  | Some (mkSignedReceipt (mkReceipt f k a d h n t u) sig) => [f; k; a; d; h; z_str n; z_str t; z_str u; sig]
  end.
Definition record_fields (r : ArchiveRecord) : list string :=
  match r with
  | Header f t n m =>
      ["h"; f; qt_endpoint t; qt_agent_id t; qt_key_id t; qt_pinned_pubkey t; flag (qt_allow_http_loopback t);
       opt_str (qt_tls_ca_sha256 t); z_str n; z_str m]
  | ReceiptLine i =>
      ["r"; qi_id i; qi_kind i; qi_sha256 i; z_str (qi_size_bytes i); qi_state i; z_str (qi_created_at_ms i);
       z_str (qi_attempts i); z_str (qi_next_retry_ms i); opt_str (qi_last_error i); opt_str (z_str <$> qi_sent_at_ms i)]
      ++ receipt_fields (qi_receipt i)
  | Trailer n h => ["t"; z_str n; h]
  end.
Definition receipt_of (l : list string) : option (option SignedReceipt) :=
  match l with
  | [] => Some None
  | [f; k; a; d; h; n; t; u; sig] =>
      n ← str_z n; t ← str_z t; u ← str_z u; Some (Some (mkSignedReceipt (mkReceipt f k a d h n t u) sig))
  | _ => None
  end.
Definition header_of (l : list string) : option ArchiveRecord :=
  match l with
  | [f; e; a; k; p; b; c; n; m] =>
      n ← str_z n; m ← str_z m; Some (Header f (mkQueueTarget e a k p (String.eqb b "1") (str_opt c)) n m)
  | _ => None
  end.
Definition line_item_of (l : list string) : option ArchiveRecord :=
  match l with
  | i :: k :: h :: n :: s :: c :: a :: x :: e :: t :: r =>
      n ← str_z n; c ← str_z c; a ← str_z a; x ← str_z x; r ← receipt_of r;
      Some (ReceiptLine (mkQueueItem i k h n s c a x (str_opt e) (t ← str_opt t; str_z t) r))
  | _ => None
  end.
Definition trailer_of (l : list string) : option ArchiveRecord :=
  match l with [n; h] => n ← str_z n; Some (Trailer n h) | _ => None end.
Definition record_of (l : list string) : option ArchiveRecord :=
  match l with
  | [] => None
  | tag :: l => if String.eqb tag "h" then header_of l else if String.eqb tag "r" then line_item_of l else trailer_of l
  end.
Lemma receipt_of_fields r : receipt_of (receipt_fields r) = Some r.
Proof. destruct r as [[[f k a d h n t u] sig]|]; [|done]. cbn [receipt_fields receipt_of]. by rewrite !str_z_str. Qed.
Lemma record_of_fields r : record_of (record_fields r) = Some r.
Proof.
  destruct r as [f [e a k p b c] n m|[i k h n s c a x e t r]|n h].
  - change (header_of [f; e; a; k; p; flag b; opt_str c; z_str n; z_str m] = Some (Header f (mkQueueTarget e a k p b c) n m)).
    unfold header_of. rewrite !str_z_str, str_opt_str. by destruct b.
  - change (line_item_of (i :: k :: h :: z_str n :: s :: z_str c :: z_str a :: z_str x :: opt_str e :: opt_str (z_str <$> t) :: receipt_fields r)
      = Some (ReceiptLine (mkQueueItem i k h n s c a x e t r))).
    unfold line_item_of. rewrite !str_z_str, !str_opt_str, receipt_of_fields. cbn [mbind option_bind option_map].
    assert ((t0 ← (z_str <$> t); str_z t0) = t) as -> by (destruct t; cbn; by rewrite ?str_z_str). done.
  - change (trailer_of [z_str n; h] = Some (Trailer n h)). unfold trailer_of. by rewrite str_z_str.
Qed.

#[local] Instance libs : ArchiveLibs := {|
  record_json := fun r => letters (fields (record_fields r));
  parse_record := fun s => untext (unletters s) ≫= record_of;
  normal_key := fun key => Some key;
|}.
#[local] Instance libs_laws : ArchiveLaws.
Proof.
  split.
  - intros r. cbn. rewrite unletters_letters. cbn. rewrite append_nil_r, untext_fields. apply record_of_fields.
  - intros r. apply letters_one_line.
Qed.
#[local] Existing Instance sample_vault_crypto.

Definition demo_finish : QueueOp := Finish (demo_env_at None [snapshot_name demo_id]) demo_target demo_lease (Ok demo_ack) 3000.
Definition demo_done : QueueWorld := queue_step demo_leased demo_finish.
Lemma demo_done_reached : queue_reached demo_done.
Proof.
  exists demo_target, QueueLimits_default, [demo_enqueue; demo_claim; demo_finish]. split; [done|]. split; [|done].
  split; [exact demo_enqueue_allowed|]. split; [exact demo_claim_allowed|]. split; [|exact I]. apply list_elem_of_here.
Qed.

Definition env : ArchiveEnv := mkArchiveEnv true true (Some "0001") true 5000 1000000 true true true true.
Definition archived : list QueueItem := map snd (archive_list (qw_queue demo_done)).
Definition outcome := export_archive ∅ env (qw_queue demo_done) (fun _ => archived) "/var/lib/argos/queue" "/exports/a.jsonl".
Definition exported : string := default "" (fst outcome !! "/exports/a.jsonl").
Definition look : FileMeta := mkFileMeta true false (slen exported) (Some 7) [1; 2; 3; 4].
Definition view_of (bytes : string) : ArchiveView := mkArchiveView true (Some look) bytes false (Some look) (Some look).
Definition report : ArchiveExportReport :=
  default (mkArchiveExportReport "" "" 0 "" 0 false) (res_ok (snd outcome)).

Example exported_ex : (is_ok (snd outcome), xe_archived_items report) = (true, 1).
Proof. vm_compute. reflexivity. Qed.
(** A line that is missing, and a line that is there twice. *)
Example cut_archive_ex :
  is_ok (verify_archive (view_of (text_of (take 1 (archive_records demo_target archived 5000)))) "pub") = false.
Proof. vm_compute. reflexivity. Qed.
Example doubled_receipt_ex :
  is_ok (verify_archive (view_of (text_of (archive_records demo_target (archived ++ archived) 5000))) "pub") = false.
Proof. vm_compute. reflexivity. Qed.

Lemma exported_archive_verifies_witness :
  queue_reached demo_done /\ snd outcome = Ok report
  /\ verify_archive (view_of exported) "pub"
     = Ok (mkArchiveVerification (xe_format report) (xe_archived_items report) (xe_sha256 report) (xe_size_bytes report) false).
Proof.
  split; [exact demo_done_reached|].
  assert (snd outcome = Ok report) as Hr
    by (unfold report; destruct (snd outcome) eqn:E; [reflexivity|]; apply (f_equal is_ok) in E; vm_compute in E; congruence).
  split; [exact Hr|].
  destruct (exported_archive_verifies demo_done ∅ env (fun _ => archived) "/var/lib/argos/queue" "/exports/a.jsonl" (fst outcome) report "pub")
    as (file & Hfiles & _ & _ & _ & Hverify);
    [exact demo_done_reached|exact (Permutation_refl archived)|intros n; exists []; symmetry; apply app_nil_r|rewrite <- Hr; apply surjective_pairing|vm_compute; reflexivity|].
  apply Hverify. assert (exported = file) as E by (unfold exported; rewrite Hfiles, lookup_insert_eq; reflexivity).
  split; [reflexivity|exact E|reflexivity|]. exists look, 7. split_and!; try reflexivity. rewrite <- E. reflexivity.
Defined.

Lemma verified_archive_sound_witness :
  (xv_archived_items <$> res_ok (verify_archive (view_of exported) "pub")) = Some 1 /\
  exists target items, receipts_ok target items /\ zlen items = 1.
Proof.
  assert ((xv_archived_items <$> res_ok (verify_archive (view_of exported) "pub")) = Some 1) as Hok by (vm_compute; reflexivity).
  split; [exact Hok|]. destruct (verify_archive (view_of exported) "pub") as [v|] eqn:E; [|discriminate Hok].
  destruct (verified_archive_sound (view_of exported) "pub" v E)
    as (public & target & at_ms & items & body & trailer & _ & _ & Hk & _ & _ & _ & _ & Hv & _).
  exists target, items. split; [exact Hk|]. rewrite Hv in Hok. injection Hok as Hcount. exact Hcount.
Defined.

End Archived.
