(* ===== verification/Backup.v ===== *)
(** The backup store (crates/argos-recovery/src/lib.rs): versions of files by
    path, their contents by hash, trust in a version, restoring and pruning.
    The tables of incident retention (retention.rs) live in the same database,
    so they are part of the state; [Retention] holds their operations. *)
From Stdlib Require Import ZArith Lia Ascii.
From stdpp Require Import base gmap strings list sorting pretty.
From S2P Require Import Prelude RustPath RustStr.
#[local] Open Scope Z_scope.

Inductive RecoveryError : Type :=
| Io (path : string)
| Db
| NotFound (what : string)
| NoTrustedVersion (path : string)
| MissingTrustNote
| InvalidMetadata (message : string)
| UnsafePreview (path : string)
| UnsafeRestoreTarget (path : string)
| IntegrityMismatch (expected actual : string)
| TooLarge (size limit : Z)
| InvalidRetention (message : string)
| InvalidReleaseApproval (message : string).

Record BackupVersion := mkBackupVersion {
  bv_id : Z;
  bv_path : string;
  bv_hash : string;
  bv_size : Z;
  bv_timestamp_ms : Z;
  bv_pid : Z;
  bv_known_good : bool;
  bv_trust_note : option string;
}.

Record RecoveryPathReadiness := mkRecoveryPathReadiness {
  rr_path : string;
  rr_version_count : Z;
  rr_known_good_versions : Z;
  rr_latest_backup_ms : option Z;
  rr_latest_known_good_ms : option Z;
  rr_oversized_skips : Z;
  rr_last_restore_test_ms : option Z;
  rr_last_restore_test_ok : option bool;
  rr_last_restore_test_error : option RecoveryError;
}.

(** A row of recovery_status; an error is kept as such instead of its text. *)
Record StatusRow := mkStatusRow {
  rs_oversized_skips : Z;
  rs_last_test_ms : option Z;
  rs_last_test_ok : option bool;
  rs_last_test_error : option RecoveryError;
}.
Definition StatusRow_default : StatusRow := mkStatusRow 0 None None None.

(** * The tables of retention.rs *)

Record RetentionPin := mkRetentionPin {
  pin_id : Z;
  pin_incident_id : string;
  pin_version_id : Z;
  pin_path : string;
  pin_hash : string;
  pin_actor : string;
  pin_reason : string;
  pin_pinned_at_ms : Z;
  pin_released_at_ms : option Z;
  pin_release_approval_id : option string;
  pin_released_by : option string;
  pin_release_reason : option string;
}.

Record ApprovalRow := mkApprovalRow {
  apr_approver : string;
  apr_reason : string;
  apr_timestamp_ms : Z;
}.

Record RetentionAuditEntry := mkRetentionAuditEntry {
  rae_pin_id : Z;
  rae_incident_id : string;
  rae_version_id : Z;
  rae_path : string;
  rae_hash : string;
  rae_action : string;
  rae_actor : string;
  rae_reason : string;
  rae_timestamp_ms : Z;
  rae_approval_id : option string;
}.

(** [tb_pin_sequence] is the AUTOINCREMENT counter of retention_pins; the audit
    is append-only, so an entry's ID is its place in the list. *)
Record RetentionTables := mkRetentionTables {
  tb_pins : gmap Z RetentionPin;
  tb_pin_sequence : Z;
  tb_approvals : gmap string ApprovalRow;
  tb_audit : list RetentionAuditEntry;
}.

(** * The store *)

(** [bk_objects]: the files below objects/, by name (the shard directory is
    the first two characters of the name). *)
Record BackupStore := mkBackupStore {
  bk_max_file_bytes : Z;
  bk_versions : gmap Z BackupVersion;
  bk_sequence : Z;
  bk_status : gmap string StatusRow;
  bk_objects : gmap string string;
  bk_retention : RetentionTables;
}.

Definition BackupStore_new (max_file_bytes : Z) : BackupStore :=
  mkBackupStore max_file_bytes ∅ 0 ∅ ∅ (mkRetentionTables ∅ 0 ∅ []).

Definition with_versions (st : BackupStore) versions sequence : BackupStore :=
  mkBackupStore (bk_max_file_bytes st) versions sequence (bk_status st) (bk_objects st) (bk_retention st).
Definition with_status (st : BackupStore) status : BackupStore :=
  mkBackupStore (bk_max_file_bytes st) (bk_versions st) (bk_sequence st) status (bk_objects st)
    (bk_retention st).
Definition with_contents (st : BackupStore) objects : BackupStore :=
  mkBackupStore (bk_max_file_bytes st) (bk_versions st) (bk_sequence st) (bk_status st) objects
    (bk_retention st).
Definition with_retention (st : BackupStore) tables : BackupStore :=
  mkBackupStore (bk_max_file_bytes st) (bk_versions st) (bk_sequence st) (bk_status st) (bk_objects st)
    tables.

(** The crates [sha2] and [hex]. *)
Class ContentHash := content_sha256 : string -> string.

Definition commit_to {S A} (c : commit_outcome) (before after : S) (a : A) : S * result A RecoveryError :=
  commit_with Db c before after a.

(** Reading a negative column back into a [u64] is an error. *)
Definition decodes (v : BackupVersion) : bool := (0 <=? bv_size v) && (0 <=? bv_timestamp_ms v).

Definition version_list (st : BackupStore) : list BackupVersion := (map_to_list (bk_versions st)).*2.

(** ORDER BY timestamp_ms DESC, id DESC. *)
Definition newest_key (v : BackupVersion) : Z * Z := (- bv_timestamp_ms v, - bv_id v).

Definition versions (st : BackupStore) (path : string) : result (list BackupVersion) RecoveryError :=
  let rows := List.filter (fun v => String.eqb (bv_path v) path) (version_list st) in
  if forallb decodes rows then Ok (sort_by newest_key rows) else Err Db.

Definition version (st : BackupStore) (path : string) (id : Z) : result BackupVersion RecoveryError :=
  match opt_filter (fun v => String.eqb (bv_path v) path) (bk_versions st !! id) with
  | Some v => if decodes v then Ok v else Err Db
  | None => Err (NotFound path)
  end.

(** The entries of the file system a restore meets or makes. *)
Inductive Node : Type :=
| Regular (bytes : string) (mode uid gid : Z)
| Directory
| Special.
Abbreviation Nodes := (gmap string Node).

Section Store.
Context `{Hash : ContentHash}.

(** * Backing up *)

(** What the system calls of one backup see and do: metadata (whether a
    regular file, and its length), the bytes readable then, and the outcome of
    the status row, of the object file and of COMMIT. *)
Record BackupEnv := mkBackupEnv {
  be_metadata : option (bool * Z);
  be_bytes : option string;
  be_status : bool;
  be_object : bool;
  be_commit : commit_outcome;
}.

Definition record_oversized_skip (st : BackupStore) (path : string) : BackupStore :=
  let row := default StatusRow_default (bk_status st !! path) in
  with_status st (<[path := mkStatusRow (rs_oversized_skips row + 1) (rs_last_test_ms row)
                              (rs_last_test_ok row) (rs_last_test_error row)]> (bk_status st)).
Definition too_large (st : BackupStore) (env : BackupEnv) (path : string) (size : Z)
    : BackupStore * result (option string) RecoveryError :=
  if be_status env then (record_oversized_skip st path, Err (TooLarge size (bk_max_file_bytes st)))
  else (st, Err Db).

(** SELECT hash .. WHERE path = ?1 ORDER BY id DESC LIMIT 1. *)
Definition last_hash (st : BackupStore) (path : string) : option string :=
  bv_hash <$> min_by_key (fun v => - bv_id v)
    (List.filter (fun v => String.eqb (bv_path v) path) (version_list st)).

Definition insert_version (st : BackupStore) (path hash : string) (size timestamp_ms pid : Z)
    : option BackupStore :=
  if i64_max <=? bk_sequence st then None
  else
    let id := bk_sequence st + 1 in
    Some (with_versions st
            (<[id := mkBackupVersion id path hash size (as_i64 timestamp_ms) pid false None]>
               (bk_versions st)) id).

(** From the transaction on: [data] is what was read. *)
Definition backup_data (st : BackupStore) (env : BackupEnv) (path data : string) (timestamp_ms pid : Z)
    : BackupStore * result (option string) RecoveryError :=
  let hash := content_sha256 data in
  if bool_decide (last_hash st path = Some hash) then (st, Ok None)
  else
    let present := is_some (bk_objects st !! hash) in
    if negb present && negb (be_object env) then (st, Err (Io hash))
    else
      let st := if present then st else with_contents st (<[hash := data]> (bk_objects st)) in
      match insert_version st path hash (slen data) timestamp_ms pid with
      | None => (st, Err Db)
      | Some st' => commit_to (be_commit env) st st' (Some hash)
      end.

Definition backup (st : BackupStore) (env : BackupEnv) (path : string) (timestamp_ms pid : Z)
    : BackupStore * result (option string) RecoveryError :=
  match be_metadata env with
  | None => (st, Err (Io path))
  | Some (false, _) => (st, Ok None)
  | Some (true, len) =>
      if bk_max_file_bytes st <? len then too_large st env path len
      else match be_bytes env with
      | None => (st, Err (Io path))
      | Some bytes =>
          let data := str_take (sat_add (bk_max_file_bytes st) 1) bytes in
          if bk_max_file_bytes st <? slen data then too_large st env path (slen data)
          else backup_data st env path data timestamp_ms pid
      end
  end.

(** * Trust *)

Definition is_hex_digit (c : ascii) : bool :=
  let n := nat_of_ascii c in
  (Nat.leb 48 n && Nat.leb n 57) || (Nat.leb 65 n && Nat.leb n 70) || (Nat.leb 97 n && Nat.leb n 102).

Definition read_verified (st : BackupStore) (v : BackupVersion) : result string RecoveryError :=
  let? _ := guard (negb (slen (bv_hash v) =? 64) || negb (str_all is_hex_digit (bv_hash v)))
              (InvalidMetadata "객체 해시는 64자리 SHA-256이어야 합니다") in
  let? bytes := ok_or (bk_objects st !! bv_hash v) (Io (bv_hash v)) in
  let data := str_take (sat_add (bv_size v) 1) bytes in
  let actual := content_sha256 data in
  let? _ := guard (negb (String.eqb actual (bv_hash v))) (IntegrityMismatch (bv_hash v) actual) in
  Ok data.

Definition set_trust (v : BackupVersion) (good : bool) (note : string) : BackupVersion :=
  mkBackupVersion (bv_id v) (bv_path v) (bv_hash v) (bv_size v) (bv_timestamp_ms v) (bv_pid v) good
    (Some note).
Definition update_trust (st : BackupStore) (id : Z) (good : bool) (note : string) : BackupStore :=
  with_versions st (alter (fun v => set_trust v good note) id (bk_versions st)) (bk_sequence st).

(** [written] is whether the UPDATE succeeds. *)
Definition mark_known_good (st : BackupStore) (path : string) (id : Z) (note : string) (written : bool)
    : BackupStore * result BackupVersion RecoveryError :=
  match (let? _ := guard (trim_is_empty note) MissingTrustNote in
         let? v := version st path id in
         let? _ := read_verified st v in
         guard (negb written) Db) with
  | Err e => (st, Err e)
  | Ok _ => let st := update_trust st id true (str_trim note) in (st, version st path id)
  end.

Definition revoke_known_good (st : BackupStore) (path : string) (id : Z) (note : string) (written : bool)
    : BackupStore * result BackupVersion RecoveryError :=
  match (let? _ := guard (trim_is_empty note) MissingTrustNote in
         let? v := version st path id in
         guard (negb written) Db) with
  | Err e => (st, Err e)
  | Ok _ => let st := update_trust st id false (str_trim note) in (st, version st path id)
  end.

Definition trusted_before (before_ms : option Z) (v : BackupVersion) : bool :=
  bv_known_good v && is_none_or before_ms (fun cutoff => bv_timestamp_ms v <? cutoff).

Definition recommend (st : BackupStore) (path : string) (before_ms : option Z)
    : result BackupVersion RecoveryError :=
  let? vs := versions st path in
  let? _ := guard (zlen vs =? 0) (NotFound path) in
  ok_or (List.find (trusted_before before_ms) vs) (NoTrustedVersion path).

(** * Restoring *)

(** What the system calls of one restore meet; the process's own identity is
    that of the files it creates. [re_write] is how many bytes a failing write
    has left. *)
Record RestoreEnv := mkRestoreEnv {
  re_stat : bool;
  re_mkdir : string -> bool;
  re_process : Z;
  re_sequence : Z;
  re_temporary : bool;
  re_write : option nat;
  re_chown : bool;
  re_chmod : bool;
  re_sync : bool;
  re_rename : bool;
  re_removed : bool;
  re_uid : Z;
  re_gid : Z;
}.
Definition new_file (env : RestoreEnv) (bytes : string) : Node := Regular bytes 384 (re_uid env) (re_gid env).

(** The directories above a path but the root, the outermost first. *)
Definition parents_of (path : string) : list string :=
  let cs := components path in
  List.filter (fun d => negb (String.eqb d "/"))
    (map (fun n => path_of (take n cs)) (seq 1 (pred (length cs)))).

(** [fs::create_dir_all]: the missing directories are made from the outermost
    on, up to the first that cannot be. [mkdir] is whether the directory can be
    made or, where something else is, whether it is a link to a directory. *)
Fixpoint create_dirs (mkdir : string -> bool) (dirs : list string) (files : Nodes) : Nodes * bool :=
  match dirs with
  | [] => (files, true)
  | d :: dirs =>
      match files !! d with
      | Some Directory => create_dirs mkdir dirs files
      | None => if mkdir d then create_dirs mkdir dirs (<[d := Directory]> files) else (files, false)
      | Some Special => if mkdir d then create_dirs mkdir dirs files else (files, false)
      | Some _ => (files, false)
      end
  end.

(** [Path::with_extension]. *)
Definition with_extension (path extension : string) : string :=
  match file_name path with
  | None => path
  | Some name =>
      let stem := match rsplit_once "." name with
                  | Some (stem, _) => if String.eqb stem "" then name else stem
                  | None => name
                  end in
      let name := stem +:+ "." +:+ extension in
      match path_parent path with
      | None | Some "" => name
      | Some parent => path_join parent name
      end
  end.

(** The name the [k]-th try takes: the counter goes on with every try. *)
Definition temporary_path (env : RestoreEnv) (path : string) (k : nat) : string :=
  with_extension path ("argos-restore-" +:+ pretty (re_process env) +:+ "-"
                       +:+ pretty (wrap_add (re_sequence env) (Z.of_nat k)) +:+ ".tmp").
Fixpoint create_restore_temp (env : RestoreEnv) (path : string) (tries k : nat) (files : Nodes)
    : Nodes * result string RecoveryError :=
  match tries with
  | O => (files, Err (Io path))
  | S tries =>
      let tmp := temporary_path env path k in
      if is_some (files !! tmp) then create_restore_temp env path tries (S k) files
      else if re_temporary env then (<[tmp := new_file env ""]> files, Ok tmp)
      else (files, Err (Io tmp))
  end.

(** On the new file: owner of the target, then its permission bits without
    setuid, setgid and sticky. *)
Definition apply_restore_metadata (env : RestoreEnv) (existing : option Node) (data : string) : Node * bool :=
  match existing with
  | Some (Regular _ mode uid gid) =>
      if negb (re_chown env) then (new_file env data, false)
      else if negb (re_chmod env) then (Regular data 384 uid gid, false)
      else (Regular data (Z.land mode 511) uid gid, true)
  | _ => (new_file env data, true)
  end.

(** The temporary file before the rename, and whether everything went well. *)
Definition fill_temporary (env : RestoreEnv) (existing : option Node) (data : string) : Node * bool :=
  match re_write env with
  | Some n => (new_file env (String.substring 0 n data), false)
  | None =>
      let '(node, ok) := apply_restore_metadata env existing data in
      (node, ok && re_sync env)
  end.

(** Writing the temporary file and putting it in place; after a failure it is
    removed, when that works. *)
Definition replace_target (env : RestoreEnv) (path tmp : string) (existing : option Node) (data : string)
    (files : Nodes) : Nodes * result unit RecoveryError :=
  let '(node, ok) := fill_temporary env existing data in
  if ok && re_rename env then (<[path := node]> (delete tmp files), Ok tt)
  else
    let files := <[tmp := node]> files in
    (if re_removed env then delete tmp files else files, Err (Io (if ok then path else tmp))).

(** What has to hold before a restore touches the file system. *)
Definition restore_plan (st : BackupStore) (files : Nodes) (env : RestoreEnv) (path : string)
    (before_ms : option Z) : result (BackupVersion * string * option Node) RecoveryError :=
  let? v := recommend st path before_ms in
  let? data := read_verified st v in
  let? existing :=
    (if negb (re_stat env) then Err (Io path)
     else match files !! path with
          | Some Special | Some Directory => Err (UnsafeRestoreTarget path)
          | existing => Ok existing
          end) in
  Ok (v, data, existing).

Definition restore (st : BackupStore) (files : Nodes) (env : RestoreEnv) (path : string)
    (before_ms : option Z) : Nodes * result BackupVersion RecoveryError :=
  match restore_plan st files env path before_ms with
  | Err e => (files, Err e)
  | Ok (v, data, existing) =>
      let '(files, made) := create_dirs (re_mkdir env) (parents_of path) files in
      if negb made then (files, Err (Io path))
      else
        let '(files, tmp) := create_restore_temp env path 100 0 files in
        match tmp with
        | Err e => (files, Err e)
        | Ok tmp =>
            let '(files, r) := replace_target env path tmp existing data files in
            (files, let? _ := r in Ok v)
        end
  end.

(** [scratch] is what reading the scratch file back returns. *)
Definition test_restore (st : BackupStore) (path : string) (before_ms : option Z)
    (scratch : option string) (now : Z) (written : bool) : BackupStore * result BackupVersion RecoveryError :=
  let outcome :=
    let? v := recommend st path before_ms in
    let? _ := read_verified st v in
    let? bytes := ok_or scratch (Io path) in
    let actual := content_sha256 (str_take (sat_add (bv_size v) 1) bytes) in
    let? _ := guard (negb (String.eqb actual (bv_hash v))) (IntegrityMismatch (bv_hash v) actual) in
    Ok v in
  if negb written then (st, Err Db)
  else
    let skips := rs_oversized_skips (default StatusRow_default (bk_status st !! path)) in
    let row := mkStatusRow skips (Some (Z.min now i64_max)) (Some (is_ok outcome))
                 (match outcome with Ok _ => None | Err e => Some e end) in
    (with_status st (<[path := row]> (bk_status st)), outcome).

(** The canonical parents of the destination and of the source, and the
    canonical store directory, when they resolve; the outcome of the open, how
    many bytes a failing write has left and whether the file could be removed then. *)
Record PreviewEnv := mkPreviewEnv {
  pv_parent : option string;
  pv_source_parent : option string;
  pv_store : option string;
  pv_open : bool;
  pv_write : option nat;
  pv_removed : bool;
  pv_uid : Z;
  pv_gid : Z;
}.

Definition join_path (parent name : string) : string := parent +:+ "/" +:+ name.

Definition preview (st : BackupStore) (files : Nodes) (env : PreviewEnv) (path : string)
    (id : Z) (destination : string) : Nodes * result BackupVersion RecoveryError :=
  match (let? parent := ok_or (pv_parent env) (Io destination) in
         let? name := ok_or (file_name destination) (UnsafePreview destination) in
         let resolved := join_path parent name in
         let source := p ← pv_source_parent env; n ← file_name path; Some (join_path p n) in
         let? store := ok_or (pv_store env) (Io path) in
         let? _ := guard (is_some_and source (path_eq resolved) || path_starts_with resolved store)
                     (UnsafePreview destination) in
         let? v := version st path id in
         let? data := read_verified st v in
         let? _ := guard (is_some (files !! resolved) || negb (pv_open env)) (Io resolved) in
         Ok (v, resolved, data)) with
  | Ok (v, resolved, data) =>
      let written bytes := <[resolved := Regular bytes 384 (pv_uid env) (pv_gid env)]> files in
      match pv_write env with
      | None => (written data, Ok v)
      | Some n => (if pv_removed env then files else written (String.substring 0 n data), Err (Io resolved))
      end
  | Err e => (files, Err e)
  end.

(** * Pruning *)

Definition pin_active (p : RetentionPin) : bool := negb (is_some (pin_released_at_ms p)).
Definition pinned (t : RetentionTables) (id : Z) : bool :=
  existsb (fun kv => (pin_version_id kv.2 =? id) && pin_active kv.2) (map_to_list (tb_pins t)).

(** ROW_NUMBER() OVER (PARTITION BY path ORDER BY id DESC) among unreviewed versions. *)
Definition row_number (st : BackupStore) (v : BackupVersion) : Z :=
  1 + zlen (List.filter (fun u => negb (bv_known_good u) && String.eqb (bv_path u) (bv_path v)
                                  && (bv_id v <? bv_id u)) (version_list st)).
Definition prunable (st : BackupStore) (keep : Z) (v : BackupVersion) : bool :=
  negb (bv_known_good v) && negb (pinned (bk_retention st) (bv_id v))
  && negb (row_number st v <=? Z.min keep i64_max).

Definition live (vs : gmap Z BackupVersion) (name : string) : bool :=
  existsb (fun kv => String.eqb (bv_hash kv.2) name) (map_to_list vs).

(** [removable]: whether the listing shows the file and its removal works. *)
Definition prune (st : BackupStore) (keep : Z) (removable : string -> bool) (c : commit_outcome)
    : BackupStore * result Z RecoveryError :=
  let kept := filter (fun kv : Z * BackupVersion => prunable st keep kv.2 = false) (bk_versions st) in
  let removed := Z.of_nat (size (bk_versions st)) - Z.of_nat (size kept) in
  let objects := filter (fun kv : string * string => live kept kv.1 || negb (removable kv.1) = true)
                   (bk_objects st) in
  let swept := with_contents st objects in
  commit_to c swept (with_versions swept kept (bk_sequence st)) removed.

(** * Readiness *)

Definition path_readiness (st : BackupStore) (path : string) : RecoveryPathReadiness :=
  let vs := List.filter (fun v => String.eqb (bv_path v) path) (version_list st) in
  let good := List.filter bv_known_good vs in
  let latest l := bv_timestamp_ms <$> min_by_key (fun v => - bv_timestamp_ms v) l in
  let row := default StatusRow_default (bk_status st !! path) in
  {| rr_path := path;
     rr_version_count := zlen vs;
     rr_known_good_versions := zlen good;
     rr_latest_backup_ms := latest vs;
     rr_latest_known_good_ms := latest good;
     rr_oversized_skips := rs_oversized_skips row;
     rr_last_restore_test_ms := rs_last_test_ms row;
     rr_last_restore_test_ok := rs_last_test_ok row;
     rr_last_restore_test_error := rs_last_test_error row |}.

(** ORDER BY path; a negative latest time does not decode. *)
Definition readiness (st : BackupStore) : result (list RecoveryPathReadiness) RecoveryError :=
  let paths := btree_set (map bv_path (version_list st) ++ (map_to_list (bk_status st)).*1) in
  let rows := map (path_readiness st) paths in
  let decodes_opt o := is_none_or o (fun t => 0 <=? t) in
  if forallb (fun r => decodes_opt (rr_latest_backup_ms r) && decodes_opt (rr_latest_known_good_ms r)) rows
  then Ok rows else Err Db.

End Store.

(** * Lemmas *)

(** The digest as lower-case hex: 64 hexadecimal digits. *)
Class ContentHashLaws `{Hash : ContentHash} : Prop :=
  content_sha256_hex : forall b,
    slen (content_sha256 b) = 64 /\ str_all is_hex_digit (content_sha256 b) = true.

(** The same backup, whatever has been decided about its trust. *)
Definition same_version (v v' : BackupVersion) : Prop :=
  set_trust v false "" = set_trust v' false "".

Lemma same_version_fields (v v' : BackupVersion) :
  same_version v v' <->
  bv_id v' = bv_id v /\ bv_path v' = bv_path v /\ bv_hash v' = bv_hash v /\ bv_size v' = bv_size v
  /\ bv_timestamp_ms v' = bv_timestamp_ms v /\ bv_pid v' = bv_pid v.
Proof. unfold same_version, set_trust. split; [intros [=]; by repeat split|intros (-> & -> & -> & -> & -> & ->); done]. Qed.

Lemma same_version_refl (v : BackupVersion) : same_version v v.
Proof. done. Qed.
Lemma same_version_trans (u v w : BackupVersion) : same_version u v -> same_version v w -> same_version u w.
Proof. unfold same_version. congruence. Qed.
Lemma set_trust_same (v : BackupVersion) good note : same_version v (set_trust v good note).
Proof. by apply same_version_fields. Qed.

#[export] Hint Resolve same_version_refl set_trust_same : argos.

(** What pruning never takes. *)
Definition protected (st : BackupStore) (v : BackupVersion) : Prop :=
  bv_known_good v = true \/ pinned (bk_retention st) (bv_id v) = true.

Lemma version_list_elem (st : BackupStore) (v : BackupVersion) :
  v ∈ version_list st <-> exists id, bk_versions st !! id = Some v.
Proof.
  unfold version_list. rewrite list_elem_of_fmap. split.
  - intros ([id v'] & -> & Hin%elem_of_map_to_list). by exists id.
  - intros [id Hv]. exists (id, v). by rewrite elem_of_map_to_list.
Qed.

Lemma live_spec (vs : gmap Z BackupVersion) (name : string) :
  live vs name = true <-> exists id v, vs !! id = Some v /\ bv_hash v = name.
Proof.
  unfold live. rewrite existsb_exists. split.
  - intros ([id v] & Hin & He%String.eqb_eq). apply list_elem_of_In, elem_of_map_to_list in Hin.
    by exists id, v.
  - intros (id & v & Hv & He). exists (id, v). split.
    + by apply list_elem_of_In, elem_of_map_to_list.
    + by apply String.eqb_eq.
Qed.

Lemma version_Ok (st : BackupStore) (path : string) (id : Z) (v : BackupVersion) :
  version st path id = Ok v <-> bk_versions st !! id = Some v /\ bv_path v = path /\ decodes v = true.
Proof.
  unfold version, opt_filter. destruct (bk_versions st !! id) as [u|]; simpl; [|naive_solver].
  destruct (String.eqb_spec (bv_path u) path); simpl; [|naive_solver].
  destruct (decodes u) eqn:E; (split; [intros [= <-]|intros ([= <-] & _ & Hd)]); repeat split; congruence.
Qed.

Lemma versions_Ok (st : BackupStore) (path : string) (vs : list BackupVersion) :
  versions st path = Ok vs ->
  StronglySorted (key_le newest_key) vs
  /\ (forall v, v ∈ vs <-> (exists id, bk_versions st !! id = Some v) /\ bv_path v = path)
  /\ (forall v, v ∈ vs -> decodes v = true).
Proof.
  unfold versions. set (rows := List.filter _ _). destruct (forallb decodes rows) eqn:Ed; [|done].
  intros [= <-]. split; [apply sort_by_sorted|]. rewrite forallb_forall in Ed. split.
  - intros v. rewrite sort_by_perm. unfold rows.
    by rewrite filter_elem, version_list_elem, String.eqb_eq.
  - intros v. rewrite sort_by_perm. intros Hv. by apply Ed, list_elem_of_In.
Qed.

Lemma newest_key_le (v u : BackupVersion) :
  key_le newest_key v u <->
  bv_timestamp_ms u < bv_timestamp_ms v \/ bv_timestamp_ms u = bv_timestamp_ms v /\ bv_id u <= bv_id v.
Proof.
  unfold key_le, cmp_le, newest_key, cmp, ord_prod, cmp, ord_Z. simpl.
  destruct (Z.compare_spec (- bv_timestamp_ms v) (- bv_timestamp_ms u));
    destruct (Z.compare_spec (- bv_id v) (- bv_id u)); split; intros; try done; try lia.
Qed.

Section StoreLemmas.
Context `{Hash : ContentHash}.

Lemma read_verified_Ok (st : BackupStore) (v : BackupVersion) (data : string) :
  read_verified st v = Ok data <->
  slen (bv_hash v) = 64 /\ str_all is_hex_digit (bv_hash v) = true
  /\ content_sha256 data = bv_hash v
  /\ exists bytes, bk_objects st !! bv_hash v = Some bytes /\ data = str_take (sat_add (bv_size v) 1) bytes.
Proof.
  unfold read_verified. rewrite guard_bind_Ok. setoid_rewrite ok_or_bind_Ok. split.
  - intros (Hb & bytes & Ho & Hk). apply guard_bind_Ok in Hk as (He & [= <-]). split_bools.
    apply String.eqb_eq in He. repeat split; eauto.
  - intros (H1 & H2 & H3 & bytes & Ho & ->). rewrite H1, H2. split; [done|]. exists bytes.
    split; [done|]. rewrite guard_bind_Ok, H3, String.eqb_refl. done.
Qed.

Lemma read_verified_kept (st st' : BackupStore) (v v' : BackupVersion) (data : string) :
  same_version v v' ->
  (forall b, bk_objects st !! bv_hash v = Some b -> bk_objects st' !! bv_hash v = Some b) ->
  read_verified st v = Ok data -> read_verified st' v' = Ok data.
Proof.
  rewrite same_version_fields. intros (_ & _ & Hh & Hs & _) Ho. rewrite !read_verified_Ok, Hh, Hs.
  naive_solver.
Qed.

(** * The invariant of the store *)

Record store_sound (st : BackupStore) : Prop := mkStoreSound {
  ss_sequence : 0 <= bk_sequence st;
  ss_rows : forall id v, bk_versions st !! id = Some v ->
    bv_id v = id /\ 0 < id <= bk_sequence st /\ 0 <= bv_size v;
  ss_objects : forall name b, bk_objects st !! name = Some b -> content_sha256 b = name;
  ss_good : forall id v, bk_versions st !! id = Some v -> bv_known_good v = true ->
    decodes v = true /\ exists data, read_verified st v = Ok data;
}.

(** One operation keeps every protected version with its object. *)
Definition keeps (st st' : BackupStore) : Prop :=
  forall id v, bk_versions st !! id = Some v -> protected st v ->
    exists v', bk_versions st' !! id = Some v' /\ same_version v v'
      /\ forall b, bk_objects st !! bv_hash v = Some b -> bk_objects st' !! bv_hash v = Some b.

Lemma store_new_sound (limit : Z) : store_sound (BackupStore_new limit).
Proof. by split. Qed.

(** Operations that only add rows, objects and status. *)
Record extends (st st' : BackupStore) : Prop := mkExtends {
  ex_versions : bk_versions st ⊆ bk_versions st';
  ex_objects : bk_objects st ⊆ bk_objects st';
  ex_retention : bk_retention st' = bk_retention st;
}.

Lemma extends_refl (st : BackupStore) : extends st st.
Proof. by split. Qed.

Lemma extends_keeps (st st' : BackupStore) : extends st st' -> keeps st st'.
Proof.
  intros [Hv Ho _] id v Hid _. exists v. split; [by eapply lookup_weaken|]. split; [done|].
  intros b Hb. by eapply lookup_weaken.
Qed.

Lemma with_status_sound (st : BackupStore) status : store_sound st -> store_sound (with_status st status).
Proof. by intros [Hq H1 H2 H3]; split. Qed.

Lemma with_retention_sound (st : BackupStore) tables : store_sound st -> store_sound (with_retention st tables).
Proof. by intros [Hq H1 H2 H3]; split. Qed.

Lemma with_contents_sound (st : BackupStore) (data : string) :
  bk_objects st !! content_sha256 data = None ->
  store_sound st -> store_sound (with_contents st (<[content_sha256 data := data]> (bk_objects st))).
Proof.
  intros Hn [Hq H1 H2 H3]. split; [done|done|..].
  - intros name b. cbn [bk_objects with_contents]. intros [[<- <-]|[_ Hb]]%lookup_insert_Some; [done|by apply H2].
  - intros id v Hv Hg. destruct (H3 _ _ Hv Hg) as (Hd & data' & Hr). split; [done|]. exists data'.
    revert Hr. apply read_verified_kept; [done|]. intros b Hb. cbn. by apply lookup_insert_Some; right; split; [congruence|].
Qed.

Lemma insert_version_sound (st st' : BackupStore) (path hash : string) (size ts pid : Z) :
  store_sound st -> 0 <= size -> insert_version st path hash size ts pid = Some st' ->
  store_sound st' /\ extends st st'.
Proof.
  intros [Hq H1 H2 H3] Hs. unfold insert_version. destruct (i64_max <=? bk_sequence st); [done|].
  intros [= <-].
  assert (Hfresh : bk_versions st !! (bk_sequence st + 1) = None).
  { destruct (_ !! _) eqn:E; [|done]. apply H1 in E. lia. }
  split; [split|split]; cbn; try done; try lia.
  - intros id v [[<- <-]|[_ Hv]]%lookup_insert_Some; cbn; [lia|]. apply H1 in Hv. lia.
  - intros id v [[<- <-]|[_ Hv]]%lookup_insert_Some; cbn; [done|]. intros Hg. exact (H3 _ _ Hv Hg).
  - by apply insert_subseteq.
Qed.

Lemma too_large_extends (st : BackupStore) (env : BackupEnv) (path : string) (size : Z) :
  store_sound st -> store_sound (too_large st env path size).1 /\ extends st (too_large st env path size).1.
Proof.
  intros Hs. unfold too_large. destruct (be_status env); split; try done; try apply extends_refl.
  by apply with_status_sound.
Qed.

Lemma backup_data_extends (st : BackupStore) (env : BackupEnv) (path data : string) (ts pid : Z) :
  store_sound st ->
  store_sound (backup_data st env path data ts pid).1 /\ extends st (backup_data st env path data ts pid).1.
Proof.
  intros Hs. unfold backup_data. case_bool_decide; [split; [done|apply extends_refl]|].
  destruct (negb _ && _); [split; [done|apply extends_refl]|]. cbn zeta.
  set (st1 := if is_some _ then _ else _).
  assert (store_sound st1 /\ extends st st1) as [Hs1 Hx1].
  { subst st1. destruct (bk_objects st !! content_sha256 data) eqn:Ho; cbn [is_some];
      [split; [done|apply extends_refl]|].
    split; [by apply with_contents_sound|]. split; cbn; try done. by apply insert_subseteq. }
  destruct (insert_version st1 _ _ _ _ _) as [st2|] eqn:Hi; [|done].
  eapply insert_version_sound in Hi as [Hs2 [Hx2 Hx2' Hx2'']]; [|done|unfold slen; lia].
  apply (commit_with_cases (fun s => store_sound s /\ extends st s)); [done|]. split; [done|].
  destruct Hx1. split; [by etrans|by etrans|congruence].
Qed.

Lemma backup_extends (st : BackupStore) (env : BackupEnv) (path : string) (ts pid : Z) :
  store_sound st ->
  store_sound (backup st env path ts pid).1 /\ extends st (backup st env path ts pid).1.
Proof.
  intros Hs. unfold backup.
  destruct (be_metadata env) as [[[] len]|]; [|split; [done|apply extends_refl]..].
  destruct (_ <? len); [by apply too_large_extends|].
  destruct (be_bytes env) as [bytes|]; [|split; [done|apply extends_refl]]. cbn zeta.
  destruct (_ <? _); [by apply too_large_extends|by apply backup_data_extends].
Qed.

Lemma update_trust_lookup (st : BackupStore) (id id' : Z) good note :
  bk_versions (update_trust st id good note) !! id' =
  (if decide (id = id') then (fun v => set_trust v good note) <$> bk_versions st !! id'
   else bk_versions st !! id').
Proof. cbn. destruct (decide (id = id')) as [<-|]; [apply lookup_alter_eq|by apply lookup_alter_ne]. Qed.

Lemma update_trust_keeps (st : BackupStore) (id : Z) good note : keeps st (update_trust st id good note).
Proof.
  intros id' v Hv _. setoid_rewrite update_trust_lookup. destruct (decide (id = id')).
  - exists (set_trust v good note). rewrite Hv. eauto using set_trust_same.
  - eauto using same_version_refl.
Qed.

Lemma update_trust_sound (st : BackupStore) (id : Z) good note :
  store_sound st ->
  (good = true -> forall v, bk_versions st !! id = Some v ->
     decodes v = true /\ exists data, read_verified st v = Ok data) ->
  store_sound (update_trust st id good note).
Proof.
  intros [Hq H1 H2 H3] Hgood. split; [done| |done|].
  - intros id' v. rewrite update_trust_lookup. destruct (decide (id = id')); [|apply H1].
    intros (u & Hu & ->)%fmap_Some_1. cbn. by apply H1.
  - intros id' v. rewrite update_trust_lookup. destruct (decide (id = id')) as [<-|]; [|apply H3].
    intros (u & Hu & ->)%fmap_Some_1. cbn. intros ->. destruct (Hgood eq_refl u Hu) as (Hd & data & Hr).
    split; [done|]. exists data. revert Hr. by apply read_verified_kept.
Qed.

Lemma mark_known_good_ok (st : BackupStore) (path : string) (id : Z) note written :
  store_sound st ->
  store_sound (mark_known_good st path id note written).1
  /\ keeps st (mark_known_good st path id note written).1.
Proof.
  intros Hs. unfold mark_known_good. destruct (res_bind _ _) as [[]|e] eqn:E;
    [|split; [done|apply extends_keeps, extends_refl]].
  apply guard_bind_Ok in E as [_ (v & Hv & (data & Hd & _)%res_bind_Ok)%res_bind_Ok].
  split; [|apply update_trust_keeps]. apply update_trust_sound; [done|].
  apply version_Ok in Hv as (Hv & _ & Hdec). intros _ u Hu. rewrite Hv in Hu. injection Hu as <-. eauto.
Qed.

Lemma revoke_known_good_ok (st : BackupStore) (path : string) (id : Z) note written :
  store_sound st ->
  store_sound (revoke_known_good st path id note written).1
  /\ keeps st (revoke_known_good st path id note written).1.
Proof.
  intros Hs. unfold revoke_known_good. destruct (res_bind _ _) as [[]|e] eqn:E;
    [|split; [done|apply extends_keeps, extends_refl]].
  split; [by apply update_trust_sound|apply update_trust_keeps].
Qed.

Lemma test_restore_ok (st : BackupStore) (path : string) before scratch now written :
  store_sound st ->
  store_sound (test_restore st path before scratch now written).1
  /\ extends st (test_restore st path before scratch now written).1.
Proof.
  intros Hs. unfold test_restore. destruct written; cbn [negb]; [|split; [done|apply extends_refl]].
  split; [by apply with_status_sound|by split].
Qed.

(** * Pruning *)

Definition kept_rows (st : BackupStore) (keep : Z) : gmap Z BackupVersion :=
  filter (fun kv : Z * BackupVersion => prunable st keep kv.2 = false) (bk_versions st).

Lemma kept_rows_lookup (st : BackupStore) (keep id : Z) (v : BackupVersion) :
  kept_rows st keep !! id = Some v <-> bk_versions st !! id = Some v /\ prunable st keep v = false.
Proof. unfold kept_rows. by rewrite map_lookup_filter_Some. Qed.

Lemma kept_rows_subseteq (st : BackupStore) (keep : Z) : kept_rows st keep ⊆ bk_versions st.
Proof. apply map_filter_subseteq. Qed.

Lemma prunable_protected (st : BackupStore) (keep : Z) (v : BackupVersion) :
  protected st v -> prunable st keep v = false.
Proof. unfold prunable. intros [-> | ->]; cbn; by rewrite ?andb_false_r. Qed.

(** What pruning does to each part of the state, whatever becomes of COMMIT. *)
Lemma prune_parts (st : BackupStore) (keep : Z) removable (c : commit_outcome) :
  let st' := (prune st keep removable c).1 in
  (bk_versions st' = kept_rows st keep \/ bk_versions st' = bk_versions st)
  /\ bk_sequence st' = bk_sequence st /\ bk_retention st' = bk_retention st
  /\ bk_objects st' ⊆ bk_objects st
  /\ (forall name b, bk_objects st !! name = Some b ->
        live (kept_rows st keep) name = true \/ removable name = false ->
        bk_objects st' !! name = Some b).
Proof.
  unfold prune. fold (kept_rows st keep).
  assert (Ho : forall name b, bk_objects st !! name = Some b ->
    live (kept_rows st keep) name = true \/ removable name = false ->
    filter (fun kv : string * string => live (kept_rows st keep) kv.1 || negb (removable kv.1) = true)
      (bk_objects st) !! name = Some b).
  { intros name b Hb Hl. apply map_lookup_filter_Some. split; [done|]. cbn.
    destruct Hl as [-> | ->]; [done|by rewrite orb_true_r]. }
  destruct c as [|[]]; cbn; (split; [by auto|]); split_and!; try done; apply map_filter_subseteq.
Qed.

Lemma prune_keeps (st : BackupStore) (keep : Z) removable (c : commit_outcome) :
  keeps st (prune st keep removable c).1.
Proof.
  destruct (prune_parts st keep removable c) as (Hv & _ & _ & _ & Ho). intros id v Hid Hp.
  assert (Hk : kept_rows st keep !! id = Some v)
    by (apply kept_rows_lookup; auto using prunable_protected).
  exists v. split_and!; [destruct Hv as [-> | ->]; done|done|].
  intros b Hb. apply Ho; [done|]. left. apply live_spec. eauto.
Qed.

Lemma prune_sound (st : BackupStore) (keep : Z) removable (c : commit_outcome) :
  store_sound st -> store_sound (prune st keep removable c).1.
Proof.
  intros [Hq H1 H2 H3]. pose proof (prune_keeps st keep removable c) as Hk.
  destruct (prune_parts st keep removable c) as (Hv & Hs & _ & Ho & _).
  assert (Hsub : bk_versions (prune st keep removable c).1 ⊆ bk_versions st)
    by (destruct Hv as [-> | ->]; [apply kept_rows_subseteq|done]).
  split; rewrite ?Hs; [done|..].
  - intros id v Hid. eapply H1, lookup_weaken; done.
  - intros name b Hb. eapply H2, lookup_weaken; done.
  - intros id v Hid Hg. assert (Hid' : bk_versions st !! id = Some v) by by eapply lookup_weaken.
    destruct (H3 _ _ Hid' Hg) as (Hd & data & Hr). split; [done|]. exists data. revert Hr.
    destruct (Hk id v Hid') as (v' & Hv' & Hsame & Hobj); [by left|]. by apply read_verified_kept.
Qed.

End StoreLemmas.

(** * Ranks: ROW_NUMBER against taking from the sorted rows *)

Section Rank.
Context {A : Type} (key : A -> Z).

(** In a list with strictly increasing keys the first [n] elements are those
    with fewer than [n] smaller keys. *)
Lemma take_rank (l : list A) (n : nat) (a : A) :
  StronglySorted (fun x y => key x < key y) l -> a ∈ l ->
  a ∈ take n l <-> (length (List.filter (fun u => Z.ltb (key u) (key a)) l) < n)%nat.
Proof.
  intros Hs. revert n. induction Hs as [|x l Hs IH Hall]; intros n Ha; [by apply not_elem_of_nil in Ha|].
  rewrite Forall_forall in Hall. destruct n as [|n]; cbn [take].
  { split; [by intros ?%not_elem_of_nil|lia]. }
  cbn [List.filter]. rewrite elem_of_cons. apply elem_of_cons in Ha as [->|Ha].
  - rewrite Z.ltb_irrefl.
    assert (Hnil : List.filter (fun u => key u <? key x) l = []).
    { destruct (List.filter _ l) as [|y l'] eqn:E; [done|].
      assert (Hy : y ∈ y :: l') by by left. rewrite <- E in Hy.
      apply filter_elem in Hy as [Hy Hlt%Z.ltb_lt]. specialize (Hall y Hy). lia. }
    rewrite Hnil. cbn. split; [lia|by left].
  - specialize (Hall a Ha) as Hlt. apply Z.ltb_lt in Hlt. rewrite Hlt. cbn [length].
    apply Z.ltb_lt in Hlt. specialize (IH n Ha).
    assert (Hne : a <> x) by (intros ->; lia). split.
    + intros [?|Hin]; [done|]. apply IH in Hin. lia.
    + intros ?. right. apply IH. lia.
Qed.

End Rank.

(** The unreviewed versions of a path, the newest first. *)
Definition newest_unreviewed (st : BackupStore) (path : string) : list BackupVersion :=
  sort_by (fun v => - bv_id v)
    (List.filter (fun u => negb (bv_known_good u) && String.eqb (bv_path u) path) (version_list st)).

Section PruneExact.
Context `{Hash : ContentHash} (st : BackupStore) (Hsound : store_sound st).

Lemma version_list_ids (v u : BackupVersion) :
  v ∈ version_list st -> u ∈ version_list st -> bv_id v = bv_id u -> v = u.
Proof.
  rewrite !version_list_elem. intros [i Hi] [j Hj] He.
  destruct (ss_rows _ Hsound _ _ Hi) as [<- _]. destruct (ss_rows _ Hsound _ _ Hj) as [<- _]. congruence.
Qed.

Lemma version_list_nodup : NoDup (version_list st).
Proof.
  unfold version_list. apply NoDup_fmap_2_strong; [|apply NoDup_map_to_list].
  intros [i v] [j u] Hi%elem_of_map_to_list Hj%elem_of_map_to_list. cbn. intros <-.
  destruct (ss_rows _ Hsound _ _ Hi) as [<- _]. by destruct (ss_rows _ Hsound _ _ Hj) as [<- _].
Qed.

Lemma newest_unreviewed_elem (path : string) (v : BackupVersion) :
  v ∈ newest_unreviewed st path <->
  v ∈ version_list st /\ bv_known_good v = false /\ bv_path v = path.
Proof.
  unfold newest_unreviewed. rewrite sort_by_perm, filter_elem, andb_true_iff, negb_true_iff.
  by rewrite String.eqb_eq.
Qed.

Lemma newest_unreviewed_sorted (path : string) :
  StronglySorted (fun x y => - bv_id x < - bv_id y) (newest_unreviewed st path).
Proof.
  assert (Hnd : NoDup (newest_unreviewed st path)).
  { unfold newest_unreviewed. rewrite sort_by_perm. apply NoDup_ListNoDup, List.NoDup_filter.
    apply NoDup_ListNoDup, version_list_nodup. }
  assert (Hin : forall v, v ∈ newest_unreviewed st path -> v ∈ version_list st)
    by (intros v ?%newest_unreviewed_elem; naive_solver).
  revert Hnd Hin. unfold newest_unreviewed. generalize (sort_by_sorted (fun v => - bv_id v)
    (List.filter (fun u => negb (bv_known_good u) && String.eqb (bv_path u) path) (version_list st))).
  induction 1 as [|x l Hs IH Hall]; intros Hnd Hin; [constructor|].
  apply NoDup_cons in Hnd as [Hx Hnd]. constructor; [apply IH; [done|]; intros; apply Hin; by right|].
  rewrite Forall_forall in Hall |- *. intros y Hy. specialize (Hall y Hy).
  assert (bv_id x <> bv_id y).
  { intros He. apply Hx. by rewrite (version_list_ids x y); [|apply Hin; by left|apply Hin; by right|]. }
  unfold key_le, cmp_le, cmp, ord_Z in Hall. destruct (Z.compare_spec (- bv_id x) (- bv_id y)); [lia|lia|done].
Qed.

Lemma row_number_rank (v : BackupVersion) :
  row_number st v =
  1 + Z.of_nat (length (List.filter (fun u => - bv_id u <? - bv_id v) (newest_unreviewed st (bv_path v)))).
Proof.
  unfold row_number, newest_unreviewed, zlen.
  rewrite (Permutation_length (filter_perm _ _ _ (sort_by_perm _ _))), filter_filter.
  do 3 f_equal. apply List.filter_ext. intros u. f_equal.
  destruct (Z.ltb_spec (bv_id v) (bv_id u)), (Z.ltb_spec (- bv_id u) (- bv_id v)); (done || lia).
Qed.

Lemma prunable_rank (keep : Z) (v : BackupVersion) :
  0 <= keep -> v ∈ version_list st ->
  prunable st keep v = false <->
  protected st v
  \/ v ∈ take (Z.to_nat (Z.min keep i64_max)) (newest_unreviewed st (bv_path v)).
Proof.
  intros Hk Hv. unfold prunable, protected.
  destruct (bv_known_good v) eqn:Hg; [naive_solver|]. cbn.
  destruct (pinned _ _); [naive_solver|]. cbn.
  assert (Hin : v ∈ newest_unreviewed st (bv_path v)) by (by apply newest_unreviewed_elem).
  rewrite (take_rank (fun v => - bv_id v)) by (done || apply newest_unreviewed_sorted).
  rewrite negb_false_iff, Z.leb_le, row_number_rank. unfold i64_max. split; [lia|intros [[]|]; [done..|lia]].
Qed.

End PruneExact.

(** Pruning is exact: a committed prune leaves the known-good versions, the
    versions under an active pin and the newest [keep] unreviewed versions of
    each path, and nothing else; it reports how many it removed; a content
    file survives when a version still refers to it or it cannot be removed;
    retention is untouched. *)
Theorem prune_exact `{Hash : ContentHash} (st st' : BackupStore) (keep n : Z)
    (removable : string -> bool) :
  store_sound st -> 0 <= keep ->
  prune st keep removable Committed = (st', Ok n) ->
  (forall id v, bk_versions st' !! id = Some v <->
     bk_versions st !! id = Some v
     /\ (protected st v
         \/ v ∈ take (Z.to_nat (Z.min keep i64_max)) (newest_unreviewed st (bv_path v))))
  /\ Z.of_nat (size (bk_versions st')) + n = Z.of_nat (size (bk_versions st)) /\ 0 <= n
  /\ (forall name b, bk_objects st' !! name = Some b <->
        bk_objects st !! name = Some b /\ (live (bk_versions st') name = true \/ removable name = false))
  /\ bk_retention st' = bk_retention st.
Proof.
  intros Hs Hk. unfold prune. fold (kept_rows st keep). intros [= <- <-]. cbn. split_and!.
  - intros id v. rewrite kept_rows_lookup. split; intros [Hid Hp]; (split; [done|]);
      [rewrite <- prunable_rank|rewrite prunable_rank]; eauto using version_list_elem;
      apply version_list_elem; eauto.
  - lia.
  - pose proof (map_subseteq_size _ _ (kept_rows_subseteq st keep)). lia.
  - intros name b. rewrite map_lookup_filter_Some. cbn.
    rewrite orb_true_iff, negb_true_iff. done.
  - done.
Qed.

(** * Restoring *)

Section Restore.
Context `{Hash : ContentHash}.

Lemma recommend_Ok (st : BackupStore) (path : string) (before : option Z) (v : BackupVersion) :
  recommend st path before = Ok v ->
  (exists id, bk_versions st !! id = Some v) /\ bv_path v = path /\ trusted_before before v = true
  /\ forall id u, bk_versions st !! id = Some u -> bv_path u = path -> trusted_before before u = true ->
       bv_timestamp_ms u < bv_timestamp_ms v \/ bv_timestamp_ms u = bv_timestamp_ms v /\ bv_id u <= bv_id v.
Proof.
  unfold recommend. intros (vs & Hvs & [_ Hf%ok_or_Ok]%guard_bind_Ok)%res_bind_Ok.
  apply versions_Ok in Hvs as (Hsort & Hin & _).
  pose proof (List.find_some _ _ Hf) as [Hv%list_elem_of_In Ht]. apply Hin in Hv as [Hid Hp].
  split_and!; try done. intros id u Hu Hpu Htu. apply newest_key_le.
  eapply find_sorted_least; [done|done| |done]. apply Hin. eauto.
Qed.

Lemma recommend_total (st : BackupStore) (path : string) (before : option Z) (id : Z) (v : BackupVersion) :
  (forall id v, bk_versions st !! id = Some v -> decodes v = true) ->
  bk_versions st !! id = Some v -> bv_path v = path -> trusted_before before v = true ->
  exists w, recommend st path before = Ok w.
Proof.
  intros Hdec Hv Hp Ht. unfold recommend. destruct (versions st path) as [vs|e] eqn:E.
  - apply versions_Ok in E as (_ & Hin & _). cbn.
    assert (Hvs : v ∈ vs) by (apply Hin; eauto).
    destruct (Z.eqb_spec (zlen vs) 0) as [Hz|_]; cbn [guard res_bind].
    { destruct vs; [by apply not_elem_of_nil in Hvs|]. rewrite zlen_cons in Hz.
      pose proof (zlen_nonneg vs). lia. }
    destruct (List.find (trusted_before before) vs) as [w|] eqn:Ef; [by exists w|].
    apply list_elem_of_In in Hvs. by rewrite (List.find_none _ _ Ef v Hvs) in Ht.
  - unfold versions in E. destruct (forallb decodes _) eqn:Ed; [done|].
    apply not_true_iff_false in Ed. exfalso. apply Ed, forallb_forall. intros u [Hu _]%filter_In.
    apply list_elem_of_In, version_list_elem in Hu as [i Hu]. by eapply Hdec.
Qed.

End Restore.

(** 0o7000: setuid, setgid and sticky. *)
Definition special_bits : Z := 3584.

Definition restored_owner (env : RestoreEnv) (existing : option Node) (mode uid gid : Z) : Prop :=
  match existing with
  | None => mode = 384 /\ uid = re_uid env /\ gid = re_gid env
  | Some (Regular _ m u g) => mode = Z.land m 511 /\ uid = u /\ gid = g
  | Some _ => False
  end.

Lemma land_no_special (m : Z) : Z.land (Z.land m 511) special_bits = 0.
Proof. rewrite <- Z.land_assoc. change (Z.land 511 special_bits) with 0. apply Z.land_0_r. Qed.

(** [create_dir_all] only adds directories of its list. *)
Definition dir_made (dirs : list string) (files files' : Nodes) (p : string) : Prop :=
  files !! p = None /\ files' !! p = Some Directory /\ p ∈ dirs.
Lemma create_dirs_frame mkdir dirs : forall files p,
  let files' := (create_dirs mkdir dirs files).1 in files' !! p = files !! p \/ dir_made dirs files files' p.
Proof.
  induction dirs as [|d dirs IH]; intros files p; cbn; [by left|].
  assert (Hmore : forall f f', dir_made dirs f f' p -> dir_made (d :: dirs) f f' p).
  { intros f f' (? & ? & ?). split_and!; [done|done|by right]. }
  destruct (files !! d) as [[]|] eqn:Hd; try by left.
  - destruct (IH files p) as [|H]; [by left|right; by apply Hmore].
  - destruct (mkdir d); [|by left]. destruct (IH files p) as [|H]; [by left|right; by apply Hmore].
  - destruct (mkdir d); [|by left]. destruct (IH (<[d := Directory]> files) p) as [Hp|(Hn & Hp & Hin)].
    + rewrite Hp. destruct (decide (p = d)) as [->|Hne]; [right|left; by rewrite lookup_insert_ne].
      split_and!; [done| |by left]. by rewrite Hp, lookup_insert_eq.
    + destruct (decide (p = d)) as [->|Hne]; [by rewrite lookup_insert_eq in Hn|].
      rewrite lookup_insert_ne in Hn by done. right. split_and!; [done|done|by right].
Qed.

Definition is_temporary (env : RestoreEnv) (path p : string) : Prop :=
  exists k, (k < 100)%nat /\ p = temporary_path env path k.
Lemma create_restore_temp_spec (env : RestoreEnv) (path : string) (files : Nodes) (tries : nat) : forall k,
  match create_restore_temp env path tries k files with
  | (files', Ok tmp) => files !! tmp = None /\ files' = <[tmp := new_file env ""]> files
      /\ exists j, (k <= j < k + tries)%nat /\ tmp = temporary_path env path j
  | (files', Err _) => files' = files
  end.
Proof.
  induction tries as [|tries IH]; intros k; cbn; [done|].
  destruct (files !! temporary_path env path k) eqn:Hk; cbn [is_some].
  - specialize (IH (S k)). destruct (create_restore_temp _ _ _ _ _) as [files' [tmp|]]; [|done].
    destruct IH as (H1 & H2 & j & Hj & ->). split_and!; [done..|]. exists j. split; [lia|done].
  - destruct (re_temporary env); [|done]. split_and!; [done|done|]. exists k. split; [lia|done].
Qed.

(** A new entry of a restore that is not the target: a directory above it, or
    its temporary file when that could not be removed. *)
Definition left_behind (env : RestoreEnv) (path : string) (files files' : Nodes) (p : string) : Prop :=
  dir_made (parents_of path) files files' p
  \/ files !! p = None /\ re_removed env = false /\ is_temporary env path p.

Lemma restore_plan_Ok `{Hash : ContentHash} (st : BackupStore) (files : Nodes) (env : RestoreEnv) (path : string) before v data existing :
  restore_plan st files env path before = Ok (v, data, existing) ->
  recommend st path before = Ok v /\ read_verified st v = Ok data /\ existing = files !! path
  /\ match existing with Some (Regular _ _ _ _) | None => True | _ => False end.
Proof.
  unfold restore_plan. intros (w & Hw & (data' & Hd & (x & He & [= -> -> ->])%res_bind_Ok)%res_bind_Ok)%res_bind_Ok.
  destruct (re_stat env); [|done]. cbn in He. destruct (files !! path) as [[]|]; by simplify_eq.
Qed.

Lemma fill_temporary_Ok (env : RestoreEnv) (existing : option Node) (data : string) (node : Node) :
  fill_temporary env existing data = (node, true) ->
  match existing with Some (Regular _ _ _ _) | None => True | _ => False end ->
  exists mode uid gid, node = Regular data mode uid gid /\ restored_owner env existing mode uid gid
  /\ Z.land mode special_bits = 0.
Proof.
  unfold fill_temporary. destruct (re_write env); [done|].
  destruct existing as [[bytes m u g| |]|]; cbn; try done; intros H _.
  - destruct (re_chown env); [|done]. destruct (re_chmod env); [|done]. injection H as <- _.
    exists (Z.land m 511), u, g. split_and!; try done. apply land_no_special.
  - injection H as <- _. by exists 384, (re_uid env), (re_gid env).
Qed.

(** C35: A restore that succeeds writes the newest version of the path an
    operator declared good before the cutoff, and exactly the bytes whose hash
    that version records; the new file keeps the owner of the one it replaces
    and its permissions without setuid, setgid and sticky. Whatever fails on the
    way - directories, the temporary file, a write cut short, metadata, the sync or
    the rename - every entry that was there, the target included, stays as it
    was; what a restore adds besides the target is at most directories above it
    and, when it failed and could not remove it, its temporary file. Anything but
    a regular file is never replaced. *)
Theorem restore_sound `{Hash : ContentHash} (st : BackupStore) (files : Nodes)
    (env : RestoreEnv) (path : string) (before : option Z) :
  match restore st files env path before with
  | (files', Ok v) =>
      bv_path v = path /\ bv_known_good v = true
      /\ is_none_or before (fun cutoff => bv_timestamp_ms v <? cutoff) = true
      /\ (exists id, bk_versions st !! id = Some v)
      /\ (forall id u, bk_versions st !! id = Some u -> bv_path u = path -> trusted_before before u = true ->
            bv_timestamp_ms u < bv_timestamp_ms v
            \/ bv_timestamp_ms u = bv_timestamp_ms v /\ bv_id u <= bv_id v)
      /\ (exists data mode uid gid,
            content_sha256 data = bv_hash v /\ files' !! path = Some (Regular data mode uid gid)
            /\ restored_owner env (files !! path) mode uid gid /\ Z.land mode special_bits = 0)
      /\ (forall p, p <> path -> files' !! p = files !! p \/ dir_made (parents_of path) files files' p)
  | (files', Err _) => forall p, files' !! p = files !! p \/ left_behind env path files files' p
  end.
Proof.
  unfold restore. destruct (restore_plan _ _ _ _ _) as [[[v data] existing]|e] eqn:E; [|by left].
  apply restore_plan_Ok in E as (Hw & Hd & -> & Hreg).
  pose proof (create_dirs_frame (re_mkdir env) (parents_of path) files) as Hdirs. cbv zeta in Hdirs.
  destruct (create_dirs _ _ _) as [files1 made]. cbn [fst] in Hdirs.
  assert (Herr : forall p, files1 !! p = files !! p \/ left_behind env path files files1 p).
  { intros p. destruct (Hdirs p) as [|H]; [by left|right; by left]. }
  destruct made; cbn [negb]; [|done].
  pose proof (create_restore_temp_spec env path files1 100 0) as Htmp.
  destruct (create_restore_temp _ _ _ _ _) as [files2 [tmp|e]]; [|by subst].
  destruct Htmp as (Hfree & -> & j & Hj & Htmp). unfold replace_target.
  destruct (fill_temporary env (files !! path) data) as [node ok] eqn:Hfill.
  rewrite delete_insert_id by done. rewrite insert_insert_eq.
  destruct (ok && re_rename env) eqn:Hok; cbn [res_bind].
  - apply andb_true_iff in Hok as [-> _].
    destruct (fill_temporary_Ok _ _ _ _ Hfill Hreg) as (mode & uid & gid & -> & Hown & Hbits).
    apply recommend_Ok in Hw as (Hid & Hp & Ht & Hnew). unfold trusted_before in Ht.
    apply andb_true_iff in Ht as [Hg Hb]. apply read_verified_Ok in Hd as (_ & _ & Hh & _).
    split_and!; try done.
    + exists data, mode, uid, gid. by rewrite lookup_insert_eq.
    + intros p Hne. unfold dir_made. rewrite lookup_insert_ne by done. apply Hdirs.
  - destruct (re_removed env) eqn:Hrm; [rewrite delete_insert_id by done; exact Herr|].
    intros p. destruct (decide (p = tmp)) as [->|Hne].
    + right. right. split_and!; [|done|exists j; split; [lia|done]]. destruct (Hdirs tmp) as [<-|(H & _)]; done.
    + unfold left_behind, dir_made. rewrite lookup_insert_ne by done.
      destruct (Hdirs p) as [|H]; [by left|right; by left].
Qed.

(** A preview never changes an entry that was there. *)
Theorem preview_adds_only `{Hash : ContentHash} (st : BackupStore) (files : Nodes) (env : PreviewEnv)
    (path : string) (id : Z) (destination p : string) :
  is_Some (files !! p) -> (preview st files env path id destination).1 !! p = files !! p.
Proof.
  intros Hp. unfold preview. destruct (res_bind _ _) as [[[v resolved] data]|e] eqn:E; [|done].
  assert (Hr : files !! resolved = None).
  { apply res_bind_Ok in E as (parent & _ & E). apply res_bind_Ok in E as (name & _ & E).
    apply res_bind_Ok in E as (dir & _ & E). apply guard_bind_Ok in E as [_ E].
    apply res_bind_Ok in E as (w & _ & E). apply res_bind_Ok in E as (bytes & _ & E).
    apply guard_bind_Ok in E as [Hn E]. injection E as _ <- _. apply orb_false_iff in Hn as [Hn _].
    by destruct (files !! join_path parent name). }
  assert (Hne : p <> resolved) by (intros ->; rewrite Hr in Hp; by destruct Hp).
  destruct (pv_write env); [destruct (pv_removed env)|]; cbn; by rewrite ?lookup_insert_ne.
Qed.

(** * Round trip of a backup *)

Lemma str_take_all (n : Z) (s : string) : slen s <= n -> str_take n s = s.
Proof. unfold str_take. intros H. by apply Z.leb_le in H as ->. Qed.

(** Reading one byte more than the limit shows whether the file is too large. *)
Lemma str_take_limit (limit : Z) (s : string) :
  0 <= limit -> slen (str_take (sat_add limit 1) s) <= limit -> limit < u64_max ->
  str_take (sat_add limit 1) s = s /\ slen s <= limit.
Proof.
  unfold str_take, sat_add, u64_max. intros H0 Hl Hi.
  destruct (Z.leb_spec (slen s) (Z.min (limit + 1) 18446744073709551615)); [done|].
  unfold slen in *. rewrite substring_length in Hl; lia.
Qed.

Section Roundtrip.
Context `{Hash : ContentHash}.

Lemma last_hash_inserted (st : BackupStore) (v : BackupVersion) :
  store_sound st -> bv_id v = bk_sequence st + 1 ->
  last_hash (with_versions st (<[bv_id v := v]> (bk_versions st)) (bv_id v)) (bv_path v) = Some (bv_hash v).
Proof.
  intros Hs Hid. unfold last_hash. set (st' := with_versions _ _ _). set (l := List.filter _ _).
  assert (Hin : forall u, u ∈ l <-> (exists i, bk_versions st' !! i = Some u) /\ bv_path u = bv_path v)
    by (intros u; unfold l; by rewrite filter_elem, version_list_elem, String.eqb_eq).
  assert (Hv : v ∈ l) by (apply Hin; split; [exists (bv_id v); apply lookup_insert_eq|done]).
  destruct (min_by_key (fun v => - bv_id v) l) as [w|] eqn:E.
  2: { apply min_by_key_None in E. rewrite E in Hv. by apply not_elem_of_nil in Hv. }
  cbn. f_equal. pose proof (min_by_key_least _ _ _ v E Hv) as Hle.
  apply min_by_key_elem, Hin in E as [[i Hi] _]. unfold st' in Hi. cbn in Hi.
  apply lookup_insert_Some in Hi as [[_ <-]|[_ Hi]]; [done|].
  apply ss_rows in Hi as (He & Hr & _); [|done]. exfalso. apply Hle. unfold cmp, ord_Z.
  apply Z.compare_lt_iff. lia.
Qed.

Lemma backup_stored (st : BackupStore) (env : BackupEnv) (path data h : string) (ts pid : Z) :
  store_sound st -> (backup_data st env path data ts pid).2 = Ok (Some h) ->
  let st' := (backup_data st env path data ts pid).1 in
  exists st1, h = content_sha256 data
  /\ last_hash st path <> Some h
  /\ store_sound st1 /\ bk_sequence st1 = bk_sequence st /\ is_Some (bk_objects st1 !! h)
  /\ insert_version st1 path h (slen data) ts pid = Some st'.
Proof.
  intros Hs. unfold backup_data. case_bool_decide as Hl; [done|].
  destruct (negb _ && _); [done|]. cbn zeta. set (st1 := if is_some _ then _ else _).
  assert (H1 : store_sound st1 /\ bk_sequence st1 = bk_sequence st
    /\ is_Some (bk_objects st1 !! content_sha256 data)).
  { subst st1. destruct (bk_objects st !! content_sha256 data) eqn:Ho; cbn [is_some]; [done|].
    split_and!; [by apply with_contents_sound|done|]. cbn. rewrite lookup_insert_eq. done. }
  destruct (insert_version st1 _ _ _ _ _) as [st2|] eqn:Hi; [|done].
  destruct (be_commit env); [|done]. intros [= <-]. exists st1. naive_solver.
Qed.

End Roundtrip.

(** C36: Backing a file up and reading it back: when backup returns a hash, that
    hash is new for the path and becomes its last one, and the version just
    recorded reads back verified as exactly the bytes of the file; when it
    returns none, nothing changed, and the path is not a regular file or its
    last backup has the hash of these bytes. The only assumption on SHA-256
    is that it does not collide on this content. *)
Theorem backup_roundtrip `{Hash : ContentHash} `{!ContentHashLaws} (st st' : BackupStore) (env : BackupEnv)
    (path : string) (ts pid : Z) (r : option string) :
  store_sound st -> 0 <= bk_max_file_bytes st < u64_max -> 0 <= ts <= i64_max ->
  (forall bytes b, be_bytes env = Some bytes -> content_sha256 b = content_sha256 bytes -> b = bytes) ->
  backup st env path ts pid = (st', Ok r) ->
  match r with
  | Some h =>
      exists bytes v, be_bytes env = Some bytes /\ slen bytes <= bk_max_file_bytes st
      /\ h = content_sha256 bytes /\ last_hash st path <> Some h /\ last_hash st' path = Some h
      /\ version st' path (bk_sequence st') = Ok v /\ bv_hash v = h /\ bv_timestamp_ms v = ts
      /\ bv_known_good v = false /\ read_verified st' v = Ok bytes
  | None =>
      st' = st
      /\ ((exists len, be_metadata env = Some (false, len))
          \/ exists bytes, be_bytes env = Some bytes /\ last_hash st path = Some (content_sha256 bytes))
  end.
Proof.
  intros Hs Hm Hts Hinj. unfold backup.
  destruct (be_metadata env) as [[[] len]|]; [|intros [= <- <-]; naive_solver|done].
  destruct (_ <? len); [by unfold too_large; destruct (be_status env)|].
  destruct (be_bytes env) as [bytes|]; [|done]. cbn zeta.
  destruct (_ <? slen _) eqn:El; [by unfold too_large; destruct (be_status env)|]. split_bools.
  apply str_take_limit in El as [-> El]; [|lia..]. intros Hb.
  destruct r as [h|].
  - pose proof (backup_stored st env path bytes h ts pid Hs) as Hst. rewrite Hb in Hst.
    destruct (Hst eq_refl) as (st1 & -> & Hl & Hs1 & Hq & [b Hobj] & Hi). cbn [fst] in Hi.
    unfold insert_version in Hi. destruct (i64_max <=? bk_sequence st1); [done|]. injection Hi as <-.
    set (v := mkBackupVersion _ _ _ _ _ _ _ _).
    assert (Hb' : b = bytes) by (apply (Hinj bytes); [done|by apply (ss_objects _ Hs1)]). subst b.
    exists bytes, v. split_and!; try done.
    + exact (last_hash_inserted st1 v Hs1 eq_refl).
    + apply version_Ok. split_and!; [cbn; apply lookup_insert_eq|done|].
      unfold decodes, v, as_i64. cbn. destruct (Z.leb_spec ts i64_max); [|lia].
      apply andb_true_iff. rewrite !Z.leb_le. unfold slen. lia.
    + cbn. unfold as_i64. destruct (Z.leb_spec ts i64_max); [done|lia].
    + apply read_verified_Ok. cbn. destruct (content_sha256_hex bytes) as [Hlen Hhex]. split_and!; try done.
      exists bytes. split; [done|]. symmetry. apply str_take_all. unfold sat_add, u64_max in *. lia.
  - unfold backup_data in Hb. case_bool_decide as Hl; [injection Hb as <-; naive_solver|].
    destruct (negb _ && _); [done|]. destruct (insert_version _ _ _ _ _ _); [|done].
    by destruct (be_commit env).
Qed.

(** * Instances *)

(** A digest of 64 hexadecimal digits that tells two contents apart. *)
#[local] Abbreviation sample_a := "aaaaaaaaaaaaaaaaaaaaaaaaaaaaaaaaaaaaaaaaaaaaaaaaaaaaaaaaaaaaaaaa"%string.
#[local] Abbreviation sample_b := "bbbbbbbbbbbbbbbbbbbbbbbbbbbbbbbbbbbbbbbbbbbbbbbbbbbbbbbbbbbbbbbb"%string.
#[local] Abbreviation sample_hash :=
  ((fun s => if String.eqb s "v1" then sample_a else sample_b) : ContentHash).
#[local] Abbreviation sample_env bytes := (mkBackupEnv (Some (true, 2)) (Some bytes) true true Committed).

Lemma sample_hash_laws : @ContentHashLaws sample_hash.
Proof. intros b. unfold content_sha256. by destruct (String.eqb b "v1"). Qed.

#[local] Abbreviation sample_st1 := (@backup sample_hash (BackupStore_new 1000) (sample_env "v1") "/f" 10 1).1.
#[local] Abbreviation sample_st2 := (@backup sample_hash sample_st1 (sample_env "v2") "/f" 20 1).1.

Lemma sample_st1_sound : @store_sound sample_hash sample_st1.
Proof. apply backup_extends, store_new_sound. Qed.
Lemma sample_st2_sound : @store_sound sample_hash sample_st2.
Proof. apply backup_extends, sample_st1_sound. Qed.

Lemma backup_roundtrip_witness :
  exists r, (@backup sample_hash sample_st1 (sample_env "v1") "/f" 20 1).2 = Ok None
    /\ @read_verified sample_hash (@backup sample_hash (BackupStore_new 1000) (sample_env "v1") "/f" 10 1).1
         r = Ok "v1"%string.
Proof.
  destruct (@backup_roundtrip sample_hash sample_hash_laws (BackupStore_new 1000) sample_st1
              (sample_env "v1") "/f" 10 1 (Some sample_a)) as (bytes & v & [= <-] & _ & _ & _ & _ & _ & _ & _ & _ & Hr).
  - apply store_new_sound.
  - cbn. unfold u64_max. lia.
  - unfold i64_max. lia.
  - intros bytes b [= <-]. unfold content_sha256. cbn. destruct (String.eqb_spec b "v1"); [done|discriminate].
  - vm_compute. reflexivity.
  - exists v. split; [vm_compute; reflexivity|exact Hr].
Defined.

Lemma prune_exact_witness :
  bk_versions (@prune sample_st2 1 (fun _ => true) Committed).1 !! 2
  = Some (mkBackupVersion 2 "/f" sample_b 2 20 1 false None).
Proof.
  destruct (@prune_exact sample_hash sample_st2 (prune sample_st2 1 (fun _ => true) Committed).1 1 1
              (fun _ => true) sample_st2_sound) as (Hiff & _).
  - lia.
  - vm_compute. reflexivity.
  - apply Hiff. split; [vm_compute; reflexivity|]. right. vm_compute. left.
Defined.
