(* ===== verification/Retention.v ===== *)
(** Incident retention (crates/argos-recovery/src/retention.rs): pins that keep
    versions as evidence, their release under single-use approvals, the
    append-only audit; and the store as a whole under any sequence of its
    operations. *)
From Stdlib Require Import ZArith Lia Ascii.
From stdpp Require Import base gmap strings list sorting.
From S2P Require Import Prelude RustPath Backup.
#[local] Open Scope Z_scope.

Record ReleaseApproval := mkReleaseApproval {
  ra_approval_id : string;
  ra_approver : string;
  ra_reason : string;
}.

(** * Requests *)

Definition is_id_char (c : ascii) : bool :=
  let n := nat_of_ascii c in
  (Nat.leb 48 n && Nat.leb n 57) || (Nat.leb 65 n && Nat.leb n 90) || (Nat.leb 97 n && Nat.leb n 122)
  || Ascii.eqb c "-" || Ascii.eqb c "_" || Ascii.eqb c ":".

Definition validate_id (value : string) : result unit RecoveryError :=
  guard (String.eqb value "" || (128 <? slen value) || negb (str_all is_id_char value))
    (InvalidRetention "IDs must be 1..128 ASCII letters, digits, '-', '_' or ':'; paths are not IDs").

Definition validate_text (value field : string) (max : Z) : result unit RecoveryError :=
  guard (trim_is_empty value || (max <? slen value) || has_control value) (InvalidRetention field).

(** [Path::to_str] is [None] when the path is not UTF-8. *)
Definition validate_request (path incident_id actor reason : string) : result unit RecoveryError :=
  let? _ := validate_id incident_id in
  let? _ := validate_text actor "actor" 256 in
  let? _ := validate_text reason "reason" 4096 in
  guard (negb (utf8_valid path) || String.eqb path "" || negb (is_some (file_name path))
         || existsb (fun c => bool_decide (c = ParentDir)) (components path)
         || (utf8_valid path && has_control path))
    (InvalidRetention "path must name a UTF-8 file without '..' or control characters").

(** * Pinning, inside one transaction *)

Definition pin_list (t : RetentionTables) : list RetentionPin := (map_to_list (tb_pins t)).*2.

Definition audit_entry (pin : RetentionPin) (action actor reason : string) (timestamp : Z)
    (approval : option string) : RetentionAuditEntry :=
  mkRetentionAuditEntry (pin_id pin) (pin_incident_id pin) (pin_version_id pin) (pin_path pin)
    (pin_hash pin) action actor reason timestamp approval.
Definition append_retention_audit (t : RetentionTables) (entry : RetentionAuditEntry) : RetentionTables :=
  mkRetentionTables (tb_pins t) (tb_pin_sequence t) (tb_approvals t) (tb_audit t ++ [entry]).

Definition active_pin (t : RetentionTables) (incident_id : string) (version_id : Z) : option RetentionPin :=
  List.find (fun p => String.eqb (pin_incident_id p) incident_id && (pin_version_id p =? version_id)
                      && pin_active p) (pin_list t).

Definition pin_in_transaction (t : RetentionTables) (v : BackupVersion) (incident_id actor reason : string)
    (now : Z) : result (RetentionTables * RetentionPin) RecoveryError :=
  match active_pin t incident_id (bv_id v) with
  | Some pin => Ok (t, pin)
  | None =>
      if i64_max <=? tb_pin_sequence t then Err Db
      else
        let id := tb_pin_sequence t + 1 in
        let pin := mkRetentionPin id incident_id (bv_id v) (bv_path v) (bv_hash v) actor reason now
                     None None None None in
        let t := mkRetentionTables (<[id := pin]> (tb_pins t)) id (tb_approvals t) (tb_audit t) in
        Ok (append_retention_audit t (audit_entry pin "pinned" actor reason now None), pin)
  end.

(** The loop over the versions, failing at the first error. *)
Fixpoint pin_all (t : RetentionTables) (vs : list BackupVersion) (incident_id actor reason : string)
    (now : Z) : result (RetentionTables * list RetentionPin) RecoveryError :=
  match vs with
  | [] => Ok (t, [])
  | v :: vs' =>
      let? r := pin_in_transaction t v incident_id actor reason now in
      let? r' := pin_all r.1 vs' incident_id actor reason now in
      Ok (r'.1, r.2 :: r'.2)
  end.

(** * The operations *)

(** The transaction: its tables are stored by COMMIT. *)
Definition transact {A} (st : BackupStore) (c : commit_outcome)
    (r : result (RetentionTables * A) RecoveryError) : BackupStore * result A RecoveryError :=
  match r with
  | Err e => (st, Err e)
  | Ok (t, a) => commit_to c st (with_retention st t) a
  end.

Definition pin_version (st : BackupStore) (path : string) (version_id : Z) (incident_id actor reason : string)
    (now : Z) (c : commit_outcome) : BackupStore * result RetentionPin RecoveryError :=
  transact st c
    (let? _ := validate_request path incident_id actor reason in
     let? _ := guard (version_id <=? 0) (InvalidRetention "version_id must be positive") in
     let? v := version st path version_id in
     pin_in_transaction (bk_retention st) v incident_id (str_trim actor) (str_trim reason) now).

Definition pin_known_good_before (st : BackupStore) (path : string) (before_ms : Z)
    (incident_id actor reason : string) (now : Z) (c : commit_outcome)
    : BackupStore * result (list RetentionPin) RecoveryError :=
  transact st c
    (let? _ := validate_request path incident_id actor reason in
     let? _ := guard (i64_max <? before_ms) (InvalidRetention "incident timestamp exceeds database range") in
     let? all := versions st path in
     let vs := List.filter (fun v => bv_known_good v && (bv_timestamp_ms v <? before_ms)) all in
     let? _ := guard (zlen vs =? 0) (NoTrustedVersion path) in
     pin_all (bk_retention st) vs incident_id (str_trim actor) (str_trim reason) now).

Definition retention_pins (t : RetentionTables) (incident_id : option string) (include_released : bool)
    : result (list RetentionPin) RecoveryError :=
  let? _ := match incident_id with Some id => validate_id id | None => Ok tt end in
  Ok (sort_by pin_id (List.filter (fun p => is_none_or incident_id (String.eqb (pin_incident_id p))
                                            && (include_released || pin_active p)) (pin_list t))).

Definition retention_audit (t : RetentionTables) (incident_id : option string)
    : result (list RetentionAuditEntry) RecoveryError :=
  let? _ := match incident_id with Some id => validate_id id | None => Ok tt end in
  Ok (List.filter (fun e => is_none_or incident_id (String.eqb (rae_incident_id e))) (tb_audit t)).

Definition get_pin (t : RetentionTables) (id : Z) : result RetentionPin RecoveryError :=
  ok_or (tb_pins t !! id) (NotFound "retention reference").

Definition as_release_error (e : RecoveryError) : RecoveryError :=
  match e with InvalidRetention message => InvalidReleaseApproval message | e => e end.

Definition validate_approval (t : RetentionTables) (pins : list RetentionPin) (a : ReleaseApproval)
    : result unit RecoveryError :=
  let? _ := validate_id (ra_approval_id a) in
  let? _ := validate_text (ra_approver a) "approver" 256 in
  let? _ := validate_text (ra_reason a) "approval reason" 4096 in
  let? _ := guard (existsb (fun p => String.eqb (pin_actor p) (str_trim (ra_approver a))) pins)
              (InvalidReleaseApproval "approver must differ from the original pin actor") in
  guard (is_some (tb_approvals t !! ra_approval_id a))
    (InvalidReleaseApproval "approval ID was already used").

Definition record_approval (t : RetentionTables) (pins : list RetentionPin) (a : ReleaseApproval) (now : Z)
    : result RetentionTables RecoveryError :=
  match validate_approval t pins a with
  | Err e => Err (as_release_error e)
  | Ok _ =>
      let row := mkApprovalRow (str_trim (ra_approver a)) (str_trim (ra_reason a)) now in
      Ok (mkRetentionTables (tb_pins t) (tb_pin_sequence t) (<[ra_approval_id a := row]> (tb_approvals t))
            (tb_audit t))
  end.

Definition released_pin (p : RetentionPin) (a : ReleaseApproval) (now : Z) : RetentionPin :=
  mkRetentionPin (pin_id p) (pin_incident_id p) (pin_version_id p) (pin_path p) (pin_hash p) (pin_actor p)
    (pin_reason p) (pin_pinned_at_ms p) (Some now) (Some (ra_approval_id a)) (Some (str_trim (ra_approver a)))
    (Some (str_trim (ra_reason a))).

(** UPDATE .. WHERE id = ?5 AND released_at_ms IS NULL, the audit entry and the row read back. *)
Definition release_in_transaction (t : RetentionTables) (pin : RetentionPin) (a : ReleaseApproval) (now : Z)
    : result (RetentionTables * RetentionPin) RecoveryError :=
  let update p := if pin_active p then released_pin p a now else p in
  let t := mkRetentionTables (alter update (pin_id pin) (tb_pins t)) (tb_pin_sequence t) (tb_approvals t)
             (tb_audit t) in
  let t := append_retention_audit t
             (audit_entry pin "released" (str_trim (ra_approver a)) (str_trim (ra_reason a)) now
                (Some (ra_approval_id a))) in
  let? p := get_pin t (pin_id pin) in
  Ok (t, p).

Fixpoint release_all (t : RetentionTables) (pins : list RetentionPin) (a : ReleaseApproval) (now : Z)
    : result (RetentionTables * list RetentionPin) RecoveryError :=
  match pins with
  | [] => Ok (t, [])
  | p :: pins' =>
      let? r := release_in_transaction t p a now in
      let? r' := release_all r.1 pins' a now in
      Ok (r'.1, r.2 :: r'.2)
  end.

Definition release_pin (st : BackupStore) (id : Z) (a : ReleaseApproval) (now : Z) (c : commit_outcome)
    : BackupStore * result RetentionPin RecoveryError :=
  transact st c
    (let? pin := get_pin (bk_retention st) id in
     let? _ := guard (negb (pin_active pin)) (InvalidReleaseApproval "reference has already been released") in
     let? t := record_approval (bk_retention st) [pin] a now in
     release_in_transaction t pin a now).

Definition release_incident (st : BackupStore) (incident_id : string) (a : ReleaseApproval) (now : Z)
    (c : commit_outcome) : BackupStore * result (list RetentionPin) RecoveryError :=
  transact st c
    (let? _ := validate_id incident_id in
     let? pins := retention_pins (bk_retention st) (Some incident_id) false in
     let? _ := guard (zlen pins =? 0) (NotFound "active retention for incident") in
     let? t := record_approval (bk_retention st) pins a now in
     release_all t pins a now).

(** * The store under its operations *)

Inductive StoreOp : Type :=
| OpBackup (env : BackupEnv) (path : string) (timestamp_ms pid : Z)
| OpMark (path : string) (id : Z) (note : string) (written : bool)
| OpRevoke (path : string) (id : Z) (note : string) (written : bool)
| OpTest (path : string) (before_ms : option Z) (scratch : option string) (now : Z) (written : bool)
| OpPrune (keep : Z) (removable : string -> bool) (c : commit_outcome)
| OpPin (path : string) (id : Z) (incident actor reason : string) (now : Z) (c : commit_outcome)
| OpPinGood (path : string) (before_ms : Z) (incident actor reason : string) (now : Z) (c : commit_outcome)
| OpReleasePin (id : Z) (a : ReleaseApproval) (now : Z) (c : commit_outcome)
| OpReleaseIncident (incident : string) (a : ReleaseApproval) (now : Z) (c : commit_outcome).

Section Run.
Context `{Hash : ContentHash}.

Definition store_step (st : BackupStore) (op : StoreOp) : BackupStore :=
  match op with
  | OpBackup env path ts pid => (backup st env path ts pid).1
  | OpMark path id note written => (mark_known_good st path id note written).1
  | OpRevoke path id note written => (revoke_known_good st path id note written).1
  | OpTest path before scratch now written => (test_restore st path before scratch now written).1
  | OpPrune keep removable c => (prune st keep removable c).1
  | OpPin path id incident actor reason now c => (pin_version st path id incident actor reason now c).1
  | OpPinGood path before incident actor reason now c =>
      (pin_known_good_before st path before incident actor reason now c).1
  | OpReleasePin id a now c => (release_pin st id a now c).1
  | OpReleaseIncident incident a now c => (release_incident st incident a now c).1
  end.

Definition store_run (st : BackupStore) (ops : list StoreOp) : BackupStore := fold_left store_step ops st.

End Run.

(** * The tables *)

Lemma pin_list_elem (t : RetentionTables) (p : RetentionPin) :
  p ∈ pin_list t <-> exists id, tb_pins t !! id = Some p.
Proof.
  unfold pin_list. rewrite list_elem_of_fmap. split.
  - intros ([id p'] & -> & Hin%elem_of_map_to_list). by exists id.
  - intros [id Hp]. exists (id, p). by rewrite elem_of_map_to_list.
Qed.

Lemma pinned_spec (t : RetentionTables) (vid : Z) :
  pinned t vid = true <->
  exists id p, tb_pins t !! id = Some p /\ pin_version_id p = vid /\ pin_active p = true.
Proof.
  unfold pinned. rewrite existsb_exists. split.
  - intros ([id p] & Hin & [Hv%Z.eqb_eq Ha]%andb_true_iff). apply list_elem_of_In, elem_of_map_to_list in Hin.
    by exists id, p.
  - intros (id & p & Hp & Hv & Ha). exists (id, p). split; [by apply list_elem_of_In, elem_of_map_to_list|].
    apply andb_true_iff. split; [by apply Z.eqb_eq|done].
Qed.

(** What the audit must say about a pin. *)
Definition pin_history (p : RetentionPin) : list RetentionAuditEntry :=
  audit_entry p "pinned" (pin_actor p) (pin_reason p) (pin_pinned_at_ms p) None ::
  match pin_released_at_ms p, pin_released_by p, pin_release_reason p with
  | Some at_ms, Some by_whom, Some reason =>
      [audit_entry p "released" by_whom reason at_ms (pin_release_approval_id p)]
  | _, _, _ => []
  end.
Definition audit_of (t : RetentionTables) (id : Z) : list RetentionAuditEntry :=
  List.filter (fun e => rae_pin_id e =? id) (tb_audit t).

(** The release of a pin names a recorded approval of someone else. *)
Definition approved_release (t : RetentionTables) (p : RetentionPin) : Prop :=
  match pin_released_at_ms p with
  | None => pin_release_approval_id p = None /\ pin_released_by p = None /\ pin_release_reason p = None
  | Some _ =>
      exists approval row, pin_release_approval_id p = Some approval
      /\ tb_approvals t !! approval = Some row
      /\ pin_released_by p = Some (apr_approver row) /\ pin_release_reason p = Some (apr_reason row)
      /\ apr_approver row <> pin_actor p
  end.

Record tables_sound (vs : gmap Z BackupVersion) (t : RetentionTables) : Prop := mkTablesSound {
  ts_sequence : 0 <= tb_pin_sequence t;
  ts_ids : forall id p, tb_pins t !! id = Some p -> pin_id p = id /\ 0 < id <= tb_pin_sequence t;
  ts_rows : forall id p, tb_pins t !! id = Some p -> pin_active p = true ->
    exists v, vs !! pin_version_id p = Some v /\ bv_path v = pin_path p /\ bv_hash v = pin_hash p;
  ts_unique : forall i j p q, tb_pins t !! i = Some p -> tb_pins t !! j = Some q ->
    pin_active p = true -> pin_active q = true -> pin_incident_id p = pin_incident_id q ->
    pin_version_id p = pin_version_id q -> i = j;
  ts_releases : forall id p, tb_pins t !! id = Some p -> approved_release t p;
  ts_audit : forall id,
    audit_of t id = match tb_pins t !! id with Some p => pin_history p | None => [] end;
}.

(** What no transaction undoes. *)
Record tables_evolve (t t' : RetentionTables) : Prop := mkTablesEvolve {
  te_pins : forall id p, tb_pins t !! id = Some p ->
    tb_pins t' !! id = Some p
    \/ pin_active p = true /\ exists a now, tb_pins t' !! id = Some (released_pin p a now);
  te_approvals : tb_approvals t ⊆ tb_approvals t';
  te_audit : tb_audit t `prefix_of` tb_audit t';
}.

#[export] Instance tables_evolve_preorder : PreOrder tables_evolve.
Proof.
  split.
  - intros t. split; auto.
  - intros t1 t2 t3 [P1 A1 U1] [P2 A2 U2]. split; [|by etrans|by etrans].
    intros id p [Hp|(Ha & a & now & Hp)]%P1; [by apply P2|].
    right. split; [done|]. exists a, now. by apply P2 in Hp as [|[? _]].
Qed.

Lemma active_pin_Some (t : RetentionTables) (incident : string) (vid : Z) (p : RetentionPin) :
  active_pin t incident vid = Some p ->
  (exists id, tb_pins t !! id = Some p) /\ pin_incident_id p = incident /\ pin_version_id p = vid
  /\ pin_active p = true.
Proof.
  unfold active_pin. intros [Hin Hp]%List.find_some.
  apply andb_true_iff in Hp as [[Hi%String.eqb_eq Hv%Z.eqb_eq]%andb_true_iff Ha].
  apply list_elem_of_In, pin_list_elem in Hin. done.
Qed.

Lemma active_pin_None (t : RetentionTables) (incident : string) (vid id : Z) (p : RetentionPin) :
  active_pin t incident vid = None -> tb_pins t !! id = Some p -> pin_active p = true ->
  pin_incident_id p = incident -> pin_version_id p = vid -> False.
Proof.
  unfold active_pin. intros Hf Hp Ha <- <-.
  assert (Hin : In p (pin_list t)) by (apply list_elem_of_In, pin_list_elem; eauto).
  apply (List.find_none _ _ Hf) in Hin. by rewrite String.eqb_refl, Z.eqb_refl, Ha in Hin.
Qed.

Lemma audit_of_append (t : RetentionTables) (e : RetentionAuditEntry) (id : Z) :
  audit_of (append_retention_audit t e) id =
  audit_of t id ++ (if rae_pin_id e =? id then [e] else []).
Proof. unfold audit_of, append_retention_audit. cbn. by rewrite List.filter_app; cbn; destruct (_ =? _). Qed.

Section Tables.
Context (vs : gmap Z BackupVersion).

Lemma pin_in_transaction_ok (t t' : RetentionTables) (v : BackupVersion) (incident actor reason : string)
    (now : Z) (pin : RetentionPin) :
  tables_sound vs t -> vs !! bv_id v = Some v ->
  pin_in_transaction t v incident actor reason now = Ok (t', pin) ->
  tables_sound vs t' /\ tables_evolve t t'
  /\ tb_pins t' !! pin_id pin = Some pin /\ pin_incident_id pin = incident /\ pin_version_id pin = bv_id v
  /\ pin_active pin = true.
Proof.
  intros Hs Hv. unfold pin_in_transaction. destruct (active_pin t incident (bv_id v)) as [p|] eqn:E.
  { intros [= <- <-]. apply active_pin_Some in E as ((id & Hid) & Hi & Hvid & Ha).
    destruct (ts_ids _ _ Hs _ _ Hid) as [<- _]. split_and!; done. }
  destruct (_ <=? _); [done|]. cbn zeta. set (new := mkRetentionPin _ _ _ _ _ _ _ _ _ _ _ _).
  intros [= <- <-]. destruct Hs as [Hq Hids Hrows Huniq Hrel Haud].
  assert (Hfresh : tb_pins t !! (tb_pin_sequence t + 1) = None).
  { destruct (tb_pins t !! _) eqn:Ef; [|done]. apply Hids in Ef. lia. }
  split_and!; try done; [split| |by cbn; rewrite lookup_insert_eq]; cbn [tb_pins tb_pin_sequence append_retention_audit].
  - lia.
  - intros id p [[<- <-]|[_ Hp]]%lookup_insert_Some; [cbn; lia|]. apply Hids in Hp. lia.
  - intros id p [[<- <-]|[_ Hp]]%lookup_insert_Some; [intros _; by exists v|by apply (Hrows id)].
  - intros i j p q [[<- <-]|[Hni Hp]]%lookup_insert_Some [[<- <-]|[Hnj Hq']]%lookup_insert_Some Hap Haq Hi Hvid;
      [done| | |by eapply Huniq]; exfalso; cbn in *.
    + by eapply (active_pin_None t incident (bv_id v) j q).
    + by eapply (active_pin_None t incident (bv_id v) i p).
  - intros id p [[<- <-]|[_ Hp]]%lookup_insert_Some; [done|by apply Hrel in Hp].
  - intros id. rewrite audit_of_append. cbn [rae_pin_id audit_entry pin_id new].
    change (audit_of (mkRetentionTables _ _ _ (tb_audit t)) id) with (audit_of t id). rewrite Haud.
    destruct (Z.eqb_spec (tb_pin_sequence t + 1) id) as [<-|Hne].
    + by rewrite Hfresh, lookup_insert_eq.
    + by rewrite lookup_insert_ne, app_nil_r.
  - split; cbn; [|done|by apply prefix_app_r].
    intros id p Hp. left. rewrite lookup_insert_ne; [done|congruence].
Qed.

Lemma pin_all_ok (incident actor reason : string) (now : Z) (l : list BackupVersion) :
  forall (t t' : RetentionTables) (pins : list RetentionPin),
  tables_sound vs t -> Forall (fun v => vs !! bv_id v = Some v) l ->
  pin_all t l incident actor reason now = Ok (t', pins) ->
  tables_sound vs t' /\ tables_evolve t t'
  /\ Forall2 (fun v p => pin_version_id p = bv_id v /\ pin_incident_id p = incident) l pins
  /\ (forall id p, tb_pins t !! id = Some p -> tb_pins t' !! id = Some p)
  /\ Forall (fun p => tb_pins t' !! pin_id p = Some p /\ pin_active p = true) pins.
Proof.
  induction l as [|v l IH]; intros t t' pins Hs Hl; cbn.
  { intros [= <- <-]. by split_and!. }
  apply Forall_cons in Hl as [Hv Hl].
  intros ([t1 p] & H1 & ([t2 ps] & H2 & [= <- <-])%res_bind_Ok)%res_bind_Ok. cbn [fst snd] in *.
  assert (Hk : forall id q, tb_pins t !! id = Some q -> tb_pins t1 !! id = Some q).
  { revert H1. unfold pin_in_transaction. destruct (active_pin _ _ _); [by intros [= <- _]|].
    destruct (_ <=? _) eqn:El; [done|]. intros [= <- _] id q Hq. cbn. rewrite lookup_insert_ne; [done|].
    intros <-. apply (ts_ids _ _ Hs) in Hq. lia. }
  destruct (pin_in_transaction_ok _ _ _ _ _ _ _ _ Hs Hv H1) as (Hs1 & He1 & Hp & Hi & Hvid & Ha).
  destruct (IH _ _ _ Hs1 Hl H2) as (Hs2 & He2 & Hf & Hk2 & Hall).
  split_and!; [done|by etrans|by constructor|by auto|constructor; auto].
Qed.

Lemma approved_release_mono (t t' : RetentionTables) (p : RetentionPin) :
  tb_approvals t ⊆ tb_approvals t' -> approved_release t p -> approved_release t' p.
Proof.
  unfold approved_release. intros Hsub. destruct (pin_released_at_ms p); [|done].
  intros (i & row & H1 & H2 & H3). exists i, row. split; [done|]. split; [by eapply lookup_weaken|done].
Qed.

(** The approval [a] has been recorded, and it is not by the author of [p]. *)
Definition approves (t : RetentionTables) (a : ReleaseApproval) (p : RetentionPin) : Prop :=
  str_trim (ra_approver a) <> pin_actor p
  /\ exists ts, tb_approvals t !! ra_approval_id a =
       Some (mkApprovalRow (str_trim (ra_approver a)) (str_trim (ra_reason a)) ts).

Lemma record_approval_ok (t t' : RetentionTables) (pins : list RetentionPin) (a : ReleaseApproval) (now : Z) :
  record_approval t pins a now = Ok t' ->
  tb_approvals t !! ra_approval_id a = None
  /\ tb_pins t' = tb_pins t /\ Forall (approves t' a) pins
  /\ tables_evolve t t' /\ (tables_sound vs t -> tables_sound vs t').
Proof.
  unfold record_approval. destruct (validate_approval t pins a) as [[]|e] eqn:E; [|done]. intros [= <-].
  unfold validate_approval in E.
  apply res_bind_Ok in E as ([] & _ & ([] & _ & ([] & _ & E)%res_bind_Ok)%res_bind_Ok).
  apply guard_bind_Ok in E as [Hact E]. apply guard_Ok in E.
  assert (Hn : tb_approvals t !! ra_approval_id a = None) by (by destruct (_ !! _)).
  assert (Hsub : tb_approvals t ⊆ <[ra_approval_id a := mkApprovalRow (str_trim (ra_approver a))
    (str_trim (ra_reason a)) now]> (tb_approvals t)) by by apply insert_subseteq.
  split_and!; [done|done| |by split; auto|].
  - apply Forall_forall. intros p Hp. split; [|exists now; cbn; apply lookup_insert_eq].
    apply existsb_false_Forall in Hact. rewrite Forall_forall in Hact. specialize (Hact p Hp).
    apply String.eqb_neq in Hact. congruence.
  - intros [H1 H2 H3 H4 H5 H6]. split; try done. intros id p Hp. eapply approved_release_mono; [done|].
    by eapply H5.
Qed.

Lemma released_pin_inactive (p : RetentionPin) (a : ReleaseApproval) (now : Z) :
  pin_active (released_pin p a now) = false.
Proof. done. Qed.

Lemma release_in_transaction_ok (t t' : RetentionTables) (pin q : RetentionPin) (a : ReleaseApproval) (now : Z) :
  tb_pins t !! pin_id pin = Some pin -> pin_active pin = true ->
  release_in_transaction t pin a now = Ok (t', q) ->
  q = released_pin pin a now /\ tb_pins t' = <[pin_id pin := q]> (tb_pins t)
  /\ tb_approvals t' = tb_approvals t /\ tables_evolve t t'
  /\ (approves t a pin -> tables_sound vs t -> tables_sound vs t').
Proof.
  intros Hp Ha. unfold release_in_transaction. cbn zeta.
  assert (Hup : alter (fun p => if pin_active p then released_pin p a now else p) (pin_id pin) (tb_pins t)
    = <[pin_id pin := released_pin pin a now]> (tb_pins t)).
  { apply map_eq. intros i. destruct (decide (pin_id pin = i)) as [<-|].
    - by rewrite lookup_alter_eq, lookup_insert_eq, Hp; cbn; rewrite Ha.
    - by rewrite lookup_alter_ne, lookup_insert_ne. }
  rewrite Hup. clear Hup. unfold get_pin. cbn [tb_pins append_retention_audit].
  rewrite lookup_insert_eq. cbn [ok_or res_bind]. intros [= <- <-]. cbn. split_and!; try done.
  - split; cbn; [|done|by apply prefix_app_r]. intros id p Hid.
    destruct (decide (pin_id pin = id)) as [<-|]; [|left; by rewrite lookup_insert_ne].
    right. rewrite Hp in Hid. injection Hid as <-. split; [done|]. exists a, now. by rewrite lookup_insert_eq.
  - intros [Hne [ts Hts]] [H1 H2 H3 H4 H5 H6].
    split; cbn [tb_pins tb_pin_sequence append_retention_audit]; [done|..].
    + intros id p [[<- <-]|[_ Hid]]%lookup_insert_Some; [cbn; by apply H2|by apply H2].
    + intros id p [[<- <-]|[_ Hid]]%lookup_insert_Some; [done|by apply (H3 id)].
    + intros i j p q [[<- <-]|[_ Hi]]%lookup_insert_Some [[<- <-]|[_ Hj]]%lookup_insert_Some; try done.
      by eapply H4.
    + intros id p [[<- <-]|[_ Hid]]%lookup_insert_Some; [|by apply (H5 id)].
      exists (ra_approval_id a), (mkApprovalRow (str_trim (ra_approver a)) (str_trim (ra_reason a)) ts).
      by split_and!.
    + intros id. rewrite audit_of_append. cbn [rae_pin_id audit_entry].
      change (audit_of (mkRetentionTables _ _ _ (tb_audit t)) id) with (audit_of t id). rewrite H6.
      destruct (Z.eqb_spec (pin_id pin) id) as [<-|]; [|by rewrite lookup_insert_ne, app_nil_r].
      rewrite Hp, lookup_insert_eq. unfold pin_history. cbn.
      unfold pin_active in Ha. destruct (pin_released_at_ms pin); done.
Qed.

Lemma release_all_ok (a : ReleaseApproval) (now : Z) (l : list RetentionPin) :
  forall (t t' : RetentionTables) (pins : list RetentionPin),
  NoDup (map pin_id l) -> Forall (fun p => tb_pins t !! pin_id p = Some p /\ pin_active p = true) l ->
  release_all t l a now = Ok (t', pins) ->
  tb_approvals t' = tb_approvals t /\ tables_evolve t t'
  /\ (forall id p, tb_pins t !! id = Some p ->
        tb_pins t' !! id = Some p \/ p ∈ l /\ tb_pins t' !! id = Some (released_pin p a now))
  /\ (Forall (approves t a) l -> tables_sound vs t -> tables_sound vs t').
Proof.
  induction l as [|p l IH]; intros t t' pins Hnd Hl; cbn.
  { intros [= <- <-]. by split_and!; auto. }
  cbn in Hnd. apply NoDup_cons in Hnd as [Hnin Hnd]. apply Forall_cons in Hl as [[Hp Ha] Hl].
  intros ([t1 q] & H1 & ([t2 qs] & H2 & [= <- <-])%res_bind_Ok)%res_bind_Ok. cbn [fst snd] in *.
  destruct (release_in_transaction_ok _ _ _ _ _ _ Hp Ha H1) as (-> & Hp1 & Ha1 & He1 & Hs1).
  destruct (IH t1 t2 qs Hnd) as (Ha2 & He2 & Hp2 & Hs2); [|done|].
  { rewrite Hp1. rewrite Forall_forall in Hl |- *. intros u Hu. destruct (Hl u Hu) as [Hu1 Hu2].
    split; [|done]. rewrite lookup_insert_ne; [done|]. intros He. apply Hnin. rewrite He.
    apply list_elem_of_fmap. by exists u. }
  split_and!; [congruence|by etrans| |].
  - intros id u Hu. destruct (decide (pin_id p = id)) as [<-|Hne].
    + rewrite Hp in Hu. injection Hu as <-. right. split; [by left|].
      destruct (te_pins _ _ He2 (pin_id p) (released_pin p a now)) as [|[? _]]; [|done..].
      rewrite Hp1. apply lookup_insert_eq.
    + destruct (Hp2 id u) as [|[? ?]]; [rewrite Hp1; by rewrite lookup_insert_ne|by left|].
      right. split; [by right|done].
  - intros [Hap Happ]%Forall_cons Hs. apply Hs2; [|by apply Hs1].
    eapply Forall_impl; [done|]. intros u [? ?]. split; [done|]. by rewrite Ha1.
Qed.

End Tables.

(** * The store as a whole *)

Section States.
Context `{Hash : ContentHash}.

Definition state_ok (st : BackupStore) : Prop :=
  store_sound st /\ tables_sound (bk_versions st) (bk_retention st).

(** What every operation guarantees. *)
Definition step_ok (st st' : BackupStore) : Prop :=
  state_ok st' /\ keeps st st' /\ tables_evolve (bk_retention st) (bk_retention st').

Lemma state_new_ok (limit : Z) : state_ok (BackupStore_new limit).
Proof. split; [apply store_new_sound|by split]. Qed.

(** Tables stay sound when every protected version is kept. *)
Lemma tables_sound_keeps (st st' : BackupStore) :
  state_ok st -> keeps st st' -> bk_retention st' = bk_retention st ->
  tables_sound (bk_versions st') (bk_retention st').
Proof.
  intros [Hs [H1 H2 H3 H4 H5 H6]] Hk ->. split; try done. intros id p Hp Ha.
  destruct (H3 id p Hp Ha) as (v & Hv & Hpath & Hhash).
  destruct (Hk _ _ Hv) as (v' & Hv' & (_ & Hp' & Hh' & _)%same_version_fields & _); [|exists v'; by rewrite Hp', Hh'].
  right. apply pinned_spec. exists id, p. split_and!; try done. by destruct (ss_rows _ Hs _ _ Hv) as [-> _].
Qed.

Lemma step_ok_keeps (st st' : BackupStore) :
  state_ok st -> store_sound st' -> keeps st st' -> bk_retention st' = bk_retention st -> step_ok st st'.
Proof.
  intros Hok Hs Hk Hr. split; [split; [done|by eapply tables_sound_keeps]|]. split; [done|by rewrite Hr].
Qed.

Lemma step_ok_extends (st st' : BackupStore) :
  state_ok st -> store_sound st' /\ extends st st' -> step_ok st st'.
Proof. intros Hok [Hs Hx]. apply step_ok_keeps; auto using extends_keeps, ex_retention. Qed.

Lemma step_ok_tables (st : BackupStore) (t : RetentionTables) :
  state_ok st -> tables_sound (bk_versions st) t -> tables_evolve (bk_retention st) t ->
  step_ok st (with_retention st t).
Proof.
  intros [Hs Ht] Ht' He. split; [by split; [apply with_retention_sound|]|]. split; [|done].
  intros id v Hv _. exists v. auto with argos.
Qed.

(** A transaction stores its tables or leaves the store as it was. *)
Lemma transact_cases {A} (st : BackupStore) (c : commit_outcome)
    (r : result (RetentionTables * A) RecoveryError) :
  (transact st c r).1 = st
  \/ exists t a, r = Ok (t, a) /\ (transact st c r).1 = with_retention st t.
Proof. destruct r as [[t a]|e]; [|by left]. destruct c as [|[]]; cbn; eauto. Qed.

Lemma transact_step_ok {A} (st : BackupStore) (c : commit_outcome)
    (r : result (RetentionTables * A) RecoveryError) :
  state_ok st ->
  (forall t a, r = Ok (t, a) -> tables_sound (bk_versions st) t /\ tables_evolve (bk_retention st) t) ->
  step_ok st (transact st c r).1.
Proof.
  intros Hok Hr. destruct (transact_cases st c r) as [-> | (t & a & Ha & ->)].
  - apply step_ok_extends; [done|]. split; [apply Hok|apply extends_refl].
  - destruct (Hr t a Ha). by apply step_ok_tables.
Qed.

Lemma row_by_id (st : BackupStore) (path : string) (id : Z) (v : BackupVersion) :
  store_sound st -> version st path id = Ok v -> bk_versions st !! bv_id v = Some v.
Proof. intros Hs (Hv & _)%version_Ok. by destruct (ss_rows _ Hs _ _ Hv) as [-> _]. Qed.

(** The pins [release_incident] selects. *)
Lemma retention_pins_active (t : RetentionTables) (vs : gmap Z BackupVersion) (incident : string)
    (pins : list RetentionPin) :
  tables_sound vs t -> retention_pins t (Some incident) false = Ok pins ->
  NoDup (map pin_id pins)
  /\ (forall p, p ∈ pins <-> tb_pins t !! pin_id p = Some p /\ pin_active p = true
        /\ pin_incident_id p = incident).
Proof.
  intros Hs (_ & _ & [= <-])%res_bind_Ok. set (l := List.filter _ _).
  assert (Hl : forall p, p ∈ l <-> tb_pins t !! pin_id p = Some p /\ pin_active p = true
    /\ pin_incident_id p = incident).
  { intros p. unfold l. rewrite filter_elem, pin_list_elem, andb_true_iff. cbn. rewrite String.eqb_eq. split.
    - intros [[id Hid] [? ?]]. destruct (ts_ids _ _ Hs _ _ Hid) as [-> _]. done.
    - intros (Hp & ? & ?). eauto. }
  split; [|intros p; by rewrite sort_by_perm, Hl].
  assert (Hnd : NoDup l).
  { unfold l. apply NoDup_ListNoDup, List.NoDup_filter, NoDup_ListNoDup. unfold pin_list.
    apply NoDup_fmap_2_strong; [|apply NoDup_map_to_list].
    intros [i p] [j q] Hi%elem_of_map_to_list Hj%elem_of_map_to_list. cbn. intros <-.
    destruct (ts_ids _ _ Hs _ _ Hi) as [<- _]. by destruct (ts_ids _ _ Hs _ _ Hj) as [<- _]. }
  assert (Hnd' : NoDup (map pin_id l)).
  { apply NoDup_fmap_2_strong; [|done]. intros p q (Hp & _)%Hl (Hq & _)%Hl He. congruence. }
  by rewrite (Permutation_map pin_id (sort_by_perm pin_id l)).
Qed.

Lemma pin_version_step (st : BackupStore) path id incident actor reason now c :
  state_ok st -> step_ok st (pin_version st path id incident actor reason now c).1.
Proof.
  intros Hok. apply transact_step_ok; [done|]. intros t p.
  intros (_ & _ & [_ (v & Hv & Hp)%res_bind_Ok]%guard_bind_Ok)%res_bind_Ok.
  apply row_by_id in Hv; [|apply Hok]. eapply pin_in_transaction_ok in Hp; [|apply Hok|done]. naive_solver.
Qed.

Lemma trusted_rows (st : BackupStore) (path : string) (q : BackupVersion -> bool) (vs : list BackupVersion) :
  store_sound st -> versions st path = Ok vs ->
  Forall (fun v => bk_versions st !! bv_id v = Some v) (List.filter q vs).
Proof.
  intros Hs (_ & Hin & _)%versions_Ok. apply Forall_forall.
  intros v [[[id Hid] _]%Hin _]%filter_elem. by destruct (ss_rows _ Hs _ _ Hid) as [-> _].
Qed.

Lemma pin_known_good_before_step (st : BackupStore) path before incident actor reason now c :
  state_ok st -> step_ok st (pin_known_good_before st path before incident actor reason now c).1.
Proof.
  intros Hok. apply transact_step_ok; [done|]. intros t pins.
  intros (_ & _ & [_ (vs & Hv & [_ Hp]%guard_bind_Ok)%res_bind_Ok]%guard_bind_Ok)%res_bind_Ok.
  eapply pin_all_ok in Hp; [naive_solver|apply Hok|]. eapply trusted_rows; [apply Hok|done].
Qed.

(** What a release does when it does anything. *)
Lemma release_pin_ok (st : BackupStore) (id : Z) (a : ReleaseApproval) (now : Z) (c : commit_outcome) :
  state_ok st ->
  let st' := (release_pin st id a now c).1 in
  step_ok st st'
  /\ (forall i p, tb_pins (bk_retention st) !! i = Some p ->
        tb_pins (bk_retention st') !! i = Some p
        \/ i = id /\ tb_pins (bk_retention st') !! i = Some (released_pin p a now)
           /\ tb_approvals (bk_retention st) !! ra_approval_id a = None
           /\ approves (bk_retention st') a p).
Proof.
  intros [Hs Ht]. cbn zeta. unfold release_pin.
  match goal with |- context [transact st c ?r] => set (tr := r); destruct (transact_cases st c tr) as
    [-> | (t & q & Hr & ->)] end.
  { split; [|by left]. apply step_ok_extends; [done|]. split; [done|apply extends_refl]. }
  subst tr. apply res_bind_Ok in Hr as (pin & Hp%ok_or_Ok & [Ha Hr]%guard_bind_Ok). split_bools.
  apply res_bind_Ok in Hr as (t1 & Hrec & Hrel).
  destruct (ts_ids _ _ Ht _ _ Hp) as [Hid _].
  destruct (record_approval_ok (bk_versions st) _ _ _ _ _ Hrec) as (Hnone & Hpins & Happ & He1 & Hs1).
  apply Forall_cons in Happ as [Happ _].
  assert (Hp1 : tb_pins t1 !! pin_id pin = Some pin) by by rewrite Hpins, Hid.
  destruct (release_in_transaction_ok (bk_versions st) _ _ _ _ _ _ Hp1 Ha Hrel) as (-> & Hpins' & Ha' & He2 & Hs2).
  split; [apply step_ok_tables; [by split|by auto|by etrans]|]. intros i p Hi. cbn [bk_retention with_retention].
  rewrite Hpins', Hpins, Hid. destruct (decide (id = i)) as [<-|]; [|left; by rewrite lookup_insert_ne].
  rewrite Hp in Hi. injection Hi as <-. right. rewrite lookup_insert_eq. split_and!; try done.
  destruct Happ as [? ?]. split; [done|]. by rewrite Ha'.
Qed.

Lemma release_incident_ok (st : BackupStore) (incident : string) (a : ReleaseApproval) (now : Z)
    (c : commit_outcome) :
  state_ok st ->
  let st' := (release_incident st incident a now c).1 in
  step_ok st st'
  /\ (forall i p, tb_pins (bk_retention st) !! i = Some p ->
        tb_pins (bk_retention st') !! i = Some p
        \/ pin_incident_id p = incident /\ tb_pins (bk_retention st') !! i = Some (released_pin p a now)
           /\ tb_approvals (bk_retention st) !! ra_approval_id a = None
           /\ approves (bk_retention st') a p).
Proof.
  intros [Hs Ht]. cbn zeta. unfold release_incident.
  match goal with |- context [transact st c ?r] => set (tr := r); destruct (transact_cases st c tr) as
    [-> | (t & q & Hr & ->)] end.
  { split; [|by left]. apply step_ok_extends; [done|]. split; [done|apply extends_refl]. }
  subst tr. apply res_bind_Ok in Hr as (_ & _ & (pins & Hp & [_ (t1 & Hrec & Hrel)%res_bind_Ok]%guard_bind_Ok)%res_bind_Ok).
  destruct (retention_pins_active _ _ _ _ Ht Hp) as [Hnd Hin].
  destruct (record_approval_ok (bk_versions st) _ _ _ _ _ Hrec) as (Hnone & Hpins & Happ & He1 & Hs1).
  assert (Hl : Forall (fun p => tb_pins t1 !! pin_id p = Some p /\ pin_active p = true) pins).
  { apply Forall_forall. intros p (? & ? & ?)%Hin. by rewrite Hpins. }
  destruct (release_all_ok (bk_versions st) _ _ _ _ _ _ Hnd Hl Hrel) as (Ha' & He2 & Hrls & Hs2).
  split; [apply step_ok_tables; [by split|by auto|by etrans]|]. intros i p Hi. cbn [bk_retention with_retention].
  rewrite Hpins in Hrls. destruct (Hrls i p Hi) as [|[Hpin Hp']]; [by left|]. right.
  split_and!; try done; [by apply Hin in Hpin as (_ & _ & ?)|].
  rewrite Forall_forall in Happ. destruct (Happ p Hpin) as [? ?]. split; [done|]. by rewrite Ha'.
Qed.

Lemma store_step_ok (st : BackupStore) (op : StoreOp) : state_ok st -> step_ok st (store_step st op).
Proof.
  intros Hok. assert (Hs := proj1 Hok). destruct op; cbn [store_step].
  - by apply step_ok_extends, backup_extends.
  - destruct (mark_known_good_ok st path id note written Hs). apply step_ok_keeps; try done.
    unfold mark_known_good. by destruct (res_bind _ _).
  - destruct (revoke_known_good_ok st path id note written Hs). apply step_ok_keeps; try done.
    unfold revoke_known_good. by destruct (res_bind _ _).
  - by apply step_ok_extends, test_restore_ok.
  - apply step_ok_keeps; auto using prune_sound, prune_keeps. apply prune_parts.
  - by apply pin_version_step.
  - by apply pin_known_good_before_step.
  - by apply release_pin_ok.
  - by apply release_incident_ok.
Qed.

Lemma store_run_ok (st : BackupStore) (ops : list StoreOp) :
  state_ok st -> state_ok (store_run st ops) /\ tables_evolve (bk_retention st) (bk_retention (store_run st ops)).
Proof.
  revert st. induction ops as [|op ops IH]; intros st Hok; [done|]. cbn.
  destruct (store_step_ok st op Hok) as (Hok1 & _ & He1). destruct (IH _ Hok1) as [Hok2 He2].
  split; [done|by etrans].
Qed.

Lemma released_stays (st : BackupStore) (ops : list StoreOp) (id : Z) (p p' : RetentionPin) :
  state_ok st -> tb_pins (bk_retention st) !! id = Some p ->
  tb_pins (bk_retention (store_run st ops)) !! id = Some p' -> pin_active p' = true -> p' = p.
Proof.
  intros Hok Hp Hp' Ha. destruct (te_pins _ _ (proj2 (store_run_ok st ops Hok)) id p Hp)
    as [|(_ & a & now & Hr)]; [congruence|].
  rewrite Hp' in Hr. injection Hr as ->. done.
Qed.

Lemma evidence_run (ops : list StoreOp) : forall (st : BackupStore) (id : Z) (p : RetentionPin) (v : BackupVersion),
  state_ok st -> tb_pins (bk_retention st) !! id = Some p -> bk_versions st !! pin_version_id p = Some v ->
  tb_pins (bk_retention (store_run st ops)) !! id = Some p -> pin_active p = true ->
  exists v', bk_versions (store_run st ops) !! pin_version_id p = Some v' /\ same_version v v'
    /\ forall b, bk_objects st !! bv_hash v = Some b -> bk_objects (store_run st ops) !! bv_hash v = Some b.
Proof.
  induction ops as [|op ops IH]; intros st id p v Hok Hp Hv Hend Ha.
  { exists v. auto using same_version_refl. }
  destruct (store_step_ok st op Hok) as (Hok1 & Hk & He). cbn in *.
  assert (Hp1 : tb_pins (bk_retention (store_step st op)) !! id = Some p).
  { destruct (te_pins _ _ He id p Hp) as [|(_ & a & now & Hr)]; [done|].
    by rewrite (released_stays _ ops _ _ _ Hok1 Hr Hend Ha) in Ha. }
  destruct (Hk _ _ Hv) as (v1 & Hv1 & Hs1 & Ho1).
  { right. apply pinned_spec. exists id, p. split_and!; try done.
    by destruct (ss_rows _ (proj1 Hok) _ _ Hv) as [-> _]. }
  destruct (IH _ _ _ _ Hok1 Hp1 Hv1 Hend Ha) as (v2 & Hv2 & Hs2 & Ho2).
  exists v2. split; [done|]. split; [by eapply same_version_trans|]. intros b Hb%Ho1.
  apply same_version_fields in Hs1 as (_ & _ & Hh & _). rewrite Hh in Ho2. auto.
Qed.

(** Timestamps that fit the column. *)
Definition op_in_range (op : StoreOp) : Prop :=
  match op with OpBackup _ _ ts _ => 0 <= ts <= i64_max | _ => True end.
Definition all_decode (st : BackupStore) : Prop :=
  forall id v, bk_versions st !! id = Some v -> decodes v = true.

Lemma backup_decodes (st : BackupStore) (env : BackupEnv) (path : string) (ts pid : Z) :
  0 <= ts <= i64_max -> all_decode st -> all_decode (backup st env path ts pid).1.
Proof.
  intros Hts Hd. unfold backup.
  assert (Htl : forall size, all_decode (too_large st env path size).1)
    by (intros size; unfold too_large; by destruct (be_status env)).
  destruct (be_metadata env) as [[[] len]|]; [|done..].
  destruct (_ <? len); [done|]. destruct (be_bytes env) as [bytes|]; [|done]. cbn zeta.
  destruct (_ <? slen _); [done|]. generalize (str_take (sat_add (bk_max_file_bytes st) 1) bytes). intros data.
  unfold backup_data. case_bool_decide; [done|]. destruct (negb _ && _); [done|]. cbn zeta.
  set (st1 := if is_some _ then _ else _).
  assert (Hd1 : all_decode st1) by (subst st1; by destruct (is_some _)).
  unfold insert_version. destruct (_ <=? _); [done|].
  apply (commit_with_cases all_decode); [done|]. intros id v. cbn.
  intros [[<- <-]|[_ Hv]]%lookup_insert_Some; [|by eapply Hd1]. unfold decodes, as_i64. cbn.
  destruct (Z.leb_spec ts i64_max); [|lia]. apply andb_true_iff. rewrite !Z.leb_le. unfold slen. lia.
Qed.

Lemma transact_decodes {A} (st : BackupStore) (c : commit_outcome)
    (r : result (RetentionTables * A) RecoveryError) :
  all_decode st -> all_decode (transact st c r).1.
Proof. intros Hd. by destruct (transact_cases st c r) as [-> | (t & a & _ & ->)]. Qed.

Lemma step_decodes (st : BackupStore) (op : StoreOp) :
  op_in_range op -> all_decode st -> all_decode (store_step st op).
Proof.
  intros Hr Hd.
  assert (Hu : forall id good note, all_decode (update_trust st id good note)).
  { intros id good note id' v. rewrite update_trust_lookup. case_decide; [|apply Hd].
    intros (u & Hu & ->)%fmap_Some_1. exact (Hd _ _ Hu). }
  destruct op; cbn [store_step op_in_range] in *.
  - by apply backup_decodes.
  - unfold mark_known_good. destruct (res_bind _ _); [apply Hu|done].
  - unfold revoke_known_good. destruct (res_bind _ _); [apply Hu|done].
  - unfold test_restore. by destruct written.
  - destruct (prune_parts st keep removable c) as (Hv & _). intros i v Hi. apply (Hd i).
    destruct Hv as [Hv | Hv]; rewrite Hv in Hi; [|done]. by apply kept_rows_lookup in Hi as [? _].
  - by apply transact_decodes.
  - by apply transact_decodes.
  - by apply transact_decodes.
  - by apply transact_decodes.
Qed.

Lemma run_decodes (st : BackupStore) (ops : list StoreOp) :
  Forall op_in_range ops -> all_decode st -> all_decode (store_run st ops).
Proof.
  intros Hr. revert st. induction Hr as [|op ops Hop Hr IH]; intros st Hd; [done|].
  cbn. by apply IH, step_decodes.
Qed.

End States.

Lemma tables_kept `{Hash : ContentHash} {A} (st : BackupStore) (c : commit_outcome)
    (r : result (RetentionTables * A) RecoveryError) (id : Z) (p : RetentionPin) :
  tb_pins (bk_retention st) !! id = Some p ->
  (forall t a, r = Ok (t, a) -> tb_pins t !! id = Some p) ->
  tb_pins (bk_retention (transact st c r).1) !! id = Some p.
Proof. intros Hp Hr. destruct (transact_cases st c r) as [-> | (t & a & Ha & ->)]; [done|by eapply Hr]. Qed.

(** Only releases change a pin. *)
Lemma other_operations_keep_pins `{Hash : ContentHash} (st : BackupStore) (op : StoreOp) (id : Z)
    (p : RetentionPin) :
  state_ok st -> tb_pins (bk_retention st) !! id = Some p ->
  match op with
  | OpReleasePin _ _ _ _ | OpReleaseIncident _ _ _ _ => True
  | _ => tb_pins (bk_retention (store_step st op)) !! id = Some p
  end.
Proof.
  intros Hok Hp.
  destruct op as [env path ts pid|path vid note w|path vid note w|path b sc now w|keep rm c
                 |path vid i ac re now c|path b i ac re now c|pid a now c|i a now c]; cbn [store_step]; try done.
  - by rewrite (ex_retention _ _ (proj2 (backup_extends st env path ts pid (proj1 Hok)))).
  - unfold mark_known_good. by destruct (res_bind _ _).
  - unfold revoke_known_good. by destruct (res_bind _ _).
  - by rewrite (ex_retention _ _ (proj2 (test_restore_ok st path b sc now w (proj1 Hok)))).
  - by destruct (prune_parts st keep rm c) as (_ & _ & -> & _).
  - apply tables_kept; [done|]. intros t q.
    intros (_ & _ & [_ (v & Hv & Hq)%res_bind_Ok]%guard_bind_Ok)%res_bind_Ok.
    apply row_by_id in Hv; [|apply Hok].
    eapply (pin_all_ok _ _ _ _ _ [v] _ t [q]) in Hp as H; [exact H|apply Hok|by repeat constructor|].
    cbn. by rewrite Hq.
  - apply tables_kept; [done|]. intros t q.
    intros (_ & _ & [_ (vs & Hv & [_ Hq]%guard_bind_Ok)%res_bind_Ok]%guard_bind_Ok)%res_bind_Ok.
    eapply pin_all_ok in Hq as (_ & _ & _ & Hk & _); [by apply Hk|apply Hok|].
    by eapply trusted_rows; [apply Hok|].
Qed.

(** A store reached from an empty one. *)
Definition reached `{Hash : ContentHash} (limit : Z) (ops : list StoreOp) : BackupStore :=
  store_run (BackupStore_new limit) ops.

Lemma store_reached_ok `{Hash : ContentHash} (limit : Z) (ops : list StoreOp) : state_ok (reached limit ops).
Proof. apply store_run_ok, state_new_ok. Qed.

(** C27: Evidence under incident retention survives. In any reachable store an
    active pin names a stored version of its path and hash; as long as the pin
    is not released, whatever operations follow - backups, changes of trust,
    pruning with a failing COMMIT, other pins and releases - that version
    stays, with its content file, and what read back verified still does. *)
Theorem pinned_evidence_survives `{Hash : ContentHash} (limit : Z) (before after : list StoreOp)
    (id : Z) (p : RetentionPin) :
  tb_pins (bk_retention (reached limit before)) !! id = Some p ->
  tb_pins (bk_retention (reached limit (before ++ after))) !! id = Some p -> pin_active p = true ->
  exists v v', bk_versions (reached limit before) !! pin_version_id p = Some v
  /\ bv_path v = pin_path p /\ bv_hash v = pin_hash p
  /\ bk_versions (reached limit (before ++ after)) !! pin_version_id p = Some v' /\ same_version v v'
  /\ (forall b, bk_objects (reached limit before) !! pin_hash p = Some b ->
        bk_objects (reached limit (before ++ after)) !! pin_hash p = Some b)
  /\ (forall data, read_verified (reached limit before) v = Ok data ->
        read_verified (reached limit (before ++ after)) v' = Ok data).
Proof.
  intros Hp Hend Ha. pose proof (store_reached_ok limit before) as Hok.
  destruct (ts_rows _ _ (proj2 Hok) _ _ Hp Ha) as (v & Hv & Hpath & Hhash).
  unfold reached, store_run in *. rewrite fold_left_app in Hend |- *.
  destruct (evidence_run after _ id p v Hok Hp Hv Hend Ha) as (v' & Hv' & Hs & Ho).
  exists v, v'. split_and!; try done; [by rewrite <- Hhash|]. intros data. by apply read_verified_kept.
Qed.

(** C28: Retention ends only by approval. If an operation releases an active
    pin, it is a release of that pin or of its incident, under an approval
    whose ID had never been used, which is recorded now and for ever, and
    whose approver is not the author of the pin; the pin records it, and
    nothing else in the pin changes. *)
Theorem release_needs_fresh_approval `{Hash : ContentHash} (limit : Z) (before after : list StoreOp)
    (op : StoreOp) (id : Z) (p p' : RetentionPin) :
  tb_pins (bk_retention (reached limit before)) !! id = Some p -> pin_active p = true ->
  tb_pins (bk_retention (reached limit (before ++ [op]))) !! id = Some p' -> pin_active p' = false ->
  exists a now c row, (op = OpReleasePin id a now c \/ op = OpReleaseIncident (pin_incident_id p) a now c)
  /\ p' = released_pin p a now
  /\ tb_approvals (bk_retention (reached limit before)) !! ra_approval_id a = None
  /\ tb_approvals (bk_retention (reached limit (before ++ op :: after))) !! ra_approval_id a = Some row
  /\ apr_approver row = str_trim (ra_approver a) /\ apr_approver row <> pin_actor p.
Proof.
  intros Hp Ha. pose proof (store_reached_ok limit before) as Hok. unfold reached, store_run in *.
  rewrite !fold_left_app. cbn. fold (store_run (BackupStore_new limit) before) in *.
  set (st := store_run (BackupStore_new limit) before) in *. intros Hp' Ha'.
  assert (Hok1 : state_ok (store_step st op)) by by apply store_step_ok.
  destruct (store_run_ok _ after Hok1) as [_ [_ Happ _]].
  pose proof (other_operations_keep_pins st op id p Hok Hp) as Hsame.
  destruct op; try congruence; clear Hsame; cbn [store_step] in *.
  - destruct (release_pin_ok st id0 a now c Hok) as [_ Hr].
    destruct (Hr id p Hp) as [?|(-> & Hq & Hn & Hne & ts & Hrow)]; [congruence|].
    eexists a, now, c, _. split_and!; [by left|congruence|done|by eapply lookup_weaken|done..].
  - destruct (release_incident_ok st incident a now c Hok) as [_ Hr].
    destruct (Hr id p Hp) as [?|(-> & Hq & Hn & Hne & ts & Hrow)]; [congruence|].
    eexists a, now, c, _. split_and!; [by right|congruence|done|by eapply lookup_weaken|done..].
Qed.

(** The retention audit is the history of the pins. Whatever happens, the
    audit only grows; its entries about a pin are exactly its creation and,
    once it is released, its release, with the approval named there on record
    and given by someone else than the author of the pin; and no two active
    pins of one incident hold the same version. *)
Theorem retention_audit_refines_pins `{Hash : ContentHash} (limit : Z) (before after : list StoreOp) :
  let t := bk_retention (reached limit before) in
  let t' := bk_retention (reached limit (before ++ after)) in
  tb_audit t `prefix_of` tb_audit t' /\ tb_approvals t ⊆ tb_approvals t'
  /\ (forall id, audit_of t id = match tb_pins t !! id with Some p => pin_history p | None => [] end)
  /\ (forall id p, tb_pins t !! id = Some p -> pin_id p = id /\ approved_release t p)
  /\ (forall i j p q, tb_pins t !! i = Some p -> tb_pins t !! j = Some q ->
        pin_active p = true -> pin_active q = true -> pin_incident_id p = pin_incident_id q ->
        pin_version_id p = pin_version_id q -> i = j).
Proof.
  cbn zeta. pose proof (store_reached_ok limit before) as Hok. destruct (Hok) as [_ [_ H2 _ H4 H5 H6]].
  destruct (store_run_ok (reached limit before) after Hok) as [_ [_ Happ Haud]].
  unfold reached, store_run in *. rewrite fold_left_app. split_and!; try done.
  intros id p Hp. split; [by apply H2|by apply (H5 id)].
Qed.

(** Every call of a restore works: what is above the target is a directory or
    missing, and one of the 100 temporary names is not taken. *)
Record restore_works (env : RestoreEnv) (files : Nodes) (path : string) : Prop := mkRestoreWorks {
  rw_calls : re_stat env && re_temporary env && is_none_or (re_write env) (fun _ => false)
             && re_chown env && re_chmod env && re_sync env && re_rename env = true;
  rw_mkdir : forall d, re_mkdir env d = true;
  rw_parents : forall d, d ∈ parents_of path -> files !! d = None \/ files !! d = Some Directory;
  rw_free : exists tmp, is_temporary env path tmp /\ files !! tmp = None /\ tmp ∉ parents_of path;
}.

Lemma create_dirs_works mkdir dirs : (forall d, mkdir d = true) -> forall files : Nodes,
  (forall d, d ∈ dirs -> files !! d = None \/ files !! d = Some Directory) ->
  (create_dirs mkdir dirs files).2 = true.
Proof.
  intros Hm. induction dirs as [|d dirs IH]; intros files Hf; [done|]. cbn. rewrite Hm.
  assert (Hd : forall x, x ∈ dirs -> files !! x = None \/ files !! x = Some Directory) by (intros x Hx; apply Hf; by right).
  destruct (Hf d) as [-> | ->]; [by left| |by apply IH].
  apply IH. intros x Hx. destruct (decide (x = d)) as [->|Hne]; [right; by rewrite lookup_insert_eq|].
  rewrite lookup_insert_ne by done. by apply Hd.
Qed.
Lemma create_restore_temp_works (env : RestoreEnv) (path : string) (files : Nodes) (j : nat) (tries : nat) :
  re_temporary env = true -> files !! temporary_path env path j = None -> forall k,
  (k <= j < k + tries)%nat -> is_ok (create_restore_temp env path tries k files).2 = true.
Proof.
  intros Ht Hj. induction tries as [|tries IH]; intros k Hk; [lia|]. cbn.
  destruct (is_some _) eqn:E; [|by rewrite Ht]. apply IH. assert (k <> j); [|lia].
  intros ->. by rewrite Hj in E.
Qed.

Lemma restore_Ok `{Hash : ContentHash} (st : BackupStore) (files : Nodes) (env : RestoreEnv) (path : string)
    (before : option Z) (w : BackupVersion) (data : string) :
  recommend st path before = Ok w -> read_verified st w = Ok data -> restore_works env files path ->
  files !! path <> Some Special -> files !! path <> Some Directory ->
  (restore st files env path before).2 = Ok w.
Proof.
  intros Hrec Hd [Hcalls Hmk Hpar (tmp & (j & Hj & ->) & Hfree & Hnot)] Hs Hdir.
  repeat (apply andb_true_iff in Hcalls as [Hcalls ?]). unfold restore, restore_plan.
  rewrite Hrec. cbn [res_bind]. rewrite Hd. cbn [res_bind]. rewrite Hcalls. cbn [negb].
  assert (Hex : exists existing, files !! path = existing
    /\ match existing with Some (Regular _ _ _ _) | None => True | _ => False end)
    by (exists (files !! path); split; [done|]; by destruct (files !! path) as [[]|]).
  destruct Hex as (existing & Hex & Hreg). rewrite Hex.
  transitivity (let '(files, made) := create_dirs (re_mkdir env) (parents_of path) files in
    if negb made then Err (Io path) else
    let '(files, tmp) := create_restore_temp env path 100 0 files in
    let? tmp := tmp in let? _ := (replace_target env path tmp existing data files).2 in Ok w).
  { destruct existing as [[]|]; try done; cbn [res_bind];
      destruct (create_dirs _ _ _) as [f []]; try done; cbn [negb];
      destruct (create_restore_temp _ _ _ _ _) as [f2 [t|]]; try done; cbn [res_bind];
      by destruct (replace_target _ _ _ _ _ _). }
  pose proof (create_dirs_works (re_mkdir env) (parents_of path) Hmk files Hpar) as Hmade.
  destruct (create_dirs_frame (re_mkdir env) (parents_of path) files (temporary_path env path j))
    as [Hsame|(_ & _ & Hin)]; [|done].
  destruct (create_dirs _ _ _) as [f made]. cbn in Hmade, Hsame. subst made. cbn [negb].
  rewrite Hfree in Hsame.
  pose proof (create_restore_temp_works env path f j 100 ltac:(done) Hsame 0 ltac:(lia)) as Htmp.
  destruct (create_restore_temp _ _ _ _ _) as [f2 [t|]]; [|done]. cbn [res_bind].
  unfold replace_target, fill_temporary. destruct (re_write env); [done|].
  unfold apply_restore_metadata.
  repeat match goal with H : _ env = true |- _ => rewrite H; clear H end.
  by destruct existing as [[]|].
Qed.

(** C29: Good versions stay restorable. In any reachable store - after failed
    commits and sweeps included - once an operator has declared a version of a
    path good and has not revoked it, a restore of that path, with or without a
    cutoff after it, succeeds on a working file system whose target is missing
    or a regular file, with directories or nothing above it, and so does a restore
    test that reads back what it wrote. *)
Theorem known_good_restorable `{Hash : ContentHash} (limit : Z) (ops : list StoreOp)
    (files : Nodes) (env : RestoreEnv) (before : option Z) (id : Z) (v : BackupVersion) :
  let st := reached limit ops in
  Forall op_in_range ops -> bk_versions st !! id = Some v -> trusted_before before v = true ->
  restore_works env files (bv_path v) -> files !! bv_path v <> Some Special -> files !! bv_path v <> Some Directory ->
  exists w data, (restore st files env (bv_path v) before).2 = Ok w /\ read_verified st w = Ok data
  /\ forall now, (test_restore st (bv_path v) before (Some data) now true).2 = Ok w.
Proof.
  cbn zeta. set (st := reached limit ops). intros Hr Hv Ht Hw Hf Hf'.
  pose proof (store_reached_ok limit ops) as [Hs _]. fold st in Hs.
  destruct (recommend_total st (bv_path v) before id v) as [w Hrec]; try done.
  { by apply run_decodes. }
  pose proof Hrec as ((i & Hi) & _ & Htw & _)%recommend_Ok.
  unfold trusted_before in Htw. apply andb_true_iff in Htw as [Hg _].
  destruct (ss_good _ Hs _ _ Hi Hg) as (_ & data & Hd).
  exists w, data. split_and!; [|done|].
  - by eapply restore_Ok.
  - intros now. unfold test_restore. cbn [negb snd]. rewrite Hrec. cbn [res_bind]. rewrite Hd. cbn [res_bind ok_or].
    apply read_verified_Ok in Hd as (_ & _ & Hh & bytes & _ & Hdata).
    assert (Htake : str_take (sat_add (bv_size w) 1) data = data).
    { rewrite Hdata. unfold str_take. destruct (Z.leb_spec (slen bytes) (sat_add (bv_size w) 1)) as [Hle|Hlt].
      - by apply Z.leb_le in Hle as ->.
      - destruct (ss_rows _ Hs _ _ Hi) as (_ & _ & Hsz).
        assert (0 <= sat_add (bv_size w) 1) by (unfold sat_add, u64_max; lia).
        unfold slen in *. rewrite substring_length by lia. rewrite Z2Nat.id by done. by rewrite Z.leb_refl. }
    rewrite Htake, Hh, String.eqb_refl. done.
Qed.

Lemma pin_known_good_before_covers `{Hash : ContentHash} (st : BackupStore) (path : string) (before_ms : Z)
    (incident actor reason : string) (now : Z) (pins : list RetentionPin) (c : commit_outcome) :
  state_ok st ->
  let r := pin_known_good_before st path before_ms incident actor reason now c in
  r.2 = Ok pins ->
  pins <> []
  /\ bk_versions r.1 = bk_versions st
  /\ (exists id v, bk_versions st !! id = Some v /\ bv_path v = path /\ bv_known_good v = true
        /\ bv_timestamp_ms v < before_ms)
  /\ (forall id v, bk_versions st !! id = Some v -> bv_path v = path -> bv_known_good v = true ->
        bv_timestamp_ms v < before_ms ->
        exists p, p ∈ pins /\ pin_version_id p = id /\ pin_incident_id p = incident /\ pin_active p = true
          /\ tb_pins (bk_retention r.1) !! pin_id p = Some p)
  /\ (forall id p, tb_pins (bk_retention st) !! id = Some p -> tb_pins (bk_retention r.1) !! id = Some p).
Proof.
  intros [Hs Ht]. cbn zeta. unfold pin_known_good_before. set (tr := res_bind _ _).
  destruct tr as [[t ps]|e] eqn:E; [|done]. destruct c as [|[]]; [|done..].
  cbn. intros [= ->]. subst tr.
  apply res_bind_Ok in E as (_ & _ & [_ (vs & Hv & [Hne Hp]%guard_bind_Ok)%res_bind_Ok]%guard_bind_Ok).
  set (l := List.filter _ vs) in *.
  destruct (pin_all_ok _ _ _ _ _ _ _ _ _ Ht (trusted_rows _ _ _ _ Hs Hv) Hp) as (_ & _ & Hf & Hk & Hall).
  pose proof (versions_Ok _ _ _ Hv) as (_ & Hin & _).
  assert (Hl0 : l <> []) by (intros ->; by rewrite zlen_nil in Hne).
  split_and!; [|done| |intros id v Hid Hpath Hg Hlt|done].
  - intros ->. by apply Forall2_nil_inv_r in Hf.
  - destruct l as [|v l'] eqn:El; [done|]. assert (Hvl : v ∈ l) by (rewrite El; by left).
    apply filter_elem in Hvl as [[[id Hid] Hpath]%Hin [Hg Hlt%Z.ltb_lt]%andb_true_iff]. by exists id, v.
  - assert (Hl : v ∈ l).
    { apply filter_elem. split; [apply Hin; eauto|]. rewrite Hg. by apply Z.ltb_lt. }
    apply list_elem_of_lookup_1 in Hl as [i Hi].
    destruct (Forall2_lookup_l _ _ _ _ _ Hf Hi) as (p & Hpi & Hvid & Hinc).
    apply list_elem_of_lookup_2 in Hpi. rewrite Forall_forall in Hall. destruct (Hall p Hpi).
    destruct (ss_rows _ Hs _ _ Hid) as [Hbid _]. exists p. split_and!; try done. congruence.
Qed.

(** Pinning for an incident covers all the evidence: when
    [pin_known_good_before] succeeds, every known-good version of the path
    before the incident - and there is one - is under an active pin of the
    incident that is among those returned; earlier pins are unchanged and
    their versions are still out of reach of pruning. *)
Theorem pin_known_good_before_complete `{Hash : ContentHash} (limit : Z) (ops : list StoreOp)
    (path : string) (before_ms : Z) (incident actor reason : string) (now : Z) (pins : list RetentionPin) :
  let st := reached limit ops in
  let r := pin_known_good_before st path before_ms incident actor reason now Committed in
  r.2 = Ok pins ->
  pins <> []
  /\ (forall id v, bk_versions st !! id = Some v -> bv_path v = path -> bv_known_good v = true ->
        bv_timestamp_ms v < before_ms ->
        exists p, p ∈ pins /\ pin_version_id p = id /\ pin_incident_id p = incident /\ pin_active p = true
          /\ tb_pins (bk_retention r.1) !! pin_id p = Some p)
  /\ (forall id p, tb_pins (bk_retention st) !! id = Some p -> tb_pins (bk_retention r.1) !! id = Some p)
  /\ (forall id v, bk_versions st !! id = Some v -> pinned (bk_retention st) id = true ->
        prunable r.1 0 v = false).
Proof.
  cbn zeta. intros Hok. pose proof (store_reached_ok limit ops) as Hst.
  destruct (pin_known_good_before_covers _ _ _ _ _ _ _ _ _ Hst Hok) as (Hne & Hvs & _ & Hcov & Hk).
  split_and!; [done|done|done|]. intros id v Hid (j & p & Hj & Hvid & Ha)%pinned_spec.
  apply prunable_protected. right. apply pinned_spec. exists j, p. split_and!; [by apply Hk| |done].
  by destruct (ss_rows _ (proj1 Hst) _ _ Hid) as [-> _].
Qed.

(** * Instances *)

#[local] Abbreviation hex64_a := "aaaaaaaaaaaaaaaaaaaaaaaaaaaaaaaaaaaaaaaaaaaaaaaaaaaaaaaaaaaaaaaa"%string.
#[local] Abbreviation hex64_b := "bbbbbbbbbbbbbbbbbbbbbbbbbbbbbbbbbbbbbbbbbbbbbbbbbbbbbbbbbbbbbbbb"%string.
#[local] Abbreviation two_hashes :=
  ((fun s => if String.eqb s "v1" then hex64_a else hex64_b) : ContentHash).
#[local] Abbreviation backup_op content ts :=
  (OpBackup (mkBackupEnv (Some (true, 2)) (Some content) true true Committed) "/f" ts 1).
#[local] Abbreviation mark_op := (OpMark "/f" 1 "checked" true).
#[local] Abbreviation pin_op := (OpPin "/f" 1 "inc-1" "alice" "evidence" 30 Committed).
#[local] Abbreviation revoke_op := (OpRevoke "/f" 1 "not sure" true).
#[local] Abbreviation prune_op := (OpPrune 0 (fun _ => true) (CommitFailed false)).
#[local] Abbreviation the_approval := (mkReleaseApproval "app-1" "bob" "closed").
#[local] Abbreviation release_op := (OpReleasePin 1 the_approval 50 Committed).
#[local] Abbreviation the_pin :=
  (mkRetentionPin 1 "inc-1" 1 "/f" hex64_a "alice" "evidence" 30 None None None None).

Lemma pinned_evidence_survives_witness :
  exists v', bk_versions (@reached two_hashes 1000
      ([backup_op "v1" 10; mark_op; pin_op] ++ [revoke_op; backup_op "v2" 20; prune_op])) !! 1 = Some v'
    /\ bv_hash v' = hex64_a.
Proof.
  destruct (@pinned_evidence_survives two_hashes 1000 [backup_op "v1" 10; mark_op; pin_op]
              [revoke_op; backup_op "v2" 20; prune_op] 1 the_pin) as (v & v' & _ & _ & Hh & Hv' & Hs & _).
  - vm_compute. reflexivity.
  - vm_compute. reflexivity.
  - vm_compute. reflexivity.
  - apply same_version_fields in Hs as (_ & _ & He & _). exists v'. split; [exact Hv'|]. rewrite He. exact Hh.
Defined.

Lemma release_needs_fresh_approval_witness :
  exists a row, tb_approvals (bk_retention (@reached two_hashes 1000
      ([backup_op "v1" 10; pin_op] ++ release_op :: [prune_op]))) !! ra_approval_id a = Some row
    /\ apr_approver row <> "alice"%string.
Proof.
  destruct (@release_needs_fresh_approval two_hashes 1000 [backup_op "v1" 10; pin_op] [prune_op] release_op 1
              the_pin (released_pin the_pin the_approval 50))
    as (a & now & c & row & _ & _ & _ & Hrow & _ & Hne).
  - vm_compute. reflexivity.
  - vm_compute. reflexivity.
  - vm_compute. reflexivity.
  - vm_compute. reflexivity.
  - exists a, row. split; [exact Hrow|exact Hne].
Defined.

(** The file was overwritten since its backup. *)
#[local] Abbreviation restore_env := (mkRestoreEnv true (fun _ => true) 7 0 true None true true true true true 0 0).
#[local] Abbreviation overwritten := (<["/f" := Regular "ENCRYPTED" 420 1000 1000]> (∅ : Nodes)).
Lemma known_good_restorable_witness :
  exists w, (@restore two_hashes (@reached two_hashes 1000 [backup_op "v1" 10; mark_op; prune_op]) overwritten
      restore_env "/f" (Some 15)).2 = Ok w.
Proof.
  destruct (@known_good_restorable two_hashes 1000 [backup_op "v1" 10; mark_op; prune_op] overwritten
              restore_env (Some 15) 1
              (mkBackupVersion 1 "/f" hex64_a 2 10 1 true (Some "checked"%string))) as (w & data & Hr & _).
  - repeat constructor; cbn; unfold i64_max; lia.
  - vm_compute. reflexivity.
  - reflexivity.
  - split.
    + reflexivity.
    + reflexivity.
    + intros d Hd. exfalso. revert Hd. apply not_elem_of_nil.
    + exists (temporary_path restore_env "/f" 0). split; [exists 0%nat; split; [lia|reflexivity]|].
      split; [vm_compute; reflexivity|apply not_elem_of_nil].
  - discriminate.
  - discriminate.
  - exists w. exact Hr.
Defined.

Lemma pin_known_good_before_complete_witness :
  exists p, p ∈ [the_pin] /\ pin_version_id p = 1.
Proof.
  destruct (@pin_known_good_before_complete two_hashes 1000 [backup_op "v1" 10; mark_op] "/f" 15
              "inc-1" "alice" "evidence" 30 [the_pin]) as (_ & Hcov & _).
  - vm_compute. reflexivity.
  - destruct (Hcov 1 (mkBackupVersion 1 "/f" hex64_a 2 10 1 true (Some "checked"%string)))
      as (p & Hp & Hv & _).
    + vm_compute. reflexivity.
    + reflexivity.
    + reflexivity.
    + cbn. lia.
    + exists p. split; [exact Hp|exact Hv].
Defined.

(** Pruning removes content files before COMMIT. When the COMMIT fails, the
    version comes back without its content; the next backup of the same bytes
    finds the hash unchanged and stores nothing. *)
Example pruned_content_lost :
  let st := @reached two_hashes 1000 [backup_op "v1" 10; prune_op] in
  (exists v, bk_versions st !! 1 = Some v /\ @read_verified two_hashes st v = Err (Io hex64_a))
  /\ (@backup two_hashes st (mkBackupEnv (Some (true, 2)) (Some "v1"%string) true true Committed) "/f" 20 1).2
     = Ok None.
Proof. vm_compute. split; [eexists; split; reflexivity|reflexivity]. Qed.
