(* ===== verification/Outbox.v ===== *)
(** The agent's event database (crates/argos-storage/src/outbox.rs and the
    detections of lib.rs): detections, the queue of reports to the central
    server and the queue of retention jobs. A table is a map by row ID, with
    its AUTOINCREMENT counter. *)
From Stdlib Require Import ZArith Lia Ascii.
From stdpp Require Import base gmap strings list sorting.
From S2P Require Import Prelude F64 RustPath Common.
#[local] Open Scope Z_scope.

Inductive StorageError : Set := DbError | JsonError | InvalidRange.

(** serde_json on a [Detection]. *)
Class DetectionJson := {
  detection_to_json : Detection -> option string;
  detection_of_json : string -> option Detection;
}.

(** The scores detections carry are written as numbers, and read back. *)
Class DetectionJsonLaws `{Json : DetectionJson} : Prop :=
  detection_json_roundtrip : forall d s, detection_to_json d = Some s -> detection_of_json s = Some d.

Record OutboxRow := mkOutboxRow {
  ob_delivery_id : string;
  ob_agent_id : string;
  ob_detection_json : string;
  ob_created_at_ms : Z;
  ob_attempts : Z;
  ob_last_error : option string;
}.

Record DeliveryCounters := mkDeliveryCounters {
  dc_failed_attempts : Z;
  dc_acknowledged : Z;
}.

Record RetentionRow := mkRetentionRow {
  rj_detection_json : string;
  rj_attempts : Z;
  rj_last_error : option string;
  rj_next_attempt_ms : Z;
}.

Record RetentionCounters := mkRetentionCounters {
  rc_failed_attempts : Z;
  rc_overflow : Z;
  rc_completed : Z;
}.

Record EventStore := mkEventStore {
  es_detections : gmap Z Detection;
  es_detection_sequence : Z;
  es_outbox : gmap Z OutboxRow;
  es_outbox_sequence : Z;
  es_delivery_counters : gmap string DeliveryCounters;
  es_jobs : gmap Z RetentionRow;
  es_retention_counters : RetentionCounters;
}.

Definition EventStore_new : EventStore := mkEventStore ∅ 0 ∅ 0 ∅ ∅ (mkRetentionCounters 0 0 0).

Record OutboxEntry := mkOutboxEntry {
  oe_delivery_id : string;
  oe_agent_id : string;
  oe_detection : Detection;
  oe_attempts : Z;
}.
Record OutboxStats := mkOutboxStats {
  os_pending : Z;
  os_failed_attempts : Z;
  os_acknowledged : Z;
  os_oldest_pending_ms : option Z;
}.
Record RetentionJob := mkRetentionJob {
  jb_detection_id : Z;
  jb_detection : Detection;
  jb_attempts : Z;
}.
Record RetentionStats := mkRetentionStats {
  rst_pending : Z;
  rst_failed_attempts : Z;
  rst_overflow : Z;
  rst_completed : Z;
}.

Definition RETENTION_CAPACITY : Z := 10000.

Definition with_outbox (st : EventStore) outbox sequence : EventStore :=
  mkEventStore (es_detections st) (es_detection_sequence st) outbox sequence (es_delivery_counters st)
    (es_jobs st) (es_retention_counters st).
Definition with_delivery_counters (st : EventStore) counters : EventStore :=
  mkEventStore (es_detections st) (es_detection_sequence st) (es_outbox st) (es_outbox_sequence st) counters
    (es_jobs st) (es_retention_counters st).
Definition with_jobs (st : EventStore) jobs counters : EventStore :=
  mkEventStore (es_detections st) (es_detection_sequence st) (es_outbox st) (es_outbox_sequence st)
    (es_delivery_counters st) jobs counters.

(** * Recording a detection *)

Section Json.
Context `{Json : DetectionJson}.

(** The row keeps the detection; its columns are those of [Detection], and
    [timestamp_ms] is stored as an [i64]. *)
Definition insert_detection (st : EventStore) (d : Detection) : result (EventStore * Z) StorageError :=
  if i64_max <=? es_detection_sequence st then Err DbError
  else
    let id := es_detection_sequence st + 1 in
    Ok (mkEventStore (<[id := d]> (es_detections st)) id (es_outbox st) (es_outbox_sequence st)
          (es_delivery_counters st) (es_jobs st) (es_retention_counters st), id).

(** [delivery]: what [lower(hex(randomblob(16)))] gives; it is UNIQUE among the pending rows. *)
Definition insert_outbox (st : EventStore) (delivery agent_id payload : string) (now : Z)
    : result EventStore StorageError :=
  if existsb (fun kv => String.eqb (ob_delivery_id kv.2) delivery) (map_to_list (es_outbox st))
     || (i64_max <=? es_outbox_sequence st)
  then Err DbError
  else
    let id := es_outbox_sequence st + 1 in
    Ok (with_outbox st (<[id := mkOutboxRow delivery agent_id payload (as_i64 now) 0 None]> (es_outbox st)) id).

Definition count_overflow (c : RetentionCounters) : RetentionCounters :=
  mkRetentionCounters (rc_failed_attempts c) (rc_overflow c + 1) (rc_completed c).
Definition count_completed (c : RetentionCounters) : RetentionCounters :=
  mkRetentionCounters (rc_failed_attempts c) (rc_overflow c) (rc_completed c + 1).
Definition count_failed (c : RetentionCounters) : RetentionCounters :=
  mkRetentionCounters (rc_failed_attempts c + 1) (rc_overflow c) (rc_completed c).

Definition enqueue_retention (st : EventStore) (id : Z) (d : Detection) : result EventStore StorageError :=
  if Z.of_nat (size (es_jobs st)) <? RETENTION_CAPACITY then
    let? json := ok_or (detection_to_json d) JsonError in
    if is_some (es_jobs st !! id) then Err DbError
    else Ok (with_jobs st (<[id := mkRetentionRow json 0 None 0]> (es_jobs st)) (es_retention_counters st))
  else Ok (with_jobs st (es_jobs st) (count_overflow (es_retention_counters st))).

(** One transaction; an error inside rolls it back. *)
Definition transaction {A} (st : EventStore) (c : commit_outcome) (r : result (EventStore * A) StorageError)
    : EventStore * result A StorageError :=
  match r with
  | Err e => (st, Err e)
  | Ok (st', a) => commit_with DbError c st st' a
  end.

Definition record_detection (st : EventStore) (d : Detection) (agent_id : option string) (retain : bool)
    (delivery : string) (now : Z) (c : commit_outcome) : EventStore * result Z StorageError :=
  if is_some_and agent_id trim_is_empty then (st, Err InvalidRange)
  else transaction st c
    (let? r := insert_detection st d in
     let? st' := match agent_id with
                 | None => Ok r.1
                 | Some agent_id =>
                     let? payload := ok_or (detection_to_json d) JsonError in
                     insert_outbox r.1 delivery agent_id payload now
                 end in
     let? st' := if retain then enqueue_retention st' r.2 d else Ok st' in
     Ok (st', r.2)).

Definition insert_detection_with_outbox (st : EventStore) (d : Detection) (agent_id delivery : string)
    (now : Z) (c : commit_outcome) : EventStore * result unit StorageError :=
  if trim_is_empty agent_id then (st, Err InvalidRange)
  else match detection_to_json d with
  | None => (st, Err JsonError)
  | Some payload =>
      transaction st c
        (let? r := insert_detection st d in
         let? st' := insert_outbox r.1 delivery agent_id payload now in
         Ok (st', tt))
  end.

(** * Retention jobs *)

Fixpoint collect {A E} (l : list (result A E)) : result (list A) E :=
  match l with
  | [] => Ok []
  | r :: l' => let? a := r in let? k := collect l' in Ok (a :: k)
  end.

(** ORDER BY next_attempt_ms, detection_id LIMIT ..; a row that does not parse fails the query. *)
Definition due_jobs (st : EventStore) (now : Z) : list (Z * RetentionRow) :=
  sort_by (fun kv => (rj_next_attempt_ms kv.2, kv.1))
    (List.filter (fun kv => rj_next_attempt_ms kv.2 <=? now) (map_to_list (es_jobs st))).

Definition retention_job (kv : Z * RetentionRow) : result RetentionJob StorageError :=
  let? d := ok_or (detection_of_json (rj_detection_json kv.2)) DbError in
  Ok (mkRetentionJob kv.1 d (rj_attempts kv.2)).

Definition pending_retention_jobs (st : EventStore) (now limit : Z) : result (list RetentionJob) StorageError :=
  if (limit =? 0) || (100 <? limit) || (i64_max <? now) then Err InvalidRange
  else collect (map retention_job (take (Z.to_nat limit) (due_jobs st now))).

Definition acknowledge_retention_job (st : EventStore) (id : Z) (c : commit_outcome)
    : EventStore * result unit StorageError :=
  transaction st c
    (if is_some (es_jobs st !! id)
     then Ok (with_jobs st (delete id (es_jobs st)) (count_completed (es_retention_counters st)), tt)
     else Ok (st, tt)).

Definition retry_row (row : RetentionRow) (error : string) (next : Z) : RetentionRow :=
  mkRetentionRow (rj_detection_json row) (rj_attempts row + 1) (Some (chars_take 512 error)) next.

Definition record_retention_failure (st : EventStore) (id : Z) (error : string) (next : Z) (c : commit_outcome)
    : EventStore * result unit StorageError :=
  if i64_max <? next then (st, Err InvalidRange)
  else transaction st c
    (match es_jobs st !! id with
     | Some row =>
         Ok (with_jobs st (<[id := retry_row row error next]> (es_jobs st))
               (count_failed (es_retention_counters st)), tt)
     | None => Ok (st, tt)
     end).

Definition retention_stats (st : EventStore) : RetentionStats :=
  let c := es_retention_counters st in
  mkRetentionStats (Z.of_nat (size (es_jobs st))) (rc_failed_attempts c) (rc_overflow c) (rc_completed c).

(** * Reports *)

(** The rows of an agent, ORDER BY id. *)
Definition agent_rows (st : EventStore) (agent_id : string) : list (Z * OutboxRow) :=
  sort_by fst (List.filter (fun kv => String.eqb (ob_agent_id kv.2) agent_id) (map_to_list (es_outbox st))).

Definition outbox_entry (kv : Z * OutboxRow) : result OutboxEntry StorageError :=
  let? d := ok_or (detection_of_json (ob_detection_json kv.2)) DbError in
  Ok (mkOutboxEntry (ob_delivery_id kv.2) (ob_agent_id kv.2) d (ob_attempts kv.2)).

Definition pending_deliveries (st : EventStore) (agent_id : string) (limit : Z)
    : result (list OutboxEntry) StorageError :=
  if (limit =? 0) || (1000 <? limit) then Err InvalidRange
  else collect (map outbox_entry (take (Z.to_nat limit) (agent_rows st agent_id))).

Definition is_delivery (delivery agent_id : string) (row : OutboxRow) : bool :=
  String.eqb (ob_delivery_id row) delivery && String.eqb (ob_agent_id row) agent_id.

Definition counters_of (st : EventStore) (agent_id : string) : DeliveryCounters :=
  default (mkDeliveryCounters 0 0) (es_delivery_counters st !! agent_id).

Definition acknowledge_delivery (st : EventStore) (delivery agent_id : string) (c : commit_outcome)
    : EventStore * result unit StorageError :=
  let kept := filter (fun kv : Z * OutboxRow => is_delivery delivery agent_id kv.2 = false) (es_outbox st) in
  let st' := with_outbox st kept (es_outbox_sequence st) in
  let k := counters_of st agent_id in
  transaction st c
    (if Nat.ltb (size kept) (size (es_outbox st))
     then Ok (with_delivery_counters st'
                (<[agent_id := mkDeliveryCounters (dc_failed_attempts k) (dc_acknowledged k + 1)]>
                   (es_delivery_counters st)), tt)
     else Ok (st', tt)).

Definition failed_row (row : OutboxRow) (error : string) : OutboxRow :=
  mkOutboxRow (ob_delivery_id row) (ob_agent_id row) (ob_detection_json row) (ob_created_at_ms row)
    (ob_attempts row + 1) (Some (chars_take 512 error)).

Definition record_delivery_failure (st : EventStore) (delivery agent_id error : string) (c : commit_outcome)
    : EventStore * result unit StorageError :=
  let update row := if is_delivery delivery agent_id row then failed_row row error else row in
  let st' := with_outbox st (update <$> es_outbox st) (es_outbox_sequence st) in
  let k := counters_of st agent_id in
  transaction st c
    (if existsb (fun kv => is_delivery delivery agent_id kv.2) (map_to_list (es_outbox st))
     then Ok (with_delivery_counters st'
                (<[agent_id := mkDeliveryCounters (dc_failed_attempts k + 1) (dc_acknowledged k)]>
                   (es_delivery_counters st)), tt)
     else Ok (st', tt)).

Definition outbox_stats (st : EventStore) (agent_id : string) : result OutboxStats StorageError :=
  let rows := agent_rows st agent_id in
  let oldest := min_by_key id (map (fun kv => ob_created_at_ms kv.2) rows) in
  let? _ := guard (is_some_and oldest (fun t => t <? 0)) DbError in
  let k := counters_of st agent_id in
  Ok (mkOutboxStats (zlen rows) (dc_failed_attempts k) (dc_acknowledged k) oldest).

End Json.

(** * Lemmas *)

Lemma collect_Ok {A E} (l : list (result A E)) (k : list A) :
  collect l = Ok k <-> l = map Ok k.
Proof.
  revert k. induction l as [|r l IH]; intros k; cbn [collect].
  - destruct k; cbn; naive_solver.
  - rewrite res_bind_Ok. setoid_rewrite res_bind_Ok. split.
    + intros (a & -> & k' & Hk & [= <-]). apply IH in Hk as ->. done.
    + destruct k as [|a k]; [done|]. intros [= -> ->]. exists a. split; [done|]. exists k. split; [by apply IH|done].
Qed.

Section Store.
Context `{Json : DetectionJson}.

(** The invariant: IDs are below their sequence, delivery IDs are unique among
    the pending rows, and every queued text reads back. *)
Record event_store_ok (st : EventStore) : Prop := mkEventStoreOk {
  eo_sequences : 0 <= es_detection_sequence st /\ 0 <= es_outbox_sequence st;
  eo_detections : forall id d, es_detections st !! id = Some d -> 0 < id <= es_detection_sequence st;
  eo_outbox : forall id row, es_outbox st !! id = Some row ->
    0 < id <= es_outbox_sequence st /\ 0 <= ob_attempts row
    /\ exists d, detection_of_json (ob_detection_json row) = Some d;
  eo_unique : forall i j r r', es_outbox st !! i = Some r -> es_outbox st !! j = Some r' ->
    ob_delivery_id r = ob_delivery_id r' -> i = j;
  eo_jobs : forall id row, es_jobs st !! id = Some row ->
    exists d, es_detections st !! id = Some d /\ detection_of_json (rj_detection_json row) = Some d;
  eo_capacity : Z.of_nat (size (es_jobs st)) <= RETENTION_CAPACITY;
}.

Lemma event_store_new_ok : event_store_ok EventStore_new.
Proof. by split. Qed.

Lemma transaction_cases {A} (st : EventStore) (c : commit_outcome)
    (r : result (EventStore * A) StorageError) :
  (transaction st c r).1 = st
  \/ exists st' a, r = Ok (st', a) /\ (transaction st c r).1 = st'.
Proof. destruct r as [[st' a]|e]; [|by left]. destruct c as [|[]]; cbn; eauto. Qed.

Lemma transaction_committed {A} (st : EventStore) (c : commit_outcome)
    (r : result (EventStore * A) StorageError) :
  (transaction st c r).1 = st \/ (transaction st c r).1 = (transaction st Committed r).1.
Proof. destruct r as [[st' a]|e]; [|by left]. destruct c as [|[]]; cbn; auto. Qed.

Lemma transaction_ok {A} (P : EventStore -> Prop) (st : EventStore) (c : commit_outcome)
    (r : result (EventStore * A) StorageError) :
  P st -> (forall st' a, r = Ok (st', a) -> P st') -> P (transaction st c r).1.
Proof. intros Hp Hr. destruct (transaction_cases st c r) as [-> | (st' & a & Ha & ->)]; [done|by eapply Hr]. Qed.

Lemma insert_detection_ok (st st1 : EventStore) (d : Detection) (id : Z) :
  event_store_ok st -> insert_detection st d = Ok (st1, id) ->
  event_store_ok st1 /\ id = es_detection_sequence st + 1 /\ es_jobs st1 !! id = None
  /\ es_detections st1 = <[id := d]> (es_detections st) /\ es_detection_sequence st1 = id
  /\ es_outbox st1 = es_outbox st /\ es_outbox_sequence st1 = es_outbox_sequence st
  /\ es_jobs st1 = es_jobs st /\ es_retention_counters st1 = es_retention_counters st
  /\ es_delivery_counters st1 = es_delivery_counters st.
Proof.
  intros [[H1 H1'] H2 H3 H4 H5 H6]. unfold insert_detection. destruct (_ <=? _); [done|]. intros [= <- <-].
  assert (Hfresh : es_detections st !! (es_detection_sequence st + 1) = None)
    by (destruct (es_detections st !! _) eqn:E; [apply H2 in E; lia|done]).
  split_and!; try done; [split; cbn; try done; [lia| |]|].
  - intros i e [[<- <-]|[_ He]]%lookup_insert_Some; [lia|]. apply H2 in He. lia.
  - intros i row Hi. destruct (H5 i row Hi) as (e & He & Hj). exists e. split; [|done].
    apply lookup_insert_Some. right. split; [congruence|done].
  - cbn. destruct (es_jobs st !! _) eqn:E; [|done]. apply H5 in E as (e & He & _). congruence.
Qed.

Lemma insert_outbox_ok (st st1 : EventStore) (delivery agent_id payload : string) (now : Z) :
  event_store_ok st -> (exists d, detection_of_json payload = Some d) ->
  insert_outbox st delivery agent_id payload now = Ok st1 ->
  event_store_ok st1
  /\ (forall i r, es_outbox st !! i = Some r -> ob_delivery_id r <> delivery)
  /\ st1 = with_outbox st
       (<[es_outbox_sequence st + 1 := mkOutboxRow delivery agent_id payload (as_i64 now) 0 None]> (es_outbox st))
       (es_outbox_sequence st + 1)
  /\ es_outbox st !! (es_outbox_sequence st + 1) = None.
Proof.
  intros [[H1 H1'] H2 H3 H4 H5 H6] Hp. unfold insert_outbox.
  destruct (existsb _ _ || _) eqn:E; [done|]. intros [= <-]. apply orb_false_iff in E as [E _].
  assert (Hnew : forall i r, es_outbox st !! i = Some r -> ob_delivery_id r <> delivery).
  { intros i r Hr He. apply existsb_false_Forall in E. rewrite Forall_forall in E.
    specialize (E (i, r) (proj2 (elem_of_map_to_list _ _ _) Hr)). by apply String.eqb_neq in E. }
  assert (Hfresh : es_outbox st !! (es_outbox_sequence st + 1) = None)
    by (destruct (es_outbox st !! _) eqn:Ef; [apply H3 in Ef; lia|done]).
  split_and!; try done. split; cbn; try done; [lia| |].
  - intros i r [[<- <-]|[_ Hr]]%lookup_insert_Some; [cbn; split_and!; (lia || done)|].
    destruct (H3 i r Hr) as (? & ? & ?). split_and!; (lia || done).
  - intros i j r r' [[<- <-]|[_ Hr]]%lookup_insert_Some [[<- <-]|[_ Hr']]%lookup_insert_Some He; try done.
    + by apply Hnew in Hr'.
    + by apply Hnew in Hr.
    + by eapply H4.
Qed.

Lemma enqueue_retention_ok `{!DetectionJsonLaws} (st st1 : EventStore) (id : Z) (d : Detection) :
  event_store_ok st -> es_detections st !! id = Some d -> enqueue_retention st id d = Ok st1 ->
  event_store_ok st1 /\ es_outbox st1 = es_outbox st /\ es_outbox_sequence st1 = es_outbox_sequence st
  /\ es_detection_sequence st1 = es_detection_sequence st
  /\ es_delivery_counters st1 = es_delivery_counters st
  /\ Z.of_nat (size (es_jobs st1)) + rc_overflow (es_retention_counters st1)
     + rc_completed (es_retention_counters st1)
     = Z.of_nat (size (es_jobs st)) + rc_overflow (es_retention_counters st)
       + rc_completed (es_retention_counters st) + 1.
Proof.
  intros [H1 H2 H3 H4 H5 H6] Hd. unfold enqueue_retention.
  destruct (Z.ltb_spec (Z.of_nat (size (es_jobs st))) RETENTION_CAPACITY).
  - intros (json & Hjson%ok_or_Ok & E)%res_bind_Ok.
    destruct (es_jobs st !! id) eqn:Hid; cbn [is_some] in E; [done|]. injection E as <-.
    assert (Hsz : Z.of_nat (size (<[id := mkRetentionRow json 0 None 0]> (es_jobs st)))
                  = Z.of_nat (size (es_jobs st)) + 1)
      by (rewrite map_size_insert_None by done; lia).
    split_and!; try done; [split; cbn; try done|cbn; lia].
    + intros i row [[<- <-]|[_ Hi]]%lookup_insert_Some; [|by apply H5].
      exists d. split; [done|]. by apply detection_json_roundtrip.
    + lia.
  - intros [= <-]. split_and!; try done. cbn. lia.
Qed.

(** What one recording does, when it takes effect. *)
Definition retention_total (st : EventStore) : Z :=
  Z.of_nat (size (es_jobs st)) + rc_overflow (es_retention_counters st) + rc_completed (es_retention_counters st).

Lemma record_detection_ok `{!DetectionJsonLaws} (st : EventStore) (d : Detection) (agent : option string)
    (retain : bool) (delivery : string) (now : Z) (c : commit_outcome) :
  event_store_ok st ->
  let st' := (record_detection st d agent retain delivery now c).1 in
  event_store_ok st'
  /\ (st' = st
      \/ es_detection_sequence st' = es_detection_sequence st + 1
         /\ es_delivery_counters st' = es_delivery_counters st
         /\ retention_total st' = retention_total st + (if retain then 1 else 0)
         /\ match agent with
            | None => es_outbox st' = es_outbox st /\ es_outbox_sequence st' = es_outbox_sequence st
            | Some agent_id =>
                trim_is_empty agent_id = false
                /\ exists payload, detection_to_json d = Some payload
                /\ (forall i r, es_outbox st !! i = Some r -> ob_delivery_id r <> delivery)
                /\ es_outbox_sequence st' = es_outbox_sequence st + 1
                /\ es_outbox st !! (es_outbox_sequence st + 1) = None
                /\ es_outbox st' = <[es_outbox_sequence st + 1 :=
                     mkOutboxRow delivery agent_id payload (as_i64 now) 0 None]> (es_outbox st)
            end).
Proof.
  intros Hok. cbn zeta. unfold record_detection.
  destruct (is_some_and agent trim_is_empty) eqn:Hblank; [by split; [|left]|].
  match goal with |- context [transaction st c ?r] => pattern ((transaction st c r).1) end.
  apply transaction_ok; [by split; [|left]|].
  intros st3 id ([st1 i] & H1 & (st2 & H2 & (st3' & H3 & [= <- <-])%res_bind_Ok)%res_bind_Ok)%res_bind_Ok.
  cbn [fst snd] in *.
  destruct (insert_detection_ok _ _ _ _ Hok H1) as (Hok1 & Hi & Hjn & Hdet & Hseq & Hob & Hobs & Hjobs & Hrc & Hdc).
  assert (Hmid : event_store_ok st2 /\ es_detections st2 !! i = Some d
    /\ es_detection_sequence st2 = i /\ es_delivery_counters st2 = es_delivery_counters st
    /\ retention_total st2 = retention_total st
    /\ match agent with
       | None => es_outbox st2 = es_outbox st /\ es_outbox_sequence st2 = es_outbox_sequence st
       | Some agent_id =>
           exists payload, detection_to_json d = Some payload
           /\ (forall k r, es_outbox st !! k = Some r -> ob_delivery_id r <> delivery)
           /\ es_outbox_sequence st2 = es_outbox_sequence st + 1
           /\ es_outbox st !! (es_outbox_sequence st + 1) = None
           /\ es_outbox st2 = <[es_outbox_sequence st + 1 :=
                mkOutboxRow delivery agent_id payload (as_i64 now) 0 None]> (es_outbox st)
       end).
  { destruct agent as [agent_id|].
    - apply res_bind_Ok in H2 as (payload & Hp%ok_or_Ok & H2).
      apply insert_outbox_ok in H2 as (Hok2 & Hnew & -> & Hfr);
        [|done|eexists; by apply detection_json_roundtrip].
      rewrite Hob, Hobs in *. unfold retention_total. cbn. rewrite Hdet, lookup_insert_eq, Hjobs, Hrc.
      split_and!; try done. by exists payload.
    - injection H2 as <-. unfold retention_total. rewrite Hdet, lookup_insert_eq, Hjobs, Hrc. done. }
  clear H2. destruct Hmid as (Hok2 & Hd2 & Hs2 & Hdc2 & Hrt2 & Hag).
  destruct retain.
  - destruct (enqueue_retention_ok _ _ _ _ Hok2 Hd2 H3) as (Hok3 & Ho3 & Hos3 & Hds3 & Hdc3 & Hrt3).
    split; [done|right]. fold (retention_total st3') (retention_total st2) in Hrt3. rewrite Ho3, Hos3.
    split_and!; [lia|congruence|lia|]. destruct agent; [|done]. by split.
  - injection H3 as <-. split; [done|right]. split_and!; [lia|done|lia|]. destruct agent; [|done]. by split.
Qed.

(** A recording that succeeds has taken effect. *)
Lemma record_detection_counts (st : EventStore) (d : Detection) (agent : option string) (retain : bool)
    (delivery : string) (now : Z) (c : commit_outcome) :
  let p := record_detection st d agent retain delivery now c in
  is_ok p.2 = true -> es_detection_sequence p.1 = es_detection_sequence st + 1.
Proof.
  cbn zeta. unfold record_detection, transaction. destruct (is_some_and agent trim_is_empty); [done|].
  destruct (let? r := insert_detection st d in _) as [[st3 id]|e] eqn:E; [|done].
  destruct c as [|[]]; cbn; try done. intros _.
  apply res_bind_Ok in E as ([st1 i] & H1 & (st2 & H2 & (st3' & H3 & [= -> ->])%res_bind_Ok)%res_bind_Ok).
  cbn [fst snd] in *. unfold insert_detection in H1. destruct (_ <=? _); [done|]. injection H1 as <- <-.
  assert (es_detection_sequence st2 = es_detection_sequence st + 1) as <-.
  { destruct agent as [agent_id|]; [|by injection H2 as <-]. apply res_bind_Ok in H2 as (payload & _ & H2).
    unfold insert_outbox in H2. destruct (_ || _); [done|]. by injection H2 as <-. }
  destruct retain; [|by injection H3 as <-]. unfold enqueue_retention in H3.
  destruct (_ <? _); [|by injection H3 as <-]. apply res_bind_Ok in H3 as (json & _ & H3).
  destruct (is_some _); [done|]. by injection H3 as <-.
Qed.

Lemma insert_detection_with_outbox_ok `{!DetectionJsonLaws} (st : EventStore) (d : Detection)
    (agent_id delivery : string) (now : Z) (c : commit_outcome) :
  event_store_ok st ->
  let st' := (insert_detection_with_outbox st d agent_id delivery now c).1 in
  event_store_ok st' /\ retention_total st' = retention_total st.
Proof.
  intros Hok. cbn zeta. unfold insert_detection_with_outbox. destruct (trim_is_empty agent_id); [done|].
  destruct (detection_to_json d) as [payload|] eqn:Hp; [|done].
  match goal with |- context [transaction st c ?r] => pattern ((transaction st c r).1) end.
  apply transaction_ok; [done|].
  intros st2 [] ([st1 i] & H1 & (st2' & H2 & [= <-])%res_bind_Ok)%res_bind_Ok. cbn [fst snd] in *.
  destruct (insert_detection_ok _ _ _ _ Hok H1) as (Hok1 & _ & _ & _ & _ & _ & _ & Hj & Hr & _).
  apply insert_outbox_ok in H2 as (Hok2 & _ & -> & _); [|done|eexists; by apply detection_json_roundtrip].
  split; [done|]. unfold retention_total. cbn. by rewrite Hj, Hr.
Qed.

Lemma acknowledge_retention_job_ok (st : EventStore) (id : Z) (c : commit_outcome) :
  event_store_ok st ->
  let st' := (acknowledge_retention_job st id c).1 in
  event_store_ok st' /\ retention_total st' = retention_total st.
Proof.
  intros Hok. cbn zeta. unfold acknowledge_retention_job. apply transaction_ok; [done|]. intros st' [].
  destruct (es_jobs st !! id) as [row|] eqn:E; cbn [is_some]; intros [= <-]; [|done].
  assert (Hsz : size (es_jobs st) = S (size (delete id (es_jobs st)))).
  { rewrite <- (insert_id (es_jobs st) id row) at 1 by done. rewrite <- insert_delete_eq.
    by rewrite map_size_insert_None by apply lookup_delete_eq. }
  destruct Hok as [H1 H2 H3 H4 H5 H6].
  split; [|unfold retention_total; cbn; lia]. split; cbn; try done; [|lia].
  intros i r [_ Hr]%lookup_delete_Some. by apply H5.
Qed.

Lemma record_retention_failure_ok (st : EventStore) (id : Z) error next (c : commit_outcome) :
  event_store_ok st ->
  let st' := (record_retention_failure st id error next c).1 in
  event_store_ok st' /\ retention_total st' = retention_total st.
Proof.
  intros Hok. cbn zeta. unfold record_retention_failure. destruct (_ <? next); [done|].
  apply transaction_ok; [done|]. intros st' []. destruct (es_jobs st !! id) as [row|] eqn:E; intros [= <-]; [|done].
  assert (Hsz : size (<[id := retry_row row error next]> (es_jobs st)) = size (es_jobs st))
    by (rewrite map_size_insert_Some; [done|by eexists]).
  destruct Hok as [H1 H2 H3 H4 H5 H6].
  split; [|unfold retention_total; cbn; lia]. split; cbn; try done; [|lia].
  intros i r [[<- <-]|[_ Hr]]%lookup_insert_Some; [|by apply H5]. cbn. by apply (H5 id).
Qed.

Lemma acknowledge_delivery_ok (st : EventStore) (delivery agent_id : string) (c : commit_outcome) :
  event_store_ok st ->
  let st' := (acknowledge_delivery st delivery agent_id c).1 in
  event_store_ok st' /\ retention_total st' = retention_total st
  /\ (es_outbox st' = es_outbox st
      \/ es_outbox st' = filter (fun kv : Z * OutboxRow => is_delivery delivery agent_id kv.2 = false) (es_outbox st)).
Proof.
  intros Hok. cbn zeta. unfold acknowledge_delivery.
  set (kept := filter _ (es_outbox st)).
  assert (Hk : event_store_ok (with_outbox st kept (es_outbox_sequence st))).
  { destruct Hok as [H1 H2 H3 H4 H5 H6]. split; cbn; try done.
    - intros i r [Hr _]%map_lookup_filter_Some. by apply H3.
    - intros i j r r' [Hr _]%map_lookup_filter_Some [Hr' _]%map_lookup_filter_Some. by apply H4. }
  match goal with |- context [transaction st c ?r] => pattern ((transaction st c r).1) end.
  apply transaction_ok; [by auto|]. intros st' [].
  destruct (Nat.ltb _ _); intros [= <-]; (split; [|by auto]); [|done]. by destruct Hk; split.
Qed.

Lemma record_delivery_failure_ok (st : EventStore) (delivery agent_id error : string) (c : commit_outcome) :
  event_store_ok st ->
  let st' := (record_delivery_failure st delivery agent_id error c).1 in
  event_store_ok st' /\ retention_total st' = retention_total st
  /\ (forall i, es_outbox st' !! i = es_outbox st !! i
        \/ exists row, es_outbox st !! i = Some row /\ es_outbox st' !! i = Some (failed_row row error)).
Proof.
  intros Hok. cbn zeta. unfold record_delivery_failure.
  set (upd := fun row => if is_delivery delivery agent_id row then failed_row row error else row).
  assert (Hl : forall i, (upd <$> es_outbox st) !! i = es_outbox st !! i
    \/ exists row, es_outbox st !! i = Some row /\ (upd <$> es_outbox st) !! i = Some (failed_row row error)).
  { intros i. rewrite lookup_fmap. destruct (es_outbox st !! i) as [row|]; [|by left]. cbn. unfold upd.
    destruct (is_delivery _ _ _); [right; by exists row|by left]. }
  assert (Hk : event_store_ok (with_outbox st (upd <$> es_outbox st) (es_outbox_sequence st))).
  { destruct Hok as [H1 H2 H3 H4 H5 H6].
    assert (Hu : forall row, ob_delivery_id (upd row) = ob_delivery_id row
      /\ ob_detection_json (upd row) = ob_detection_json row /\ ob_attempts row <= ob_attempts (upd row))
      by (intros row; unfold upd; destruct (is_delivery _ _ _); cbn; split_and!; (lia || done)).
    split; cbn; try done.
    - intros i r (row & <- & Hr)%lookup_fmap_Some. destruct (Hu row) as (_ & -> & ?).
      destruct (H3 i row Hr) as (? & ? & ?). split_and!; (lia || done).
    - intros i j r r' (x & <- & Hr)%lookup_fmap_Some (y & <- & Hr')%lookup_fmap_Some.
      destruct (Hu x) as (-> & _), (Hu y) as (-> & _). by apply H4. }
  match goal with |- context [transaction st c ?r] => pattern ((transaction st c r).1) end.
  apply transaction_ok; [by auto|]. intros st' [].
  destruct (existsb _ _); intros [= <-]; (split; [|by auto]); [|done]. by destruct Hk; split.
Qed.

(** * Any sequence of operations *)

Inductive EventOp : Type :=
| OpRecord (d : Detection) (agent_id : option string) (retain : bool) (delivery : string) (now : Z) (c : commit_outcome)
| OpInsert (d : Detection) (agent_id delivery : string) (now : Z) (c : commit_outcome)
| OpAckJob (id : Z) (c : commit_outcome)
| OpFailJob (id : Z) (error : string) (next : Z) (c : commit_outcome)
| OpAck (delivery agent_id : string) (c : commit_outcome)
| OpFail (delivery agent_id error : string) (c : commit_outcome).

Definition event_step (st : EventStore) (op : EventOp) : EventStore :=
  match op with
  | OpRecord d agent retain delivery now c => (record_detection st d agent retain delivery now c).1
  | OpInsert d agent delivery now c => (insert_detection_with_outbox st d agent delivery now c).1
  | OpAckJob id c => (acknowledge_retention_job st id c).1
  | OpFailJob id error next c => (record_retention_failure st id error next c).1
  | OpAck delivery agent c => (acknowledge_delivery st delivery agent c).1
  | OpFail delivery agent error c => (record_delivery_failure st delivery agent error c).1
  end.
Definition event_run (st : EventStore) (ops : list EventOp) : EventStore := fold_left event_step ops st.

(** The detections recorded for retention: those whose row appeared. *)
Fixpoint retained (st : EventStore) (ops : list EventOp) : Z :=
  match ops with
  | [] => 0
  | op :: ops' =>
      let st' := event_step st op in
      (match op with
       | OpRecord _ _ true _ _ _ => es_detection_sequence st' - es_detection_sequence st
       | _ => 0
       end) + retained st' ops'
  end.

Lemma event_step_ok `{!DetectionJsonLaws} (st : EventStore) (op : EventOp) :
  event_store_ok st ->
  event_store_ok (event_step st op)
  /\ retention_total (event_step st op) = retention_total st
     + match op with
       | OpRecord _ _ true _ _ _ => es_detection_sequence (event_step st op) - es_detection_sequence st
       | _ => 0
       end.
Proof.
  intros Hok. destruct op; cbn [event_step].
  - destruct (record_detection_ok st d agent_id retain delivery now c Hok) as [Hok' [-> | (H1 & _ & H2 & _)]].
    + split; [done|]. destruct retain; lia.
    + split; [done|]. destruct retain; lia.
  - destruct (insert_detection_with_outbox_ok st d agent_id delivery now c Hok). split; [done|lia].
  - destruct (acknowledge_retention_job_ok st id c Hok). split; [done|lia].
  - destruct (record_retention_failure_ok st id error next c Hok). split; [done|lia].
  - destruct (acknowledge_delivery_ok st delivery agent_id c Hok) as (? & ? & _). split; [done|lia].
  - destruct (record_delivery_failure_ok st delivery agent_id error c Hok) as (? & ? & _). split; [done|lia].
Qed.

Lemma event_run_ok `{!DetectionJsonLaws} (ops : list EventOp) : forall st : EventStore,
  event_store_ok st ->
  event_store_ok (event_run st ops)
  /\ retention_total (event_run st ops) = retention_total st + retained st ops.
Proof.
  induction ops as [|op ops IH]; intros st Hok; [cbn; split; [done|lia]|].
  change (event_run st (op :: ops)) with (event_run (event_step st op) ops). cbn [retained].
  destruct (event_step_ok st op Hok) as [Hok1 Ht]. destruct (IH _ Hok1) as [Hok2 Ht2]. split; [done|]. lia.
Qed.

End Store.

(** The jobs handed out carry the detections stored under their IDs. *)
Lemma pending_jobs_detections `{Json : DetectionJson} (st : EventStore) (now limit : Z)
    (jobs : list RetentionJob) (job : RetentionJob) :
  event_store_ok st -> pending_retention_jobs st now limit = Ok jobs -> job ∈ jobs ->
  es_detections st !! jb_detection_id job = Some (jb_detection job).
Proof.
  intros Hok. unfold pending_retention_jobs. destruct (_ || _); [done|]. intros Hc%collect_Ok Hjob.
  assert (Hj : Ok job ∈ map retention_job (take (Z.to_nat limit) (due_jobs st now)))
    by (rewrite Hc; apply list_elem_of_fmap; by exists job).
  apply list_elem_of_fmap in Hj as ([id row] & Hj & Hin%elem_of_take).
  unfold due_jobs in Hin. rewrite sort_by_perm in Hin. apply filter_elem in Hin as [Hin _].
  apply elem_of_map_to_list in Hin. symmetry in Hj. unfold retention_job in Hj. cbn in Hj.
  apply ok_or_bind_Ok in Hj as (d & Hd & [= <-]). cbn.
  destruct (eo_jobs _ Hok _ _ Hin) as (d' & Hd' & Hp). congruence.
Qed.

(** No retention request goes missing. Whatever operations run, and
    whatever becomes of their COMMITs, every detection recorded for retention
    is a pending job, a completed one or counted as overflow; the queue never
    exceeds its capacity, and each pending job reads back as the detection
    stored under its ID. *)
Theorem retention_jobs_accounted `{Json : DetectionJson} `{!DetectionJsonLaws} (ops : list EventOp) :
  let st := event_run EventStore_new ops in
  let stats := retention_stats st in
  rst_pending stats + rst_completed stats + rst_overflow stats = retained EventStore_new ops
  /\ 0 <= rst_pending stats <= RETENTION_CAPACITY
  /\ (forall now limit jobs, pending_retention_jobs st now limit = Ok jobs ->
        zlen jobs <= 100
        /\ forall job, job ∈ jobs -> es_detections st !! jb_detection_id job = Some (jb_detection job)).
Proof.
  cbn zeta. destruct (event_run_ok ops EventStore_new event_store_new_ok) as [Hok Ht].
  set (st := event_run EventStore_new ops) in *.
  unfold retention_total in Ht. cbn in Ht. rewrite map_size_empty in Ht. unfold retention_stats. cbn [rst_pending rst_completed rst_overflow].
  split_and!; [lia|lia|apply Hok|]. intros now limit jobs Hjobs.
  split; [|intros job Hjob; by eapply pending_jobs_detections]. revert Hjobs. unfold pending_retention_jobs.
  destruct (_ || _) eqn:Eb; [done|]. split_bools. intros Hc%collect_Ok.
  apply (f_equal length) in Hc. rewrite !length_map, length_take in Hc. unfold zlen. lia.
Qed.

(** * Instances *)

(** A JSON that knows one detection. *)
Definition one_json (d0 : Detection) : DetectionJson := {|
  detection_to_json d := if decide (d = d0) then Some "json"%string else None;
  detection_of_json s := if String.eqb s "json" then Some d0 else None;
|}.

Lemma one_json_laws (d0 : Detection) : @DetectionJsonLaws (one_json d0).
Proof. intros d s. cbn. destruct (decide (d = d0)) as [->|]; [|done]. by intros [= <-]. Qed.

#[local] Abbreviation a_detection := (mkDetection 15 "rule" (f_of_Z 50) High "summary" 7 ["/f"%string]).

Lemma retention_jobs_accounted_witness :
  rst_pending (retention_stats (@event_run (one_json a_detection) EventStore_new
    [OpRecord a_detection (Some "agent"%string) true "id-1" 5 Committed;
     OpRecord a_detection None true "" 6 (CommitFailed false)])) <= RETENTION_CAPACITY.
Proof.
  exact (proj2 (proj1 (proj2 (@retention_jobs_accounted (one_json a_detection) (one_json_laws a_detection)
    [OpRecord a_detection (Some "agent"%string) true "id-1" 5 Committed;
     OpRecord a_detection None true "" 6 (CommitFailed false)])))).
Defined.
