(* ===== verification/Agent.v ===== *)
(** The agent (crates/argos-agent/src/main.rs, coverage_worker.rs and the queue of
    backup_worker.rs): the guard of the policy time, the processing of one
    file event through sampling, detection, response and persistence, and the steps
    of the main loop, over the engine, the monitor of configuration files, the
    response, the event store and the process monitor. *)
From Stdlib Require Import ZArith Lia Ascii.
From stdpp Require Import base gmap sets strings list pretty.
From S2P Require Import Prelude F64 RustPath RustStr Common Kernel Response ProcMon Entropy Scorer MultiWindow Engine PolicyTrust Outbox Semantic Coverage.
#[local] Open Scope Z_scope.

(** * The guard of the policy time *)

(** The part of the JSON value that the guard reads. *)
Record PolicyRuntime := mkPolicyRuntime {
  pr_version : Z;
  pr_sha256 : string;
  pr_not_before_ms : Z;
  pr_expires_at_ms : Z;
  pr_invalid : bool;
}.
Definition time_invalid (p : PolicyRuntime) (now : Z) : bool :=
  pr_invalid p || (now <? pr_not_before_ms p) || (pr_expires_at_ms p <=? now).
Definition set_invalid (p : PolicyRuntime) : PolicyRuntime :=
  mkPolicyRuntime (pr_version p) (pr_sha256 p) (pr_not_before_ms p) (pr_expires_at_ms p) true.
Definition no_auto_block (r : ResponseConfig) : ResponseConfig := mkResponseConfig false (rc_block_score r).
Definition guard_policy_time (policy : option PolicyRuntime) (response : ResponseConfig) (now : Z)
    : option PolicyRuntime * ResponseConfig :=
  match policy with
  | Some p => if time_invalid p now then (Some (set_invalid p), no_auto_block response) else (policy, response)
  | None => (policy, response)
  end.

(** * The tables of the event database *)

Record ResponseAudit := mkResponseAudit {
  ra_timestamp_ms : Z;
  ra_pid : Z;
  ra_start_time_ticks : option Z;
  ra_boot_id : option string;
  ra_score : f64;
  ra_action : string;
  ra_outcome : string;
  ra_error : option string;
}.
(** The columns of [file_events]; the last one holds the event as JSON. SQLite stores
    a NaN as NULL. *)
Record FileEventRecord := mkFileEventRecord {
  fr_timestamp_ms : Z;
  fr_pid : Z;
  fr_path : string;
  fr_action : string;
  fr_size : option Z;
  fr_entropy : option f64;
  fr_event : FileEvent;
}.
Record AgentStore := mkAgentStore {
  as_events : EventStore;
  as_file_events : list FileEventRecord;
  as_process_events : list ProcessEvent;
  as_responses : list ResponseAudit;
}.
Definition AgentStore_new : AgentStore := mkAgentStore EventStore_new [] [] [].

(** [ok]: whether the statement succeeds. *)
Definition insert_response_result (st : AgentStore) (a : ResponseAudit) (ok : bool) : AgentStore * result unit StorageError :=
  if (i64_max <? ra_timestamp_ms a) || negb (f_is_finite (ra_score a))
     || negb (f_in_range (f_of_Z 0) (f_of_Z 100) (ra_score a))
  then (st, Err InvalidRange)
  else if ok then (mkAgentStore (as_events st) (as_file_events st) (as_process_events st) (as_responses st ++ [a]), Ok tt)
  else (st, Err DbError).

Definition file_event_row (e : FileEvent) : FileEventRecord :=
  mkFileEventRecord (as_i64 (fe_timestamp_ms e)) (fe_pid e) (fe_path e) (action_debug (fe_action e)) (as_i64 <$> fe_size e)
    (opt_filter (fun x => negb (f_is_nan x)) (fe_entropy e)) e.
Definition insert_file_event (st : AgentStore) (e : FileEvent) (ok : bool) : AgentStore * result unit StorageError :=
  if ok then (mkAgentStore (as_events st) (as_file_events st ++ [file_event_row e]) (as_process_events st) (as_responses st), Ok tt)
  else (st, Err DbError).
Definition insert_process_event (st : AgentStore) (e : ProcessEvent) (ok : bool) : AgentStore * result unit StorageError :=
  if ok then (mkAgentStore (as_events st) (as_file_events st) (as_process_events st ++ [e]) (as_responses st), Ok tt)
  else (st, Err DbError).
Definition with_events (st : AgentStore) (es : EventStore) : AgentStore :=
  mkAgentStore es (as_file_events st) (as_process_events st) (as_responses st).

(** * The queue of the backup worker *)

Record BackupQueue := mkBackupQueue {
  bq_jobs : list (string * Z);
  bq_capacity : Z;
  bq_closed : bool;
  bq_queued : Z;
  bq_dropped : Z;
}.
Definition enqueue_backup (q : BackupQueue) (event : FileEvent) : BackupQueue :=
  if bq_closed q || (bq_capacity q <=? zlen (bq_jobs q))
  then mkBackupQueue (bq_jobs q) (bq_capacity q) (bq_closed q) (bq_queued q) (wrap_add (bq_dropped q) 1)
  else mkBackupQueue (bq_jobs q ++ [(fe_path event, fe_pid event)]) (bq_capacity q) (bq_closed q)
         (wrap_add (bq_queued q) 1) (bq_dropped q).

(** * The state of the process *)

Record Agent := mkAgent {
  ag_detection : DetectionConfig;
  ag_response : ResponseConfig;
  ag_policy : option PolicyRuntime;
  ag_store : AgentStore;
  ag_engine : DetectionEngine;
  ag_sampler : option ContentSampler;
  ag_semantic : SemanticMonitor;
  ag_backup : option BackupQueue;
  (** The ID of the agent when it reports to a server, and how often it woke the reporter. *)
  ag_reporter : option string;
  ag_notified : Z;
  ag_incomplete : bool;
  (** The responder chosen at the start. *)
  ag_responds : bool;
}.

(** What the system calls of one event return. *)
Record EventEnv := mkEventEnv {
  en_loop_now : Z;
  en_chunk : nat -> nat;
  en_content : option (list Z);
  en_observation : FileObservation;
  en_sample_now : Z;
  en_look : Look;
  en_guard_now : Z;
  en_audit_now : Z;
  en_audit_ok : bool;
  en_event_ok : bool;
  (** The random delivery ID, the clock and the COMMIT of the n-th recording. *)
  en_record : nat -> string * Z * commit_outcome;
}.

Definition with_entropy (e : FileEvent) (entropy : option f64) (content : option ContentEvidence) : FileEvent :=
  {| fe_timestamp_ms := fe_timestamp_ms e; fe_pid := fe_pid e; fe_path := fe_path e; fe_action := fe_action e;
     fe_size := fe_size e; fe_entropy := entropy; fe_process := fe_process e; fe_content := content |}.

Section Process.
Context `{RustStd} `{DetectionJson}.

(** ** Sampling *)

(** Enough turns for the read loop (theorem [file_entropy_prefix]). *)
Definition entropy_fuel (max_bytes : Z) : nat := S (Z.to_nat (Z.min max_bytes MAX_SAMPLE_BYTES)).
Definition content_action (a : FileAction) : bool := match a with Create | Modify => true | _ => false end.
Definition sample_event (detection : DetectionConfig) (sampler : option ContentSampler) (event : FileEvent) (env : EventEnv)
    : option ContentSampler * FileEvent * bool :=
  let event :=
    if negb (is_some sampler) && bool_decide (fe_action event = Modify) && (0 <? dc_entropy_sample_bytes detection)
    then with_entropy event
           (r ← file_entropy (entropy_fuel (dc_entropy_sample_bytes detection)) (en_chunk env) (en_content env)
                  (dc_entropy_sample_bytes detection); res_ok r) (fe_content event)
    else event in
  match sampler with
  | Some s =>
      if content_action (fe_action event) then
        match sampler_observe s (fe_path event) (en_observation env) (en_sample_now env) with
        | (s, Ok content) => (Some s, with_entropy event (cs_entropy <$> head (ce_samples content)) (Some content), false)
        | (s, Err _) => (Some s, with_entropy event None None, true)
        end
      else (sampler, event, false)
  | None => (sampler, event, false)
  end.

(** ** Detection *)

Definition add_alert (e : Evaluation) (alert : option Detection) : Evaluation :=
  match alert with
  | None => e
  | Some d => mkEvaluation (ev_score e) (ev_pid e) (ev_eligible e) (ev_alert e) (ev_approved_change_id e)
                (ev_additional_alerts e ++ [d]) (ev_evidence_truncated e)
  end.
Definition assess (engine : DetectionEngine) (semantic : SemanticMonitor) (event : FileEvent) (env : EventEnv)
    : DetectionEngine * SemanticMonitor * Evaluation :=
  let '(engine, evaluation) := engine_evaluate engine event in
  let '(semantic, alert) := semantic_observe semantic event (en_look env) in
  (engine, semantic, add_alert evaluation alert).

(** ** Response *)

Section Respond.
Context {W : Type} `{Kernel W}.

Definition IDENTITY_UNKNOWN : string := "프로세스 시작 신원 미확인".
Definition respond_to (responds : bool) (w : W) (event : FileEvent) (evaluation : Evaluation) (response : ResponseConfig)
    : W * option (string * option string) :=
  if should_block evaluation response then
    match fe_process event with
    | Some identity =>
        let action := KillProcessInstance (ev_pid evaluation) (fp_start_time_ticks identity) (fp_boot_id identity) in
        match make_responder responds w action with
        | (w, Ok _) => (w, Some ("succeeded", None))
        | (w, Err e) => (w, Some ("failed_or_unconfirmed", Some (response_error_fmt (W := W) e)))
        end
    | None => (w, Some ("rejected", Some IDENTITY_UNKNOWN))
    end
  else if block_candidate evaluation response then (w, Some ("observed_threshold", None))
  else (w, None).

(** ** Persistence *)

Definition response_audit (event : FileEvent) (evaluation : Evaluation) (now : Z) (r : string * option string) : ResponseAudit :=
  mkResponseAudit now (ev_pid evaluation) (fp_start_time_ticks <$> fe_process event) (fp_boot_id <$> fe_process event)
    (ev_score evaluation) "kill_process" r.1 r.2.

(** The loop over the alerts from the [n]-th recording on. *)
Fixpoint record_alerts (agent_id : option string) (has_backup : bool) (env : EventEnv) (n : nat)
    (es : EventStore) (notified : Z) (alerts : list Detection) : EventStore * Z :=
  match alerts with
  | [] => (es, notified)
  | d :: alerts =>
      let '(delivery, now, commit) := en_record env n in
      let '(es, r) := record_detection es d agent_id (has_backup && f_gt (d_score d) (f_of_Z 0)) delivery now commit in
      let notified := match r with Ok _ => if is_some agent_id then notified + 1 else notified | Err _ => notified end in
      record_alerts agent_id has_backup env (S n) es notified alerts
  end.
Definition alerts_of (e : Evaluation) : list Detection :=
  (match ev_alert e with Some d => [d] | None => [] end) ++ ev_additional_alerts e.

Definition process_event (w : W) (a : Agent) (event : FileEvent) (env : EventEnv) : W * Agent :=
  let '(sampler, event, sampling_failed) := sample_event (ag_detection a) (ag_sampler a) event env in
  let '(engine, semantic, evaluation) := assess (ag_engine a) (ag_semantic a) event env in
  let '(policy, response_policy) := guard_policy_time (ag_policy a) (ag_response a) (en_guard_now env) in
  let '(w, response_result) := respond_to (ag_responds a) w event evaluation response_policy in
  let store :=
    match response_result with
    | Some r => fst (insert_response_result (ag_store a) (response_audit event evaluation (en_audit_now env) r) (en_audit_ok env))
    | None => ag_store a
    end in
  let store := fst (insert_file_event store event (en_event_ok env)) in
  let backup := (fun q => if content_action (fe_action event) then enqueue_backup q event else q) <$> ag_backup a in
  let '(es, notified) :=
    record_alerts (ag_reporter a) (is_some (ag_backup a)) env 0 (as_events store) (ag_notified a) (alerts_of evaluation) in
  (w, mkAgent (ag_detection a) (ag_response a) policy (with_events store es) engine sampler semantic backup
        (ag_reporter a) notified (ev_evidence_truncated evaluation || sampling_failed) (ag_responds a)).

(** * The main loop *)

(** The guard of the loop changes the configuration of the process itself. *)
Definition guard_loop (a : Agent) (now : Z) : Agent :=
  let '(policy, response) := guard_policy_time (ag_policy a) (ag_response a) now in
  mkAgent (ag_detection a) response policy (ag_store a) (ag_engine a) (ag_sampler a) (ag_semantic a) (ag_backup a)
    (ag_reporter a) (ag_notified a) (ag_incomplete a) (ag_responds a).

Inductive AgentStep :=
  | FileArrives (event : FileEvent) (env : EventEnv)
  | ProcessArrives (event : ProcessEvent) (ok : bool)
  | HealthTick (now : Z).

Definition agent_step (s : W * Agent) (step : AgentStep) : W * Agent :=
  let '(w, a) := s in
  match step with
  | FileArrives event env => process_event w (guard_loop a (en_loop_now env)) event env
  | ProcessArrives event ok =>
      (w, mkAgent (ag_detection a) (ag_response a) (ag_policy a) (fst (insert_process_event (ag_store a) event ok)) (ag_engine a)
            (ag_sampler a) (ag_semantic a) (ag_backup a) (ag_reporter a) (ag_notified a) (ag_incomplete a) (ag_responds a))
  | HealthTick now => (w, guard_loop a now)
  end.
Definition agent_run (s : W * Agent) (steps : list AgentStep) : W * Agent := fold_left agent_step steps s.

(** * The start, the health of the protection and the coverage status *)

(** The configuration file, with the watch paths as given to the sensors. *)
Record AgentConfig := mkAgentConfig {
  cf_watch_paths : list string;
  cf_sensor : SensorKind;
  cf_detection : DetectionConfig;
  cf_response : ResponseConfig;
  cf_policy : PolicyFileConfig;
  cf_backup_enabled : bool;
  cf_backup_dir : string;
  cf_backup_capacity : Z;
  cf_backup_io_bytes : Z;
  cf_reporter : option string;
  cf_semantic : SemanticConfig;
}.
Definition BACKUP_INSIDE : string := "백업 디렉터리는 감시 경로 밖에 두어야 합니다".
Definition BACKUP_LIMITS : string := "backup.queue_capacity와 io_bytes_per_sec는 0보다 커야 합니다".
Definition policy_runtime (p : ActivatedPolicy) : PolicyRuntime :=
  mkPolicyRuntime (po_version (ap_policy p)) (ap_sha256 p) (po_not_before_ms (ap_policy p)) (po_expires_at_ms (ap_policy p)) false.

(** [activated]: the result of the activation of the configured policy; [opened]: the
    databases at the configured path, with the rows of earlier runs; [looks]: what
    the first look at each configuration file finds. *)
Definition agent_start (c : AgentConfig) (activated : result ActivatedPolicy string) (opened : result AgentStore string)
    (looks : string -> Look) : result Agent string :=
  let? policy := if policy_is_enabled (cf_policy c) then let? p := activated in Ok (Some p) else Ok None in
  let detection := match policy with Some p => po_detection (ap_policy p) | None => cf_detection c end in
  let response := match policy with Some p => po_response (ap_policy p) | None => cf_response c end in
  let? _ := validate_configuration detection response (cf_sensor c) in
  let? store := opened in
  let? semantic := monitor_new (cf_semantic c) (cf_watch_paths c) looks in
  let sampling := dc_content_sampling detection in
  let? _ := guard (cf_backup_enabled c && existsb (path_starts_with (cf_backup_dir c)) (cf_watch_paths c)) BACKUP_INSIDE in
  let? _ := guard (cf_backup_enabled c && ((cf_backup_capacity c =? 0) || (cf_backup_io_bytes c =? 0))) BACKUP_LIMITS in
  Ok (mkAgent detection response (policy_runtime <$> policy) store (engine_with_sensor detection (cf_sensor c))
        (if sm_enabled sampling then Some (ContentSampler_new (sm_total_bytes sampling) (sm_max_files sampling) (sm_history_secs sampling))
         else None)
        semantic
        (if cf_backup_enabled c then Some (mkBackupQueue [] (cf_backup_capacity c) false 0 0) else None)
        (cf_reporter c) 0 false (rc_auto_block response)).

Definition coverage_stale (interval_secs age_ms now : Z) (report : CoverageReport) : bool :=
  (Z.max (sat_mul interval_secs 2000) 60000 <? age_ms) || (now <? cr_checked_at_ms report).
(** [slot]: the last report and its age, [None] before the first one; [locked]:
    whether the mutex is free of poison. *)
Definition coverage_status (interval_secs : Z) (alive locked : bool) (slot : option (CoverageReport * Z)) (now : Z) : bool :=
  if negb locked then false
  else match slot with
       | Some (report, age_ms) => negb (coverage_stale interval_secs age_ms now report) && alive && negb (has_gap report)
       | None => false
       end.

Definition sensor_ok (h : SensorHealthSnapshot) : bool :=
  sh_alive h && (sh_errors h =? 0) && (sh_dropped_events h =? 0) && (sh_kernel_overflows h =? 0).
(** [pins]: the overflow and error counters of the retention worker. *)
Definition agent_healthy (a : Agent) (coverage_healthy : bool) (pins : option (Z * Z)) (sensor : SensorHealthSnapshot)
    (process : option SensorHealthSnapshot) : bool :=
  coverage_healthy
  && is_none_or pins (fun p => (p.1 =? 0) && (p.2 =? 0))
  && negb (is_some_and (ag_policy a) pr_invalid)
  && negb (ag_incomplete a)
  && (unavailable_count (ag_semantic a) =? 0)
  && sensor_ok sensor
  && is_none_or process (fun h => sh_alive h && (sh_errors h =? 0) && (sh_dropped_events h =? 0)).

End Respond.
End Process.

(** * Lemmas on one event *)

Section Event.
Context `{RustStd} `{DetectionJson}.

Lemma sample_event_keeps detection sampler event env :
  let e := (sample_event detection sampler event env).1.2 in
  fe_pid e = fe_pid event /\ fe_process e = fe_process event /\ fe_path e = fe_path event
  /\ fe_action e = fe_action event /\ fe_timestamp_ms e = fe_timestamp_ms event.
Proof.
  unfold sample_event. destruct (_ && _); destruct sampler as [s|]; cbn; try done;
    destruct (content_action _); cbn; try done; destruct (sampler_observe _ _ _ _) as [s' [c|e]]; done.
Qed.

Lemma add_alert_block e alert response : should_block (add_alert e alert) response = should_block e response
  /\ block_candidate (add_alert e alert) response = block_candidate e response /\ ev_pid (add_alert e alert) = ev_pid e.
Proof. by destruct alert. Qed.

Lemma assess_block engine semantic event env response :
  let e := (assess engine semantic event env).2 in
  should_block e response = should_block (engine_evaluate engine event).2 response /\ ev_pid e = fe_pid event
  /\ (assess engine semantic event env).1.1 = (engine_evaluate engine event).1.
Proof.
  unfold assess. pose proof (engine_pid engine event) as Hp. destruct (engine_evaluate engine event) as [engine' e].
  destruct (semantic_observe _ _ _) as [semantic' alert]. cbn in *.
  destruct (add_alert_block e alert response) as (-> & _ & ->). done.
Qed.

Section Effects.
Context {W : Type} `{ProcessLaws W}.
Implicit Types w : W.

(** What reaches the responder of one event. *)
Lemma process_event_world w a event env :
  let e := (sample_event (ag_detection a) (ag_sampler a) event env).1.2 in
  fst (process_event w a event env)
  = fst (respond_to (ag_responds a) w e (assess (ag_engine a) (ag_semantic a) e env).2
           (guard_policy_time (ag_policy a) (ag_response a) (en_guard_now env)).2).
Proof.
  unfold process_event. destruct (sample_event _ _ _ _) as [[sampler e] failed]. cbn [fst snd].
  destruct (assess _ _ _ _) as [[engine semantic] evaluation]. cbn [fst snd].
  destruct (guard_policy_time _ _ _) as [policy response]. cbn [fst snd].
  destruct (respond_to _ _ _ _ _) as [w' r]. cbn [fst snd]. by destruct (record_alerts _ _ _ _ _ _ _).
Qed.

(** ** One response *)

(** The context of the event was read by the sensor at an earlier moment. *)
Definition collected w (event : FileEvent) : Prop :=
  0 <= fe_pid event <= u32_max /\
  forall ctx, fe_process event = Some ctx ->
    exists w0 w1 now, read_file_process_context (fe_pid event) now w0 = (w1, Ok ctx) /\ later w1 w.

(** The call killed the very process that the context identifies. *)
Definition kills w w' (event : FileEvent) (p : process) : Prop :=
  struck w w' (fe_pid event) SIGKILL p /\
  exists ctx, fe_process event = Some ctx /\ started p = fp_start_time_ticks ctx /\ 0 < started p /\ boot w = fp_boot_id ctx.

Definition tried (x : string * option string) : Prop := x.1 = "succeeded" \/ x.1 = "failed_or_unconfirmed".

Lemma respond_to_spec responds w event evaluation response w' r :
  ev_pid evaluation = fe_pid event -> collected w event ->
  respond_to responds w event evaluation response = (w', r) ->
  later w w' /\ (r = None -> w' = w)
  /\ (signals w' = signals w \/
      exists p, kills w w' event p /\ responds = true /\ should_block evaluation response = true /\ exists x, r = Some x /\ tried x)
  /\ (forall x, r = Some x -> x.1 = "succeeded" -> responds = true -> exists p, kills w w' event p /\ ended w' p).
Proof.
  intros Hpid [Hrange Hctx] Hr. unfold respond_to in Hr.
  destruct (should_block evaluation response); [|destruct (block_candidate _ _); simplify_eq; split_and!; try done; auto; intros x Hx Hs; simplify_eq].
  destruct (fe_process event) as [ctx|] eqn:Hproc; [|simplify_eq; split_and!; try done; auto; intros x Hx Hs; simplify_eq].
  destruct (Hctx ctx eq_refl) as (w0 & w1 & now & Hread & L1).
  destruct (context_identifies_process _ _ _ _ _ Hrange Hread) as (_ & _ & _ & (m & _ & Lm & q & Hq & Ht) & _).
  destruct (make_responder _ _ _) as [w2 o] eqn:Hx. rewrite Hpid in Hx.
  destruct responds; cbn [make_responder] in Hx.
  - destruct (kill_reaches_collected_instance m w _ _ _ q _ _ ltac:(by etrans) Hq Ht (proj1 Hrange) Hx) as (L & Hs & Hok & _).
    assert (w' = w2 /\ exists x, r = Some x /\ tried x /\ (x.1 = "succeeded" -> o = Ok tt)) as (-> & x & -> & Hx1 & Hx2)
      by (unfold tried; destruct o as [[]|e]; simplify_eq; split; try done; eexists; cbn; split_and!; auto; intros; simplify_eq).
    split; [done|]. split; [done|]. split.
    + destruct Hs as [Hs|(p & Hp & Ht' & Hb & Hn & _)]; [by left|right]. exists p. split_and!; [|done|done|by exists x].
      split; [done|]. exists ctx. by rewrite Ht'.
    + intros y [= <-] Hy _. specialize (Hok (Hx2 Hy)). destruct Hs as [Hs|(p & Hp & Ht' & Hb & Hn & He)]; [done|].
      exists p. split; [|by apply He, Hx2]. split; [done|]. exists ctx. by rewrite Ht'.
  - unfold dry_run_execute in Hx. simplify_eq. split_and!; auto; done.
Qed.

Lemma respond_to_blocked responds w event evaluation response :
  rc_auto_block response = false -> fst (respond_to responds w event evaluation response) = w.
Proof. intros Hb. unfold respond_to, should_block. rewrite Hb. cbn. by destruct (block_candidate _ _). Qed.

(** ** The guard of the time *)

Definition valid_at (p : PolicyRuntime) (now : Z) : Prop :=
  pr_invalid p = false /\ pr_not_before_ms p <= now < pr_expires_at_ms p.
Definition silenced (a : Agent) : Prop := exists p, ag_policy a = Some p /\ pr_invalid p = true.

Lemma time_invalid_spec p now : time_invalid p now = false <-> valid_at p now.
Proof. unfold time_invalid, valid_at. rewrite !orb_false_iff, Z.ltb_ge, Z.leb_gt. tauto. Qed.

Lemma guard_cases policy response now :
  (exists p, policy = Some p /\ time_invalid p now = true
     /\ guard_policy_time policy response now = (Some (set_invalid p), no_auto_block response))
  \/ ((forall p, policy = Some p -> valid_at p now) /\ guard_policy_time policy response now = (policy, response)).
Proof.
  unfold guard_policy_time. destruct policy as [p|]; [|right; split; done].
  destruct (time_invalid p now) eqn:Ht; [left; by exists p|right; split; [|done]]. intros ? [= <-]. by apply time_invalid_spec.
Qed.

(** The world after one event: a silenced agent sends nothing. *)
Lemma silenced_time (a : Agent) now : silenced a -> exists p, ag_policy a = Some p /\ time_invalid p now = true.
Proof. intros (p & Hp & Hi). exists p. split; [done|]. unfold time_invalid. by rewrite Hi. Qed.

Lemma guard_loop_keeps a now :
  ag_detection (guard_loop a now) = ag_detection a /\ ag_engine (guard_loop a now) = ag_engine a
  /\ ag_sampler (guard_loop a now) = ag_sampler a /\ ag_responds (guard_loop a now) = ag_responds a
  /\ ag_semantic (guard_loop a now) = ag_semantic a /\ ag_store (guard_loop a now) = ag_store a.
Proof. unfold guard_loop. by destruct (guard_policy_time _ _ _). Qed.

Lemma guard_loop_cases a now :
  (silenced (guard_loop a now) /\ exists p, ag_policy a = Some p /\ time_invalid p now = true)
  \/ (guard_loop a now = a /\ forall p, ag_policy a = Some p -> valid_at p now).
Proof.
  unfold guard_loop, silenced. destruct (guard_cases (ag_policy a) (ag_response a) now) as [(p & Hp & Ht & ->)|[Hv ->]]; cbn.
  - left. rewrite Hp. split; [by exists (set_invalid p)|by exists p].
  - right. split; [by destruct a|done].
Qed.

(** What one event leaves in the agent, apart from the tables and queues. *)
Definition sampled (a : Agent) event env : FileEvent := (sample_event (ag_detection a) (ag_sampler a) event env).1.2.
Lemma process_event_keeps w a event env :
  let a' := snd (process_event w a event env) in
  ag_detection a' = ag_detection a /\ ag_responds a' = ag_responds a /\ ag_response a' = ag_response a
  /\ ag_engine a' = (engine_evaluate (ag_engine a) (sampled a event env)).1
  /\ ag_policy a' = fst (guard_policy_time (ag_policy a) (ag_response a) (en_guard_now env)).
Proof.
  unfold process_event, sampled. destruct (sample_event _ _ _ _) as [[sampler e] failed]. cbn [fst snd].
  pose proof (assess_block (ag_engine a) (ag_semantic a) e env (ag_response a)) as Ha.
  destruct (assess _ _ _ _) as [[engine semantic] evaluation]. cbn [fst snd] in *.
  destruct (guard_policy_time _ _ _) as [policy response]. cbn [fst snd].
  destruct (respond_to _ _ _ _ _) as [w' r]. cbn [fst snd]. destruct (record_alerts _ _ _ _ _ _ _). cbn.
  destruct Ha as (_ & _ & ->). done.
Qed.

(** ** Steps *)

Definition step_events (a : Agent) (step : AgentStep) : list FileEvent :=
  match step with FileArrives event env => [sampled a event env] | _ => [] end.
Definition step_times (step : AgentStep) : list Z :=
  match step with
  | FileArrives _ env => [en_loop_now env; en_guard_now env]
  | ProcessArrives _ _ => []
  | HealthTick now => [now]
  end.
Definition step_collected (w : W) (step : AgentStep) : Prop :=
  match step with FileArrives event _ => collected w event | _ => True end.

Lemma step_sampled a now event env : sampled (guard_loop a now) event env = sampled a event env.
Proof. unfold sampled. by destruct (guard_loop_keeps a now) as (-> & _ & -> & _). Qed.

(** The engine assesses the events of the step; everything the decision depends on
    stays, or the policy is out of its time for good. *)
Definition in_force (a0 a : Agent) : Prop := ag_policy a = ag_policy a0 /\ ag_response a = ag_response a0.
Lemma agent_step_keeps w a step w' a' :
  agent_step (w, a) step = (w', a') ->
  ag_detection a' = ag_detection a /\ ag_responds a' = ag_responds a
  /\ ag_engine a' = fold_left (fun s e => (engine_evaluate s e).1) (step_events a step) (ag_engine a)
  /\ ((silenced a' /\ w' = w) \/ (in_force a a' /\ forall p, ag_policy a = Some p -> Forall (valid_at p) (step_times step))).
Proof.
  destruct step as [event env|event ok|now]; cbn [agent_step step_events step_times fold_left].
  - intros Hstep. pose proof (f_equal fst Hstep) as Hw. apply (f_equal snd) in Hstep. cbn [fst snd] in Hw, Hstep. subst a' w'.
    destruct (process_event_keeps w (guard_loop a (en_loop_now env)) event env) as (-> & -> & Hr & -> & Hp).
    destruct (guard_loop_keeps a (en_loop_now env)) as (-> & -> & _ & -> & _). rewrite step_sampled.
    split_and!; [done..|]. set (a1 := guard_loop _ _) in *.
    destruct (guard_cases (ag_policy a1) (ag_response a1) (en_guard_now env)) as [(p & Hpol & Ht & E)|[Hv E]]; rewrite E in Hp; cbn in Hp.
    { left. split; [exists (set_invalid p); by rewrite Hp|]. rewrite process_event_world, E. by apply respond_to_blocked. }
    destruct (guard_loop_cases a (en_loop_now env)) as [[(p & Hpol & Hi) _]|[Ha Hv1]].
    { exfalso. destruct (Hv p Hpol) as [Hi' _]. congruence. }
    right. unfold in_force, a1 in *. rewrite Hp, Hr, Ha. split; [done|]. rewrite Ha in Hv. intros p Hpol. rewrite !Forall_cons. auto.
  - intros; simplify_eq. split_and!; [done..|]. right. split; [done|]. intros. constructor.
  - intros; simplify_eq. destruct (guard_loop_keeps a now) as (-> & -> & _ & -> & _). split_and!; [done..|].
    destruct (guard_loop_cases a now) as [[Hs _]|[-> Hv]]; [by left|right; split; [done|]]. intros p Hp. rewrite Forall_cons. auto.
Qed.

(** The signals of one step. *)
Record justified w (a : Agent) (engine : DetectionEngine) event env (e : FileEvent) (p : process) : Prop := {
  ju_context : exists ctx, fe_process event = Some ctx /\ started p = fp_start_time_ticks ctx /\ 0 < started p /\ boot w = fp_boot_id ctx;
  ju_pid : pid_of p = fe_pid event;
  ju_range : 1 < fe_pid event <= i32_max /\ fe_pid event <> process_id w;
  ju_enabled : ag_responds a = true;
  ju_decision : should_block (engine_evaluate engine e).2 (ag_response a) = true;
  ju_time : forall policy, ag_policy a = Some policy -> valid_at policy (en_loop_now env) /\ valid_at policy (en_guard_now env);
}.

Lemma auto_block_guarded e policy response now :
  should_block e (guard_policy_time policy response now).2 = true ->
  should_block e response = true /\ forall p, policy = Some p -> valid_at p now.
Proof. destruct (guard_cases policy response now) as [(p & _ & _ & ->)|[Hv ->]]; [done|]. done. Qed.

Lemma step_signals w a step w' a' :
  step_collected w step -> agent_step (w, a) step = (w', a') ->
  later w w' /\
  (signals w' = signals w \/
   exists event env p, step = FileArrives event env /\ signals w' = (p, SIGKILL) :: signals w
     /\ justified w a (ag_engine a) event env (sampled a event env) p).
Proof.
  destruct step as [event env|event ok|now]; cbn [agent_step step_collected]; intros Hc Hs;
    [|simplify_eq; split; [done|by left]..].
  set (a1 := guard_loop a (en_loop_now env)) in *. apply (f_equal fst) in Hs. cbn [fst] in Hs.
  rewrite process_event_world in Hs. fold (sampled a1 event env) in Hs. set (e := sampled a1 event env) in *.
  destruct (sample_event_keeps (ag_detection a1) (ag_sampler a1) event env) as (Hpid & Hproc & _).
  fold (sampled a1 event env) in Hpid, Hproc. fold e in Hpid, Hproc.
  pose proof (assess_block (ag_engine a1) (ag_semantic a1) e env (guard_policy_time (ag_policy a1) (ag_response a1) (en_guard_now env)).2)
    as (Hsb & Hp2 & _).
  destruct (respond_to _ _ _ _ _) as [w2 r] eqn:Hr. cbn [fst] in Hs. subst w2.
  apply respond_to_spec in Hr as (L & _ & Hsig & _); [|done|by unfold collected; rewrite Hpid, Hproc].
  split; [done|]. destruct Hsig as [?|(p & [Hst Hctx] & Hen & Hb & _)]; [by left|right].
  exists event, env, p. split; [done|]. rewrite Hsb in Hb. apply auto_block_guarded in Hb as [Hb Hv].
  unfold struck in Hst. rewrite Hpid in Hst. rewrite Hproc in Hctx. destruct Hst as (Hsig & Hpp & Hran & Hself & _).
  split; [done|].
  destruct (guard_loop_cases a (en_loop_now env)) as [[(q & Hq & Hi) _]|[Ha Hv1]].
  { destruct (Hv q Hq) as [Hi' _]. congruence. }
  unfold e, a1 in *. rewrite Ha in *. split; try done. intros policy Hpol. auto.
Qed.

(** ** Runs *)

(** Every context was collected before its event is processed. *)
Fixpoint run_collected (s : W * Agent) (steps : list AgentStep) : Prop :=
  match steps with
  | [] => True
  | step :: steps => step_collected s.1 step /\ run_collected (agent_step s step) steps
  end.
(** The events the engine assesses, as they are after sampling. *)
Fixpoint assessed (s : W * Agent) (steps : list AgentStep) : list FileEvent :=
  match steps with
  | [] => []
  | step :: steps => step_events s.2 step ++ assessed (agent_step s step) steps
  end.

Lemma silenced_step w a step : silenced a -> silenced (snd (agent_step (w, a) step)) /\ fst (agent_step (w, a) step) = w.
Proof.
  intros Hs. destruct step as [event env|event ok|now]; cbn [agent_step].
  - destruct (silenced_time a (en_loop_now env) Hs) as (p & Hp & Ht).
    assert (exists q, ag_policy (guard_loop a (en_loop_now env)) = Some q /\ pr_invalid q = true) as (q & Hq & Hi).
    { unfold guard_loop, guard_policy_time. rewrite Hp, Ht. cbn. by exists (set_invalid p). }
    assert (time_invalid q (en_guard_now env) = true) as Hti by (unfold time_invalid; by rewrite Hi).
    split.
    + unfold silenced. destruct (process_event_keeps w (guard_loop a (en_loop_now env)) event env) as (_ & _ & _ & _ & ->).
      unfold guard_policy_time. rewrite Hq, Hti. cbn. by exists (set_invalid q).
    + rewrite process_event_world. apply respond_to_blocked. unfold guard_policy_time. by rewrite Hq, Hti.
  - split; done.
  - split; [|done]. destruct (silenced_time a now Hs) as (p & Hp & Ht). unfold silenced, guard_loop, guard_policy_time.
    rewrite Hp, Ht. cbn. by exists (set_invalid p).
Qed.

Lemma silenced_run w a steps : silenced a -> fst (agent_run (w, a) steps) = w.
Proof.
  revert w a. induction steps as [|step steps IH]; intros w a Hs; [done|]. unfold agent_run. cbn [fold_left].
  destruct (silenced_step w a step Hs) as [Hs' Hw]. destruct (agent_step (w, a) step) as [w1 a1]. cbn in *. subst w1.
  by apply IH.
Qed.

(** What a run started from [a0] knows after the engine has assessed [h]. *)
Definition since (a0 : Agent) (h : list FileEvent) (a : Agent) : Prop :=
  ag_responds a = ag_responds a0
  /\ ag_engine a = fold_left (fun s e => (engine_evaluate s e).1) h (ag_engine a0)
  /\ (silenced a \/ in_force a0 a).

Lemma since_step a0 h w a step w' a' :
  since a0 h a -> agent_step (w, a) step = (w', a') -> since a0 (h ++ step_events a step) a'.
Proof.
  intros (Hr & He & Hf) Hs. destruct (agent_step_keeps _ _ _ _ _ Hs) as (_ & Hr' & He' & Hf').
  split_and!; [congruence|by rewrite He', fold_left_app, He|].
  destruct Hf as [Hf|[Hp Hq]].
  - left. destruct (silenced_step w a step Hf) as [Hn _]. by rewrite Hs in Hn.
  - destruct Hf' as [[? _]|[[Hp' Hq'] _]]; [by left|right]. split; congruence.
Qed.

Definition justified_in (a0 : Agent) (h : list FileEvent) (s : W * Agent) (steps : list AgentStep) (sent : process * Z) : Prop :=
  sent.2 = SIGKILL /\ exists before event env after,
    steps = before ++ FileArrives event env :: after /\
    let v := agent_run s before in
    justified v.1 a0 (fold_left (fun s e => (engine_evaluate s e).1) (h ++ assessed s before) (ag_engine a0))
      event env (sampled v.2 event env) sent.1.

Lemma justified_cons a0 h w a step steps sent :
  justified_in a0 (h ++ step_events a step) (agent_step (w, a) step) steps sent -> justified_in a0 h (w, a) (step :: steps) sent.
Proof.
  intros (Hk & before & event & env & after & -> & Hj). split; [done|].
  exists (step :: before), event, env, after. split; [done|]. cbn [assessed snd]. by rewrite app_assoc.
Qed.

Lemma run_signals a0 steps h w a w' a' :
  since a0 h a -> run_collected (w, a) steps -> agent_run (w, a) steps = (w', a') ->
  exists sent, signals w' = sent ++ signals w /\ Forall (justified_in a0 h (w, a) steps) sent.
Proof.
  revert h w a. induction steps as [|step steps IH]; intros h w a Hsince Hc Hrun.
  { cbn in Hrun. simplify_eq. by exists []. }
  destruct Hc as [Hc1 Hc]. cbn [fst] in Hc1. unfold agent_run in Hrun. cbn [fold_left] in Hrun.
  destruct (agent_step (w, a) step) as [w1 a1] eqn:Hs.
  destruct (IH (h ++ step_events a step) w1 a1) as (sent & Hsent & Hall); [by eapply since_step|done|done|].
  assert (Forall (justified_in a0 h (w, a) (step :: steps)) sent) as Hall'.
  { eapply Forall_impl; [exact Hall|]. intros x Hx. apply justified_cons. by rewrite Hs. }
  destruct (step_signals _ _ _ _ _ Hc1 Hs) as [_ [Heq|(event & env & p & -> & Heq & Hj)]]; [exists sent; by rewrite Hsent, Heq|].
  exists (sent ++ [(p, SIGKILL)]). rewrite Hsent, Heq, <- app_assoc. split; [done|]. apply Forall_app. split; [done|].
  constructor; [|constructor]. split; [done|]. exists [], event, env, steps. split; [done|].
  cbn [agent_run fold_left assessed fst snd]. rewrite app_nil_r. destruct Hsince as (Hr & He & [Hsil|[Hp Hq]]).
  - destruct (silenced_step w a (FileArrives event env) Hsil) as [_ Hw]. rewrite Hs in Hw. cbn in Hw. subst w1.
    apply (f_equal length) in Heq. cbn in Heq. lia.
  - rewrite <- He. destruct Hj. split; [done..| | |]; by rewrite <- ?Hr, <- ?Hq, <- ?Hp.
Qed.

(** ** What the response does not depend on *)

Record same_guard (a b : Agent) : Prop := {
  sg_detection : ag_detection a = ag_detection b;
  sg_response : ag_response a = ag_response b;
  sg_policy : ag_policy a = ag_policy b;
  sg_engine : ag_engine a = ag_engine b;
  sg_sampler : ag_sampler a = ag_sampler b;
  sg_semantic : ag_semantic a = ag_semantic b;
  sg_responds : ag_responds a = ag_responds b;
}.
(** Two steps that differ in what the databases answer, and when. *)
Definition same_input (env env' : EventEnv) : Prop :=
  (en_loop_now env, en_chunk env, en_content env, en_observation env, en_sample_now env, en_look env, en_guard_now env)
  = (en_loop_now env', en_chunk env', en_content env', en_observation env', en_sample_now env', en_look env', en_guard_now env').
Inductive step_alike : AgentStep -> AgentStep -> Prop :=
  | alike_file event env env' : same_input env env' -> step_alike (FileArrives event env) (FileArrives event env')
  | alike_process event event' ok ok' : step_alike (ProcessArrives event ok) (ProcessArrives event' ok')
  | alike_tick now : step_alike (HealthTick now) (HealthTick now).

Lemma process_event_alike w a b event env env' :
  same_guard a b -> same_input env env' ->
  fst (process_event w a event env) = fst (process_event w b event env')
  /\ same_guard (snd (process_event w a event env)) (snd (process_event w b event env')).
Proof.
  intros [E1 E2 E3 E4 E5 E6 E7] He. unfold same_input in He. simplify_eq. destruct env, env'. cbn in *. simplify_eq.
  unfold process_event, sample_event, assess. cbn. rewrite E1, E2, E3, E4, E5, E6, E7.
  match goal with |- context [match ?x with (_, _) => _ end] => destruct x as [[sampler e] failed] end.
  destruct (engine_evaluate _ _) as [engine evaluation]. destruct (semantic_observe _ _ _) as [semantic alert].
  destruct (guard_policy_time _ _ _) as [policy response]. destruct (respond_to _ _ _ _ _) as [w' r].
  destruct (record_alerts _ _ _ _ _ _ _), (record_alerts _ _ _ _ _ _ _). cbn. split; [done|]. by split.
Qed.

Lemma guard_loop_alike a b now : same_guard a b -> same_guard (guard_loop a now) (guard_loop b now).
Proof. intros [E1 E2 E3 E4 E5 E6 E7]. unfold guard_loop. rewrite E2, E3. destruct (guard_policy_time _ _ _). by split. Qed.

(** ** The audit *)

Lemma assess_percent engine semantic event env : percent (ev_score (assess engine semantic event env).2).
Proof.
  unfold assess. pose proof (engine_percent engine event) as Hp. destruct (engine_evaluate engine event) as [engine' e].
  destruct (semantic_observe _ _ _) as [semantic' [d|]]; done.
Qed.

(** Every score can be recorded, so a refusal is the database's or the clock's. *)
Lemma insert_response_works st a :
  ra_timestamp_ms a <= i64_max -> percent (ra_score a) ->
  as_responses (fst (insert_response_result st a true)) = as_responses st ++ [a].
Proof.
  intros Ht Hs. unfold insert_response_result. rewrite (proj2 (Z.ltb_ge _ _)) by done.
  unfold percent in Hs. rewrite Hs, f_percent_finite by done. done.
Qed.

Lemma process_event_responses w a event env :
  let e := sampled a event env in
  let evaluation := (assess (ag_engine a) (ag_semantic a) e env).2 in
  let r := respond_to (ag_responds a) w e evaluation (guard_policy_time (ag_policy a) (ag_response a) (en_guard_now env)).2 in
  as_responses (ag_store (snd (process_event w a event env)))
  = as_responses (match r.2 with
                  | Some x => fst (insert_response_result (ag_store a) (response_audit e evaluation (en_audit_now env) x) (en_audit_ok env))
                  | None => ag_store a
                  end).
Proof.
  unfold process_event, sampled. destruct (sample_event _ _ _ _) as [[sampler e] failed]. cbn [fst snd].
  destruct (assess _ _ _ _) as [[engine semantic] evaluation]. cbn [fst snd].
  destruct (guard_policy_time _ _ _) as [policy response]. cbn [fst snd].
  destruct (respond_to _ _ _ _ _) as [w' r]. cbn [fst snd]. destruct (record_alerts _ _ _ _ _ _ _). cbn [snd ag_store with_events as_responses].
  unfold insert_file_event. by destruct (en_event_ok env), r.
Qed.

(** The row of an event, whatever the database makes of it. *)
Lemma event_response w a event env w' a' :
  collected w event -> agent_step (w, a) (FileArrives event env) = (w', a') ->
  (w' = w /\ as_responses (ag_store a') = as_responses (ag_store a))
  \/ exists row,
       as_responses (ag_store a') = as_responses (fst (insert_response_result (ag_store a) row (en_audit_ok env)))
       /\ percent (ra_score row) /\ ra_timestamp_ms row = en_audit_now env
       /\ ra_pid row = fe_pid event
       /\ ra_start_time_ticks row = (fp_start_time_ticks <$> fe_process event) /\ ra_boot_id row = (fp_boot_id <$> fe_process event)
       /\ (ra_outcome row = "succeeded" -> ag_responds a = true -> exists p, kills w w' event p /\ ended w' p)
       /\ (signals w' = signals w \/ ra_outcome row = "succeeded" \/ ra_outcome row = "failed_or_unconfirmed").
Proof.
  intros Hc Hs. cbn [agent_step] in Hs. set (a1 := guard_loop a (en_loop_now env)) in *.
  pose proof (process_event_responses w a1 event env) as Hresp. pose proof (process_event_world w a1 event env) as Hw.
  fold (sampled a1 event env) in Hw. cbv zeta in Hresp, Hw. rewrite Hs in Hresp, Hw. cbn [fst snd] in Hresp, Hw.
  destruct (sample_event_keeps (ag_detection a1) (ag_sampler a1) event env) as (Hpid & Hproc & _).
  fold (sampled a1 event env) in Hpid, Hproc. set (e := sampled a1 event env) in *.
  destruct (guard_loop_keeps a (en_loop_now env)) as (_ & _ & _ & Hres & _ & Hstore). fold a1 in Hres, Hstore.
  pose proof (assess_percent (ag_engine a1) (ag_semantic a1) e env) as Hpc.
  destruct (assess_block (ag_engine a1) (ag_semantic a1) e env (ag_response a1)) as (_ & Hp2 & _).
  set (evaluation := (assess _ _ _ _).2) in *. rewrite Hstore in Hresp.
  destruct (respond_to _ _ _ _ _) as [w2 r] eqn:Hr. cbn [fst snd] in Hw, Hresp. subst w2.
  apply respond_to_spec in Hr as (_ & Hnone & Hsig & Hsucc); [|done|by unfold collected; rewrite Hpid, Hproc].
  unfold kills in Hsig, Hsucc. rewrite Hpid, Hproc in Hsig, Hsucc. rewrite Hres in Hsucc.
  destruct r as [x|]; [right|left; auto].
  eexists. split; [exact Hresp|]. split; [exact Hpc|]. cbn. rewrite Hproc. split_and!; [done|congruence|done|done| |].
  - by apply (Hsucc x eq_refl).
  - destruct Hsig as [?|(p & _ & _ & _ & y & [= <-] & Hy)]; [by left|by right].
Qed.

(** * Main results *)

(** C1: From the start on, whatever events arrive, every signal the agent ever sends is
    a SIGKILL for one file event of the history: it goes to the very process whose
    number, start and boot the sensor had read for this event, never to 0, 1 or the
    agent itself; the responder was enabled; the engine, having assessed exactly the
    events before it, finds the event worth blocking under the configuration of the
    start; and the policy was within its time at both clock readings of the step. *)
Theorem every_kill_justified c activated opened looks a0 w0 steps w a :
  agent_start c activated opened looks = Ok a0 -> run_collected (w0, a0) steps -> agent_run (w0, a0) steps = (w, a) ->
  exists sent, signals w = sent ++ signals w0 /\
    Forall (fun s : process * Z => s.2 = SIGKILL /\ exists before event env after,
      steps = before ++ FileArrives event env :: after /\
      let v := agent_run (w0, a0) before in
      justified v.1 a0 (engine_run (ag_detection a0) (cf_sensor c) (assessed (w0, a0) before))
        event env (sampled v.2 event env) s.1) sent.
Proof.
  intros Hstart Hc Hrun.
  destruct (run_signals a0 steps [] w0 a0 w a) as (sent & Hsig & Hall); [by split_and!; auto; right|done|done|].
  exists sent. split; [done|]. eapply Forall_impl; [exact Hall|]. unfold justified_in, engine_run.
  enough (ag_engine a0 = engine_with_sensor (ag_detection a0) (cf_sensor c)) as -> by done.
  unfold agent_start in Hstart. repeat (apply res_bind_Ok in Hstart as (? & _ & Hstart)). by simplify_eq.
Qed.

(** Once the clock leaves the interval of the signed policy, or a step has found it
    invalid, the response never acts on the system again, not even for the event
    that is being processed and not when the clock comes back; the engine goes on
    assessing every event. *)
Theorem expired_policy_silences w a p step now steps w' a' :
  ag_policy a = Some p -> now ∈ step_times step -> ~ valid_at p now ->
  agent_run (w, a) (step :: steps) = (w', a') ->
  w' = w /\ ag_engine a' = fold_left (fun s e => (engine_evaluate s e).1) (assessed (w, a) (step :: steps)) (ag_engine a).
Proof.
  intros Hp Hnow Hbad Hrun.
  assert (forall steps v, ag_engine (snd (agent_run v steps)) = fold_left (fun s e => (engine_evaluate s e).1) (assessed v steps) (ag_engine v.2)) as Heng.
  { intros l. induction l as [|x l IH]; intros v; [done|]. unfold agent_run. cbn [fold_left assessed].
    unfold agent_run in IH. rewrite IH, fold_left_app. f_equal. destruct v as [v b]. destruct (agent_step (v, b) x) as [v1 b1] eqn:Hs.
    destruct (agent_step_keeps _ _ _ _ _ Hs) as (_ & _ & He & _). exact He. }
  split; [|rewrite <- (Heng _ (w, a)); by rewrite Hrun].
  unfold agent_run in Hrun. cbn [fold_left] in Hrun. destruct (agent_step (w, a) step) as [w1 a1] eqn:Hs.
  assert (w1 = w /\ silenced a1) as [-> Hsil]; [|pose proof (silenced_run w a1 steps Hsil) as Hw; unfold agent_run in Hw; by rewrite Hrun in Hw].
  destruct (agent_step_keeps _ _ _ _ _ Hs) as (_ & _ & _ & [[? ?]|[_ Hv]]); [done|].
  exfalso. specialize (Hv p Hp). rewrite Forall_forall in Hv. auto.
Qed.

(** C22: What the agent does to the system, and what it will do, does not depend on
    its databases, the backup queue or the reporter: two agents with the same
    detector, policy and responder act alike on the same inputs, whatever their
    stores hold and whether statements succeed. *)
Theorem response_independent_of_storage w a b steps steps' :
  same_guard a b -> Forall2 step_alike steps steps' ->
  fst (agent_run (w, a) steps) = fst (agent_run (w, b) steps')
  /\ same_guard (snd (agent_run (w, a) steps)) (snd (agent_run (w, b) steps')).
Proof.
  intros Hg Hall. revert w a b Hg. induction Hall as [|x y steps steps' Hx Hall IH]; intros w a b Hg; [done|].
  unfold agent_run. cbn [fold_left].
  enough (fst (agent_step (w, a) x) = fst (agent_step (w, b) y) /\ same_guard (snd (agent_step (w, a) x)) (snd (agent_step (w, b) y))) as [Hw Hg'].
  { destruct (agent_step (w, a) x) as [w1 a1], (agent_step (w, b) y) as [w2 b1]. cbn in Hw, Hg'. subst w2. by apply IH. }
  destruct Hx as [event env env' He|event event' ok ok'|now]; cbn [agent_step].
  - unfold same_input in He. assert (en_loop_now env = en_loop_now env') as <- by (by simplify_eq).
    apply process_event_alike; [by apply guard_loop_alike|done].
  - split; [done|]. destruct Hg. by split.
  - split; [done|]. by apply guard_loop_alike.
Qed.

(** C10: No signal without a record: on a working database an event either sends
    nothing and adds nothing, or adds exactly one row with the number, the start and
    the boot of its process. A row "succeeded" of an enabled responder means that this
    process was sent SIGKILL and has ended; a row with another outcome than that and
    "failed_or_unconfirmed" means that nothing was sent. *)
Theorem responses_audited w a event env w' a' :
  collected w event -> en_audit_ok env = true -> en_audit_now env <= i64_max ->
  agent_step (w, a) (FileArrives event env) = (w', a') ->
  (w' = w /\ as_responses (ag_store a') = as_responses (ag_store a))
  \/ exists row, as_responses (ag_store a') = as_responses (ag_store a) ++ [row]
       /\ ra_pid row = fe_pid event /\ ra_timestamp_ms row = en_audit_now env
       /\ ra_start_time_ticks row = (fp_start_time_ticks <$> fe_process event) /\ ra_boot_id row = (fp_boot_id <$> fe_process event)
       /\ (ra_outcome row = "succeeded" -> ag_responds a = true -> exists p, kills w w' event p /\ ended w' p)
       /\ (signals w' = signals w \/ ra_outcome row = "succeeded" \/ ra_outcome row = "failed_or_unconfirmed").
Proof.
  intros Hc Hok Hnow Hs. destruct (event_response _ _ _ _ _ _ Hc Hs) as [[-> Heq]|(row & Hrow & Hpc & Ht & Hfacts)]; [by left|right].
  exists row. rewrite Hrow, Hok. rewrite insert_response_works by (rewrite ?Ht; done). tauto.
Qed.


End Effects.
End Event.

(** * A run on the simulated kernel *)

Module Scenario.
Import Simulated.
#[local] Existing Instance sample_std.
#[local] Instance json : DetectionJson := one_json (mkDetection 0 "" (f_of_Z 0) Low "" 0 []).

Definition attacker : Proc := mkProc 42 5 100 1 "locker" (String.append "Name:	locker" (String newline "Uid:	1000	1001	1001	1001")).
Definition parent : Proc := mkProc 1 1 1 0 "init" (String.append "Name:	init" (String newline "Uid:	0	0	0	0")).
Definition world : SimWorld := mkWorld {[42 := (attacker, true); 1 := (parent, true)]} 1000 10 [] [] [].
Definition context : option FileProcessContext := res_ok (snd (read_file_process_context 42 7 world)).
(** The process overwrites a canary file. *)
Definition event (t : Z) : FileEvent :=
  {| fe_timestamp_ms := t; fe_pid := 42; fe_path := "/data/.canary"; fe_action := Modify; fe_size := Some 100;
     fe_entropy := None; fe_process := context; fe_content := None |}.

Definition policy : ActivatedPolicy :=
  mkActivatedPolicy
    {| po_version := 1; po_policy_id := "p"; po_key_id := "k"; po_issued_at_ms := 0; po_not_before_ms := 500;
       po_expires_at_ms := 5000; po_target_hosts := []; po_target_groups := []; po_rollback := None;
       po_detection := demo_config; po_response := mkResponseConfig true (f_of_Z 60) |} "hash" "activated" [].
Definition config : AgentConfig :=
  mkAgentConfig ["/data"] Fanotify DetectionConfig_default ResponseConfig_default
    (mkPolicyFileConfig "/etc/argos/policy.json" "" "p" "host" [] [] "/var/lib/argos") true "/backup" 8 1000 (Some "agent")
    (mkSemanticConfig [] 65536).
Definition no_look : string -> Look := fun _ => OpenFailed "".
Definition started_agent : result Agent string := agent_start config (Ok policy) (Ok AgentStore_new) no_look.
Definition nobody : Agent :=
  mkAgent demo_config ResponseConfig_default None AgentStore_new (engine_with_sensor demo_config Fanotify) None
    (mkSemanticMonitor (mkSemanticConfig [] 0) ∅ ∅) None None 0 false false.
Definition agent : Agent := default nobody (res_ok started_agent).
Definition env (loop_now guard_now : Z) : EventEnv :=
  mkEventEnv loop_now (fun _ => 0%nat) None (mkFileObservation false false 0 None [] 0 None) loop_now (OpenFailed "") guard_now
    guard_now true true (fun n => ("delivery", guard_now, Committed)).
Definition steps : list AgentStep := [HealthTick 900; FileArrives (event 1000) (env 1000 1001)].

Definition summary (s : SimWorld * Agent) : list (Z * Z) * list (string * Z) * option Z :=
  (map (fun x => (sp_serial x.1, x.2)) (world_signals s.1),
   map (fun row => (ra_outcome row, ra_pid row)) (as_responses (ag_store s.2)),
   bq_queued <$> ag_backup s.2).

Example started_ex : is_ok started_agent = true. Proof. vm_compute. reflexivity. Qed.
Example locker_killed_ex : summary (agent_run (world, agent) steps) = ([(5, SIGKILL)], [("succeeded", 42)], Some 1).
Proof. vm_compute. reflexivity. Qed.
(** Between the two readings of the clock the policy expires. *)
Example expired_ex :
  summary (agent_run (world, agent) [FileArrives (event 4999) (env 4999 5000); FileArrives (event 4000) (env 4000 4000)])
  = ([], [("observed_threshold", 42); ("observed_threshold", 42)], Some 2).
Proof. vm_compute. reflexivity. Qed.

Definition the_context : FileProcessContext :=
  mkFileProcessContext 1001 "/usr/bin/locker" 100 the_boot [mkProcessIdentity 1 1 the_boot].
Lemma context_read : read_file_process_context 42 7 world = (world, Ok the_context).
Proof. vm_compute. reflexivity. Qed.
Lemma event_collected t : collected world (event t).
Proof.
  split; [cbn; unfold u32_max; lia|]. intros ctx Hctx. exists world, world, 7. split; [|apply sim_later_refl].
  cbn in Hctx. unfold context in Hctx. change (fe_pid (event t)) with 42. rewrite context_read in Hctx |- *. cbn in Hctx. congruence.
Qed.

Lemma every_kill_justified_witness :
  started_agent = Ok agent /\ run_collected (world, agent) steps /\
  exists sent, world_signals (fst (agent_run (world, agent) steps)) = sent ++ [] /\ length sent = 1%nat
    /\ Forall (fun s : Proc * Z => s.2 = SIGKILL) sent.
Proof.
  assert (started_agent = Ok agent) as Hs
    by (unfold agent; destruct started_agent eqn:E; [reflexivity|]; apply (f_equal is_ok) in E; vm_compute in E; congruence).
  assert (run_collected (world, agent) steps) as Hc by (split; [exact I|]; split; [apply event_collected|exact I]).
  split; [exact Hs|]. split; [exact Hc|].
  destruct (every_kill_justified config (Ok policy) (Ok AgentStore_new) no_look agent world steps
              (fst (agent_run (world, agent) steps)) (snd (agent_run (world, agent) steps))) as (sent & Hsig & Hall);
    [exact Hs|exact Hc|apply surjective_pairing|].
  exists sent. split; [exact Hsig|]. split.
  - change (signals world) with (@nil (Proc * Z)) in Hsig. rewrite app_nil_r in Hsig. rewrite <- Hsig. vm_compute. reflexivity.
  - eapply Forall_impl; [exact Hall|]. intros s [Hk _]. exact Hk.
Defined.

Lemma expired_policy_silences_witness :
  ag_policy agent = Some (policy_runtime policy) /\ 5000 ∈ step_times (FileArrives (event 4999) (env 4999 5000)) /\
  fst (agent_run (world, agent) [FileArrives (event 4999) (env 4999 5000); FileArrives (event 4000) (env 4000 4000)]) = world.
Proof.
  split; [vm_compute; reflexivity|]. assert (5000 ∈ step_times (FileArrives (event 4999) (env 4999 5000))) as Hin
    by (apply list_elem_of_further, list_elem_of_here).
  split; [exact Hin|].
  apply (expired_policy_silences world agent (policy_runtime policy) (FileArrives (event 4999) (env 4999 5000)) 5000
           [FileArrives (event 4000) (env 4000 4000)] _
           (snd (agent_run (world, agent) [FileArrives (event 4999) (env 4999 5000); FileArrives (event 4000) (env 4000 4000)])));
    [vm_compute; reflexivity|exact Hin| |apply surjective_pairing].
  intros [_ [_ Hlt]]. revert Hlt. cbn. lia.
Defined.

Definition failing_env (loop_now guard_now : Z) : EventEnv :=
  mkEventEnv loop_now (fun _ => 0%nat) None (mkFileObservation false false 0 None [] 0 None) loop_now (OpenFailed "") guard_now
    0 false false (fun n => ("", 0, CommitFailed false)).
Lemma response_independent_of_storage_witness :
  world_signals (fst (agent_run (world, agent) steps))
  = world_signals (fst (agent_run (world, agent) [HealthTick 900; FileArrives (event 1000) (failing_env 1000 1001)])).
Proof.
  apply (f_equal world_signals).
  refine (proj1 (response_independent_of_storage world agent agent steps [HealthTick 900; FileArrives (event 1000) (failing_env 1000 1001)] _ _)).
  - split; reflexivity.
  - constructor; [apply alike_tick|]. constructor; [apply alike_file; reflexivity|constructor].
Defined.

Lemma responses_audited_witness :
  collected world (event 1000) /\
  exists row, as_responses (ag_store (snd (agent_step (world, agent) (FileArrives (event 1000) (env 1000 1001))))) = [row]
    /\ ra_start_time_ticks row = Some 100.
Proof.
  split; [apply event_collected|].
  destruct (responses_audited world agent (event 1000) (env 1000 1001) (fst (agent_step (world, agent) (FileArrives (event 1000) (env 1000 1001))))
              (snd (agent_step (world, agent) (FileArrives (event 1000) (env 1000 1001)))))
    as [[Hw _]|(row & Hrow & _ & _ & Ht & _)];
    [apply event_collected|reflexivity|cbn; unfold i64_max; lia|apply surjective_pairing| |].
  - apply (f_equal (fun v => length (world_signals v))) in Hw. exfalso. revert Hw. vm_compute. discriminate.
  - exists row. split; [|rewrite Ht; vm_compute; reflexivity]. rewrite Hrow. vm_compute. reflexivity.
Defined.

End Scenario.
