(* ===== verification/Simulation.v ===== *)
(** The comparison of two policies on recorded events (crates/argos-policy/src/simulation.rs)
    and the query it reads (file_events_in_range of crates/argos-storage/src/lib.rs):
    a replay of stored events through the engine, and its agreement with the agent
    that recorded them. *)
From Stdlib Require Import ZArith Lia Ascii.
From stdpp Require Import base gmap sets strings list pretty sorting.
From S2P Require Import Prelude F64 RustPath RustStr Common Kernel Response ProcMon Entropy Scorer MultiWindow Engine PolicyTrust Outbox Semantic Agent.
#[local] Open Scope Z_scope.

(** * The recorded events *)

Record FileEventRow := mkFileEventRow { row_id : Z; row_event : FileEvent }.
Record FileEventRange := mkFileEventRange {
  fer_from_ms : Z;
  fer_to_ms : Z;
  fer_total_events : Z;
  fer_truncated : bool;
  fer_events : list FileEventRow;
}.

Definition action_named (name : string) : option FileAction :=
  if String.eqb name "Create" then Some Create else if String.eqb name "Modify" then Some Modify
  else if String.eqb name "Delete" then Some Delete else if String.eqb name "Rename" then Some Rename
  else if String.eqb name "Chmod" then Some Chmod else if String.eqb name "Chown" then Some Chown else None.

(** The columns win over the JSON, which only adds the process and the content. A
    negative number is no [u64]. *)
Definition decode_file_event (r : Z * FileEventRecord) : result FileEventRow StorageError :=
  let '(id, r) := r in
  let? action := ok_or (action_named (fr_action r)) DbError in
  let? _ := guard (is_some_and (fr_entropy r) (fun e => negb (f_is_finite e) || negb (f_in_range (f_of_Z 0) (f_of_Z 8) e))) DbError in
  let? _ := guard (fr_timestamp_ms r <? 0) DbError in
  let? _ := guard (is_some_and (fr_size r) (fun s => s <? 0)) DbError in
  Ok (mkFileEventRow id
        {| fe_timestamp_ms := fr_timestamp_ms r; fe_pid := fr_pid r; fe_path := fr_path r; fe_action := action;
           fe_size := fr_size r; fe_entropy := fr_entropy r; fe_process := fe_process (fr_event r);
           fe_content := fe_content (fr_event r) |}).

(** AUTOINCREMENT numbers the rows, and none is ever deleted. *)
Definition numbered_rows (st : AgentStore) : list (Z * FileEventRecord) :=
  imap (fun i r => (Z.of_nat i + 1, r)) (as_file_events st).
Definition in_period (from_ms to_ms : Z) (r : Z * FileEventRecord) : bool :=
  (from_ms <=? fr_timestamp_ms r.2) && (fr_timestamp_ms r.2 <=? to_ms).
Definition file_events_in_range (st : AgentStore) (from_ms to_ms limit : Z) : result FileEventRange StorageError :=
  if (to_ms <? from_ms) || (i64_max <? to_ms) then Err InvalidRange
  else if (limit =? 0) || (i64_max <? limit) then Err InvalidRange
  else
    let rows := List.filter (in_period from_ms to_ms) (numbered_rows st) in
    let? events := collect (map decode_file_event
                     (take (Z.to_nat limit) (sort_by (fun r => (fr_timestamp_ms r.2, r.1)) rows))) in
    Ok (mkFileEventRange from_ms to_ms (zlen rows) (zlen events <? zlen rows) events).

(** * Options and reports *)

Record SimulationOptions := mkSimulationOptions {
  so_from_ms : Z;
  so_to_ms : Z;
  so_max_events : Z;
  so_sensor : SensorKind;
}.
Inductive SimulationError :=
  | SimulationStorage (e : StorageError)
  | InvalidOptions (reason : string)
  | InvalidPolicy (policy reason : string).

Record SimulationCoverage := mkSimulationCoverage {
  sc_from_ms : Z;
  sc_to_ms : Z;
  sc_warmup_from_ms : Z;
  sc_available_events : Z;
  sc_loaded_events : Z;
  sc_warmup_events : Z;
  sc_evaluated_events : Z;
  sc_truncated : bool;
  sc_first_loaded_ms : option Z;
  sc_last_loaded_ms : option Z;
  sc_missing_entropy_events : Z;
}.

(** The PID, the start and the boot; tuples order as the derived [Ord]. *)
Abbreviation SimulationTargetKey := (Z * option Z * option string)%type.
Record SimulationTarget := mkSimulationTarget {
  tg_pid : Z;
  tg_start_time_ticks : option Z;
  tg_boot_id : option string;
  tg_first_event_id : Z;
  tg_first_timestamp_ms : Z;
  tg_peak_score : f64;
  tg_evidence_event_ids : list Z;
  tg_paths : list string;
}.
Definition target_key (t : SimulationTarget) : SimulationTargetKey := (tg_pid t, tg_start_time_ticks t, tg_boot_id t).
Definition has_identity (t : SimulationTarget) : bool :=
  is_some_and (tg_start_time_ticks t) (fun ticks => 0 <? ticks)
  && is_some_and (tg_boot_id t) (fun id => negb (trim_is_empty id)).

Record PolicySimulation := mkPolicySimulation {
  ps_policy : Policy;
  ps_alerts : Z;
  ps_aggregate_alerts : Z;
  ps_aggregation_evidence_truncated : bool;
  ps_detection_events : Z;
  ps_block_threshold_crossings : Z;
  ps_unattributed_threshold_events : Z;
  ps_threshold_targets : list SimulationTarget;
  ps_would_block_pids : list Z;
}.
Record SimulationDelta := mkSimulationDelta {
  sd_alerts : Z;
  sd_detection_events : Z;
  sd_new_threshold_pids : list Z;
  sd_removed_threshold_pids : list Z;
  sd_new_block_pids : list Z;
  sd_removed_block_pids : list Z;
  sd_new_block_targets : list SimulationTargetKey;
  sd_removed_block_targets : list SimulationTargetKey;
}.
Record SimulationReport := mkSimulationReport {
  sr_sensor : SensorKind;
  sr_coverage : SimulationCoverage;
  sr_baseline : PolicySimulation;
  sr_candidate : PolicySimulation;
  sr_delta : SimulationDelta;
  sr_warnings : list string;
}.

Definition policy_window_secs (policy : Policy) : Z :=
  let aggregate := dc_multi_window (po_detection policy) in
  let maximum := if mw_enabled aggregate then foldr Z.max 0 (map dw_window_secs (mw_windows aggregate)) else 0 in
  Z.max (dc_window_secs (po_detection policy)) maximum.

Section Replay.
Context `{RustStd}.

(** * The replay *)

Definition row_key (event : FileEvent) : SimulationTargetKey :=
  (fe_pid event, fp_start_time_ticks <$> fe_process event, fp_boot_id <$> fe_process event).
(** Without entropy samples the stored entropy is left out. *)
Definition replayed (detection : DetectionConfig) (event : FileEvent) : FileEvent :=
  if dc_entropy_sample_bytes detection =? 0
  then with_entropy event None (fe_content event)
  else event.

Record Replay := mkReplay {
  rp_engine : DetectionEngine;
  rp_result : PolicySimulation;
  rp_above : gmap SimulationTargetKey (bool * Z);
  rp_targets : gmap SimulationTargetKey SimulationTarget;
}.
Definition replay_start (policy : Policy) (options : SimulationOptions) : Replay :=
  mkReplay (engine_with_sensor (po_detection policy) (so_sensor options))
    (mkPolicySimulation policy 0 0 false 0 0 0 [] []) ∅ ∅.

Definition over_threshold (policy : Policy) (e : Evaluation) : bool :=
  ev_eligible e && f_ge (ev_score e) (rc_block_score (po_response policy)).
(** The entry of the process still holds. *)
Definition still_above (policy : Policy) (now : Z) (previous : option (bool * Z)) : bool :=
  is_some_and previous (fun p => p.1 && (sat_sub now p.2 <=? sat_mul (policy_window_secs policy) 1000)).
Definition count_row (policy : Policy) (r : PolicySimulation) (event : FileEvent) (e : Evaluation) (was_above : bool) : PolicySimulation :=
  let above := over_threshold policy e in
  mkPolicySimulation (ps_policy r)
    (ps_alerts r + Z.b2z (is_some (ev_alert e)) + zlen (ev_additional_alerts e))
    (ps_aggregate_alerts r + zlen (List.filter (fun d => d_pid d =? 0) (ev_additional_alerts e)))
    (ps_aggregation_evidence_truncated r)
    (ps_detection_events r
     + Z.b2z ((ev_eligible e && f_ge (ev_score e) (dc_detect_score (po_detection policy)))
              || negb (Nat.eqb (length (ev_additional_alerts e)) 0)))
    (ps_block_threshold_crossings r + Z.b2z (above && negb was_above))
    (ps_unattributed_threshold_events r + Z.b2z (above && (fe_pid event =? 0)))
    (ps_threshold_targets r) (ps_would_block_pids r).
Definition with_truncation (r : PolicySimulation) (truncated : bool) : PolicySimulation :=
  mkPolicySimulation (ps_policy r) (ps_alerts r) (ps_aggregate_alerts r) (ps_aggregation_evidence_truncated r || truncated)
    (ps_detection_events r) (ps_block_threshold_crossings r) (ps_unattributed_threshold_events r) (ps_threshold_targets r)
    (ps_would_block_pids r).

Definition new_target (row : FileEventRow) (score : f64) : SimulationTarget :=
  let event := row_event row in
  mkSimulationTarget (row_key event).1.1 (row_key event).1.2 (row_key event).2 (row_id row) (fe_timestamp_ms event) score [] [].
Definition add_evidence (t : SimulationTarget) (row : FileEventRow) (score : f64) : SimulationTarget :=
  let path := fe_path (row_event row) in
  mkSimulationTarget (tg_pid t) (tg_start_time_ticks t) (tg_boot_id t) (tg_first_event_id t) (tg_first_timestamp_ms t)
    (f_max (tg_peak_score t) score)
    (if zlen (tg_evidence_event_ids t) <? 20 then tg_evidence_event_ids t ++ [row_id row] else tg_evidence_event_ids t)
    (if (zlen (tg_paths t) <? 20) && negb (str_mem path (tg_paths t)) then tg_paths t ++ [path] else tg_paths t).

Definition replay_row (policy : Policy) (options : SimulationOptions) (s : Replay) (row : FileEventRow) : Replay :=
  let event := row_event row in
  let '(engine, e) := engine_evaluate (rp_engine s) (replayed (po_detection policy) event) in
  let result := with_truncation (rp_result s) (ev_evidence_truncated e) in
  let key := row_key event in
  let was_above := still_above policy (fe_timestamp_ms event) (rp_above s !! key) in
  let above := <[key := (over_threshold policy e, fe_timestamp_ms event)]> (rp_above s) in
  if fe_timestamp_ms event <? so_from_ms options then mkReplay engine result above (rp_targets s)
  else
    let result := count_row policy result event e was_above in
    if negb (block_candidate e (po_response policy)) then mkReplay engine result above (rp_targets s)
    else
      let target := default (new_target row (ev_score e)) (rp_targets s !! key) in
      mkReplay engine result above (<[key := add_evidence target row (ev_score e)]> (rp_targets s)).

(** [BTreeMap::into_values]. *)
Definition values_by_key (m : gmap SimulationTargetKey SimulationTarget) : list SimulationTarget :=
  map snd (sort_by (fun kv : SimulationTargetKey * SimulationTarget => kv.1) (map_to_list m)).
Definition replay_end (policy : Policy) (s : Replay) : PolicySimulation :=
  let r := rp_result s in
  let targets := values_by_key (rp_targets s) in
  mkPolicySimulation (ps_policy r) (ps_alerts r) (ps_aggregate_alerts r) (ps_aggregation_evidence_truncated r)
    (ps_detection_events r) (ps_block_threshold_crossings r) (ps_unattributed_threshold_events r) targets
    (if rc_auto_block (po_response policy) then btree_set (map tg_pid (List.filter has_identity targets)) else ps_would_block_pids r).
Definition replay (rows : list FileEventRow) (policy : Policy) (options : SimulationOptions) : PolicySimulation :=
  replay_end policy (fold_left (replay_row policy options) rows (replay_start policy options)).

(** * The comparison *)

Definition NAMES : string * string := ("기존", "후보").
Definition validated (baseline candidate : Policy) (options : SimulationOptions) : result (list string * list string) SimulationError :=
  let check (name : string) policy :=
    match validate_configuration (po_detection policy) (po_response policy) (so_sensor options) with
    | Ok warnings => Ok warnings
    | Err reason => Err (InvalidPolicy name reason)
    end in
  let? old := check NAMES.1 baseline in
  let? new := check NAMES.2 candidate in
  Ok (old, new).
Definition warmup_ms (baseline candidate : Policy) : Z :=
  sat_mul (Z.max (policy_window_secs baseline) (policy_window_secs candidate)) 1000.

Definition load_simulation_range (store : AgentStore) (baseline candidate : Policy) (options : SimulationOptions)
    : result FileEventRange SimulationError :=
  let? _ := guard ((so_to_ms options <? so_from_ms options) || (i64_max <? so_to_ms options))
              (InvalidOptions "시작 ≤ 종료 ≤ i64::MAX여야 합니다") in
  let? _ := guard ((so_max_events options =? 0) || (1000000 <? so_max_events options))
              (InvalidOptions "조회 제한은 1~1,000,000건이어야 합니다") in
  let? _ := validated baseline candidate options in
  match file_events_in_range store (sat_sub (so_from_ms options) (warmup_ms baseline candidate)) (so_to_ms options)
          (so_max_events options) with
  | Ok range => Ok range
  | Err e => Err (SimulationStorage e)
  end.

(** [BTreeSet::difference]. *)
Definition set_difference {A} `{EqDecision A} (l k : list A) : list A := List.filter (fun x => bool_decide (x ∉ k)) l.
Definition block_keys (policy : Policy) (r : PolicySimulation) : list SimulationTargetKey :=
  btree_set (map target_key (List.filter (fun t => rc_auto_block (po_response policy) && has_identity t) (ps_threshold_targets r))).
Definition simulation_delta (baseline candidate : Policy) (old new : PolicySimulation) : SimulationDelta :=
  let old_pids := btree_set (map tg_pid (ps_threshold_targets old)) in
  let new_pids := btree_set (map tg_pid (ps_threshold_targets new)) in
  let old_blocks := btree_set (ps_would_block_pids old) in
  let new_blocks := btree_set (ps_would_block_pids new) in
  mkSimulationDelta (ps_alerts new - ps_alerts old) (ps_detection_events new - ps_detection_events old)
    (set_difference new_pids old_pids) (set_difference old_pids new_pids)
    (set_difference new_blocks old_blocks) (set_difference old_blocks new_blocks)
    (set_difference (block_keys candidate new) (block_keys baseline old))
    (set_difference (block_keys baseline old) (block_keys candidate new)).

Definition no_entropy (row : FileEventRow) : bool :=
  bool_decide (fe_action (row_event row) = Modify) && negb (is_some (fe_entropy (row_event row))).
Definition simulation_coverage (range : FileEventRange) (baseline candidate : Policy) (options : SimulationOptions) : SimulationCoverage :=
  let rows := fer_events range in
  let warmup := zlen (List.filter (fun r => fe_timestamp_ms (row_event r) <? so_from_ms options) rows) in
  mkSimulationCoverage (so_from_ms options) (so_to_ms options) (sat_sub (so_from_ms options) (warmup_ms baseline candidate))
    (fer_total_events range) (zlen rows) warmup (zlen rows - warmup) (fer_truncated range)
    ((fun r => fe_timestamp_ms (row_event r)) <$> head rows) ((fun r => fe_timestamp_ms (row_event r)) <$> list.last rows)
    (zlen (List.filter no_entropy rows)).

Definition BASIS_WARNINGS : list string :=
  ["저장된 이벤트의 비교 결과입니다. 실제 차단 이후의 이벤트 변화·차단 성공 여부는 예측하지 않습니다.";
   "DB에 센서 종류가 없어 지정한 센서를 사용합니다. 프로세스 시작 시각·부팅 ID가 없는 이벤트는 PID 재사용을 구별하거나 자동 차단할 수 없습니다.";
   "준비 구간으로 윈도우를 채우지만 더 오래된 알림 쿨다운·수집 누락은 복원할 수 없습니다. 알림 수는 재생 기준입니다."].
Definition warn (b : bool) (text : string) : list string := if b then [text] else [].
Definition sampling_warnings (range : FileEventRange) (a b : ContentSamplingConfig) : list string :=
  if sm_enabled a || sm_enabled b then
    warn (existsb (fun r => negb (is_some (fe_content (row_event r)))) (fer_events range))
      "일부 과거 이벤트에 다중 위치 표본이 없습니다. 현재 파일로 보완하지 않으며 부분 암호화 비교 근거가 불완전합니다."
    ++ warn (negb (Bool.eqb (sm_enabled a) (sm_enabled b)) || negb (sm_total_bytes a =? sm_total_bytes b))
         "내용 표본 수집 설정이 달라도 저장된 당시 표본만 사용합니다. 새 위치·읽기 예산으로 다시 수집한 결과는 재현할 수 없습니다."
  else [].
Definition simulation_warnings (range : FileEventRange) (baseline candidate : Policy) (validation : list string * list string)
    (c : SimulationCoverage) (truncated : bool) : list string :=
  let old := po_detection baseline in
  let new := po_detection candidate in
  BASIS_WARNINGS
  ++ map (fun w => NAMES.1 +:+ ": " +:+ w) validation.1 ++ map (fun w => NAMES.2 +:+ ": " +:+ w) validation.2
  ++ warn (negb (dc_entropy_sample_bytes old =? dc_entropy_sample_bytes new))
       "엔트로피 샘플 크기 변경은 재현할 수 없습니다. 두 정책 모두 수집 당시 저장된 엔트로피만 사용합니다."
  ++ sampling_warnings range (dc_content_sampling old) (dc_content_sampling new)
  ++ warn ((negb (Nat.eqb (length (dc_approved_changes old)) 0) || negb (Nat.eqb (length (dc_approved_changes new)) 0))
           && existsb (fun r => negb (is_some (fe_process (row_event r)))) (fer_events range))
       "프로세스 맥락이 없는 이벤트는 승인 작업과 일치하는지 확인할 수 없어 예외를 적용하지 않습니다."
  ++ warn (fer_truncated range)
       ("조회 상한으로 " +:+ pretty (fer_total_events range) +:+ "건 중 " +:+ pretty (zlen (fer_events range))
        +:+ "건만 재생했습니다. 구간 전체 결과가 아니므로 확대 적용 판단에 사용하지 마세요.")
  ++ warn (0 <? sc_missing_entropy_events c)
       ("수정 이벤트 " +:+ pretty (sc_missing_entropy_events c)
        +:+ "건의 엔트로피가 없습니다. 현재 파일에서 보충하지 않으며 위험 점수가 낮게 산출될 수 있습니다.")
  ++ warn (sc_evaluated_events c =? 0) "평가 구간에서 재생한 이벤트가 없습니다. 안전성을 검증한 결과가 아닙니다."
  ++ warn truncated "다중 시간창 집계의 메모리 한도로 일부 증거가 제외되었습니다. 집계 결과가 불완전할 수 있습니다.".

Definition simulate_range (range : FileEventRange) (baseline candidate : Policy) (options : SimulationOptions)
    : result SimulationReport SimulationError :=
  let? validation := validated baseline candidate options in
  let coverage := simulation_coverage range baseline candidate options in
  let old := replay (fer_events range) baseline options in
  let new := replay (fer_events range) candidate options in
  Ok (mkSimulationReport (so_sensor options) coverage old new (simulation_delta baseline candidate old new)
        (simulation_warnings range baseline candidate validation coverage
           (ps_aggregation_evidence_truncated old || ps_aggregation_evidence_truncated new))).
Definition simulate (store : AgentStore) (baseline candidate : Policy) (options : SimulationOptions)
    : result SimulationReport SimulationError :=
  let? range := load_simulation_range store baseline candidate options in
  simulate_range range baseline candidate options.

End Replay.

(** * The stored entropy is left out only where it has no effect *)

Section Entropyless.
Context `{RustStd}.

Lemma replayed_signal config event : encryption_signal (replayed config event) config = encryption_signal event config.
Proof.
  unfold replayed, encryption_signal. destruct (Z.eqb_spec (dc_entropy_sample_bytes config) 0) as [E|]; [|done].
  cbn. by rewrite E.
Qed.

Lemma entry_of_without e x config :
  encryption_signal (with_entropy e x (fe_content e)) config = encryption_signal e config ->
  entry_of (with_entropy e x (fe_content e)) config = entry_of e config.
Proof. intros Hs. unfold entry_of. by rewrite Hs. Qed.

Lemma evaluate_without s e x approved :
  encryption_signal (with_entropy e x (fe_content e)) (bs_config s) = encryption_signal e (bs_config s) ->
  evaluate_with_approval s (with_entropy e x (fe_content e)) approved = evaluate_with_approval s e approved.
Proof.
  intros Hs. unfold evaluate_with_approval, push_event. cbv zeta.
  change (prepare s (with_entropy e x (fe_content e))) with (prepare s e).
  assert (bs_config (adopt_identity (prepare s e) (fe_pid e) (event_identity e)) = bs_config s) as Hc by apply prepare_config.
  change (adopt_identity (prepare s e) (fe_pid (with_entropy e x (fe_content e))) (event_identity (with_entropy e x (fe_content e))))
    with (adopt_identity (prepare s e) (fe_pid e) (event_identity e)).
  rewrite entry_of_without by by rewrite Hc. reflexivity.
Qed.

Lemma record_without s e x included now :
  encryption_signal (with_entropy e x (fe_content e)) (ms_config s) = encryption_signal e (ms_config s) ->
  record_observation s (with_entropy e x (fe_content e)) included now = record_observation s e included now.
Proof.
  intros Hs. unfold record_observation, new_observation.
  rewrite (proj1 (shed_log_fields (length (ms_events s)) (max_events (ms_config s)) now s)). rewrite Hs. reflexivity.
Qed.

Lemma multi_without s e x rules :
  encryption_signal (with_entropy e x (fe_content e)) (ms_config s) = encryption_signal e (ms_config s) ->
  multi_evaluate s (with_entropy e x (fe_content e)) rules = multi_evaluate s e rules.
Proof.
  intros Hs. unfold multi_evaluate. destruct (negb _); [done|]. cbv zeta.
  change (fe_timestamp_ms (with_entropy e x (fe_content e))) with (fe_timestamp_ms e).
  rewrite record_without by by rewrite (proj1 (advance_fields s _)). reflexivity.
Qed.

Lemma engine_configs config sensor h :
  let s := engine_run config sensor h in
  de_config s = config /\ bs_config (de_scorer s) = config /\ ms_config (de_multi_window s) = config.
Proof.
  destruct (engine_run_parts config sensor h) as (E1 & E2 & E3 & _). cbv zeta. rewrite E2, E3, run_config.
  split_and!; [done|done|]. generalize (multi_inputs config h) as k. intros k.
  induction k as [|y k IH] using rev_ind; [done|]. rewrite multi_run_snoc. cbn.
  by rewrite (proj1 (multi_evaluate_fields _ _ _)).
Qed.

Lemma engine_replayed config sensor h event :
  engine_evaluate (engine_run config sensor h) (replayed config event) = engine_evaluate (engine_run config sensor h) event.
Proof.
  destruct (engine_configs config sensor h) as (E1 & E2 & E3). pose proof (replayed_signal config event) as Hs.
  unfold replayed in *. destruct (dc_entropy_sample_bytes config =? 0); [|done].
  set (s := engine_run config sensor h) in *. unfold engine_evaluate. cbv zeta.
  change (find_approval (de_config s) (with_entropy event None (fe_content event))) with (find_approval (de_config s) event).
  rewrite evaluate_without, multi_without by congruence. reflexivity.
Qed.

Lemma engine_run_replayed config sensor h :
  engine_run config sensor (map (replayed config) h) = engine_run config sensor h.
Proof.
  induction h as [|e h IH] using rev_ind; [done|].
  rewrite map_app. cbn [map]. by rewrite !engine_run_snoc, IH, engine_replayed.
Qed.

End Entropyless.

(** * What a replay reports *)

Section Reference.
Context `{RustStd} (policy : Policy) (options : SimulationOptions).
#[local] Abbreviation Judged := (FileEventRow * Evaluation)%type.

(** Every row with the evaluation of an engine that has seen the rows before it. *)
Fixpoint judged (before : list FileEvent) (rows : list FileEventRow) : list Judged :=
  match rows with
  | [] => []
  | row :: rows =>
      (row, (engine_evaluate (engine_run (po_detection policy) (so_sensor options) before) (row_event row)).2)
      :: judged (before ++ [row_event row]) rows
  end.
Definition in_interval (j : Judged) : bool := negb (fe_timestamp_ms (row_event j.1) <? so_from_ms options).
Definition is_candidate (j : Judged) : bool := block_candidate j.2 (po_response policy).
Definition candidates (js : list Judged) : list Judged := List.filter is_candidate (List.filter in_interval js).
Definition of_key (key : SimulationTargetKey) (js : list Judged) : list Judged :=
  List.filter (fun j => bool_decide (row_key (row_event j.1) = key)) js.

(** The paths in the order of their first appearance. *)
Definition first_seen (paths : list string) : list string :=
  fold_left (fun seen path => if str_mem path seen then seen else seen ++ [path]) paths [].
Definition peak (first : f64) (js : list Judged) : f64 := fold_left (fun x (j : Judged) => f_max x (ev_score j.2)) js first.
Definition target_of (js : list Judged) : option SimulationTarget :=
  match js with
  | [] => None
  | (row, e) :: _ =>
      let key := row_key (row_event row) in
      Some (mkSimulationTarget key.1.1 key.1.2 key.2 (row_id row) (fe_timestamp_ms (row_event row)) (peak (ev_score e) js)
              (take 20 (map (fun j : Judged => row_id j.1) js)) (take 20 (first_seen (map (fun j : Judged => fe_path (row_event j.1)) js))))
  end.

Lemma judged_app before rows rows' :
  judged before (rows ++ rows') = judged before rows ++ judged (before ++ map row_event rows) rows'.
Proof.
  revert before. induction rows as [|row rows IH]; intros before; cbn; [by rewrite app_nil_r|].
  by rewrite IH, <- app_assoc.
Qed.

Lemma first_seen_snoc paths path :
  first_seen (paths ++ [path]) = if str_mem path (first_seen paths) then first_seen paths else first_seen paths ++ [path].
Proof. unfold first_seen. by rewrite fold_left_app. Qed.

(** The list of the paths stops at 20, as its prefix does. *)
Lemma limited_push (seen : list string) path :
  (if (zlen (take 20 seen) <? 20) && negb (str_mem path (take 20 seen)) then take 20 seen ++ [path] else take 20 seen)
  = take 20 (if str_mem path seen then seen else seen ++ [path]).
Proof.
  unfold zlen. rewrite length_take.
  destruct (Z.ltb_spec (Z.of_nat (20 `min` length seen)) 20) as [Hlt|Hge]; cbn [andb].
  - assert (take 20 seen = seen) as -> by (apply take_ge; lia). destruct (str_mem path seen); cbn [negb].
    + symmetry. apply take_ge. lia.
    + symmetry. apply take_ge. rewrite length_app. cbn. lia.
  - destruct (str_mem path seen); [done|]. symmetry. rewrite take_app_le by lia. done.
Qed.

Lemma limited_push_id (ids : list Z) id :
  (if zlen (take 20 ids) <? 20 then take 20 ids ++ [id] else take 20 ids) = take 20 (ids ++ [id]).
Proof.
  unfold zlen. rewrite length_take. destruct (Z.ltb_spec (Z.of_nat (20 `min` length ids)) 20) as [Hlt|Hge].
  - assert (take 20 ids = ids) as -> by (apply take_ge; lia). symmetry. apply take_ge. rewrite length_app. cbn. lia.
  - symmetry. by rewrite take_app_le by lia.
Qed.

Lemma target_of_snoc js row e :
  Forall (fun j : Judged => row_key (row_event j.1) = row_key (row_event row)) js ->
  target_of (js ++ [(row, e)]) = Some (add_evidence (default (new_target row (ev_score e)) (target_of js)) row (ev_score e)).
Proof.
  intros Hk. destruct js as [|[r0 e0] js].
  - cbn. unfold add_evidence, new_target. cbn. f_equal.
  - assert (row_key (row_event r0) = row_key (row_event row)) as Hk0 by by inversion Hk.
    set (l := (r0, e0) :: js). assert (target_of (l ++ [(row, e)])
      = Some (mkSimulationTarget (row_key (row_event r0)).1.1 (row_key (row_event r0)).1.2 (row_key (row_event r0)).2 (row_id r0)
                (fe_timestamp_ms (row_event r0)) (peak (ev_score e0) (l ++ [(row, e)]))
                (take 20 (map (fun j : Judged => row_id j.1) (l ++ [(row, e)])))
                (take 20 (first_seen (map (fun j : Judged => fe_path (row_event j.1)) (l ++ [(row, e)])))))) as -> by done.
    rewrite !map_app. cbn [map fst]. rewrite first_seen_snoc, <- limited_push, <- limited_push_id.
    unfold peak at 1. rewrite fold_left_app. reflexivity.
Qed.

Lemma of_key_app key js js' : of_key key (js ++ js') = of_key key js ++ of_key key js'.
Proof. apply List.filter_app. Qed.
Lemma of_key_keys key js : Forall (fun j : Judged => row_key (row_event j.1) = key) (of_key key js).
Proof.
  unfold of_key. induction js as [|j js IH]; cbn; [constructor|].
  destruct (bool_decide_reflect (row_key (row_event j.1) = key)); [by constructor|done].
Qed.

Lemma candidates_snoc js j :
  candidates (js ++ [j]) = candidates js ++ (if in_interval j && is_candidate j then [j] else []).
Proof.
  unfold candidates. rewrite filter_snoc. destruct (in_interval j); cbn [andb]; [apply filter_snoc|by rewrite !app_nil_r].
Qed.

(** The replay after some rows. *)
Record replay_ok (rows : list FileEventRow) (s : Replay) : Prop := {
  ro_engine : rp_engine s = engine_run (po_detection policy) (so_sensor options) (map row_event rows);
  ro_targets : forall key, rp_targets s !! key = target_of (of_key key (candidates (judged [] rows)));
  ro_pids : ps_would_block_pids (rp_result s) = [];
  ro_alerts : ps_alerts (rp_result s)
    = sumZ (map (fun j : Judged => Z.b2z (is_some (ev_alert j.2)) + zlen (ev_additional_alerts j.2)) (List.filter in_interval (judged [] rows)));
  ro_unattributed : ps_unattributed_threshold_events (rp_result s)
    = zlen (List.filter (fun j : Judged => over_threshold policy j.2 && (fe_pid (row_event j.1) =? 0)) (List.filter in_interval (judged [] rows)));
  ro_truncated : ps_aggregation_evidence_truncated (rp_result s) = existsb (fun j : Judged => ev_evidence_truncated j.2) (judged [] rows);
}.

Lemma replay_row_ok rows s row : replay_ok rows s -> replay_ok (rows ++ [row]) (replay_row policy options s row).
Proof.
  intros [R1 R2 R3 R4 R5 R6]. unfold replay_row. rewrite R1, engine_replayed.
  set (engine := engine_run _ _ _) in *.
  assert (judged [] (rows ++ [row]) = judged [] rows ++ [(row, (engine_evaluate engine (row_event row)).2)]) as Hj
    by (rewrite judged_app; reflexivity).
  pose proof (engine_run_snoc (po_detection policy) (so_sensor options) (map row_event rows) (row_event row)) as Hsnoc. fold engine in Hsnoc.
  destruct (engine_evaluate engine (row_event row)) as [engine' e]. cbn [fst snd] in Hsnoc, Hj.
  assert (rp_engine (mkReplay engine' (rp_result s) ∅ ∅) = engine_run (po_detection policy) (so_sensor options) (map row_event (rows ++ [row]))) as He
    by (rewrite map_app; cbn [map]; by rewrite Hsnoc). cbn in He.
  assert (in_interval (row, e) = negb (fe_timestamp_ms (row_event row) <? so_from_ms options)) as Hin by done.
  assert (forall js, existsb (fun j : Judged => ev_evidence_truncated j.2) (js ++ [(row, e)])
    = existsb (fun j : Judged => ev_evidence_truncated j.2) js || ev_evidence_truncated e) as Htr
    by (intros js; rewrite existsb_app; cbn; by rewrite orb_false_r).
  destruct (fe_timestamp_ms (row_event row) <? so_from_ms options) eqn:Hold.
  { split; cbn [rp_engine rp_targets rp_result ps_would_block_pids ps_alerts ps_unattributed_threshold_events
                ps_aggregation_evidence_truncated with_truncation]; try done;
      rewrite Hj, ?Htr, ?filter_snoc, ?Hin, ?app_nil_r, ?R6; try done.
    intros key. by rewrite candidates_snoc, Hin, app_nil_r. }
  assert (forall key, target_of (of_key key (candidates (judged [] (rows ++ [row]))))
    = if block_candidate e (po_response policy) && bool_decide (row_key (row_event row) = key)
      then Some (add_evidence (default (new_target row (ev_score e)) (rp_targets s !! key)) row (ev_score e)) else rp_targets s !! key) as Ht.
  { intros key. rewrite Hj, candidates_snoc, Hin, R2. change (is_candidate (row, e)) with (block_candidate e (po_response policy)).
    cbn [negb andb]. destruct (block_candidate e (po_response policy)); cbn [andb]; [|by rewrite app_nil_r].
    unfold of_key at 1. rewrite filter_snoc. cbn [fst].
    destruct (bool_decide_reflect (row_key (row_event row) = key)) as [<-|]; [|by rewrite app_nil_r].
    apply target_of_snoc, of_key_keys. }
  assert (forall targets, (forall key, targets !! key = target_of (of_key key (candidates (judged [] (rows ++ [row]))))) ->
    replay_ok (rows ++ [row]) (mkReplay engine' (count_row policy (with_truncation (rp_result s) (ev_evidence_truncated e)) (row_event row) e
      (still_above policy (fe_timestamp_ms (row_event row)) (rp_above s !! row_key (row_event row))))
      (<[row_key (row_event row) := (over_threshold policy e, fe_timestamp_ms (row_event row))]> (rp_above s)) targets)) as Hres.
  { intros targets Htg. split; cbn [rp_engine rp_targets rp_result ps_would_block_pids ps_alerts ps_unattributed_threshold_events
                ps_aggregation_evidence_truncated with_truncation count_row]; try done;
      rewrite Hj, ?Htr, ?filter_snoc, ?Hin, ?R4, ?R5, ?R6; cbn [negb].
    - rewrite map_app, sumZ_app. cbn. lia.
    - rewrite filter_snoc. cbn [fst snd]. rewrite zlen_app. by destruct (_ && _).
    - done. }
  destruct (block_candidate e (po_response policy)) eqn:Hb; cbn [negb andb] in Ht |- *; apply Hres; intros key; rewrite Ht; [|done].
  destruct (bool_decide_reflect (row_key (row_event row) = key)) as [<-|Hne]; [by rewrite lookup_insert_eq|by rewrite lookup_insert_ne].
Qed.

Lemma replay_ok_run rows : replay_ok rows (fold_left (replay_row policy options) rows (replay_start policy options)).
Proof.
  induction rows as [|row rows IH] using rev_ind; [by split|]. rewrite fold_left_app. by apply replay_row_ok.
Qed.

Lemma target_of_key js t key : target_of (of_key key js) = Some t -> target_key t = key.
Proof.
  pose proof (of_key_keys key js) as Hk. destruct (of_key key js) as [|[row e] l]; [done|]. intros [= <-].
  inversion Hk as [|? ? Hrow]; subst. reflexivity.
Qed.

Lemma values_by_key_elem m t : t ∈ values_by_key m <-> exists key, m !! key = Some t.
Proof.
  unfold values_by_key. rewrite list_elem_of_fmap. split.
  - intros ([key t'] & -> & Hin). rewrite sort_by_perm in Hin. exists key. by apply elem_of_map_to_list.
  - intros (key & Hk). exists (key, t). split; [done|]. rewrite sort_by_perm. by apply elem_of_map_to_list.
Qed.

Lemma values_by_key_nodup m :
  (forall key t, m !! key = Some t -> target_key t = key) -> NoDup (map target_key (values_by_key m)).
Proof.
  intros Hm. unfold values_by_key. rewrite sort_by_perm, map_map.
  erewrite map_ext_in; [apply NoDup_fst_map_to_list|]. intros [key t] Hin%list_elem_of_In%elem_of_map_to_list. cbn. by apply Hm.
Qed.

(** The replay of any recorded rows is what a recount over the whole history gives.
    Each row is judged by an engine that has seen exactly the rows before it, whether
    or not their entropy is used. The targets are one per process instance with a
    blocking row in the interval, with the first of its rows, the peak of their scores
    and at most 20 of their rows and paths in order; the predicted blocks are the
    numbers of the targets with a full identity when blocking is on; and the
    counters count rows of the interval only. *)
Theorem replay_exact rows :
  let r := replay rows policy options in
  let js := judged [] rows in
  let evaluated := List.filter in_interval js in
  (forall t, t ∈ ps_threshold_targets r <-> target_of (of_key (target_key t) (candidates js)) = Some t)
  /\ NoDup (map target_key (ps_threshold_targets r))
  /\ (forall pid, pid ∈ ps_would_block_pids r <->
        rc_auto_block (po_response policy) = true /\ exists t, t ∈ ps_threshold_targets r /\ has_identity t = true /\ tg_pid t = pid)
  /\ ps_alerts r = sumZ (map (fun j : Judged => Z.b2z (is_some (ev_alert j.2)) + zlen (ev_additional_alerts j.2)) evaluated)
  /\ ps_unattributed_threshold_events r
     = zlen (List.filter (fun j : Judged => over_threshold policy j.2 && (fe_pid (row_event j.1) =? 0)) evaluated)
  /\ ps_aggregation_evidence_truncated r = existsb (fun j : Judged => ev_evidence_truncated j.2) js.
Proof.
  destruct (replay_ok_run rows) as [_ R2 R3 R4 R5 R6]. unfold replay.
  set (s := fold_left _ _ _) in *. cbv zeta. cbn [replay_end ps_threshold_targets ps_would_block_pids ps_alerts ps_unattributed_threshold_events ps_aggregation_evidence_truncated].
  split_and!; [| | |done|done|done].
  - intros t. rewrite values_by_key_elem. setoid_rewrite R2. split; [|by eexists].
    intros (key & Hk). by rewrite (target_of_key _ _ _ Hk).
  - apply values_by_key_nodup. intros key t. rewrite R2. apply target_of_key.
  - intros pid. destruct (rc_auto_block (po_response policy)).
    + unfold btree_set. rewrite dedup_sort_elem, list_elem_of_fmap. setoid_rewrite filter_elem. split.
      * intros (t & -> & Hin & Hid). split; [done|]. by exists t.
      * intros (_ & t & Hin & Hid & <-). by exists t.
    + rewrite R3. split; [by intros ?%elem_of_nil|by intros [? _]].
Qed.

End Reference.

(** * The agent and the replay of what it recorded *)

(** A value that the columns keep as it is. *)
Definition storable (e : FileEvent) : Prop :=
  0 <= fe_timestamp_ms e <= i64_max
  /\ (forall size, fe_size e = Some size -> 0 <= size <= i64_max)
  /\ (forall x, fe_entropy e = Some x -> f_is_finite x = true /\ f_in_range (f_of_Z 0) (f_of_Z 8) x = true).

Lemma action_named_debug a : action_named (action_debug a) = Some a.
Proof. by destruct a. Qed.
Lemma as_i64_small x : x <= i64_max -> as_i64 x = x.
Proof. intros Hx. unfold as_i64. by rewrite (proj2 (Z.leb_le _ _)). Qed.

Lemma decode_stored id e : storable e -> decode_file_event (id, file_event_row e) = Ok (mkFileEventRow id e).
Proof.
  intros ([Ht0 Ht] & Hs & Hx). unfold decode_file_event, file_event_row. cbn. rewrite action_named_debug, as_i64_small by done. cbn.
  rewrite (proj2 (Z.ltb_ge _ _)) by done. destruct e as [t pid path action size entropy process content]. cbn in *.
  assert (opt_filter (fun x => negb (f_is_nan x)) entropy = entropy) as ->.
  { destruct entropy as [x|]; [|done]. cbn. destruct (Hx x eq_refl) as [Hf _]. by destruct x. }
  assert (is_some_and entropy (fun x => negb (f_is_finite x) || negb (f_in_range (f_of_Z 0) (f_of_Z 8) x)) = false) as ->.
  { destruct entropy as [x|]; [|done]. cbn. by destruct (Hx x eq_refl) as [-> ->]. }
  destruct size as [n|]; [|done]. destruct (Hs n eq_refl). cbn. rewrite as_i64_small by done. cbn.
  by rewrite (proj2 (Z.ltb_ge n 0)).
Qed.

Lemma sort_by_sorted_id {A K} `{OrdLaws K} (f : A -> K) (l : list A) :
  StronglySorted (fun x y => cmp (f x) (f y) <> Gt) l -> sort_by f l = l.
Proof.
  induction 1 as [|x l Hs IH Hx]; [done|]. cbn. unfold sort_by in IH. rewrite IH. destruct l as [|y l]; [done|]. cbn.
  inversion Hx as [|? ? Hxy]; subst. by destruct (cmp (f x) (f y)).
Qed.

Lemma collect_map {A B E} (f : A -> result B E) (g : A -> B) (l : list A) :
  Forall (fun x => f x = Ok (g x)) l -> collect (map f l) = Ok (map g l).
Proof. induction 1 as [|x l Hx Hl IH]; [done|]. cbn. by rewrite Hx, IH. Qed.

(** The rows of events that were stored in the order of their times, after [k] others. *)
Definition rows_after (k : nat) (es : list FileEvent) : list FileEventRow :=
  imap (fun i e => mkFileEventRow (Z.of_nat (k + i) + 1) e) es.
Lemma rows_after_events k es : map row_event (rows_after k es) = es.
Proof.
  unfold rows_after. change (row_event <$> imap (fun i e => mkFileEventRow (Z.of_nat (k + i) + 1) e) es = es). rewrite fmap_imap.
  induction es as [|e es IH] using rev_ind; [done|]. rewrite imap_app. cbn. by rewrite IH.
Qed.

Lemma numbered_sorted (es : list FileEvent) (k : nat) :
  StronglySorted (fun a b => fe_timestamp_ms a <= fe_timestamp_ms b) es -> Forall storable es ->
  StronglySorted (fun x y : Z * FileEventRecord => cmp (fr_timestamp_ms x.2, x.1) (fr_timestamp_ms y.2, y.1) <> Gt)
    (imap (fun i r => (Z.of_nat (k + i) + 1, r)) (map file_event_row es)).
Proof.
  intros Hs Hst. revert k. induction Hs as [|e es Hs IH He]; intros k; [constructor|].
  apply Forall_cons in Hst as [Hste Hst]. cbn [map imap]. constructor.
  - erewrite imap_ext; [apply (IH Hst (S k))|]. intros i r _. cbn. f_equal. lia.
  - rewrite Forall_forall. intros [id r] Hin. apply elem_of_lookup_imap in Hin as (i & r' & [= -> ->] & Hr).
    rewrite list_lookup_fmap in Hr. destruct (es !! i) as [e'|] eqn:He'; [|done]. cbn in Hr. injection Hr as <-.
    rewrite Forall_forall in He, Hst. assert (e' ∈ es) as Hin' by by eapply list_elem_of_lookup_2.
    pose proof (He _ Hin') as Hle. pose proof (Hst _ Hin') as [[_ Hmax] _]. destruct Hste as [[_ Hmaxe] _]. cbn.
    rewrite !as_i64_small by done. unfold cmp, ord_prod, cmp, ord_Z. cbn.
    destruct (Z.compare_spec (fe_timestamp_ms e) (fe_timestamp_ms e')) as [_| |]; [|done|lia].
    destruct (Z.compare_spec (Z.of_nat (k + 0) + 1) (Z.of_nat (k + S i) + 1)); [done|done|lia].
Qed.

(** The query returns the rows of a run after those of earlier runs, when these lie
    outside the period. *)
Lemma range_of_stored st old es from to limit :
  as_file_events st = old ++ map file_event_row es -> Forall (fun r => ~ (from <= fr_timestamp_ms r <= to)) old ->
  Forall storable es -> StronglySorted (fun a b => fe_timestamp_ms a <= fe_timestamp_ms b) es ->
  Forall (fun e => from <= fe_timestamp_ms e <= to) es -> 0 <= from <= to -> to <= i64_max -> zlen es <= limit <= i64_max -> limit <> 0 ->
  file_events_in_range st from to limit = Ok (mkFileEventRange from to (zlen es) false (rows_after (length old) es)).
Proof.
  intros Hst Hold Hs Hsort Hin Hft Ht Hl Hl0. unfold file_events_in_range, numbered_rows. rewrite Hst.
  rewrite (proj2 (Z.ltb_ge to from)), (proj2 (Z.ltb_ge i64_max to)), (proj2 (Z.eqb_neq limit 0)), (proj2 (Z.ltb_ge i64_max limit)) by lia. cbn [orb].
  rewrite imap_app. rewrite List.filter_app.
  set (earlier := imap _ old). set (rows := imap _ (map file_event_row es)).
  assert (List.filter (in_period from to) earlier = []) as ->.
  { destruct (List.filter (in_period from to) earlier) as [|r l] eqn:E; [done|].
    assert (r ∈ List.filter (in_period from to) earlier) as Hr by (rewrite E; apply list_elem_of_here).
    apply filter_elem in Hr as [Hr Hp]. destruct r as [id r]. apply elem_of_lookup_imap in Hr as (i & r' & [= -> ->] & Hr).
    rewrite Forall_forall in Hold. apply list_elem_of_lookup_2, Hold in Hr. exfalso. apply Hr.
    unfold in_period in Hp. apply andb_true_iff in Hp as [H1%Z.leb_le H2%Z.leb_le]. cbn in *. lia. }
  assert (List.filter (in_period from to) rows = rows) as ->.
  { apply filter_all_true. rewrite Forall_forall. intros [id r] Hr.
    apply elem_of_lookup_imap in Hr as (i & r' & [= -> ->] & Hr). rewrite list_lookup_fmap in Hr.
    destruct (es !! i) as [e|] eqn:He; [|done]. cbn in Hr. injection Hr as <-. rewrite Forall_forall in Hs, Hin.
    assert (e ∈ es) as Hmem by by eapply list_elem_of_lookup_2. pose proof (Hs _ Hmem) as [[? ?] _]. pose proof (Hin _ Hmem) as ?. cbn in *.
    unfold in_period. cbn. rewrite as_i64_small by done. apply andb_true_iff. rewrite !Z.leb_le. lia. }
  cbn [app].
  assert (length rows = length es) as Hlen by (unfold rows; by rewrite length_imap, length_map).
  rewrite sort_by_sorted_id by by apply (numbered_sorted es (length old)). rewrite take_ge by (unfold zlen in Hl; lia).
  rewrite (collect_map _ (fun r => mkFileEventRow r.1 (fr_event r.2))).
  - cbn. f_equal. assert (map (fun r : Z * FileEventRecord => mkFileEventRow r.1 (fr_event r.2)) rows = rows_after (length old) es) as ->.
    { unfold rows, rows_after. change (map ?f (imap ?g ?l)) with (f <$> imap g l). rewrite fmap_imap.
      change (map file_event_row es) with (file_event_row <$> es). rewrite imap_fmap. done. }
    unfold zlen. rewrite Hlen. unfold rows_after. rewrite length_imap. f_equal. apply Z.ltb_irrefl.
  - rewrite Forall_forall. intros [id r] Hr. apply elem_of_lookup_imap in Hr as (i & r' & [= -> ->] & Hr).
    rewrite list_lookup_fmap in Hr. destruct (es !! i) as [e|] eqn:He; [|done]. cbn in Hr. injection Hr as <-.
    rewrite decode_stored; [done|]. rewrite Forall_forall in Hs. apply Hs. by eapply list_elem_of_lookup_2.
Qed.

Section Prediction.
Context `{RustStd} `{DetectionJson} {W : Type} `{ProcessLaws W}.
Implicit Types w : W.

Definition step_stored (step : AgentStep) : bool := match step with FileArrives _ env => en_event_ok env | _ => true end.

Lemma step_files w a step w' a' :
  agent_step (w, a) step = (w', a') ->
  as_file_events (ag_store a')
  = as_file_events (ag_store a) ++ if step_stored step then map file_event_row (step_events a step) else [].
Proof.
  intros Hs. destruct step as [event env|event ok|now]; cbn [agent_step step_events step_stored map] in *.
  - apply (f_equal snd) in Hs. cbn [snd] in Hs. subst a'. rewrite <- (step_sampled a (en_loop_now env) event env).
    destruct (guard_loop_keeps a (en_loop_now env)) as (_ & _ & _ & _ & _ & <-). set (a1 := guard_loop _ _).
    unfold process_event, sampled. destruct (sample_event _ _ _ _) as [[sampler e] failed]. cbn [fst snd].
    destruct (assess _ _ _ _) as [[engine semantic] evaluation]. destruct (guard_policy_time _ _ _) as [policy response].
    destruct (respond_to _ _ _ _ _) as [w2 r]. destruct (record_alerts _ _ _ _ _ _ _). cbn [snd ag_store with_events as_file_events].
    set (store := match r with Some _ => _ | None => _ end).
    assert (as_file_events store = as_file_events (ag_store a1)) as <-
      by (subst store; destruct r; [|done]; unfold insert_response_result; destruct (_ || _); [done|]; by destruct (en_audit_ok env)).
    unfold insert_file_event. by destruct (en_event_ok env); [|rewrite app_nil_r].
  - simplify_eq. rewrite app_nil_r. cbn. unfold insert_process_event. by destruct ok.
  - simplify_eq. rewrite app_nil_r. by destruct (guard_loop_keeps a now) as (_ & _ & _ & _ & _ & ->).
Qed.

Lemma run_files steps w a w' a' :
  forallb step_stored steps = true -> agent_run (w, a) steps = (w', a') ->
  as_file_events (ag_store a') = as_file_events (ag_store a) ++ map file_event_row (assessed (w, a) steps).
Proof.
  revert w a. induction steps as [|step steps IH]; intros w a Hok Hrun; [cbn in *; simplify_eq; by rewrite app_nil_r|].
  cbn [forallb] in Hok. apply andb_true_iff in Hok as [Hok1 Hok]. unfold agent_run in Hrun. cbn [fold_left assessed snd] in *.
  destruct (agent_step (w, a) step) as [w1 a1] eqn:Hs. rewrite (IH w1 a1 Hok Hrun), (step_files _ _ _ _ _ Hs), Hok1.
  by rewrite map_app, app_assoc.
Qed.

Lemma assessed_app s before after : assessed s (before ++ after) = assessed s before ++ assessed (agent_run s before) after.
Proof.
  revert s. induction before as [|step before IH]; intros s; [done|]. cbn [app assessed]. by rewrite IH, app_assoc.
Qed.

Lemma run_collected_app s before after :
  run_collected s (before ++ after) -> run_collected s before /\ run_collected (agent_run s before) after.
Proof. revert s. induction before as [|step before IH]; intros s; [done|]. cbn. intros [Hc Hr]. apply IH in Hr as [? ?]. done. Qed.

Lemma run_later steps s : run_collected s steps -> later s.1 (agent_run s steps).1.
Proof.
  revert s. induction steps as [|step steps IH]; intros [w a] Hc; [done|]. destruct Hc as [Hc1 Hc].
  unfold agent_run. cbn [fold_left]. destruct (agent_step (w, a) step) as [w1 a1] eqn:Hs.
  etrans; [apply (proj1 (step_signals _ _ _ _ _ Hc1 Hs))|by apply (IH (w1, a1))].
Qed.

Lemma window_nonneg policy : 0 <= policy_window_secs policy.
Proof.
  unfold policy_window_secs. destruct (mw_enabled _); [|lia].
  assert (0 <= foldr Z.max 0 (map dw_window_secs (mw_windows (dc_multi_window (po_detection policy))))); [|lia].
  generalize (map dw_window_secs (mw_windows (dc_multi_window (po_detection policy)))) as l. intros l. induction l; cbn; lia.
Qed.

(** A blocking row of the interval makes its process a target. *)
Lemma blocking_row_target policy options rows row e :
  (row, e) ∈ judged policy options [] rows -> so_from_ms options <= fe_timestamp_ms (row_event row) ->
  block_candidate e (po_response policy) = true ->
  exists t, t ∈ ps_threshold_targets (replay rows policy options) /\ target_key t = row_key (row_event row).
Proof.
  intros Hin Hfrom Hb. destruct (replay_ok_run policy options rows) as [_ R2 _ _ _ _]. unfold replay.
  set (s := fold_left _ _ _) in *. cbn [replay_end ps_threshold_targets].
  assert ((row, e) ∈ of_key (row_key (row_event row)) (candidates policy options (judged policy options [] rows))) as Hk.
  { unfold of_key, candidates. rewrite !filter_elem. cbn. split_and!; [done| |done|by apply bool_decide_eq_true].
    unfold in_interval. cbn. apply negb_true_iff, Z.ltb_ge. done. }
  destruct (target_of (of_key (row_key (row_event row)) (candidates policy options (judged policy options [] rows)))) as [t|] eqn:Ht.
  - exists t. split; [|by eapply target_of_key]. apply values_by_key_elem. exists (row_key (row_event row)). by rewrite R2.
  - destruct (of_key _ _) as [|[r0 e0] l]; [by apply elem_of_nil in Hk|done].
Qed.

Lemma judged_member policy options k before e after :
  (mkFileEventRow (Z.of_nat (k + length before) + 1) e, (engine_evaluate (engine_run (po_detection policy) (so_sensor options) before) e).2)
  ∈ judged policy options [] (rows_after k (before ++ e :: after)).
Proof.
  unfold rows_after. rewrite imap_app. cbn [imap]. rewrite judged_app. apply elem_of_app. right.
  change (imap (fun i e => mkFileEventRow (Z.of_nat (k + i) + 1) e) before) with (rows_after k before). rewrite rows_after_events.
  cbn [judged app row_event]. rewrite Nat.add_0_r. apply list_elem_of_here.
Qed.


End Prediction.

Module Compared.
Import Simulated Scenario.
#[local] Existing Instance sample_std.
#[local] Existing Instance json.

Definition own : Policy := ap_policy Scenario.policy.
Definition options : SimulationOptions := mkSimulationOptions 1000 10000 100 Fanotify.
(** A database of a run before the clock was set back. *)
Definition st0 : AgentStore := mkAgentStore EventStore_new [file_event_row (event 20000)] [] [].
Definition restarted_agent : result Agent string := agent_start config (Ok Scenario.policy) (Ok st0) no_look.
Definition agent0 : Agent := default nobody (res_ok restarted_agent).
Definition final : SimWorld * Agent := agent_run (world, agent0) steps.
Definition empty_report : SimulationReport :=
  let r := mkPolicySimulation own 0 0 false 0 0 0 [] [] in
  mkSimulationReport Fanotify (mkSimulationCoverage 0 0 0 0 0 0 0 true None None 0) r r (mkSimulationDelta 0 0 [] [] [] [] [] []) [].
Definition report : SimulationReport := default empty_report (res_ok (simulate (ag_store (snd final)) own own options)).

Example report_ex :
  let r := sr_baseline report in
  (map target_key (ps_threshold_targets r), ps_would_block_pids r, sc_loaded_events (sr_coverage report))
  = ([(42, Some 100, Some the_boot)], [42], 1).
Proof. vm_compute. reflexivity. Qed.

Lemma assessed_ex : assessed (world, agent0) steps = [event 1000].
Proof. vm_compute. reflexivity. Qed.


End Compared.
