(* ===== verification/ExceptionAudit.v ===== *)
(** The audit of approved changes (crates/argos-policy/src/exception_audit.rs): the
    recorded events replayed once per rule to count what each exception covers, and the
    comparison with the policy without exceptions. *)
From Stdlib Require Import ZArith Lia.
From stdpp Require Import base gmap sets strings list pretty sorting.
From S2P Require Import Prelude F64 RustPath Common Kernel Entropy Scorer MultiWindow Engine PolicyTrust Outbox Agent Simulation.
#[local] Open Scope Z_scope.

#[local] Instance process_identity_eq_dec : EqDecision ProcessIdentity.
Proof. solve_decision. Defined.

(** * Options and reports *)

Definition AUDITED_RULES : list string :=
  [BEHAVIOR_RULE; INSTANCE_RULE; USER_RULE; PATH_RULE; ANCESTOR_RULE].
Definition DAY_MS : Z := 86400000.

Record ExceptionAuditOptions := mkExceptionAuditOptions {
  xo_simulation : SimulationOptions;
  xo_now_ms : Z;
  xo_expiring_within_ms : Z;
  xo_sample_limit : Z;
}.
Record ExceptionPathUsage := mkExceptionPathUsage { xp_path : string; xp_matched_events : Z }.
Record ExceptionRuleUsage := mkExceptionRuleUsage { xr_rule : string; xr_matched_events : Z; xr_warmup_matched_events : Z }.
Record ExceptionUsage := mkExceptionUsage {
  xu_definition : ApprovedChange;
  xu_time_status : string;
  xu_broad_scope_reasons : list string;
  xu_usage_status : string;
  xu_replay_matched_events : Z;
  xu_warmup_matched_events : Z;
  xu_first_matched_ms : option Z;
  xu_last_matched_ms : option Z;
  xu_rule_matches : list ExceptionRuleUsage;
  xu_paths : list ExceptionPathUsage;
  xu_path_samples_truncated : bool;
  xu_process_samples : list ProcessIdentity;
  xu_process_samples_truncated : bool;
  xu_evidence_event_ids : list Z;
  xu_evidence_samples_truncated : bool;
}.
Record ExceptionAuditReport := mkExceptionAuditReport {
  xa_basis : string;
  xa_now_ms : Z;
  xa_expiring_within_ms : Z;
  xa_sample_limit : Z;
  xa_missing_identity_events : Z;
  xa_missing_executable_events : Z;
  xa_matching_evidence_truncated : bool;
  xa_exceptions : list ExceptionUsage;
  xa_comparison : SimulationReport;
  xa_warnings : list string;
}.

Definition time_status (change : ApprovedChange) (options : ExceptionAuditOptions) : string :=
  if ac_valid_until_ms change <=? xo_now_ms options then "expired"
  else if xo_now_ms options <? ac_valid_from_ms change then "not_started"
  else if sat_sub (ac_valid_until_ms change) (xo_now_ms options) <=? xo_expiring_within_ms options then "expiring"
  else "active".

Definition is_normal (c : component) : bool := match c with Normal _ => true | _ => false end.
Definition broad_scope_reasons (change : ApprovedChange) : list string :=
  warn (existsb (fun path => zlen (List.filter is_normal (components path)) <=? 1) (ac_paths change))
    "루트 또는 최상위 디렉터리를 포함하는 경로 범위"
  ++ warn (DAY_MS <? sat_sub (ac_valid_until_ms change) (ac_valid_from_ms change)) "24시간을 초과하는 승인 기간"
  ++ warn (16 <? zlen (ac_paths change)) "16개를 초과하는 승인 경로".

Definition oversized_change (change : ApprovedChange) : bool :=
  (256 <? slen (ac_id change)) || (128 <? zlen (ac_paths change))
  || (zlen AUDITED_RULES <? zlen (ac_adjusted_rules change))
  || existsb (fun path => 4096 <? slen path) (ac_paths change)
  || (4096 <? slen (ac_exe change)).
Definition validate_audit_options (policy : Policy) (options : ExceptionAuditOptions) : result unit SimulationError :=
  let changes := dc_approved_changes (po_detection policy) in
  let? _ := guard (negb ((1 <=? so_max_events (xo_simulation options)) && (so_max_events (xo_simulation options) <=? 100000)))
              (InvalidOptions "예외 감사의 준비 구간 포함 이벤트 상한은 1~100,000건입니다") in
  let? _ := guard (negb ((1 <=? xo_sample_limit options) && (xo_sample_limit options <=? 100)))
              (InvalidOptions "예외 감사 대표 표본 상한은 1~100건입니다") in
  let? _ := guard ((i64_max <? xo_now_ms options) || (366 * DAY_MS <? xo_expiring_within_ms options))
              (InvalidOptions "감사 기준 시각은 i64::MAX 이하, 임박 범위는 366일 이하여야 합니다") in
  guard ((128 <? zlen changes) || existsb oversized_change changes)
    (InvalidOptions "예외 감사는 예외 128개, ID 256바이트, 예외당 경로 128개·규칙 5개, 경로 4096바이트까지 지원합니다").

(** * Policies derived from the one that is audited *)

Definition with_changes (config : DetectionConfig) (changes : list ApprovedChange) : DetectionConfig :=
  mkDetectionConfig (dc_window_secs config) (dc_mass_change_threshold config) (dc_min_changed_files config)
    (dc_entropy_threshold config) (dc_detect_score config) (dc_entropy_sample_bytes config) (dc_exclude_paths config)
    changes (dc_canary_paths config) (dc_multi_window config) (dc_content_sampling config).
Definition with_detection (policy : Policy) (config : DetectionConfig) : Policy :=
  {| po_version := po_version policy; po_policy_id := po_policy_id policy; po_key_id := po_key_id policy;
     po_issued_at_ms := po_issued_at_ms policy; po_not_before_ms := po_not_before_ms policy;
     po_expires_at_ms := po_expires_at_ms policy; po_target_hosts := po_target_hosts policy;
     po_target_groups := po_target_groups policy; po_rollback := po_rollback policy;
     po_detection := config; po_response := po_response policy |}.
Definition without_exceptions (policy : Policy) : Policy := with_detection policy (with_changes (po_detection policy) []).

(** One rule at a time: an exception without the rule still hides the later ones. *)
Definition retain_rule (rule : string) (change : ApprovedChange) : ApprovedChange :=
  mkApprovedChange (ac_id change) (ac_valid_from_ms change) (ac_valid_until_ms change) (ac_paths change) (ac_exe change)
    (ac_uid change) (List.filter (String.eqb rule) (ac_adjusted_rules change)).
Definition project_rule (config : DetectionConfig) (rule : string) : DetectionConfig :=
  with_changes config (map (retain_rule rule) (dc_approved_changes config)).

(** * The attribution of the rows *)

Definition new_usage (options : ExceptionAuditOptions) (change : ApprovedChange) : ExceptionUsage :=
  mkExceptionUsage change (time_status change options) (broad_scope_reasons change) "no_matches_in_loaded_range"
    0 0 None None (map (fun rule => mkExceptionRuleUsage rule 0 0) (btree_set (ac_adjusted_rules change)))
    [] false [] false [] false.
Definition with_rule_matches (u : ExceptionUsage) (rules : list ExceptionRuleUsage) : ExceptionUsage :=
  mkExceptionUsage (xu_definition u) (xu_time_status u) (xu_broad_scope_reasons u) (xu_usage_status u)
    (xu_replay_matched_events u) (xu_warmup_matched_events u) (xu_first_matched_ms u) (xu_last_matched_ms u) rules
    (xu_paths u) (xu_path_samples_truncated u) (xu_process_samples u) (xu_process_samples_truncated u)
    (xu_evidence_event_ids u) (xu_evidence_samples_truncated u).

(** [iter().enumerate().collect::<BTreeMap>]: the last index of an ID. *)
Definition indices (changes : list ApprovedChange) : gmap string nat :=
  fold_left (fun m (kv : string * nat) => <[kv.1 := kv.2]> m) (imap (fun i change => (ac_id change, i)) changes) ∅.

(** The first entry of the rule, counted; [None] when there is none. *)
Fixpoint count_rule (rule : string) (warmup : bool) (l : list ExceptionRuleUsage) : option (list ExceptionRuleUsage) :=
  match l with
  | [] => None
  | u :: l =>
      if String.eqb (xr_rule u) rule
      then Some (mkExceptionRuleUsage (xr_rule u) (xr_matched_events u + Z.b2z (negb warmup))
                   (xr_warmup_matched_events u + Z.b2z warmup) :: l)
      else cons u <$> count_rule rule warmup l
  end.

Record Audit := mkAudit {
  au_exceptions : list ExceptionUsage;
  (** The rows of each exception, ascending. *)
  au_rows : list (list Z);
  au_truncated : bool;
}.

Section Attribution.
Context `{RustStd}.

Definition count_match (rule : string) (warmup : bool) (index : nat) (i : Z) (a : Audit) : Audit :=
  match au_exceptions a !! index with
  | None => a
  | Some u =>
      match count_rule rule warmup (xu_rule_matches u) with
      | None => a
      | Some rules =>
          mkAudit (<[index := with_rule_matches u rules]> (au_exceptions a))
            (alter (fun rows => btree_set (i :: rows)) index (au_rows a)) (au_truncated a)
      end
  end.
Definition attribute_row (policy : Policy) (options : ExceptionAuditOptions) (rule : string)
    (s : DetectionEngine * Audit) (x : Z * FileEventRow) : DetectionEngine * Audit :=
  let event := row_event x.2 in
  let '(engine, e) := engine_evaluate s.1 (replayed (po_detection policy) event) in
  let a := mkAudit (au_exceptions s.2) (au_rows s.2) (au_truncated s.2 || ev_evidence_truncated e) in
  (engine,
   if negb (String.eqb rule BEHAVIOR_RULE) && negb (recorded_action (fe_action event)) then a
   else match ev_approved_change_id e with
        | None => a
        | Some id =>
            match indices (dc_approved_changes (po_detection policy)) !! id with
            | None => a
            | Some index => count_match rule (fe_timestamp_ms event <? so_from_ms (xo_simulation options)) index x.1 a
            end
        end).
Definition indexed_rows (rows : list FileEventRow) : list (Z * FileEventRow) := imap (fun i row => (Z.of_nat i, row)) rows.
Definition rule_used (policy : Policy) (rule : string) : bool :=
  existsb (fun change => str_mem rule (ac_adjusted_rules change)) (dc_approved_changes (po_detection policy)).
Definition attribute_rule (policy : Policy) (options : ExceptionAuditOptions) (rows : list FileEventRow)
    (a : Audit) (rule : string) : Audit :=
  if rule_used policy rule
  then (fold_left (attribute_row policy options rule) (indexed_rows rows)
          (engine_with_sensor (project_rule (po_detection policy) rule) (so_sensor (xo_simulation options)), a)).2
  else a.
Definition audit_start (policy : Policy) (options : ExceptionAuditOptions) : Audit :=
  mkAudit (map (new_usage options) (dc_approved_changes (po_detection policy)))
    (map (fun _ => []) (dc_approved_changes (po_detection policy))) false.
Definition attribute_all (policy : Policy) (options : ExceptionAuditOptions) (rows : list FileEventRow) : Audit :=
  fold_left (attribute_rule policy options rows) AUDITED_RULES (audit_start policy options).

(** * The summary of an exception *)

Fixpoint count_path (path : string) (l : list ExceptionPathUsage) : option (list ExceptionPathUsage) :=
  match l with
  | [] => None
  | u :: l =>
      if String.eqb (xp_path u) path then Some (mkExceptionPathUsage (xp_path u) (xp_matched_events u + 1) :: l)
      else cons u <$> count_path path l
  end.
(** The list of samples with one more, or the sign that there is no room. *)
Definition sample {A} (limit : Z) (x : A) (l : list A) (truncated : bool) : list A * bool :=
  if zlen l <? limit then (l ++ [x], truncated) else (l, true).
Definition event_process (event : FileEvent) : option ProcessIdentity :=
  (fun c => mkProcessIdentity (fe_pid event) (fp_start_time_ticks c) (fp_boot_id c)) <$> fe_process event.
Definition sample_path (limit : Z) (path : string) (l : list ExceptionPathUsage) (truncated : bool) : list ExceptionPathUsage * bool :=
  match count_path path l with
  | Some l => (l, truncated)
  | None => sample limit (mkExceptionPathUsage path 1) l truncated
  end.
Definition sample_process (limit : Z) (process : option ProcessIdentity) (l : list ProcessIdentity) (truncated : bool)
    : list ProcessIdentity * bool :=
  match process with
  | None => (l, truncated)
  | Some p => if bool_decide (p ∈ l) then (l, truncated) else sample limit p l truncated
  end.

Definition summarize_row (options : ExceptionAuditOptions) (u : ExceptionUsage) (row : FileEventRow) : ExceptionUsage :=
  let event := row_event row in
  let limit := xo_sample_limit options in
  if fe_timestamp_ms event <? so_from_ms (xo_simulation options) then
    mkExceptionUsage (xu_definition u) (xu_time_status u) (xu_broad_scope_reasons u) (xu_usage_status u)
      (xu_replay_matched_events u) (xu_warmup_matched_events u + 1) (xu_first_matched_ms u) (xu_last_matched_ms u)
      (xu_rule_matches u) (xu_paths u) (xu_path_samples_truncated u) (xu_process_samples u)
      (xu_process_samples_truncated u) (xu_evidence_event_ids u) (xu_evidence_samples_truncated u)
  else
    let '(ids, ids_truncated) := sample limit (row_id row) (xu_evidence_event_ids u) (xu_evidence_samples_truncated u) in
    let '(paths, paths_truncated) := sample_path limit (fe_path event) (xu_paths u) (xu_path_samples_truncated u) in
    let '(processes, processes_truncated) :=
      sample_process limit (event_process event) (xu_process_samples u) (xu_process_samples_truncated u) in
    mkExceptionUsage (xu_definition u) (xu_time_status u) (xu_broad_scope_reasons u) (xu_usage_status u)
      (xu_replay_matched_events u + 1) (xu_warmup_matched_events u)
      (Some (default (fe_timestamp_ms event) (xu_first_matched_ms u))) (Some (fe_timestamp_ms event))
      (xu_rule_matches u) paths paths_truncated processes processes_truncated ids ids_truncated.
Definition finish_usage (u : ExceptionUsage) : ExceptionUsage :=
  if 0 <? xu_replay_matched_events u then
    mkExceptionUsage (xu_definition u) (xu_time_status u) (xu_broad_scope_reasons u) "matched_in_loaded_range"
      (xu_replay_matched_events u) (xu_warmup_matched_events u) (xu_first_matched_ms u) (xu_last_matched_ms u)
      (xu_rule_matches u) (xu_paths u) (xu_path_samples_truncated u) (xu_process_samples u)
      (xu_process_samples_truncated u) (xu_evidence_event_ids u) (xu_evidence_samples_truncated u)
  else u.
Definition rows_at (rows : list FileEventRow) (l : list Z) : list FileEventRow := omap (fun i => rows !! Z.to_nat i) l.
Definition summarize (options : ExceptionAuditOptions) (rows : list FileEventRow) (u : ExceptionUsage) (l : list Z) : ExceptionUsage :=
  finish_usage (fold_left (summarize_row options) (rows_at rows l) u).

Definition missing_identity (event : FileEvent) : bool :=
  (fe_pid event =? 0)
  || match fe_process event with
     | None => true
     | Some c => (fp_start_time_ticks c =? 0) || trim_is_empty (fp_boot_id c)
     end.
Definition missing_executable (event : FileEvent) : bool :=
  match fe_process event with None => true | Some c => trim_is_empty (fp_exe c) end.

Definition AUDIT_WARNINGS : list string :=
  ["현재 입력 정책을 저장 이벤트에 재생한 예외 매칭 가능 기여수입니다. 배포 당시 실제 예외 적용·차단 감사 기록이 아닙니다.";
   "comparison.baseline은 입력 정책, candidate는 모든 승인 예외를 제거한 정책입니다. 알림·임계치·차단 차이는 재생 예상이며 실제 차단 수가 아닙니다.";
   "겹치는 승인 작업은 정책 배열의 첫 매칭이 우선합니다. 규칙 매칭 수는 점수 감소량이나 차단 방지 건수와 같지 않으며, 미끼 파일 신호는 예외 제거와 독립적으로 유지됩니다.";
   "no_matches_in_loaded_range는 조회된 평가 구간에서 매칭이 없다는 뜻입니다. 준비 구간만의 사용·조회 잘림·센서 누락·불완전 신원·다른 배포 정책 때문에 미사용을 확정할 수 없습니다.";
   "broad_scope_reasons는 경로 깊이·기간·경로 수의 검토용 휴리스틱입니다. 업무 필요성·악성 여부를 판정하거나 예외를 자동 삭제하지 않습니다."].

Definition evaluated_rows (options : ExceptionAuditOptions) (rows : list FileEventRow) : list FileEventRow :=
  List.filter (fun row => so_from_ms (xo_simulation options) <=? fe_timestamp_ms (row_event row)) rows.
Definition audit_exceptions (store : AgentStore) (policy : Policy) (options : ExceptionAuditOptions)
    : result ExceptionAuditReport SimulationError :=
  let? _ := validate_audit_options policy options in
  let? range := load_simulation_range store policy (without_exceptions policy) (xo_simulation options) in
  let? comparison := simulate_range range policy (without_exceptions policy) (xo_simulation options) in
  let rows := fer_events range in
  let a := attribute_all policy options rows in
  let exceptions := zip_with (summarize options rows) (au_exceptions a) (au_rows a) in
  let evaluated := evaluated_rows options rows in
  let identity := zlen (List.filter (fun row => missing_identity (row_event row)) evaluated) in
  let executable := zlen (List.filter (fun row => missing_executable (row_event row)) evaluated) in
  let warnings :=
    AUDIT_WARNINGS
    ++ warn (sc_truncated (sr_coverage comparison) || au_truncated a)
         "조회 또는 재생 근거 상한 때문에 예외 매칭 집계가 불완전할 수 있습니다. 예외의 안전성이나 미사용 여부를 이 결과만으로 단정하지 마세요."
    ++ warn ((0 <? identity) || (0 <? executable))
         ("평가 구간에 시작 신원 미확인 " +:+ pretty identity +:+ "건, 실행 파일 미확인 " +:+ pretty executable
          +:+ "건이 있어 해당 이벤트의 예외 매칭을 확인할 수 없습니다.") in
  Ok (mkExceptionAuditReport "stored_event_replay_with_supplied_policy" (xo_now_ms options)
        (xo_expiring_within_ms options) (xo_sample_limit options) identity executable (au_truncated a) exceptions
        comparison warnings).

End Attribution.

(** * What the engine attributes, without its history *)

Section Covered.
Context `{RustStd}.

(** Whether a rule takes an event into account at all. *)
Definition rule_applies (config : DetectionConfig) (rule : string) (event : FileEvent) : bool :=
  String.eqb rule BEHAVIOR_RULE
  || (mw_enabled (dc_multi_window config)
      && negb ((mw_max_path_bytes (dc_multi_window config) <? slen (fe_path event)) || negb (absolute_clean_path (fe_path event)))
      && existsb (fun g => String.eqb (group_rule g) rule) (group_keys config event)).
(** The exception that hides an event from a rule: the first that covers the event, if it adjusts the rule. *)
Definition rule_approval (config : DetectionConfig) (rule : string) (event : FileEvent) : option ApprovedChange :=
  if is_excluded config (fe_path event) || negb (rule_applies config rule event) then None
  else opt_filter (fun change => str_mem rule (ac_adjusted_rules change)) (find_approval config event).

Lemma str_mem_retain rule rule' l : str_mem rule' (List.filter (String.eqb rule) l) = String.eqb rule rule' && str_mem rule' l.
Proof.
  apply eq_true_iff_eq. rewrite andb_true_iff, !str_mem_spec, filter_elem, String.eqb_eq. naive_solver.
Qed.

Lemma find_over_map {A B} (p : B -> bool) (q : A -> bool) (f : A -> B) (l : list A) :
  (forall a, p (f a) = q a) -> List.find p (map f l) = f <$> List.find q l.
Proof. intros Hp. induction l as [|a l IH]; [done|]. cbn. rewrite Hp. by destruct (q a). Qed.

Lemma find_approval_project config rule event :
  find_approval (project_rule config rule) event = retain_rule rule <$> find_approval config event.
Proof. unfold find_approval. cbn. by apply find_over_map. Qed.

Lemma group_rule_not_behavior g : group_rule g <> BEHAVIOR_RULE.
Proof. by destruct g. Qed.

Lemma fold_keeps_applied config sensor now truncated keys x :
  mo_approval_applied (fold_left (score_group config sensor now truncated) keys x).2 = mo_approval_applied x.2.
Proof. apply score_groups_flags. Qed.

Lemma filter_len_lt {A} (p : A -> bool) (l : list A) : (zlen (List.filter (fun x => negb (p x)) l) <? zlen l) = existsb p l.
Proof.
  induction l as [|x l IH]; [done|]. cbn [List.filter existsb]. pose proof (zlen_filter_le (fun x => negb (p x)) l).
  destruct (p x); cbn [negb orb]; rewrite !zlen_cons; [apply Z.ltb_lt; lia|].
  rewrite <- IH. apply eq_true_iff_eq. rewrite !Z.ltb_lt. lia.
Qed.

Lemma multi_applied (s : MultiWindowScorer) event rules :
  ms_watermark s <= fe_timestamp_ms event ->
  mo_approval_applied (multi_evaluate s event rules).2
  = mw_enabled (dc_multi_window (ms_config s))
    && negb ((mw_max_path_bytes (dc_multi_window (ms_config s)) <? slen (fe_path event)) || negb (absolute_clean_path (fe_path event)))
    && existsb (fun g => str_mem (group_rule g) rules) (group_keys (ms_config s) event).
Proof.
  intros Hw. destruct (mw_enabled (dc_multi_window (ms_config s))) eqn:Hen; [|unfold multi_evaluate; by rewrite Hen].
  assert (Z.max (ms_watermark s) (fe_timestamp_ms event) = fe_timestamp_ms event) as Hmax by lia.
  assert (inadmissible (ms_config s) event (fe_timestamp_ms event)
    = (mw_max_path_bytes (dc_multi_window (ms_config s)) <? slen (fe_path event)) || negb (absolute_clean_path (fe_path event))) as Hin
    by (unfold inadmissible; by rewrite Z.ltb_irrefl). rewrite <- Hin. cbn [andb].
  destruct (inadmissible (ms_config s) event (fe_timestamp_ms event)) eqn:Hbad; cbn [negb andb].
  - unfold multi_evaluate. rewrite Hen, Hmax. cbn [negb]. by rewrite (proj1 (advance_fields s _)), Hbad.
  - rewrite multi_evaluate_eq by by rewrite ?Hmax. cbn [snd]. rewrite fold_keeps_applied. cbn [snd mo_approval_applied].
    apply (filter_len_lt (fun g => str_mem (group_rule g) rules)).
Qed.

(** The clock of the log stays behind the events it has seen. *)
Lemma multi_watermark config sensor h t :
  0 <= t -> Forall (fun x => fe_timestamp_ms x.1 <= t) h -> ms_watermark (multi_run config sensor h).1 <= t.
Proof.
  intros Ht. induction h as [|x h IH] using rev_ind; [done|]. intros [Hh Hx]%Forall_app. inversion Hx; subst.
  rewrite multi_run_snoc. unfold multi_step. cbn [fst].
  pose proof (proj2 (proj2 (multi_evaluate_fields (multi_run config sensor h).1 x.1 x.2))). specialize (IH Hh). cbv zeta in *. lia.
Qed.

Lemma canary_keeps_approval config emitted event a :
  ev_approved_change_id (canary_step config emitted event a).2 = ev_approved_change_id a.
Proof.
  destruct (canary_tamper config event) eqn:Hc; [by apply canary_step_tampered|by rewrite canary_step_untampered].
Qed.

(** After any history of earlier events, the evaluation under one rule names the
    exception that hides the event from that rule. *)
Lemma engine_attribution config rule sensor h event :
  0 <= fe_timestamp_ms event -> Forall (fun e => fe_timestamp_ms e <= fe_timestamp_ms event) h ->
  ev_approved_change_id (engine_evaluate (engine_run (project_rule config rule) sensor h) event).2
  = ac_id <$> rule_approval config rule event.
Proof.
  intros Ht Hh. set (projected := project_rule config rule).
  destruct (engine_run_parts projected sensor h) as (E1 & _ & E3 & _). set (s := engine_run projected sensor h) in *.
  rewrite engine_evaluate_split. cbn [snd]. rewrite canary_keeps_approval. unfold base_assessment. rewrite E1, E3. unfold rule_approval.
  change (is_excluded projected (fe_path event)) with (is_excluded config (fe_path event)).
  destruct (is_excluded config (fe_path event)); [done|]. cbn [orb].
  assert (find_approval projected event = retain_rule rule <$> find_approval config event) as -> by apply find_approval_project.
  set (scored := evaluate_with_approval _ _ _). set (multi := (multi_evaluate _ _ _).2).
  assert (ev_approved_change_id scored.2 = legacy_approval (retain_rule rule <$> find_approval config event)) as Hlegacy
    by apply evaluate_frame.
  assert (mo_approval_applied multi
    = mw_enabled (dc_multi_window config)
      && negb ((mw_max_path_bytes (dc_multi_window config) <? slen (fe_path event)) || negb (absolute_clean_path (fe_path event)))
      && existsb (fun g => str_mem (group_rule g) (approval_rules (retain_rule rule <$> find_approval config event))) (group_keys config event)) as Happ.
  { unfold multi. rewrite multi_applied.
    - destruct (engine_configs projected sensor h) as (_ & _ & E). fold s in E. rewrite E3 in E. by rewrite E.
    - apply multi_watermark; [done|]. unfold multi_inputs. rewrite Forall_map. cbn. rewrite Forall_forall in Hh |- *.
      intros e [Hin _]%filter_elem. by apply Hh. }
  assert (ev_approved_change_id (combine (retain_rule rule <$> find_approval config event) scored.2 multi)
    = if mo_approval_applied multi then ac_id <$> (retain_rule rule <$> find_approval config event)
      else legacy_approval (retain_rule rule <$> find_approval config event)) as ->
    by (rewrite <- Hlegacy; unfold combine; by destruct (mo_instance_score multi)).
  rewrite Happ. clear Happ Hlegacy. unfold legacy_approval, approval_rules.
  destruct (find_approval config event) as [change|]; cbn -[str_mem BEHAVIOR_RULE existsb].
  2:{ destruct (mw_enabled _ && _ && _), (rule_applies config rule event); done. }
  rewrite str_mem_retain.
  assert (existsb (fun g => str_mem (group_rule g) (List.filter (String.eqb rule) (ac_adjusted_rules change))) (group_keys config event)
    = str_mem rule (ac_adjusted_rules change) && existsb (fun g => String.eqb (group_rule g) rule) (group_keys config event)) as ->.
  { induction (group_keys config event) as [|g l IH]; cbn -[str_mem]; [by rewrite andb_false_r|]. rewrite IH, str_mem_retain, (String.eqb_sym rule).
    destruct (String.eqb_spec (group_rule g) rule) as [<-|]; cbn; [|done]. by destruct (str_mem _ _). }
  unfold rule_applies. destruct (String.eqb_spec rule BEHAVIOR_RULE) as [->|Hne]; cbn -[str_mem BEHAVIOR_RULE].
  - destruct (str_mem BEHAVIOR_RULE (ac_adjusted_rules change)); rewrite ?andb_false_r; [by destruct (_ && _)|done].
  - destruct (str_mem rule (ac_adjusted_rules change)); rewrite ?andb_false_r; [|by destruct (negb _)].
    by destruct (_ && _).
Qed.

End Covered.

(** * The counts of one exception *)

Lemma dedup_sort_strict (l : list Z) : StronglySorted Z.lt (btree_set l).
Proof.
  unfold btree_set. pose proof (sort_sorted l) as Hs. pose proof (dedup_sort_nodup l) as Hn.
  assert (StronglySorted cmp_le (dedup (sort l))) as H.
  { apply Sorted_StronglySorted in Hs; [|intros x y z; apply cmp_le_trans]. clear Hn.
    induction Hs as [|x k Hs IH Hx]; [constructor|]. destruct k as [|y k]; [by repeat constructor|].
    assert (Forall (cmp_le x) (dedup (y :: k))) as Hd.
    { rewrite Forall_forall in Hx |- *. intros z. rewrite dedup_elem. apply Hx. }
    change (dedup (x :: y :: k)) with (match cmp x y with Eq => dedup (y :: k) | _ => x :: dedup (y :: k) end).
    destruct (cmp x y); [done|by constructor..]. }
  clear Hs. induction H as [|x k Hs IH Hx]; [constructor|]. apply NoDup_cons in Hn as [Hn Hn']. constructor; [by apply IH|].
  rewrite Forall_forall in Hx |- *. intros z Hz. specialize (Hx z Hz). unfold cmp_le, cmp, ord_Z in Hx.
  destruct (Z.compare_spec x z); [by subst|done|done].
Qed.

Lemma strict_unique (l k : list Z) :
  StronglySorted Z.lt l -> StronglySorted Z.lt k -> (forall i, i ∈ l <-> i ∈ k) -> l = k.
Proof.
  intros Hl. revert k. induction Hl as [|x l Hl IH Hx]; intros k Hk Heq.
  - destruct k as [|y k]; [done|]. exfalso. eapply (not_elem_of_nil y). apply Heq. set_solver.
  - destruct Hk as [|y k Hk Hy]; [exfalso; eapply (not_elem_of_nil x); apply Heq; set_solver|].
    rewrite Forall_forall in Hx, Hy. assert (x = y) as <-.
    { pose proof (proj1 (Heq x) ltac:(set_solver)) as H1. pose proof (proj2 (Heq y) ltac:(set_solver)) as H2.
      apply elem_of_cons in H1 as [?|H1], H2 as [?|H2]; try done. specialize (Hx y H2). specialize (Hy x H1). lia. }
    f_equal. apply IH; [done|]. intros i. specialize (Heq i). rewrite !elem_of_cons in Heq. split; intros Hi.
    + destruct Heq as [Heq _]. destruct (Heq (or_intror Hi)) as [->|]; [specialize (Hx x Hi); lia|done].
    + destruct Heq as [_ Heq]. destruct (Heq (or_intror Hi)) as [->|]; [specialize (Hy x Hi); lia|done].
Qed.

Definition rule_usage (count : string -> Z * Z) (rule : string) : ExceptionRuleUsage :=
  mkExceptionRuleUsage rule (count rule).1 (count rule).2.
Definition bump (count : string -> Z * Z) (rule : string) (x : Z * Z) : string -> Z * Z :=
  fun r => if String.eqb r rule then ((count r).1 + x.1, (count r).2 + x.2) else count r.

Lemma count_rule_map rule warmup count names :
  NoDup names ->
  count_rule rule warmup (map (rule_usage count) names)
  = if str_mem rule names then Some (map (rule_usage (bump count rule (Z.b2z (negb warmup), Z.b2z warmup))) names) else None.
Proof.
  induction 1 as [|x names Hx Hn IH]; [done|].
  change (str_mem rule (x :: names)) with (String.eqb rule x || str_mem rule names). cbn [map count_rule].
  change (xr_rule (rule_usage count x)) with x. rewrite (String.eqb_sym rule x).
  destruct (String.eqb_spec x rule) as [->|Hne]; cbn [orb].
  - f_equal. f_equal; [unfold rule_usage, bump; cbn [xr_rule xr_matched_events xr_warmup_matched_events]; by rewrite String.eqb_refl|].
    apply map_ext_in. intros r Hr%list_elem_of_In. unfold rule_usage, bump. destruct (String.eqb_spec r rule) as [->|]; done.
  - rewrite IH. destruct (str_mem rule names); [|done]. cbn. f_equal. f_equal. unfold rule_usage, bump.
    by rewrite (proj2 (String.eqb_neq x rule)).
Qed.

Lemma indices_lookup changes k c :
  NoDup (map ac_id changes) -> c ∈ changes -> indices changes !! ac_id c = Some k <-> changes !! k = Some c.
Proof.
  intros Hn Hc. assert (forall (l : list (string * nat)) (m : gmap string nat) id, NoDup (map fst l) ->
    fold_left (fun m (kv : string * nat) => <[kv.1 := kv.2]> m) l m !! id
    = match list_find (fun kv : string * nat => kv.1 = id) l with Some (_, kv) => Some kv.2 | None => m !! id end) as Hfold.
  { induction l as [|[a i] l IH]; intros m id Hl; [done|]. cbn [map] in Hl. apply NoDup_cons in Hl as [Ha Hl]. cbn [fold_left list_find].
    rewrite IH by done. cbn [fst snd]. destruct (decide (a = id)) as [->|Hne].
    - destruct (list_find _ l) as [[j [b x]]|] eqn:Hf; [|cbn; by rewrite lookup_insert_eq].
      apply list_find_Some in Hf as (Hl' & <- & _). contradict Ha. apply list_elem_of_lookup_2 in Hl'.
      apply list_elem_of_fmap. by exists (b, x).
    - cbn. destruct (list_find _ l) as [[j [b x]]|] eqn:Hf; cbn; [done|by rewrite lookup_insert_ne]. }
  unfold indices. rewrite Hfold.
  2:{ change (NoDup (fst <$> imap (fun i change => (ac_id change, i)) changes)). rewrite fmap_imap.
      rewrite (imap_ext _ (const ac_id)) by done. by rewrite imap_const. }
  rewrite lookup_empty. destruct (list_find _ _) as [[j [b x]]|] eqn:Hf.
  - apply list_find_Some in Hf as (Hj & Hb & _). cbn in Hb. subst b. rewrite list_lookup_imap in Hj.
    destruct (changes !! j) as [c'|] eqn:Hc'; [|done]. cbn in Hj. injection Hj as Hid <-. cbn.
    apply list_elem_of_lookup_1 in Hc as [i Hi].
    assert (i = j) as -> by (eapply (NoDup_lookup (map ac_id changes)); [done|change (map ac_id changes) with (ac_id <$> changes);
      rewrite list_lookup_fmap, Hi; done|change (map ac_id changes) with (ac_id <$> changes); rewrite list_lookup_fmap, Hc'; cbn; by rewrite Hid]).
    split; [intros [= <-]; done|]. intros Hk. f_equal.
    eapply (NoDup_lookup (map ac_id changes)); [done|change (map ac_id changes) with (ac_id <$> changes); by rewrite list_lookup_fmap, Hi|].
    change (map ac_id changes) with (ac_id <$> changes). by rewrite list_lookup_fmap, Hk.
  - apply list_find_None in Hf. exfalso. apply list_elem_of_lookup_1 in Hc as [i Hi]. rewrite Forall_forall in Hf.
    eapply (Hf (ac_id c, i)); [|done]. apply elem_of_lookup_imap. by exists i, c.
Qed.

Section OneException.
Context `{RustStd} (policy : Policy) (options : ExceptionAuditOptions) (k : nat) (change : ApprovedChange).
#[local] Abbreviation changes := (dc_approved_changes (po_detection policy)).
#[local] Abbreviation in_warmup row := (fe_timestamp_ms (row_event row) <? so_from_ms (xo_simulation options)).
Hypothesis Hids : NoDup (map ac_id changes).
Hypothesis Hchange : changes !! k = Some change.

(** The row counts for this exception under the rule. *)
Definition hit (rule : string) (row : FileEventRow) : bool :=
  (String.eqb rule BEHAVIOR_RULE || recorded_action (fe_action (row_event row)))
  && is_some_and (rule_approval (po_detection policy) rule (row_event row)) (fun c => String.eqb (ac_id c) (ac_id change)).
Definition hit_any (row : FileEventRow) : bool := existsb (fun rule => hit rule row) AUDITED_RULES.
Definition tally (rule : string) (rows : list FileEventRow) : Z * Z :=
  (zlen (List.filter (fun row => hit rule row && negb (in_warmup row)) rows),
   zlen (List.filter (fun row => hit rule row && in_warmup row) rows)).

Definition usage_with (count : string -> Z * Z) : ExceptionUsage :=
  with_rule_matches (new_usage options change) (map (rule_usage count) (btree_set (ac_adjusted_rules change))).
Record entry_ok (count : string -> Z * Z) (member : Z -> Prop) (a : Audit) : Prop := {
  eo_usage : au_exceptions a !! k = Some (usage_with count);
  eo_rows : exists l, au_rows a !! k = Some l /\ StronglySorted Z.lt l /\ forall i, i ∈ l <-> member i;
}.

Lemma entry_ok_ext count count' member member' a :
  (forall r, count r = count' r) -> (forall i, member i <-> member' i) -> entry_ok count member a -> entry_ok count' member' a.
Proof.
  intros Hc Hm [E (l & Hl & Hs & Hi)]. split.
  - rewrite E. unfold usage_with. do 2 f_equal. apply map_ext. intros r. unfold rule_usage. by rewrite Hc.
  - exists l. split_and!; [done..|]. intros i. by rewrite Hi.
Qed.

Lemma tally_snoc rule rows row :
  tally rule (rows ++ [row])
  = ((tally rule rows).1 + Z.b2z (hit rule row && negb (in_warmup row)), (tally rule rows).2 + Z.b2z (hit rule row && in_warmup row)).
Proof.
  unfold tally. rewrite !filter_snoc, !zlen_app. cbn [fst snd]. f_equal; f_equal.
  - by destruct (hit rule row && negb (in_warmup row)).
  - by destruct (hit rule row && in_warmup row).
Qed.

Lemma with_rule_matches_twice u l l' : with_rule_matches (with_rule_matches u l) l' = with_rule_matches u l'.
Proof. done. Qed.

Lemma approval_in config rule event c :
  rule_approval config rule event = Some c -> c ∈ dc_approved_changes config /\ rule ∈ ac_adjusted_rules c.
Proof.
  unfold rule_approval. destruct (_ || _); [done|]. destruct (find_approval config event) as [c'|] eqn:Hf; [|done]. cbn -[str_mem].
  destruct (str_mem rule (ac_adjusted_rules c')) eqn:Hr; [|done]. intros [= <-]. split; [by eapply find_approval_Some|by apply str_mem_spec].
Qed.

Lemma count_match_other rule warmup index i a count member :
  index <> k -> entry_ok count member a -> entry_ok count member (count_match rule warmup index i a).
Proof.
  intros Hne [E (l & Hl & Hs & Hi)]. unfold count_match. destruct (au_exceptions a !! index) as [u|]; [|by split; [|exists l]].
  destruct (count_rule _ _ _) as [rules|]; [|by split; [|exists l]]. split; cbn.
  - by rewrite list_lookup_insert_ne.
  - exists l. split_and!; try done. by rewrite list_lookup_alter_ne.
Qed.

Lemma count_match_own rule warmup i a count member :
  rule ∈ ac_adjusted_rules change -> entry_ok count member a ->
  entry_ok (bump count rule (Z.b2z (negb warmup), Z.b2z warmup)) (fun j => j = i \/ member j) (count_match rule warmup k i a).
Proof.
  intros Hr [E (l & Hl & Hs & Hi)]. unfold count_match. rewrite E. cbn [usage_with with_rule_matches xu_rule_matches].
  rewrite count_rule_map by apply dedup_sort_nodup.
  assert (str_mem rule (btree_set (ac_adjusted_rules change)) = true) as ->
    by (apply str_mem_spec; unfold btree_set; by rewrite dedup_sort_elem).
  split; cbn [au_exceptions au_rows].
  - rewrite list_lookup_insert_eq by (by eapply lookup_lt_Some). done.
  - exists (btree_set (i :: l)). rewrite list_lookup_alter_eq, Hl. split_and!; [done|apply dedup_sort_strict|].
    intros j. unfold btree_set. by rewrite dedup_sort_elem, elem_of_cons, Hi.
Qed.

Definition row_hit (rule : string) (rows : list FileEventRow) (i : Z) : Prop :=
  0 <= i /\ exists row, rows !! Z.to_nat i = Some row /\ hit rule row = true.

Lemma row_hit_snoc rule rows row i :
  row_hit rule (rows ++ [row]) i <-> row_hit rule rows i \/ (i = zlen rows /\ hit rule row = true).
Proof.
  unfold row_hit, zlen. split.
  - intros (Hi & r & Hr & Hh). apply lookup_snoc_Some in Hr as [[Hlt Hr]|[He <-]]; [left; split; [done|by exists r]|right; split; [lia|done]].
  - intros [(Hi & r & Hr & Hh)|[-> Hh]]; split; [done| |lia|].
    + exists r. split; [|done]. by apply lookup_app_l_Some.
    + exists row. split; [|done]. rewrite Nat2Z.id, lookup_app_r, Nat.sub_diag by lia. done.
Qed.

Definition in_order (rows : list FileEventRow) : Prop :=
  StronglySorted (fun a b => fe_timestamp_ms (row_event a) <= fe_timestamp_ms (row_event b)) rows
  /\ Forall (fun row => 0 <= fe_timestamp_ms (row_event row)) rows.
Lemma in_order_snoc rows row :
  in_order (rows ++ [row]) ->
  in_order rows /\ 0 <= fe_timestamp_ms (row_event row)
  /\ Forall (fun e => fe_timestamp_ms e <= fe_timestamp_ms (row_event row)) (map row_event rows).
Proof.
  intros [Hs Hp]. apply Forall_app in Hp as [Hp Hr]. inversion Hr; subst. split_and!; [split; [|done]|done|].
  - clear -Hs. induction rows as [|r rows IH]; [constructor|]. cbn in Hs. inversion Hs as [|? ? Hs' Hf]; subst.
    constructor; [by apply IH|]. by apply Forall_app in Hf as [? _].
  - rewrite Forall_map. clear -Hs. induction rows as [|r rows IH]; [constructor|]. cbn in Hs. inversion Hs as [|? ? Hs' Hf]; subst.
    constructor; [|by apply IH]. apply Forall_app in Hf as [_ Hf]. by inversion Hf.
Qed.

(** One rule over the rows. *)
Lemma attribute_rows_ok rule rows a count member :
  in_order rows -> entry_ok count member a ->
  let s := fold_left (attribute_row policy options rule) (indexed_rows rows)
             (engine_with_sensor (project_rule (po_detection policy) rule) (so_sensor (xo_simulation options)), a) in
  s.1 = engine_run (project_rule (po_detection policy) rule) (so_sensor (xo_simulation options)) (map row_event rows)
  /\ entry_ok (bump count rule (tally rule rows)) (fun i => member i \/ row_hit rule rows i) s.2.
Proof.
  intros Ho Ha. revert Ho. induction rows as [|row rows IH] using rev_ind; intros Ho.
  { split; [done|]. revert Ha. apply entry_ok_ext.
    - intros r. unfold bump. cbn. destruct (count r). cbn. by destruct (String.eqb r rule); rewrite ?Z.add_0_r.
    - intros i. unfold row_hit. rewrite lookup_nil. naive_solver. }
  apply in_order_snoc in Ho as (Ho & Ht & Hearlier). specialize (IH Ho). destruct IH as [E IH].
  unfold indexed_rows. rewrite imap_app. cbn [imap]. rewrite fold_left_app. cbn [fold_left].
  change (imap (fun i row => (Z.of_nat i, row)) rows) with (indexed_rows rows). set (s := fold_left _ (indexed_rows rows) _) in *.
  unfold attribute_row. cbn [fst snd]. rewrite E.
  change (replayed (po_detection policy) (row_event row)) with (replayed (project_rule (po_detection policy) rule) (row_event row)).
  rewrite engine_replayed.
  pose proof (engine_attribution (po_detection policy) rule (so_sensor (xo_simulation options)) _ _ Ht Hearlier) as Hid.
  pose proof (engine_run_snoc (project_rule (po_detection policy) rule) (so_sensor (xo_simulation options)) (map row_event rows) (row_event row)) as Hnext.
  destruct (engine_evaluate _ (row_event row)) as [engine e]. cbn [fst snd] in *.
  split; [rewrite map_app; cbn [map]; by rewrite Hnext|]. rewrite Nat.add_0_r.
  assert (entry_ok (bump count rule (tally rule rows)) (fun i => member i \/ row_hit rule rows i)
            (mkAudit (au_exceptions s.2) (au_rows s.2) (au_truncated s.2 || ev_evidence_truncated e))) as IH'
    by (destruct IH; by split).
  assert (hit rule row = false -> entry_ok (bump count rule (tally rule (rows ++ [row]))) (fun i => member i \/ row_hit rule (rows ++ [row]) i)
            (mkAudit (au_exceptions s.2) (au_rows s.2) (au_truncated s.2 || ev_evidence_truncated e))) as Hmiss.
  { intros Hf. revert IH'. apply entry_ok_ext.
    - intros r. unfold bump. rewrite tally_snoc, Hf. cbn [andb Z.b2z fst snd]. by rewrite !Z.add_0_r.
    - intros i. rewrite row_hit_snoc, Hf. naive_solver. }
  rewrite Hid, <- negb_orb.
  assert (hit rule row = (String.eqb rule BEHAVIOR_RULE || recorded_action (fe_action (row_event row)))
    && is_some_and (rule_approval (po_detection policy) rule (row_event row)) (fun c => String.eqb (ac_id c) (ac_id change))) as Hdef by done.
  destruct (_ || recorded_action _); cbn [negb]; [|by apply Hmiss]. cbn [andb] in Hdef.
  destruct (rule_approval (po_detection policy) rule (row_event row)) as [c|] eqn:Hc; cbn in Hdef |- *; [|by apply Hmiss].
  apply approval_in in Hc as [Hin Hrule].
  destruct (indices changes !! ac_id c) as [index|] eqn:Hindex; [|].
  2:{ apply Hmiss. rewrite Hdef. apply String.eqb_neq. intros Heq. rewrite Heq in Hindex.
      by rewrite (proj2 (indices_lookup changes k change Hids (list_elem_of_lookup_2 _ _ _ Hchange)) Hchange) in Hindex. }
  apply (indices_lookup _ _ _ Hids Hin) in Hindex.
  destruct (decide (index = k)) as [->|Hne].
  - assert (c = change) as -> by congruence. rewrite String.eqb_refl in Hdef.
    pose proof (count_match_own rule (in_warmup row) (Z.of_nat (length rows)) _ _ _ Hrule IH') as Hown. revert Hown. apply entry_ok_ext.
    + intros r. unfold bump. rewrite tally_snoc, Hdef. cbn [andb fst snd]. destruct (String.eqb r rule); [|done]. cbn. f_equal; lia.
    + intros i. rewrite row_hit_snoc, Hdef. unfold zlen. naive_solver.
  - apply count_match_other; [done|]. apply Hmiss. rewrite Hdef. apply String.eqb_neq. intros Heq. apply Hne.
    eapply (NoDup_lookup (map ac_id changes)); [done|change (map ac_id changes) with (ac_id <$> changes); by rewrite list_lookup_fmap, Hindex|].
    change (map ac_id changes) with (ac_id <$> changes). by rewrite list_lookup_fmap, Hchange, Heq.
Qed.

Lemma unused_rule rule row : rule_used policy rule = false -> hit rule row = false.
Proof.
  intros Hu. unfold hit. destruct (rule_approval _ _ _) as [c|] eqn:Hc; cbn; [|by rewrite andb_false_r].
  apply approval_in in Hc as [Hin Hr]. exfalso. apply existsb_false_Forall in Hu. rewrite Forall_forall in Hu. specialize (Hu c Hin).
  apply str_mem_spec in Hr. change (str_mem rule (ac_adjusted_rules c) = false) in Hu. congruence.
Qed.

Lemma attribute_rules_ok rules rows a count member :
  in_order rows -> entry_ok count member a ->
  entry_ok (fold_left (fun c rule => bump c rule (tally rule rows)) rules count)
    (fun i => member i \/ exists rule, rule ∈ rules /\ row_hit rule rows i)
    (fold_left (attribute_rule policy options rows) rules a).
Proof.
  intros Ho. revert a count member. induction rules as [|rule rules IH]; intros a count member Ha.
  { revert Ha. apply entry_ok_ext; [done|]. set_solver. }
  cbn [fold_left]. eapply entry_ok_ext; [done| |apply (IH _ _ (fun i => member i \/ row_hit rule rows i))].
  - intros i. setoid_rewrite elem_of_cons. naive_solver.
  - unfold attribute_rule. destruct (rule_used policy rule) eqn:Hu; [by apply attribute_rows_ok|].
    revert Ha. apply entry_ok_ext.
    + intros r. unfold bump, tally. rewrite !filter_none_in by (intros row _; by rewrite unused_rule).
      destruct (String.eqb r rule); [|done]. cbn. rewrite !Z.add_0_r. by destruct (count r).
    + intros i. split; [auto|]. intros [?|(_ & row & _ & Hh)]; [done|]. by rewrite unused_rule in Hh.
Qed.

Lemma bumps_at rules rows count r :
  NoDup rules ->
  fold_left (fun c rule => bump c rule (tally rule rows)) rules count r
  = if bool_decide (r ∈ rules) then ((count r).1 + (tally r rows).1, (count r).2 + (tally r rows).2) else count r.
Proof.
  intros Hn. revert count. induction Hn as [|rule rules Hr Hn IH]; intros count; [done|]. cbn [fold_left]. rewrite IH. unfold bump.
  destruct (String.eqb_spec r rule) as [->|Hne].
  - rewrite bool_decide_eq_false_2, bool_decide_eq_true_2 by (done || set_solver). done.
  - by rewrite (bool_decide_ext (r ∈ rule :: rules) (r ∈ rules)) by set_solver.
Qed.

Lemma attribute_all_ok rows :
  in_order rows -> Forall (fun r => r ∈ AUDITED_RULES) (ac_adjusted_rules change) ->
  let a := attribute_all policy options rows in
  au_exceptions a !! k = Some (usage_with (fun r => tally r rows))
  /\ exists l, au_rows a !! k = Some l /\ StronglySorted Z.lt l
       /\ forall i, i ∈ l <-> 0 <= i /\ exists row, rows !! Z.to_nat i = Some row /\ hit_any row = true.
Proof.
  intros Ho Hknown. assert (entry_ok (fun _ => (0, 0)) (fun _ => False) (audit_start policy options)) as Hstart.
  { split; cbn.
    - change (map ?f changes) with (f <$> changes). rewrite list_lookup_fmap, Hchange. done.
    - exists []. change (map (fun _ : ApprovedChange => @nil Z) changes) with ((fun _ : ApprovedChange => @nil Z) <$> changes).
      rewrite list_lookup_fmap, Hchange. split_and!; [done|constructor|]. set_solver. }
  destruct (attribute_rules_ok AUDITED_RULES rows _ _ _ Ho Hstart) as [E (l & Hl & Hs & Hi)]. cbv zeta. unfold attribute_all. split.
  - rewrite E. unfold usage_with. do 2 f_equal. apply map_ext_in. intros r Hr%list_elem_of_In. unfold btree_set in Hr. rewrite dedup_sort_elem in Hr.
    rewrite Forall_forall in Hknown. unfold rule_usage. rewrite bumps_at by (apply (bool_decide_unpack _); vm_compute; done).
    by rewrite bool_decide_eq_true_2 by by apply Hknown.
  - exists l. split_and!; [done..|]. intros i. rewrite Hi. unfold row_hit, hit_any. setoid_rewrite existsb_exists. setoid_rewrite <- list_elem_of_In.
    naive_solver.
Qed.

End OneException.

(** * The summary *)

(** The elements in the order of their first appearance. *)
Definition appearing {A} `{EqDecision A} (l : list A) : list A :=
  fold_left (fun seen x => if bool_decide (x ∈ seen) then seen else seen ++ [x]) l [].

Lemma appearing_snoc {A} `{EqDecision A} (l : list A) x :
  appearing (l ++ [x]) = if bool_decide (x ∈ appearing l) then appearing l else appearing l ++ [x].
Proof. unfold appearing. by rewrite fold_left_app. Qed.
Lemma appearing_nodup {A} `{EqDecision A} (l : list A) : NoDup (appearing l).
Proof.
  induction l as [|x l IH] using rev_ind; [constructor|]. rewrite appearing_snoc. case_bool_decide; [done|].
  apply NoDup_app. split_and!; [done|set_solver|apply NoDup_singleton].
Qed.

Lemma appearing_elem {A} `{EqDecision A} (l : list A) x : x ∈ appearing l <-> x ∈ l.
Proof.
  induction l as [|y l IH] using rev_ind; [done|]. rewrite appearing_snoc, elem_of_app, <- IH.
  case_bool_decide; [|set_solver]. split; [auto|]. rewrite list_elem_of_singleton. by intros [?| ->].
Qed.

Lemma sample_take {A} limit (x : A) (l : list A) :
  0 <= limit -> sample limit x (take (Z.to_nat limit) l) (limit <? zlen l) = (take (Z.to_nat limit) (l ++ [x]), limit <? zlen (l ++ [x])).
Proof.
  intros Hl. unfold sample, zlen. rewrite length_take, length_app. cbn [length].
  destruct (Z.ltb_spec (Z.of_nat (Z.to_nat limit `min` length l)) limit) as [Hlt|Hge].
  - rewrite take_ge by lia. rewrite take_ge by (rewrite length_app; cbn; lia). f_equal.
    destruct (Z.ltb_spec limit (Z.of_nat (length l))), (Z.ltb_spec limit (Z.of_nat (length l + 1))); lia || done.
  - rewrite take_app_le by lia. f_equal. symmetry. apply Z.ltb_lt. lia.
Qed.

(** Once the samples are full, an element that is not among them says so again. *)
Lemma sample_distinct {A} `{EqDecision A} limit (x : A) (l : list A) :
  0 <= limit ->
  (if bool_decide (x ∈ take (Z.to_nat limit) (appearing l)) then (take (Z.to_nat limit) (appearing l), limit <? zlen (appearing l))
   else sample limit x (take (Z.to_nat limit) (appearing l)) (limit <? zlen (appearing l)))
  = (take (Z.to_nat limit) (appearing (l ++ [x])), limit <? zlen (appearing (l ++ [x]))).
Proof.
  intros Hl. rewrite appearing_snoc. destruct (bool_decide_reflect (x ∈ appearing l)) as [Hin|Hout].
  - case_bool_decide as Ht; [done|]. destruct (Z.ltb_spec limit (zlen (appearing l))) as [Hlt|Hge].
    + unfold sample, zlen in *. rewrite length_take. by rewrite (proj2 (Z.ltb_ge _ _)) by lia.
    + contradict Ht. rewrite take_ge; [done|]. unfold zlen in Hge. lia.
  - rewrite bool_decide_eq_false_2 by (intros ?%elem_of_take; by apply Hout).
    by apply sample_take.
Qed.

Definition path_usage (count : string -> Z) (path : string) : ExceptionPathUsage := mkExceptionPathUsage path (count path).
Lemma count_path_map path count names :
  NoDup names ->
  count_path path (map (path_usage count) names)
  = if bool_decide (path ∈ names) then Some (map (path_usage (fun p => count p + Z.b2z (String.eqb p path))) names) else None.
Proof.
  induction 1 as [|x names Hx Hn IH]; [done|]. cbn [map count_path]. change (xp_path (path_usage count x)) with x.
  destruct (String.eqb_spec x path) as [->|Hne].
  - rewrite bool_decide_eq_true_2 by set_solver. f_equal. f_equal; [unfold path_usage; cbn; by rewrite String.eqb_refl|].
    apply map_ext_in. intros p Hp%list_elem_of_In. unfold path_usage. destruct (String.eqb_spec p path) as [->|]; [done|cbn; by rewrite Z.add_0_r].
  - rewrite IH, (bool_decide_ext (path ∈ x :: names) (path ∈ names)) by set_solver. case_bool_decide; [|done]. cbn. f_equal. f_equal.
    unfold path_usage. rewrite (proj2 (String.eqb_neq x path)) by done. by rewrite Z.add_0_r.
Qed.

Section Summary.
Context (options : ExceptionAuditOptions) (u0 : ExceptionUsage) (Hlimit : 0 <= xo_sample_limit options).
#[local] Abbreviation limit := (xo_sample_limit options).

Definition row_path (row : FileEventRow) : string := fe_path (row_event row).
Definition time_of (row : FileEventRow) : Z := fe_timestamp_ms (row_event row).
Definition in_evaluated (row : FileEventRow) : bool := so_from_ms (xo_simulation options) <=? time_of row.
Definition rows_of_path (rows : list FileEventRow) (path : string) : Z :=
  zlen (List.filter (fun row => String.eqb (row_path row) path) rows).

(** What the summary says of the rows that were matched in the interval. *)
Record summary_of (matched : list FileEventRow) (u : ExceptionUsage) : Prop := {
  su_count : xu_replay_matched_events u = zlen matched;
  su_first : xu_first_matched_ms u = time_of <$> head matched;
  su_last : xu_last_matched_ms u = time_of <$> list.last matched;
  su_ids : (xu_evidence_event_ids u, xu_evidence_samples_truncated u)
    = (take (Z.to_nat limit) (map row_id matched), limit <? zlen matched);
  su_paths : (xu_paths u, xu_path_samples_truncated u)
    = (map (path_usage (rows_of_path matched)) (take (Z.to_nat limit) (appearing (map row_path matched))),
       limit <? zlen (appearing (map row_path matched)));
  su_processes : (xu_process_samples u, xu_process_samples_truncated u)
    = (take (Z.to_nat limit) (appearing (omap (fun row => event_process (row_event row)) matched)),
       limit <? zlen (appearing (omap (fun row => event_process (row_event row)) matched)));
}.
Definition same_exception (u v : ExceptionUsage) : Prop :=
  xu_definition u = xu_definition v /\ xu_time_status u = xu_time_status v
  /\ xu_broad_scope_reasons u = xu_broad_scope_reasons v /\ xu_rule_matches u = xu_rule_matches v.

Lemma sample_path_ok matched row :
  sample_path limit (row_path row) (map (path_usage (rows_of_path matched)) (take (Z.to_nat limit) (appearing (map row_path matched))))
    (limit <? zlen (appearing (map row_path matched)))
  = (map (path_usage (rows_of_path (matched ++ [row]))) (take (Z.to_nat limit) (appearing (map row_path (matched ++ [row])))),
     limit <? zlen (appearing (map row_path (matched ++ [row])))).
Proof.
  set (names := take (Z.to_nat limit) (appearing (map row_path matched))).
  assert (NoDup names) as Hn by (eapply sublist_NoDup; [apply appearing_nodup|apply sublist_take]).
  unfold sample_path. rewrite count_path_map by done. rewrite map_app. cbn [map].
  pose proof (sample_distinct limit (row_path row) (map row_path matched) Hlimit) as Hd. fold names in Hd.
  assert (forall p, rows_of_path (matched ++ [row]) p = rows_of_path matched p + Z.b2z (String.eqb p (row_path row))) as Hcount.
  { intros p. unfold rows_of_path. rewrite filter_snoc, zlen_app, (String.eqb_sym p). by destruct (String.eqb (row_path row) p). }
  case_bool_decide as Hin.
  - injection Hd as Hd1 Hd2. rewrite <- Hd1, <- Hd2. f_equal. apply map_ext. intros p. unfold path_usage. by rewrite Hcount.
  - assert (zlen names < limit -> rows_of_path matched (row_path row) = 0) as Hnew.
    { intros Hroom. unfold rows_of_path. unfold names, zlen in Hroom. rewrite length_take in Hroom.
      assert (row_path row ∉ map row_path matched) as Hout
        by (rewrite <- appearing_elem; intros Hd'; apply Hin; unfold names; rewrite take_ge by lia; done).
      rewrite filter_none_in; [done|]. intros r Hr. apply String.eqb_neq. intros Heq. apply Hout. rewrite <- Heq. by apply list_elem_of_fmap_2. }
    unfold sample in *. rewrite zlen_map. destruct (Z.ltb_spec (zlen names) limit) as [Hroom|Hfull]; injection Hd as Hd1 Hd2; rewrite <- Hd1, <- Hd2; f_equal.
    + rewrite map_app. cbn [map]. f_equal.
      * apply map_ext_in. intros p Hp%list_elem_of_In. unfold path_usage. rewrite Hcount, (proj2 (String.eqb_neq p (row_path row))) by set_solver.
        by rewrite Z.add_0_r.
      * unfold path_usage. by rewrite Hcount, Hnew, String.eqb_refl.
    + apply map_ext_in. intros p Hp%list_elem_of_In. unfold path_usage. rewrite Hcount, (proj2 (String.eqb_neq p (row_path row))) by set_solver.
      by rewrite Z.add_0_r.
Qed.

Lemma sample_process_ok (matched : list FileEventRow) row :
  let seen := appearing (omap (fun row => event_process (row_event row)) matched) in
  let seen' := appearing (omap (fun row => event_process (row_event row)) (matched ++ [row])) in
  sample_process limit (event_process (row_event row)) (take (Z.to_nat limit) seen) (limit <? zlen seen)
  = (take (Z.to_nat limit) seen', limit <? zlen seen').
Proof.
  cbv zeta. rewrite omap_app. cbn [omap list_omap]. destruct (event_process (row_event row)) as [p|]; cbn [sample_process]; [|by rewrite app_nil_r].
  by apply sample_distinct.
Qed.

Lemma summarize_row_ok matched u row :
  summary_of matched u -> in_evaluated row = true ->
  summary_of (matched ++ [row]) (summarize_row options u row) /\ same_exception (summarize_row options u row) u
  /\ xu_warmup_matched_events (summarize_row options u row) = xu_warmup_matched_events u.
Proof.
  intros [S1 S2 S3 S4 S5 S6] Hin. unfold summarize_row. unfold in_evaluated, time_of in Hin.
  rewrite (proj2 (Z.ltb_ge _ _)) by by apply Z.leb_le. injection S4 as I1 I2. injection S5 as P1 P2. injection S6 as Q1 Q2.
  rewrite I1, I2, P1, P2, Q1, Q2. pose proof (sample_take limit (row_id row) (map row_id matched) Hlimit) as Hid. rewrite zlen_map in Hid.
  rewrite Hid. change (fe_path (row_event row)) with (row_path row). rewrite sample_path_ok, sample_process_ok.
  split; [|done]. split; cbn [xu_replay_matched_events xu_first_matched_ms xu_last_matched_ms xu_evidence_event_ids
    xu_evidence_samples_truncated xu_paths xu_path_samples_truncated xu_process_samples xu_process_samples_truncated]; try done.
  - rewrite S1, zlen_app. done.
  - rewrite S2. by destruct matched.
  - by rewrite last_snoc.
  - by rewrite map_app, !zlen_app, zlen_map.
Qed.

Lemma summarize_rows_ok rows :
  summary_of [] u0 ->
  let u := fold_left (summarize_row options) rows u0 in
  summary_of (List.filter in_evaluated rows) u /\ same_exception u u0
  /\ xu_warmup_matched_events u = xu_warmup_matched_events u0 + zlen (List.filter (fun row => negb (in_evaluated row)) rows).
Proof.
  intros Hs. induction rows as [|row rows IH] using rev_ind; [split_and!; [done..|unfold zlen; cbn; lia]|].
  cbv zeta in *. rewrite fold_left_app, !filter_snoc, zlen_app. cbn [fold_left]. set (u := fold_left _ rows u0) in *.
  destruct IH as (I1 & I2 & I3). destruct (in_evaluated row) eqn:Hin; cbn [negb].
  - destruct (summarize_row_ok _ _ _ I1 Hin) as (J1 & J2 & J3). split_and!; [done| |rewrite J3, I3; unfold zlen; cbn; lia].
    unfold same_exception in *. destruct J2 as (-> & -> & -> & ->). done.
  - rewrite app_nil_r. unfold summarize_row. unfold in_evaluated, time_of in Hin. apply Z.leb_gt, Z.ltb_lt in Hin. rewrite Hin.
    split_and!; [destruct I1; by split|done|cbn [xu_warmup_matched_events]; rewrite I3; unfold zlen; cbn [length]; lia].
Qed.

End Summary.

(** * What the audit reports *)

Fixpoint positions (p : FileEventRow -> bool) (start : Z) (rows : list FileEventRow) : list Z :=
  match rows with
  | [] => []
  | row :: rows => (if p row then [start] else []) ++ positions p (start + 1) rows
  end.
Lemma positions_elem p start rows i :
  i ∈ positions p start rows <-> start <= i /\ exists row, rows !! Z.to_nat (i - start) = Some row /\ p row = true.
Proof.
  revert start. induction rows as [|row rows IH]; intros start; cbn [positions].
  - rewrite elem_of_nil. setoid_rewrite lookup_nil. naive_solver.
  - rewrite elem_of_app, IH. destruct (decide (i = start)) as [->|Hne].
    + rewrite Z.sub_diag. cbn. split.
      * intros [Hin|[? _]]; [|lia]. destruct (p row) eqn:Hp; [|by apply elem_of_nil in Hin]. split; [lia|by exists row].
      * intros (_ & r & [= <-] & ->). left. apply list_elem_of_here.
    + assert (start < i -> Z.to_nat (i - start) = S (Z.to_nat (i - (start + 1)))) as Hn by lia. split.
      * intros [Hin|(Hle & r & Hr & Hp)].
        -- exfalso. apply Hne. destruct (p row); [by apply list_elem_of_singleton in Hin|by apply elem_of_nil in Hin].
        -- split; [lia|]. exists r. rewrite Hn by lia. done.
      * intros (Hle & r & Hr & Hp). right. split; [lia|]. exists r. rewrite Hn in Hr by lia. done.
Qed.
Lemma positions_sorted p start rows : StronglySorted Z.lt (positions p start rows).
Proof.
  revert start. induction rows as [|row rows IH]; intros start; cbn [positions]; [constructor|].
  destruct (p row); [|apply IH]. cbn. constructor; [apply IH|]. rewrite Forall_forall. intros i. rewrite positions_elem. lia.
Qed.
Lemma rows_at_positions p before rows :
  rows_at (before ++ rows) (positions p (zlen before) rows) = List.filter p rows.
Proof.
  revert before. induction rows as [|row rows IH]; intros before; [done|]. cbn [positions List.filter].
  unfold rows_at. rewrite omap_app. fold (rows_at (before ++ row :: rows) (positions p (zlen before + 1) rows)).
  specialize (IH (before ++ [row])). rewrite zlen_app, <- app_assoc in IH. cbn [app] in IH. change (zlen [row]) with 1 in IH. rewrite IH.
  destruct (p row); [|done]. cbn. unfold zlen. rewrite Nat2Z.id, lookup_app_r, Nat.sub_diag by lia. done.
Qed.

Lemma collect_forall2 {A B E} (f : A -> result B E) (l : list A) k :
  collect (map f l) = Ok k -> Forall2 (fun a b => f a = Ok b) l k.
Proof.
  revert k. induction l as [|a l IH]; cbn; intros k Hk; [simplify_eq; constructor|].
  apply res_bind_Ok in Hk as (b & Hb & Hk). apply res_bind_Ok in Hk as (k' & Hk' & Hk). simplify_eq. constructor; auto.
Qed.

(** The query returns its rows in the order of their times. *)
Lemma range_in_order st from_ms to_ms limit range :
  file_events_in_range st from_ms to_ms limit = Ok range -> in_order (fer_events range).
Proof.
  unfold file_events_in_range. do 2 (destruct (_ || _); [done|]). intros Hr. apply res_bind_Ok in Hr as (events & Hc & Hr).
  injection Hr as <-. cbn [fer_events]. apply collect_forall2 in Hc.
  assert (forall x row, decode_file_event x = Ok row -> fe_timestamp_ms (row_event row) = fr_timestamp_ms x.2 /\ 0 <= fr_timestamp_ms x.2) as Hdec.
  { intros [id r] row Hd. unfold decode_file_event in Hd. apply res_bind_Ok in Hd as (a & _ & Hd). apply guard_bind_Ok in Hd as [_ Hd].
    apply guard_bind_Ok in Hd as [Ht Hd]. apply guard_bind_Ok in Hd as [_ Hd]. injection Hd as <-. cbn. split; [done|]. by apply Z.ltb_ge. }
  pose proof (sort_by_sorted (fun r : Z * FileEventRecord => (fr_timestamp_ms r.2, r.1)) (List.filter (in_period from_ms to_ms) (numbered_rows st))) as Hs.
  set (l := sort_by _ _) in *. assert (StronglySorted (fun x y : Z * FileEventRecord => fr_timestamp_ms x.2 <= fr_timestamp_ms y.2) (take (Z.to_nat limit) l)) as Ht.
  { clear Hc. generalize (Z.to_nat limit) as n. induction Hs as [|x l' Hs IH Hx]; intros n; destruct n; cbn [take]; try constructor; [apply IH|].
    rewrite Forall_forall in Hx |- *. intros y Hy%elem_of_take. specialize (Hx y Hy). unfold key_le, cmp_le, cmp, ord_prod, cmp, ord_Z in Hx. cbn in Hx.
    destruct (Z.compare_spec (fr_timestamp_ms x.2) (fr_timestamp_ms y.2)); [lia|lia|done]. }
  clear Hs. induction Hc as [|x row l' rows Hx Hc IH]; [by split; constructor|]. apply StronglySorted_inv in Ht as [Ht Hle]. destruct (IH Ht) as [I1 I2].
  destruct (Hdec _ _ Hx) as [E Hp]. split; constructor; [done| |lia|done].
  rewrite Forall_forall in Hle. rewrite Forall_forall. intros row' Hin. apply list_elem_of_lookup_1 in Hin as [i Hi].
  destruct (Forall2_lookup_r _ _ _ _ _ Hc Hi) as (y & Hy & Hd). rewrite E, (proj1 (Hdec _ _ Hd)). apply Hle. by eapply list_elem_of_lookup_2.
Qed.

Section AuditReport.
Context `{RustStd} (policy : Policy) (options : ExceptionAuditOptions).
#[local] Abbreviation changes := (dc_approved_changes (po_detection policy)).

(** The entry of an exception, counted directly on the loaded rows. *)
Record usage_exact (rows : list FileEventRow) (change : ApprovedChange) (u : ExceptionUsage) : Prop := {
  ux_definition : xu_definition u = change;
  ux_time : xu_time_status u = time_status change options;
  ux_broad : xu_broad_scope_reasons u = broad_scope_reasons change;
  ux_rules : xu_rule_matches u
    = map (fun rule => mkExceptionRuleUsage rule
             (zlen (List.filter (fun row => hit policy change rule row && in_evaluated options row) rows))
             (zlen (List.filter (fun row => hit policy change rule row && negb (in_evaluated options row)) rows)))
        (btree_set (ac_adjusted_rules change));
  ux_matched : summary_of options (List.filter (in_evaluated options) (List.filter (hit_any policy change) rows)) u;
  ux_warmup : xu_warmup_matched_events u
    = zlen (List.filter (fun row => negb (in_evaluated options row)) (List.filter (hit_any policy change) rows));
  ux_status : xu_usage_status u = "matched_in_loaded_range" <-> xu_replay_matched_events u <> 0;
}.

Lemma attribute_lengths rows :
  length (au_exceptions (attribute_all policy options rows)) = length changes
  /\ length (au_rows (attribute_all policy options rows)) = length changes.
Proof.
  unfold attribute_all. assert (forall rules a, length (au_exceptions a) = length changes /\ length (au_rows a) = length changes ->
    let a' := fold_left (attribute_rule policy options rows) rules a in
    length (au_exceptions a') = length changes /\ length (au_rows a') = length changes) as Hrules.
  { induction rules as [|rule rules IH]; intros a Ha; [done|]. apply IH. unfold attribute_rule. destruct (rule_used policy rule); [|done].
    generalize (engine_with_sensor (project_rule (po_detection policy) rule) (so_sensor (xo_simulation options))) as engine.
    generalize (indexed_rows rows) as l. intros l. revert a Ha. induction l as [|x l IHl]; intros a Ha engine; [done|]. cbn [fold_left].
    destruct (attribute_row policy options rule (engine, a) x) as [engine' a'] eqn:Hx. apply IHl.
    unfold attribute_row in Hx. destruct (engine_evaluate _ _) as [en e]. injection Hx as <- <-.
    destruct (_ && _); [done|]. destruct (ev_approved_change_id e); [|done]. destruct (indices _ !! _); [|done].
    unfold count_match. cbn. destruct (_ !! _); [|done]. destruct (count_rule _ _ _); [|done]. cbn. by rewrite length_insert, length_alter. }
  apply Hrules. cbn. by rewrite !length_map.
Qed.

Lemma usage_exact_at rows k change u l :
  NoDup (map ac_id changes) -> in_order rows -> 0 <= xo_sample_limit options ->
  changes !! k = Some change -> Forall (fun r => r ∈ AUDITED_RULES) (ac_adjusted_rules change) ->
  au_exceptions (attribute_all policy options rows) !! k = Some u -> au_rows (attribute_all policy options rows) !! k = Some l ->
  usage_exact rows change (summarize options rows u l).
Proof.
  intros Hids Ho Hlimit Hk Hknown Hu Hl.
  destruct (attribute_all_ok policy options k change Hids Hk rows Ho Hknown) as (E & l' & El & Hs & Hi).
  rewrite Hu in E. injection E as ->. rewrite Hl in El. injection El as <-.
  assert (l = positions (hit_any policy change) 0 rows) as ->.
  { apply strict_unique; [done|apply positions_sorted|]. intros i. by rewrite Hi, positions_elem, Z.sub_0_r. }
  unfold summarize. rewrite (rows_at_positions _ [] rows). set (u0 := usage_with _ _ _).
  destruct (summarize_rows_ok options u0 Hlimit (List.filter (hit_any policy change) rows)) as (S1 & (S2 & S3 & S4 & S5) & S6).
  { split; cbn; try done. all: by rewrite ?take_nil, (proj2 (Z.ltb_ge _ _)). }
  set (u := fold_left _ _ u0) in *. cbn -[zlen List.filter] in S6.
  assert (forall row, in_evaluated options row = negb (fe_timestamp_ms (row_event row) <? so_from_ms (xo_simulation options))) as Hev
    by (intros row; unfold in_evaluated, time_of; by rewrite Z.leb_antisym).
  assert (xu_rule_matches u = map (fun rule => mkExceptionRuleUsage rule
             (zlen (List.filter (fun row => hit policy change rule row && in_evaluated options row) rows))
             (zlen (List.filter (fun row => hit policy change rule row && negb (in_evaluated options row)) rows)))
        (btree_set (ac_adjusted_rules change))) as Hrules.
  { rewrite S5. cbn [u0 usage_with with_rule_matches xu_rule_matches]. apply map_ext. intros rule. unfold rule_usage, tally. cbn [fst snd].
    f_equal; f_equal; apply List.filter_ext; intros row; by rewrite Hev, ?negb_involutive. }
  assert (xu_usage_status u = "no_matches_in_loaded_range") as Hstatus.
  { unfold u. generalize (List.filter (hit_any policy change) rows) as rs. intros rs. induction rs as [|row rs IH] using rev_ind; [done|].
    rewrite fold_left_app. cbn [fold_left]. rewrite <- IH. unfold summarize_row.
    destruct (_ <? _); [done|]. by destruct (sample _ _ _ _), (sample_path _ _ _ _), (sample_process _ _ _ _). }
  unfold finish_usage. destruct (Z.ltb_spec 0 (xu_replay_matched_events u)) as [Hpos|Hzero].
  - split; cbn; try done; [destruct S1; by split|]. split; [lia|done].
  - split; try done. rewrite Hstatus. split; [done|]. intros Hne. destruct S1 as [S1 _ _ _ _ _]. pose proof (zlen_nonneg (List.filter (in_evaluated options)
      (List.filter (hit_any policy change) rows))). lia.
Qed.

(** C17: The audit counts what each exception covers, exactly. For every approved change
    of a valid policy, the report counts each loaded row once when the change is the
    first that covers the event and adjusts a rule that looks at it, and counts it under
    every such rule; the samples are the first rows, paths (with the exact count of
    each) and processes up to the limit, and say when they are cut. A counted event is
    in the scope of the exception. The counts do not depend on what the engine had
    seen before. The comparison replays the same rows with and without exceptions. *)
Theorem audit_exact (store : AgentStore) report :
  audit_exceptions store policy options = Ok report ->
  exists range, load_simulation_range store policy (without_exceptions policy) (xo_simulation options) = Ok range
  /\ Forall2 (usage_exact (fer_events range)) changes (xa_exceptions report)
  /\ (forall change row, change ∈ changes -> hit_any policy change row = true ->
        approved_event change (row_event row) = true /\ find_approval (po_detection policy) (row_event row) = Some change)
  /\ sr_baseline (xa_comparison report) = replay (fer_events range) policy (xo_simulation options)
  /\ sr_candidate (xa_comparison report) = replay (fer_events range) (without_exceptions policy) (xo_simulation options).
Proof.
  intros Ha. unfold audit_exceptions in Ha. apply res_bind_Ok in Ha as (? & Hval & Ha). apply res_bind_Ok in Ha as (range & Hload & Ha).
  apply res_bind_Ok in Ha as (comparison & Hsim & Ha). injection Ha as <-. cbn [xa_exceptions xa_comparison]. exists range.
  assert (in_order (fer_events range)) as Ho.
  { unfold load_simulation_range in Hload. apply guard_bind_Ok in Hload as [_ Hload]. apply guard_bind_Ok in Hload as [_ Hload].
    apply res_bind_Ok in Hload as (? & _ & Hload). destruct (file_events_in_range _ _ _ _) eqn:Hr; [|done]. simplify_eq. by eapply range_in_order. }
  assert (0 <= xo_sample_limit options) as Hlimit.
  { unfold validate_audit_options in Hval. apply guard_bind_Ok in Hval as [_ Hval]. apply guard_bind_Ok in Hval as [Hl _].
    apply negb_false_iff, andb_true_iff in Hl as [Hl%Z.leb_le _]. lia. }
  unfold simulate_range in Hsim. apply res_bind_Ok in Hsim as (warnings & Hv & Hsim). injection Hsim as <-. cbn [sr_baseline sr_candidate].
  unfold validated in Hv. apply res_bind_Ok in Hv as (old & Hold & _).
  assert (config_valid (po_detection policy) (po_response policy)) as Hvalid.
  { apply (validate_configuration_correct _ _ (so_sensor (xo_simulation options))). by destruct (validate_configuration _ _ _). }
  destruct Hvalid as [Hids Hchanges _ _ _ _ _ _ _ _ _ _ _].
  split_and!; [done| | |done|done].
  - apply Forall2_same_length_lookup. destruct (attribute_lengths (fer_events range)) as [L1 L2].
    split; [rewrite length_zip_with, L1, L2; lia|]. intros k change u Hk Hu.
    apply lookup_zip_with_Some in Hu as (u' & l & -> & Hu' & Hl). eapply usage_exact_at; try done.
    rewrite Forall_forall in Hchanges. pose proof (Hchanges change ltac:(by eapply list_elem_of_lookup_2)) as [_ _ _ _ _ _ Hr].
    eapply Forall_impl; [exact Hr|]. intros r. unfold RULES, AUDITED_RULES. set_solver.
  - intros change row Hin Hhit. unfold hit_any in Hhit. apply existsb_exists in Hhit as (rule & _ & Hhit). unfold hit in Hhit.
    apply andb_true_iff in Hhit as [_ Hhit]. destruct (rule_approval _ _ _) as [c|] eqn:Hc; [|done]. cbn in Hhit. apply String.eqb_eq in Hhit.
    pose proof (approval_in _ _ _ _ Hc) as [Hcin _]. assert (c = change) as ->.
    { apply list_elem_of_lookup_1 in Hin as [i Hi]. apply list_elem_of_lookup_1 in Hcin as [j Hj].
      assert (i = j) as -> by (eapply (NoDup_lookup (map ac_id changes)); [done|change (map ac_id changes) with (ac_id <$> changes)..];
        rewrite list_lookup_fmap, ?Hi, ?Hj; cbn; by rewrite ?Hhit). congruence. }
    unfold rule_approval in Hc. destruct (_ || _); [done|]. destruct (find_approval _ _) as [c|] eqn:Hf; [|done]. cbn -[str_mem] in Hc.
    destruct (str_mem _ _); [|done]. injection Hc as ->. split; [by eapply find_approval_Some|done].
Qed.

End AuditReport.

Module Audited.
Import Scenario Compared.
#[local] Existing Instance sample_std.
#[local] Existing Instance json.

Definition locker_change : ApprovedChange :=
  mkApprovedChange "CHG-9" 900 2000 ["/data"] "/usr/bin/locker" 1001 [PATH_RULE; BEHAVIOR_RULE].
Definition other_change : ApprovedChange := mkApprovedChange "CHG-8" 900 2000 ["/data"] "/usr/bin/other" 1001 [BEHAVIOR_RULE].
Definition audited : Policy := with_detection own (with_changes (po_detection own) [other_change; locker_change]).
Definition audit_options : ExceptionAuditOptions := mkExceptionAuditOptions options 1500 1000 10.
Definition nothing : ExceptionAuditReport := mkExceptionAuditReport "" 0 0 0 0 0 false [] empty_report [].
Definition audit_report : ExceptionAuditReport :=
  default nothing (res_ok (audit_exceptions (ag_store (snd final)) audited audit_options)).

Example audit_ex :
  map (fun u => (xu_replay_matched_events u, xu_time_status u, xu_paths u, map xr_matched_events (xu_rule_matches u)))
    (xa_exceptions audit_report)
  = [(0, "expiring", [], [0]); (1, "expiring", [mkExceptionPathUsage "/data/.canary" 1], [0; 1])].
Proof. vm_compute. reflexivity. Qed.

Lemma audit_exact_witness :
  audit_exceptions (ag_store (snd final)) audited audit_options = Ok audit_report
  /\ length (xa_exceptions audit_report) = 2%nat
  /\ exists range, Forall2 (usage_exact audited audit_options (fer_events range)) [other_change; locker_change] (xa_exceptions audit_report).
Proof.
  assert (audit_exceptions (ag_store (snd final)) audited audit_options = Ok audit_report) as Hr
    by (unfold audit_report; destruct (audit_exceptions _ _ _) eqn:E; [reflexivity|]; apply (f_equal is_ok) in E; vm_compute in E; congruence).
  split; [exact Hr|]. split; [vm_compute; reflexivity|].
  destruct (audit_exact audited audit_options (ag_store (snd final)) audit_report Hr) as (range & _ & Hall & _).
  exists range. exact Hall.
Defined.

End Audited.
