(* ===== verification/Evidence.v ===== *)
(** The queries over the event database that investigations read
    (crates/argos-storage/src/evidence.rs, response_audit.rs and the queries of lib.rs),
    for a database of the current format, and what they tell about the run of the agent
    that filled it. *)
From Stdlib Require Import ZArith Lia Ascii.
From stdpp Require Import base gmap sets strings list pretty sorting.
From S2P Require Import Prelude F64 RustPath RustStr Common Kernel Response ProcMon Entropy Scorer MultiWindow Engine PolicyTrust Outbox Semantic Agent Simulation.
#[local] Open Scope Z_scope.

(** * Rows and pages *)

Record DetectionRow := mkDetectionRow {
  dw_id : Z;
  dw_timestamp_ms : Z;
  dw_rule : string;
  dw_score : f64;
  dw_severity : string;
  dw_summary : string;
  dw_pid : Z;
  dw_paths : list string;
}.
Record ProcessEventRow := mkProcessEventRow { pw_id : Z; pw_event : ProcessEvent }.
Record ResponseAuditRow := mkResponseAuditRow { rw_id : Z; rw_result : ResponseAudit }.

Record EvidenceQuery := mkEvidenceQuery {
  eq_from_ms : Z;
  eq_to_ms : Z;
  eq_pid : option Z;
  eq_limit : Z;
}.
Record EvidencePage (T : Type) := mkEvidencePage {
  pg_total_rows : Z;
  pg_truncated : bool;
  pg_rows : list T;
}.
Arguments mkEvidencePage {T}.
Arguments pg_total_rows {T}.
Arguments pg_truncated {T}.
Arguments pg_rows {T}.
Record EvidenceBundle := mkEvidenceBundle {
  eb_from_ms : Z;
  eb_to_ms : Z;
  eb_pid : option Z;
  eb_files : EvidencePage FileEventRow;
  eb_detections : EvidencePage DetectionRow;
  eb_processes : EvidencePage ProcessEventRow;
}.

(** * The tables by their row numbers *)

Definition table_of {R} (rows : list R) : list (Z * R) := imap (fun i r => (Z.of_nat i + 1, r)) rows.
Definition detection_table (st : AgentStore) : list (Z * Detection) :=
  sort_by (fun kv : Z * Detection => kv.1) (map_to_list (es_detections (as_events st))).
Definition detection_row (r : Z * Detection) : DetectionRow :=
  mkDetectionRow r.1 (as_i64 (d_timestamp_ms r.2)) (d_rule r.2) (d_score r.2) (severity_as_str (d_severity r.2))
    (d_summary r.2) (d_pid r.2) (d_paths r.2).
Definition process_timestamp (e : ProcessEvent) : Z := as_i64 (pe_timestamp_ms e).
Definition detection_timestamp (d : Detection) : Z := as_i64 (d_timestamp_ms d).

(** SQLite takes a negative LIMIT as none. *)
Definition sql_limit {R} (limit : Z) (rows : list R) : list R :=
  let limit := as_i64 limit in if limit <? 0 then rows else take (Z.to_nat limit) rows.

(** * Evidence *)

(** timestamp_ms BETWEEN ?1 AND ?2 AND (?3 IS NULL OR pid = ?3) *)
Definition matches {R} (timestamp pid : R -> Z) (query : EvidenceQuery) (r : R) : bool :=
  (as_i64 (eq_from_ms query) <=? timestamp r) && (timestamp r <=? as_i64 (eq_to_ms query))
  && is_none_or (eq_pid query) (fun p => pid r =? p).
Definition query_page {R T} (table : list (Z * R)) (timestamp pid : R -> Z) (query : EvidenceQuery)
    (decode : Z * R -> result T StorageError) : result (EvidencePage T) StorageError :=
  let selected := List.filter (fun r : Z * R => matches timestamp pid query r.2) table in
  let total_rows := zlen selected in
  let? rows := collect (map decode (sql_limit (eq_limit query)
                 (sort_by (fun r : Z * R => (timestamp r.2, r.1)) selected))) in
  Ok (mkEvidencePage total_rows (zlen rows <? total_rows) rows).

(** The reads share one snapshot of the database. *)
Definition query_evidence (st : AgentStore) (query : EvidenceQuery) : result EvidenceBundle StorageError :=
  let? _ := guard ((eq_to_ms query <? eq_from_ms query) || (i64_max <? eq_to_ms query)) InvalidRange in
  let? _ := guard ((eq_limit query =? 0) || (10000 <? eq_limit query)) InvalidRange in
  let? files := query_page (table_of (as_file_events st)) fr_timestamp_ms fr_pid query decode_file_event in
  let? detections := query_page (detection_table st) detection_timestamp d_pid query (fun r => Ok (detection_row r)) in
  let? processes := query_page (table_of (as_process_events st)) process_timestamp pe_pid query
                      (fun r => Ok (mkProcessEventRow r.1 r.2)) in
  Ok (mkEvidenceBundle (eq_from_ms query) (eq_to_ms query) (eq_pid query) files detections processes).

Definition response_results (st : AgentStore) (query : EvidenceQuery) : result (EvidencePage ResponseAuditRow) StorageError :=
  let? _ := guard ((eq_to_ms query <? eq_from_ms query) || (i64_max <? eq_to_ms query)
                   || (eq_limit query =? 0) || (10000 <? eq_limit query)) InvalidRange in
  query_page (table_of (as_responses st)) (fun a => as_i64 (ra_timestamp_ms a)) ra_pid query
    (fun r => Ok (mkResponseAuditRow r.1 r.2)).

(** * Recent rows and rows between two times *)

Definition newest {R} (limit : Z) (table : list (Z * R)) : list (Z * R) := sql_limit limit (rev table).
Definition between {R} (timestamp : R -> Z) (from_ms to_ms limit : Z) (table : list (Z * R)) : list (Z * R) :=
  sql_limit limit (List.filter (fun r : Z * R => (from_ms <=? timestamp r.2) && (timestamp r.2 <=? to_ms)) table).

Definition recent_events (st : AgentStore) (limit : Z) : list (Z * Z * string * string) :=
  map (fun r => (fr_timestamp_ms r.2, fr_pid r.2, fr_path r.2, fr_action r.2)) (newest limit (table_of (as_file_events st))).
Definition recent_detections (st : AgentStore) (limit : Z) : list (Z * string * f64 * string * string) :=
  map (fun r => (detection_timestamp r.2, d_rule r.2, d_score r.2, severity_as_str (d_severity r.2), d_summary r.2))
    (newest limit (detection_table st)).
Definition process_columns (r : Z * ProcessEvent) : Z * Z * Z * Z * string * string :=
  (process_timestamp r.2, pe_pid r.2, pe_ppid r.2, pe_uid r.2, pe_comm r.2, pe_cmdline r.2).
Definition recent_processes (st : AgentStore) (limit : Z) : list (Z * Z * Z * Z * string * string) :=
  map process_columns (newest limit (table_of (as_process_events st))).
Definition processes_between (st : AgentStore) (from_ms to_ms limit : Z) : list (Z * Z * Z * Z * string * string) :=
  map process_columns (between process_timestamp from_ms to_ms limit (table_of (as_process_events st))).
Definition detection_by_id (st : AgentStore) (id : Z) : option DetectionRow :=
  (fun d => detection_row (id, d)) <$> es_detections (as_events st) !! id.
Definition recent_detections_with_id (st : AgentStore) (limit : Z) : list DetectionRow :=
  map detection_row (newest limit (detection_table st)).
Definition events_between (st : AgentStore) (from_ms to_ms limit : Z) : list (Z * Z * string * string) :=
  map (fun r => (fr_timestamp_ms r.2, fr_pid r.2, fr_action r.2, fr_path r.2))
    (between fr_timestamp_ms from_ms to_ms limit (table_of (as_file_events st))).
Definition event_count (st : AgentStore) : Z := zlen (as_file_events st).
Definition detection_count (st : AgentStore) : Z := Z.of_nat (size (es_detections (as_events st))).

(** The probe of the sensors: the last number before it, and the first new row of its file. *)
Definition last_file_event_id (st : AgentStore) : Z := foldr Z.max 0 (map fst (table_of (as_file_events st))).
Definition probe_file_event (st : AgentStore) (path : string) (after_id : Z) : option (Z * Z) :=
  (fun r => (r.1, fr_timestamp_ms r.2)) <$>
  List.find (fun r : Z * FileEventRecord =>
               (after_id <? r.1) && String.eqb (fr_path r.2) path
               && (String.eqb (fr_action r.2) "Create" || String.eqb (fr_action r.2) "Modify"))
    (table_of (as_file_events st)).

(** * What a page holds *)

Section Pages.
Context {R T : Type} (timestamp pid : R -> Z) (decode : Z * R -> result T StorageError).
Implicit Types x y : (Z * R)%type.

Definition earlier x y : Prop := timestamp x.2 < timestamp y.2 \/ timestamp x.2 = timestamp y.2 /\ x.1 <= y.1.
(** The first rows of the selection by time and number, each as it decodes, with the
    true count of the selection and an honest mark of the rest. *)
Definition page_of (table : list (Z * R)) (query : EvidenceQuery) (page : EvidencePage T) : Prop :=
  exists loaded rest,
    loaded ++ rest ≡ₚ List.filter (fun r : Z * R => matches timestamp pid query r.2) table
    /\ StronglySorted earlier (loaded ++ rest)
    /\ Forall2 (fun r t => decode r = Ok t) loaded (pg_rows page)
    /\ pg_total_rows page = zlen (loaded ++ rest)
    /\ zlen (pg_rows page) = Z.min (eq_limit query) (pg_total_rows page)
    /\ (pg_truncated page = true <-> rest <> []).

Lemma earlier_key x y : key_le (fun r : Z * R => (timestamp r.2, r.1)) x y -> earlier x y.
Proof.
  unfold key_le, cmp_le, earlier, cmp, ord_prod, cmp, ord_Z. cbn.
  destruct (Z.compare_spec (timestamp x.2) (timestamp y.2)); [|lia|done].
  destruct (Z.compare_spec x.1 y.1); intros; [lia..|done].
Qed.

Lemma strongly_impl {A} (P Q : A -> A -> Prop) (l : list A) :
  (forall a b, P a b -> Q a b) -> StronglySorted P l -> StronglySorted Q l.
Proof. intros HPQ. induction 1 as [|a l Hs IH Ha]; constructor; [done|]. eapply Forall_impl; [exact Ha|auto]. Qed.

Lemma sql_limit_positive {A} limit (l : list A) : 0 <= limit <= i64_max -> sql_limit limit l = take (Z.to_nat limit) l.
Proof. intros Hl. unfold sql_limit. cbv zeta. rewrite as_i64_small by lia. by rewrite (proj2 (Z.ltb_ge _ _)) by lia. Qed.

Lemma query_page_Ok table query page :
  0 < eq_limit query <= 10000 -> query_page table timestamp pid query decode = Ok page -> page_of table query page.
Proof.
  intros Hl Hq. unfold query_page in Hq. cbv zeta in Hq. apply res_bind_Ok in Hq as (rows & Hrows & Hq). injection Hq as <-.
  rewrite sql_limit_positive in Hrows by (unfold i64_max; lia). set (selected := List.filter _ table) in *.
  pose proof (sort_by_perm (fun r : Z * R => (timestamp r.2, r.1)) selected) as Hperm.
  pose proof (sort_by_sorted (fun r : Z * R => (timestamp r.2, r.1)) selected) as Hsorted.
  set (l := sort_by _ selected) in *. set (n := Z.to_nat (eq_limit query)) in *.
  apply (strongly_impl _ earlier) in Hsorted; [|apply earlier_key]. rewrite <- (take_drop n l) in Hperm, Hsorted.
  apply collect_Ok in Hrows. assert (length rows = length (take n l)) as Hlen by (rewrite <- (length_map decode), Hrows; by rewrite length_map).
  pose proof (Permutation_length Hperm) as Hcount. rewrite length_app in Hcount. pose proof (length_take l n) as Ht.
  pose proof (length_drop l n) as Hd. exists (take n l), (drop n l). cbn [pg_rows pg_total_rows pg_truncated].
  split_and!; [done|done| |unfold zlen; rewrite length_app; lia|unfold zlen; lia|].
  - clear -Hrows. revert rows Hrows. induction (take n l) as [|x k IH]; intros [|t rows] Hrows; try done.
    cbn in Hrows. injection Hrows as Hx Hrows. constructor; [done|]. by apply IH.
  - unfold zlen. rewrite Z.ltb_lt. split; intros Hr.
    + intros Hd0. rewrite Hd0 in Hcount. cbn in Hcount. lia.
    + destruct (drop n l); [done|]. cbn in Hcount. lia.
Qed.

Lemma query_page_works table query :
  (forall r, r ∈ table -> matches timestamp pid query r.2 = true -> exists t, decode r = Ok t) ->
  exists page, query_page table timestamp pid query decode = Ok page.
Proof.
  intros Hd. unfold query_page. cbv zeta. set (l := sql_limit _ _).
  assert (Forall (fun r => exists t, decode r = Ok t) l) as Hl.
  { rewrite Forall_forall. intros r Hr. assert (r ∈ sort_by (fun r : Z * R => (timestamp r.2, r.1))
        (List.filter (fun r : Z * R => matches timestamp pid query r.2) table)) as Hin.
    { subst l. unfold sql_limit in Hr. cbv zeta in Hr. destruct (_ <? 0); [done|]. by apply elem_of_take in Hr. }
    rewrite sort_by_perm, filter_elem in Hin. destruct Hin. by apply Hd. }
  clearbody l. assert (exists rows, collect (map decode l) = Ok rows) as [rows ->]; [|by eexists].
  induction Hl as [|r l [t Ht] Hl [rows IH]]; [by exists []|]. exists (t :: rows). cbn. by rewrite Ht, IH.
Qed.

(** Each row of a page is a row of the table that the query selects. *)
Lemma page_row table query page t :
  page_of table query page -> t ∈ pg_rows page ->
  exists r, r ∈ table /\ matches timestamp pid query r.2 = true /\ decode r = Ok t.
Proof.
  intros (loaded & rest & Hperm & _ & Hrows & _) Ht. apply list_elem_of_lookup in Ht as [i Hi].
  destruct (Forall2_lookup_r _ _ _ i t Hrows Hi) as (r & Hr & Hdec). exists r.
  apply list_elem_of_lookup_2 in Hr. assert (r ∈ loaded ++ rest) as Hin by (apply elem_of_app; by left).
  rewrite Hperm, filter_elem in Hin. by destruct Hin.
Qed.

End Pages.

Lemma page_counts {R T} (timestamp pid : R -> Z) (decode : Z * R -> result T StorageError) table query page :
  page_of timestamp pid decode table query page ->
  zlen (pg_rows page) <= eq_limit query /\ zlen (pg_rows page) <= pg_total_rows page
  /\ pg_truncated page = (zlen (pg_rows page) <? pg_total_rows page).
Proof.
  intros (loaded & rest & _ & _ & Hrows & Htotal & Hmin & Htr). apply Forall2_length in Hrows.
  unfold zlen in *. rewrite length_app in Htotal. split_and!; [lia..|]. apply eq_true_iff_eq. rewrite Htr, Z.ltb_lt.
  destruct rest; cbn [length] in *; split; (done || lia).
Qed.

Lemma page_rows_nodup {R T} (timestamp pid : R -> Z) (decode : Z * R -> result T StorageError) (id : T -> Z) table query page :
  (forall r t, decode r = Ok t -> id t = r.1) -> NoDup (map fst table) -> page_of timestamp pid decode table query page ->
  NoDup (map id (pg_rows page)).
Proof.
  intros Hid Hd (loaded & rest & Hperm & _ & Hrows & _).
  assert (map id (pg_rows page) = map fst loaded) as ->.
  { clear Hperm. induction Hrows as [|r t loaded rows Hr Hrows IH]; [done|]. cbn. by rewrite IH, (Hid _ _ Hr). }
  assert (NoDup (map fst (loaded ++ rest))) as Hn; [|by rewrite map_app in Hn; apply NoDup_app in Hn as [? _]].
  rewrite Hperm. clear -Hd. induction table as [|r table IH]; [done|]. cbn [map] in Hd. apply NoDup_cons in Hd as [Hr Hd].
  cbn [List.filter]. destruct (matches _ _ _ _); [|by apply IH]. cbn [map]. constructor; [|by apply IH].
  intros (r' & Heq & Hin)%list_elem_of_fmap. apply Hr, list_elem_of_fmap. exists r'. split; [done|]. by apply filter_elem in Hin as [? _].
Qed.

Lemma table_of_lookup {R} (rows : list R) id r : (id, r) ∈ table_of rows <-> exists i, id = Z.of_nat i + 1 /\ rows !! i = Some r.
Proof. unfold table_of. rewrite elem_of_lookup_imap. split; [intros (i & x & [= -> ->] & Hx); by exists i|]. intros (i & -> & Hi). by exists i, r. Qed.
Lemma table_of_elem {R} (rows : list R) r : r ∈ table_of rows -> 0 < r.1 /\ r.2 ∈ rows.
Proof.
  intros Hr. apply elem_of_lookup_imap in Hr as (i & x & -> & Hx). cbn. split; [lia|]. by eapply list_elem_of_lookup_2.
Qed.
Lemma table_of_nodup {R} (rows : list R) : NoDup (map fst (table_of rows)).
Proof.
  unfold table_of. change (map fst ?l) with (fst <$> l). rewrite fmap_imap.
  rewrite (imap_ext _ (fun i _ => Z.of_nat i + 1)) by done. apply NoDup_alt. intros i j x. rewrite !list_lookup_imap.
  intros (y & _ & ->)%fmap_Some (z & _ & Hz)%fmap_Some. lia.
Qed.
Lemma detection_table_elem st r : r ∈ detection_table st <-> es_detections (as_events st) !! r.1 = Some r.2.
Proof. unfold detection_table. rewrite sort_by_perm. destruct r. apply elem_of_map_to_list. Qed.
Lemma detection_table_nodup st : NoDup (map fst (detection_table st)).
Proof. unfold detection_table. rewrite sort_by_perm. apply NoDup_fst_map_to_list. Qed.

Lemma query_evidence_Ok st query bundle :
  0 <= eq_limit query -> query_evidence st query = Ok bundle ->
  (eq_from_ms query <= eq_to_ms query <= i64_max /\ 0 < eq_limit query <= 10000)
  /\ (eb_from_ms bundle, eb_to_ms bundle, eb_pid bundle) = (eq_from_ms query, eq_to_ms query, eq_pid query)
  /\ page_of fr_timestamp_ms fr_pid decode_file_event (table_of (as_file_events st)) query (eb_files bundle)
  /\ page_of detection_timestamp d_pid (fun r => Ok (detection_row r)) (detection_table st) query (eb_detections bundle)
  /\ page_of process_timestamp pe_pid (fun r => Ok (mkProcessEventRow r.1 r.2)) (table_of (as_process_events st)) query
       (eb_processes bundle).
Proof.
  intros H0. unfold query_evidence. rewrite guard_bind_Ok, orb_false_iff, !Z.ltb_ge. intros [[? ?] Hq].
  apply guard_bind_Ok in Hq as [Hl Hq]. rewrite orb_false_iff, Z.eqb_neq, Z.ltb_ge in Hl.
  assert (0 < eq_limit query <= 10000) as Hlimit by lia.
  apply res_bind_Ok in Hq as (files & Hf & Hq). apply res_bind_Ok in Hq as (detections & Hd & Hq).
  apply res_bind_Ok in Hq as (processes & Hp & Hq). injection Hq as <-. cbn.
  split_and!; try lia; try done; by apply query_page_Ok.
Qed.
Lemma response_results_Ok st query page :
  0 <= eq_limit query -> response_results st query = Ok page ->
  (eq_from_ms query <= eq_to_ms query <= i64_max /\ 0 < eq_limit query <= 10000)
  /\ page_of (fun a => as_i64 (ra_timestamp_ms a)) ra_pid (fun r => Ok (mkResponseAuditRow r.1 r.2)) (table_of (as_responses st))
       query page.
Proof.
  intros H0. unfold response_results. rewrite guard_bind_Ok, !orb_false_iff, !Z.ltb_ge, Z.eqb_neq. intros [Hb Hq].
  split; [lia|]. apply query_page_Ok; [lia|done].
Qed.

(** A bundle is an honest extract of the tables: each page holds exactly the first
    rows by time and number among those of the period and the process, as they decode,
    at most the limit; the count is that of all of them, and the mark of truncation is
    set exactly when some are missing. *)
Theorem query_evidence_exact st query bundle :
  0 <= eq_limit query -> query_evidence st query = Ok bundle ->
  (eb_from_ms bundle, eb_to_ms bundle, eb_pid bundle) = (eq_from_ms query, eq_to_ms query, eq_pid query)
  /\ page_of fr_timestamp_ms fr_pid decode_file_event (table_of (as_file_events st)) query (eb_files bundle)
  /\ page_of detection_timestamp d_pid (fun r => Ok (detection_row r)) (detection_table st) query (eb_detections bundle)
  /\ page_of process_timestamp pe_pid (fun r => Ok (mkProcessEventRow r.1 r.2)) (table_of (as_process_events st)) query
       (eb_processes bundle).
Proof. intros H0 Hq. apply query_evidence_Ok in Hq; [|done]. tauto. Qed.

(** * What the tables tell about a run *)

Section Runs.
Context `{RustStd} `{Json : DetectionJson} `{!DetectionJsonLaws} {W : Type} `{ProcessLaws W}.
Implicit Types w : W.

Lemma record_alerts_ok agent_id has_backup env n es notified alerts :
  event_store_ok es -> event_store_ok (record_alerts agent_id has_backup env n es notified alerts).1.
Proof.
  revert n es notified. induction alerts as [|d alerts IH]; intros n es notified Hes; [done|]. cbn [record_alerts].
  destruct (en_record env n) as [[delivery now] commit].
  pose proof (record_detection_ok es d agent_id (has_backup && f_gt (d_score d) (f_of_Z 0)) delivery now commit Hes) as [Hok _].
  destruct (record_detection _ _ _ _ _ _ _) as [es' r]. by apply IH.
Qed.

Lemma step_store_ok w a step :
  event_store_ok (as_events (ag_store a)) -> event_store_ok (as_events (ag_store (agent_step (w, a) step).2)).
Proof.
  intros Hes. destruct step as [event env|event ok|now]; cbn [agent_step].
  - destruct (guard_loop_keeps a (en_loop_now env)) as (_ & _ & _ & _ & _ & Hst). rewrite <- Hst in Hes. set (a1 := guard_loop _ _) in *.
    unfold process_event. destruct (sample_event _ _ _ _) as [[sampler e] failed]. destruct (assess _ _ _ _) as [[engine semantic] evaluation].
    destruct (guard_policy_time _ _ _) as [policy response]. destruct (respond_to _ _ _ _ _) as [w2 r].
    set (store := match r with Some _ => _ | None => _ end).
    assert (as_events store = as_events (ag_store a1)) as Hs1
      by (subst store; destruct r; [|done]; unfold insert_response_result; destruct (_ || _); [done|]; by destruct (en_audit_ok env)).
    set (store2 := fst (insert_file_event store e _)).
    assert (as_events store2 = as_events (ag_store a1)) as Hs2
      by (subst store2; unfold insert_file_event; destruct (en_event_ok env); exact Hs1).
    pose proof (record_alerts_ok (ag_reporter a1) (is_some (ag_backup a1)) env 0 (as_events store2) (ag_notified a1) (alerts_of evaluation)) as Hr.
    rewrite Hs2 in Hr. rewrite Hs2. specialize (Hr Hes). by destruct (record_alerts _ _ _ _ _ _ _).
  - cbn. unfold insert_process_event. by destruct ok.
  - cbn. by destruct (guard_loop_keeps a now) as (_ & _ & _ & _ & _ & ->).
Qed.

Lemma run_store_ok steps w a :
  event_store_ok (as_events (ag_store a)) -> event_store_ok (as_events (ag_store (agent_run (w, a) steps).2)).
Proof.
  revert w a. induction steps as [|step steps IH]; intros w a Hes; [done|]. unfold agent_run. cbn [fold_left].
  pose proof (step_store_ok w a step Hes) as Hs. destruct (agent_step (w, a) step) as [w1 a1]. by apply IH.
Qed.

(** The process that a row names was killed and has ended. *)
Definition killed w (row : ResponseAudit) : Prop :=
  exists p, (p, SIGKILL) ∈ signals w /\ pid_of p = ra_pid row /\ ra_start_time_ticks row = Some (started p)
    /\ ra_boot_id row = Some (boot w) /\ ended w p.
Definition truthful w (row : ResponseAudit) : Prop := ra_outcome row = "succeeded" -> killed w row.

Lemma killed_later w w' row :
  later w w' -> (exists sent, signals w' = sent ++ signals w) -> killed w row -> killed w' row.
Proof.
  intros Hl [sent Hs] (p & Hp & Hpid & Ht & Hb & He). exists p. split_and!; [|done|done| |by eapply ended_kept].
  - rewrite Hs. apply elem_of_app. by right.
  - by rewrite (boot_kept _ _ Hl).
Qed.

(** The rows behind those of earlier runs are truthful. *)
Lemma step_rows w a step w' a' old rows :
  step_collected w step -> ag_responds a = true -> agent_step (w, a) step = (w', a') ->
  as_responses (ag_store a) = old ++ rows -> Forall (truthful w) rows ->
  exists rows', as_responses (ag_store a') = old ++ rows' /\ Forall (truthful w') rows'.
Proof.
  intros Hc Hr Hs Hrows Hall. destruct (step_signals _ _ _ _ _ Hc Hs) as [Hl Hsig].
  assert (exists sent, signals w' = sent ++ signals w) as Hsent
    by (destruct Hsig as [->|(? & ? & p & _ & -> & _)]; [by exists []|by exists [(p, SIGKILL)]]).
  assert (Forall (truthful w') rows) as Hold
    by (eapply Forall_impl; [exact Hall|]; intros row Hrow Ho; eapply killed_later; eauto).
  destruct step as [event env|event ok|now].
  - destruct (event_response _ _ _ _ _ _ Hc Hs) as [[_ ->]|(row & -> & _ & _ & Hpid & Hst & Hb & Hk & _)]; [by exists rows|].
    unfold insert_response_result. destruct (_ || _); [by exists rows|]. destruct (en_audit_ok env); [|by exists rows].
    exists (rows ++ [row]). cbn. rewrite Hrows, app_assoc. split; [done|]. apply Forall_app.
    split; [done|]. constructor; [|done]. intros Ho. destruct (Hk Ho Hr) as (p & [(Hp & Hpp & _) (ctx & Hctx & Hstart & _ & Hboot)] & He).
    exists p. rewrite Hp, Hst, Hb, Hctx, Hpid, (boot_kept _ _ Hl), Hboot, Hstart. split_and!; try done. apply list_elem_of_here.
  - cbn in Hs. injection Hs as _ <-. cbn. unfold insert_process_event. exists rows. by destruct ok.
  - cbn in Hs. injection Hs as _ <-. exists rows. by destruct (guard_loop_keeps a now) as (_ & _ & _ & _ & _ & ->).
Qed.

Lemma run_rows steps w a w' a' old rows :
  run_collected (w, a) steps -> ag_responds a = true -> agent_run (w, a) steps = (w', a') ->
  as_responses (ag_store a) = old ++ rows -> Forall (truthful w) rows ->
  exists rows', as_responses (ag_store a') = old ++ rows' /\ Forall (truthful w') rows'.
Proof.
  revert w a rows. induction steps as [|step steps IH]; intros w a rows Hc Hr Hrun Hrows Hall; [cbn in Hrun; simplify_eq; by exists rows|].
  destruct Hc as [Hc1 Hc]. unfold agent_run in Hrun. cbn [fold_left fst] in *. destruct (agent_step (w, a) step) as [w1 a1] eqn:Hs.
  destruct (step_rows _ _ _ _ _ _ _ Hc1 Hr Hs Hrows Hall) as (rows1 & Hrows1 & Hall1).
  apply (IH w1 a1 rows1); [done| |done..].
  destruct (agent_step_keeps _ _ _ _ _ Hs) as (_ & -> & _). done.
Qed.

(** The recorded files are events that the engine assessed. *)
Lemma run_file_rows steps w a w' a' i r :
  agent_run (w, a) steps = (w', a') -> as_file_events (ag_store a') !! i = Some r ->
  as_file_events (ag_store a) !! i = Some r \/ exists e, e ∈ assessed (w, a) steps /\ r = file_event_row e.
Proof.
  revert w a. induction steps as [|step steps IH]; intros w a Hrun Hr; [cbn in Hrun; simplify_eq; by left|].
  unfold agent_run in Hrun. cbn [fold_left assessed snd] in *. destruct (agent_step (w, a) step) as [w1 a1] eqn:Hs.
  destruct (IH w1 a1 Hrun Hr) as [Hin|(e & He & ->)]; [|right; exists e; split; [apply elem_of_app; by right|done]].
  rewrite (step_files _ _ _ _ _ Hs) in Hin. apply lookup_app_Some in Hin as [Hin|[_ Hin%list_elem_of_lookup_2]]; [by left|right].
  destruct (step_stored step); [|by apply elem_of_nil in Hin]. apply list_elem_of_fmap in Hin as (e & -> & He).
  exists e. split; [apply elem_of_app; by left|done].
Qed.
Lemma run_process_rows steps w a w' a' i e :
  agent_run (w, a) steps = (w', a') -> as_process_events (ag_store a') !! i = Some e ->
  as_process_events (ag_store a) !! i = Some e \/ exists ok, ProcessArrives e ok ∈ steps.
Proof.
  revert w a. induction steps as [|step steps IH]; intros w a Hrun He; [cbn in Hrun; simplify_eq; by left|].
  unfold agent_run in Hrun. cbn [fold_left] in *. destruct (agent_step (w, a) step) as [w1 a1] eqn:Hs.
  destruct (IH w1 a1 Hrun He) as [Hin|(ok & Hok)]; [|right; exists ok; by apply list_elem_of_further].
  destruct step as [event env|event ok|now]; cbn [agent_step] in Hs.
  - left. apply (f_equal snd) in Hs. cbn [snd] in Hs. subst a1. destruct (guard_loop_keeps a (en_loop_now env)) as (_ & _ & _ & _ & _ & <-).
    revert Hin. unfold process_event. destruct (sample_event _ _ _ _) as [[sampler e'] failed]. destruct (assess _ _ _ _) as [[engine semantic] evaluation].
    destruct (guard_policy_time _ _ _) as [policy response]. destruct (respond_to _ _ _ _ _) as [w2 r]. destruct (record_alerts _ _ _ _ _ _ _).
    cbn [snd ag_store with_events as_process_events]. unfold insert_file_event, insert_response_result.
    destruct (en_event_ok env), r; cbn; [destruct (_ || _); [done|]; by destruct (en_audit_ok env)|done|destruct (_ || _); [done|]; by destruct (en_audit_ok env)|done].
  - injection Hs as _ <-. cbn in Hin. unfold insert_process_event in Hin. destruct ok; cbn in Hin; [|by left].
    apply lookup_app_Some in Hin as [Hin|[_ Hin%list_elem_of_lookup_2]]; [by left|right].
    apply list_elem_of_singleton in Hin as ->. exists true. apply list_elem_of_here.
  - injection Hs as _ <-. left. by destruct (guard_loop_keeps a now) as (_ & _ & _ & _ & _ & <-).
Qed.

(** The recorded detections are alerts of the engine and of the monitor of files. *)
Definition step_alerts (a : Agent) (step : AgentStep) : list Detection :=
  match step with
  | FileArrives event env => alerts_of (assess (ag_engine a) (ag_semantic a) (sampled a event env) env).2
  | _ => []
  end.
Fixpoint raised (s : W * Agent) (steps : list AgentStep) : list Detection :=
  match steps with
  | [] => []
  | step :: steps => step_alerts s.2 step ++ raised (agent_step s step) steps
  end.

Lemma record_detection_from es d agent_id retain delivery now commit id x :
  es_detections (record_detection es d agent_id retain delivery now commit).1 !! id = Some x -> es_detections es !! id = Some x \/ x = d.
Proof.
  unfold record_detection. destruct (is_some_and _ _); [by left|].
  match goal with |- context [transaction es commit ?r] => destruct (transaction_cases es commit r) as [-> | (es' & n & Hr & ->)] end; [by left|].
  apply res_bind_Ok in Hr as ([es1 i] & Hi & Hr). apply res_bind_Ok in Hr as (es2 & Ho & Hr). apply res_bind_Ok in Hr as (es3 & Hj & Hr).
  injection Hr as -> _. cbn [fst snd] in *.
  assert (es_detections es1 = <[i := d]> (es_detections es)) as E1
    by (unfold insert_detection in Hi; destruct (_ <=? _); [done|]; by injection Hi as <- <-).
  assert (es_detections es2 = es_detections es1) as E2.
  { destruct agent_id; [|by injection Ho as <-]. apply ok_or_bind_Ok in Ho as (? & _ & Ho). unfold insert_outbox in Ho.
    destruct (_ || _); [done|]. by injection Ho as <-. }
  assert (es_detections es' = es_detections es2) as ->.
  { destruct retain; [|by injection Hj as <-]. unfold enqueue_retention in Hj. destruct (_ <? _); [|by injection Hj as <-].
    apply ok_or_bind_Ok in Hj as (? & _ & Hj). destruct (is_some _); [done|]. by injection Hj as <-. }
  rewrite E2, E1, lookup_insert_Some. intros [[_ ->]|[_ Hx]]; [by right|by left].
Qed.

Lemma record_alerts_from agent_id has_backup env n es notified alerts id d :
  es_detections (record_alerts agent_id has_backup env n es notified alerts).1 !! id = Some d -> es_detections es !! id = Some d \/ d ∈ alerts.
Proof.
  revert n es notified. induction alerts as [|x alerts IH]; intros n es notified; [by left|]. cbn [record_alerts].
  destruct (en_record env n) as [[delivery now] commit]. destruct (record_detection _ _ _ _ _ _ _) as [es' r] eqn:Hr.
  intros [Hd|Hd]%IH; [|right; by apply list_elem_of_further]. apply (f_equal fst) in Hr. cbn in Hr. rewrite <- Hr in Hd.
  apply record_detection_from in Hd as [Hd| ->]; [by left|right; apply list_elem_of_here].
Qed.

Lemma step_detections w a step w' a' id d :
  agent_step (w, a) step = (w', a') -> es_detections (as_events (ag_store a')) !! id = Some d ->
  es_detections (as_events (ag_store a)) !! id = Some d \/ d ∈ step_alerts a step.
Proof.
  intros Hs Hd. destruct step as [event env|event ok|now]; cbn [agent_step step_alerts] in *.
  - apply (f_equal snd) in Hs. cbn [snd] in Hs. subst a'. rewrite <- (step_sampled a (en_loop_now env) event env).
    destruct (guard_loop_keeps a (en_loop_now env)) as (_ & Heng & _ & _ & Hsem & Hst). rewrite <- Hst, <- Heng, <- Hsem. revert Hd.
    set (a1 := guard_loop _ _). unfold process_event, sampled. destruct (sample_event _ _ _ _) as [[sampler e] failed]. cbn [fst snd].
    destruct (assess _ _ _ _) as [[engine semantic] evaluation]. cbn [fst snd].
    destruct (guard_policy_time _ _ _) as [policy response]. destruct (respond_to _ _ _ _ _) as [w2 r].
    set (store := match r with Some _ => _ | None => _ end).
    assert (as_events (fst (insert_file_event store e (en_event_ok env))) = as_events (ag_store a1)) as ->.
    { subst store. unfold insert_file_event, insert_response_result. destruct (en_event_ok env), r; cbn; try done;
        (destruct (_ || _); [done|]); by destruct (en_audit_ok env). }
    pose proof (record_alerts_from (ag_reporter a1) (is_some (ag_backup a1)) env 0 (as_events (ag_store a1)) (ag_notified a1) (alerts_of evaluation) id d) as Hr.
    destruct (record_alerts _ _ _ _ _ _ _). exact Hr.
  - injection Hs as _ <-. left. revert Hd. cbn. unfold insert_process_event. by destruct ok.
  - injection Hs as _ <-. left. by destruct (guard_loop_keeps a now) as (_ & _ & _ & _ & _ & <-).
Qed.

Lemma run_detections steps w a w' a' id d :
  agent_run (w, a) steps = (w', a') -> es_detections (as_events (ag_store a')) !! id = Some d ->
  es_detections (as_events (ag_store a)) !! id = Some d \/ d ∈ raised (w, a) steps.
Proof.
  revert w a. induction steps as [|step steps IH]; intros w a Hrun Hd; [cbn in Hrun; simplify_eq; by left|].
  unfold agent_run in Hrun. cbn [fold_left raised snd] in *. destruct (agent_step (w, a) step) as [w1 a1] eqn:Hs.
  rewrite elem_of_app. destruct (IH w1 a1 Hrun Hd) as [Hin|Hin]; [|tauto]. destruct (step_detections _ _ _ _ _ _ _ Hs Hin); tauto.
Qed.

End Runs.
