(* ===== verification/Brain.v ===== *)
(** The explanation of evidence by a language model (crates/argos-brain/src/lib.rs and
    validation.rs): the catalog of the rows a model may cite, the checks of its answer,
    the text that is shown, and the request to a provider, which may answer anything. *)
From Stdlib Require Import ZArith Lia Ascii.
From stdpp Require Import base gmap sets strings list pretty sorting.
From S2P Require Import Prelude F64 RustPath RustStr Common Kernel Response ProcMon Engine PolicyTrust Outbox Semantic Agent Simulation Evidence.
#[local] Open Scope Z_scope.

(** * Citations and answers *)

Inductive Kind : Set := Files | Detections | Processes | Responses | Context.
#[export] Instance Kind_eq_dec : EqDecision Kind.
Proof. solve_decision. Defined.
(** The order of the declaration. *)
Definition kind_index (k : Kind) : Z :=
  match k with Files => 0 | Detections => 1 | Processes => 2 | Responses => 3 | Context => 4 end.
Definition kind_at (n : Z) : option Kind :=
  List.find (fun k => kind_index k =? n) [Files; Detections; Processes; Responses; Context].
#[export] Instance Kind_countable : Countable Kind.
Proof. refine (inj_countable kind_index kind_at _). by intros []. Defined.
#[export] Instance ord_Kind : Ord Kind := fun x y => cmp (kind_index x) (kind_index y).
#[export] Instance ord_laws_Kind : OrdLaws Kind.
Proof.
  assert (forall x y, kind_index x = kind_index y -> x = y) as Hinj by by intros [] [].
  split; unfold cmp, ord_Kind.
  - intros x y. rewrite cmp_eq. split; [apply Hinj|by intros ->].
  - intros x y. apply cmp_antisym.
  - intros x y z. apply cmp_trans.
Qed.
Definition label (k : Kind) : string :=
  match k with
  | Files => "files" | Detections => "detections" | Processes => "processes" | Responses => "responses" | Context => "context"
  end.

Record Citation := mkCitation {
  ci_kind : Kind;
  ci_id : Z;
  ci_host : string;
  ci_timestamp_ms : option Z;
}.
Record Claim := mkClaim {
  cl_text : string;
  cl_evidence : list Citation;
  cl_absence_claim : bool;
}.
Record Answer := mkAnswer {
  an_facts : list Claim;
  an_inferences : list Claim;
  an_unknowns : list Claim;
}.
Record Catalog := mkCatalog {
  ca_entries : gmap (Kind * Z) Citation;
  ca_from_ms : option Z;
  ca_to_ms : option Z;
  ca_incomplete : bool;
  ca_legacy : bool;
  ca_coverage : list string;
}.

Inductive BrainError :=
  | MissingApiKey
  | Config (message : string)
  | Http
  | Api (status : Z) (message : string)
  | EmptyResponse
  | Validation (reason : string)
  | SizeLimit (what : string)
  | Read.
Definition invalid (reason : string) : BrainError := Validation reason.

(** * The catalog *)

Definition catalog_page {T} (name : string) (page : EvidencePage T) (c : Catalog) : result Catalog BrainError :=
  let loaded := zlen (pg_rows page) in
  let? _ := guard ((10000 <? loaded) || (pg_total_rows page <? loaded)
                   || negb (Bool.eqb (pg_truncated page) (loaded <? pg_total_rows page)))
              (invalid "근거 조회 건수·누락 표시가 일치하지 않습니다") in
  Ok (mkCatalog (ca_entries c) (ca_from_ms c) (ca_to_ms c) (ca_incomplete c || pg_truncated page) (ca_legacy c)
        (ca_coverage c ++ [name +:+ ": " +:+ pretty loaded +:+ "/" +:+ pretty (pg_total_rows page) +:+ "건"])).

Definition catalog_insert (bundle : EvidenceBundle) (c : Catalog) (row : Kind * Z * Z * Z) : result Catalog BrainError :=
  let '(kind, id, timestamp, pid) := row in
  let? _ := guard ((id <=? 0) || (timestamp <? eb_from_ms bundle) || (eb_to_ms bundle <? timestamp)
                   || is_some_and (eb_pid bundle) (fun selected => negb (selected =? pid)))
              (invalid "제공된 근거가 선택한 시간·PID 범위를 벗어났습니다") in
  let? _ := guard (is_some (ca_entries c !! (kind, id))) (invalid "동일 종류의 근거 ID가 중복되었습니다") in
  Ok (mkCatalog (<[(kind, id) := mkCitation kind id "local" (Some timestamp)]> (ca_entries c)) (ca_from_ms c) (ca_to_ms c)
        (ca_incomplete c) (ca_legacy c) (ca_coverage c)).

Definition file_entry (row : FileEventRow) : Kind * Z * Z * Z :=
  (Files, row_id row, fe_timestamp_ms (row_event row), fe_pid (row_event row)).
Definition process_entry (row : ProcessEventRow) : Kind * Z * Z * Z :=
  (Processes, pw_id row, pe_timestamp_ms (pw_event row), pe_pid (pw_event row)).
Definition response_entry (row : ResponseAuditRow) : Kind * Z * Z * Z :=
  (Responses, rw_id row, ra_timestamp_ms (rw_result row), ra_pid (rw_result row)).
(** A negative time is no [u64]. *)
Definition insert_detection_row (bundle : EvidenceBundle) (c : Catalog) (row : DetectionRow) : result Catalog BrainError :=
  let? _ := guard (dw_timestamp_ms row <? 0) (invalid "탐지 근거의 시각이 유효하지 않습니다") in
  catalog_insert bundle c (Detections, dw_id row, dw_timestamp_ms row, dw_pid row).

Definition catalog_evidence (bundle : EvidenceBundle) (responses : option (EvidencePage ResponseAuditRow))
    : result Catalog BrainError :=
  let? _ := guard ((eb_to_ms bundle <? eb_from_ms bundle) || (i64_max <? eb_to_ms bundle))
              (invalid "조회 시간 범위가 유효하지 않습니다") in
  let c := mkCatalog ∅ (Some (eb_from_ms bundle)) (Some (eb_to_ms bundle)) false false [] in
  let? c := catalog_page "파일" (eb_files bundle) c in
  let? c := catalog_page "탐지" (eb_detections bundle) c in
  let? c := catalog_page "프로세스" (eb_processes bundle) c in
  let? c := try_fold (catalog_insert bundle) (map file_entry (pg_rows (eb_files bundle))) c in
  let? c := try_fold (insert_detection_row bundle) (pg_rows (eb_detections bundle)) c in
  let? c := try_fold (catalog_insert bundle) (map process_entry (pg_rows (eb_processes bundle))) c in
  match responses with
  | Some responses =>
      let? c := catalog_page "대응" responses c in
      try_fold (catalog_insert bundle) (map response_entry (pg_rows responses)) c
  | None =>
      Ok (mkCatalog (ca_entries c) (ca_from_ms c) (ca_to_ms c) true (ca_legacy c) (ca_coverage c ++ ["대응: 조회하지 않음"]))
  end.

(** The catalog of a text without rows. *)
Definition legacy_catalog : Catalog :=
  mkCatalog {[(Context, 1) := mkCitation Context 1 "local" None]} None None true true
    ["문자열 컨텍스트: DB ID·선택 기간 미확인"].

(** [entries.values()]. *)
Definition citations (c : Catalog) : list Citation :=
  map snd (sort_by (fun kv : Kind * Z * Citation => kv.1) (map_to_list (ca_entries c))).

(** * The check of an answer *)

(** [char::is_control] on UTF-8 bytes: U+0000 to U+001F, U+007F, U+0080 to U+009F. *)
Definition is_control1 (a : ascii) : bool := Nat.ltb (nat_of_ascii a) 32 || Nat.eqb (nat_of_ascii a) 127.
Definition is_control2 (a b : ascii) : bool :=
  Nat.eqb (nat_of_ascii a) 194 && Nat.leb 128 (nat_of_ascii b) && Nat.leb (nat_of_ascii b) 159.
Fixpoint any_control (allowed : ascii -> bool) (s : string) : bool :=
  match s with
  | EmptyString => false
  | String a s1 =>
      (is_control1 a && negb (allowed a))
      || match s1 with String b _ => is_control2 a b | EmptyString => false end
      || any_control allowed s1
  end.
Definition text_break (a : ascii) : bool := Ascii.eqb a newline || Ascii.eqb a tab.

Definition check_citation (c : Catalog) (citation : Citation) : result unit BrainError :=
  let? actual := ok_or (ca_entries c !! (ci_kind citation, ci_id citation))
                   (invalid "답변이 제공되지 않은 종류·ID의 근거를 인용했습니다") in
  guard (negb (String.eqb (ci_host citation) (ci_host actual))
         || negb (bool_decide (ci_timestamp_ms citation = ci_timestamp_ms actual)))
    (invalid "인용 근거의 호스트 또는 시각이 조회 범위와 일치하지 않습니다").
Definition check_claim (c : Catalog) (index : nat) (claim : Claim) : result unit BrainError :=
  let? _ := guard (trim_is_empty (cl_text claim) || (16000 <? slen (cl_text claim)) || (32 <? zlen (cl_evidence claim))
                   || any_control text_break (cl_text claim))
              (invalid "답변 문장이나 인용 수가 유효하지 않습니다") in
  let? _ := guard (Nat.ltb index 2 && (zlen (cl_evidence claim) =? 0)) (invalid "사실·추정에 근거 인용이 없습니다") in
  let? _ := guard (Nat.eqb index 0 && (cl_absence_claim claim || ca_legacy c))
              (invalid "위협 부재 또는 미검증 컨텍스트를 확인된 사실로 단정했습니다") in
  let? _ := guard (Nat.eqb index 1 && cl_absence_claim claim) (invalid "위협 부재 주장은 미확인으로 표시해야 합니다") in
  try_each (check_citation c) (cl_evidence claim).
Definition check_answer (c : Catalog) (answer : Answer) : result unit BrainError :=
  let count := zlen (an_facts answer) + zlen (an_inferences answer) + zlen (an_unknowns answer) in
  let? _ := guard ((count =? 0) || (64 <? count)) (invalid "답변 항목 수가 허용 범위를 벗어났습니다") in
  try_each (fun section : nat * list Claim => try_each (check_claim c section.1) section.2)
    [(0%nat, an_facts answer); (1%nat, an_inferences answer); (2%nat, an_unknowns answer)].

(** * The text that is shown *)

Definition render_citation (c : Citation) : string := label (ci_kind c) +:+ ".id:" +:+ pretty (ci_id c) +:+ "@" +:+ ci_host c.
(** All words of a claim stay on one line. *)
Definition render_claim (claim : Claim) : string :=
  "- " +:+ String.concat " " (split_whitespace (cl_text claim))
  +:+ (if zlen (cl_evidence claim) =? 0 then ""
       else " [" +:+ String.concat ", " (map render_citation (cl_evidence claim)) +:+ "]").
Definition ln (s : string) : string := s +:+ String newline "".
Definition render_section (title : string) (claims : list Claim) : string :=
  String newline "" +:+ ln title +:+ (if zlen claims =? 0 then ln "- 없음" else "")
  +:+ String.concat "" (map (fun claim => ln (render_claim claim)) claims).
Definition scope_line (c : Catalog) : string :=
  match ca_from_ms c, ca_to_ms c with
  | Some from, Some to => "조회 범위: 로컬 DB, " +:+ pretty from +:+ "~" +:+ pretty to +:+ "ms"
  | _, _ => "조회 범위: 미확인 문자열 컨텍스트"
  end.
Definition notice (c : Catalog) : string :=
  if ca_incomplete c
  then "주의: 일부 근거만 조회했거나 조회 범위를 확인할 수 없습니다. 이 답변으로 선택 구간의 위협 부재를 확인할 수 없습니다."
  else "조회된 저장 기록 범위의 분석입니다. 센서 미수집 여부와 위협 부재는 확인할 수 없습니다.".
Definition BASIS : string :=
  "인용의 존재·종류·시간·출처를 검사했습니다. 문장의 의미적 정확성은 자동 검증하지 못하므로 원문 확인이 필요합니다.".
Definition FACTS : string := "확인된 사실 (AI 분류)".
Definition INFERENCES : string := "추정".
Definition UNKNOWNS : string := "미확인".
Definition render (c : Catalog) (answer : Answer) : string :=
  ln (scope_line c) +:+ ln (String.concat " · " (ca_coverage c)) +:+ ln (notice c) +:+ ln BASIS
  +:+ render_section FACTS (an_facts answer) +:+ render_section INFERENCES (an_inferences answer)
  +:+ render_section UNKNOWNS (an_unknowns answer).

(** * Requests *)

Record AiConfig := mkAiConfig {
  ai_provider : string;
  ai_endpoint : string;
  ai_model : string;
  ai_api_key_env : string;
  ai_timeout_secs : Z;
  ai_evidence_limit : Z;
}.
Record ThreatExplainer := mkThreatExplainer {
  te_api_key : string;
  te_model : string;
  te_provider : string;
  te_endpoint : string;
}.
Record DetectionContext := mkDetectionContext {
  dx_rule : string;
  dx_score : f64;
  dx_severity : string;
  dx_summary : string;
  dx_timestamp_ms : Z;
  dx_pid : Z;
  dx_paths : list string;
  dx_recent_events : list string;
}.
Record CopilotContext := mkCopilotContext {
  cx_status_summary : string;
  cx_recent_detections : list string;
  cx_recent_events : list string;
  cx_recent_processes : list string;
}.
Record ChatMessage := mkChatMessage { cm_role : string; cm_content : string }.
Record MessagesRequest := mkMessagesRequest {
  mq_model : string;
  mq_max_tokens : Z;
  mq_system : string;
  mq_messages : list ChatMessage;
}.
Record HttpPost := mkHttpPost {
  hp_url : string;
  hp_headers : list (string * string);
  hp_body : string;
}.
(** The bytes of the body until its end or a failed read. *)
Record HttpReply := mkHttpReply {
  hr_status : Z;
  hr_content_length : option Z;
  hr_bytes : string;
  hr_broken : bool;
}.
(** What answers a request, or that the request failed. *)
Definition Provider : Type := HttpPost -> result HttpReply unit.

Definition MAX_REQUEST_BYTES : Z := 4 * 1024 * 1024.
Definition MAX_RESPONSE_BYTES : Z := 1024 * 1024.
Definition API_URL : string := "https://api.anthropic.com/v1/messages".
Definition OLLAMA_URL : string := "http://127.0.0.1:11434/api/chat".
Definition API_VERSION : string := "2023-06-01".

(** serde_json, [reqwest::Url] (scheme, user and password), the text of the answer
    contract and the format [:.0] of a score. *)
Class BrainLibs := {
  answer_contract : string;
  url_parts : string -> option (string * string * option string);
  client_builds : bool;
  fixed0 : f64 -> string;
  catalog_json : option Z -> option Z -> bool -> list string -> list Citation -> option string;
  bundle_json : EvidenceBundle -> option string;
  responses_json : EvidencePage ResponseAuditRow -> option string;
  anthropic_json : MessagesRequest -> option string;
  ollama_json : string -> list ChatMessage -> Z -> option string;
  parse_answer : string -> option Answer;
  (** The text of [message.content], when the text is JSON. *)
  parse_chat : string -> option (option string);
  (** Kind and text of each block. *)
  parse_blocks : string -> option (list (string * string));
}.

Section Explainer.
Context `{Libs : BrainLibs}.

Definition validate_render (c : Catalog) (raw : string) : result string BrainError :=
  let? answer := ok_or (parse_answer raw) (invalid "구조화된 답변 형식이 올바르지 않습니다. 답변을 표시하지 않습니다") in
  let? _ := check_answer c answer in
  Ok (render c answer).
Definition prompt (c : Catalog) : result string BrainError :=
  ok_or (catalog_json (ca_from_ms c) (ca_to_ms c) (ca_incomplete c) (ca_coverage c) (citations c))
    (invalid "근거 인용 목록을 직렬화하지 못했습니다").

(** [env]: the variables of the environment. *)
Definition from_config (env : string -> option string) (config : AiConfig) : result ThreatExplainer BrainError :=
  let? _ := guard (negb (str_mem (ai_provider config) ["anthropic"; "ollama"]))
              (Config "provider는 anthropic 또는 ollama여야 합니다") in
  let model := if String.eqb (ai_model config) "" then default "" (env "ARGOS_AI_MODEL") else ai_model config in
  let? _ := guard (trim_is_empty model) (Config "ai.model 또는 ARGOS_AI_MODEL에 사용 가능한 모델을 지정하세요") in
  let? _ := guard (ai_timeout_secs config =? 0) (Config "timeout_secs는 양수여야 합니다") in
  let key_env := if String.eqb (ai_api_key_env config) "" && String.eqb (ai_provider config) "anthropic"
                 then "ANTHROPIC_API_KEY" else ai_api_key_env config in
  let api_key := if String.eqb key_env "" then "" else default "" (env key_env) in
  let? _ := guard (String.eqb (ai_provider config) "anthropic" && String.eqb api_key "") MissingApiKey in
  let endpoint := if String.eqb (ai_endpoint config) ""
                  then (if String.eqb (ai_provider config) "ollama" then OLLAMA_URL else API_URL)
                  else ai_endpoint config in
  let? url := ok_or (url_parts endpoint) (Config "잘못된 API URL") in
  let '(scheme, username, password) := url in
  let? _ := guard (negb (str_mem scheme ["http"; "https"]) || negb (String.eqb username "") || is_some password)
              (Config "API URL은 사용자 인증정보가 없는 http(s) 주소여야 합니다") in
  let? _ := guard (negb client_builds) Http in
  Ok (mkThreatExplainer api_key model (ai_provider config) endpoint).

Definition is_ollama (e : ThreatExplainer) : bool := String.eqb (te_provider e) "ollama".
Definition payload (e : ThreatExplainer) (request : MessagesRequest) : option string :=
  if is_ollama e
  then ollama_json (te_model e) (mkChatMessage "system" (mq_system request) :: mq_messages request) (mq_max_tokens request)
  else anthropic_json request.
Definition headers (e : ThreatExplainer) : list (string * string) :=
  ("content-type", "application/json")
  :: if is_ollama e
     then (if String.eqb (te_api_key e) "" then [] else [("authorization", "Bearer " +:+ te_api_key e)])
     else [("x-api-key", te_api_key e); ("anthropic-version", API_VERSION)].

(** [take(MAX + 1).read_to_end]: a failure behind these bytes is not met. *)
Definition read_reply (reply : HttpReply) : result string BrainError :=
  let? _ := guard (is_some_and (hr_content_length reply) (fun n => MAX_RESPONSE_BYTES <? n)) (SizeLimit "응답 최대 1MiB") in
  let? _ := guard (hr_broken reply && (slen (hr_bytes reply) <=? MAX_RESPONSE_BYTES)) Read in
  let? _ := guard (MAX_RESPONSE_BYTES <? slen (hr_bytes reply)) (SizeLimit "응답 최대 1MiB") in
  let? _ := guard ((hr_status reply <? 200) || (299 <? hr_status reply)) (Api (hr_status reply) "제공자가 요청을 거부했습니다") in
  Ok (hr_bytes reply).
Definition reply_text (e : ThreatExplainer) (bytes : string) : result (option string) BrainError :=
  let unreadable := invalid "제공자 응답 JSON을 해석하지 못했습니다" in
  if is_ollama e then ok_or (parse_chat bytes) unreadable
  else
    let? blocks := ok_or (parse_blocks bytes) unreadable in
    let texts := map snd (List.filter (fun b : string * string => String.eqb b.1 "text") blocks) in
    Ok (match texts with [] => None | _ => Some (String.concat (String newline "") texts) end).
Definition send (provider : Provider) (e : ThreatExplainer) (request : MessagesRequest) : result string BrainError :=
  let? body := ok_or (payload e request) (invalid "요청 JSON을 구성하지 못했습니다") in
  let? _ := guard (MAX_REQUEST_BYTES <? slen body) (SizeLimit "조회 범위를 줄이세요 (요청 최대 4MiB)") in
  let? reply := match provider (mkHttpPost (te_endpoint e) (headers e) body) with Ok reply => Ok reply | Err _ => Err Http end in
  let? bytes := read_reply reply in
  let? text := reply_text e bytes in
  ok_or (opt_filter (fun s => negb (trim_is_empty s)) text) EmptyResponse.

Definition send_validated (provider : Provider) (e : ThreatExplainer) (request : MessagesRequest) (c : Catalog)
    : result string BrainError :=
  let? listed := prompt c in
  let content := String.concat (String newline "") (map cm_content (mq_messages request))
                 +:+ String newline (ln "[앱이 검증한 인용 목록과 조회 범위]") +:+ listed in
  let? _ := guard (MAX_REQUEST_BYTES <? slen content) (SizeLimit "조회 범위를 줄이세요 (요청 최대 4MiB)") in
  let request := mkMessagesRequest (mq_model request) (mq_max_tokens request) (mq_system request) [mkChatMessage "user" content] in
  let? raw := send provider e request in
  validate_render c raw.

(** * The questions *)

Definition user_request (e : ThreatExplainer) (max_tokens : Z) (content : string) : MessagesRequest :=
  mkMessagesRequest (te_model e) max_tokens answer_contract [mkChatMessage "user" content].

Definition build_prompt (ctx : DetectionContext) : string :=
  ln "다음 탐지 이벤트를 분석해 주세요." +:+ String newline "" +:+ ln "[탐지 정보]"
  +:+ ln ("- 룰: " +:+ dx_rule ctx)
  +:+ ln ("- 위험 점수: " +:+ fixed0 (dx_score ctx) +:+ "/100 (" +:+ dx_severity ctx +:+ ")")
  +:+ ln ("- 시각(epoch ms): " +:+ pretty (dx_timestamp_ms ctx))
  +:+ ln ("- pid: " +:+ pretty (dx_pid ctx)) +:+ ln ("- 요약: " +:+ dx_summary ctx)
  +:+ String newline "" +:+ ln "[영향 파일]"
  +:+ String.concat "" (map (fun path => ln ("- " +:+ path)) (take 30 (dx_paths ctx)))
  +:+ String newline "" +:+ ln "[탐지 전후 파일 이벤트 로그]"
  +:+ String.concat "" (map ln (take 100 (dx_recent_events ctx))).
Definition explain (provider : Provider) (e : ThreatExplainer) (ctx : DetectionContext) : result string BrainError :=
  send_validated provider e (user_request e 2048 (build_prompt ctx)) legacy_catalog.

Definition copilot_prompt (question : string) (ctx : CopilotContext) : string :=
  ln "[서버 상태]" +:+ cx_status_summary ctx
  +:+ String newline (String newline (ln "[최근 탐지]"))
  +:+ (if zlen (cx_recent_detections ctx) =? 0 then ln "(없음)" else "")
  +:+ String.concat "" (map ln (cx_recent_detections ctx))
  +:+ String newline (ln "[최근 파일 이벤트]") +:+ String.concat "" (map ln (cx_recent_events ctx))
  +:+ String newline (ln "[최근 프로세스 실행]") +:+ String.concat "" (map ln (cx_recent_processes ctx))
  +:+ String newline (ln "[질문]") +:+ question.
Definition ask (provider : Provider) (e : ThreatExplainer) (question : string) (ctx : CopilotContext) : result string BrainError :=
  send_validated provider e (user_request e 1536 (copilot_prompt question ctx)) legacy_catalog.

Definition ask_evidence (provider : Provider) (e : ThreatExplainer) (question : string) (evidence : EvidenceBundle)
    : result string BrainError :=
  let? c := catalog_evidence evidence None in
  let? json := ok_or (bundle_json evidence) (Config "serde_json") in
  send_validated provider e
    (user_request e 2048 (ln "[조회 근거 JSON]" +:+ ln json +:+ ln "[질문]" +:+ question)) c.
Definition ask_investigation (provider : Provider) (e : ThreatExplainer) (question : string) (evidence : EvidenceBundle)
    (responses : EvidencePage ResponseAuditRow) : result string BrainError :=
  let? c := catalog_evidence evidence (Some responses) in
  let? json := ok_or (bundle_json evidence) (Config "serde_json") in
  let? audit := ok_or (responses_json responses) (Config "serde_json") in
  send_validated provider e
    (user_request e 2048 (ln "[조회 근거 JSON]" +:+ ln json +:+ ln "[대응 결과 감사]" +:+ ln audit +:+ ln "[질문]" +:+ question)) c.

End Explainer.

(** * The lines of the text *)

Definition section_lines (title : string) (claims : list Claim) : list string :=
  "" :: title :: (if zlen claims =? 0 then ["- 없음"] else []) ++ map render_claim claims.
Definition answer_lines (c : Catalog) (answer : Answer) : list string :=
  [scope_line c; String.concat " · " (ca_coverage c); notice c; BASIS]
  ++ section_lines FACTS (an_facts answer) ++ section_lines INFERENCES (an_inferences answer)
  ++ section_lines UNKNOWNS (an_unknowns answer).

Lemma unlines_cons l ls : unlines (l :: ls) = ln l +:+ unlines ls.
Proof. unfold ln. by rewrite append_assoc. Qed.
Lemma concat_lines (l : list string) : String.concat "" (map ln l) = unlines l.
Proof.
  induction l as [|x l IH]; [done|]. rewrite unlines_cons, <- IH. cbn [map]. apply concat_cons.
Qed.
Lemma render_section_lines title claims : render_section title claims = unlines (section_lines title claims).
Proof.
  unfold render_section, section_lines. rewrite <- map_map, concat_lines. rewrite !unlines_cons, unlines_app.
  change (ln "" +:+ ?x) with (String newline x). by destruct (zlen claims =? 0).
Qed.
Lemma render_lines c answer : render c answer = unlines (answer_lines c answer).
Proof.
  unfold render, answer_lines. rewrite !unlines_app, !render_section_lines. by rewrite !unlines_cons, !append_assoc.
Qed.

(** ** Lines without control characters *)

Definition printable (s : string) : Prop := any_control (fun _ => false) s = false.
(** The first byte does not continue a character. *)
Definition starts_fresh (s : string) : bool :=
  match s with String x _ => negb (Nat.leb 128 (nat_of_ascii x) && Nat.leb (nat_of_ascii x) 159) | EmptyString => true end.

(** The last byte does not begin a character of two bytes that may be a control character. *)
Fixpoint closed (s : string) : bool :=
  match s with
  | EmptyString => true
  | String x EmptyString => negb (Nat.eqb (nat_of_ascii x) 194)
  | String _ s => closed s
  end.

Lemma any_control_app p a b :
  any_control p a = false -> any_control p b = false -> closed a || starts_fresh b = true -> any_control p (a +:+ b) = false.
Proof.
  intros Ha Hb Hf. induction a as [|x a IH]; [done|]. rewrite append_cons. cbn [any_control] in *.
  rewrite !orb_false_iff in Ha. destruct Ha as [[Hx Hn] Ha]. rewrite Hx. cbn [orb].
  destruct a as [|y a]; [|rewrite append_cons in *; rewrite Hn, (IH Ha Hf); done]. rewrite append_nil_l in *. rewrite Hb, orb_false_r.
  destruct b as [|y b]; [done|]. cbn [starts_fresh closed] in Hf. unfold is_control2. apply orb_true_iff in Hf as [Hf|Hf]; apply negb_true_iff in Hf.
  - by rewrite Hf.
  - by rewrite <- andb_assoc, Hf, andb_false_r.
Qed.
Lemma any_control_split p a b : any_control p (a +:+ b) = false -> any_control p a = false /\ any_control p b = false.
Proof.
  induction a as [|x a IH]; [done|]. rewrite append_cons. cbn [any_control]. rewrite !orb_false_iff. intros [[Hx Hn] Hr].
  destruct (IH Hr) as [Ha Hb]. split_and!; try done. by destruct a.
Qed.
Lemma printable_app a b : printable a -> printable b -> closed a || starts_fresh b = true -> printable (a +:+ b).
Proof. apply any_control_app. Qed.
Lemma graphic_printable s : str_all graphic s = true -> printable s /\ starts_fresh s = true.
Proof.
  unfold printable. induction s as [|a s IH]; [done|]. cbn [str_all any_control]. intros [Ha Hs]%andb_true_iff.
  destruct (IH Hs) as [Hp Hf]. unfold graphic in Ha. apply andb_true_iff in Ha as [H1 H2]. apply Nat.ltb_lt in H1, H2. rewrite Hp. split.
  - rewrite orb_false_r. apply orb_false_iff. split.
    + unfold is_control1. rewrite (proj2 (Nat.ltb_ge _ _)) by lia. by rewrite (proj2 (Nat.eqb_neq _ _)) by lia.
    + destruct s as [|b s]; [done|]. unfold is_control2. by rewrite (proj2 (Nat.eqb_neq (nat_of_ascii a) 194)) by lia.
  - cbn [starts_fresh]. by rewrite (proj2 (Nat.leb_gt 128 _)) by lia.
Qed.
Lemma pretty_graphic (n : Z) : str_all graphic (pretty n) = true.
Proof.
  assert (forall m, 0 <= m -> str_all graphic (pretty m) = true) as Hpos.
  { intros m Hm. eapply str_all_impl; [|by apply pretty_digits]. apply digit_graphic. }
  destruct (Z.le_gt_cases 0 n) as [Hn|Hn]; [by apply Hpos|]. destruct n as [|q|q]; [lia|lia|].
  change (pretty (Z.neg q)) with (String "-" (pretty (Z.pos q))). cbn [str_all]. by rewrite Hpos.
Qed.
Lemma pretty_printable (n : Z) : printable (pretty n) /\ starts_fresh (pretty n) = true.
Proof. apply graphic_printable, pretty_graphic. Qed.

Lemma concat_printable sep l :
  printable sep -> starts_fresh sep && closed sep && negb (String.eqb sep "") = true -> Forall printable l -> printable (String.concat sep l).
Proof.
  intros Hp [[Hf Hc]%andb_true_iff Hs]%andb_true_iff. induction 1 as [|x l Hx Hl IH]; [done|]. destruct l as [|y l]; [done|].
  change (String.concat sep (x :: y :: l)) with (x +:+ sep +:+ String.concat sep (y :: l)).
  apply printable_app; [done|apply printable_app; [done..|by rewrite Hc]|]. destruct sep as [|z sep]; [done|].
  rewrite append_cons. cbn [starts_fresh] in *. by rewrite Hf, orb_true_r.
Qed.

Lemma printable_no_newline s : printable s -> no_newline s.
Proof.
  unfold printable, no_newline. induction s as [|a s IH]; [done|]. cbn [any_control str_contains]. rewrite !orb_false_iff.
  intros [[Ha _] Hs]. split; [|by apply IH]. destruct (Ascii.eqb_spec a newline) as [->|]; [done|done].
Qed.

(** The words of a text whose only control characters are newlines and tabs. *)
Lemma unbroken_printable s :
  any_control text_break s = false -> str_all (fun a => negb (text_break a)) s = true -> printable s.
Proof.
  unfold printable. induction s as [|a s IH]; [done|]. cbn [any_control str_all]. rewrite !orb_false_iff, andb_true_iff.
  intros [[Ha Hn] Hs] [Hb Hall]. split_and!; [|done|by apply IH]. by rewrite Hb in Ha.
Qed.
Lemma fields_printable n current s :
  (String.length s <= n)%nat -> str_all (fun a => negb (text_break a)) current = true ->
  any_control text_break (current +:+ s) = false -> Forall printable (fields_from current s).
Proof.
  revert current s. induction n as [|n IH]; intros current s Hn Hc Hs.
  { destruct s; [|cbn in Hn; lia]. cbn [fields_from]. unfold flush. destruct (String.eqb current ""); constructor; [|done].
    rewrite append_nil_r in Hs. by apply unbroken_printable. }
  assert (Forall printable (flush current)) as Hflush.
  { unfold flush. destruct (String.eqb current ""); constructor; [|done]. apply any_control_split in Hs as [Hs _]. by apply unbroken_printable. }
  assert (forall rest, (String.length rest <= n)%nat -> any_control text_break rest = false ->
            Forall printable (flush current ++ fields_from "" rest)) as Hnext
    by (intros rest Hr Hrest; apply Forall_app; split; [done|]; by apply IH).
  destruct s as [|a s1]; [by cbn [fields_from]|]. cbn [String.length] in Hn.
  pose proof (any_control_split _ _ _ Hs) as [_ Hs0]. cbn [any_control] in Hs0. rewrite !orb_false_iff in Hs0. destruct Hs0 as [_ Hs1].
  cbn [fields_from]. destruct (is_space1 a) eqn:H1; [apply Hnext; [lia|done]|].
  assert (Forall printable (fields_from (current +:+ String a "") s1)) as Hstep.
  { apply IH; [lia| |by rewrite append_assoc, append_cons, append_nil_l]. rewrite str_all_app, Hc. cbn [str_all].
    rewrite andb_true_r. cbn [andb]. apply negb_true_iff. unfold text_break. apply orb_false_iff.
    split; [destruct (Ascii.eqb_spec a newline) as [->|]|destruct (Ascii.eqb_spec a tab) as [->|]]; done. }
  destruct s1 as [|b s2]; [done|]. cbn [String.length] in Hn. cbn [any_control] in Hs1. rewrite !orb_false_iff in Hs1. destruct Hs1 as [_ Hs2].
  destruct (is_space2 a b); [apply Hnext; [lia|done]|].
  destruct s2 as [|d s3]; [done|]. cbn [String.length] in Hn. cbn [any_control] in Hs2. rewrite !orb_false_iff in Hs2. destruct Hs2 as [_ Hs3].
  destruct (is_space3 a b d); [apply Hnext; [lia|done]|done].
Qed.

Lemma citation_printable c : printable (ci_host c) -> printable (render_citation c).
Proof.
  intros Hh. unfold render_citation. destruct (pretty_printable (ci_id c)) as [Hp Hf].
  apply printable_app; [by destruct (ci_kind c)| |by destruct (ci_kind c)]. apply printable_app; [done| |done].
  apply printable_app; [done| |by rewrite orb_comm]. by apply printable_app.
Qed.

Lemma claim_printable claim :
  any_control text_break (cl_text claim) = false -> Forall (fun c => printable (ci_host c)) (cl_evidence claim) ->
  printable (render_claim claim).
Proof.
  intros Ht He. unfold render_claim.
  assert (printable (String.concat " " (split_whitespace (cl_text claim)))) as Hw
    by (apply concat_printable; [done|done|]; by eapply (fields_printable (String.length (cl_text claim)) "")).
  destruct (zlen (cl_evidence claim) =? 0); [rewrite append_nil_r; by apply printable_app|].
  apply printable_app; [done| |done]. apply printable_app; [done| |by rewrite orb_comm].
  apply printable_app; [done| |done]. apply printable_app; [|done|by rewrite orb_comm].
  apply concat_printable; [done|done|]. rewrite Forall_map. eapply Forall_impl; [exact He|]. apply citation_printable.
Qed.

(** * What a catalog lists *)

#[local] Abbreviation Row := (Kind * Z * Z * Z)%type.
Definition row_citation (row : Row) : Citation := let '(kind, id, timestamp, _) := row in mkCitation kind id "local" (Some timestamp).
Definition row_index (row : Row) : Kind * Z := row.1.1.
Definition within (bundle : EvidenceBundle) (row : Row) : Prop :=
  let '(_, id, timestamp, pid) := row in
  0 < id /\ eb_from_ms bundle <= timestamp <= eb_to_ms bundle /\ (forall selected, eb_pid bundle = Some selected -> selected = pid).

Definition detection_entry (row : DetectionRow) : Row := (Detections, dw_id row, dw_timestamp_ms row, dw_pid row).
Definition catalog_rows (bundle : EvidenceBundle) (responses : list ResponseAuditRow) : list Row :=
  ((map file_entry (pg_rows (eb_files bundle)) ++ map detection_entry (pg_rows (eb_detections bundle)))
   ++ map process_entry (pg_rows (eb_processes bundle))) ++ map response_entry responses.

(** The entries are those of the rows, and the other fields are untouched. *)
Definition same_scope (c c' : Catalog) : Prop :=
  (ca_from_ms c', ca_to_ms c', ca_incomplete c', ca_legacy c', ca_coverage c')
  = (ca_from_ms c, ca_to_ms c, ca_incomplete c, ca_legacy c, ca_coverage c).
Definition lists (rows : list Row) (c : Catalog) : Prop :=
  NoDup (map row_index rows)
  /\ forall index citation, ca_entries c !! index = Some citation <-> exists row, row ∈ rows /\ row_index row = index /\ row_citation row = citation.

Lemma within_guard bundle kind id timestamp pid :
  (id <=? 0) || (timestamp <? eb_from_ms bundle) || (eb_to_ms bundle <? timestamp)
  || is_some_and (eb_pid bundle) (fun selected => negb (selected =? pid)) = false
  <-> within bundle (kind, id, timestamp, pid).
Proof.
  unfold within. rewrite !orb_false_iff, Z.leb_gt, !Z.ltb_ge. destruct (eb_pid bundle) as [p|]; cbn.
  - rewrite negb_false_iff, Z.eqb_eq. split; [intros [[[? ?] ?] ->]; split_and!; try lia; by intros ? [= ->]|].
    intros (? & ? & Hp). split_and!; try lia. by apply Hp.
  - split; [intros [[[? ?] ?] _]; split_and!; [lia..|done]|]. intros (? & ? & _). split_and!; lia.
Qed.

Lemma lists_key rows c index : lists rows c -> is_some (ca_entries c !! index) = bool_decide (index ∈ map row_index rows).
Proof.
  intros [_ Hl]. destruct (ca_entries c !! index) as [citation|] eqn:E; cbn; symmetry.
  - apply Hl in E as (row & Hrow & <- & _). apply bool_decide_eq_true. by apply list_elem_of_fmap_2.
  - apply bool_decide_eq_false. intros (row & -> & Hrow)%list_elem_of_fmap.
    assert (ca_entries c !! row_index row = Some (row_citation row)) by (apply Hl; by exists row). congruence.
Qed.

Lemma insert_row rows bundle c row c' :
  lists rows c -> catalog_insert bundle c row = Ok c' ->
  within bundle row /\ lists (rows ++ [row]) c' /\ same_scope c c'.
Proof.
  intros Hl. destruct row as [[[kind id] timestamp] pid]. unfold catalog_insert. rewrite !guard_bind_Ok, within_guard, (lists_key rows) by done.
  intros (Hw & Hnew%bool_decide_eq_false & [= <-]). split; [done|]. split; [|done]. destruct Hl as [Hd Hl]. split.
  - rewrite map_app. apply NoDup_app. split_and!; [done| |apply NoDup_singleton]. intros x Hx ->%list_elem_of_singleton. done.
  - intros index citation. cbn [ca_entries]. rewrite lookup_insert_Some, Hl. split.
    + intros [[<- <-]|[_ (row & Hrow & ?)]]; [|exists row; split; [apply elem_of_app; by left|done]].
      exists (kind, id, timestamp, pid). split; [apply elem_of_app; right; apply list_elem_of_here|done].
    + intros (row & [Hrow| ->%list_elem_of_singleton]%elem_of_app & <- & <-); [right|by left].
      split; [|by exists row]. intros Heq. apply Hnew. apply list_elem_of_fmap. by exists row.
Qed.
Lemma insert_row_works rows bundle c row :
  lists rows c -> within bundle row -> row_index row ∉ map row_index rows -> exists c', catalog_insert bundle c row = Ok c'.
Proof.
  intros Hl Hw Hn. destruct row as [[[kind id] timestamp] pid]. unfold catalog_insert. rewrite (proj2 (within_guard _ _ _ _ _) Hw).
  rewrite (lists_key rows) by done. rewrite bool_decide_eq_false_2 by done. by eexists.
Qed.

Lemma insert_rows rows more bundle c c' :
  lists rows c -> try_fold (catalog_insert bundle) more c = Ok c' ->
  Forall (within bundle) more /\ lists (rows ++ more) c' /\ same_scope c c'.
Proof.
  revert rows c. induction more as [|row more IH]; intros rows c Hl Hf; cbn [try_fold] in Hf.
  { simplify_eq. by rewrite app_nil_r. }
  apply res_bind_Ok in Hf as (c1 & Hrow & Hf). destruct (insert_row _ _ _ _ _ Hl Hrow) as (Hw & Hl1 & Hs1).
  destruct (IH _ _ Hl1 Hf) as (Hws & Hl2 & Hs2). rewrite <- app_assoc in Hl2. split_and!; [by constructor|done|].
  unfold same_scope in *. congruence.
Qed.
Lemma insert_rows_work rows more bundle c :
  lists rows c -> Forall (within bundle) more -> NoDup (map row_index (rows ++ more)) ->
  exists c', try_fold (catalog_insert bundle) more c = Ok c'.
Proof.
  revert rows c. induction more as [|row more IH]; intros rows c Hl Hw Hd; [by exists c|].
  apply Forall_cons in Hw as [Hw Hws]. destruct (insert_row_works rows bundle c row) as [c1 Hc1]; [done..| |].
  { rewrite map_app in Hd. apply NoDup_app in Hd as (_ & Hd & _). intros Hin. by apply (Hd _ Hin), list_elem_of_here. }
  destruct (insert_row _ _ _ _ _ Hl Hc1) as (_ & Hl1 & _). destruct (IH (rows ++ [row]) c1) as [c' Hc']; [done|done|by rewrite <- app_assoc|].
  exists c'. cbn [try_fold]. by rewrite Hc1.
Qed.

(** A detection row is an entry unless its time is negative, which [within] excludes. *)
Lemma insert_detections bundle rows c c' :
  try_fold (insert_detection_row bundle) rows c = Ok c' -> try_fold (catalog_insert bundle) (map detection_entry rows) c = Ok c'.
Proof.
  revert c. induction rows as [|row rows IH]; intros c; cbn [try_fold map]; [done|]. rewrite !res_bind_Ok.
  intros (c1 & Hrow & Hf). unfold insert_detection_row in Hrow. apply guard_bind_Ok in Hrow as [_ Hrow]. exists c1. by split; [|apply IH].
Qed.
Lemma insert_detections_work bundle rows c c' :
  Forall (fun row => 0 <= dw_timestamp_ms row) rows ->
  try_fold (catalog_insert bundle) (map detection_entry rows) c = Ok c' -> try_fold (insert_detection_row bundle) rows c = Ok c'.
Proof.
  intros Hrows. revert c. induction Hrows as [|row rows Hrow Hrows IH]; intros c; cbn [try_fold map]; [done|]. rewrite !res_bind_Ok.
  intros (c1 & Hc1 & Hf). exists c1. split; [|by apply IH]. unfold insert_detection_row. by rewrite (proj2 (Z.ltb_ge _ _)).
Qed.

Definition response_rows (responses : option (EvidencePage ResponseAuditRow)) : list ResponseAuditRow :=
  match responses with Some page => pg_rows page | None => [] end.
Record catalog_of (bundle : EvidenceBundle) (responses : option (EvidencePage ResponseAuditRow)) (c : Catalog) : Prop := {
  co_lists : lists (catalog_rows bundle (response_rows responses)) c;
  co_within : Forall (within bundle) (catalog_rows bundle (response_rows responses));
  co_scope : ca_from_ms c = Some (eb_from_ms bundle) /\ ca_to_ms c = Some (eb_to_ms bundle);
  co_legacy : ca_legacy c = false;
  co_incomplete : ca_incomplete c = pg_truncated (eb_files bundle) || pg_truncated (eb_detections bundle) || pg_truncated (eb_processes bundle)
                                    || match responses with Some page => pg_truncated page | None => true end;
  co_coverage : Forall printable (ca_coverage c);
}.

Definition honest {T} (page : EvidencePage T) : bool :=
  (zlen (pg_rows page) <=? 10000) && (zlen (pg_rows page) <=? pg_total_rows page)
  && Bool.eqb (pg_truncated page) (zlen (pg_rows page) <? pg_total_rows page).
Lemma catalog_page_spec {T} name (page : EvidencePage T) c :
  catalog_page name page c
  = if honest page
    then Ok (mkCatalog (ca_entries c) (ca_from_ms c) (ca_to_ms c) (ca_incomplete c || pg_truncated page) (ca_legacy c)
               (ca_coverage c ++ [name +:+ ": " +:+ pretty (zlen (pg_rows page)) +:+ "/" +:+ pretty (pg_total_rows page) +:+ "건"]))
    else Err (invalid "근거 조회 건수·누락 표시가 일치하지 않습니다").
Proof.
  unfold catalog_page, honest. cbv zeta. rewrite !Z.leb_antisym.
  by destruct (10000 <? _), (pg_total_rows page <? _), (Bool.eqb _ _).
Qed.
Lemma coverage_printable name (n m : Z) : printable name -> printable (name +:+ ": " +:+ pretty n +:+ "/" +:+ pretty m +:+ "건").
Proof.
  intros Hn. destruct (pretty_printable n) as [N1 N2], (pretty_printable m) as [M1 M2].
  apply printable_app; [done| |by rewrite orb_comm]. apply printable_app; [done| |done]. apply printable_app; [done| |by rewrite orb_comm].
  apply printable_app; [done| |done]. apply printable_app; [done|done|by rewrite orb_comm].
Qed.

Lemma lists_nil from to : lists [] (mkCatalog ∅ from to false false []).
Proof.
  split; [constructor|]. intros index citation. cbn [ca_entries]. rewrite lookup_empty. split; [done|]. by intros (? & ?%elem_of_nil & _).
Qed.
Lemma lists_entries rows c c' : ca_entries c' = ca_entries c -> lists rows c -> lists rows c'.
Proof. unfold lists. by intros ->. Qed.

Lemma catalog_evidence_Ok bundle responses c : catalog_evidence bundle responses = Ok c -> catalog_of bundle responses c.
Proof.
  unfold catalog_evidence. rewrite guard_bind_Ok. intros [_ Hc]. rewrite catalog_page_spec in Hc.
  destruct (honest (eb_files bundle)); [|done]. cbn [res_bind] in Hc. rewrite catalog_page_spec in Hc.
  destruct (honest (eb_detections bundle)); [|done]. cbn [res_bind] in Hc. rewrite catalog_page_spec in Hc.
  destruct (honest (eb_processes bundle)); [|done]. cbn [res_bind ca_entries ca_from_ms ca_to_ms ca_incomplete ca_legacy ca_coverage app] in Hc.
  set (start := mkCatalog _ _ _ _ _ _) in Hc.
  assert (lists [] start) as H0 by (eapply lists_entries, (lists_nil None None); done).
  assert (Forall printable (ca_coverage start)) as P0 by (unfold start; cbn; repeat (constructor; [by apply coverage_printable|]); constructor).
  apply res_bind_Ok in Hc as (c1 & Hf & Hc). destruct (insert_rows _ _ _ _ _ H0 Hf) as (W1 & H1 & S1).
  apply res_bind_Ok in Hc as (c2 & Hd & Hc). apply insert_detections in Hd. destruct (insert_rows _ _ _ _ _ H1 Hd) as (W2 & H2 & S2).
  apply res_bind_Ok in Hc as (c3 & Hp & Hc). destruct (insert_rows _ _ _ _ _ H2 Hp) as (W3 & H3 & S3). cbn [app] in H3.
  assert (same_scope start c3) as S by (unfold same_scope in *; congruence). unfold same_scope in S. injection S as F1 F2 F3 F4 F5.
  destruct responses as [page|].
  - rewrite catalog_page_spec in Hc. destruct (honest page); [|done]. cbn [res_bind] in Hc.
    match type of Hc with try_fold _ _ ?c4 = _ => pose proof (lists_entries _ c3 c4 eq_refl H3) as H3' end.
    destruct (insert_rows _ _ _ _ _ H3' Hc) as (W4 & H4 & S4).
    unfold same_scope in S4. injection S4 as G1 G2 G3 G4 G5. cbn in G1, G2, G3, G4, G5.
    split; cbn [response_rows]; [exact H4|unfold catalog_rows; by rewrite !Forall_app|by rewrite G1, G2, F1, F2|by rewrite G4, F4|by rewrite G3, F3|].
    rewrite G5, F5. apply Forall_app. split; [done|]. constructor; [by apply coverage_printable|done].
  - injection Hc as <-. split; cbn [response_rows ca_from_ms ca_to_ms ca_legacy ca_incomplete ca_coverage].
    + unfold catalog_rows. cbn [map]. by rewrite app_nil_r.
    + unfold catalog_rows. by rewrite !Forall_app.
    + by rewrite F1, F2.
    + by rewrite F4.
    + by rewrite orb_true_r.
    + rewrite F5. apply Forall_app. split; [done|]. by constructor.
Qed.

Lemma catalog_evidence_works bundle responses :
  eb_from_ms bundle <= eb_to_ms bundle <= i64_max ->
  honest (eb_files bundle) && honest (eb_detections bundle) && honest (eb_processes bundle)
  && match responses with Some page => honest page | None => true end = true ->
  Forall (within bundle) (catalog_rows bundle (response_rows responses)) ->
  Forall (fun row => 0 <= dw_timestamp_ms row) (pg_rows (eb_detections bundle)) ->
  NoDup (map row_index (catalog_rows bundle (response_rows responses))) ->
  exists c, catalog_evidence bundle responses = Ok c.
Proof.
  intros [Hr1 Hr2] Hh Hw Hneg Hd. rewrite !andb_true_iff in Hh. destruct Hh as [[[Hh1 Hh2] Hh3] Hh4].
  unfold catalog_evidence. rewrite (proj2 (Z.ltb_ge _ _) Hr1), (proj2 (Z.ltb_ge _ _) Hr2). cbn [orb guard res_bind].
  rewrite catalog_page_spec, Hh1. cbn [res_bind]. rewrite catalog_page_spec, Hh2. cbn [res_bind]. rewrite catalog_page_spec, Hh3. cbn [res_bind].
  set (start := mkCatalog _ _ _ _ _ _).
  assert (lists [] start) as H0 by (eapply lists_entries, (lists_nil None None); done).
  unfold catalog_rows in Hw, Hd. rewrite !Forall_app in Hw. destruct Hw as [[[W1 W2] W3] W4].
  assert (forall a b, NoDup (map row_index (a ++ b)) -> NoDup (map row_index a)) as Hpre
    by (intros a b; rewrite map_app; by intros (? & _)%NoDup_app).
  pose proof (Hpre _ _ Hd) as D3. pose proof (Hpre _ _ D3) as D2. pose proof (Hpre _ _ D2) as D1.
  destruct (insert_rows_work [] _ bundle start H0 W1 D1) as [c1 E1]. destruct (insert_rows _ _ _ _ _ H0 E1) as (_ & L1 & _).
  destruct (insert_rows_work _ _ bundle c1 L1 W2 D2) as [c2 E2]. destruct (insert_rows _ _ _ _ _ L1 E2) as (_ & L2 & _).
  destruct (insert_rows_work _ _ bundle c2 L2 W3 D3) as [c3 E3]. destruct (insert_rows _ _ _ _ _ L2 E3) as (_ & L3 & _).
  apply insert_detections_work in E2; [|done]. rewrite E1. cbn [res_bind]. rewrite E2. cbn [res_bind]. rewrite E3. cbn [res_bind].
  destruct responses as [page|]; [|by eexists]. rewrite catalog_page_spec, Hh4. cbn [res_bind].
  eapply insert_rows_work; [|done|done]. by apply (lists_entries _ c3).
Qed.

(** * Main results *)

Section Grounded.
Context `{Libs : BrainLibs}.

Definition all_claims (answer : Answer) : list Claim := an_facts answer ++ an_inferences answer ++ an_unknowns answer.
Record claim_sound (c : Catalog) (index : nat) (claim : Claim) : Prop := {
  ck_text : trim_is_empty (cl_text claim) = false /\ slen (cl_text claim) <= 16000 /\ any_control text_break (cl_text claim) = false;
  ck_size : zlen (cl_evidence claim) <= 32;
  ck_based : (index < 2)%nat -> cl_evidence claim <> [] /\ cl_absence_claim claim = false;
  ck_read : index = 0%nat -> ca_legacy c = false;
  ck_cited : Forall (fun citation => ca_entries c !! (ci_kind citation, ci_id citation) = Some citation) (cl_evidence claim);
}.
Record answer_ok (c : Catalog) (answer : Answer) : Prop := {
  ak_count : 0 < zlen (all_claims answer) <= 64;
  ak_facts : Forall (claim_sound c 0) (an_facts answer);
  ak_inferences : Forall (claim_sound c 1) (an_inferences answer);
  ak_unknowns : Forall (claim_sound c 2) (an_unknowns answer);
}.
(** The entries are filed under their kind and number. *)
Definition filed (c : Catalog) : Prop :=
  forall index citation, ca_entries c !! index = Some citation -> index = (ci_kind citation, ci_id citation).

Lemma lists_filed rows c : lists rows c -> filed c.
Proof. intros [_ Hl] index citation. rewrite Hl. intros ([[[kind id] t] pid] & _ & <- & <-). done. Qed.

Lemma check_citation_Ok c citation :
  filed c -> check_citation c citation = Ok tt <-> ca_entries c !! (ci_kind citation, ci_id citation) = Some citation.
Proof.
  intros Hf. unfold check_citation. rewrite ok_or_bind_Ok. setoid_rewrite guard_Ok. setoid_rewrite orb_false_iff.
  setoid_rewrite negb_false_iff. setoid_rewrite String.eqb_eq. setoid_rewrite bool_decide_eq_true. split.
  - intros (actual & Ha & Hh & Ht). rewrite Ha. pose proof (Hf _ _ Ha) as Hk. injection Hk as Hk Hid. f_equal.
    destruct actual, citation. cbn in *. by subst.
  - intros Ha. by exists citation.
Qed.
Lemma check_claim_Ok c index claim : filed c -> check_claim c index claim = Ok tt <-> claim_sound c index claim.
Proof.
  intros Hf. unfold check_claim. rewrite !guard_bind_Ok, try_each_Ok, !orb_false_iff, !Z.ltb_ge, !andb_false_iff, !orb_false_iff, !Z.eqb_neq.
  rewrite Nat.ltb_ge, !Nat.eqb_neq.
  assert (forall l : list Citation, zlen l <> 0 <-> l <> []) as Hz
    by (intros [|x l]; [done|]; split; [done|]; intros _; unfold zlen; cbn; lia). rewrite Hz.
  assert (Forall (fun a => check_citation c a = Ok tt) (cl_evidence claim)
          <-> Forall (fun citation => ca_entries c !! (ci_kind citation, ci_id citation) = Some citation) (cl_evidence claim)) as ->
    by (split; intros Hx; (eapply Forall_impl; [exact Hx|]); intros x; cbn; by apply check_citation_Ok).
  split.
  - intros ([[[T1 T2] T3] T4] & G1 & G2 & G3 & G4). split; try done; intros Hi; [split|]; destruct index as [|[|index]]; naive_solver lia.
  - intros [(T1 & T2 & T3) T4 G1 G2 G3]. split_and!; try done; destruct index as [|[|index]]; naive_solver lia.
Qed.
Lemma check_answer_Ok c answer : filed c -> check_answer c answer = Ok tt <-> answer_ok c answer.
Proof.
  intros Hf. unfold check_answer. cbv zeta. rewrite guard_bind_Ok, try_each_Ok, !Forall_cons, Forall_nil. cbn [fst snd].
  rewrite !try_each_Ok, orb_false_iff, Z.eqb_neq, Z.ltb_ge.
  assert (forall i l, Forall (fun a => check_claim c i a = Ok tt) l <-> Forall (claim_sound c i) l) as Hc
    by (intros i l; split; intros Hx; (eapply Forall_impl; [exact Hx|]); intros x; cbn; by apply check_claim_Ok).
  rewrite !Hc. assert (zlen (all_claims answer) = zlen (an_facts answer) + zlen (an_inferences answer) + zlen (an_unknowns answer)) as Hn
    by (unfold all_claims, zlen; rewrite !length_app; lia).
  assert (0 <= zlen (all_claims answer)) as H0 by apply zlen_nonneg. rewrite <- Hn. split.
  - intros ([? ?] & ? & ? & ? & _). split; try done. lia.
  - intros [? ? ? ?]. split_and!; try done; lia.
Qed.

Lemma validate_render_Ok c raw output :
  filed c -> validate_render c raw = Ok output <-> exists answer, parse_answer raw = Some answer /\ answer_ok c answer /\ output = render c answer.
Proof.
  intros Hf. unfold validate_render. rewrite ok_or_bind_Ok. setoid_rewrite res_bind_Ok. split.
  - intros (answer & Hp & [] & Ha & [= <-]). exists answer. split; [done|]. split; [by apply check_answer_Ok|done].
  - intros (answer & Hp & Ha & ->). exists answer. split; [done|]. exists tt. split; [by apply check_answer_Ok|done].
Qed.

Lemma claim_lines_printable rows c index claims :
  lists rows c -> Forall (claim_sound c index) claims -> Forall printable (map render_claim claims).
Proof.
  intros Hl Hc. rewrite Forall_map. eapply Forall_impl; [exact Hc|]. intros claim [(_ & _ & Ht) _ _ _ He]. apply claim_printable; [done|].
  eapply Forall_impl; [exact He|]. intros citation Hx. apply (proj2 Hl) in Hx as ([[[kind id] t] pid] & _ & _ & <-). done.
Qed.
Lemma section_printable rows c index title claims :
  lists rows c -> printable title -> Forall (claim_sound c index) claims -> Forall printable (section_lines title claims).
Proof.
  intros Hl Ht Hc. unfold section_lines. constructor; [done|]. constructor; [done|]. apply Forall_app. split; [|by eapply claim_lines_printable].
  destruct (zlen claims =? 0); repeat constructor.
Qed.
Lemma scope_printable c : printable (scope_line c).
Proof.
  unfold scope_line. destruct (ca_from_ms c) as [from|]; [|done]. destruct (ca_to_ms c) as [to|]; [|done].
  destruct (pretty_printable from) as [F1 F2], (pretty_printable to) as [T1 T2]. apply printable_app; [done| |done].
  apply printable_app; [done| |by rewrite orb_comm]. apply printable_app; [done| |done]. apply printable_app; [done|done|by rewrite orb_comm].
Qed.
Lemma answer_printable rows c answer :
  lists rows c -> Forall printable (ca_coverage c) -> answer_ok c answer -> Forall printable (answer_lines c answer).
Proof.
  intros Hl Hc [_ Hf Hi Hu]. unfold answer_lines. rewrite !Forall_app. split_and!.
  - constructor; [apply scope_printable|]. constructor; [by apply concat_printable|].
    constructor; [unfold notice; by destruct (ca_incomplete c)|by repeat constructor].
  - by eapply section_printable.
  - by eapply section_printable.
  - by eapply section_printable.
Qed.

(** ** What leaves the host *)

(** A provider meets one address, fixed headers and a bounded body. *)
Lemma requests_confined provider provider' e request :
  (forall body, slen body <= MAX_REQUEST_BYTES ->
     provider (mkHttpPost (te_endpoint e) (headers e) body) = provider' (mkHttpPost (te_endpoint e) (headers e) body)) ->
  send provider e request = send provider' e request.
Proof.
  intros Heq. unfold send. destruct (payload e request) as [body|]; [|done]. cbn [ok_or res_bind].
  destruct (Z.ltb_spec MAX_REQUEST_BYTES (slen body)); [done|]. cbn [guard res_bind]. by rewrite Heq.
Qed.
(** By default Ollama gets no key, and Anthropic always gets one. *)
Lemma from_config_keys env config e :
  from_config env config = Ok e ->
  trim_is_empty (te_model e) = false
  /\ (ai_provider config = "ollama" -> ai_api_key_env config = "" -> headers e = [("content-type", "application/json")])
  /\ (ai_provider config = "anthropic" -> te_api_key e <> "").
Proof.
  unfold from_config. rewrite guard_bind_Ok. intros [_ Hc]. apply guard_bind_Ok in Hc as [Hm Hc]. apply guard_bind_Ok in Hc as [_ Hc].
  apply guard_bind_Ok in Hc as [Hk Hc]. apply ok_or_bind_Ok in Hc as ([[scheme username] password] & _ & Hc).
  apply guard_bind_Ok in Hc as [_ Hc]. apply guard_bind_Ok in Hc as [_ Hc]. injection Hc as <-. cbn [te_model te_api_key]. split_and!; [done| |].
  - intros Hp He. unfold headers, is_ollama. cbn [te_provider te_api_key]. by rewrite Hp, He.
  - intros Hp. rewrite Hp in *. cbn [String.eqb andb] in Hk |- *. by apply String.eqb_neq in Hk.
Qed.

(** ** The rows behind a citation *)

Definition in_store (st st' : AgentStore) (kind : Kind) (id timestamp pid : Z) : Prop :=
  match kind with
  | Files => exists r, (id, r) ∈ table_of (as_file_events st) /\ fr_timestamp_ms r = timestamp /\ fr_pid r = pid
  | Detections => exists d, es_detections (as_events st) !! id = Some d /\ detection_timestamp d = timestamp /\ d_pid d = pid
  | Processes => exists e, (id, e) ∈ table_of (as_process_events st) /\ pe_timestamp_ms e = timestamp /\ pe_pid e = pid
  | Responses => exists a, (id, a) ∈ table_of (as_responses st') /\ ra_timestamp_ms a = timestamp /\ ra_pid a = pid
  | Context => False
  end.
(** The citation is that of a row that the stores hold and the query selects. *)
Definition cites (st st' : AgentStore) (query : EvidenceQuery) (citation : Citation) : Prop :=
  ci_host citation = "local" /\ exists timestamp pid,
    ci_timestamp_ms citation = Some timestamp /\ in_store st st' (ci_kind citation) (ci_id citation) timestamp pid
    /\ eq_from_ms query <= timestamp <= eq_to_ms query /\ (forall selected, eq_pid query = Some selected -> selected = pid).

Lemma decode_fields r row :
  decode_file_event r = Ok row ->
  row_id row = r.1 /\ fe_timestamp_ms (row_event row) = fr_timestamp_ms r.2 /\ fe_pid (row_event row) = fr_pid r.2.
Proof.
  destruct r as [id r]. unfold decode_file_event. intros Hd. apply ok_or_bind_Ok in Hd as (action & _ & Hd).
  do 3 (apply guard_bind_Ok in Hd as [_ Hd]). by injection Hd as <-.
Qed.

Lemma catalog_row_recorded st st' query bundle responses row :
  0 <= eq_limit query -> query_evidence st query = Ok bundle -> response_results st' query = Ok responses ->
  row ∈ catalog_rows bundle (pg_rows responses) -> within bundle row -> cites st st' query (row_citation row).
Proof.
  intros H0 Hq Hr Hin Hw. apply query_evidence_Ok in Hq as (_ & [= E1 E2 E3] & Pf & Pd & Pp); [|done].
  apply response_results_Ok in Hr as [_ Pr]; [|done]. destruct row as [[[kind id] t] pid]. unfold within in Hw. rewrite E1, E2, E3 in Hw.
  split; [done|]. exists t, pid. cbn [row_citation ci_timestamp_ms ci_kind ci_id]. split; [done|]. split; [|tauto]. clear Hw.
  unfold catalog_rows in Hin. rewrite !elem_of_app in Hin. destruct Hin as [[[Hin|Hin]|Hin]|Hin]; apply list_elem_of_fmap in Hin as (row & Heq & Hrow).
  - destruct (page_row _ _ _ _ _ _ _ Pf Hrow) as ([i r] & Htab & _ & Hdec). apply decode_fields in Hdec as (Hi & Ht & Hp). cbn in Hi, Ht, Hp.
    unfold file_entry in Heq. rewrite Hi, Ht, Hp in Heq. simplify_eq. by exists r.
  - destruct (page_row _ _ _ _ _ _ _ Pd Hrow) as ([i d] & Htab & _ & [= <-]). apply detection_table_elem in Htab.
    unfold detection_entry, detection_row in Heq. cbn in Heq. simplify_eq. by exists d.
  - destruct (page_row _ _ _ _ _ _ _ Pp Hrow) as ([i e] & Htab & _ & [= <-]). unfold process_entry in Heq. cbn in Heq. simplify_eq. by exists e.
  - destruct (page_row _ _ _ _ _ _ _ Pr Hrow) as ([i a] & Htab & _ & [= <-]). unfold response_entry in Heq. cbn in Heq. simplify_eq. by exists a.
Qed.

(** The text of the reply to a request: one POST to the endpoint, answered with a
    status of success. *)
Definition replied (provider : Provider) (e : ThreatExplainer) (request : MessagesRequest) (raw : string) : Prop :=
  exists body reply, payload e request = Some body
    /\ provider (mkHttpPost (te_endpoint e) (headers e) body) = Ok reply
    /\ 200 <= hr_status reply <= 299 /\ reply_text e (hr_bytes reply) = Ok (Some raw).
(** The catalog of an investigation, and the answer that the provider gave to it. *)
Definition answered (provider : Provider) (e : ThreatExplainer) (question : string) (bundle : EvidenceBundle)
    (responses : EvidencePage ResponseAuditRow) (c : Catalog) (answer : Answer) : Prop :=
  catalog_evidence bundle (Some responses) = Ok c
  /\ exists listed json audit raw,
    prompt c = Ok listed /\ bundle_json bundle = Some json /\ responses_json responses = Some audit
    /\ replied provider e
         (mkMessagesRequest (te_model e) 2048 answer_contract
            [mkChatMessage "user"
               ((ln "[조회 근거 JSON]" +:+ ln json +:+ ln "[대응 결과 감사]" +:+ ln audit +:+ ln "[질문]" +:+ question)
                +:+ String newline (ln "[앱이 검증한 인용 목록과 조회 범위]") +:+ listed)]) raw
    /\ parse_answer raw = Some answer.

Lemma answered_unique provider e question bundle responses c answer c' answer' :
  answered provider e question bundle responses c answer -> answered provider e question bundle responses c' answer' ->
  c = c' /\ answer = answer'.
Proof.
  intros (Hc & listed & json & audit & raw & Hl & Hj & Ha & (body & reply & Hb & Hr & _ & Ht) & Hp).
  intros (Hc' & listed' & json' & audit' & raw' & Hl' & Hj' & Ha' & (body' & reply' & Hb' & Hr' & _ & Ht') & Hp').
  assert (c = c') as <- by congruence. assert (listed = listed') as <- by congruence.
  assert (json = json') as <- by congruence. assert (audit = audit') as <- by congruence.
  assert (body = body') as <- by congruence. assert (reply = reply') as <- by congruence.
  assert (raw = raw') as <- by congruence. split; congruence.
Qed.

Lemma send_replied provider e request raw : send provider e request = Ok raw -> replied provider e request raw.
Proof.
  unfold send, replied. intros Hs. apply ok_or_bind_Ok in Hs as (body & Hb & Hs). apply guard_bind_Ok in Hs as [_ Hs].
  apply res_bind_Ok in Hs as (reply & Hr & Hs). apply res_bind_Ok in Hs as (bytes & Hbytes & Hs). apply res_bind_Ok in Hs as (text & Ht & Hs).
  apply ok_or_Ok in Hs. destruct text as [text|]; [|done]. cbn in Hs. destruct (negb (trim_is_empty text)); [|done]. injection Hs as ->.
  exists body, reply. split; [done|]. split; [by destruct (provider _); simplify_eq|].
  unfold read_reply in Hbytes. do 3 (apply guard_bind_Ok in Hbytes as [_ Hbytes]). apply guard_bind_Ok in Hbytes as [Hstatus [= <-]].
  apply orb_false_iff in Hstatus as [H1 H2]. apply Z.ltb_ge in H1, H2. done.
Qed.

(** What an investigation shows. *)
Lemma investigation_Ok provider e question bundle responses output :
  ask_investigation provider e question bundle responses = Ok output ->
  exists c answer, answered provider e question bundle responses c answer /\ catalog_of bundle (Some responses) c
    /\ answer_ok c answer /\ output = render c answer.
Proof.
  unfold ask_investigation. intros Ha. apply res_bind_Ok in Ha as (c & Hc & Ha). apply ok_or_bind_Ok in Ha as (json & Hj & Ha).
  apply ok_or_bind_Ok in Ha as (audit & Hu & Ha). unfold send_validated in Ha. apply res_bind_Ok in Ha as (listed & Hl & Ha).
  apply guard_bind_Ok in Ha as [_ Ha]. apply res_bind_Ok in Ha as (raw & Hraw & Ha). pose proof (catalog_evidence_Ok _ _ _ Hc) as Hof.
  apply validate_render_Ok in Ha as (answer & Hp & Hok & ->); [|by eapply lists_filed, co_lists]. exists c, answer.
  split; [|done]. split; [done|]. exists listed, json, audit, raw. split_and!; try done. by apply send_replied in Hraw.
Qed.
Lemma claims_cited c answer claim citation :
  answer_ok c answer -> claim ∈ all_claims answer -> citation ∈ cl_evidence claim ->
  ca_entries c !! (ci_kind citation, ci_id citation) = Some citation.
Proof.
  intros [_ Hf Hi Hu] Hin Hc. unfold all_claims in Hin. rewrite !elem_of_app in Hin. rewrite Forall_forall in Hf, Hi, Hu.
  destruct Hin as [Hin|[Hin|Hin]]; [apply Hf in Hin|apply Hi in Hin|apply Hu in Hin]; destruct Hin as [_ _ _ _ He];
    rewrite Forall_forall in He; by apply He.
Qed.
Lemma cited_row c bundle responses answer claim citation :
  catalog_of bundle responses c -> answer_ok c answer -> claim ∈ all_claims answer -> citation ∈ cl_evidence claim ->
  exists row, row ∈ catalog_rows bundle (response_rows responses) /\ within bundle row /\ citation = row_citation row.
Proof.
  intros [[_ Hl] Hw _ _ _ _] Ha Hcl Hci. pose proof (claims_cited _ _ _ _ Ha Hcl Hci) as He.
  apply Hl in He as (row & Hrow & _ & <-). exists row. split_and!; [done| |done]. rewrite Forall_forall in Hw. by apply Hw.
Qed.

(** C8: Whatever the provider answers, what an investigation shows is its answer, grounded
    in the database, and cannot imitate anything else. The answer is the one that the
    reply to the one request holds; the text consists of exactly the lines of the scope,
    the coverage and the three sections with the claims of that answer, one line per
    claim, none with a control character; each of its facts and inferences names evidence
    and claims no absence; each of its citations, also of what is unknown, names a row
    that the database holds, with its number, host and time, within the period and the
    process that were asked for; and missing rows are announced. *)
Theorem shown_answer_grounded provider e question st st' query bundle responses output :
  0 <= eq_limit query -> query_evidence st query = Ok bundle -> response_results st' query = Ok responses ->
  ask_investigation provider e question bundle responses = Ok output ->
  exists c answer,
    answered provider e question bundle responses c answer
    /\ split_at newline output = answer_lines c answer ++ [""] /\ Forall printable (answer_lines c answer)
    /\ (ca_incomplete c = false <-> pg_truncated (eb_files bundle) = false /\ pg_truncated (eb_detections bundle) = false
                                    /\ pg_truncated (eb_processes bundle) = false /\ pg_truncated responses = false)
    /\ (forall claim, claim ∈ an_facts answer ++ an_inferences answer -> cl_evidence claim <> [] /\ cl_absence_claim claim = false)
    /\ (forall claim citation, claim ∈ an_facts answer ++ an_inferences answer ++ an_unknowns answer ->
          citation ∈ cl_evidence claim -> cites st st' query citation).
Proof.
  intros H0 Hq Hr Ha. destruct (investigation_Ok _ _ _ _ _ _ Ha) as (c & answer & Hans & Hof & Hok & ->). exists c, answer.
  assert (Forall printable (answer_lines c answer)) as Hp by (eapply answer_printable; [apply Hof|apply Hof|done]).
  split_and!; [done| |done| | |].
  - rewrite render_lines. apply split_at_unlines. eapply Forall_impl; [exact Hp|]. apply printable_no_newline.
  - destruct Hof as [_ _ _ _ -> _]. rewrite !orb_false_iff. tauto.
  - destruct Hok as [_ Hf Hi _]. rewrite Forall_forall in Hf, Hi. intros claim [Hcl|Hcl]%elem_of_app; [apply Hf in Hcl|apply Hi in Hcl];
      destruct Hcl as [_ _ Hb _ _]; apply Hb; lia.
  - intros claim citation Hcl Hci. destruct (cited_row _ _ _ _ _ _ Hof Hok Hcl Hci) as (row & Hrow & Hw & ->).
    by eapply catalog_row_recorded.
Qed.

(** ** What the query returns is accepted *)

Lemma honest_page {R T} (timestamp pid : R -> Z) (decode : Z * R -> result T StorageError) table query page :
  eq_limit query <= 10000 -> page_of timestamp pid decode table query page -> honest page = true.
Proof.
  intros Hl (Hn & Ht & Htr)%page_counts. unfold honest. rewrite (proj2 (Z.leb_le _ _)) by lia. rewrite (proj2 (Z.leb_le _ _)) by done.
  cbn [andb]. rewrite Htr. by destruct (_ <? _).
Qed.

Lemma page_entries {R T} (timestamp pid : R -> Z) (decode : Z * R -> result T StorageError) table query page bundle kind (entry : T -> Row) :
  page_of timestamp pid decode table query page ->
  (eb_from_ms bundle, eb_to_ms bundle, eb_pid bundle) = (eq_from_ms query, eq_to_ms query, eq_pid query) ->
  eq_from_ms query <= i64_max -> eq_to_ms query <= i64_max ->
  NoDup (map fst table) -> (forall r, r ∈ table -> 0 < r.1) ->
  (forall r t, decode r = Ok t -> row_index (entry t) = (kind, r.1)) ->
  (forall r t, r ∈ table -> eq_from_ms query <= timestamp r.2 -> decode r = Ok t -> entry t = (kind, r.1, timestamp r.2, pid r.2)) ->
  Forall (within bundle) (map entry (pg_rows page)) /\ NoDup (map row_index (map entry (pg_rows page)))
  /\ Forall (fun row => (row_index row).1 = kind) (map entry (pg_rows page)).
Proof.
  intros Hp [= E1 E2 E3] Hfrom Hto Hd Hpos Hindex Hentry. split_and!.
  - rewrite Forall_map, Forall_forall. intros t Ht. destruct (page_row _ _ _ _ _ _ _ Hp Ht) as (r & Hr & Hm & Hdec).
    unfold matches in Hm. rewrite !as_i64_small in Hm by done. rewrite !andb_true_iff, !Z.leb_le in Hm. destruct Hm as [[M1 M2] M3].
    rewrite (Hentry _ _ Hr M1 Hdec). unfold within. rewrite E1, E2, E3. split_and!; [by apply Hpos|done|done|].
    intros selected Hs. rewrite Hs in M3. cbn in M3. by apply Z.eqb_eq in M3.
  - apply (NoDup_fmap_1 snd). change (snd <$> ?l) with (map snd l). rewrite !map_map.
    eapply (page_rows_nodup _ _ _ (fun t => (row_index (entry t)).2)); [|done|done]. intros r t Hdec. by rewrite (Hindex _ _ Hdec).
  - rewrite Forall_map, Forall_forall. intros t Ht. destruct (page_row _ _ _ _ _ _ _ Hp Ht) as (r & _ & _ & Hdec). by rewrite (Hindex _ _ Hdec).
Qed.

Lemma kinds_nodup (a b : list Row) (kind : Kind) :
  NoDup (map row_index a) -> NoDup (map row_index b) ->
  Forall (fun row => (row_index row).1 <> kind) a -> Forall (fun row => (row_index row).1 = kind) b -> NoDup (map row_index (a ++ b)).
Proof.
  intros Ha Hb Hna Hnb. rewrite map_app. apply NoDup_app. split_and!; [done| |done].
  intros index (x & -> & Hx)%list_elem_of_fmap (y & Heq & Hy)%list_elem_of_fmap. rewrite Forall_forall in Hna, Hnb.
  apply (Hna x Hx). rewrite Heq. by apply Hnb.
Qed.

Lemma as_i64_in_range x from : 0 <= from <= as_i64 x -> x <= u64_max -> as_i64 x = x.
Proof. unfold as_i64, u64_max. destruct (Z.leb_spec x i64_max); [done|]. unfold i64_max in *. lia. Qed.

(** Every extract of the database can be explained: whatever the query returns is
    accepted as a catalog, with and without the responses, and each answer that keeps
    to the contract over this catalog is shown. *)
Theorem every_extract_citable `{Json : DetectionJson} st st' query bundle responses :
  event_store_ok (as_events st) -> Forall (fun e => pe_timestamp_ms e <= u64_max) (as_process_events st) ->
  Forall (fun a => ra_timestamp_ms a <= u64_max) (as_responses st') -> 0 <= eq_from_ms query -> 0 <= eq_limit query ->
  query_evidence st query = Ok bundle -> response_results st' query = Ok responses ->
  (exists c, catalog_evidence bundle None = Ok c) /\
  exists c, catalog_evidence bundle (Some responses) = Ok c
    /\ forall raw answer, parse_answer raw = Some answer -> answer_ok c answer -> validate_render c raw = Ok (render c answer).
Proof.
  intros Hst Hpe Hra Hfrom H0 Hq Hr. apply query_evidence_Ok in Hq as ((Hrange & Hlimit) & E & Pf & Pd & Pp); [|done].
  apply response_results_Ok in Hr as [_ Pr]; [|done].
  destruct (page_entries _ _ _ _ _ _ bundle Files file_entry Pf E) as (Wf & Nf & Kf); [lia|lia|apply table_of_nodup|apply table_of_elem| | |].
  { intros r t (Hi & _)%decode_fields. unfold file_entry. by rewrite Hi. }
  { intros r t _ _ (Hi & Ht & Hp)%decode_fields. unfold file_entry. by rewrite Hi, Ht, Hp. }
  destruct (page_entries _ _ _ _ _ _ bundle Detections detection_entry Pd E) as (Wd & Nd & Kd); [lia|lia|apply detection_table_nodup| | | |].
  { intros r Hin%detection_table_elem. by eapply eo_detections in Hin as [? _]. }
  { by intros r t [= <-]. }
  { by intros r t _ _ [= <-]. }
  destruct (page_entries _ _ _ _ _ _ bundle Processes process_entry Pp E) as (Wp & Np & Kp); [lia|lia|apply table_of_nodup|apply table_of_elem| | |].
  { by intros r t [= <-]. }
  { intros r t [_ Hin]%table_of_elem Ht [= <-]. rewrite Forall_forall in Hpe. unfold process_timestamp in *.
    rewrite (as_i64_in_range _ (eq_from_ms query)); [done|done|by apply Hpe]. }
  destruct (page_entries _ _ _ _ _ _ bundle Responses response_entry Pr E) as (Wr & Nr & Kr); [lia|lia|apply table_of_nodup|apply table_of_elem| | |].
  { by intros r t [= <-]. }
  { intros r t [_ Hin]%table_of_elem Ht [= <-]. rewrite Forall_forall in Hra.
    rewrite (as_i64_in_range _ (eq_from_ms query)); [done|done|by apply Hra]. }
  injection E as E1 E2 E3. destruct Hlimit as [_ Hl].
  pose proof (honest_page _ _ _ _ _ _ Hl Pf) as Of. pose proof (honest_page _ _ _ _ _ _ Hl Pd) as Od.
  pose proof (honest_page _ _ _ _ _ _ Hl Pp) as Op. pose proof (honest_page _ _ _ _ _ _ Hl Pr) as Or.
  assert (forall page, (page = None \/ page = Some responses) -> exists c, catalog_evidence bundle page = Ok c) as Hall.
  { intros page Hpage. apply catalog_evidence_works; [lia| | | |].
    - rewrite Of, Od, Op. by destruct Hpage as [-> | ->].
    - unfold catalog_rows. rewrite !Forall_app. split; [done|]. destruct Hpage as [-> | ->]; [constructor|done].
    - rewrite Forall_map in Wd. eapply Forall_impl; [exact Wd|]. intros row. unfold within, detection_entry. lia.
    - assert (forall k k' rows, k <> k' -> Forall (fun row => (row_index row).1 = k) rows -> Forall (fun row => (row_index row).1 <> k') rows) as Hk
        by (intros k k' rows Hne Hrows; eapply Forall_impl; [exact Hrows|]; cbn; congruence).
      unfold catalog_rows. apply (kinds_nodup _ _ Responses); [|destruct Hpage as [-> | ->]; [constructor|done]| |destruct Hpage as [-> | ->]; [constructor|done]].
      + apply (kinds_nodup _ _ Processes); [apply (kinds_nodup _ _ Detections)| |rewrite Forall_app; split|]; try done; by (eapply Hk; [|done]).
      + rewrite !Forall_app. split_and!; by (eapply Hk; [|done]). }
  split; [apply Hall; by left|]. destruct (Hall (Some responses)) as [c Hc]; [by right|]. exists c. split; [done|].
  intros raw answer Hp Hok. apply validate_render_Ok; [by eapply lists_filed, co_lists, catalog_evidence_Ok|]. by exists answer.
Qed.

End Grounded.

(** * Questions about a run of the agent *)

Section Asked.
Context `{RustStd} `{Json : DetectionJson} `{!DetectionJsonLaws} {W : Type} `{ProcessLaws W} `{Libs : BrainLibs}.

Definition selects (query : EvidenceQuery) (pid : Z) : Prop := forall selected, eq_pid query = Some selected -> selected = pid.
(** What a citation of each kind stands for: a row of the databases before the run, or
    something of the run. *)
Definition happened (s0 : W * Agent) (steps : list AgentStep) (w : W) (a : Agent) (query : EvidenceQuery) (citation : Citation) : Prop :=
  cites (ag_store s0.2) (ag_store s0.2) query citation \/
  match ci_kind citation with
  | Files => exists event, event ∈ assessed s0 steps
      /\ ci_timestamp_ms citation = Some (as_i64 (fe_timestamp_ms event)) /\ selects query (fe_pid event)
  | Detections => exists d, d ∈ raised s0 steps /\ es_detections (as_events (ag_store a)) !! ci_id citation = Some d
      /\ ci_timestamp_ms citation = Some (detection_timestamp d) /\ selects query (d_pid d)
  | Processes => exists e ok, ProcessArrives e ok ∈ steps
      /\ ci_timestamp_ms citation = Some (pe_timestamp_ms e) /\ selects query (pe_pid e)
  | Responses => exists row, (ci_id citation, row) ∈ table_of (as_responses (ag_store a))
      /\ ci_timestamp_ms citation = Some (ra_timestamp_ms row) /\ selects query (ra_pid row)
      /\ (ra_outcome row = "succeeded" -> killed w row)
  | Context => False
  end.

(** C7: What the explanation of a run cites did happen. The database of a run of an agent
    that responds, from any state and with the rows of earlier runs, is queried; a provider, whatever it
    does, gives an answer that is shown. Then each citation of that very answer names
    the local host and either a row that the databases held before the run, or: a cited
    file event is one that the engine assessed, a cited detection an alert it raised, a
    cited process an event that arrived, and a cited response that calls itself
    successful is a process that was killed and has ended. *)
Theorem cited_rows_happened a0 w0 steps w a provider e question query bundle responses output :
  ag_responds a0 = true ->
  run_collected (w0, a0) steps -> agent_run (w0, a0) steps = (w, a) -> 0 <= eq_limit query ->
  query_evidence (ag_store a) query = Ok bundle -> response_results (ag_store a) query = Ok responses ->
  ask_investigation provider e question bundle responses = Ok output ->
  exists catalog answer,
    answered provider e question bundle responses catalog answer /\
    split_at newline output = answer_lines catalog answer ++ [""] /\
    forall claim citation, claim ∈ an_facts answer ++ an_inferences answer ++ an_unknowns answer -> citation ∈ cl_evidence claim ->
      ci_host citation = "local" /\ happened (w0, a0) steps w a query citation.
Proof.
  intros Hresp Hcol Hrun H0' Hq Hr Ha. destruct (investigation_Ok _ _ _ _ _ _ Ha) as (catalog & answer & Hans & Hof & Hok & ->).
  exists catalog, answer. split; [done|]. split.
  - rewrite render_lines. apply split_at_unlines. eapply Forall_impl; [|apply printable_no_newline].
    eapply answer_printable; [apply Hof|apply Hof|done].
  - intros claim citation Hcl Hci. destruct (cited_row _ _ _ _ _ _ Hof Hok Hcl Hci) as (row & Hrow & Hw & ->).
    destruct (catalog_row_recorded _ _ _ _ _ _ H0' Hq Hr Hrow Hw) as (Hhost & t & pid & Ht & Hrec & Hperiod & Hsel). split; [done|].
    assert (in_store (ag_store a0) (ag_store a0) (ci_kind (row_citation row)) (ci_id (row_citation row)) t pid ->
            happened (w0, a0) steps w a query (row_citation row)) as Hbefore by (intros Hold; left; split; [done|]; by exists t, pid).
    unfold happened in *. destruct (ci_kind (row_citation row)) eqn:Hk; cbn [in_store] in Hrec, Hbefore; [| | | |done].
    + destruct Hrec as (r & (i & Hi & Hin)%table_of_lookup & <- & <-).
      destruct (run_file_rows steps w0 a0 w a i r Hrun Hin) as [Hold|(event & He & ->)]; [|right; by exists event].
      apply Hbefore. exists r. split; [|done]. apply table_of_lookup. by exists i.
    + destruct Hrec as (d & Hin & <- & <-).
      destruct (run_detections steps w0 a0 w a _ d Hrun Hin) as [Hold|Hd]; [apply Hbefore; by exists d|right; by exists d].
    + destruct Hrec as (x & (i & Hi & Hin)%table_of_lookup & <- & <-).
      destruct (run_process_rows steps w0 a0 w a i x Hrun Hin) as [Hold|(ok & Hx)]; [|right; by exists x, ok].
      apply Hbefore. exists x. split; [|done]. apply table_of_lookup. by exists i.
    + destruct Hrec as (x & Hin & <- & <-). pose proof Hin as (i & Hi & Hx)%table_of_lookup.
      destruct (run_rows steps w0 a0 w a (as_responses (ag_store a0)) [] Hcol Hresp Hrun) as (rows & Hrows & Hall);
        [by rewrite app_nil_r|done|]. rewrite Hrows in Hx. apply lookup_app_Some in Hx as [Hold|[_ Hnew%list_elem_of_lookup_2]].
      * apply Hbefore. exists x. split; [|done]. apply table_of_lookup. by exists i.
      * right. exists x. split_and!; [done..|]. rewrite Forall_forall in Hall. by apply Hall.
Qed.

End Asked.

(** * A provider that explains the run of the agent *)

Module Interview.
Import Simulated Scenario.
#[local] Existing Instance sample_std.
#[local] Existing Instance json.
#[local] Instance json_laws : DetectionJsonLaws := one_json_laws _.

Definition final : SimWorld * Agent := agent_run (world, agent) steps.
Definition st : AgentStore := ag_store (snd final).
Definition query : EvidenceQuery := mkEvidenceQuery 0 10000 (Some 42) 10.

(** A claim of two lines, of which the second one imitates a section. *)
Definition the_answer : Answer :=
  mkAnswer [mkClaim ("The locker was killed" +:+ String newline FACTS) [mkCitation Responses 1 "local" (Some 1001)] false]
    [mkClaim "It wrote the canary" [mkCitation Files 1 "local" (Some 1000)] false]
    [mkClaim "Nothing else" [] true].
Definition invented : Answer := mkAnswer [mkClaim "Another process was killed" [mkCitation Responses 2 "local" (Some 1001)] false] [] [].
Definition parse_reply (raw : string) : option Answer :=
  if String.eqb raw "answer" then Some the_answer else if String.eqb raw "invented" then Some invented else None.
#[local] Instance libs : BrainLibs := {|
  answer_contract := "contract";
  url_parts := fun _ => Some ("https", "", None);
  client_builds := true;
  fixed0 := fun _ => "90";
  catalog_json := fun _ _ _ coverage _ => Some (String.concat "," coverage);
  bundle_json := fun _ => Some "{}";
  responses_json := fun _ => Some "{}";
  anthropic_json := fun r => Some (String.concat "," (map cm_content (mq_messages r)));
  ollama_json := fun _ l _ => Some (String.concat "," (map cm_content l));
  parse_answer := parse_reply;
  parse_chat := fun s => Some (Some s);
  parse_blocks := fun s => Some [("thinking", "x"); ("text", s)];
|}.
Definition explainer : ThreatExplainer := mkThreatExplainer "key" "model" "anthropic" API_URL.
Definition replies (raw : string) : Provider := fun _ => Ok (mkHttpReply 200 None raw false).

Definition no_page {T} : EvidencePage T := mkEvidencePage 0 false [].
Definition bundle : EvidenceBundle := default (mkEvidenceBundle 0 0 None no_page no_page no_page) (res_ok (query_evidence st query)).
Definition responses : EvidencePage ResponseAuditRow := default no_page (res_ok (response_results st query)).
Definition shown : string := default "" (res_ok (ask_investigation (replies "answer") explainer "What happened?" bundle responses)).

Example shown_ex :
  drop 4 (split_at newline shown)
  = [""; FACTS; "- The locker was killed 확인된 사실 (AI 분류) [responses.id:1@local]";
     ""; INFERENCES; "- It wrote the canary [files.id:1@local]"; ""; UNKNOWNS; "- Nothing else"; ""].
Proof. vm_compute. reflexivity. Qed.
Example invented_ex : is_ok (ask_investigation (replies "invented") explainer "What happened?" bundle responses) = false.
Proof. vm_compute. reflexivity. Qed.

Lemma queried : query_evidence st query = Ok bundle /\ response_results st query = Ok responses.
Proof.
  split.
  - unfold bundle. destruct (query_evidence st query) eqn:E; [reflexivity|]. apply (f_equal is_ok) in E. vm_compute in E. congruence.
  - unfold responses. destruct (response_results st query) eqn:E; [reflexivity|]. apply (f_equal is_ok) in E. vm_compute in E. congruence.
Qed.
Lemma asked : ask_investigation (replies "answer") explainer "What happened?" bundle responses = Ok shown.
Proof.
  unfold shown. destruct (ask_investigation _ _ _ _ _) eqn:E; [reflexivity|]. apply (f_equal is_ok) in E. vm_compute in E. congruence.
Qed.
Lemma started : started_agent = Ok agent.
Proof. unfold agent. destruct started_agent eqn:E; [reflexivity|]. apply (f_equal is_ok) in E. vm_compute in E. congruence. Qed.
Lemma run_was_collected : run_collected (world, agent) steps.
Proof. split; [exact I|]. split; [apply event_collected|exact I]. Qed.

Lemma shown_answer_grounded_witness :
  query_evidence st query = Ok bundle /\ length (split_at newline shown) = 14%nat /\
  exists c answer, answered (replies "answer") explainer "What happened?" bundle responses c answer
    /\ split_at newline shown = answer_lines c answer ++ [""] /\ Forall printable (answer_lines c answer).
Proof.
  destruct queried as [Hq Hr]. split; [exact Hq|]. split; [vm_compute; reflexivity|].
  destruct (shown_answer_grounded (replies "answer") explainer "What happened?" st st query bundle responses shown)
    as (c & answer & Hans & Hlines & Hprint & _); [cbn; lia|exact Hq|exact Hr|exact asked|].
  exists c, answer. split; [exact Hans|]. split; [exact Hlines|exact Hprint].
Defined.

Lemma every_extract_citable_witness :
  event_store_ok (as_events st) /\ zlen (as_responses st) = 1 /\ exists c, catalog_evidence bundle (Some responses) = Ok c.
Proof.
  destruct queried as [Hq Hr].
  assert (event_store_ok (as_events st)) as Hst
    by (apply (run_store_ok steps world agent); apply event_store_new_ok).
  split; [exact Hst|]. split; [vm_compute; reflexivity|].
  assert (Forall (fun a => ra_timestamp_ms a <= u64_max) (as_responses st)) as Hra.
  { assert (map ra_timestamp_ms (as_responses st) = [1001]) as Hts by (vm_compute; reflexivity).
    destruct (as_responses st) as [|row [|row' l]]; try discriminate Hts. injection Hts as Hts.
    constructor; [|constructor]. rewrite Hts. vm_compute. discriminate. }
  destruct (every_extract_citable st st query bundle responses) as [_ (c & Hc & _)];
    [exact Hst|constructor|exact Hra|cbn; lia|cbn; lia|exact Hq|exact Hr|].
  exists c. exact Hc.
Defined.

Lemma cited_rows_happened_witness :
  started_agent = Ok agent /\ run_collected (world, agent) steps /\
  exists catalog answer, answered (replies "answer") explainer "What happened?" bundle responses catalog answer /\
    split_at newline shown = answer_lines catalog answer ++ [""] /\
    forall claim citation, claim ∈ an_facts answer ++ an_inferences answer ++ an_unknowns answer -> citation ∈ cl_evidence claim ->
      happened (world, agent) steps (fst final) (snd final) query citation.
Proof.
  split; [exact started|]. split; [exact run_was_collected|]. destruct queried as [Hq Hr].
  destruct (cited_rows_happened agent world steps (fst final) (snd final) (replies "answer") explainer
              "What happened?" query bundle responses shown) as (catalog & answer & Hans & Hlines & Hall);
    [vm_compute; reflexivity|exact run_was_collected|apply surjective_pairing|cbn; lia|exact Hq|exact Hr|exact asked|].
  exists catalog, answer. split; [exact Hans|]. split; [exact Hlines|]. intros claim citation Hcl Hci. destruct (Hall claim citation Hcl Hci) as [_ Hh]. exact Hh.
Defined.

End Interview.
