(* ===== verification/Central.v ===== *)
(** The central server (crates/argos-central/src/main.rs): registration of
    agents, heartbeats, ingestion of detections with deduplication, the lists,
    and the validation of its tokens. A request is its decoded JSON body and
    its Authorization header; axum and SQLite are outside. *)
From Stdlib Require Import ZArith Lia Ascii.
From stdpp Require Import base gmap strings list sorting.
From S2P Require Import Prelude F64 RustPath Common.
#[local] Open Scope Z_scope.

Record AppState := mkAppState {
  ap_token : string;
  ap_agent_tokens : gmap string string;
  ap_development : bool;
}.

Record RegisterRequest := mkRegisterRequest {
  rq_agent_id : string;
  rq_hostname : string;
  rq_tags : list string;
}.

Record DetectionReport := mkDetectionReport {
  dr_delivery_id : option string;
  dr_agent_id : string;
  dr_timestamp_ms : Z;
  dr_rule : string;
  dr_score : f64;
  dr_severity : string;
  dr_summary : string;
  dr_pid : Z;
  dr_paths : list string;
}.

Record HeartbeatRequest := mkHeartbeatRequest {
  hb_agent_id : string;
  hb_sensor_healthy : bool;
  hb_outbox_pending : Z;
  hb_failed_attempts : Z;
}.

(** A row of [agents]; its key is the agent ID. *)
Record AgentRow := mkAgentRow {
  ag_hostname : string;
  ag_tags : list string;
  ag_registered_at_ms : Z;
  ag_last_seen_ms : Z;
  ag_sensor_healthy : option bool;
  ag_outbox_pending : Z;
  ag_failed_attempts : Z;
  ag_last_heartbeat_ms : option Z;
}.

(** [detections] only grows: the row with ID n is the n-th of the list. *)
Record CentralDb := mkCentralDb {
  cd_agents : gmap string AgentRow;
  cd_detections : list DetectionReport;
}.
Definition CentralDb_new : CentralDb := mkCentralDb ∅ [].

Record AgentInfo := mkAgentInfo {
  ai_agent_id : string;
  ai_row : AgentRow;
  ai_detection_count : Z;
  ai_status : string;
}.

Record DetectionInfo := mkDetectionInfo {
  di_agent_id : string;
  di_timestamp_ms : Z;
  di_rule : string;
  di_score : f64;
  di_severity : string;
  di_summary : string;
}.
Definition detection_info (r : DetectionReport) : DetectionInfo :=
  mkDetectionInfo (dr_agent_id r) (dr_timestamp_ms r) (dr_rule r) (dr_score r) (dr_severity r) (dr_summary r).

Inductive StatusCode : Set :=
| BAD_REQUEST | UNAUTHORIZED | NOT_FOUND | INTERNAL_SERVER_ERROR.

(** * Tokens *)

Inductive AuthConfigError : Set :=
| DevelopmentListen | DevelopmentTokens | TokensRequired | TokensInvalid.

(** The loop over the agents' tokens; [seen] starts with the administrator's. *)
Fixpoint check_tokens (seen : list string) (tokens : list (string * string)) : result unit AuthConfigError :=
  match tokens with
  | [] => Ok tt
  | (id, token) :: tokens' =>
      let? _ := guard (trim_is_empty id || trim_is_empty token || str_mem token seen) TokensInvalid in
      check_tokens (token :: seen) tokens'
  end.

Definition validate_auth_config (loopback : bool) (state : AppState) : result unit AuthConfigError :=
  if ap_development state then
    let? _ := guard (negb loopback) DevelopmentListen in
    guard (negb (String.eqb (ap_token state) "") || negb (bool_decide (ap_agent_tokens state = ∅)))
      DevelopmentTokens
  else
    let? _ := guard (trim_is_empty (ap_token state) || bool_decide (ap_agent_tokens state = ∅)) TokensRequired in
    check_tokens [ap_token state] (map_to_list (ap_agent_tokens state)).

(** [authorization]: the header, when it is there and printable. *)
Definition bearer (authorization : option string) : string :=
  default "" (v ← authorization;
              if str_starts_with "Bearer " v
              then Some (String.substring 7 (String.length v - 7) v) else None).

Definition authorize (state : AppState) (authorization : option string) : result unit StatusCode :=
  guard (negb (ap_development state
               || negb (String.eqb (ap_token state) "") && String.eqb (bearer authorization) (ap_token state)))
    UNAUTHORIZED.

Definition authorize_agent (state : AppState) (authorization : option string) (agent_id : string)
    : result unit StatusCode :=
  let? _ := guard (trim_is_empty agent_id) BAD_REQUEST in
  if ap_development state then Ok tt
  else match ap_agent_tokens state !! agent_id with
       | Some token =>
           guard (negb (negb (String.eqb token "") && String.eqb (bearer authorization) token)) UNAUTHORIZED
       | None => Err UNAUTHORIZED
       end.

(** * Handlers *)

(** A statement or a COMMIT that fails is an internal error. *)
Definition respond (db db' : CentralDb) (c : commit_outcome) : CentralDb * result unit StatusCode :=
  commit_with INTERNAL_SERVER_ERROR c db db' tt.

Definition with_agents (db : CentralDb) agents : CentralDb := mkCentralDb agents (cd_detections db).

Definition registered_row (old : option AgentRow) (req : RegisterRequest) (now : Z) : AgentRow :=
  match old with
  | None => mkAgentRow (rq_hostname req) (rq_tags req) now now None 0 0 None
  | Some row =>
      mkAgentRow (rq_hostname req) (rq_tags req) (ag_registered_at_ms row) now (ag_sensor_healthy row)
        (ag_outbox_pending row) (ag_failed_attempts row) (ag_last_heartbeat_ms row)
  end.

Definition register_agent (state : AppState) (db : CentralDb) (authorization : option string)
    (req : RegisterRequest) (now : Z) (c : commit_outcome) : CentralDb * result unit StatusCode :=
  match authorize_agent state authorization (rq_agent_id req) with
  | Err e => (db, Err e)
  | Ok _ =>
      let row := registered_row (cd_agents db !! rq_agent_id req) req (as_i64 now) in
      respond db (with_agents db (<[rq_agent_id req := row]> (cd_agents db))) c
  end.

Definition seen_row (row : AgentRow) (now : Z) : AgentRow :=
  mkAgentRow (ag_hostname row) (ag_tags row) (ag_registered_at_ms row) now (ag_sensor_healthy row)
    (ag_outbox_pending row) (ag_failed_attempts row) (ag_last_heartbeat_ms row).

(** The unique index on (agent_id, delivery_id) where delivery_id is not NULL. *)
Definition same_delivery (a b : DetectionReport) : bool :=
  match dr_delivery_id a, dr_delivery_id b with
  | Some i, Some j => String.eqb i j && String.eqb (dr_agent_id a) (dr_agent_id b)
  | _, _ => false
  end.

(** INSERT .. ON CONFLICT DO NOTHING. *)
Definition insert_report (rows : list DetectionReport) (report : DetectionReport) : list DetectionReport :=
  if existsb (same_delivery report) rows then rows else rows ++ [report].

Definition bad_report (report : DetectionReport) : bool :=
  (i64_max <? dr_timestamp_ms report) || negb (f_is_finite (dr_score report))
  || negb (f_in_range (f_of_Z 0) (f_of_Z 100) (dr_score report))
  || is_some_and (dr_delivery_id report) (fun id => String.eqb id "" || (128 <? slen id)).

Definition ingest_detection (state : AppState) (db : CentralDb) (authorization : option string)
    (report : DetectionReport) (now : Z) (c : commit_outcome) : CentralDb * result unit StatusCode :=
  match (let? _ := authorize_agent state authorization (dr_agent_id report) in
         let? _ := guard (bad_report report) BAD_REQUEST in
         guard (negb (is_some (cd_agents db !! dr_agent_id report))) NOT_FOUND) with
  | Err e => (db, Err e)
  | Ok _ =>
      respond db
        (mkCentralDb (alter (fun row => seen_row row (as_i64 now)) (dr_agent_id report) (cd_agents db))
           (insert_report (cd_detections db) report)) c
  end.

Definition heartbeat_row (row : AgentRow) (req : HeartbeatRequest) (now : Z) : AgentRow :=
  mkAgentRow (ag_hostname row) (ag_tags row) (ag_registered_at_ms row) now (Some (hb_sensor_healthy req))
    (hb_outbox_pending req) (hb_failed_attempts req) (Some now).

Definition heartbeat (state : AppState) (db : CentralDb) (authorization : option string)
    (req : HeartbeatRequest) (now : Z) (c : commit_outcome) : CentralDb * result unit StatusCode :=
  match (let? _ := authorize_agent state authorization (hb_agent_id req) in
         guard ((i64_max <? hb_outbox_pending req) || (i64_max <? hb_failed_attempts req)) BAD_REQUEST) with
  | Err e => (db, Err e)
  | Ok _ =>
      match cd_agents db !! hb_agent_id req with
      | Some row =>
          respond db
            (with_agents db (<[hb_agent_id req := heartbeat_row row req (as_i64 now)]> (cd_agents db))) c
      | None => (db, match c with Committed => Err NOT_FOUND | CommitFailed _ => Err INTERNAL_SERVER_ERROR end)
      end
  end.

(** * Lists *)

Definition i64_min : Z := -9223372036854775808.
Definition agent_status (last_seen now : Z) : string :=
  let age := Z.max 0 (Z.max i64_min (Z.min i64_max (now - last_seen))) in
  if age <=? 60000 then "online" else if age <=? 120000 then "stale" else "offline".

Definition count_detections (db : CentralDb) (agent_id : string) : Z :=
  zlen (List.filter (fun r => String.eqb (dr_agent_id r) agent_id) (cd_detections db)).

(** ORDER BY last_seen_ms DESC. *)
Definition list_agents (state : AppState) (db : CentralDb) (authorization : option string) (now : Z)
    : result (list AgentInfo) StatusCode :=
  let? _ := authorize state authorization in
  Ok (map (fun kv => mkAgentInfo kv.1 kv.2 (count_detections db kv.1)
                       (agent_status (ag_last_seen_ms kv.2) (as_i64 now)))
        (sort_by (fun kv => - ag_last_seen_ms kv.2) (map_to_list (cd_agents db)))).

Definition list_detections (state : AppState) (db : CentralDb) (authorization : option string) (limit : Z)
    : result (list DetectionInfo) StatusCode :=
  let? _ := authorize state authorization in
  Ok (map detection_info (take (Z.to_nat (clamp limit 1 1000)) (reverse (cd_detections db)))).

(** Any request that changes the database. *)
Inductive Request : Type :=
| RegisterAgent (req : RegisterRequest)
| Heartbeat (req : HeartbeatRequest)
| IngestDetection (req : DetectionReport).

Definition request_agent (req : Request) : string :=
  match req with
  | RegisterAgent req => rq_agent_id req
  | Heartbeat req => hb_agent_id req
  | IngestDetection req => dr_agent_id req
  end.

Definition handle (state : AppState) (db : CentralDb) (authorization : option string) (req : Request)
    (now : Z) (c : commit_outcome) : CentralDb * result unit StatusCode :=
  match req with
  | RegisterAgent req => register_agent state db authorization req now c
  | Heartbeat req => heartbeat state db authorization req now c
  | IngestDetection req => ingest_detection state db authorization req now c
  end.

(** * Configuration *)

(** What the server asks of its tokens. *)
Definition auth_config_valid (loopback : bool) (state : AppState) : Prop :=
  if ap_development state then loopback = true /\ ap_token state = "" /\ ap_agent_tokens state = ∅
  else trim_is_empty (ap_token state) = false /\ ap_agent_tokens state <> ∅
    /\ (forall id token, ap_agent_tokens state !! id = Some token ->
          trim_is_empty id = false /\ trim_is_empty token = false /\ token <> ap_token state)
    /\ (forall i j token, ap_agent_tokens state !! i = Some token ->
          ap_agent_tokens state !! j = Some token -> i = j).

Lemma check_tokens_Ok (tokens : list (string * string)) : forall seen : list string,
  check_tokens seen tokens = Ok tt <->
  Forall (fun kv => trim_is_empty kv.1 = false /\ trim_is_empty kv.2 = false /\ kv.2 ∉ seen) tokens
  /\ NoDup (map snd tokens).
Proof.
  induction tokens as [|[id token] tokens IH]; intros seen; cbn [check_tokens map].
  { split; [intros _; split; constructor|done]. }
  rewrite guard_bind_Ok, IH, !orb_false_iff, Forall_cons. cbn [fst snd].
  assert (Hm : str_mem token seen = false <-> token ∉ seen)
    by (rewrite <- str_mem_spec; destruct (str_mem token seen); split; congruence).
  rewrite Hm, NoDup_cons, !Forall_forall. setoid_rewrite not_elem_of_cons. split.
  - intros (((H1 & H2) & H3) & Hall & Hnd). split_and!; try done.
    + intros kv Hkv. naive_solver.
    + intros (kv & -> & Hkv)%list_elem_of_fmap. by destruct (Hall kv Hkv) as (_ & _ & ? & _).
  - intros (((H1 & H2 & H3) & Hall) & Hnin & Hnd). split_and!; try done. intros kv Hkv.
    destruct (Hall kv Hkv) as (? & ? & ?). split_and!; try done. intros He. apply Hnin.
    apply list_elem_of_fmap. exists kv. by split.
Qed.

(** validate_auth_config accepts exactly the configurations that meet the
    stated policy: development mode only on a loopback address and without
    tokens; otherwise a token for the administrator and one for each agent,
    none of them blank, all different. *)
Theorem validate_auth_config_correct (loopback : bool) (state : AppState) :
  validate_auth_config loopback state = Ok tt <-> auth_config_valid loopback state.
Proof.
  unfold validate_auth_config, auth_config_valid. destruct (ap_development state).
  - rewrite guard_bind_Ok, guard_Ok, negb_false_iff, orb_false_iff, !negb_false_iff.
    by rewrite String.eqb_eq, bool_decide_eq_true.
  - rewrite guard_bind_Ok, orb_false_iff, bool_decide_eq_false, check_tokens_Ok, Forall_forall.
    setoid_rewrite not_elem_of_cons. split.
    + intros ((Ht & Hne) & Hall & Hnd). split_and!; try done.
      * intros id token Hk%elem_of_map_to_list. by destruct (Hall _ Hk) as (? & ? & ? & _).
      * intros i j token Hi%elem_of_map_to_list Hj%elem_of_map_to_list.
        apply list_elem_of_lookup in Hi as [n Hn], Hj as [m Hm].
        assert (n = m) as <-; [|congruence].
        eapply (NoDup_lookup (map snd (map_to_list (ap_agent_tokens state)))); [done|..];
          rewrite list_lookup_fmap; [by rewrite Hn|by rewrite Hm].
    + intros (Ht & Hne & Hall & Hinj). split_and!; try done.
      * intros [id token] Hk%elem_of_map_to_list. destruct (Hall _ _ Hk) as (? & ? & ?).
        split_and!; try done. by intros ?%elem_of_nil.
      * apply NoDup_fmap_2_strong; [|apply NoDup_map_to_list].
        intros [i t] [j u] Hi%elem_of_map_to_list Hj%elem_of_map_to_list. cbn. intros <-.
        by rewrite (Hinj _ _ _ Hi Hj).
Qed.

(** * Isolation of agents *)

Definition rows_of (db : CentralDb) (agent_id : string) : list DetectionReport :=
  List.filter (fun r => String.eqb (dr_agent_id r) agent_id) (cd_detections db).

Lemma respond_cases (db db' : CentralDb) (c : commit_outcome) (P : CentralDb -> Prop) :
  P db -> P db' -> P (respond db db' c).1.
Proof. apply commit_with_cases. Qed.

Lemma insert_report_other (rows : list DetectionReport) (report : DetectionReport) (agent_id : string) :
  dr_agent_id report <> agent_id ->
  List.filter (fun r => String.eqb (dr_agent_id r) agent_id) (insert_report rows report)
  = List.filter (fun r => String.eqb (dr_agent_id r) agent_id) rows.
Proof.
  intros Hne. unfold insert_report. destruct (existsb _ _); [done|]. rewrite List.filter_app. cbn.
  destruct (String.eqb_spec (dr_agent_id report) agent_id); [done|]. by rewrite app_nil_r.
Qed.

Lemma handle_other_agents (state : AppState) (db : CentralDb) auth (req : Request) now c (agent_id : string) :
  agent_id <> request_agent req ->
  cd_agents (handle state db auth req now c).1 !! agent_id = cd_agents db !! agent_id
  /\ rows_of (handle state db auth req now c).1 agent_id = rows_of db agent_id.
Proof.
  intros Hne. destruct req as [req|req|req]; cbn in *.
  - unfold register_agent. destruct (authorize_agent _ _ _); [|done].
    apply (respond_cases db _ c (fun db' => cd_agents db' !! agent_id = _ /\ rows_of db' agent_id = _)); [done|].
    cbn. by rewrite lookup_insert_ne.
  - unfold heartbeat. destruct (res_bind _ _); [|done]. destruct (cd_agents db !! _); [|done].
    apply (respond_cases db _ c (fun db' => cd_agents db' !! agent_id = _ /\ rows_of db' agent_id = _)); [done|].
    cbn. by rewrite lookup_insert_ne.
  - unfold ingest_detection. destruct (res_bind _ _); [|done].
    apply (respond_cases db _ c (fun db' => cd_agents db' !! agent_id = _ /\ rows_of db' agent_id = _)); [done|].
    cbn. rewrite lookup_alter_ne by done. split; [done|]. by apply insert_report_other.
Qed.

Lemma handle_unauthorized (state : AppState) (db : CentralDb) auth (req : Request) now c e :
  authorize_agent state auth (request_agent req) = Err e -> handle state db auth req now c = (db, Err e).
Proof.
  intros He. destruct req; cbn in *; [unfold register_agent|unfold heartbeat|unfold ingest_detection];
    by rewrite He.
Qed.

Lemma authorize_agent_token (state : AppState) auth (agent_id : string) :
  ap_development state = false -> authorize_agent state auth agent_id = Ok tt ->
  ap_agent_tokens state !! agent_id = Some (bearer auth) /\ bearer auth <> "".
Proof.
  unfold authorize_agent. rewrite guard_bind_Ok. intros -> [_ H].
  destruct (ap_agent_tokens state !! agent_id) as [token|]; [|done]. apply guard_Ok in H.
  apply negb_false_iff, andb_true_iff in H as [Hne He]. apply String.eqb_eq in He as ->.
  split; [done|]. by intros ->.
Qed.

(** C34: Agents are isolated from each other. With an accepted configuration
    outside development mode, whatever a request asks, only the rows of the
    agent it names can change, and only when it carries that agent's own
    token; no token is good for two agents, and the administrator's token is
    good for reading the lists only. *)
Theorem agent_isolation (state : AppState) (db : CentralDb) (auth : option string) (req : Request)
    (now : Z) (c : commit_outcome) (loopback : bool) :
  validate_auth_config loopback state = Ok tt -> ap_development state = false ->
  (forall agent_id, agent_id <> request_agent req ->
     cd_agents (handle state db auth req now c).1 !! agent_id = cd_agents db !! agent_id
     /\ rows_of (handle state db auth req now c).1 agent_id = rows_of db agent_id)
  /\ (ap_agent_tokens state !! request_agent req <> Some (bearer auth) ->
        exists e, handle state db auth req now c = (db, Err e))
  /\ (forall a b, authorize_agent state auth a = Ok tt -> authorize_agent state auth b = Ok tt -> a = b)
  /\ (authorize state auth = Ok tt -> exists e, handle state db auth req now c = (db, Err e)).
Proof.
  intros Hv Hd. apply validate_auth_config_correct in Hv. unfold auth_config_valid in Hv. rewrite Hd in Hv.
  destruct Hv as (_ & _ & Htok & Hinj).
  assert (Hun : ap_agent_tokens state !! request_agent req <> Some (bearer auth) ->
    exists e, handle state db auth req now c = (db, Err e)).
  { intros Hne. destruct (authorize_agent state auth (request_agent req)) as [[]|e] eqn:E.
    - by apply authorize_agent_token in E as [? _].
    - exists e. by apply handle_unauthorized. }
  split_and!; [by intros; apply handle_other_agents|done| |].
  - intros a b Ha%authorize_agent_token Hb%authorize_agent_token; [|done..]. naive_solver.
  - unfold authorize. rewrite Hd. intros Ha%guard_Ok. apply negb_false_iff in Ha. cbn in Ha.
    apply andb_true_iff in Ha as [_ Ha%String.eqb_eq]. apply Hun. intros Hk.
    apply Htok in Hk as (_ & _ & ?). congruence.
Qed.

(** * Deduplication *)

Lemma same_delivery_spec (a b : DetectionReport) :
  same_delivery a b = true <->
  exists i, dr_delivery_id a = Some i /\ dr_delivery_id b = Some i /\ dr_agent_id a = dr_agent_id b.
Proof.
  unfold same_delivery. destruct (dr_delivery_id a), (dr_delivery_id b); try naive_solver.
  rewrite andb_true_iff, !String.eqb_eq. naive_solver.
Qed.

(** No two rows of one agent have the same delivery ID. *)
Definition deliveries_unique (rows : list DetectionReport) : Prop :=
  forall i j a b, rows !! i = Some a -> rows !! j = Some b -> same_delivery a b = true -> i = j.

Lemma insert_report_unique (rows : list DetectionReport) (report : DetectionReport) :
  deliveries_unique rows -> deliveries_unique (insert_report rows report).
Proof.
  unfold insert_report, deliveries_unique. intros Hu. destruct (existsb _ _) eqn:E; [done|].
  apply existsb_false_Forall in E. rewrite Forall_forall in E.
  assert (Hold : forall k b, rows !! k = Some b -> same_delivery report b = true -> False).
  { intros k b Hk Hs. apply list_elem_of_lookup_2 in Hk. by rewrite (E b Hk) in Hs. }
  intros i j a b [Hi|[Hi Ha]]%lookup_app_Some [Hj|[Hj Hb]]%lookup_app_Some Hs; [by eapply Hu|..].
  - apply list_lookup_singleton_Some in Hb as [_ <-]. exfalso. eapply Hold; [exact Hi|].
    apply same_delivery_spec in Hs as (k & ? & ? & ?). apply same_delivery_spec. eauto.
  - apply list_lookup_singleton_Some in Ha as [_ <-]. exfalso. by eapply Hold.
  - apply list_lookup_singleton_Some in Ha as [Ha _], Hb as [Hb _]. lia.
Qed.

Lemma insert_report_prefix (rows : list DetectionReport) (report : DetectionReport) :
  rows `prefix_of` insert_report rows report.
Proof. unfold insert_report. destruct (existsb _ _); [done|]. by apply prefix_app_r. Qed.

(** A report with a delivery ID is there after its insertion, whoever sent it first. *)
Lemma insert_report_present (rows : list DetectionReport) (report : DetectionReport) (i : string) :
  dr_delivery_id report = Some i ->
  exists r, r ∈ insert_report rows report /\ dr_delivery_id r = Some i /\ dr_agent_id r = dr_agent_id report.
Proof.
  intros Hi. unfold insert_report. destruct (existsb _ _) eqn:E.
  - apply existsb_exists in E as (r & Hr%list_elem_of_In & (k & ? & ? & ?)%same_delivery_spec).
    exists r. split_and!; congruence.
  - exists report. split; [|done]. apply elem_of_app. right. by apply list_elem_of_singleton.
Qed.

Lemma handle_detections (state : AppState) (db : CentralDb) auth (req : Request) now c :
  cd_detections (handle state db auth req now c).1 = cd_detections db
  \/ exists report, req = IngestDetection report
     /\ cd_detections (handle state db auth req now c).1 = insert_report (cd_detections db) report.
Proof.
  destruct req as [req|req|req]; cbn.
  - left. unfold register_agent. destruct (authorize_agent _ _ _); [|done].
    by apply (respond_cases db _ c (fun db' => cd_detections db' = _)).
  - left. unfold heartbeat. destruct (res_bind _ _); [|done]. destruct (cd_agents db !! _); [|done].
    by apply (respond_cases db _ c (fun db' => cd_detections db' = _)).
  - unfold ingest_detection. destruct (res_bind _ _); [|by left].
    apply (respond_cases db _ c (fun db' => cd_detections db' = cd_detections db
      \/ exists report, IngestDetection req = IngestDetection report
         /\ cd_detections db' = insert_report (cd_detections db) report)); [by left|]. right. by exists req.
Qed.

Lemma handle_unique (state : AppState) (db : CentralDb) auth (req : Request) now c :
  deliveries_unique (cd_detections db) ->
  deliveries_unique (cd_detections (handle state db auth req now c).1)
  /\ cd_detections db `prefix_of` cd_detections (handle state db auth req now c).1.
Proof.
  intros Hu. destruct (handle_detections state db auth req now c) as [-> | (report & _ & ->)]; [done|].
  split; [by apply insert_report_unique|apply insert_report_prefix].
Qed.

Lemma respond_Ok (db db' : CentralDb) (c : commit_outcome) :
  (respond db db' c).2 = Ok tt -> (respond db db' c).1 = db'.
Proof. by destruct c. Qed.

Lemma handle_agents (state : AppState) (db : CentralDb) auth (req : Request) now c (agent_id : string) :
  is_Some (cd_agents db !! agent_id) ->
  is_Some (cd_agents (handle state db auth req now c).1 !! agent_id).
Proof.
  intros Hs. destruct req as [req|req|req]; cbn.
  - unfold register_agent. destruct (authorize_agent _ _ _); [|done].
    apply (respond_cases db _ c (fun db' => is_Some (cd_agents db' !! agent_id))); [done|]. cbn.
    apply lookup_insert_is_Some. destruct (decide (rq_agent_id req = agent_id)); auto.
  - unfold heartbeat. destruct (res_bind _ _); [|done]. destruct (cd_agents db !! hb_agent_id req); [|done].
    apply (respond_cases db _ c (fun db' => is_Some (cd_agents db' !! agent_id))); [done|]. cbn.
    apply lookup_insert_is_Some. destruct (decide (hb_agent_id req = agent_id)); auto.
  - unfold ingest_detection. destruct (res_bind _ _); [|done].
    apply (respond_cases db _ c (fun db' => is_Some (cd_agents db' !! agent_id))); [done|]. cbn.
    by rewrite lookup_alter_is_Some.
Qed.

Lemma handle_rows (state : AppState) (db : CentralDb) auth (req : Request) now c (r : DetectionReport) :
  r ∈ cd_detections (handle state db auth req now c).1 ->
  r ∈ cd_detections db \/ req = IngestDetection r.
Proof.
  destruct (handle_detections state db auth req now c) as [-> | (report & -> & ->)]; [by left|].
  unfold insert_report. destruct (existsb _ _); [by left|].
  intros [?| ->%list_elem_of_singleton]%elem_of_app; [by left|by right].
Qed.

(** Every answer of the ingestion endpoint, and what it means: accepted
    reports are stored once however often they are sent, rejected ones store
    nothing. A success says the database holds a detection with this delivery
    ID of this agent; the codes tell a blank agent ID or an invalid value, a
    wrong token, an unregistered agent and a database failure apart. *)
Theorem ingest_detection_correct (state : AppState) (db : CentralDb) (auth : option string)
    (report : DetectionReport) (now : Z) (c : commit_outcome) :
  match ingest_detection state db auth report now c with
  | (db', Ok _) =>
      authorize_agent state auth (dr_agent_id report) = Ok tt /\ bad_report report = false
      /\ is_Some (cd_agents db !! dr_agent_id report)
      /\ cd_detections db' = insert_report (cd_detections db) report
      /\ (forall i, dr_delivery_id report = Some i ->
            exists r, r ∈ cd_detections db' /\ dr_delivery_id r = Some i /\ dr_agent_id r = dr_agent_id report)
      /\ (ingest_detection state db' auth report now Committed).2 = Ok tt
      /\ (dr_delivery_id report <> None ->
            cd_detections (ingest_detection state db' auth report now Committed).1 = cd_detections db')
  | (db', Err INTERNAL_SERVER_ERROR) => c <> Committed
  | (db', Err e) =>
      db' = db
      /\ match e with
         | BAD_REQUEST => trim_is_empty (dr_agent_id report) = true \/ bad_report report = true
         | UNAUTHORIZED => authorize_agent state auth (dr_agent_id report) = Err UNAUTHORIZED
         | _ => cd_agents db !! dr_agent_id report = None
         end
  end.
Proof.
  unfold ingest_detection at 1.
  destruct (authorize_agent state auth (dr_agent_id report)) as [[]|e] eqn:Ha; cbn [res_bind].
  2: { unfold authorize_agent in Ha. destruct (trim_is_empty (dr_agent_id report)) eqn:Ht; cbn in Ha;
         [injection Ha as <-; auto|].
       destruct (ap_development state); [done|].
       destruct (ap_agent_tokens state !! dr_agent_id report) as [token|]; [|injection Ha as <-; done].
       destruct (negb _); [injection Ha as <-; done|done]. }
  destruct (bad_report report) eqn:Hb; cbn [guard res_bind]; [by auto|].
  destruct (cd_agents db !! dr_agent_id report) as [row|] eqn:Hr; cbn; [|done].
  destruct c as [|[]]; [|done..]. cbn [respond commit_with].
  assert (Hrow : forall b, (cd_agents (mkCentralDb (alter (fun row => seen_row row (as_i64 now))
    (dr_agent_id report) (cd_agents db)) b)) !! dr_agent_id report = Some (seen_row row (as_i64 now)))
    by (intros b; cbn; by rewrite lookup_alter_eq, Hr).
  split_and!; try done; [by intros i Hi; apply insert_report_present|..];
    unfold ingest_detection; rewrite Ha, Hb, Hrow; cbn; [done|].
  intros Hd. destruct (dr_delivery_id report) as [i|] eqn:Hi; [|done].
  unfold insert_report at 1. destruct (existsb _ (insert_report _ _)) eqn:E; [done|]. exfalso.
  apply existsb_false_Forall in E. rewrite Forall_forall in E.
  destruct (insert_report_present (cd_detections db) report i Hi) as (r & Hin & H1 & H2).
  specialize (E r Hin). apply not_true_iff_false in E. apply E, same_delivery_spec. exists i. by split_and!.
Qed.

(** * Instances *)

#[local] Abbreviation sample_state :=
  (mkAppState "admin" (<["a" := "ta"]> (<["b" := "tb"]> ∅)) false).
#[local] Abbreviation sample_row := (mkAgentRow "h" [] 1 1 None 0 0 None).

Lemma agent_isolation_witness :
  exists e, handle sample_state (mkCentralDb (<["a" := sample_row]> ∅) []) (Some "Bearer tb")
    (Heartbeat (mkHeartbeatRequest "a" true 0 0)) 5 Committed
    = (mkCentralDb (<["a" := sample_row]> ∅) [], Err e).
Proof.
  destruct (agent_isolation sample_state (mkCentralDb (<["a" := sample_row]> ∅) []) (Some "Bearer tb")
    (Heartbeat (mkHeartbeatRequest "a" true 0 0)) 5 Committed true) as (_ & Hun & _).
  - vm_compute. reflexivity.
  - reflexivity.
  - apply Hun. vm_compute. discriminate.
Defined.
