(* ===== verification/Reporter.v ===== *)
(** The agent's reporter (crates/argos-agent/src/reporter.rs) between the event
    database of [Outbox] and the server of [Central]: one turn of its loop,
    with every outcome the network, SQLite and the server can have, and the
    whole system - agent, reporter, server, other clients - as a sequence of
    steps. *)
From Stdlib Require Import ZArith Lia Ascii.
From stdpp Require Import base gmap strings list sorting.
From S2P Require Import Prelude F64 RustPath Common Outbox Central.
#[local] Open Scope Z_scope.

(** What the server reads of the score written by the agent: [None] when it is
    written as null. *)
Class ScoreJson := score_over_json : f64 -> option f64.

Record Timing := mkTiming {
  tm_poll : Z;
  tm_retry : Z;
  tm_max_retry : Z;
  tm_heartbeat : Z;
}.
Definition Timing_default : Timing := mkTiming 1000 1000 60000 30000.

(** The arguments of [run]. *)
Record ReporterConfig := mkReporterConfig {
  rcf_token : string;
  rcf_agent_id : string;
  rcf_hostname : string;
  rcf_timing : Timing;
}.

(** The variables of the loop; times are milliseconds of the monotonic clock. *)
Record Reporter := mkReporter {
  rp_registered : bool;
  rp_retry : Z;
  rp_next_attempt : Z;
  rp_next_heartbeat : Z;
  rp_last_health : bool;
}.
Definition Reporter_start (cfg : ReporterConfig) (now : Z) : Reporter :=
  mkReporter false (tm_retry (rcf_timing cfg)) now now true.

Record World := mkWorld {
  w_reporter : Reporter;
  w_store : EventStore;
  w_central : CentralDb;
}.
Definition with_reporter (w : World) (r : Reporter) : World := mkWorld r (w_store w) (w_central w).
Definition with_store (w : World) (st : EventStore) : World := mkWorld (w_reporter w) st (w_central w).
Definition with_central (w : World) (db : CentralDb) : World := mkWorld (w_reporter w) (w_store w) db.

(** One POST: whether the request arrives, the server's clock and COMMIT, and
    whether the answer arrives. *)
Record PostEnv := mkPostEnv {
  pe_sent : bool;
  pe_now : Z;
  pe_commit : commit_outcome;
  pe_answered : bool;
  pe_error : string;
}.

(** One turn: the health flag, the clock where the code reads it, the posts,
    and the outcome of the two writes. *)
Record TurnEnv := mkTurnEnv {
  te_now : Z;
  te_heartbeat_now : Z;
  te_heartbeat_sent : Z;
  te_end : Z;
  te_health : bool;
  te_register : PostEnv;
  te_heartbeat : PostEnv;
  te_report : PostEnv;
  te_ack : commit_outcome;
  te_failure : commit_outcome;
}.

Section Reporter.
Context `{Json : DetectionJson} `{Score : ScoreJson} (state : AppState) (cfg : ReporterConfig).

Definition authorization : option string :=
  if String.eqb (rcf_token cfg) "" then None else Some ("Bearer " +:+ rcf_token cfg).

(** The status of the answer decides; a body that is no JSON request is refused. *)
Definition post (w : World) (env : PostEnv) (req : option Request) : World * result unit string :=
  if negb (pe_sent env) then (w, Err (pe_error env))
  else
    let '(db, r) := match req with
                    | Some req => handle state (w_central w) authorization req (pe_now env) (pe_commit env)
                    | None => (w_central w, Err BAD_REQUEST)
                    end in
    (with_central w db,
     if negb (pe_answered env) then Err (pe_error env)
     else match r with Ok _ => Ok tt | Err _ => Err (pe_error env) end).

Definition delivery_body (entry : OutboxEntry) : option DetectionReport :=
  let d := oe_detection entry in
  score ← score_over_json (d_score d);
  Some {| dr_delivery_id := Some (oe_delivery_id entry); dr_agent_id := oe_agent_id entry;
          dr_timestamp_ms := d_timestamp_ms d; dr_rule := d_rule d; dr_score := score;
          dr_severity := severity_as_str (d_severity d); dr_summary := d_summary d; dr_pid := d_pid d;
          dr_paths := d_paths d |}.

Definition storage {A} (r : result A StorageError) : result A string :=
  match r with Ok a => Ok a | Err _ => Err "storage" end.

(** [?] on a step of the turn. *)
Definition and_then (r : World * result unit string) (k : World -> World * result unit string)
    : World * result unit string :=
  match r with (w, Ok _) => k w | (w, Err e) => (w, Err e) end.

Definition ensure_registered (w : World) (env : TurnEnv) : World * result unit string :=
  let rp := w_reporter w in
  if rp_registered rp then (w, Ok tt)
  else and_then
    (post w (te_register env)
       (Some (RegisterAgent (mkRegisterRequest (rcf_agent_id cfg) (rcf_hostname cfg) []))))
    (fun w => (with_reporter w (mkReporter true (rp_retry rp) (rp_next_attempt rp) (rp_next_heartbeat rp)
                                  (rp_last_health rp)), Ok tt)).

Definition send_heartbeat (w : World) (env : TurnEnv) : World * result unit string :=
  let rp := w_reporter w in
  if negb (rp_next_heartbeat rp <=? te_heartbeat_now env) && Bool.eqb (te_health env) (rp_last_health rp)
  then (w, Ok tt)
  else match storage (outbox_stats (w_store w) (rcf_agent_id cfg)) with
  | Err e => (w, Err e)
  | Ok stats =>
      and_then
        (post w (te_heartbeat env)
           (Some (Heartbeat (mkHeartbeatRequest (rcf_agent_id cfg) (te_health env) (os_pending stats)
                               (os_failed_attempts stats)))))
        (fun w => (with_reporter w (mkReporter (rp_registered rp) (rp_retry rp) (rp_next_attempt rp)
                                      (te_heartbeat_sent env + tm_heartbeat (rcf_timing cfg)) (te_health env)),
                   Ok tt))
  end.

(** One report per turn, the oldest. *)
Definition send_oldest (w : World) (env : TurnEnv) : World * result unit string :=
  match storage (pending_deliveries (w_store w) (rcf_agent_id cfg) 1) with
  | Err e => (w, Err e)
  | Ok [] => (w, Ok tt)
  | Ok (entry :: _) =>
      let '(w, r) := post w (te_report env) (IngestDetection <$> delivery_body entry) in
      match r with
      | Ok _ =>
          let '(st, r) := acknowledge_delivery (w_store w) (oe_delivery_id entry) (rcf_agent_id cfg) (te_ack env) in
          (with_store w st, storage r)
      | Err e =>
          let '(st, r) := record_delivery_failure (w_store w) (oe_delivery_id entry) (rcf_agent_id cfg) e
                            (te_failure env) in
          (with_store w st, match r with Ok _ => Err e | Err _ => Err "storage" end)
      end
  end.

Definition attempt (w : World) (env : TurnEnv) : World * result unit string :=
  and_then (ensure_registered w env) (fun w =>
  and_then (send_heartbeat w env) (fun w =>
  send_oldest w env)).

(** The loop's body before it waits. *)
Definition reporter_turn (w : World) (env : TurnEnv) : World :=
  if negb (rp_next_attempt (w_reporter w) <=? te_now env) then w
  else
    let '(w, r) := attempt w env in
    let rp := w_reporter w in
    let timing := rcf_timing cfg in
    with_reporter w
      match r with
      | Ok _ => mkReporter (rp_registered rp) (tm_retry timing) (te_end env) (rp_next_heartbeat rp)
                  (rp_last_health rp)
      | Err _ => mkReporter false (Z.min (2 * rp_retry rp) (tm_max_retry timing))
                   (te_end env + rp_retry rp) (rp_next_heartbeat rp) (rp_last_health rp)
      end.

(** How long the loop waits for a signal. *)
Definition reporter_wait (w : World) (now : Z) : Z :=
  let pending := match outbox_stats (w_store w) (rcf_agent_id cfg) with
                 | Ok stats => 0 <? os_pending stats | Err _ => false end in
  if rp_registered (w_reporter w) && pending && (rp_next_attempt (w_reporter w) <=? now) then 1
  else tm_poll (rcf_timing cfg).

(** * The system *)

Inductive SysStep : Type :=
| RecordDetection (d : Detection) (retain : bool) (delivery : string) (now : Z) (c : commit_outcome)
| AckJob (id : Z) (c : commit_outcome)
| FailJob (id : Z) (error : string) (next : Z) (c : commit_outcome)
| Turn (env : TurnEnv)
| Restart (now : Z)
| OtherClient (auth : option string) (req : Request) (now : Z) (c : commit_outcome).

Definition sys_step (w : World) (s : SysStep) : World :=
  match s with
  | RecordDetection d retain delivery now c =>
      with_store w (record_detection (w_store w) d (Some (rcf_agent_id cfg)) retain delivery now c).1
  | AckJob id c => with_store w (acknowledge_retention_job (w_store w) id c).1
  | FailJob id error next c => with_store w (record_retention_failure (w_store w) id error next c).1
  | Turn env => reporter_turn w env
  | Restart now => with_reporter w (Reporter_start cfg now)
  | OtherClient auth req now c => with_central w (handle state (w_central w) auth req now c).1
  end.
Definition sys_run (w : World) (steps : list SysStep) : World := fold_left sys_step steps w.
Definition sys_start : World := mkWorld (Reporter_start cfg 0) EventStore_new CentralDb_new.

(** * The deliveries of a history *)

(** The detections a history recorded, with the delivery IDs drawn for them:
    those whose recording succeeded, or failed and yet left its row among the
    detections of the store. Whether a report was queued plays no part. *)
Definition step_log (w : World) (s : SysStep) : list (string * Detection) :=
  match s with
  | RecordDetection d retain delivery now c =>
      let '(st, answer) := record_detection (w_store w) d (Some (rcf_agent_id cfg)) retain delivery now c in
      if is_ok answer || negb (es_detection_sequence st =? es_detection_sequence (w_store w))
      then [(delivery, d)] else []
  | _ => []
  end.
Fixpoint sys_log (w : World) (steps : list SysStep) : list (string * Detection) :=
  match steps with
  | [] => []
  | s :: steps' => step_log w s ++ sys_log (sys_step w s) steps'
  end.

Definition pending (w : World) (delivery : string) : Prop :=
  exists i row, es_outbox (w_store w) !! i = Some row /\ ob_delivery_id row = delivery.
Definition is_received (delivery : string) (r : DetectionReport) : bool :=
  bool_decide (dr_delivery_id r = Some delivery) && String.eqb (dr_agent_id r) (rcf_agent_id cfg).
(** The server's rows of a delivery of this agent. *)
Definition received (w : World) (delivery : string) : list DetectionReport :=
  List.filter (is_received delivery) (cd_detections (w_central w)).

Definition report_of (delivery : string) (d : Detection) : option DetectionReport :=
  delivery_body (mkOutboxEntry delivery (rcf_agent_id cfg) d 0).

(** * The invariant of the system *)

Record sys_ok (w : World) (log : list (string * Detection)) : Prop := mkSysOk {
  so_store : event_store_ok (w_store w);
  so_unique : deliveries_unique (cd_detections (w_central w));
  so_pending : forall i row, es_outbox (w_store w) !! i = Some row ->
    ob_agent_id row = rcf_agent_id cfg
    /\ exists d, (ob_delivery_id row, d) ∈ log /\ detection_of_json (ob_detection_json row) = Some d;
  so_known : forall delivery d, (delivery, d) ∈ log -> pending w delivery \/ received w delivery <> [];
  so_rows : forall r, r ∈ cd_detections (w_central w) -> dr_agent_id r = rcf_agent_id cfg ->
    exists delivery d, (delivery, d) ∈ log /\ report_of delivery d = Some r;
  so_registered : rp_registered (w_reporter w) = true ->
    is_Some (cd_agents (w_central w) !! rcf_agent_id cfg);
}.

Lemma received_elem (w : World) (delivery : string) (r : DetectionReport) :
  r ∈ received w delivery <->
  r ∈ cd_detections (w_central w) /\ dr_delivery_id r = Some delivery /\ dr_agent_id r = rcf_agent_id cfg.
Proof.
  unfold received, is_received. by rewrite filter_elem, andb_true_iff, bool_decide_eq_true, String.eqb_eq.
Qed.

Lemma received_not_nil (w : World) (delivery : string) :
  received w delivery <> [] <-> exists r, r ∈ cd_detections (w_central w)
    /\ dr_delivery_id r = Some delivery /\ dr_agent_id r = rcf_agent_id cfg.
Proof.
  setoid_rewrite <- received_elem. destruct (received w delivery) as [|r l]; split; try done.
  - intros [r Hr]. by apply not_elem_of_nil in Hr.
  - intros _. exists r. by left.
Qed.

Lemma report_of_fields (delivery : string) (d : Detection) (r : DetectionReport) :
  report_of delivery d = Some r -> dr_delivery_id r = Some delivery /\ dr_agent_id r = rcf_agent_id cfg.
Proof. unfold report_of, delivery_body. cbn. destruct (score_over_json _); [|done]. by intros [= <-]. Qed.

Lemma sys_start_ok : sys_ok sys_start [].
Proof.
  split; [apply event_store_new_ok|by intros ?|done|by intros ?? ?%not_elem_of_nil|by intros ? ?%not_elem_of_nil|done].
Qed.

(** The invariant does not depend on the loop's timers. *)
Lemma sys_ok_reporter (w : World) log (rp : Reporter) :
  (rp_registered rp = true -> is_Some (cd_agents (w_central w) !! rcf_agent_id cfg)) ->
  sys_ok w log -> sys_ok (with_reporter w rp) log.
Proof. intros Hr [H1 H2 H3 H4 H5 H6]. by split. Qed.

(** A request to the server keeps the invariant, unless it reports something
    for this agent that was never recorded. *)
Lemma sys_ok_handle (w : World) log auth (req : Request) now c :
  sys_ok w log ->
  (forall r, r ∈ cd_detections (handle state (w_central w) auth req now c).1 ->
     dr_agent_id r = rcf_agent_id cfg -> r ∈ cd_detections (w_central w)
     \/ exists delivery d, (delivery, d) ∈ log /\ report_of delivery d = Some r) ->
  sys_ok (with_central w (handle state (w_central w) auth req now c).1) log.
Proof.
  intros [H1 H2 H3 H4 H5 H6] Hrows.
  destruct (handle_unique state (w_central w) auth req now c H2) as [Hu [l Hp]].
  split; [done|done|done| | |].
  - intros delivery d [Hpend|Hrec]%H4; [by left|right].
    apply received_not_nil in Hrec as (r & Hr & Hd & Ha). apply received_not_nil. exists r.
    split; [|done]. cbn. rewrite Hp. apply elem_of_app. by left.
  - intros r Hr Ha. destruct (Hrows r Hr Ha) as [Hold|]; [by apply H5|done].
  - intros Hreg. by apply handle_agents, H6.
Qed.

Lemma post_cases (w : World) (env : PostEnv) (req : option Request) :
  (post w env req).1 = w
  \/ exists q, req = Some q
     /\ (post w env req).1
        = with_central w (handle state (w_central w) authorization q (pe_now env) (pe_commit env)).1.
Proof.
  unfold post. destruct (pe_sent env); [|by left]. destruct req as [q|]; cbn [negb].
  - destruct (handle _ _ _ _ _ _) as [db r] eqn:E. right. exists q. split; [done|]. cbn. by rewrite E.
  - left. by destruct w.
Qed.

Lemma post_Ok (w : World) (env : PostEnv) (req : option Request) :
  (post w env req).2 = Ok tt ->
  exists q, req = Some q
  /\ (handle state (w_central w) authorization q (pe_now env) (pe_commit env)).2 = Ok tt
  /\ (post w env req).1
     = with_central w (handle state (w_central w) authorization q (pe_now env) (pe_commit env)).1.
Proof.
  unfold post. destruct (pe_sent env); [|done]. destruct req as [q|]; cbn [negb].
  - destruct (handle _ _ _ _ _ _) as [db r] eqn:E. cbn. destruct (pe_answered env); [|done].
    destruct r as [[]|]; [|done]. intros _. exists q. by rewrite E.
  - cbn. by destruct (pe_answered env).
Qed.

(** Posts of anything but a report. *)
Lemma sys_ok_post (w : World) log (env : PostEnv) (q : Request) :
  sys_ok w log ->
  (forall r, q = IngestDetection r -> exists delivery d, (delivery, d) ∈ log /\ report_of delivery d = Some r) ->
  sys_ok (post w env (Some q)).1 log.
Proof.
  intros Hok Hq. destruct (post_cases w env (Some q)) as [-> | (q' & [= <-] & ->)]; [done|].
  apply sys_ok_handle; [done|]. intros r [Hr|He]%handle_rows _; [by left|right; by apply Hq].
Qed.

Lemma ensure_registered_ok (w : World) log (env : TurnEnv) :
  sys_ok w log ->
  sys_ok (ensure_registered w env).1 log
  /\ ((ensure_registered w env).2 = Ok tt -> rp_registered (w_reporter (ensure_registered w env).1) = true).
Proof.
  intros Hok. unfold ensure_registered. destruct (rp_registered (w_reporter w)) eqn:Hr; [done|].
  set (q := RegisterAgent _).
  assert (Hpost : sys_ok (post w (te_register env) (Some q)).1 log) by (by apply sys_ok_post).
  pose proof (post_Ok w (te_register env) (Some q)) as HOk. unfold and_then.
  destruct (post w (te_register env) (Some q)) as [w' [[]|e]]; [|done]. cbn [fst snd] in *.
  split; [|done]. apply sys_ok_reporter; [|done]. intros _.
  destruct (HOk eq_refl) as (q' & [= <-] & Hh & ->). cbn in *. revert Hh. unfold register_agent.
  destruct (authorize_agent _ _ _); [|done]. intros Hh%respond_Ok. rewrite Hh. cbn.
  rewrite lookup_insert_eq. by eexists.
Qed.

Lemma send_heartbeat_ok (w : World) log (env : TurnEnv) :
  sys_ok w log -> sys_ok (send_heartbeat w env).1 log.
Proof.
  intros Hok. unfold send_heartbeat. destruct (_ && _); [done|].
  destruct (storage _) as [stats|]; [|done]. set (q := Heartbeat _).
  assert (Hpost : sys_ok (post w (te_heartbeat env) (Some q)).1 log) by (by apply sys_ok_post).
  assert (Hreg : w_reporter (post w (te_heartbeat env) (Some q)).1 = w_reporter w)
    by (destruct (post_cases w (te_heartbeat env) (Some q)) as [-> | (q' & _ & ->)]; done).
  unfold and_then. destruct (post w (te_heartbeat env) (Some q)) as [w' [[]|e]]; [|done]. cbn [fst snd] in *.
  apply sys_ok_reporter; [|done]. cbn. rewrite <- Hreg. apply Hpost.
Qed.

Lemma pending_deliveries_one (st : EventStore) (agent_id : string) :
  pending_deliveries st agent_id 1 =
  match agent_rows st agent_id with
  | [] => Ok []
  | kv :: _ => let? entry := outbox_entry kv in Ok [entry]
  end.
Proof. unfold pending_deliveries. by destruct (agent_rows st agent_id). Qed.

(** The oldest report of the agent. *)
Lemma pending_first (st : EventStore) (agent_id : string) (entry : OutboxEntry) (l : list OutboxEntry) :
  pending_deliveries st agent_id 1 = Ok (entry :: l) ->
  exists i row, es_outbox st !! i = Some row /\ ob_agent_id row = agent_id
  /\ oe_delivery_id entry = ob_delivery_id row /\ oe_agent_id entry = agent_id
  /\ detection_of_json (ob_detection_json row) = Some (oe_detection entry).
Proof.
  unfold pending_deliveries. cbn. intros Hc%collect_Ok.
  destruct (agent_rows st agent_id) as [|[i row] rows] eqn:E; [done|]. cbn in Hc. injection Hc as He _.
  unfold outbox_entry in He. cbn in He. apply ok_or_bind_Ok in He as (d & Hd & [= <-]).
  assert (Hin : (i, row) ∈ agent_rows st agent_id) by (rewrite E; by left).
  unfold agent_rows in Hin. rewrite sort_by_perm in Hin. apply filter_elem in Hin as [Hin Ha].
  apply elem_of_map_to_list in Hin. apply String.eqb_eq in Ha. cbn in Ha. by exists i, row.
Qed.

Lemma sys_ok_store (w : World) log (st : EventStore) :
  sys_ok w log -> event_store_ok st ->
  (forall i row, es_outbox st !! i = Some row -> exists row', es_outbox (w_store w) !! i = Some row'
     /\ ob_agent_id row = ob_agent_id row' /\ ob_delivery_id row = ob_delivery_id row'
     /\ ob_detection_json row = ob_detection_json row') ->
  (forall delivery, pending w delivery -> pending (with_store w st) delivery \/ received w delivery <> []) ->
  sys_ok (with_store w st) log.
Proof.
  intros [H1 H2 H3 H4 H5 H6] Hst Hsub Hkept. split; [done|done| | |done|done].
  - intros i row Hi. destruct (Hsub i row Hi) as (row' & Hi' & -> & -> & ->). by eapply H3.
  - intros delivery d [Hp|Hr]%H4; [by apply Hkept|by right].
Qed.

Lemma sys_ok_unchanged (w : World) log (st : EventStore) :
  sys_ok w log -> event_store_ok st -> es_outbox st = es_outbox (w_store w) -> sys_ok (with_store w st) log.
Proof.
  intros Hok Hst He. apply sys_ok_store; [done|done| |].
  - intros i row Hi. exists row. by rewrite <- He.
  - intros delivery (i & row & Hi & Hd). left. exists i, row. cbn. by rewrite He.
Qed.

Lemma send_oldest_ok (w : World) log (env : TurnEnv) :
  sys_ok w log -> sys_ok (send_oldest w env).1 log.
Proof.
  intros Hok. unfold send_oldest.
  destruct (pending_deliveries _ _ 1) as [[|entry l]|e] eqn:Hp; cbn [storage]; [done| |done].
  apply pending_first in Hp as (i & row & Hi & Ha & Hd & Hag & Hj).
  destruct (so_pending _ _ Hok i row Hi) as (_ & d & Hlog & Hd').
  assert (d = oe_detection entry) as -> by congruence.
  set (req := IngestDetection <$> delivery_body entry).
  assert (Hpost : sys_ok (post w (te_report env) req).1 log).
  { unfold req. destruct (delivery_body entry) as [r|] eqn:Eb; cbn.
    - apply sys_ok_post; [done|]. intros r' [= <-]. exists (oe_delivery_id entry), (oe_detection entry).
      split; [by rewrite Hd|]. rewrite <- Eb. unfold report_of, delivery_body. cbn. by rewrite Hag.
    - destruct (post_cases w (te_report env) None) as [-> | (q & ? & _)]; done. }
  assert (Hst : w_store (post w (te_report env) req).1 = w_store w)
    by (destruct (post_cases w (te_report env) req) as [-> | (q' & _ & ->)]; done).
  pose proof (post_Ok w (te_report env) req) as HOk.
  destruct (post w (te_report env) req) as [w' [[]|e]]; cbn [fst snd] in *.
  - destruct (HOk eq_refl) as (q & Hq & Hh & Hw).
    assert (Hrec : received w' (oe_delivery_id entry) <> []).
    { unfold req in Hq. destruct (delivery_body entry) as [r|] eqn:Eb; [|done]. injection Hq as <-.
      assert (Hf : report_of (oe_delivery_id entry) (oe_detection entry) = Some r)
        by (rewrite <- Eb; unfold report_of, delivery_body; cbn; by rewrite Hag).
      apply report_of_fields in Hf as [Hf1 Hf2]. cbn in Hh, Hw.
      pose proof (ingest_detection_correct state (w_central w) authorization r (pe_now (te_report env))
        (pe_commit (te_report env))) as Hc.
      destruct (ingest_detection _ _ _ _ _ _) as [db [[]|e]]; [|done]. cbn in Hw.
      destruct Hc as (_ & _ & _ & _ & Hpres & _). destruct (Hpres _ Hf1) as (r' & Hr' & Hr1 & Hr2).
      apply received_not_nil. exists r'. rewrite Hw. cbn. split_and!; [done|done|congruence]. }
    destruct (acknowledge_delivery_ok (w_store w') (oe_delivery_id entry) (rcf_agent_id cfg) (te_ack env)
      (so_store _ _ Hpost)) as (Hsok & _ & Hout).
    destruct (acknowledge_delivery _ _ _ _) as [st r]. cbn [fst] in *.
    apply sys_ok_store; [done|done| |].
    + intros j rw Hj'. exists rw. split; [|done].
      destruct Hout as [Ho | Ho]; rewrite Ho in Hj'; [done|]. by apply map_lookup_filter_Some in Hj' as [? _].
    + intros delivery (j & rw & Hj' & Hjd). destruct Hout as [Ho | Ho]; [left; exists j, rw; cbn; by rewrite Ho|].
      destruct (is_delivery (oe_delivery_id entry) (rcf_agent_id cfg) rw) eqn:Eis.
      * right. unfold is_delivery in Eis. apply andb_true_iff in Eis as [Eis%String.eqb_eq _].
        congruence.
      * left. exists j, rw. split; [|done]. cbn. rewrite Ho. by apply map_lookup_filter_Some.
  - destruct (record_delivery_failure_ok (w_store w') (oe_delivery_id entry) (rcf_agent_id cfg) e (te_failure env)
      (so_store _ _ Hpost)) as (Hsok & _ & Hout).
    destruct (record_delivery_failure _ _ _ _ _) as [st r]. cbn [fst] in *.
    apply sys_ok_store; [done|done| |].
    + intros j rw Hj'. destruct (Hout j) as [Ho|(rw' & Ho & Ho')]; [exists rw; by rewrite <- Ho|].
      exists rw'. rewrite Ho' in Hj'. by injection Hj' as <-.
    + intros delivery (j & rw & Hj' & Hjd). left. cbn in *.
      destruct (Hout j) as [Ho|(rw' & Ho & Ho')]; [exists j, rw; cbn; by rewrite Ho|].
      exists j, (failed_row rw' e). split; [done|]. cbn. congruence.
Qed.

Lemma reporter_turn_ok (w : World) log (env : TurnEnv) :
  sys_ok w log -> sys_ok (reporter_turn w env) log.
Proof.
  intros Hok. unfold reporter_turn. destruct (rp_next_attempt _ <=? _); cbn [negb]; [|done].
  assert (Ha : sys_ok (attempt w env).1 log).
  { unfold attempt, and_then. pose proof (ensure_registered_ok w log env Hok) as [H1 _].
    destruct (ensure_registered w env) as [w1 [[]|e]]; [|done]. cbn [fst] in H1.
    pose proof (send_heartbeat_ok w1 log env H1) as H2.
    destruct (send_heartbeat w1 env) as [w2 [[]|e]]; [|done]. cbn [fst] in H2. by apply send_oldest_ok. }
  destruct (attempt w env) as [w' r]. cbn [fst] in Ha. apply sys_ok_reporter; [|done].
  destruct r; [|done]. cbn. apply Ha.
Qed.

(** * Every step keeps the invariant *)

(** The server is configured, and no other client has this agent's token. *)
Definition agent_configured : Prop :=
  (exists loopback, validate_auth_config loopback state = Ok tt) /\ ap_development state = false
  /\ ap_agent_tokens state !! rcf_agent_id cfg = Some (rcf_token cfg).
Definition foreign (s : SysStep) : Prop :=
  match s with OtherClient auth _ _ _ => bearer auth <> rcf_token cfg | _ => True end.

Lemma sys_ok_other (w : World) log auth (req : Request) now c :
  agent_configured -> bearer auth <> rcf_token cfg -> sys_ok w log ->
  sys_ok (with_central w (handle state (w_central w) auth req now c).1) log.
Proof.
  intros ((loopback & Hv) & Hdev & Htok) Hne Hok.
  destruct (decide (request_agent req = rcf_agent_id cfg)) as [He|Hna].
  - destruct (authorize_agent state auth (request_agent req)) as [[]|e] eqn:Ea.
    + apply authorize_agent_token in Ea as [Ea _]; [|done]. rewrite He in Ea. congruence.
    + rewrite (handle_unauthorized _ _ _ _ _ _ _ Ea). by destruct w.
  - apply sys_ok_handle; [done|]. intros r Hr Ha. left.
    destruct (handle_other_agents state (w_central w) auth req now c (rcf_agent_id cfg)) as [_ Hrows]; [done|].
    assert (Hin : r ∈ rows_of (handle state (w_central w) auth req now c).1 (rcf_agent_id cfg))
      by (apply filter_elem; split; [done|by apply String.eqb_eq]).
    rewrite Hrows in Hin. by apply filter_elem in Hin as [? _].
Qed.

Lemma sys_ok_record `{!DetectionJsonLaws} (w : World) log (d : Detection) retain delivery now c :
  sys_ok w log ->
  sys_ok (sys_step w (RecordDetection d retain delivery now c))
    (log ++ step_log w (RecordDetection d retain delivery now c)).
Proof.
  intros Hok. cbn [sys_step step_log].
  pose proof (record_detection_counts (w_store w) d (Some (rcf_agent_id cfg)) retain delivery now c) as Hcount.
  destruct (record_detection_ok (w_store w) d (Some (rcf_agent_id cfg)) retain delivery now c (so_store _ _ Hok))
    as (Hst & [He | (Hseq & _ & _ & _ & payload & Hp & Hnew & Hs & Hfr & Ho)]);
    destruct (record_detection _ _ _ _ _ _ _) as [st' answer]; cbn [fst snd] in *.
  - subst st'. rewrite Z.eqb_refl. destruct (is_ok answer); [specialize (Hcount eq_refl); lia|].
    cbn. rewrite app_nil_r. by destruct w.
  - rewrite Hseq, (proj2 (Z.eqb_neq _ _)), orb_true_r by lia.
    destruct Hok as [H1 H2 H3 H4 H5 H6]. split; [done|done| | | |done].
    + intros i row Hi. cbn in Hi. rewrite Ho in Hi. apply lookup_insert_Some in Hi as [[<- <-]|[_ Hi]].
      * split; [done|]. exists d. split; [apply elem_of_app; right; by apply list_elem_of_singleton|].
        cbn. by apply detection_json_roundtrip.
      * destruct (H3 i row Hi) as (? & e & ? & ?). split; [done|]. exists e. split; [|done].
        apply elem_of_app. by left.
    + intros delivery' d' [Hin|Hin]%elem_of_app.
      * destruct (H4 _ _ Hin) as [(i & row & Hi & Hd)|]; [left|by right]. exists i, row. cbn. rewrite Ho.
        split; [|done]. apply lookup_insert_Some. right. split; [congruence|done].
      * apply list_elem_of_singleton in Hin as [= -> ->]. left. eexists _, _. cbn. rewrite Ho.
        by rewrite lookup_insert_eq.
    + intros r Hr Ha. destruct (H5 r Hr Ha) as (i & e & ? & ?). exists i, e. split; [|done].
      apply elem_of_app. by left.
Qed.

Lemma sys_step_ok `{!DetectionJsonLaws} (w : World) log (s : SysStep) :
  agent_configured -> foreign s -> sys_ok w log -> sys_ok (sys_step w s) (log ++ step_log w s).
Proof.
  intros Hcfg Hf Hok. destruct s; [by apply sys_ok_record|..]; cbn [step_log sys_step]; rewrite app_nil_r.
  - destruct (acknowledge_retention_job_ok (w_store w) id c (so_store _ _ Hok)) as [Hst _].
    apply sys_ok_unchanged; [done|done|]. unfold acknowledge_retention_job.
    apply transaction_ok; [done|]. intros st' []. destruct (is_some _); by intros [= <-].
  - destruct (record_retention_failure_ok (w_store w) id error next c (so_store _ _ Hok)) as [Hst _].
    apply sys_ok_unchanged; [done|done|]. unfold record_retention_failure. destruct (_ <? next); [done|].
    apply transaction_ok; [done|]. intros st' []. destruct (es_jobs (w_store w) !! id); by intros [= <-].
  - by apply reporter_turn_ok.
  - by apply sys_ok_reporter.
  - by apply sys_ok_other.
Qed.

Lemma sys_run_ok `{!DetectionJsonLaws} (steps : list SysStep) : forall (w : World) log,
  agent_configured -> Forall foreign steps -> sys_ok w log ->
  sys_ok (sys_run w steps) (log ++ sys_log w steps).
Proof.
  induction steps as [|s steps IH]; intros w log Hcfg Hf Hok; cbn; [by rewrite app_nil_r|].
  apply Forall_cons in Hf as [Hs Hf]. rewrite app_assoc. apply IH; [done|done|]. by apply sys_step_ok.
Qed.

Lemma received_le_one (w : World) (delivery : string) :
  deliveries_unique (cd_detections (w_central w)) -> zlen (received w delivery) <= 1.
Proof.
  unfold deliveries_unique, received. generalize (cd_detections (w_central w)). intros rows Hu.
  induction rows as [|r rows IH]; [done|]. cbn.
  assert (Hu' : forall i j a b, rows !! i = Some a -> rows !! j = Some b -> same_delivery a b = true -> i = j).
  { intros i j a b Hi Hj Hs. assert (S i = S j) by (by eapply (Hu (S i) (S j) a b)). congruence. }
  specialize (IH Hu'). destruct (is_received delivery r) eqn:Er; [|done].
  destruct (List.filter (is_received delivery) rows) as [|r' l] eqn:Ef; [by unfold zlen; cbn|].
  exfalso. assert (Hin : r' ∈ r' :: l) by by left. rewrite <- Ef in Hin.
  apply filter_elem in Hin as [Hin Er']. apply list_elem_of_lookup in Hin as [j Hj].
  assert (0%nat = S j); [|done]. eapply (Hu 0%nat (S j) r r'); [done|done|].
  unfold is_received in Er, Er'. apply andb_true_iff in Er as [E1%bool_decide_eq_true E2%String.eqb_eq].
  apply andb_true_iff in Er' as [E3%bool_decide_eq_true E4%String.eqb_eq].
  apply same_delivery_spec. exists delivery. split_and!; congruence.
Qed.

(** * Progress on a working network *)

Definition post_works (env : PostEnv) : Prop :=
  pe_sent env = true /\ pe_answered env = true /\ pe_commit env = Committed.
(** The turn runs, and every call in it works. *)
Definition turn_works (w : World) (env : TurnEnv) : Prop :=
  rp_next_attempt (w_reporter w) <= te_now env
  /\ post_works (te_register env) /\ post_works (te_heartbeat env) /\ post_works (te_report env)
  /\ te_ack env = Committed.

(** The server can accept what is queued, and the numbers fit its columns. *)
Record deliverable (w : World) (log : list (string * Detection)) : Prop := mkDeliverable {
  dl_reports : forall delivery d, (delivery, d) ∈ log ->
    exists r, report_of delivery d = Some r /\ bad_report r = false;
  dl_created : forall i row, es_outbox (w_store w) !! i = Some row -> 0 <= ob_created_at_ms row;
  dl_size : Z.of_nat (size (es_outbox (w_store w))) <= i64_max;
  dl_failed : dc_failed_attempts (counters_of (w_store w) (rcf_agent_id cfg)) <= i64_max;
}.

Lemma bearer_token (token : string) : bearer (Some ("Bearer " +:+ token)) = token.
Proof.
  unfold bearer. cbn [mbind option_bind]. rewrite (str_starts_with_app "Bearer " token). cbn [default].
  rewrite string_length_app.
  replace (String.length "Bearer " + String.length token - 7)%nat with (String.length token)
    by (cbn [String.length]; lia).
  apply (substring_app_r "Bearer ").
Qed.

Lemma authorize_self : agent_configured -> authorize_agent state authorization (rcf_agent_id cfg) = Ok tt.
Proof.
  intros ((loopback & Hv) & Hdev & Htok). apply validate_auth_config_correct in Hv.
  unfold auth_config_valid in Hv. rewrite Hdev in Hv. destruct Hv as (_ & _ & Hall & _).
  destruct (Hall _ _ Htok) as (Hid & Ht & _). unfold authorize_agent. rewrite Hid, Hdev, Htok. cbn.
  unfold authorization. destruct (String.eqb_spec (rcf_token cfg) "") as [He|He]; [by rewrite He in Ht|].
  rewrite bearer_token. apply guard_Ok. by rewrite String.eqb_refl.
Qed.

(** A request the server accepts. *)
Lemma post_accepted (w : World) (env : PostEnv) (q : Request) :
  post_works env ->
  (handle state (w_central w) authorization q (pe_now env) Committed).2 = Ok tt ->
  exists db, post w env (Some q) = (with_central w db, Ok tt).
Proof.
  intros (H1 & H2 & H3) Hh. unfold post. rewrite H1, H2, H3. cbn [negb].
  destruct (handle _ _ _ _ _ _) as [db r]. cbn in Hh. subst r. by exists db.
Qed.

Lemma ensure_registered_works (w : World) (env : TurnEnv) :
  agent_configured -> post_works (te_register env) ->
  (ensure_registered w env).2 = Ok tt /\ w_store (ensure_registered w env).1 = w_store w.
Proof.
  intros Hcfg Hp. unfold ensure_registered. destruct (rp_registered _); [done|].
  destruct (post_accepted w (te_register env)
    (RegisterAgent (mkRegisterRequest (rcf_agent_id cfg) (rcf_hostname cfg) []))) as [db ->]; [done| |done].
  cbn. unfold register_agent. cbn [rq_agent_id]. by rewrite authorize_self.
Qed.

Lemma min_created (rows : list (Z * OutboxRow)) :
  (forall kv, kv ∈ rows -> 0 <= ob_created_at_ms kv.2) ->
  is_some_and (min_by_key id (map (fun kv => ob_created_at_ms kv.2) rows)) (fun t => t <? 0) = false.
Proof.
  intros H. destruct (min_by_key id _) as [t|] eqn:E; [|done]. cbn.
  apply min_by_key_elem, list_elem_of_fmap in E as (kv & -> & Hin). apply Z.ltb_ge. by apply H.
Qed.

Lemma agent_rows_size (w : World) log :
  sys_ok w log -> zlen (agent_rows (w_store w) (rcf_agent_id cfg)) = Z.of_nat (size (es_outbox (w_store w))).
Proof.
  intros Hok. unfold zlen, agent_rows. rewrite (Permutation_length (sort_by_perm _ _)).
  rewrite List.forallb_filter_id; [by rewrite length_map_to_list|]. apply forallb_forall.
  intros [i row] Hin%list_elem_of_In%elem_of_map_to_list. apply String.eqb_eq.
  by destruct (so_pending _ _ Hok i row Hin) as [? _].
Qed.

Lemma agent_rows_elem (st : EventStore) (agent_id : string) (kv : Z * OutboxRow) :
  kv ∈ agent_rows st agent_id <-> es_outbox st !! kv.1 = Some kv.2 /\ ob_agent_id kv.2 = agent_id.
Proof.
  destruct kv as [i row]. unfold agent_rows. rewrite sort_by_perm, filter_elem, elem_of_map_to_list.
  cbn. by rewrite String.eqb_eq.
Qed.

Lemma outbox_stats_works (w : World) log :
  sys_ok w log -> deliverable w log ->
  exists stats, outbox_stats (w_store w) (rcf_agent_id cfg) = Ok stats
  /\ os_pending stats <= i64_max /\ os_failed_attempts stats <= i64_max.
Proof.
  intros Hok [_ Hc Hs Hf]. unfold outbox_stats. cbn zeta. rewrite min_created.
  2: { intros kv [Hin _]%agent_rows_elem. by apply (Hc kv.1). }
  cbn. eexists. split; [done|]. cbn. by rewrite (agent_rows_size _ _ Hok).
Qed.

Lemma send_heartbeat_works (w : World) log (env : TurnEnv) :
  agent_configured -> sys_ok w log -> deliverable w log ->
  is_Some (cd_agents (w_central w) !! rcf_agent_id cfg) -> post_works (te_heartbeat env) ->
  (send_heartbeat w env).2 = Ok tt /\ w_store (send_heartbeat w env).1 = w_store w
  /\ is_Some (cd_agents (w_central (send_heartbeat w env).1) !! rcf_agent_id cfg).
Proof.
  intros Hcfg Hok Hdl [row Hrow] Hp. unfold send_heartbeat. destruct (_ && _); [by eauto|].
  destruct (outbox_stats_works w log Hok Hdl) as (stats & -> & H1 & H2). cbn [storage].
  set (q := Heartbeat _).
  destruct (post_accepted w (te_heartbeat env) q Hp) as [db Hpost].
  { cbn. unfold heartbeat. cbn [hb_agent_id hb_outbox_pending hb_failed_attempts q].
    rewrite authorize_self by done. cbn [res_bind]. rewrite Hrow.
    by destruct (Z.ltb_spec i64_max (os_pending stats)), (Z.ltb_spec i64_max (os_failed_attempts stats)); try lia. }
  assert (Hdb : is_Some (cd_agents db !! rcf_agent_id cfg)).
  { destruct (post_cases w (te_heartbeat env) (Some q)) as [He | (q' & _ & He)]; rewrite Hpost in He; cbn in He.
    - replace db with (w_central w) by (by rewrite <- He). by eexists.
    - injection He as ->. apply handle_agents. by eexists. }
  rewrite Hpost. cbn. done.
Qed.

(** Acknowledging the oldest report takes its row and no other. *)
Lemma acknowledge_oldest (st : EventStore) (i : Z) (row : OutboxRow) :
  event_store_ok st -> es_outbox st !! i = Some row ->
  let st' := (acknowledge_delivery st (ob_delivery_id row) (ob_agent_id row) Committed).1 in
  (acknowledge_delivery st (ob_delivery_id row) (ob_agent_id row) Committed).2 = Ok tt
  /\ es_outbox st' = delete i (es_outbox st)
  /\ dc_failed_attempts (counters_of st' (ob_agent_id row)) = dc_failed_attempts (counters_of st (ob_agent_id row)).
Proof.
  intros Hok Hi. cbn zeta. unfold acknowledge_delivery.
  assert (Hk : filter (fun kv : Z * OutboxRow => is_delivery (ob_delivery_id row) (ob_agent_id row) kv.2 = false)
    (es_outbox st) = delete i (es_outbox st)).
  { apply map_eq. intros j. apply option_eq. intros r. rewrite map_lookup_filter_Some, lookup_delete_Some. cbn.
    unfold is_delivery. split.
    - intros [Hr Hd]. split; [|done]. intros <-. rewrite Hi in Hr. injection Hr as <-.
      by rewrite !String.eqb_refl in Hd.
    - intros [Hne Hr]. split; [done|]. apply andb_false_iff. left. apply String.eqb_neq. intros He.
      apply Hne. by eapply (eo_unique _ Hok i j row r). }
  rewrite Hk. assert (Hsz : size (es_outbox st) = S (size (delete i (es_outbox st)))).
  { rewrite <- (insert_id (es_outbox st) i row) at 1 by done. rewrite <- insert_delete_eq.
    by rewrite map_size_insert_None by apply lookup_delete_eq. }
  rewrite Hsz. destruct (Nat.ltb_spec (size (delete i (es_outbox st))) (S (size (delete i (es_outbox st))))); [|lia].
  cbn. split_and!; try done. unfold counters_of at 1. cbn. by rewrite lookup_insert_eq.
Qed.

(** What left the queue is older than what is left. *)
Definition oldest_first (before after : gmap Z OutboxRow) : Prop :=
  after ⊆ before
  /\ forall i j, is_Some (before !! i) -> after !! i = None -> is_Some (after !! j) -> i < j.
#[global] Instance oldest_first_preorder : PreOrder oldest_first.
Proof.
  split; [intros m; split; [done|intros i j [r Hr] Hn; congruence]|].
  intros a b c [S1 O1] [S2 O2]. split; [by etrans|]. intros i j Hi Hn [r Hj].
  destruct (b !! i) eqn:Hb.
  - apply O2; [by eexists|done|by eexists].
  - apply O1; [done|done|]. exists r. by eapply lookup_weaken.
Qed.

Lemma first_row_oldest (w : World) log (i : Z) (row : OutboxRow) rows :
  sys_ok w log -> agent_rows (w_store w) (rcf_agent_id cfg) = (i, row) :: rows ->
  oldest_first (es_outbox (w_store w)) (delete i (es_outbox (w_store w))).
Proof.
  intros Hok Hrows. split; [apply delete_subseteq|]. intros k j [r Hk] Hn [rj Hj].
  assert (k = i) as ->.
  { destruct (decide (k = i)); [done|]. rewrite lookup_delete_ne in Hn by done. congruence. }
  apply lookup_delete_Some in Hj as [Hne Hj].
  pose proof (sort_by_sorted fst (List.filter (fun kv => String.eqb (ob_agent_id kv.2) (rcf_agent_id cfg))
    (map_to_list (es_outbox (w_store w))))) as Hs.
  fold (agent_rows (w_store w) (rcf_agent_id cfg)) in Hs. rewrite Hrows in Hs.
  apply StronglySorted_inv in Hs as [_ Hall]. rewrite Forall_forall in Hall.
  assert (Hin : (j, rj) ∈ agent_rows (w_store w) (rcf_agent_id cfg)).
  { apply agent_rows_elem. split; [done|]. by apply (so_pending _ _ Hok j rj). }
  rewrite Hrows in Hin. apply elem_of_cons in Hin as [[= -> ->]|Hin]; [done|].
  specialize (Hall _ Hin). change (i <= j) in Hall. lia.
Qed.

Lemma send_oldest_works (w : World) log (env : TurnEnv) :
  agent_configured -> sys_ok w log -> deliverable w log ->
  is_Some (cd_agents (w_central w) !! rcf_agent_id cfg) -> post_works (te_report env) -> te_ack env = Committed ->
  let '(w', r) := send_oldest w env in
  r = Ok tt /\ deliverable w' log
  /\ zlen (agent_rows (w_store w') (rcf_agent_id cfg))
     = Z.max 0 (zlen (agent_rows (w_store w) (rcf_agent_id cfg)) - 1)
  /\ oldest_first (es_outbox (w_store w)) (es_outbox (w_store w')).
Proof.
  intros Hcfg Hok Hdl [arow Harow] Hp Hack. pose proof (send_oldest_ok w log env Hok) as Hok'.
  destruct (agent_rows (w_store w) (rcf_agent_id cfg)) as [|[i row] rows] eqn:Erows.
  { unfold send_oldest. rewrite pending_deliveries_one, Erows. cbn. by rewrite Erows. }
  assert (Hin : (i, row) ∈ agent_rows (w_store w) (rcf_agent_id cfg)) by (rewrite Erows; by left).
  apply agent_rows_elem in Hin as [Hi Ha]. cbn in Hi, Ha.
  destruct (so_pending _ _ Hok i row Hi) as (_ & d & Hlog & Hd).
  destruct (dl_reports _ _ Hdl _ _ Hlog) as (r & Hr & Hbad).
  pose proof (report_of_fields _ _ _ Hr) as [_ Hrf].
  destruct (post_accepted w (te_report env) (IngestDetection r) Hp) as [db Hpost].
  { cbn. unfold ingest_detection. rewrite Hrf, authorize_self by done. cbn. by rewrite Hbad, Harow. }
  destruct (acknowledge_oldest (w_store w) i row (so_store _ _ Hok) Hi) as (HOk & Hdel & Hfail).
  assert (Heq : send_oldest w env
    = (with_store (with_central w db) (acknowledge_delivery (w_store w) (ob_delivery_id row) (ob_agent_id row) Committed).1,
       Ok tt)).
  { unfold send_oldest. rewrite pending_deliveries_one, Erows. unfold outbox_entry. cbn [snd]. rewrite Hd.
    cbn [ok_or res_bind storage oe_delivery_id].
    change (delivery_body _) with (delivery_body (mkOutboxEntry (ob_delivery_id row) (ob_agent_id row) d 0)).
    rewrite Ha. fold (report_of (ob_delivery_id row) d). rewrite Hr. cbn [fmap option_fmap option_map].
    rewrite Hpost, Hack, <- Ha. cbn [w_store with_central].
    destruct (acknowledge_delivery _ _ _ _) as [st res]. cbn [fst snd] in *. by subst res. }
  rewrite Heq in Hok' |- *. clear Heq. destruct (acknowledge_delivery _ _ _ _) as [st res]. cbn [fst snd] in *.
  destruct Hdl as [D1 D2 D3 D4].
  assert (Hsz : size (es_outbox (w_store w)) = S (size (es_outbox st))).
  { rewrite Hdel. rewrite <- (insert_id (es_outbox (w_store w)) i row) at 1 by done. rewrite <- insert_delete_eq.
    by rewrite map_size_insert_None by apply lookup_delete_eq. }
  split_and!; [done|split; cbn; [done| |lia|]| | ].
  - rewrite Hdel. intros j rw [_ Hj]%lookup_delete_Some. by eapply D2.
  - rewrite Ha in Hfail. by rewrite Hfail.
  - pose proof (agent_rows_size _ _ Hok) as Hl. pose proof (agent_rows_size _ _ Hok') as Hl'.
    cbn in Hl' |- *. rewrite Erows in Hl. rewrite Hl', Hl, Hsz. lia.
  - cbn. rewrite Hdel. by eapply first_row_oldest.
Qed.

Lemma deliverable_store (w w' : World) log :
  w_store w' = w_store w -> deliverable w log -> deliverable w' log.
Proof. intros He [H1 H2 H3 H4]. split; by rewrite ?He. Qed.

Definition queued (w : World) : Z := zlen (agent_rows (w_store w) (rcf_agent_id cfg)).

(** A turn in which every call works delivers one report, the oldest. *)
Lemma working_turn (w : World) log (env : TurnEnv) :
  agent_configured -> sys_ok w log -> deliverable w log -> turn_works w env ->
  deliverable (reporter_turn w env) log
  /\ queued (reporter_turn w env) = Z.max 0 (queued w - 1)
  /\ oldest_first (es_outbox (w_store w)) (es_outbox (w_store (reporter_turn w env))).
Proof.
  intros Hcfg Hok Hdl (Ht & Hp1 & Hp2 & Hp3 & Hack). unfold reporter_turn. apply Z.leb_le in Ht. rewrite Ht.
  cbn [negb]. unfold attempt.
  destruct (ensure_registered_works w env Hcfg Hp1) as [He1 Hs1].
  destruct (ensure_registered_ok w log env Hok) as [Hok1 Hreg].
  destruct (ensure_registered w env) as [w1 r1]. cbn [fst snd] in *. subst r1. cbn [and_then].
  specialize (so_registered _ _ Hok1 (Hreg eq_refl)) as Hrow.
  assert (Hdl1 : deliverable w1 log) by by eapply deliverable_store.
  destruct (send_heartbeat_works w1 log env Hcfg Hok1 Hdl1 Hrow Hp2) as (He2 & Hs2 & Hrow2).
  pose proof (send_heartbeat_ok w1 log env Hok1) as Hok2.
  destruct (send_heartbeat w1 env) as [w2 r2]. cbn [fst snd] in *. subst r2. cbn [and_then].
  assert (Hdl2 : deliverable w2 log) by by eapply deliverable_store.
  pose proof (send_oldest_works w2 log env Hcfg Hok2 Hdl2 Hrow2 Hp3 Hack) as Hw.
  destruct (send_oldest w2 env) as [w3 r3]. destruct Hw as (-> & Hdl3 & Hq & Hold).
  rewrite Hs2, Hs1 in Hold.
  split_and!; [by apply (deliverable_store w3)|unfold queued; cbn; rewrite Hq, Hs2, Hs1; done|done].
Qed.

(** The turns of the loop, each starting when the next attempt is due. *)
Fixpoint turns_work (w : World) (envs : list TurnEnv) : Prop :=
  match envs with
  | [] => True
  | env :: envs' => turn_works w env /\ turns_work (reporter_turn w env) envs'
  end.

Lemma working_turns (envs : list TurnEnv) : forall (w : World) log,
  agent_configured -> sys_ok w log -> deliverable w log -> turns_work w envs ->
  let w' := fold_left reporter_turn envs w in
  sys_ok w' log /\ queued w' = Z.max 0 (queued w - zlen envs)
  /\ oldest_first (es_outbox (w_store w)) (es_outbox (w_store w')).
Proof.
  induction envs as [|env envs IH]; intros w log Hcfg Hok Hdl Hw; cbn [fold_left].
  { split_and!; [done| |done]. unfold queued. pose proof (zlen_nonneg (agent_rows (w_store w) (rcf_agent_id cfg))).
    change (zlen (@nil TurnEnv)) with 0. lia. }
  destruct Hw as [Hw1 Hw2]. destruct (working_turn w log env Hcfg Hok Hdl Hw1) as (Hdl1 & Hq1 & Ho1).
  destruct (IH _ log Hcfg (reporter_turn_ok _ _ _ Hok) Hdl1 Hw2) as (Hok2 & Hq2 & Ho2).
  split_and!; [done| |by etrans]. rewrite zlen_cons. pose proof (zlen_nonneg envs). lia.
Qed.
Lemma turns_work_take (envs : list TurnEnv) : forall (w : World) (k : nat),
  turns_work w envs -> turns_work w (take k envs).
Proof.
  induction envs as [|env envs IH]; intros w [|k]; try done. intros [H1 H2]. split; [done|by apply IH].
Qed.

(** Once it left the queue, a recorded detection is at the server, once. *)
Lemma delivered_once (w : World) log delivery (d : Detection) :
  sys_ok w log -> (delivery, d) ∈ log -> ~ pending w delivery -> zlen (received w delivery) = 1.
Proof.
  intros Hok Hin Hnp. pose proof (received_le_one w delivery (so_unique _ _ Hok)) as Hle.
  destruct (so_known _ _ Hok _ _ Hin) as [|Hr]; [done|].
  destruct (received w delivery) as [|r l]; [done|]. rewrite zlen_cons in *. pose proof (zlen_nonneg l). lia.
Qed.

End Reporter.

(** C19: Reports are delivered exactly once. Whatever happens - requests or
    answers lost, failing COMMITs on either side, restarts of the agent,
    requests of other clients in between - each detection recorded for the
    server is still queued or has arrived, never twice, and what arrived under
    its delivery ID is this detection; the server holds nothing else in the
    agent's name. The delivery IDs are the 128 random bits the agent draws,
    taken to be different; the agent's token is its own. *)
Theorem reports_delivered_exactly_once `{Json : DetectionJson} `{Score : ScoreJson} `{!DetectionJsonLaws}
    (state : AppState) (cfg : ReporterConfig) (steps : list SysStep) :
  agent_configured state cfg -> Forall (foreign cfg) steps ->
  let w := sys_run state cfg (sys_start cfg) steps in
  let log := sys_log state cfg (sys_start cfg) steps in
  NoDup (map fst log) ->
  (forall delivery d, (delivery, d) ∈ log ->
     zlen (received cfg w delivery) <= 1
     /\ (pending w delivery \/ zlen (received cfg w delivery) = 1)
     /\ forall r, r ∈ received cfg w delivery -> report_of cfg delivery d = Some r)
  /\ (forall r, r ∈ cd_detections (w_central w) -> dr_agent_id r = rcf_agent_id cfg ->
        exists delivery d, (delivery, d) ∈ log /\ r ∈ received cfg w delivery /\ report_of cfg delivery d = Some r).
Proof.
  intros Hcfg Hf. cbn zeta. intros Hnd.
  pose proof (sys_run_ok state cfg steps (sys_start cfg) [] Hcfg Hf (sys_start_ok cfg)) as Hok. cbn [app] in Hok.
  set (w := sys_run _ _ _ _) in *. set (log := sys_log _ _ _ _) in *. split.
  - intros delivery d Hin. pose proof (received_le_one cfg w delivery (so_unique _ _ _ Hok)) as Hle.
    split_and!; [done| |].
    + destruct (so_known _ _ _ Hok _ _ Hin) as [|Hr]; [by left|right].
      destruct (received cfg w delivery) as [|r l]; [done|]. rewrite zlen_cons in *.
      pose proof (zlen_nonneg l). lia.
    + intros r (Hr & Hd & Ha)%received_elem. destruct (so_rows _ _ _ Hok r Hr Ha) as (i & e & Hie & He).
      pose proof (report_of_fields _ _ _ _ He) as [Hd' _]. assert (i = delivery) as -> by congruence.
      assert (e = d) as ->; [|done]. apply list_elem_of_lookup in Hin as [n Hn], Hie as [m Hm].
      assert (n = m) as <-; [|congruence].
      eapply (NoDup_lookup (map fst log)); [done|..]; rewrite list_lookup_fmap; [by rewrite Hn|by rewrite Hm].
  - intros r Hr Ha. destruct (so_rows _ _ _ Hok r Hr Ha) as (i & e & Hie & He). exists i, e.
    pose proof (report_of_fields _ _ _ _ He) as [Hd' _]. split_and!; [done|by apply received_elem|done].
Qed.

(** C33: The queue drains, oldest first. From any state the system can reach, when
    the network and the databases work and the server accepts what was recorded,
    every turn of the reporter delivers one report, and none before an older one:
    after any number of turns that many reports have left the queue, each older
    than all that are left, and those gone are at the server, once. After as many
    turns as reports were queued nothing is left. *)
Theorem queue_drains `{Json : DetectionJson} `{Score : ScoreJson} `{!DetectionJsonLaws}
    (state : AppState) (cfg : ReporterConfig) (steps : list SysStep) (envs : list TurnEnv) :
  agent_configured state cfg -> Forall (foreign cfg) steps ->
  let w := sys_run state cfg (sys_start cfg) steps in
  let log := sys_log state cfg (sys_start cfg) steps in
  deliverable cfg w log -> turns_work state cfg w envs ->
  (forall k, (k <= length envs)%nat ->
     let w' := fold_left (reporter_turn state cfg) (take k envs) w in
     queued cfg w' = Z.max 0 (queued cfg w - Z.of_nat k)
     /\ oldest_first (es_outbox (w_store w)) (es_outbox (w_store w'))
     /\ forall delivery d, (delivery, d) ∈ log -> ~ pending w' delivery -> zlen (received cfg w' delivery) = 1)
  /\ (queued cfg w <= zlen envs ->
      let w' := fold_left (reporter_turn state cfg) envs w in
      forall delivery d, (delivery, d) ∈ log ->
        ~ pending w' delivery /\ zlen (received cfg w' delivery) = 1).
Proof.
  intros Hcfg Hf. cbn zeta.
  pose proof (sys_run_ok state cfg steps (sys_start cfg) [] Hcfg Hf (sys_start_ok cfg)) as Hok. cbn [app] in Hok.
  set (w := sys_run _ _ _ _) in *. set (log := sys_log _ _ _ _) in *. intros Hdl Hw. split.
  - intros k Hk.
    destruct (working_turns state cfg (take k envs) w log Hcfg Hok Hdl) as (Hok' & Hq' & Ho');
      [by apply turns_work_take|].
    split_and!; [|done|intros delivery d Hin Hnp; by eapply delivered_once].
    rewrite Hq'. unfold zlen. rewrite length_take. by rewrite Nat.min_l.
  - intros Hq delivery d Hin. destruct (working_turns state cfg envs w log Hcfg Hok Hdl Hw) as (Hok' & Hq' & _).
    set (w' := fold_left _ envs w) in *.
    assert (Hempty : es_outbox (w_store w') = ∅).
    { apply map_size_empty_inv. pose proof (agent_rows_size cfg w' log Hok') as Hs. unfold queued in Hq, Hq'. lia. }
    assert (Hnp : ~ pending w' delivery).
    { intros (i & row & Hi & _). rewrite Hempty in Hi. by rewrite lookup_empty in Hi. }
    split; [done|by eapply delivered_once].
Qed.

(** * Instances *)

#[local] Abbreviation the_detection := (mkDetection 10 "rule" (f_of_Z 50) High "summary" 7 []).
#[local] Abbreviation one_detection_json := (one_json the_detection).

#[local] Abbreviation plain_score := ((fun x => Some x) : ScoreJson).
#[local] Abbreviation server := (mkAppState "admin" (<["a" := "secret"]> ∅) false).
#[local] Abbreviation agent := (mkReporterConfig "secret" "a" "host" Timing_default).
#[local] Abbreviation works := (mkPostEnv true 5 Committed true "").
#[local] Abbreviation reply_lost := (mkPostEnv true 5 Committed false "timeout").
#[local] Abbreviation turn_at report now :=
  (mkTurnEnv now now now now true works works report Committed Committed).
#[local] Abbreviation history :=
  [RecordDetection the_detection false "id-1" 3 Committed; Turn (turn_at reply_lost 10); Restart 20].

Lemma sample_configured : agent_configured server agent.
Proof. split; [exists true; vm_compute; reflexivity|]. split; [reflexivity|vm_compute; reflexivity]. Qed.

(** After the lost answer and the restart the report is sent again: it arrived once. *)
Lemma reports_delivered_exactly_once_witness :
  zlen (received agent (@sys_run one_detection_json plain_score server agent (sys_start agent)
                          (history ++ [Turn (turn_at works 2000)])) "id-1") = 1.
Proof.
  destruct (@reports_delivered_exactly_once one_detection_json plain_score (one_json_laws the_detection) server agent
              (history ++ [Turn (turn_at works 2000)])) as [H _].
  - exact sample_configured.
  - repeat constructor.
  - apply (bool_decide_unpack _). vm_compute. exact I.
  - destruct (H "id-1"%string the_detection) as (_ & [Hp|Hone] & _).
    + vm_compute. left.
    + exfalso. destruct Hp as (i & row & Hi & _). revert Hi.
      match goal with |- ?m !! _ = _ -> _ => assert (m = ∅) as -> by (vm_compute; reflexivity) end.
      rewrite lookup_empty. discriminate.
    + exact Hone.
Defined.

(** Two reports are queued; after one turn the older is at the server and the newer still queued. *)
#[local] Abbreviation two_recorded :=
  [RecordDetection the_detection false "id-1" 3 Committed; RecordDetection the_detection false "id-2" 4 Committed].
#[local] Abbreviation two_queued := (@sys_run one_detection_json plain_score server agent (sys_start agent) two_recorded).
#[local] Abbreviation after_turns envs :=
  (fold_left (@reporter_turn one_detection_json plain_score server agent) envs two_queued).

Lemma two_deliverable :
  @deliverable plain_score agent two_queued (@sys_log one_detection_json plain_score server agent (sys_start agent) two_recorded).
Proof.
  split.
  - intros delivery d Hin. vm_compute in Hin. apply elem_of_cons in Hin as [Hin|Hin%list_elem_of_singleton].
    + injection Hin as -> ->. eexists. split; [vm_compute; reflexivity|]. vm_compute. reflexivity.
    + injection Hin as -> ->. eexists. split; [vm_compute; reflexivity|]. vm_compute. reflexivity.
  - apply (bool_decide_unpack (map_Forall (fun _ row => 0 <= ob_created_at_ms row) _)).
    vm_compute. exact I.
  - vm_compute. discriminate.
  - vm_compute. discriminate.
Qed.

Lemma queue_drains_witness :
  oldest_first (es_outbox (w_store two_queued)) (es_outbox (w_store (after_turns [turn_at works 10])))
  /\ map (fun kv => ob_delivery_id kv.2) (map_to_list (es_outbox (w_store (after_turns [turn_at works 10]))))
     = ["id-2"%string]
  /\ zlen (received agent (after_turns [turn_at works 10; turn_at works 20]) "id-1") = 1.
Proof.
  destruct (@queue_drains one_detection_json plain_score (one_json_laws the_detection) server agent two_recorded
    [turn_at works 10; turn_at works 20]) as [H1 H2].
  - exact sample_configured.
  - repeat constructor.
  - exact two_deliverable.
  - split; [|split; [|exact I]]; (split; [vm_compute; discriminate|]);
      (split; [by split_and!|]; split; [by split_and!|]; split; [by split_and!|reflexivity]).
  - split; [|split].
    + exact (proj1 (proj2 (H1 1%nat ltac:(cbn; lia)))).
    + vm_compute. reflexivity.
    + refine (proj2 (H2 _ "id-1"%string the_detection _)); [vm_compute; discriminate|vm_compute; left].
Defined.
