(* ===== verification/RetentionWorker.v ===== *)
(** The agent's retention worker (run_retention of
    crates/argos-agent/src/backup_worker.rs): it takes the retention jobs of
    the event database ([Outbox]) and pins, in the backup store ([Retention]),
    the good versions of the files of each detection. *)
From Stdlib Require Import ZArith Lia Ascii.
From stdpp Require Import base gmap strings list sorting pretty.
From S2P Require Import Prelude F64 RustPath Common Outbox Backup Retention.
#[local] Open Scope Z_scope.

(** [Display] of the recovery errors. *)
Class RecoveryDisplay := recovery_message : RecoveryError -> string.

(** What processing one job meets: per path, whether a stop is requested, the
    clock and COMMIT of the pinning; then the clock and COMMIT of the result. *)
Record PathEnv := mkPathEnv {
  pn_stop : bool;
  pn_now : Z;
  pn_commit : commit_outcome;
}.
Record JobEnv := mkJobEnv {
  je_stop : bool;
  je_paths : nat -> PathEnv;
  je_now : Z;
  je_commit : commit_outcome;
}.

Section Worker.
Context `{Json : DetectionJson} `{Hash : ContentHash} `{Display : RecoveryDisplay}.

Definition incident_of (job : RetentionJob) : string := "detection-" +:+ pretty (jb_detection_id job).

(** The loop over the paths, which goes on after an error and keeps the last
    one; [None] when a stop is requested. *)
Fixpoint pin_paths (bk : BackupStore) (job : RetentionJob) (paths : list string) (env : nat -> PathEnv)
    (failure : option string) : BackupStore * option (option string) :=
  match paths with
  | [] => (bk, Some failure)
  | path :: paths' =>
      if pn_stop (env 0%nat) then (bk, None)
      else
        let '(bk, r) := pin_known_good_before bk path (d_timestamp_ms (jb_detection job)) (incident_of job)
                          "argos-agent" "탐지 이전 정상 복구 지점 자동 보존"
                          (pn_now (env 0%nat)) (pn_commit (env 0%nat)) in
        pin_paths bk job paths' (fun n => env (S n))
          match r with Err error => Some (recovery_message error) | Ok _ => failure end
  end.

Definition retry_delay_ms (attempts : Z) : Z :=
  Z.min (sat_mul 1000 (Z.shiftl 1 (Z.min attempts 6))) 60000.

(** One job: [None] when the worker stops in the middle. *)
Definition process_job (st : EventStore) (bk : BackupStore) (job : RetentionJob) (env : JobEnv)
    : EventStore * BackupStore * option (result unit StorageError) :=
  if je_stop env then (st, bk, None)
  else match pin_paths bk job (d_paths (jb_detection job)) (je_paths env) None with
  | (bk, None) => (st, bk, None)
  | (bk, Some (Some error)) =>
      let next := Z.min (sat_add (je_now env) (retry_delay_ms (jb_attempts job))) i64_max in
      let '(st, r) := record_retention_failure st (jb_detection_id job) error next (je_commit env) in
      (st, bk, Some r)
  | (bk, Some None) =>
      let '(st, r) := acknowledge_retention_job st (jb_detection_id job) (je_commit env) in
      (st, bk, Some r)
  end.

(** The jobs of one query; an error of recording a result does not stop the loop. *)
Fixpoint process_jobs (st : EventStore) (bk : BackupStore) (jobs : list RetentionJob) (env : nat -> JobEnv)
    : EventStore * BackupStore :=
  match jobs with
  | [] => (st, bk)
  | job :: jobs' =>
      match process_job st bk job (env 0%nat) with
      | (st, bk, None) => (st, bk)
      | (st, bk, Some _) => process_jobs st bk jobs' (fun n => env (S n))
      end
  end.

Definition retention_pass (st : EventStore) (bk : BackupStore) (now : Z) (env : nat -> JobEnv)
    : EventStore * BackupStore :=
  match pending_retention_jobs st now 16 with
  | Ok jobs => process_jobs st bk jobs env
  | Err _ => (st, bk)
  end.

(** * What a pass does *)

(** The evidence of a path before a detection is pinned for its incident. *)
Definition evidence_pinned (bk : BackupStore) (job : RetentionJob) (path : string) : Prop :=
  (exists id v, bk_versions bk !! id = Some v /\ bv_path v = path /\ bv_known_good v = true
     /\ bv_timestamp_ms v < d_timestamp_ms (jb_detection job))
  /\ forall id v, bk_versions bk !! id = Some v -> bv_path v = path -> bv_known_good v = true ->
       bv_timestamp_ms v < d_timestamp_ms (jb_detection job) ->
       exists pin p, tb_pins (bk_retention bk) !! pin = Some p /\ pin_version_id p = id
         /\ pin_incident_id p = incident_of job /\ pin_active p = true.

(** Pinning changes no version and no earlier pin. *)
Record pins_more (bk bk' : BackupStore) : Prop := mkPinsMore {
  pm_ok : state_ok bk -> state_ok bk';
  pm_versions : bk_versions bk' = bk_versions bk;
  pm_pins : state_ok bk -> tb_pins (bk_retention bk) ⊆ tb_pins (bk_retention bk');
}.

Lemma pins_more_refl (bk : BackupStore) : pins_more bk bk.
Proof. by split. Qed.
Lemma pins_more_trans (a b c : BackupStore) : pins_more a b -> pins_more b c -> pins_more a c.
Proof. intros [H1 H2 H3] [H4 H5 H6]. split; [by auto|congruence|]. intros H. etrans; auto. Qed.

Lemma pin_known_good_before_more (bk : BackupStore) path before incident actor reason now c :
  pins_more bk (pin_known_good_before bk path before incident actor reason now c).1.
Proof.
  split.
  - intros Hok. by apply pin_known_good_before_step.
  - unfold pin_known_good_before.
    match goal with |- context [transact bk c ?r] => by destruct (transact_cases bk c r) as [-> | (t & a & _ & ->)] end.
  - intros Hok. apply map_subseteq_spec. intros id p Hp.
    exact (other_operations_keep_pins bk (OpPinGood path before incident actor reason now c) id p Hok Hp).
Qed.

Lemma evidence_pinned_more (bk bk' : BackupStore) (job : RetentionJob) (path : string) :
  state_ok bk -> pins_more bk bk' -> evidence_pinned bk job path -> evidence_pinned bk' job path.
Proof.
  intros Hok [_ Hv Hp] [H1 H2]. unfold evidence_pinned. rewrite Hv. split; [done|].
  intros id v Hid Hpath Hg Ht. destruct (H2 id v Hid Hpath Hg Ht) as (pin & p & Hpin & ?).
  exists pin, p. split; [|done]. eapply lookup_weaken; [done|by apply Hp].
Qed.

Lemma pin_paths_ok (job : RetentionJob) (paths : list string) :
  forall (bk : BackupStore) (env : nat -> PathEnv) (failure : option string),
  state_ok bk ->
  let '(bk', r) := pin_paths bk job paths env failure in
  pins_more bk bk'
  /\ (r = Some None -> failure = None /\ forall path, path ∈ paths -> evidence_pinned bk' job path).
Proof.
  induction paths as [|path paths IH]; intros bk env failure Hok; cbn.
  { split; [apply pins_more_refl|]. intros [= ->]. split; [done|]. by intros ? ?%not_elem_of_nil. }
  destruct (pn_stop (env 0%nat)); [by split; [apply pins_more_refl|]|].
  set (r1 := pin_known_good_before _ _ _ _ _ _ _ _).
  assert (Hmore : pins_more bk r1.1) by apply pin_known_good_before_more.
  assert (Hcov : forall pins, r1.2 = Ok pins -> evidence_pinned r1.1 job path).
  { intros pins Hr. destruct (pin_known_good_before_covers _ _ _ _ _ _ _ _ _ Hok Hr) as (_ & Hv & Hex & Hcov & _).
    unfold evidence_pinned, r1. rewrite Hv. split; [done|]. intros id v Hid Hpath Hg Ht.
    destruct (Hcov id v Hid Hpath Hg Ht) as (p & _ & Hvid & Hi & Ha & Hp). exists (pin_id p), p. by split_and!. }
  destruct r1 as [bk1 [pins|error]]; cbn [fst snd] in *.
  - pose proof (IH bk1 (fun n => env (S n)) failure (pm_ok _ _ Hmore Hok)) as Hrec.
    destruct (pin_paths bk1 job paths _ failure) as [bk2 r]. destruct Hrec as [Hmore2 Hr].
    split; [by eapply pins_more_trans|]. intros Hn. destruct (Hr Hn) as [-> Hall]. split; [done|].
    intros q [->|Hq]%elem_of_cons; [|by apply Hall].
    eapply evidence_pinned_more; [by apply (pm_ok _ _ Hmore)|done|by eapply Hcov].
  - pose proof (IH bk1 (fun n => env (S n)) (Some (recovery_message error)) (pm_ok _ _ Hmore Hok)) as Hrec.
    destruct (pin_paths bk1 job paths _ _) as [bk2 r]. destruct Hrec as [Hmore2 Hr].
    split; [by eapply pins_more_trans|]. intros Hn. by destruct (Hr Hn).
Qed.

Lemma process_job_ok (st : EventStore) (bk : BackupStore) (job : RetentionJob) (env : JobEnv) :
  state_ok bk ->
  let '(st', bk', _) := process_job st bk job env in
  pins_more bk bk'
  /\ (st' = st
      \/ (exists error next, next <= i64_max
          /\ st' = (record_retention_failure st (jb_detection_id job) error next Committed).1)
      \/ st' = (acknowledge_retention_job st (jb_detection_id job) Committed).1
         /\ forall path, path ∈ d_paths (jb_detection job) -> evidence_pinned bk' job path).
Proof.
  intros Hok. unfold process_job. destruct (je_stop env); [by split; [apply pins_more_refl|left]|].
  pose proof (pin_paths_ok job (d_paths (jb_detection job)) bk (je_paths env) None Hok) as Hp.
  destruct (pin_paths _ _ _ _ _) as [bk1 [[error|]|]]; destruct Hp as [Hmore Hr]; [| |by split; [|left]].
  - set (next := Z.min _ i64_max).
    assert (Hc : (record_retention_failure st (jb_detection_id job) error next (je_commit env)).1 = st
      \/ (record_retention_failure st (jb_detection_id job) error next (je_commit env)).1
         = (record_retention_failure st (jb_detection_id job) error next Committed).1).
    { unfold record_retention_failure. destruct (_ <? next); [by left|apply transaction_committed]. }
    destruct (record_retention_failure _ _ _ _ (je_commit env)) as [st' r']. cbn [fst] in Hc.
    split; [done|]. destruct Hc as [-> | ->]; [by left|]. right. left. exists error, next.
    split; [unfold next; lia|done].
  - assert (Hc : (acknowledge_retention_job st (jb_detection_id job) (je_commit env)).1 = st
      \/ (acknowledge_retention_job st (jb_detection_id job) (je_commit env)).1
         = (acknowledge_retention_job st (jb_detection_id job) Committed).1) by apply transaction_committed.
    destruct (acknowledge_retention_job _ _ (je_commit env)) as [st' r']. cbn [fst] in Hc.
    split; [done|]. destruct Hc as [-> | ->]; [by left|]. right. right. split; [done|]. by apply Hr.
Qed.

(** Jobs that are gone after some processing have their evidence pinned. *)
Definition completed_pinned (jobs : list RetentionJob) (st st' : EventStore) (bk' : BackupStore) : Prop :=
  forall id row, es_jobs st !! id = Some row -> es_jobs st' !! id = None ->
    exists job, job ∈ jobs /\ jb_detection_id job = id
    /\ forall path, path ∈ d_paths (jb_detection job) -> evidence_pinned bk' job path.

Lemma process_jobs_ok (jobs : list RetentionJob) : forall (st : EventStore) (bk : BackupStore) (env : nat -> JobEnv),
  event_store_ok st -> state_ok bk ->
  let '(st', bk') := process_jobs st bk jobs env in
  event_store_ok st' /\ pins_more bk bk' /\ completed_pinned jobs st st' bk'.
Proof.
  induction jobs as [|job jobs IH]; intros st bk env Hst Hbk; cbn.
  { split_and!; [done|apply pins_more_refl|]. intros id row H1 H2. congruence. }
  pose proof (process_job_ok st bk job (env 0%nat) Hbk) as Hj.
  destruct (process_job st bk job (env 0%nat)) as [[st1 bk1] r]. destruct Hj as [Hmore Hcases].
  assert (Hst1 : event_store_ok st1).
  { destruct Hcases as [-> | [(error & next & _ & ->)|[-> _]]]; [done|..];
      [by apply record_retention_failure_ok|by apply acknowledge_retention_job_ok]. }
  assert (Hfirst : completed_pinned [job] st st1 bk1).
  { intros id row Hid Hnone. destruct Hcases as [-> | [(error & next & Hn & ->)|[-> Hev]]]; [congruence|..].
    - exfalso. revert Hnone. unfold record_retention_failure. apply Z.ltb_ge in Hn as ->. cbn.
      destruct (es_jobs st !! jb_detection_id job) eqn:E; cbn; [|congruence].
      intros [Hgone _]%lookup_insert_None. congruence.
    - exists job. split; [by left|]. split; [|done]. revert Hnone. unfold acknowledge_retention_job. cbn.
      destruct (is_some _); cbn; [|congruence]. intros [Heq|?]%lookup_delete_None; [done|congruence]. }
  destruct r as [r|].
  - pose proof (IH st1 bk1 (fun n => env (S n)) Hst1 (pm_ok _ _ Hmore Hbk)) as Hrec.
    destruct (process_jobs st1 bk1 jobs _) as [st2 bk2]. destruct Hrec as (Hst2 & Hmore2 & Hrest).
    split_and!; [done|by eapply pins_more_trans|]. intros id row Hid Hnone.
    destruct (es_jobs st1 !! id) as [row1|] eqn:E1.
    + destruct (Hrest id row1 E1 Hnone) as (j & Hj & ?). exists j. split; [by right|done].
    + destruct (Hfirst id row Hid E1) as (j & ->%list_elem_of_singleton & Hji & Hev). exists job.
      split; [by left|]. split; [done|]. intros path Hpath.
      eapply evidence_pinned_more; [by apply (pm_ok _ _ Hmore)|done|by apply Hev].
  - split_and!; [done|done|]. intros id row Hid Hnone.
    destruct (Hfirst id row Hid Hnone) as (j & ->%list_elem_of_singleton & ?). exists job. split; [by left|done].
Qed.

End Worker.

(** C20: A completed retention job means pinned evidence. Run a pass of the worker
    on any reachable event database and any reachable backup store, whatever
    fails and wherever it is stopped: when a job is gone afterwards, then for
    every path of the detection stored under its ID there was a good version
    from before the detection, and every such version is under an active pin
    of the detection's incident. Nothing that was pinned or stored changes. *)
Theorem completed_job_pins_evidence `{Json : DetectionJson} `{!DetectionJsonLaws} `{Hash : ContentHash}
    `{Display : RecoveryDisplay} (events : list EventOp) (limit : Z) (ops : list StoreOp) (now : Z)
    (env : nat -> JobEnv) :
  let st := event_run EventStore_new events in
  let bk := reached limit ops in
  let '(st', bk') := retention_pass st bk now env in
  bk_versions bk' = bk_versions bk /\ tb_pins (bk_retention bk) ⊆ tb_pins (bk_retention bk')
  /\ forall id row, es_jobs st !! id = Some row -> es_jobs st' !! id = None ->
       exists job, jb_detection_id job = id /\ es_detections st !! id = Some (jb_detection job)
       /\ forall path, path ∈ d_paths (jb_detection job) -> evidence_pinned bk' job path.
Proof.
  cbn zeta. destruct (event_run_ok events EventStore_new event_store_new_ok) as [Hst _].
  pose proof (store_reached_ok limit ops) as Hbk. unfold retention_pass.
  destruct (pending_retention_jobs _ now 16) as [jobs|e] eqn:Ej; [|split_and!; [done|done|congruence]].
  pose proof (process_jobs_ok jobs (event_run EventStore_new events) (reached limit ops) env Hst Hbk) as Hp.
  destruct (process_jobs _ _ jobs env) as [st' bk']. destruct Hp as (_ & Hmore & Hdone).
  split_and!; [apply Hmore|by apply (pm_pins _ _ Hmore)|]. intros id row Hid Hnone.
  destruct (Hdone id row Hid Hnone) as (job & Hjob & <- & Hev). exists job. split_and!; [done| |done].
  by eapply pending_jobs_detections.
Qed.

(** * Instances *)

#[local] Abbreviation digest := ("aaaaaaaaaaaaaaaaaaaaaaaaaaaaaaaaaaaaaaaaaaaaaaaaaaaaaaaaaaaaaaaa"%string).
#[local] Abbreviation constant_hash := ((fun _ => digest) : ContentHash).
#[local] Abbreviation a_detection := (mkDetection 15 "rule" (f_of_Z 50) High "summary" 7 ["/f"%string]).
#[local] Abbreviation recorded :=
  [OpRecord a_detection None true "" 20 Committed].
#[local] Abbreviation stored :=
  [OpBackup (mkBackupEnv (Some (true, 2)) (Some "v1"%string) true true Committed) "/f" 10 1;
   OpMark "/f" 1 "checked" true].
#[local] Abbreviation calm :=
  (fun _ : nat => mkJobEnv false (fun _ => mkPathEnv false 30 Committed) 31 Committed).

Lemma completed_job_pins_evidence_witness :
  exists job, jb_detection_id job = 1
    /\ forall path : string, path ∈ ["/f"%string] -> evidence_pinned
         (@retention_pass (one_json a_detection) (fun _ => "error"%string)
            (@event_run (one_json a_detection) EventStore_new recorded) (@reached constant_hash 100 stored) 25 calm).2
         job path.
Proof.
  pose proof (@completed_job_pins_evidence (one_json a_detection) (one_json_laws a_detection) constant_hash
    (fun _ => "error"%string) recorded 100 stored 25 calm) as H. cbn zeta in H.
  destruct (retention_pass _ _ 25 calm) as [st' bk'] eqn:E. destruct H as (_ & _ & H).
  destruct (H 1 (mkRetentionRow "json" 0 None 0)) as (job & Hid & Hd & Hev).
  - vm_compute. reflexivity.
  - apply (f_equal (fun r => es_jobs r.1 !! 1)) in E. cbn [fst] in E. rewrite <- E. vm_compute. reflexivity.
  - exists job. split; [exact Hid|]. 
    assert (Hone : es_detections (@event_run (one_json a_detection) EventStore_new recorded) !! 1 = Some a_detection)
      by (vm_compute; reflexivity).
    rewrite Hone in Hd. injection Hd as Hd. rewrite <- Hd in Hev. exact Hev.
Defined.
